(* ===== verification/_CoqProject ===== *)
-Q . S2P
Prelude.v
FixedPoint.v
Loan.v
Marginfi.v
RateCalc.v
Oracles.v
Ltv.v
SubVault.v
Hypertree.v
HypertreeFrame.v
HypertreeSpec.v
HypertreeOrder.v
HypertreeRemove.v
Market.v
MarketSpec.v
VaultTrees.v
VaultSpec.v
Matching.v
MatchingSpec.v
PlacementSpec.v
BidsSpec.v
RefinanceSpec.v
UserAccount.v
Runtime.v
LoanClose.v
Repay.v
Keeper.v
Promotion.v
Deposits.v
Claims.v
Convert.v
Admin.v
Orders.v
HypertreeValues.v
PolicySpec.v
StampSpec.v
Program.v
SystemSpec.v
RiskSpec.v
ProgramSpec.v
LoanLife.v
KeeperSpec.v
SubVaultSpec.v
Accounts.v
Loaders.v
Execute.v
ExecuteSpec.v
AccountsSpec.v
FundsSpec.v
Wire.v
WireSpec.v
Builders.v
BuildersSpec.v
Cpi.v
CpiSpec.v
StoreSpec.v
StoreChain.v
VaultStore.v
VaultLedger.v
VaultChain.v
Encumbrance.v
EncumbranceChain.v
HintSpec.v
UserStore.v
UserChain.v
