(* ===== verification/Prelude.v ===== *)
(** * yDelta: a verification development of the on-chain program

    yDelta ([programs/ydelta/], with its container library [lib/]) is a Solana program that
    lends at fixed rates on top of marginfi.  Lenders deposit into the sub-vaults of a
    global vault; a curator rests one ask per sub-vault and market; borrowers bid with
    collateral.  The matching engine crosses the two and queues a matched loan, which a
    crank promotes to a loan account; what finds no lender can borrow from marginfi at a
    variable rate and be refinanced later.  Loans are repaid by the borrower, or settled
    after maturity and liquidated under water by keepers.

    This development translates the program into Rocq functions and proves what they
    promise.  File and function names below are those of the repository.

    ** Reading the model

    - Integers are [Z] in the range of their type; every overflow is written out as the
      code has it (checked, saturating, wrapping casts, or a plain operator, which panics:
      the workspace builds with overflow checks).  [Fp48] is the 48-bit fixed-point type.
    - A handler returns [result]: [Ok], or an [Err] carrying the program's error, [Panic]
      standing for an aborted transaction (a failed index or assertion).  Solana discards
      the writes of a failed transaction, so a handler is a function from the accounts
      before to the accounts after.
    - Definitions keep the names of the source; a record field is prefixed by its record
      ([mf_], [cs_], [sv_], ...).  The handlers take the keys their account loader hands
      over, as a context record ([RepayContext], [KeeperContext], ...).
    - A region is a map of typed blocks, and code that follows an index it has stored
      itself reads a block as what was written there.  The one index a client chooses
      freely, the seat hint of five instructions, is read as the code reads it, on bytes:
      [get_helper_seat] in [Market] lays the blocks out ([market_block_bytes]) and
      reinterprets any aligned 160 bytes as a seat.  A hint may so resolve to an index that
      is no seat ([HintSpec]).  The code then goes on to read and write a seat there; the
      typed [get_seat] and [modify_seat] stop.  [honest_hint] says that a hint does not
      imitate a seat; the model and the program agree on the runs of [honest_step].
    - [r <| f := v |>] updates a field.  [returns r Q]: no panic, and [Q] of the value;
      [ensures r Q]: [Q] of the value if there is one.  Both walk through a computation
      with the lemmas of a hint database ([safe], [ensures]).

    ** The parts, bottom up

    - [Prelude]: the errors ([program/error.rs], [protocol/mod.rs]), the result monad,
      machine integers, record update, the two program logics and their tactics.
    - [FixedPoint] ([math.rs]), [RateCalc] ([protocol/marginfi_rate_calc.rs]), [Oracles]
      ([protocol/oracles.rs]), [Marginfi] ([protocol/marginfi.rs] and the account views of
      [marginfi-mocks]), [Ltv] ([state/ltv.rs]): arithmetic and adapters, on raw bytes.
    - [Loan] ([state/loan.rs]) and [SubVault] ([state/vault.rs], the records and the
      accrual): the two ledgers.
    - [Hypertree] ([lib/src]): the intrusive free list and red-black tree, pointer by
      pointer, over a store of typed blocks.  [HypertreeFrame], [HypertreeSpec],
      [HypertreeOrder] and [HypertreeValues] are its specification: the functional tree a
      region represents, the refinement of each operation to a sorted list, the frame,
      and that no operation changes a payload.  [HypertreeRemove] adds removal, with
      its fix-up of a double-black node.
    - [Market] ([state/market.rs], [claimed_seat.rs], [resting_order.rs], the seat half of
      [market_helpers.rs]) with [MarketSpec]; [VaultTrees] (the tree half of [vault.rs])
      with [VaultSpec]; [UserAccount] ([state/user_account.rs]): the accounts.
    - [Matching] ([state/market_helpers.rs]): the engines.  [MatchingSpec] proves the scan
      of the asks, [PlacementSpec] the placement of a bid around it, [BidsSpec] the take of
      the resting bids by an ask, [RefinanceSpec] the refinancing of a variable-rate loan.
    - [Runtime], [LoanClose], [Repay], [Keeper], [Promotion], [Deposits], [Claims],
      [Convert], [Admin], [Orders] ([program/processor/]): every handler of the program.
    - [Program] ([lib.rs], [program/instruction.rs], [validation/loaders.rs]): the
      instruction tags, the gates of the loaders, the dispatch, and [step], one successful
      transaction on all accounts of the program; [reachable] is its closure from the
      empty chain, [honestly_reachable] that of the transactions whose seat hints do not
      imitate a seat.
    - [Accounts] ([validation/] but for the loaders, the [_pda] functions of [state/]): the
      accounts as the runtime hands them over, the checked wrappers around them, derived
      addresses, and the account iterator as a state monad.  [Loaders]
      ([validation/loaders.rs]): every loader, from the account list to the context of its
      handler.  [Execute]: a transaction from its account list to the new state of the
      chain.  [ExecuteSpec] and [AccountsSpec] are their specification.
    - [Wire] (the [Params] structs of the handlers, [process_instruction] of [lib.rs]): the
      bytes of an instruction, from the tag and the parameters to the request, and the entry
      point of the program, with [WireSpec].  [Builders] ([program/instruction_builders/]):
      the instructions a client builds, with [BuildersSpec].
    - [StoreSpec] and [StoreChain] carry the invariant of the market region, [VaultStore],
      [VaultLedger] and [VaultChain] that of the vault region, through every operation,
      engine and handler that writes one.  [Encumbrance] and [EncumbranceChain] do the same
      for the balance between the seats of a market and the claims on them, [UserStore] and
      [UserChain] for the region of a user account and the life of one.  [HintSpec] settles
      what a seat hint may resolve to.
    - [Cpi] ([marginfi-mocks/src/cpi.rs], the call sites of [protocol/marginfi.rs]): the
      instructions the program sends to marginfi, account by account and byte by byte,
      with [CpiSpec].

    A transaction names a market, possibly a vault and a loan; [open_world] gathers them
    with the signer's user account and the ledger of foreign accounts, the dispatch runs
    the gate and the handler on this [World], [close_world] writes them back.  The
    handlers of the order book call the engines of [Matching], these the trees of
    [Hypertree]; the handlers of the loan life cycle share [LoanClose] and act on the
    ledgers of [Loan] and [SubVault].

    ** What is proved

    - Entry ([WireSpec], [ExecuteSpec], [AccountsSpec]): a transaction run from its raw bytes
      and account list is a [step], so every theorem on reachable states holds from there
      on; the bytes of an instruction are read in one way only; whom an instruction acts
      for has signed; derived addresses are disjoint.
    - Clients ([BuildersSpec]): what a client builds runs as the request it stands for, and
      the roles of the program can be handed over with built instructions.
    - Funds ([FundsSpec]): no transaction lowers what can be withdrawn from the seat of a
      user who has not signed it, if its seat hint does not imitate a seat.
    - Hints ([HintSpec]): a hint that does not imitate a seat is only a shortcut; but the
      fields of a resting order do imitate one, owned by the key they spell, with the
      stamped share price as its balance.  This is a flaw of the code (nothing checks that
      a seat was written where the hint points), and the reason for the premise on hints
      of the properties on seats: [FundsSpec], [StoreChain], [EncumbranceChain].  The other
      theorems on [reachable] are to be read of the same runs, since the model stops where
      such a hint is used.
    - Storage ([StoreChain], [VaultChain]): in every (honestly) reachable state the trees
      of every market are balanced, sorted and disjoint, share no block with its free list, and
      are what its header says they are; and the same of the trees of every vault, where
      moreover the shares of the depositors of a sub-vault add up to its total.
    - User accounts ([UserChain]): in its whole life a user account is exactly its lists and
      its free blocks, finds its entries and counts them.  It never lists a loan, and the
      reference to a bid that was filled or pruned stays in it.
    - Collateral ([EncumbranceChain]): in every honestly reachable state the shares
      encumbered on each seat cover the collateral of its resting bids, queued loans and
      loan accounts, and each of them can be released.  This
      one theorem assumes that marginfi pays out at most what a withdrawal asks for
      ([pays_at_most]), as its interface says; the check in the code alone lets one atom
      more pass.
    - Calls ([CpiSpec]): each call into marginfi carries the accounts it was given in the
      order of marginfi's interface, bytes that decode to the operation that was asked
      for, and no signature but the authority's.
    - Whole program ([PolicySpec], [StampSpec], [SystemSpec], [RiskSpec], [ProgramSpec],
      [LoanLife]): in every reachable state the risk parameters of sub-vaults, queued and
      promoted loans are in range; no loan, in whichever of the three walks it is minted, is
      liquidatable at the prices it was born at; a
      fixed loan changes only by payments, whose ledger adds up to simple interest; a
      paused program is frozen and can be unpaused; a role is handed over only by
      nomination and acceptance.  Nothing is assumed of marginfi (but for the collateral,
      above), of the token programs, of the oracles or of the clock.
    - Keepers ([KeeperSpec]): a liquidation is justified by the oracles, and the collateral
      it transfers is bounded by the value of the payment and by the loan's own; the
      split conserves the collateral; payments are finite; and the bookkeeping of a full
      payment goes through unless the debt is dust ([Loan.dust_close_out_fails] says
      exactly when a close-out does not).
    - Matching, placement, the take of resting bids and refinancing: atoms are conserved, gates are
      passed, price-time priority is respected, capacity is never over-committed, and no
      step panics.
    - Ledgers: accrual is simple interest in closed form, path independent, and conserves
      the buckets; the sub-vault accrual marks to market within its bounds.  Sub-vaults
      ([SubVaultSpec]): shares dilute nobody, a loan funded and closed leaves the book of
      its sub-vault as it was, and partial repayments can lock one up.
    - Containers: insertion and removal refine the sorted list and keep the balance; lookup is exact
      and logarithmic; iteration stops and lists every entry once; allocation stops.
    - Arithmetic, rates, oracles, loan-to-value: exactness of the helpers, monotonicity and
      safety of the gates, authenticity of accepted prices.

    Theorems that a reader would quote are marked C1, C2, ... in their comments, and each
    one with hypotheses is followed by a [_witness] that instantiates it on concrete
    accounts, with marginfi and the token programs given by concrete functions.

    ** Fuel

    A loop over a tree or a free list takes its fuel from the size of the region it walks;
    on a region that satisfies its invariant the contracts show that the loop ends before,
    so running out means a corrupt region, and is a panic like the exhausted compute
    budget.  The scans of the engines take one unit per resting order.

    ** What is not modelled, and why

    - The bytes of the program's own accounts, but for the read of a seat hint: a region is
      a map from block index to a typed node.  Reading or writing a block of another type,
      or at an offset into one, panics here, where the code would reinterpret the bytes.
      On the indices the program stores the contracts show that it does not happen; after
      a seat hint that imitates a seat it does, and what the program then writes into the
      order (or pays out) is not followed.
    - marginfi, the token programs, the system program and the borsh library: they are not
      in the repository, and are parameters of the sections that call them.  Of borsh only
      the codecs of the primitive types are assumed ([BorshLaws]); [le_borsh] satisfies them.
    - The event logs ([logs.rs]), rent, reallocation of account data, and the compute
      budget: no state of the program depends on them.
    - The hash behind a derived address, the unpacking of mints and token accounts, and the
      funding of a new account by the system program: they are the fields of [Host].
    - What marginfi does with a call: its accounts after one are what the ledger of the
      runtime says, and the handlers check what they rely on.
    - Debug assertions, [Display] and zero-copy boilerplate, client code other than the
      instruction builders, and tests. *)
From Stdlib Require Import ZArith Lia.
From stdpp Require Import base numbers list option.

Declare Scope ydelta_scope.
Delimit Scope ydelta_scope with yd.
#[global] Open Scope Z_scope.

(** ** Errors *)

(** The error enum of the program ([program/error.rs]); [ydelta_error_code]
    is the explicit [repr(u32)] discriminant of each variant. *)
Inductive YdeltaError :=
  | InvalidMarketParameters | InvalidDepositAccounts | InvalidWithdrawAccounts
  | InvalidCancel | InvalidFreeList | AlreadyClaimedSeat | PostOnlyWouldCross
  | OrderAlreadyExpired | WrongIndexHintParams | Overflow | IncorrectAccount
  | InvalidMint | NoSeatClaimed | SeatHasOpenObligations
  | InsufficientWithdrawableBalance | RateBelowFloor | TermNotCompatible
  | CollateralInsufficient | Token2022UnsupportedExtension | OrderNotFound
  | OrderNotOwnedBySigner | InvalidArgument | MatchedLoanNotFound
  | SelfMatchForbidden | CollateralBelowMatchLTV | VaultWrongMint
  | SubVaultNotFound | VaultOrderTermExceedsSubVaultMax | VaultCuratorRequired
  | VaultAdminRequired | SubVaultOrderExists | VaultInsufficientIdleAtoms
  | SubVaultNotEmpty | SubVaultIdExists | SubVaultLtvOutOfRange
  | SubVaultTermInvalid | LoanNotMatured | LoanStillSolvent
  | LiquidatorPaymentInsufficient | LiquidationCollateralUnderflow
  | MarketAdminRequired | InvalidFeeConfig | PendingAdminMismatch
  | MarketPaused | GlobalPaused | ProtocolAdminRequired | OracleDegenerate
  | VaultPaused | MathDivisionByZero | MathOverflow
  | InsufficientEncumberedCollateral | SubVaultSunset | SubVaultNotSunset
  | FallbackLtvInsufficient.

Definition ydelta_error_code (e : YdeltaError) : Z :=
  match e with
  | InvalidMarketParameters => 0 | InvalidDepositAccounts => 1
  | InvalidWithdrawAccounts => 2 | InvalidCancel => 3 | InvalidFreeList => 4
  | AlreadyClaimedSeat => 5 | PostOnlyWouldCross => 6 | OrderAlreadyExpired => 7
  | WrongIndexHintParams => 8 | Overflow => 9 | IncorrectAccount => 10
  | InvalidMint => 11 | NoSeatClaimed => 12 | SeatHasOpenObligations => 13
  | InsufficientWithdrawableBalance => 14 | RateBelowFloor => 15
  | TermNotCompatible => 16 | CollateralInsufficient => 17
  | Token2022UnsupportedExtension => 18 | OrderNotFound => 19
  | OrderNotOwnedBySigner => 20 | InvalidArgument => 21
  | MatchedLoanNotFound => 22 | SelfMatchForbidden => 23
  | CollateralBelowMatchLTV => 24 | VaultWrongMint => 25 | SubVaultNotFound => 26
  | VaultOrderTermExceedsSubVaultMax => 28 | VaultCuratorRequired => 29
  | VaultAdminRequired => 30 | SubVaultOrderExists => 32
  | VaultInsufficientIdleAtoms => 33 | SubVaultNotEmpty => 34
  | SubVaultIdExists => 36 | SubVaultLtvOutOfRange => 37
  | SubVaultTermInvalid => 38 | LoanNotMatured => 39 | LoanStillSolvent => 40
  | LiquidatorPaymentInsufficient => 41 | LiquidationCollateralUnderflow => 42
  | MarketAdminRequired => 43 | InvalidFeeConfig => 44
  | PendingAdminMismatch => 45 | MarketPaused => 46 | GlobalPaused => 47
  | ProtocolAdminRequired => 48 | OracleDegenerate => 49 | VaultPaused => 50
  | MathDivisionByZero => 51 | MathOverflow => 52
  | InsufficientEncumberedCollateral => 53 | SubVaultSunset => 54
  | SubVaultNotSunset => 55 | FallbackLtvInsufficient => 56
  end.

(** The adapter-side error enum ([protocol/mod.rs]). *)
Inductive AdapterError :=
  | UnexpectedAtomDelta | InvalidIntegrationAccount | OracleStale
  | OracleSetupUnsupported | OracleMaxConfidenceExceeded
  | OracleAccountMismatch | OracleNonPositive.

Definition adapter_error_code (e : AdapterError) : Z :=
  match e with
  | UnexpectedAtomDelta => 100 | InvalidIntegrationAccount => 101
  | OracleStale => 102 | OracleSetupUnsupported => 103
  | OracleMaxConfidenceExceeded => 104 | OracleAccountMismatch => 105
  | OracleNonPositive => 106
  end.

(** What an instruction returns: the variants of Solana's [ProgramError] the
    program uses, and [Panic] for an aborted instruction (an out-of-range slice,
    a failed [assert!], an arithmetic operator that overflows: the workspace
    builds with [overflow-checks = true]). *)
Inductive ProgramError :=
  | Custom (code : Z)
  | ArithmeticOverflow
  | InvalidAccountData
  | InvalidInstructionData
  | AccountDataTooSmall
  | IncorrectProgramId
  | IllegalOwner
  | MissingRequiredSignature
  | NotEnoughAccountKeys
  | BorshIoError
  | Panic.

(** [impl From<YdeltaError> for ProgramError]. *)
Definition ydelta_error (e : YdeltaError) : ProgramError := Custom (ydelta_error_code e).
(** [impl From<AdapterError> for ProgramError]. *)
Definition adapter_error (e : AdapterError) : ProgramError := Custom (adapter_error_code e).

Coercion ydelta_error : YdeltaError >-> ProgramError.
Coercion adapter_error : AdapterError >-> ProgramError.

(** ** The result monad *)

(** A fallible operation. An [Err] aborts the transaction, so the state an
    operation had built up is dropped with it. *)
Inductive result (A : Type) :=
  | Ok (a : A)
  | Err (e : ProgramError).
Arguments Ok {A} a.
Arguments Err {A} e.

#[global] Instance result_ret : MRet result := @Ok.
#[global] Instance result_bind : MBind result := λ A B f r,
  match r with Ok a => f a | Err e => Err e end.
#[global] Instance result_fmap : FMap result := λ A B f r,
  match r with Ok a => Ok (f a) | Err e => Err e end.

Definition is_Ok {A} (r : result A) : bool := match r with Ok _ => true | Err _ => false end.

(** The [require!] macro: the guard of an instruction. *)
Definition require (test : bool) (e : ProgramError) : result unit :=
  if test then Ok tt else Err e.

(** [Option::ok_or]. *)
Definition ok_or {A} (o : option A) (e : ProgramError) : result A :=
  match o with Some a => Ok a | None => Err e end.

(** [Result::map_err] with a constant. *)
Definition map_err {A} (r : result A) (e : ProgramError) : result A :=
  match r with Ok a => Ok a | Err _ => Err e end.

(** ** Identities *)

(** A 32-byte public key, read as a big-endian integer: numeric order is the
    byte-lexicographic order the program compares keys with. *)
Abbreviation Pubkey := Z (only parsing).
Definition Pubkey_default : Z := 0.

(** The null [DataIndex] of the dynamic account regions ([u32::MAX]). *)
Definition NIL : Z := 4294967295.

(** ** Machine integers *)

(** A [uN] value is a [Z] in [[0, 2^N)]. *)
Abbreviation U8 := 8 (only parsing).
Abbreviation U16 := 16 (only parsing).
Abbreviation U32 := 32 (only parsing).
Abbreviation U64 := 64 (only parsing).
Abbreviation U128 := 128 (only parsing).
Abbreviation U256 := 256 (only parsing).

Definition in_u (w x : Z) : Prop := 0 <= x < 2 ^ w.
Definition in_i (w x : Z) : Prop := - 2 ^ (w - 1) <= x < 2 ^ (w - 1).
Definition umax (w : Z) : Z := 2 ^ w - 1.

#[global] Instance in_u_dec w x : Decision (in_u w x).
Proof. unfold in_u. apply _. Defined.
#[global] Instance in_i_dec w x : Decision (in_i w x).
Proof. unfold in_i. apply _. Defined.

Definition checked_add (w a b : Z) : option Z :=
  if a + b <? 2 ^ w then Some (a + b) else None.
Definition checked_sub (a b : Z) : option Z :=
  if b <=? a then Some (a - b) else None.
Definition checked_mul (w a b : Z) : option Z :=
  if a * b <? 2 ^ w then Some (a * b) else None.
Definition checked_div (a b : Z) : option Z :=
  if b =? 0 then None else Some (a / b).
(** [uN::try_from] of a wider unsigned value. *)
Definition try_from (w x : Z) : option Z := if x <? 2 ^ w then Some x else None.
Definition saturating_add (w a b : Z) : Z := Z.min (umax w) (a + b).
Definition saturating_sub (a b : Z) : Z := Z.max 0 (a - b).
(** An [as uN] cast. *)
Definition as_u (w x : Z) : Z := x mod 2 ^ w.
(** An [as iN] cast. *)
Definition as_i (w x : Z) : Z := (x + 2 ^ (w - 1)) mod 2 ^ w - 2 ^ (w - 1).

(** Checked and saturating operations on signed integers. *)
Definition fits_i (w x : Z) : bool := (- 2 ^ (w - 1) <=? x) && (x <? 2 ^ (w - 1)).
Definition checked_add_i (w a b : Z) : option Z := if fits_i w (a + b) then Some (a + b) else None.
Definition checked_sub_i (w a b : Z) : option Z := if fits_i w (a - b) then Some (a - b) else None.
Definition imax (w : Z) : Z := 2 ^ (w - 1) - 1.
Definition imin (w : Z) : Z := - 2 ^ (w - 1).
Definition saturating_add_i (w a b : Z) : Z := Z.max (imin w) (Z.min (imax w) (a + b)).
Definition saturating_sub_i (w a b : Z) : Z := Z.max (imin w) (Z.min (imax w) (a - b)).

(** Plain operators under [overflow-checks]: a value outside the type panics. *)
Definition panic_add (w a b : Z) : result Z := ok_or (checked_add w a b) Panic.
Definition panic_sub (a b : Z) : result Z := ok_or (checked_sub a b) Panic.
Definition panic_mul (w a b : Z) : result Z := ok_or (checked_mul w a b) Panic.
Definition panic_sub_i (w a b : Z) : result Z := ok_or (checked_sub_i w a b) Panic.

(** ** Tactics for machine integers *)

(** Evaluates the closed powers of two, so that [lia] sees literals. *)
Ltac norm_pow :=
  repeat match goal with
  | |- context [2 ^ Zpos ?n] =>
      let v := eval vm_compute in (2 ^ Zpos n) in change (2 ^ Zpos n) with v
  | H : context [2 ^ Zpos ?n] |- _ =>
      let v := eval vm_compute in (2 ^ Zpos n) in change (2 ^ Zpos n) with v in H
  | |- context [2 ^ (Zpos ?n - Zpos ?m)] =>
      let v := eval vm_compute in (2 ^ (Zpos n - Zpos m)) in
      change (2 ^ (Zpos n - Zpos m)) with v
  | H : context [2 ^ (Zpos ?n - Zpos ?m)] |- _ =>
      let v := eval vm_compute in (2 ^ (Zpos n - Zpos m)) in
      change (2 ^ (Zpos n - Zpos m)) with v in H
  end.

Ltac unfold_ints :=
  unfold saturating_add, saturating_sub, saturating_add_i, saturating_sub_i in *;
  unfold in_u, in_i, umax, imax, imin in *.

(** [lia] over the machine-integer vocabulary. *)
Ltac zlia := unfold_ints; norm_pow; lia.
Ltac znia := unfold_ints; norm_pow; nia.

(** The product of two bounded factors. *)
Lemma mul_range a b m n : 0 <= a < 2 ^ m → 0 <= b < 2 ^ n → 0 <= m → 0 <= n →
  0 <= a * b < 2 ^ (m + n).
Proof. intros. rewrite Z.pow_add_r by done. nia. Qed.

(** A quotient of a bounded dividend. *)
Lemma div_range a b m : 0 <= a < m → 0 < b → 0 <= a / b < m.
Proof.
  intros. split; [apply Z.div_pos; lia|].
  apply Z.le_lt_trans with a; [|lia]. apply Z.div_le_upper_bound; nia.
Qed.

(** Case analysis on integer comparisons. *)
Ltac solve_cmp :=
  repeat match goal with
  | |- context [?a ?= ?b] => destruct (Z.compare_spec a b)
  | H : context [?a ?= ?b] |- _ => destruct (Z.compare_spec a b)
  end; simpl in *; try done; try lia.

(** ** Inversion of successful computations *)

Section result_lemmas.
Context {A B : Type}.
Implicit Types (r : result A) (f : A → result B).

Lemma bind_Ok r f b : (r ≫= f) = Ok b ↔ ∃ a, r = Ok a ∧ f a = Ok b.
Proof.
  destruct r as [a|e]; simpl; split.
  - intros H. by exists a.
  - by intros (a' & [= <-] & H).
  - done.
  - by intros (a' & [=] & _).
Qed.

Lemma bind_Err r f e :
  (r ≫= f) = Err e ↔ r = Err e ∨ ∃ a, r = Ok a ∧ f a = Err e.
Proof.
  destruct r as [a|e']; simpl; split.
  - intros H. right. by exists a.
  - by intros [[=]|(a' & [= <-] & H)].
  - intros [= ->]. by left.
  - intros [[= ->]|(a' & [=] & _)]. done.
Qed.

Lemma ok_or_Ok (o : option A) e a : ok_or o e = Ok a ↔ o = Some a.
Proof. destruct o; simpl; split; congruence. Qed.

Lemma ok_or_Err (o : option A) e e' : ok_or o e = Err e' ↔ o = None ∧ e = e'.
Proof. destruct o; simpl; split; naive_solver. Qed.

Lemma map_err_Ok r e a : map_err r e = Ok a ↔ r = Ok a.
Proof. destruct r; simpl; split; congruence. Qed.

Lemma is_Ok_spec r : is_Ok r = true ↔ ∃ a, r = Ok a.
Proof. destruct r; simpl; naive_solver. Qed.
End result_lemmas.

Lemma bind_assoc {A B C} (r : result A) (f : A → result B) (g : B → result C) :
  ((r ≫= f) ≫= g) = (r ≫= λ a, f a ≫= g).
Proof. by destruct r. Qed.

Lemma require_Ok b e u : require b e = Ok u ↔ b = true.
Proof. destruct b, u; simpl; split; congruence. Qed.

Lemma require_Err b e e' : require b e = Err e' ↔ b = false ∧ e = e'.
Proof. destruct b; simpl; split; naive_solver. Qed.

Lemma checked_add_Some w a b c : checked_add w a b = Some c ↔ c = a + b ∧ a + b < 2 ^ w.
Proof. unfold checked_add. destruct (Z.ltb_spec (a + b) (2 ^ w)); naive_solver lia. Qed.
Lemma checked_add_None w a b : checked_add w a b = None ↔ 2 ^ w <= a + b.
Proof. unfold checked_add. destruct (Z.ltb_spec (a + b) (2 ^ w)); naive_solver lia. Qed.
Lemma checked_sub_Some a b c : checked_sub a b = Some c ↔ c = a - b ∧ b <= a.
Proof. unfold checked_sub. destruct (Z.leb_spec b a); naive_solver lia. Qed.
Lemma checked_sub_None a b : checked_sub a b = None ↔ a < b.
Proof. unfold checked_sub. destruct (Z.leb_spec b a); naive_solver lia. Qed.
Lemma checked_mul_Some w a b c : checked_mul w a b = Some c ↔ c = a * b ∧ a * b < 2 ^ w.
Proof. unfold checked_mul. destruct (Z.ltb_spec (a * b) (2 ^ w)); naive_solver lia. Qed.
Lemma checked_mul_None w a b : checked_mul w a b = None ↔ 2 ^ w <= a * b.
Proof. unfold checked_mul. destruct (Z.ltb_spec (a * b) (2 ^ w)); naive_solver lia. Qed.
Lemma checked_div_Some a b c : checked_div a b = Some c ↔ c = a / b ∧ b ≠ 0.
Proof. unfold checked_div. destruct (Z.eqb_spec b 0); naive_solver. Qed.
Lemma try_from_Some w x y : try_from w x = Some y ↔ y = x ∧ x < 2 ^ w.
Proof. unfold try_from. destruct (Z.ltb_spec x (2 ^ w)); naive_solver lia. Qed.
Lemma try_from_None w x : try_from w x = None ↔ 2 ^ w <= x.
Proof. unfold try_from. destruct (Z.ltb_spec x (2 ^ w)); naive_solver lia. Qed.
Lemma checked_sub_i_Some w a b c :
  checked_sub_i w a b = Some c ↔ c = a - b ∧ - 2 ^ (w - 1) <= a - b < 2 ^ (w - 1).
Proof.
  unfold checked_sub_i, fits_i.
  destruct (Z.leb_spec (- 2 ^ (w - 1)) (a - b)), (Z.ltb_spec (a - b) (2 ^ (w - 1)));
    simpl; naive_solver lia.
Qed.
Lemma checked_add_i_Some w a b c :
  checked_add_i w a b = Some c ↔ c = a + b ∧ - 2 ^ (w - 1) <= a + b < 2 ^ (w - 1).
Proof.
  unfold checked_add_i, fits_i.
  destruct (Z.leb_spec (- 2 ^ (w - 1)) (a + b)), (Z.ltb_spec (a + b) (2 ^ (w - 1)));
    simpl; naive_solver lia.
Qed.

(** Forward evaluation: a checked operation on operands that fit. *)
Lemma add_ok w a b e : a + b < 2 ^ w → ok_or (checked_add w a b) e = Ok (a + b).
Proof. intros. by rewrite (proj2 (checked_add_Some w a b (a + b))). Qed.
Lemma sub_ok a b e : b <= a → ok_or (checked_sub a b) e = Ok (a - b).
Proof. intros. by rewrite (proj2 (checked_sub_Some a b (a - b))). Qed.
Lemma mul_ok w a b e : a * b < 2 ^ w → ok_or (checked_mul w a b) e = Ok (a * b).
Proof. intros. by rewrite (proj2 (checked_mul_Some w a b (a * b))). Qed.
Lemma try_from_ok w x e : x < 2 ^ w → ok_or (try_from w x) e = Ok x.
Proof. intros. by rewrite (proj2 (try_from_Some w x x)). Qed.
Lemma require_true b e : b = true → require b e = Ok tt.
Proof. by intros ->. Qed.

(** One inversion step on a hypothesis that says a computation succeeded. *)
Ltac inv_ok_step H :=
  lazymatch type of H with
  | (_ ≫= _) = Ok _ =>
      let a := fresh "a" in let H1 := fresh H in
      apply bind_Ok in H; destruct H as (a & H1 & H); try inv_ok_step H1
  | (_ ≫= _) = Some _ =>
      let a := fresh "a" in let H1 := fresh H in
      apply bind_Some in H; destruct H as (a & H1 & H); try inv_ok_step H1; try inv_ok_step H
  | mret _ = Ok _ => injection H as H
  | Ok _ = Ok _ => injection H as H
  | Err _ = Ok _ => discriminate H
  | require _ _ = Ok _ => apply require_Ok in H
  | map_err _ _ = Ok _ => apply map_err_Ok in H; try inv_ok_step H
  | ok_or _ _ = Ok _ => apply ok_or_Ok in H; try inv_ok_step H
  | checked_add _ _ _ = Some _ => apply checked_add_Some in H; destruct H as [-> H]
  | checked_sub _ _ = Some _ => apply checked_sub_Some in H; destruct H as [-> H]
  | checked_mul _ _ _ = Some _ => apply checked_mul_Some in H; destruct H as [-> H]
  | checked_div _ _ = Some _ => apply checked_div_Some in H; destruct H as [-> H]
  | checked_add_i _ _ _ = Some _ => apply checked_add_i_Some in H; destruct H as [-> H]
  | checked_sub_i _ _ _ = Some _ => apply checked_sub_i_Some in H; destruct H as [-> H]
  | try_from _ _ = Some _ => apply try_from_Some in H; destruct H as [-> H]
  end.

(** Inverts every success hypothesis of the context. *)
Ltac inv_ok := repeat (simpl in *; match goal with
  | u : unit |- _ => destruct u
  | H : _ = Ok _ |- _ => progress (inv_ok_step H)
  | H : (let '(_, _) := ?p in _) = Ok _ |- _ => destruct p eqn:?
  end).

(** ** Computations that do not abort

    [returns r Q]: [r] succeeds with a value satisfying [Q], or fails with an error
    of the program, never with a panic.  The hint database [safe] collects the
    operations that cannot panic on any input. *)
Definition returns {A} (r : result A) (Q : A → Prop) : Prop :=
  match r with Ok a => Q a | Err e => e ≠ Panic end.

Create HintDb safe discriminated.

Section returns.
Context {A B : Type}.
Implicit Types (r : result A) (Q : A → Prop).

Lemma returns_Ok (a : A) Q : Q a → returns (Ok a) Q.
Proof. done. Qed.

Lemma returns_Err (e : ProgramError) Q : e ≠ Panic → returns (Err (A:=A) e) Q.
Proof. done. Qed.

Lemma returns_bind r (f : A → result B) (Q : B → Prop) :
  returns r (λ a, returns (f a) Q) → returns (r ≫= f) Q.
Proof. by destruct r. Qed.

Lemma returns_fmap r (f : A → B) (Q : B → Prop) : returns r (λ a, Q (f a)) → returns (f <$> r) Q.
Proof. by destruct r. Qed.

Lemma returns_mono r Q Q' : returns r Q → (∀ a, r = Ok a → Q a → Q' a) → returns r Q'.
Proof. destruct r; simpl; auto. Qed.

(** A safe computation returns whatever its results satisfy. *)
Lemma returns_safe r Q : returns r (λ _, True) → (∀ a, r = Ok a → Q a) → returns r Q.
Proof. destruct r; simpl; auto. Qed.

Lemma returns_eq r a Q : r = Ok a → Q a → returns r Q.
Proof. by intros ->. Qed.

Lemma returns_ok_or (o : option A) e Q :
  e ≠ Panic → (∀ a, o = Some a → Q a) → returns (ok_or o e) Q.
Proof. destruct o; simpl; auto. Qed.

Lemma returns_no_panic r Q : returns r Q → r ≠ Err Panic.
Proof. destruct r; simpl; congruence. Qed.
End returns.

Lemma returns_require b e (Q : unit → Prop) :
  e ≠ Panic → (b = true → Q tt) → returns (require b e) Q.
Proof. destruct b; simpl; auto. Qed.

#[export] Hint Resolve returns_Ok : safe.

(** Walks through a computation whose steps are safe. *)
Ltac safe_walk :=
  repeat first
    [ match goal with
      | |- True => exact I
      | |- returns (_ ≫= _) _ => apply returns_bind
      | |- returns (_ <$> _) _ => apply returns_fmap
      | |- returns (require _ _) _ => apply returns_require; [discriminate|intros ?]
      | |- returns (ok_or _ _) _ => apply returns_ok_or; [discriminate|intros ? ?]
      | |- returns (Err _) _ => discriminate
      | |- returns (Ok _) _ => apply returns_Ok; cbv beta
      | |- returns (mret _) _ => apply returns_Ok; cbv beta
      | |- returns (if ?b then _ else _) _ => destruct b
      | |- returns (let '(_, _) := ?p in _) _ => destruct p
      | |- returns _ _ => eapply returns_safe; [solve [auto with safe]|intros ? _]
      end ].

(** ** What a successful computation ensures

    [ensures r Q]: if [r] succeeds, its value satisfies [Q].  The hint database
    [ensures] collects such facts of operations; [ensure_walk] takes them through a
    computation, forgetting what it knows nothing of. *)
Definition ensures {A} (r : result A) (Q : A → Prop) : Prop := ∀ a, r = Ok a → Q a.

Create HintDb ensures.

Section ensures.
Context {A B : Type}.
Implicit Types (r : result A) (Q : A → Prop).

Lemma ensures_Ok (a : A) Q : Q a → ensures (Ok a) Q.
Proof. by intros H ? [= <-]. Qed.

Lemma ensures_Err (e : ProgramError) Q : ensures (Err (A:=A) e) Q.
Proof. by intros ? [=]. Qed.

Lemma ensures_bind r (f : A → result B) (Q : B → Prop) :
  ensures r (λ a, ensures (f a) Q) → ensures (r ≫= f) Q.
Proof. intros H b (a & Ha & Hb)%bind_Ok. by apply (H a). Qed.

Lemma ensures_fmap r (f : A → B) (Q : B → Prop) : ensures r (λ a, Q (f a)) → ensures (f <$> r) Q.
Proof. destruct r; intros H ? [= <-]. by apply H. Qed.

Lemma ensures_mono r Q Q' : ensures r Q → (∀ a, Q a → Q' a) → ensures r Q'.
Proof. intros H HQ a Ha. by apply HQ, H. Qed.

Lemma ensures_with r Q Q' : (∀ a, r = Ok a → Q a → Q' a) → ensures r Q → ensures r Q'.
Proof. intros H HQ a Ha. by apply H, HQ. Qed.
End ensures.

Ltac ensure_step :=
  match goal with
  | |- ensures (Err _) _ => apply ensures_Err
  | |- ensures (Ok _) _ => apply ensures_Ok; cbv beta
  | |- ensures (mret _) _ => apply ensures_Ok; cbv beta
  | |- ensures (_ ≫= _) _ => apply ensures_bind
  | |- ensures (_ <$> _) _ => apply ensures_fmap
  | |- ensures (if ?b then _ else _) _ => destruct b eqn:?
  | |- ensures (match ?x with _ => _ end) _ => destruct x eqn:?
  | |- ensures (let _ := _ in _) _ => cbv zeta
  | |- ensures _ _ => eapply ensures_mono; [solve [eauto with ensures]|cbv beta; intros ? ?]
  | |- ensures _ _ => let H := fresh in intros ? H; clear H; cbv beta
  | |- let '(_, _) := ?p in _ => destruct p
  end.
Ltac ensure_walk := repeat ensure_step.

(** One step of which nothing is remembered but that it succeeded. *)
Ltac forget :=
  apply ensures_bind; let H := fresh in intros ? H; clear H; cbv beta;
  repeat match goal with |- ensures (let '(_, _) := ?p in _) _ => destruct p end.

(** ** Record update

    [r <| f := v |>] replaces the field [f] of [r].  A record declares its eta
    expansion as an instance of [Eta]; the setter of a projection is computed
    from it, so that [g (r <| f := v |>)] reduces to [g r] when [g] is another
    projection. *)
Class Eta (R : Type) := eta_expand : R → R.
Class FieldSetter {R T : Type} (proj : R → T) := set_field : (T → T) → R → R.
Arguments set_field {R T} proj {_} f r.

Ltac solve_field_setter :=
  lazymatch goal with
  | |- @FieldSetter ?R ?T ?proj =>
      let inst := constr:(_ : Eta R) in
      let body := eval hnf in inst in
      exact (λ (f : T → T) (r : R), ltac:(
        let t := eval cbv beta in (body r) in
        lazymatch eval pattern (proj r) in t with
        | ?g _ => let u := eval cbv beta in (g (f (proj r))) in exact u
        end))
  end.
#[export] Hint Extern 0 (FieldSetter _) => solve_field_setter : typeclass_instances.

Notation "r <| f := v |>" := (set_field f (λ _, v) r)
  (at level 12, f at next level, left associativity, format "r  <| f  :=  v |>").
Notation "r <| f ::= g |>" := (set_field f g r)
  (at level 12, f at next level, left associativity, format "r  <| f  ::=  g |>").
Arguments set_field {R T} proj {_} f r /.
