(* ===== verification/FixedPoint.v ===== *)
(** * Fixed-point arithmetic ([programs/ydelta/src/math.rs])

    The 48-bit fixed-point type [Fp48] and the wide-multiply helpers behind it,
    with the [U256] intermediates written out limb by limb.  The [*_spec]
    lemmas give each helper as one closed formula on in-range operands; every
    other file reasons through them. *)
From stdpp Require Import base numbers list option.
From S2P Require Import Prelude.
Local Open Scope Z_scope.

Definition SCALE_BITS : Z := 48.
Definition SCALE : Z := Z.shiftl 1 SCALE_BITS.

(** ** The raw helpers *)

(** Limb [i] of a 256-bit integer, as [U256::as_limbs] returns them. *)
Definition limb (x i : Z) : Z := Z.land (Z.shiftr x (64 * i)) (umax U64).

Definition u256_to_u128 (x : Z) : result Z :=
  if negb (limb x 2 =? 0) || negb (limb x 3 =? 0) then Err MathOverflow
  else Ok (Z.lor (limb x 0) (Z.shiftl (limb x 1) 64)).

(** [U256] left shift: bits above 256 are dropped. *)
Definition u256_shl (x n : Z) : Z := as_u U256 (Z.shiftl x n).

Definition mul_scale (a b : Z) : result Z :=
  prod ← ok_or (checked_mul U256 a b) MathOverflow;
  u256_to_u128 (Z.shiftr prod SCALE_BITS).

Definition div_scale (a b : Z) : result Z :=
  if b =? 0 then Err MathDivisionByZero else
  let num := u256_shl a SCALE_BITS in
  q ← ok_or (checked_div num b) MathOverflow;
  u256_to_u128 q.

Definition to_scaled (amount : Z) : result Z :=
  if negb (Z.shiftr amount (128 - SCALE_BITS) =? 0) then Err MathOverflow
  else Ok (as_u U128 (Z.shiftl amount SCALE_BITS)).

Definition from_scaled_floor (scaled : Z) : Z := Z.shiftr scaled SCALE_BITS.

Definition from_scaled_ceil (scaled : Z) : result Z :=
  let mask := Z.shiftl 1 SCALE_BITS - 1 in
  let truncated := Z.shiftr scaled SCALE_BITS in
  if negb (Z.land scaled mask =? 0)
  then ok_or (checked_add U128 truncated 1) MathOverflow
  else Ok truncated.

Definition mul_div (a b c : Z) (ceil : bool) : result Z :=
  if c =? 0 then Err MathDivisionByZero else
  prod ← ok_or (checked_mul U256 a b) MathOverflow;
  let q := prod / c in
  let r := prod mod c in
  res ← (if ceil && negb (r =? 0)
         then ok_or (checked_add U256 q 1) MathOverflow
         else Ok q);
  u256_to_u128 res.

Definition mul_div_u64 (a b c : Z) (ceil : bool) : result Z :=
  res ← mul_div a b c ceil;
  ok_or (try_from U64 res) MathOverflow.

(** ** The [Fp48] type *)

(** [#[repr(transparent)] struct Fp48(u128)]: the raw value is
    [real_value * 2^48]. *)
Record Fp48 := from_raw { raw : Z }.

Definition fp48_ZERO : Fp48 := from_raw 0.
Definition fp48_ONE : Fp48 := from_raw SCALE.
Definition fp48_is_zero (x : Fp48) : bool := raw x =? 0.
Definition fp48_from_atoms (atoms : Z) : Fp48 := from_raw (as_u U128 (Z.shiftl atoms SCALE_BITS)).
Definition fp48_to_atoms_floor (x : Fp48) : result Z :=
  ok_or (try_from U64 (from_scaled_floor (raw x))) MathOverflow.
Definition fp48_to_atoms_ceil (x : Fp48) : result Z :=
  c ← from_scaled_ceil (raw x);
  ok_or (try_from U64 c) MathOverflow.
Definition fp48_checked_mul (x y : Fp48) : result Fp48 := from_raw <$> mul_scale (raw x) (raw y).
Definition fp48_checked_div (x y : Fp48) : result Fp48 := from_raw <$> div_scale (raw x) (raw y).
Definition fp48_checked_add (x y : Fp48) : result Fp48 :=
  ok_or (from_raw <$> checked_add U128 (raw x) (raw y)) MathOverflow.
Definition fp48_checked_sub (x y : Fp48) : result Fp48 :=
  ok_or (from_raw <$> checked_sub (raw x) (raw y)) MathOverflow.
Definition fp48_checked_mul_u64 (x : Fp48) (k : Z) : result Fp48 :=
  ok_or (from_raw <$> checked_mul U128 (raw x) k) MathOverflow.
Definition fp48_checked_div_u64 (x : Fp48) (k : Z) : result Fp48 :=
  if k =? 0 then Err MathDivisionByZero else Ok (from_raw (raw x / k)).

#[export] Instance Fp48_eq_dec : EqDecision Fp48.
Proof. solve_decision. Defined.

(** ** Closed forms *)

Lemma SCALE_eq : SCALE = 2 ^ 48.
Proof. reflexivity. Qed.

Lemma limb_eq x i : 0 <= i → limb x i = (x / 2 ^ (64 * i)) mod 2 ^ 64.
Proof.
  intros Hi. unfold limb, umax. rewrite Z.shiftr_div_pow2 by lia.
  change (2 ^ 64 - 1) with (Z.ones 64). by rewrite Z.land_ones by lia.
Qed.

Lemma lor_disjoint_add a b n : 0 <= n → 0 <= a < 2 ^ n → Z.lor a (Z.shiftl b n) = a + b * 2 ^ n.
Proof.
  intros Hn Ha. pose proof (Z.add_lor_land a (Z.shiftl b n)) as Hadd.
  assert (Z.land a (Z.shiftl b n) = 0) as Hland; cycle 1.
  - rewrite Hland, Z.shiftl_mul_pow2 in Hadd by done.
    rewrite Z.shiftl_mul_pow2 by done. lia.
  - apply Z.bits_inj'. intros k Hk.
    rewrite Z.land_spec, Z.shiftl_spec, Z.bits_0 by lia.
    destruct (Z.ltb_spec k n).
    + rewrite (Z.testbit_neg_r b) by lia. by rewrite andb_false_r.
    + rewrite <- (Z.mod_small a (2 ^ n)) by lia.
      by rewrite Z.mod_pow2_bits_high by lia.
Qed.

Lemma u256_to_u128_spec x :
  in_u U256 x → u256_to_u128 x = if x <? 2 ^ 128 then Ok x else Err MathOverflow.
Proof.
  intros [H0 H1]. unfold u256_to_u128. rewrite !limb_eq by lia.
  change (64 * 2) with 128. change (64 * 3) with 192.
  change (64 * 1) with 64. change (64 * 0) with 0. rewrite Z.pow_0_r, Z.div_1_r.
  destruct (Z.ltb_spec x (2 ^ 128)) as [Hlt|Hge].
  - rewrite (Z.div_small x (2 ^ 128)), (Z.div_small x (2 ^ 192)) by zlia. simpl.
    rewrite lor_disjoint_add by (try apply Z.mod_pos_bound; lia).
    rewrite (Z.mod_small (x / 2 ^ 64)).
    + f_equal. pose proof (Z.div_mod x (2 ^ 64)). lia.
    + split; [apply Z.div_pos; lia|]. apply Z.div_lt_upper_bound; zlia.
  - assert (2 ^ 128 * (x / 2 ^ 128) + x mod 2 ^ 128 = x) as Hd
      by (symmetry; apply Z.div_mod; lia).
    pose proof (Z.mod_pos_bound x (2 ^ 128) ltac:(lia)) as Hm.
    assert (x / 2 ^ 192 = (x / 2 ^ 128) / 2 ^ 64) as -> by (rewrite Z.div_div by lia; done).
    set (y := x / 2 ^ 128) in *.
    assert (1 <= y < 2 ^ 128) as Hy by zlia.
    destruct (Z.eqb_spec (y mod 2 ^ 64) 0) as [Hz|]; [|done]. simpl.
    destruct (Z.eqb_spec ((y / 2 ^ 64) mod 2 ^ 64) 0) as [Hz'|]; [|done].
    exfalso. rewrite Z.mod_small in Hz'.
    + pose proof (Z.div_mod y (2 ^ 64)). lia.
    + split; [apply Z.div_pos; lia|]. apply Z.div_lt_upper_bound; zlia.
Qed.

(** Whatever its argument, [u256_to_u128] returns a [u128]. *)
Lemma u256_to_u128_range x q : u256_to_u128 x = Ok q → in_u U128 q.
Proof.
  unfold u256_to_u128. destruct (_ || _); [done|]. intros [= <-]. rewrite !limb_eq by lia.
  pose proof (Z.mod_pos_bound (x / 2 ^ (64 * 0)) (2 ^ 64) ltac:(done)).
  pose proof (Z.mod_pos_bound (x / 2 ^ (64 * 1)) (2 ^ 64) ltac:(done)).
  rewrite lor_disjoint_add by lia. zlia.
Qed.

Lemma mul_scale_range a b q : mul_scale a b = Ok q → in_u U128 q.
Proof. intros H. apply bind_Ok in H as (? & _ & H). by eapply u256_to_u128_range. Qed.

Lemma div_scale_range a b q : div_scale a b = Ok q → in_u U128 q.
Proof.
  unfold div_scale. destruct (b =? 0); [done|]. intros H.
  apply bind_Ok in H as (? & _ & H). by eapply u256_to_u128_range.
Qed.

Lemma mul_div_range a b c ceil q : mul_div a b c ceil = Ok q → in_u U128 q.
Proof.
  unfold mul_div. destruct (c =? 0); [done|]. intros H.
  apply bind_Ok in H as (? & _ & H). apply bind_Ok in H as (? & _ & H).
  by eapply u256_to_u128_range.
Qed.

Lemma mul_in_u256 a b : in_u U128 a → in_u U128 b → in_u U256 (a * b).
Proof.
  unfold in_u. intros Ha Hb. change (2 ^ 256) with (2 ^ 128 * 2 ^ 128). nia.
Qed.

Lemma checked_mul_u128_wide a b :
  in_u U128 a → in_u U128 b → checked_mul U256 a b = Some (a * b).
Proof.
  intros Ha Hb. apply checked_mul_Some. split; [done|]. apply (mul_in_u256 a b Ha Hb).
Qed.

Lemma mul_scale_spec a b :
  in_u U128 a → in_u U128 b →
  mul_scale a b = if a * b / SCALE <? 2 ^ 128 then Ok (a * b / SCALE) else Err MathOverflow.
Proof.
  intros Ha Hb. unfold mul_scale. rewrite checked_mul_u128_wide by done. simpl.
  rewrite Z.shiftr_div_pow2 by done. apply u256_to_u128_spec.
  pose proof (mul_in_u256 a b Ha Hb) as [H0 H1].
  split; [by apply Z.div_pos|].
  apply Z.le_lt_trans with (a * b); [|done].
  apply Z.div_le_upper_bound; [done|]. rewrite SCALE_eq. clear - H0. znia.
Qed.

Lemma shl48_eq a : 0 <= a → Z.shiftl a SCALE_BITS = a * SCALE.
Proof. intros. by rewrite Z.shiftl_mul_pow2. Qed.

Lemma div_scale_spec a b :
  in_u U128 a → in_u U128 b →
  div_scale a b =
    if b =? 0 then Err MathDivisionByZero
    else if a * SCALE / b <? 2 ^ 128 then Ok (a * SCALE / b) else Err MathOverflow.
Proof.
  intros Ha Hb. unfold div_scale. destruct (Z.eqb_spec b 0) as [|Hb0]; [done|].
  assert (u256_shl a SCALE_BITS = a * SCALE) as ->.
  { unfold u256_shl, as_u. rewrite shl48_eq by apply Ha.
    apply Z.mod_small. rewrite SCALE_eq. zlia. }
  unfold checked_div. rewrite (proj2 (Z.eqb_neq b 0)) by done. simpl.
  apply u256_to_u128_spec. rewrite SCALE_eq.
  split; [apply Z.div_pos; zlia|].
  apply Z.div_lt_upper_bound; [zlia|]. znia.
Qed.

Lemma to_scaled_spec x :
  in_u U128 x → to_scaled x = if x <? 2 ^ 80 then Ok (x * SCALE) else Err MathOverflow.
Proof.
  intros Hx. unfold to_scaled. rewrite Z.shiftr_div_pow2 by (unfold SCALE_BITS; lia).
  change (128 - SCALE_BITS) with 80. destruct (Z.ltb_spec x (2 ^ 80)).
  - rewrite Z.div_small by zlia. simpl. f_equal.
    rewrite shl48_eq by apply Hx. apply Z.mod_small. rewrite SCALE_eq. zlia.
  - destruct (Z.eqb_spec (x / 2 ^ 80) 0) as [Hz|]; [|done].
    apply Z.div_small_iff in Hz; zlia.
Qed.

Lemma from_scaled_floor_eq x : from_scaled_floor x = x / SCALE.
Proof. unfold from_scaled_floor. by rewrite Z.shiftr_div_pow2. Qed.

(** Ceiling division by a positive divisor. *)
Definition ceil_div (a c : Z) : Z := if a mod c =? 0 then a / c else a / c + 1.

Lemma ceil_div_spec a c : 0 < c → ceil_div a c = (a + c - 1) / c.
Proof.
  intros Hc. unfold ceil_div. pose proof (Z.div_mod a c ltac:(lia)).
  pose proof (Z.mod_pos_bound a c Hc). destruct (Z.eqb_spec (a mod c) 0).
  - apply Z.div_unique with (c - 1); lia.
  - apply Z.div_unique with (a mod c - 1); lia.
Qed.

Lemma ceil_div_bounds a c : 0 < c → a <= c * ceil_div a c < a + c.
Proof.
  intros Hc. unfold ceil_div. pose proof (Z.div_mod a c ltac:(lia)).
  pose proof (Z.mod_pos_bound a c Hc). destruct (Z.eqb_spec (a mod c) 0); nia.
Qed.

Lemma ceil_div_le_iff a c n : 0 < c → ceil_div a c <= n ↔ a <= c * n.
Proof. intros Hc. pose proof (ceil_div_bounds a c Hc). split; nia. Qed.

Lemma from_scaled_ceil_spec x : in_u U128 x → from_scaled_ceil x = Ok (ceil_div x SCALE).
Proof.
  intros Hx. unfold from_scaled_ceil.
  change (Z.shiftl 1 SCALE_BITS - 1) with (Z.ones 48). rewrite Z.land_ones by lia.
  rewrite Z.shiftr_div_pow2 by done. change (2 ^ SCALE_BITS) with SCALE.
  change (2 ^ 48) with SCALE. unfold ceil_div.
  destruct (Z.eqb_spec (x mod SCALE) 0); simpl; [done|].
  rewrite (proj2 (checked_add_Some _ _ _ (x / SCALE + 1))); [done|]. split; [done|].
  assert (x / SCALE <= 2 ^ 80); [|zlia].
  apply Z.div_le_upper_bound; [done|]. rewrite SCALE_eq. zlia.
Qed.

Lemma mul_div_spec a b c ceil :
  in_u U128 a → in_u U128 b → in_u U128 c →
  mul_div a b c ceil =
    if c =? 0 then Err MathDivisionByZero else
    let q := if ceil : bool then ceil_div (a * b) c else a * b / c in
    if q <? 2 ^ 128 then Ok q else Err MathOverflow.
Proof.
  intros Ha Hb Hc. unfold mul_div. destruct (Z.eqb_spec c 0) as [|Hc0]; [done|].
  rewrite checked_mul_u128_wide by done. simpl.
  pose proof (mul_in_u256 a b Ha Hb) as [H0 H1].
  assert (0 <= a * b / c <= a * b) as Hq.
  { split; [apply Z.div_pos; zlia|]. apply Z.div_le_upper_bound; znia. }
  destruct ceil; simpl.
  - unfold ceil_div. destruct (Z.eqb_spec (a * b mod c) 0) as [Hr|Hr]; simpl.
    + apply u256_to_u128_spec. zlia.
    + assert (a * b < (2 ^ 128 - 1) * (2 ^ 128 - 1) + 1) by (unfold in_u in *; nia).
      assert (a * b / c + 1 < 2 ^ 256).
      { change (2 ^ 256) with (2 ^ 128 * 2 ^ 128). zlia. }
      rewrite (proj2 (checked_add_Some _ _ _ (a * b / c + 1))) by done. simpl.
      apply u256_to_u128_spec. zlia.
  - apply u256_to_u128_spec. zlia.
Qed.

(** Inversion lemmas in the shape the other files use. *)
Lemma mul_div_floor_Ok a b c q :
  in_u U128 a → in_u U128 b → in_u U128 c →
  mul_div a b c false = Ok q ↔ c ≠ 0 ∧ q = a * b / c ∧ a * b / c < 2 ^ 128.
Proof.
  intros Ha Hb Hc. rewrite mul_div_spec by done. simpl.
  destruct (Z.eqb_spec c 0); [naive_solver|].
  destruct (Z.ltb_spec (a * b / c) (2 ^ 128)); naive_solver lia.
Qed.

Lemma mul_div_ceil_Ok a b c q :
  in_u U128 a → in_u U128 b → in_u U128 c →
  mul_div a b c true = Ok q ↔ c ≠ 0 ∧ q = ceil_div (a * b) c ∧ ceil_div (a * b) c < 2 ^ 128.
Proof.
  intros Ha Hb Hc. rewrite mul_div_spec by done. simpl.
  destruct (Z.eqb_spec c 0); [naive_solver|].
  destruct (Z.ltb_spec (ceil_div (a * b) c) (2 ^ 128)); naive_solver lia.
Qed.

Lemma in_u_mono w w' x : 0 <= w <= w' → in_u w x → in_u w' x.
Proof.
  intros Hw [H0 H1]. split; [done|]. apply Z.lt_le_trans with (2 ^ w); [done|].
  apply Z.pow_le_mono_r; lia.
Qed.

Lemma mul_div_u64_Ok a b c q :
  in_u U64 a → in_u U64 b → in_u U64 c →
  mul_div_u64 a b c false = Ok q ↔ c ≠ 0 ∧ q = a * b / c ∧ a * b / c < 2 ^ 64.
Proof.
  intros Ha Hb Hc. unfold mul_div_u64. rewrite bind_Ok. split.
  - intros (x & Hx & Hq). apply mul_div_floor_Ok in Hx as (? & -> & ?);
      [|eapply in_u_mono; [|done]; lia..].
    apply ok_or_Ok, try_from_Some in Hq as [-> ?]. done.
  - intros (? & -> & ?). exists (a * b / c). split.
    + apply mul_div_floor_Ok; [eapply in_u_mono; [|done]; lia..|].
      split_and!; [done..|zlia].
    + by apply ok_or_Ok, try_from_Some.
Qed.

(** ** No panics *)

Lemma u256_to_u128_safe x : returns (u256_to_u128 x) (λ _, True).
Proof. unfold u256_to_u128. safe_walk. Qed.
#[export] Hint Resolve u256_to_u128_safe : safe.
Lemma mul_scale_safe a b : returns (mul_scale a b) (λ _, True).
Proof. unfold mul_scale. safe_walk. Qed.
Lemma div_scale_safe a b : returns (div_scale a b) (λ _, True).
Proof. unfold div_scale. safe_walk. Qed.
Lemma to_scaled_safe a : returns (to_scaled a) (λ _, True).
Proof. unfold to_scaled. safe_walk. Qed.
Lemma from_scaled_ceil_safe a : returns (from_scaled_ceil a) (λ _, True).
Proof. unfold from_scaled_ceil. safe_walk. Qed.
Lemma mul_div_safe a b c ceil : returns (mul_div a b c ceil) (λ _, True).
Proof. unfold mul_div. safe_walk. Qed.
#[export] Hint Resolve mul_scale_safe div_scale_safe to_scaled_safe from_scaled_ceil_safe
  mul_div_safe : safe.
Lemma mul_div_u64_safe a b c ceil : returns (mul_div_u64 a b c ceil) (λ _, True).
Proof. unfold mul_div_u64. safe_walk. Qed.
Lemma fp48_checked_mul_safe x y : returns (fp48_checked_mul x y) (λ _, True).
Proof. unfold fp48_checked_mul. safe_walk. Qed.
Lemma fp48_checked_div_safe x y : returns (fp48_checked_div x y) (λ _, True).
Proof. unfold fp48_checked_div. safe_walk. Qed.
#[export] Hint Resolve mul_div_u64_safe fp48_checked_mul_safe fp48_checked_div_safe : safe.

(** ** Properties *)

(** [mul_div] computes the exact quotient.  On [u128] operands the 256-bit
    intermediate never overflows: the call fails only on a zero divisor or a
    quotient that leaves [u128], and otherwise returns the quotient rounded down
    (or up, when asked). *)
Theorem mul_div_exact (a b c : Z) (ceil : bool)
    (Ha : in_u U128 a) (Hb : in_u U128 b) (Hc : in_u U128 c) :
  match mul_div a b c ceil with
  | Ok q => in_u U128 q ∧ 0 < c
            ∧ if ceil then a * b <= c * q < a * b + c else c * q <= a * b < c * q + c
  | Err e => (c = 0 ∧ e = MathDivisionByZero)
             ∨ (0 < c ∧ e = MathOverflow
                ∧ if ceil then c * (2 ^ 128 - 1) < a * b else c * 2 ^ 128 <= a * b)
  end.
Proof.
  rewrite mul_div_spec by done. destruct (Z.eqb_spec c 0) as [|Hc0]; [by left|].
  assert (0 < c) as Hpos by zlia. pose proof (mul_in_u256 a b Ha Hb) as [H0 _].
  pose proof (ceil_div_bounds (a * b) c Hpos) as Hcb.
  pose proof (Z.div_mod (a * b) c ltac:(lia)) as Hdm.
  pose proof (Z.mod_pos_bound (a * b) c Hpos) as Hmb.
  pose proof (Z.div_pos (a * b) c H0 Hpos).
  destruct ceil; simpl.
  - destruct (Z.ltb_spec (ceil_div (a * b) c) (2 ^ 128)) as [Hlt|Hge].
    + split_and!; [unfold in_u; nia|lia..].
    + right. split_and!; [done|done|nia].
  - destruct (Z.ltb_spec (a * b / c) (2 ^ 128)) as [Hlt|Hge].
    + split_and!; [unfold in_u; lia|lia..].
    + right. split_and!; [done|done|nia].
Qed.

Lemma mul_div_exact_witness : mul_div 10 7 4 true = Ok 18 ∧ 10 * 7 <= 4 * 18 < 10 * 7 + 4.
Proof.
  split; [vm_compute; reflexivity|].
  exact (proj2 (proj2 (mul_div_exact 10 7 4 true ltac:(zlia) ltac:(zlia) ltac:(zlia)))).
Defined.

(** Atoms survive the trip through [Fp48].  Embedding a [u64] amount and
    rounding back, down or up, returns it; and on any raw value the two roundings
    bracket it within one atom. *)
Theorem fp48_atoms_round_trip (atoms : Z) (x : Fp48)
    (Ha : in_u U64 atoms) (Hx : 0 <= raw x < 2 ^ 112) :
  fp48_to_atoms_floor (fp48_from_atoms atoms) = Ok atoms
  ∧ fp48_to_atoms_ceil (fp48_from_atoms atoms) = Ok atoms
  ∧ (∀ f c, fp48_to_atoms_floor x = Ok f → fp48_to_atoms_ceil x = Ok c →
      f * SCALE <= raw x <= c * SCALE ∧ f <= c <= f + 1).
Proof.
  assert (fp48_from_atoms atoms = from_raw (atoms * SCALE)) as ->.
  { unfold fp48_from_atoms, as_u. rewrite shl48_eq, Z.mod_small by (rewrite ?SCALE_eq; zlia). done. }
  unfold fp48_to_atoms_floor, fp48_to_atoms_ceil. cbn [raw].
  rewrite (from_scaled_floor_eq (atoms * SCALE)), (from_scaled_floor_eq (raw x)).
  rewrite (from_scaled_ceil_spec (atoms * SCALE)) by (rewrite SCALE_eq; zlia).
  rewrite (from_scaled_ceil_spec (raw x)) by zlia.
  assert (SCALE ≠ 0) as Hs by done.
  assert (ceil_div (atoms * SCALE) SCALE = atoms) as ->
    by (unfold ceil_div; rewrite Z.mod_mul by done; apply Z.div_mul; done).
  rewrite Z.div_mul by done. cbn [mbind result_bind].
  rewrite try_from_ok by apply Ha. split_and!; [done..|]. intros f c Hf Hc. inv_ok. subst.
  pose proof (Z.div_mod (raw x) SCALE ltac:(done)). pose proof (Z.mod_pos_bound (raw x) SCALE ltac:(done)).
  pose proof (ceil_div_bounds (raw x) SCALE ltac:(done)). unfold ceil_div in *.
  destruct (Z.eqb_spec (raw x mod SCALE) 0); lia.
Qed.

Lemma fp48_atoms_round_trip_witness :
  fp48_to_atoms_floor (fp48_from_atoms 12345) = Ok 12345.
Proof.
  exact (proj1 (fp48_atoms_round_trip 12345 fp48_ONE ltac:(zlia) ltac:(vm_compute; split; congruence))).
Defined.

(** Converting to shares and back never creates value.  Dividing by a price
    and multiplying by it again (both rounded down, as a deposit followed by a
    withdrawal does) returns at most the amount and loses less than one price
    unit plus one raw unit. *)
Theorem fp48_div_mul_no_gain (amount price shares back : Fp48)
    (Ha : in_u U128 (raw amount)) (Hp : in_u U128 (raw price))
    (Hs : fp48_checked_div amount price = Ok shares)
    (Hb : fp48_checked_mul shares price = Ok back) :
  raw back <= raw amount ∧ (raw amount - raw back - 1) * SCALE < raw price.
Proof.
  unfold fp48_checked_div, fp48_checked_mul in *.
  rewrite div_scale_spec in Hs by done. destruct (Z.eqb_spec (raw price) 0) as [|Hp0]; [done|].
  destruct (Z.ltb_spec (raw amount * SCALE / raw price) (2 ^ 128)) as [Hlt|]; [|done].
  simpl in Hs. injection Hs as <-. simpl in Hb.
  set (s := raw amount * SCALE / raw price) in *.
  assert (0 <= s) as Hs0 by (apply Z.div_pos; [|zlia]; rewrite SCALE_eq; zlia).
  rewrite mul_scale_spec in Hb by (done || split; done).
  destruct (_ <? _); [|done]. simpl in Hb. injection Hb as <-. simpl.
  pose proof (Z.div_mod (raw amount * SCALE) (raw price) Hp0) as E1. fold s in E1.
  pose proof (Z.mod_pos_bound (raw amount * SCALE) (raw price) ltac:(zlia)).
  pose proof (Z.div_mod (s * raw price) SCALE ltac:(done)) as E2.
  pose proof (Z.mod_pos_bound (s * raw price) SCALE ltac:(done)).
  rewrite SCALE_eq in *. norm_pow. nia.
Qed.

Lemma fp48_div_mul_no_gain_witness :
  ∃ s b, fp48_checked_div (from_raw 1000) (from_raw 300000000000000) = Ok s
    ∧ fp48_checked_mul s (from_raw 300000000000000) = Ok b ∧ raw b <= 1000.
Proof.
  do 2 eexists. split; [vm_compute; reflexivity|]. split; [vm_compute; reflexivity|].
  eapply (fp48_div_mul_no_gain (from_raw 1000) (from_raw 300000000000000));
    [vm_compute; split; congruence|vm_compute; split; congruence
    |vm_compute; reflexivity|vm_compute; reflexivity].
Defined.
