(* ===== verification/Loan.v ===== *)
(** * Loans ([programs/ydelta/src/state/loan.rs])

    The [LoanFixed] account: construction, simple-interest accrual, the bucket
    conservation invariant, and partial or full resolution.  [reference
    accrual] states what accrual promises (interest is a function of time
    alone); [accrue_loan] is shown to implement it. *)
From stdpp Require Import base numbers list option.
From S2P Require Import Prelude FixedPoint.
Local Open Scope Z_scope.

(** ** Constants *)

Definition LOAN_FIXED_DISCRIMINANT : Z := 0x7964656C74614C4E.
Definition ACCOUNT_LAYOUT_VERSION : Z := 2.
Definition BPS_PER_UNIT : Z := 10000.
Definition SECONDS_PER_YEAR : Z := 365 * 24 * 60 * 60.
Definition OWNER_KIND_USER : Z := 0.
Definition OWNER_KIND_SUB_VAULT : Z := 1.

(** ** Lifecycle and flavour tags *)

Inductive LoanState := LoanState_Active | LoanState_Repaid.

#[export] Instance LoanState_eq_dec : EqDecision LoanState.
Proof. solve_decision. Defined.

Definition LoanState_as_u8 (s : LoanState) : Z :=
  match s with LoanState_Active => 0 | LoanState_Repaid => 3 end.

Definition LoanState_from_u8 (v : Z) : result LoanState :=
  if v =? 0 then Ok LoanState_Active
  else if v =? 3 then Ok LoanState_Repaid
  else Err InvalidAccountData.

Inductive LoanType := LoanType_Fixed | LoanType_P2Pool.

#[export] Instance LoanType_eq_dec : EqDecision LoanType.
Proof. solve_decision. Defined.

Definition LoanType_as_u8 (t : LoanType) : Z :=
  match t with LoanType_Fixed => 0 | LoanType_P2Pool => 1 end.

Definition LoanType_from_u8 (v : Z) : result LoanType :=
  if v =? 0 then Ok LoanType_Fixed
  else if v =? 1 then Ok LoanType_P2Pool
  else Err InvalidAccountData.

(** ** The account *)

Record LoanFixed := mkLoanFixed {
  loan_discriminator : Z;
  loan_market : Pubkey;
  loan_created_by : Pubkey;
  matched_loan_sequence : Z;
  borrower_marginfi_borrow_shares : Z;
  loan_origination_ltv_bps : Z;
  loan_liquidation_ltv_bps : Z;
  principal_debt_atoms : Z;
  outstanding_debt_atoms : Z;
  lender_claimable_atoms : Z;
  loan_collateral_atoms : Z;
  accumulated_protocol_fee_atoms : Z;
  accumulated_curator_fee_atoms : Z;
  started_at_unix : Z;
  matures_at_unix : Z;
  last_accrued_unix : Z;
  loan_lender_seat_index : Z;
  loan_borrower_seat_index : Z;
  loan_borrower_rate_bps : Z;
  loan_lender_rate_bps : Z;
  loan_state_byte : Z;
  loan_type_byte : Z;
  loan_flags : Z;
  loan_version : Z;
  loan_bump : Z;
  loan_lender_kind : Z;
  loan_lender_sub_vault_id : Z;
  curator_fee_bps_snapshot : Z;
  loan_lender_global_vault : Pubkey;
  principal_retired_atoms : Z;
  cumulative_lender_gross_interest_atoms : Z;
  lender_debt_share_price_snapshot_fp48 : Fp48;
  borrower_collateral_share_price_snapshot_fp48 : Fp48 }.

#[export] Instance LoanFixed_eq_dec : EqDecision LoanFixed.
Proof. solve_decision. Defined.

#[export] Instance eta_LoanFixed : Eta LoanFixed := λ l,
  mkLoanFixed (loan_discriminator l) (loan_market l) (loan_created_by l)
    (matched_loan_sequence l) (borrower_marginfi_borrow_shares l)
    (loan_origination_ltv_bps l) (loan_liquidation_ltv_bps l)
    (principal_debt_atoms l) (outstanding_debt_atoms l) (lender_claimable_atoms l)
    (loan_collateral_atoms l) (accumulated_protocol_fee_atoms l)
    (accumulated_curator_fee_atoms l) (started_at_unix l) (matures_at_unix l)
    (last_accrued_unix l) (loan_lender_seat_index l) (loan_borrower_seat_index l)
    (loan_borrower_rate_bps l) (loan_lender_rate_bps l) (loan_state_byte l)
    (loan_type_byte l) (loan_flags l) (loan_version l) (loan_bump l)
    (loan_lender_kind l) (loan_lender_sub_vault_id l) (curator_fee_bps_snapshot l)
    (loan_lender_global_vault l) (principal_retired_atoms l)
    (cumulative_lender_gross_interest_atoms l)
    (lender_debt_share_price_snapshot_fp48 l)
    (borrower_collateral_share_price_snapshot_fp48 l).

Definition loan_verify_discriminant (l : LoanFixed) : result unit :=
  require (loan_discriminator l =? LOAN_FIXED_DISCRIMINANT) InvalidAccountData.

Definition loan_verify_version (l : LoanFixed) : result unit :=
  require (loan_version l =? ACCOUNT_LAYOUT_VERSION) InvalidAccountData.

Definition loan_state (l : LoanFixed) : result LoanState := LoanState_from_u8 (loan_state_byte l).

Definition loan_type (l : LoanFixed) : result LoanType := LoanType_from_u8 (loan_type_byte l).

Definition loan_assert_state (l : LoanFixed) (expected : LoanState) : result unit :=
  actual ← LoanState_from_u8 (loan_state_byte l);
  require (bool_decide (actual = expected)) InvalidArgument.

Definition loan_is_active (l : LoanFixed) : result bool :=
  s ← loan_state l; mret (bool_decide (s = LoanState_Active)).

Definition loan_is_repaid (l : LoanFixed) : result bool :=
  s ← loan_state l; mret (bool_decide (s = LoanState_Repaid)).

(** [impl Ord for LoanFixed]. *)
Definition loan_cmp (a b : LoanFixed) : comparison :=
  match matched_loan_sequence a ?= matched_loan_sequence b with
  | Eq => loan_market a ?= loan_market b
  | c => c
  end.

(** ** Construction *)

Definition new_from_matched_loan_with_lender
    (market : Pubkey) (sequence bump : Z) (created_by : Pubkey)
    (lender_seat_index borrower_seat_index principal_atoms net_principal
     collateral_atoms borrower_rate_bps lender_rate_bps term_seconds
     matched_at_unix flags : Z) (ty : LoanType) (borrow_shares lender_kind
     lender_sub_vault_id : Z) (lender_global_vault : Pubkey)
    (curator_fee_bps : Z) (lender_price borrower_price : Fp48) : LoanFixed :=
  let started := matched_at_unix in
  let matures := saturating_add_i 64 started term_seconds in
  {| loan_discriminator := LOAN_FIXED_DISCRIMINANT;
     loan_market := market;
     loan_created_by := created_by;
     matched_loan_sequence := sequence;
     borrower_marginfi_borrow_shares := borrow_shares;
     loan_origination_ltv_bps := 0;
     loan_liquidation_ltv_bps := 0;
     principal_debt_atoms := principal_atoms;
     outstanding_debt_atoms := net_principal;
     lender_claimable_atoms := net_principal;
     loan_collateral_atoms := collateral_atoms;
     accumulated_protocol_fee_atoms := 0;
     accumulated_curator_fee_atoms := 0;
     started_at_unix := started;
     matures_at_unix := matures;
     last_accrued_unix := started;
     loan_lender_seat_index := lender_seat_index;
     loan_borrower_seat_index := borrower_seat_index;
     loan_borrower_rate_bps := borrower_rate_bps;
     loan_lender_rate_bps := lender_rate_bps;
     loan_state_byte := LoanState_as_u8 LoanState_Active;
     loan_type_byte := LoanType_as_u8 ty;
     loan_flags := flags;
     loan_version := ACCOUNT_LAYOUT_VERSION;
     loan_bump := bump;
     loan_lender_kind := lender_kind;
     loan_lender_sub_vault_id := lender_sub_vault_id;
     curator_fee_bps_snapshot := curator_fee_bps;
     loan_lender_global_vault := lender_global_vault;
     principal_retired_atoms := 0;
     cumulative_lender_gross_interest_atoms := 0;
     lender_debt_share_price_snapshot_fp48 := lender_price;
     borrower_collateral_share_price_snapshot_fp48 := borrower_price |}.

Definition new_from_matched_loan
    (market : Pubkey) (sequence bump : Z) (created_by : Pubkey)
    (lender_seat_index borrower_seat_index principal_atoms net_principal
     collateral_atoms borrower_rate_bps lender_rate_bps term_seconds
     matched_at_unix flags : Z) (ty : LoanType) (borrow_shares : Z)
    (lender_price borrower_price : Fp48) : LoanFixed :=
  new_from_matched_loan_with_lender market sequence bump created_by
    lender_seat_index borrower_seat_index principal_atoms net_principal
    collateral_atoms borrower_rate_bps lender_rate_bps term_seconds
    matched_at_unix flags ty borrow_shares 0 0 Pubkey_default 0
    lender_price borrower_price.

(** ** Accrual *)

(** The closure [checked_add_u64] of [accrue_loan]. *)
Definition accrue_checked_add_u64 (a b : Z) : result Z :=
  sum ← ok_or (checked_add U128 a b) ArithmeticOverflow;
  if umax U64 <? sum then Err ArithmeticOverflow else Ok sum.

(** The closure [cumulative_at]: simple interest on [principal]. *)
Definition cumulative_at (principal denom rate_bps elapsed : Z) : result Z :=
  rate_times_elapsed ← ok_or (checked_mul U128 rate_bps elapsed) MathOverflow;
  mul_div principal rate_times_elapsed denom false.

(** The closure [cum_curator_fee]. *)
Definition cum_curator_fee (loan : LoanFixed) (cum_lender_gross : Z) : result Z :=
  let curator_active := (loan_lender_kind loan =? OWNER_KIND_SUB_VAULT)
                        && (0 <? curator_fee_bps_snapshot loan) in
  if negb curator_active then Ok 0
  else mul_div cum_lender_gross (curator_fee_bps_snapshot loan) BPS_PER_UNIT false.

Definition accrue_loan (loan : LoanFixed) (now : Z) : result LoanFixed :=
  if now =? last_accrued_unix loan then Ok loan else
  _ ← require (last_accrued_unix loan <? now) InvalidArgument;
  if (outstanding_debt_atoms loan =? 0)
     || (loan_state_byte loan =? LoanState_as_u8 LoanState_Repaid)
  then Ok (loan <| last_accrued_unix := now |>) else
  if loan_type_byte loan =? LoanType_as_u8 LoanType_P2Pool
  then Ok (loan <| last_accrued_unix := now |>) else
  denom ← ok_or (checked_mul U128 BPS_PER_UNIT SECONDS_PER_YEAR) ArithmeticOverflow;
  match (match checked_sub_i 64 now (started_at_unix loan) with
         | Some d => if 0 <? d then Some d else None
         | None => None
         end) with
  | None => Ok (loan <| last_accrued_unix := now |>)
  | Some total_elapsed =>
    let prior_elapsed :=
      match checked_sub_i 64 (last_accrued_unix loan) (started_at_unix loan) with
      | Some d => if 0 <=? d then d else 0
      | None => 0
      end in
    let principal := principal_debt_atoms loan in
    spread_bps ← ok_or (checked_sub (loan_borrower_rate_bps loan) (loan_lender_rate_bps loan))
                       ArithmeticOverflow;
    cum_lender_gross_now ← cumulative_at principal denom (loan_lender_rate_bps loan) total_elapsed;
    cum_lender_gross_prior ← cumulative_at principal denom (loan_lender_rate_bps loan) prior_elapsed;
    cum_spread_now ← cumulative_at principal denom spread_bps total_elapsed;
    cum_spread_prior ← cumulative_at principal denom spread_bps prior_elapsed;
    cum_borrower_now ← ok_or (checked_add U128 cum_lender_gross_now cum_spread_now)
                             ArithmeticOverflow;
    cum_borrower_prior ← ok_or (checked_add U128 cum_lender_gross_prior cum_spread_prior)
                               ArithmeticOverflow;
    borrower_interest ← ok_or (checked_sub cum_borrower_now cum_borrower_prior) ArithmeticOverflow;
    spread_interest ← ok_or (checked_sub cum_spread_now cum_spread_prior) ArithmeticOverflow;
    cum_curator_now ← cum_curator_fee loan cum_lender_gross_now;
    cum_curator_prior ← cum_curator_fee loan cum_lender_gross_prior;
    curator_take ← ok_or (checked_sub cum_curator_now cum_curator_prior) ArithmeticOverflow;
    cum_lender_net_now ← ok_or (checked_sub cum_lender_gross_now cum_curator_now)
                               ArithmeticOverflow;
    cum_lender_net_prior ← ok_or (checked_sub cum_lender_gross_prior cum_curator_prior)
                                 ArithmeticOverflow;
    lender_net ← ok_or (checked_sub cum_lender_net_now cum_lender_net_prior) ArithmeticOverflow;
    outstanding ← accrue_checked_add_u64 (outstanding_debt_atoms loan) borrower_interest;
    lender_claimable ← accrue_checked_add_u64 (lender_claimable_atoms loan) lender_net;
    curator_fee ← accrue_checked_add_u64 (accumulated_curator_fee_atoms loan) curator_take;
    protocol_fee ← accrue_checked_add_u64 (accumulated_protocol_fee_atoms loan) spread_interest;
    cumulative ← ok_or (try_from U64 cum_lender_gross_now) ArithmeticOverflow;
    mret (loan <| outstanding_debt_atoms := outstanding |>
               <| lender_claimable_atoms := lender_claimable |>
               <| accumulated_curator_fee_atoms := curator_fee |>
               <| accumulated_protocol_fee_atoms := protocol_fee |>
               <| cumulative_lender_gross_interest_atoms := cumulative |>
               <| last_accrued_unix := now |>)
  end.

(** ** Settlement and resolution *)

Definition principal_portion_of_settlement (loan : LoanFixed) (settlement_atoms : Z) : result Z :=
  let outstanding := outstanding_debt_atoms loan in
  if outstanding =? 0 then Ok 0 else
  let principal_remaining :=
    saturating_sub (principal_debt_atoms loan) (principal_retired_atoms loan) in
  if outstanding <=? settlement_atoms
  then Ok (as_u U64 (Z.min principal_remaining (umax U64)))
  else
    raw ← mul_div settlement_atoms principal_remaining outstanding false;
    mret (as_u U64 (Z.min (Z.min raw principal_remaining) (umax U64))).

Definition assert_loan_conservation (loan : LoanFixed) : result unit :=
  claim_side ← ok_or
    (x ← checked_add U64 (lender_claimable_atoms loan) (accumulated_protocol_fee_atoms loan);
     checked_add U64 x (accumulated_curator_fee_atoms loan)) ArithmeticOverflow;
  owed_side ← ok_or (checked_add U64 (outstanding_debt_atoms loan) (principal_retired_atoms loan))
                    ArithmeticOverflow;
  require (claim_side =? owed_side) InvalidArgument.

(** The share of [fee_field] that earlier resolutions already retired: the
    common body of [protocol_already_retired] and [curator_already_retired]. *)
Definition fee_already_retired (fee_field : LoanFixed → Z) (loan : LoanFixed) : result Z :=
  total_claim ← ok_or
    (x ← checked_add U128 (lender_claimable_atoms loan) (accumulated_protocol_fee_atoms loan);
     checked_add U128 x (accumulated_curator_fee_atoms loan)) ArithmeticOverflow;
  if total_claim =? 0 then Ok 0 else
  numer ← ok_or (checked_mul U128 (fee_field loan) (principal_retired_atoms loan))
                ArithmeticOverflow;
  q ← ok_or (checked_div numer total_claim) MathDivisionByZero;
  ok_or (try_from U64 q) ArithmeticOverflow.

Definition protocol_already_retired : LoanFixed → result Z :=
  fee_already_retired accumulated_protocol_fee_atoms.

Definition curator_already_retired : LoanFixed → result Z :=
  fee_already_retired accumulated_curator_fee_atoms.

(** The [(lender, protocol, curator)] split inside [apply_partial_resolution]. *)
Definition resolution_portions (loan : LoanFixed) (repaid : Z) : result (Z * Z * Z) :=
  let outstanding_before := outstanding_debt_atoms loan in
  if outstanding_before <=? repaid then
    protocol_retired ← protocol_already_retired loan;
    let protocol_portion :=
      saturating_sub (accumulated_protocol_fee_atoms loan) protocol_retired in
    curator_retired ← curator_already_retired loan;
    let curator_portion :=
      saturating_sub (accumulated_curator_fee_atoms loan) curator_retired in
    lender_portion ← ok_or (x ← checked_sub repaid protocol_portion;
                            checked_sub x curator_portion) ArithmeticOverflow;
    mret (lender_portion, protocol_portion, curator_portion)
  else
    p ← mul_div (accumulated_protocol_fee_atoms loan) repaid outstanding_before false;
    let protocol_portion := as_u U64 p in
    c ← mul_div (accumulated_curator_fee_atoms loan) repaid outstanding_before false;
    let curator_portion := as_u U64 c in
    lender_portion ← ok_or (x ← checked_sub repaid protocol_portion;
                            checked_sub x curator_portion) ArithmeticOverflow;
    mret (lender_portion, protocol_portion, curator_portion).

Definition apply_partial_resolution (loan : LoanFixed) (repaid : Z)
    : result (LoanFixed * (Z * Z * Z)) :=
  let outstanding_before := outstanding_debt_atoms loan in
  _ ← require (0 <? repaid) InvalidArgument;
  _ ← require (repaid <=? outstanding_before) InvalidArgument;
  _ ← assert_loan_conservation loan;
  portions ← resolution_portions loan repaid;
  outstanding ← ok_or (checked_sub (outstanding_debt_atoms loan) repaid) ArithmeticOverflow;
  retired ← ok_or (checked_add U64 (principal_retired_atoms loan) repaid) ArithmeticOverflow;
  let loan := loan <| outstanding_debt_atoms := outstanding |>
                   <| principal_retired_atoms := retired |> in
  _ ← assert_loan_conservation loan;
  mret (loan, portions).

(** ** Reference accrual

    What accrual promises, as a function of time alone. *)

Definition INTEREST_DENOM : Z := BPS_PER_UNIT * SECONDS_PER_YEAR.

(** Simple interest at [rate_bps] from the start of the loan to [t]. *)
Definition simple_interest (loan : LoanFixed) (rate_bps t : Z) : Z :=
  principal_debt_atoms loan * (rate_bps * (t - started_at_unix loan)) / INTEREST_DENOM.

Definition lender_gross_at (loan : LoanFixed) (t : Z) : Z :=
  simple_interest loan (loan_lender_rate_bps loan) t.

Definition spread_at (loan : LoanFixed) (t : Z) : Z :=
  simple_interest loan (loan_borrower_rate_bps loan - loan_lender_rate_bps loan) t.

Definition curator_cut_at (loan : LoanFixed) (t : Z) : Z :=
  if (loan_lender_kind loan =? OWNER_KIND_SUB_VAULT) && (0 <? curator_fee_bps_snapshot loan)
  then lender_gross_at loan t * curator_fee_bps_snapshot loan / BPS_PER_UNIT
  else 0.

Definition accrued (loan : LoanFixed) (now : Z) : LoanFixed :=
  let last := last_accrued_unix loan in
  let d (f : LoanFixed → Z → Z) := f loan now - f loan last in
  loan <| outstanding_debt_atoms ::= λ x, x + (d lender_gross_at + d spread_at) |>
       <| lender_claimable_atoms ::= λ x, x + (d lender_gross_at - d curator_cut_at) |>
       <| accumulated_curator_fee_atoms ::= λ x, x + d curator_cut_at |>
       <| accumulated_protocol_fee_atoms ::= λ x, x + d spread_at |>
       <| cumulative_lender_gross_interest_atoms := lender_gross_at loan now |>
       <| last_accrued_unix := now |>.

(** The [u64] fields that accrual writes are representable. *)
Definition accrual_fits (loan : LoanFixed) : bool :=
  (outstanding_debt_atoms loan <=? umax U64)
  && (lender_claimable_atoms loan <=? umax U64)
  && (accumulated_curator_fee_atoms loan <=? umax U64)
  && (accumulated_protocol_fee_atoms loan <=? umax U64)
  && (cumulative_lender_gross_interest_atoms loan <=? umax U64).

(** Well-formed loan accounts: every field in its type, the rates ordered as
    matching orders them, the curator fee a fraction, and time not negative. *)
Record loan_wf (l : LoanFixed) : Prop := {
  wf_principal : in_u U64 (principal_debt_atoms l);
  wf_outstanding : in_u U64 (outstanding_debt_atoms l);
  wf_claimable : in_u U64 (lender_claimable_atoms l);
  wf_protocol_fee : in_u U64 (accumulated_protocol_fee_atoms l);
  wf_curator_fee : in_u U64 (accumulated_curator_fee_atoms l);
  wf_retired : in_u U64 (principal_retired_atoms l);
  wf_borrower_rate : in_u U16 (loan_borrower_rate_bps l);
  wf_lender_rate : 0 <= loan_lender_rate_bps l <= loan_borrower_rate_bps l;
  wf_curator_bps : 0 <= curator_fee_bps_snapshot l <= BPS_PER_UNIT;
  wf_started : 0 <= started_at_unix l;
  wf_last : started_at_unix l <= last_accrued_unix l < 2 ^ 63 }.

#[export] Instance loan_wf_dec l : Decision (loan_wf l).
Proof.
  refine (cast_if (decide (in_u U64 (principal_debt_atoms l)
    ∧ in_u U64 (outstanding_debt_atoms l) ∧ in_u U64 (lender_claimable_atoms l)
    ∧ in_u U64 (accumulated_protocol_fee_atoms l) ∧ in_u U64 (accumulated_curator_fee_atoms l)
    ∧ in_u U64 (principal_retired_atoms l) ∧ in_u U16 (loan_borrower_rate_bps l)
    ∧ 0 <= loan_lender_rate_bps l <= loan_borrower_rate_bps l
    ∧ 0 <= curator_fee_bps_snapshot l <= BPS_PER_UNIT ∧ 0 <= started_at_unix l
    ∧ started_at_unix l <= last_accrued_unix l < 2 ^ 63)));
    abstract (first [split; tauto | intros []; tauto]).
Defined.

(** A loan whose ledger fields accrue: not pool-funded, not repaid, with debt. *)
Definition accruing (l : LoanFixed) : Prop :=
  outstanding_debt_atoms l ≠ 0
  ∧ loan_state_byte l ≠ LoanState_as_u8 LoanState_Repaid
  ∧ loan_type_byte l ≠ LoanType_as_u8 LoanType_P2Pool.

(** ** Accrual: lemmas *)

Lemma INTEREST_DENOM_eq : INTEREST_DENOM = 315360000000.
Proof. reflexivity. Qed.

Lemma simple_interest_mono l r s t :
  0 <= principal_debt_atoms l → 0 <= r → s <= t → simple_interest l r s <= simple_interest l r t.
Proof.
  intros Hp Hr Ht. unfold simple_interest. apply Z.div_le_mono; [done|].
  apply Z.mul_le_mono_nonneg_l; [done|]. apply Z.mul_le_mono_nonneg_l; lia.
Qed.

Lemma simple_interest_bounds l r t :
  in_u U64 (principal_debt_atoms l) → in_u U16 r →
  0 <= started_at_unix l → started_at_unix l <= t < 2 ^ 63 →
  0 <= simple_interest l r t < 2 ^ 108.
Proof.
  intros Hp Hr Hs Ht. unfold simple_interest. rewrite INTEREST_DENOM_eq.
  set (e := t - started_at_unix l) in *. assert (0 <= e < 2 ^ 63) by zlia.
  pose proof (mul_range r e 16 63 Hr ltac:(done)) as Hre.
  pose proof (mul_range (principal_debt_atoms l) (r * e) 64 79 Hp (Hre ltac:(done) ltac:(done))) as Hpr.
  specialize (Hpr ltac:(done) ltac:(done)). change (64 + 79) with 143 in Hpr.
  split; [apply Z.div_pos; lia|]. apply Z.div_lt_upper_bound; zlia.
Qed.

Lemma cumulative_at_spec l r t :
  in_u U64 (principal_debt_atoms l) → in_u U16 r →
  0 <= started_at_unix l → started_at_unix l <= t < 2 ^ 63 →
  cumulative_at (principal_debt_atoms l) INTEREST_DENOM r (t - started_at_unix l)
    = Ok (simple_interest l r t).
Proof.
  intros Hp Hr Hs Ht. unfold cumulative_at.
  assert (0 <= r * (t - started_at_unix l) < 2 ^ 79)
    by (apply (mul_range _ _ 16 63); zlia).
  rewrite (proj2 (checked_mul_Some _ _ _ (r * (t - started_at_unix l)))) by (split; zlia).
  simpl. apply mul_div_floor_Ok; [zlia..|rewrite INTEREST_DENOM_eq; zlia|].
  split_and!; [done..|].
  pose proof (simple_interest_bounds l r t Hp Hr Hs Ht). unfold simple_interest in *. zlia.
Qed.

Lemma cum_curator_fee_spec l t :
  loan_wf l → started_at_unix l <= t < 2 ^ 63 →
  cum_curator_fee l (lender_gross_at l t) = Ok (curator_cut_at l t)
  ∧ 0 <= curator_cut_at l t <= lender_gross_at l t.
Proof.
  intros Hwf Ht. destruct Hwf.
  assert (0 <= lender_gross_at l t < 2 ^ 108) as Hg
    by (apply simple_interest_bounds; [done|zlia|done..]).
  unfold cum_curator_fee, curator_cut_at.
  destruct ((loan_lender_kind l =? OWNER_KIND_SUB_VAULT) && (0 <? curator_fee_bps_snapshot l)) eqn:E;
    simpl; [|split; [done|lia]].
  assert (0 <= lender_gross_at l t * curator_fee_bps_snapshot l / BPS_PER_UNIT
            <= lender_gross_at l t) as Hc.
  { unfold BPS_PER_UNIT in *. split; [apply Z.div_pos; nia|].
    apply Z.div_le_upper_bound; nia. }
  split; [|done]. unfold BPS_PER_UNIT in *.
  apply mul_div_floor_Ok; [zlia..|]. split_and!; [done..|zlia].
Qed.

Lemma curator_cut_step l s t :
  loan_wf l → started_at_unix l <= s <= t →
  0 <= curator_cut_at l t - curator_cut_at l s <= lender_gross_at l t - lender_gross_at l s.
Proof.
  intros Hwf Hst. destruct Hwf.
  assert (lender_gross_at l s <= lender_gross_at l t) as Hg
    by (apply simple_interest_mono; zlia).
  unfold curator_cut_at. case_match; [|lia]. unfold BPS_PER_UNIT in *.
  set (x := lender_gross_at l s) in *. set (y := lender_gross_at l t) in *.
  set (c := curator_fee_bps_snapshot l) in *.
  assert (x * c / 10000 <= y * c / 10000) by (apply Z.div_le_mono; nia).
  assert (y * c / 10000 <= (x * c + (y - x) * 10000) / 10000) as Hle
    by (apply Z.div_le_mono; nia).
  rewrite Z.div_add in Hle by done. lia.
Qed.

(** The reference accrual of a well-formed loan never lowers a bucket. *)
Lemma accrued_mono l now :
  loan_wf l → last_accrued_unix l <= now →
  outstanding_debt_atoms l <= outstanding_debt_atoms (accrued l now)
  ∧ lender_claimable_atoms l <= lender_claimable_atoms (accrued l now)
  ∧ accumulated_curator_fee_atoms l <= accumulated_curator_fee_atoms (accrued l now)
  ∧ accumulated_protocol_fee_atoms l <= accumulated_protocol_fee_atoms (accrued l now).
Proof.
  intros Hwf Hnow. pose proof (curator_cut_step l (last_accrued_unix l) now Hwf) as Hc.
  destruct Hwf. specialize (Hc ltac:(lia)).
  assert (spread_at l (last_accrued_unix l) <= spread_at l now)
    by (apply simple_interest_mono; zlia).
  simpl. lia.
Qed.

Lemma accrue_checked_add_u64_spec a b :
  a + b < 2 ^ 128 →
  accrue_checked_add_u64 a b = if a + b <=? umax U64 then Ok (a + b) else Err ArithmeticOverflow.
Proof.
  intros H. unfold accrue_checked_add_u64. rewrite add_ok by done. simpl.
  rewrite Z.ltb_antisym. by destruct (a + b <=? umax U64).
Qed.

Lemma try_from_u64_spec x e :
  ok_or (try_from U64 x) e = if x <=? umax U64 then Ok x else Err e.
Proof.
  unfold try_from. destruct (Z.leb_spec x (umax U64)), (Z.ltb_spec x (2 ^ 64)); zlia || done.
Qed.

(** A loan that does not accrue only records the time. *)
Lemma accrue_loan_idle l now :
  last_accrued_unix l < now →
  outstanding_debt_atoms l = 0
    ∨ loan_state_byte l = LoanState_as_u8 LoanState_Repaid
    ∨ loan_type_byte l = LoanType_as_u8 LoanType_P2Pool →
  accrue_loan l now = Ok (l <| last_accrued_unix := now |>).
Proof.
  intros Hnow Hidle. unfold accrue_loan.
  rewrite (proj2 (Z.eqb_neq _ _)) by lia. rewrite (proj2 (Z.ltb_lt _ _)) by lia. simpl.
  destruct (_ || _) eqn:E; [done|]. apply orb_false_iff in E as [E1%Z.eqb_neq E2%Z.eqb_neq].
  destruct Hidle as [|[|Hp]]; [done..|]. rewrite Hp. done.
Qed.

(** The range facts an accrual from [last_accrued_unix] to [now] relies on. *)
Lemma accrual_facts l now :
  loan_wf l → last_accrued_unix l < now < 2 ^ 63 →
  let last := last_accrued_unix l in
  let sp := loan_borrower_rate_bps l - loan_lender_rate_bps l in
  in_u U16 (loan_lender_rate_bps l) ∧ in_u U16 sp
  ∧ 0 <= lender_gross_at l last <= lender_gross_at l now ∧ lender_gross_at l now < 2 ^ 108
  ∧ 0 <= spread_at l last <= spread_at l now ∧ spread_at l now < 2 ^ 108.
Proof.
  intros Hwf Hnow last sp. destruct Hwf.
  assert (in_u U16 (loan_lender_rate_bps l)) as Hlr by zlia.
  assert (in_u U16 sp) as Hsp by (subst sp; zlia).
  assert (∀ r, in_u U16 r → 0 <= simple_interest l r last <= simple_interest l r now
    ∧ simple_interest l r now < 2 ^ 108) as Hr.
  { intros r Hr. pose proof (simple_interest_bounds l r now wf_principal0 Hr wf_started0 ltac:(lia)).
    pose proof (simple_interest_bounds l r last wf_principal0 Hr wf_started0 ltac:(lia)).
    pose proof (simple_interest_mono l r last now (proj1 wf_principal0) (proj1 Hr) ltac:(lia)).
    lia. }
  unfold lender_gross_at, spread_at. split_and!; [done|done|apply Hr..]; done.
Qed.

(** The checked subtractions that follow the cumulative figures. *)
Lemma accrual_curator_facts l now :
  loan_wf l → last_accrued_unix l < now < 2 ^ 63 →
  let last := last_accrued_unix l in
  cum_curator_fee l (lender_gross_at l now) = Ok (curator_cut_at l now)
  ∧ cum_curator_fee l (lender_gross_at l last) = Ok (curator_cut_at l last)
  ∧ 0 <= curator_cut_at l last <= curator_cut_at l now
  ∧ 0 <= lender_gross_at l last - curator_cut_at l last
      <= lender_gross_at l now - curator_cut_at l now.
Proof.
  intros Hwf Hnow last.
  pose proof (curator_cut_step l last now Hwf ltac:(destruct Hwf; subst last; lia)).
  pose proof (cum_curator_fee_spec l now Hwf ltac:(destruct Hwf; lia)) as [? ?].
  pose proof (cum_curator_fee_spec l last Hwf ltac:(destruct Hwf; subst last; lia)) as [? ?].
  split_and!; (done || lia).
Qed.

(** [accrue_loan] on an accruing loan is the reference accrual, and its only
    error is a ledger field that leaves [u64]. *)
Lemma accrue_loan_eq l now :
  loan_wf l → accruing l → last_accrued_unix l < now < 2 ^ 63 →
  accrue_loan l now =
    if accrual_fits (accrued l now) then Ok (accrued l now) else Err ArithmeticOverflow.
Proof.
  intros Hwf (Hout & Hst & Hty) Hnow.
  pose proof (accrual_facts l now Hwf Hnow) as (Hlr & Hsp & ? & ? & ? & ?).
  pose proof (accrual_curator_facts l now Hwf Hnow) as (Hcn & Hcl & ? & ?).
  assert (∀ r t, in_u U16 r → started_at_unix l <= t < 2 ^ 63 →
    cumulative_at (principal_debt_atoms l) INTEREST_DENOM r (t - started_at_unix l)
      = Ok (simple_interest l r t)) as Hcum
    by (intros; destruct Hwf; by apply cumulative_at_spec).
  destruct Hwf.
  unfold accrue_loan.
  rewrite (proj2 (Z.eqb_neq _ _)) by lia. rewrite (proj2 (Z.ltb_lt _ _)) by lia. simpl.
  rewrite !(proj2 (Z.eqb_neq _ _)) by done. simpl.
  change (ok_or (checked_mul U128 BPS_PER_UNIT SECONDS_PER_YEAR) ArithmeticOverflow)
    with (Ok INTEREST_DENOM). simpl.
  rewrite (proj2 (checked_sub_i_Some _ _ _ _)) by (split; [done|zlia]).
  rewrite (proj2 (Z.ltb_lt _ _)) by lia.
  rewrite (proj2 (checked_sub_i_Some _ _ _ _)) by (split; [done|zlia]).
  rewrite (proj2 (Z.leb_le _ _)) by lia.
  rewrite sub_ok by lia. simpl.
  rewrite !Hcum by (done || lia). simpl.
  fold (lender_gross_at l now) (lender_gross_at l (last_accrued_unix l)).
  fold (spread_at l now) (spread_at l (last_accrued_unix l)).
  do 2 (rewrite add_ok by zlia; simpl). do 2 (rewrite sub_ok by lia; simpl).
  rewrite Hcn, Hcl. simpl. do 4 (rewrite sub_ok by lia; simpl).
  rewrite !accrue_checked_add_u64_spec by zlia.
  rewrite try_from_u64_spec. unfold accrual_fits, accrued. simpl.
  match goal with |- context [lender_gross_at l now + spread_at l now - ?y] =>
    replace (lender_gross_at l now + spread_at l now - y)
      with (lender_gross_at l now - lender_gross_at l (last_accrued_unix l)
            + (spread_at l now - spread_at l (last_accrued_unix l))) by lia end.
  match goal with |- context [lender_gross_at l now - curator_cut_at l now - ?y] =>
    replace (lender_gross_at l now - curator_cut_at l now - y)
      with (lender_gross_at l now - lender_gross_at l (last_accrued_unix l)
            - (curator_cut_at l now - curator_cut_at l (last_accrued_unix l))) by lia end.
  repeat (match goal with |- context [?x <=? umax U64] => destruct (x <=? umax U64) end;
          simpl; try done).
Qed.

(** ** Inversion of accrual *)

#[export] Instance accruing_dec l : Decision (accruing l).
Proof. unfold accruing. apply _. Defined.

Lemma not_accruing_idle l :
  ¬ accruing l →
  outstanding_debt_atoms l = 0
    ∨ loan_state_byte l = LoanState_as_u8 LoanState_Repaid
    ∨ loan_type_byte l = LoanType_as_u8 LoanType_P2Pool.
Proof.
  intros H. destruct (decide (outstanding_debt_atoms l = 0)); [by left|].
  destruct (decide (loan_state_byte l = LoanState_as_u8 LoanState_Repaid)); [by right; left|].
  destruct (decide (loan_type_byte l = LoanType_as_u8 LoanType_P2Pool)); [by right; right|].
  by destruct H.
Qed.

Lemma accrue_loan_Ok_inv l now l' :
  loan_wf l → now < 2 ^ 63 → accrue_loan l now = Ok l' →
  (now = last_accrued_unix l ∧ l' = l)
  ∨ (last_accrued_unix l < now ∧ ¬ accruing l ∧ l' = l <| last_accrued_unix := now |>)
  ∨ (last_accrued_unix l < now ∧ accruing l ∧ accrual_fits (accrued l now) = true
     ∧ l' = accrued l now).
Proof.
  intros Hwf Hnow H. destruct (Z.lt_total now (last_accrued_unix l)) as [Hlt|[->|Hgt]].
  - unfold accrue_loan in H. rewrite (proj2 (Z.eqb_neq _ _)) in H by lia.
    rewrite (proj2 (Z.ltb_ge _ _)) in H by lia. discriminate.
  - left. unfold accrue_loan in H. rewrite Z.eqb_refl in H. by injection H.
  - right. destruct (decide (accruing l)) as [Ha|Ha].
    + right. rewrite accrue_loan_eq in H by done. destruct (accrual_fits _); [|done].
      by injection H.
    + left. rewrite accrue_loan_idle in H by (done || by apply not_accruing_idle).
      by injection H.
Qed.

Lemma accrual_fits_spec l :
  accrual_fits l = true ↔
  outstanding_debt_atoms l <= umax U64 ∧ lender_claimable_atoms l <= umax U64
  ∧ accumulated_curator_fee_atoms l <= umax U64 ∧ accumulated_protocol_fee_atoms l <= umax U64
  ∧ cumulative_lender_gross_interest_atoms l <= umax U64.
Proof. unfold accrual_fits. rewrite !andb_true_iff, !Z.leb_le. tauto. Qed.

Lemma loan_wf_touch l now :
  loan_wf l → last_accrued_unix l <= now < 2 ^ 63 → loan_wf (l <| last_accrued_unix := now |>).
Proof. intros [] Hnow. split; simpl; (done || lia). Qed.

Lemma loan_wf_accrued l now :
  loan_wf l → last_accrued_unix l <= now < 2 ^ 63 → accrual_fits (accrued l now) = true →
  loan_wf (accrued l now).
Proof.
  intros Hwf Hnow Hfit%accrual_fits_spec.
  pose proof (accrued_mono l now Hwf ltac:(lia)) as Hmono.
  destruct Hwf. split; simpl in *; (done || zlia).
Qed.

Lemma accrued_accrued l t1 t2 : accrued (accrued l t1) t2 = accrued l t2.
Proof.
  unfold accrued. simpl. unfold spread_at, lender_gross_at, curator_cut_at, lender_gross_at, simple_interest.
  simpl. f_equal; lia.
Qed.

Lemma accrued_now l : cumulative_lender_gross_interest_atoms (accrued l (last_accrued_unix l))
  = lender_gross_at l (last_accrued_unix l).
Proof. reflexivity. Qed.

(** ** The conservation invariant *)

Definition loan_conserved (l : LoanFixed) : Prop :=
  lender_claimable_atoms l + accumulated_protocol_fee_atoms l + accumulated_curator_fee_atoms l
  = outstanding_debt_atoms l + principal_retired_atoms l.

#[export] Instance loan_conserved_dec l : Decision (loan_conserved l).
Proof. unfold loan_conserved. apply _. Defined.

(** [assert_loan_conservation] decides the invariant (up to [u64] overflow of
    the two sums it compares). *)
Lemma assert_loan_conservation_Ok l :
  assert_loan_conservation l = Ok tt ↔
  loan_conserved l ∧ outstanding_debt_atoms l + principal_retired_atoms l < 2 ^ 64
  ∧ lender_claimable_atoms l + accumulated_protocol_fee_atoms l < 2 ^ 64.
Proof.
  unfold assert_loan_conservation, loan_conserved. split.
  - intros H. inv_ok. lia.
  - intros (Hc & Ho & Hp).
    rewrite (proj2 (checked_add_Some _ (lender_claimable_atoms l) _ _) (conj eq_refl Hp)). simpl.
    rewrite add_ok by lia. simpl. rewrite add_ok by lia. simpl.
    apply require_Ok. lia.
Qed.

(** ** Resolution: lemmas *)

(** What a resolution of [repaid] atoms does to the ledger. *)
Definition resolved (l : LoanFixed) (repaid : Z) : LoanFixed :=
  l <| outstanding_debt_atoms ::= λ x, x - repaid |>
    <| principal_retired_atoms ::= λ x, x + repaid |>.

Lemma resolved_conserved l r : loan_conserved (resolved l r) ↔ loan_conserved l.
Proof. unfold loan_conserved, resolved. simpl. lia. Qed.

(** Given the portions, the rest of a resolution succeeds. *)
Lemma apply_partial_resolution_eq l r :
  0 < r <= outstanding_debt_atoms l → assert_loan_conservation l = Ok tt →
  apply_partial_resolution l r = (λ p, (resolved l r, p)) <$> resolution_portions l r.
Proof.
  intros Hr Hc. unfold apply_partial_resolution.
  rewrite (proj2 (Z.ltb_lt _ _)) by lia. rewrite (proj2 (Z.leb_le _ _)) by lia. simpl.
  rewrite Hc. simpl. destruct (resolution_portions l r) as [p|e]; [|done]. simpl.
  apply assert_loan_conservation_Ok in Hc as (Hc & Ho & Hp).
  rewrite sub_ok by lia. simpl. rewrite add_ok by lia. simpl.
  change (assert_loan_conservation _) with (assert_loan_conservation (resolved l r)).
  rewrite (proj2 (assert_loan_conservation_Ok (resolved l r))); [done|].
  rewrite resolved_conserved. simpl. split_and!; (done || lia).
Qed.

Lemma apply_partial_resolution_inv l r l' p :
  apply_partial_resolution l r = Ok (l', p) →
  0 < r <= outstanding_debt_atoms l ∧ assert_loan_conservation l = Ok tt
  ∧ l' = resolved l r ∧ resolution_portions l r = Ok p.
Proof.
  intros H. pose proof H as H'. unfold apply_partial_resolution in H. inv_ok_step H.
  apply Z.ltb_lt in H0. inv_ok_step H. apply Z.leb_le in H1.
  inv_ok_step H. repeat match goal with u : unit |- _ => destruct u end.
  rewrite apply_partial_resolution_eq in H' by (done || lia).
  destruct (resolution_portions l r); simpl in H'; [|done]. injection H' as <- <-. done.
Qed.

Lemma resolution_portions_sum l r x y z :
  resolution_portions l r = Ok (x, y, z) → x + y + z = r ∧ 0 <= x ∧ 0 <= y ∧ 0 <= z.
Proof.
  unfold resolution_portions, saturating_sub, as_u. intros H.
  case_match; inv_ok; simplify_eq; [lia|].
  pose proof (Z.mod_pos_bound a (2 ^ 64) ltac:(done)).
  pose proof (Z.mod_pos_bound a0 (2 ^ 64) ltac:(done)). lia.
Qed.

(** The fee already retired never exceeds the fee, on a conserved loan. *)
Lemma fee_already_retired_Ok f l :
  loan_wf l → loan_conserved l → in_u U64 (f l) →
  f l <= outstanding_debt_atoms l + principal_retired_atoms l →
  0 < outstanding_debt_atoms l →
  let total := outstanding_debt_atoms l + principal_retired_atoms l in
  fee_already_retired f l = Ok (f l * principal_retired_atoms l / total)
  ∧ 0 <= f l * principal_retired_atoms l / total <= f l.
Proof.
  intros Hwf Hc Hf Hle Hpos total. destruct Hwf. unfold loan_conserved in Hc.
  unfold fee_already_retired.
  rewrite (proj2 (checked_add_Some U128 (lender_claimable_atoms l) _
    (lender_claimable_atoms l + accumulated_protocol_fee_atoms l))) by (split; zlia). simpl.
  rewrite add_ok by zlia. simpl. rewrite Hc. fold total.
  assert (0 < total) by (subst total; zlia).
  rewrite (proj2 (Z.eqb_neq total 0)) by lia.
  pose proof (mul_range (f l) (principal_retired_atoms l) 64 64 Hf wf_retired0
    ltac:(done) ltac:(done)) as Hm. change (64 + 64) with 128 in Hm.
  rewrite mul_ok by lia. simpl. unfold checked_div. rewrite (proj2 (Z.eqb_neq total 0)) by lia.
  simpl. assert (0 <= f l * principal_retired_atoms l / total <= f l) as Hb.
  { split; [apply Z.div_pos; lia|]. apply Z.div_le_upper_bound; [lia|].
    subst total. zlia || (unfold_ints; nia). }
  rewrite try_from_ok by zlia. done.
Qed.

(** The full close-out split on a conserved loan. *)
Lemma resolution_portions_full l :
  loan_wf l → loan_conserved l → 0 < outstanding_debt_atoms l →
  let out := outstanding_debt_atoms l in
  let retired := principal_retired_atoms l in
  let due f := f - f * retired / (out + retired) in
  let y := due (accumulated_protocol_fee_atoms l) in
  let z := due (accumulated_curator_fee_atoms l) in
  resolution_portions l out =
    if y + z <=? out then Ok (out - y - z, y, z) else Err ArithmeticOverflow.
Proof.
  intros Hwf Hc Hpos out retired due y z. pose proof Hwf as []. unfold loan_conserved in Hc.
  pose proof (fee_already_retired_Ok accumulated_protocol_fee_atoms l Hwf Hc
    wf_protocol_fee0 ltac:(zlia) Hpos) as [Hp Hpb].
  pose proof (fee_already_retired_Ok accumulated_curator_fee_atoms l Hwf Hc
    wf_curator_fee0 ltac:(zlia) Hpos) as [Hq Hqb].
  unfold resolution_portions. rewrite (proj2 (Z.leb_le _ _)) by lia.
  unfold protocol_already_retired, curator_already_retired. rewrite Hp, Hq. simpl.
  unfold saturating_sub. fold out retired in Hp, Hpb, Hq, Hqb |- *.
  rewrite !Z.max_r by lia. fold (due (accumulated_protocol_fee_atoms l)).
  fold (due (accumulated_curator_fee_atoms l)). fold y z.
  assert (0 <= y) by (subst y due; simpl; lia). assert (0 <= z) by (subst z due; simpl; lia).
  unfold checked_sub. destruct (Z.leb_spec (y + z) out).
  - rewrite (proj2 (Z.leb_le y out)) by lia. simpl.
    rewrite (proj2 (Z.leb_le z (out - y))) by lia. done.
  - destruct (Z.leb_spec y out); simpl; [|done].
    rewrite (proj2 (Z.leb_gt z (out - y))) by lia. done.
Qed.

(** The split of a partial resolution. *)
Lemma resolution_portions_partial l r :
  loan_wf l → 0 < r < outstanding_debt_atoms l →
  accumulated_protocol_fee_atoms l + accumulated_curator_fee_atoms l <= outstanding_debt_atoms l →
  let slice f := f * r / outstanding_debt_atoms l in
  let y := slice (accumulated_protocol_fee_atoms l) in
  let z := slice (accumulated_curator_fee_atoms l) in
  resolution_portions l r = Ok (r - y - z, y, z) ∧ 0 <= y ∧ 0 <= z ∧ y + z <= r.
Proof.
  intros Hwf Hr Hfees slice y z. destruct Hwf.
  set (p := accumulated_protocol_fee_atoms l) in *.
  set (c := accumulated_curator_fee_atoms l) in *.
  set (out := outstanding_debt_atoms l) in *.
  assert (y + z <= r /\ 0 <= y <= p /\ 0 <= z <= c) as (Hyz & Hy & Hz).
  { assert ((p * r + c * r) / out <= r) by (apply Z.div_le_upper_bound; nia).
    assert (∀ a b, a / out + b / out <= (a + b) / out) as Hadd.
    { intros a b. apply Z.div_le_lower_bound; [lia|].
      pose proof (Z.mul_div_le a out ltac:(lia)). pose proof (Z.mul_div_le b out ltac:(lia)). lia. }
    specialize (Hadd (p * r) (c * r)).
    assert (∀ f, 0 <= f → 0 <= f * r / out <= f) as Hb.
    { intros f Hf. split; [apply Z.div_pos; nia|]. apply Z.div_le_upper_bound; nia. }
    pose proof (Hb p ltac:(zlia)). pose proof (Hb c ltac:(zlia)). subst y z slice. simpl. lia. }
  split; [|lia]. unfold resolution_portions.
  fold out p c. rewrite (proj2 (Z.leb_gt out r)) by lia.
  rewrite (proj2 (mul_div_floor_Ok p r out y ltac:(zlia) ltac:(zlia) ltac:(zlia)))
    by (subst y slice; simpl in *; split_and!; zlia). simpl.
  rewrite (proj2 (mul_div_floor_Ok c r out z ltac:(zlia) ltac:(zlia) ltac:(zlia)))
    by (subst z slice; simpl in *; split_and!; zlia). simpl.
  unfold as_u. rewrite !Z.mod_small by zlia.
  unfold checked_sub. rewrite (proj2 (Z.leb_le y r)) by lia. simpl.
  rewrite (proj2 (Z.leb_le z (r - y))) by lia. done.
Qed.

(** A sample loan: 1,000,000 atoms for 30 days at 12% (10% to the lender, a
    pool sub-vault with a 10% curator fee), accrued at origination. *)
Definition sample_loan : LoanFixed :=
  (new_from_matched_loan_with_lender 7 1 255 9 100 200 1000000 1000000 5000000 1200 1000
    2592000 1700000000 1 LoanType_Fixed 0 OWNER_KIND_SUB_VAULT 3 11 1000
    fp48_ONE fp48_ONE).

(** ** Properties *)

(** C25: accrual implements simple interest.  On a well-formed loan [accrue_loan]
    leaves the loan alone at the same timestamp, rejects a time rewind, only
    moves the timestamp of a repaid, empty or pool-funded loan, and otherwise
    moves every ledger bucket to its closed form in time, failing only when a
    bucket leaves [u64]. *)
Theorem accrue_loan_implements_simple_interest (l : LoanFixed) (now : Z)
    (Hwf : loan_wf l) (Hnow : now < 2 ^ 63) :
  accrue_loan l now =
    if now =? last_accrued_unix l then Ok l
    else if now <? last_accrued_unix l then Err InvalidArgument
    else if negb (bool_decide (accruing l)) then Ok (l <| last_accrued_unix := now |>)
    else if accrual_fits (accrued l now) then Ok (accrued l now)
    else Err ArithmeticOverflow.
Proof.
  destruct (Z.eqb_spec now (last_accrued_unix l)) as [->|Hne].
  { unfold accrue_loan. by rewrite Z.eqb_refl. }
  destruct (Z.ltb_spec now (last_accrued_unix l)).
  { unfold accrue_loan. rewrite (proj2 (Z.eqb_neq _ _)) by done.
    rewrite (proj2 (Z.ltb_ge _ _)) by lia. done. }
  case_bool_decide; simpl.
  - apply accrue_loan_eq; (done || lia).
  - apply accrue_loan_idle; [lia|]. by apply not_accruing_idle.
Qed.

Lemma accrue_loan_implements_simple_interest_witness :
  outstanding_debt_atoms <$> accrue_loan sample_loan 1702592000 = Ok 1009862.
Proof.
  rewrite (accrue_loan_implements_simple_interest sample_loan 1702592000);
    [vm_compute; reflexivity | apply (bool_decide_unpack _); vm_compute; exact I | lia].
Defined.

(** C26: accrual is path independent.  Splitting the interval at any
    intermediate timestamp gives the same loan, and the same error, as accruing
    over it at once, so nobody gains or loses by poking the loan. *)
Theorem accrue_loan_path_independent (l l1 : LoanFixed) (t1 t2 : Z)
    (Hwf : loan_wf l) (Ht : t1 <= t2 < 2 ^ 63) (H1 : accrue_loan l t1 = Ok l1) :
  accrue_loan l1 t2 = accrue_loan l t2.
Proof.
  destruct (accrue_loan_Ok_inv l t1 l1 Hwf ltac:(lia) H1)
    as [[-> ->]|[(Hlt & Hna & ->)|(Hlt & Ha & Hfit & ->)]]; [done|..].
  - destruct (Z.eq_dec t2 t1) as [->|].
    + unfold accrue_loan at 1. simpl. by rewrite Z.eqb_refl.
    + rewrite !accrue_loan_idle; simpl; try lia; try by apply not_accruing_idle. done.
  - destruct (Z.eq_dec t2 t1) as [->|].
    + unfold accrue_loan at 1. simpl. by rewrite Z.eqb_refl.
    + pose proof (loan_wf_accrued l t1 Hwf ltac:(destruct Hwf; lia) Hfit) as Hwf1.
      pose proof (accrued_mono l t1 Hwf ltac:(lia)) as [Hmono _].
      rewrite (accrue_loan_eq l t2) by (done || lia).
      rewrite accrue_loan_eq; [by rewrite accrued_accrued|done| |simpl; lia].
      destruct Ha as (? & ? & ?). split_and!; [destruct Hwf; zlia|done..].
Qed.

Lemma accrue_loan_path_independent_witness :
  ∃ l1, accrue_loan sample_loan 1701000000 = Ok l1
        ∧ accrue_loan l1 1702592000 = accrue_loan sample_loan 1702592000.
Proof.
  eexists. split; [vm_compute; reflexivity|].
  apply (accrue_loan_path_independent sample_loan _ 1701000000 1702592000);
    [apply (bool_decide_unpack _); vm_compute; exact I | lia | vm_compute; reflexivity].
Defined.

(** Accrual is an invariant-preserving step.  It keeps the loan well-formed
    and conserved, never lowers a bucket, and touches nothing but the ledger
    buckets and the timestamp. *)
Theorem accrue_loan_preserves (l l' : LoanFixed) (now : Z)
    (Hwf : loan_wf l) (Hc : loan_conserved l) (Hnow : now < 2 ^ 63)
    (H : accrue_loan l now = Ok l') :
  loan_wf l' ∧ loan_conserved l' ∧ last_accrued_unix l' = now
  ∧ outstanding_debt_atoms l <= outstanding_debt_atoms l'
  ∧ lender_claimable_atoms l <= lender_claimable_atoms l'
  ∧ accumulated_protocol_fee_atoms l <= accumulated_protocol_fee_atoms l'
  ∧ accumulated_curator_fee_atoms l <= accumulated_curator_fee_atoms l'
  ∧ principal_retired_atoms l' = principal_retired_atoms l
  ∧ principal_debt_atoms l' = principal_debt_atoms l
  ∧ loan_collateral_atoms l' = loan_collateral_atoms l.
Proof.
  destruct (accrue_loan_Ok_inv l now l' Hwf Hnow H)
    as [[-> ->]|[(Hlt & Hna & ->)|(Hlt & Ha & Hfit & ->)]].
  - split_and!; done || lia.
  - split; [apply loan_wf_touch; (done || lia)|]. simpl. split_and!; done || lia.
  - split; [apply loan_wf_accrued; (done || lia)|].
    pose proof (accrued_mono l now Hwf ltac:(lia)) as (? & ? & ? & ?).
    split_and!; try done. unfold loan_conserved in *. simpl. lia.
Qed.

Lemma accrue_loan_preserves_witness :
  ∃ l', accrue_loan sample_loan 1702592000 = Ok l' ∧ loan_conserved l'.
Proof.
  eexists. split; [vm_compute; reflexivity|].
  eapply (accrue_loan_preserves sample_loan _ 1702592000);
    [apply (bool_decide_unpack _); vm_compute; exact I
    |apply (bool_decide_unpack _); vm_compute; exact I|lia|vm_compute; reflexivity].
Defined.

(** A resolution moves exactly the repaid atoms.  When
    [apply_partial_resolution] succeeds, the repayment was positive and at most
    the debt, the three portions add up to it, the debt falls by it and the
    retired counter rises by it, the buckets and everything else are unchanged,
    and conservation holds before and after. *)
Theorem apply_partial_resolution_exact (l l' : LoanFixed) (repaid x y z : Z)
    (H : apply_partial_resolution l repaid = Ok (l', (x, y, z))) :
  0 < repaid <= outstanding_debt_atoms l
  ∧ l' = resolved l repaid
  ∧ x + y + z = repaid ∧ 0 <= x ∧ 0 <= y ∧ 0 <= z
  ∧ loan_conserved l ∧ loan_conserved l'
  ∧ (repaid = outstanding_debt_atoms l ↔ outstanding_debt_atoms l' = 0).
Proof.
  apply apply_partial_resolution_inv in H as (Hr & Hc & -> & Hp).
  apply assert_loan_conservation_Ok in Hc as (Hc & _ & _).
  apply resolution_portions_sum in Hp.
  split_and!; try done; try lia; [by apply resolved_conserved|simpl; lia..].
Qed.

Lemma apply_partial_resolution_exact_witness :
  ∃ l' x y z, apply_partial_resolution sample_loan 400000 = Ok (l', (x, y, z))
              ∧ x + y + z = 400000.
Proof.
  do 4 eexists. split; [vm_compute; reflexivity|].
  eapply (apply_partial_resolution_exact sample_loan _ 400000). vm_compute. reflexivity.
Defined.

(** When a resolution can succeed.  On a well-formed loan that passes the
    conservation check, a partial repayment succeeds whenever the accumulated
    fees do not exceed the debt, and a full repayment succeeds exactly when the
    two fee remainders (each rounded up) fit in the debt. *)
Theorem apply_partial_resolution_progress (l : LoanFixed) (repaid : Z)
    (Hwf : loan_wf l) (Hc : assert_loan_conservation l = Ok tt)
    (Hr : 0 < repaid <= outstanding_debt_atoms l) :
  let out := outstanding_debt_atoms l in
  let retired := principal_retired_atoms l in
  let p := accumulated_protocol_fee_atoms l in
  let c := accumulated_curator_fee_atoms l in
  let due f := f - f * retired / (out + retired) in
  (repaid < out → p + c <= out → is_Ok (apply_partial_resolution l repaid) = true)
  ∧ (repaid = out → is_Ok (apply_partial_resolution l repaid) = (due p + due c <=? out)).
Proof.
  intros out retired p c due. rewrite apply_partial_resolution_eq by done.
  apply assert_loan_conservation_Ok in Hc as (Hcons & _ & _). split.
  - intros Hlt Hfees.
    pose proof (resolution_portions_partial l repaid Hwf ltac:(lia) Hfees) as [-> _]. done.
  - intros ->. subst out. rewrite (resolution_portions_full l Hwf Hcons) by lia.
    set (out := outstanding_debt_atoms l) in *.
    fold retired p c. change (p - p * retired / (out + retired)) with (due p).
    change (c - c * retired / (out + retired)) with (due c). by destruct (_ <=? _).
Qed.

Lemma apply_partial_resolution_progress_witness :
  is_Ok (apply_partial_resolution sample_loan 400000) = true.
Proof.
  eapply (λ w c r, proj1 (apply_partial_resolution_progress sample_loan 400000 w c r));
    [apply (bool_decide_unpack _); vm_compute; exact I|vm_compute; reflexivity|vm_compute; split; congruence
    |vm_compute; reflexivity|vm_compute; congruence].
Defined.

(** The close-out of a well-formed, conserved loan, and the ceiling of a fee due. *)
Lemma close_out_eq l : loan_wf l → assert_loan_conservation l = Ok tt →
  0 < outstanding_debt_atoms l →
  let out := outstanding_debt_atoms l in
  let due f := f - f * principal_retired_atoms l / (out + principal_retired_atoms l) in
  let y := due (accumulated_protocol_fee_atoms l) in
  let z := due (accumulated_curator_fee_atoms l) in
  apply_partial_resolution l out =
    if y + z <=? out then Ok (resolved l out, (out - y - z, y, z)) else Err ArithmeticOverflow.
Proof.
  intros Hwf Hc Hout. cbv zeta. rewrite apply_partial_resolution_eq by (done || lia).
  apply assert_loan_conservation_Ok in Hc as (Hc & _). rewrite (resolution_portions_full l Hwf Hc Hout).
  by destruct (_ <=? _).
Qed.

(** The last atom owes an atom to each fee bucket in use. *)
Lemma last_atom_due f retired : 0 < f → f <= 1 + retired → f - f * retired / (1 + retired) = 1.
Proof.
  intros Hf Hle. assert (f * retired / (1 + retired) = f - 1) as ->; [|lia].
  symmetry. apply (Z.div_unique_pos _ _ _ (1 + retired - f)); lia.
Qed.

Lemma last_atom_stuck l : loan_wf l → assert_loan_conservation l = Ok tt →
  outstanding_debt_atoms l = 1 → 0 < accumulated_protocol_fee_atoms l →
  0 < accumulated_curator_fee_atoms l → apply_partial_resolution l 1 = Err ArithmeticOverflow.
Proof.
  intros Hwf Hc Hout Hp Hk. pose proof (close_out_eq l Hwf Hc ltac:(lia)) as H. cbv zeta in H.
  apply assert_loan_conservation_Ok in Hc as (Hc & _). unfold loan_conserved in Hc.
  destruct Hwf as [_ _ [Hl _] _ _ _]. rewrite Hout in *.
  rewrite !last_atom_due in H by lia. exact H.
Qed.

Lemma resolved_wf l r : loan_wf l → assert_loan_conservation l = Ok tt →
  0 < r <= outstanding_debt_atoms l →
  loan_wf (resolved l r) ∧ assert_loan_conservation (resolved l r) = Ok tt.
Proof.
  intros Hwf Hc Hr. pose proof (proj1 (assert_loan_conservation_Ok l) Hc) as (Hcons & Ho & Hp).
  split.
  - destruct Hwf. split; simpl; try done; unfold in_u in *; lia.
  - apply assert_loan_conservation_Ok. rewrite resolved_conserved. simpl. split_and!; (done || lia).
Qed.

(** C27: closing a loan out, and the dust that cannot be.  On a well-formed loan that
    passes the conservation check, the repayment of the whole debt succeeds exactly when
    what is still due of the two fees (each rounded up) fits in the debt, pays them and
    gives the lender the rest; otherwise it is an [ArithmeticOverflow].  So no loan with
    one atom of debt and both fees in use can be closed; and any loan with both fees in
    use, as long as they fit in the debt, is taken there by repaying all of it but one
    atom, which succeeds. *)
Theorem dust_close_out_fails (l : LoanFixed)
    (Hwf : loan_wf l) (Hc : assert_loan_conservation l = Ok tt)
    (Hout : 0 < outstanding_debt_atoms l) :
  let out := outstanding_debt_atoms l in
  let due f := f - f * principal_retired_atoms l / (out + principal_retired_atoms l) in
  let y := due (accumulated_protocol_fee_atoms l) in
  let z := due (accumulated_curator_fee_atoms l) in
  apply_partial_resolution l out =
    (if y + z <=? out then Ok (resolved l out, (out - y - z, y, z)) else Err ArithmeticOverflow)
  ∧ (0 < accumulated_protocol_fee_atoms l → 0 < accumulated_curator_fee_atoms l →
     (out = 1 → apply_partial_resolution l 1 = Err ArithmeticOverflow)
     ∧ (accumulated_protocol_fee_atoms l + accumulated_curator_fee_atoms l <= out →
        ∃ portions, apply_partial_resolution l (out - 1) = Ok (resolved l (out - 1), portions)
          ∧ outstanding_debt_atoms (resolved l (out - 1)) = 1
          ∧ apply_partial_resolution (resolved l (out - 1)) 1 = Err ArithmeticOverflow)).
Proof.
  intros out due y z. split; [by apply close_out_eq|]. intros Hp Hk. split.
  - intros Hone. by apply last_atom_stuck.
  - intros Hfees. destruct (resolved_wf l (out - 1) Hwf Hc) as [Hwf' Hc']; [lia|].
    pose proof (resolution_portions_partial l (out - 1) Hwf ltac:(lia) Hfees) as [Hpor _].
    eexists. rewrite apply_partial_resolution_eq by (done || lia). rewrite Hpor.
    split; [reflexivity|]. split; [simpl; lia|].
    apply last_atom_stuck; try done. simpl. lia.
Qed.

(** The sample loan, accrued to maturity and repaid down to its last atom. *)
Lemma dust_close_out_fails_witness :
  match accrue_loan sample_loan 1702592000 with
  | Ok l =>
      outstanding_debt_atoms l = 1009862
      ∧ is_Ok (apply_partial_resolution l 1009862) = true
      ∧ is_Ok (apply_partial_resolution l 1009861) = true
      ∧ apply_partial_resolution (resolved l 1009861) 1 = Err ArithmeticOverflow
  | Err _ => False
  end.
Proof.
  destruct (accrue_loan sample_loan 1702592000) as [l|] eqn:E; [|vm_compute in E; discriminate E].
  vm_compute in E. injection E as <-. split; [reflexivity|].
  match goal with |- is_Ok (apply_partial_resolution ?l _) = true ∧ _ =>
    destruct (dust_close_out_fails l) as [Hfull Hdust];
      [apply (bool_decide_unpack _); vm_compute; exact I|vm_compute; reflexivity
      |vm_compute; reflexivity|] end.
  destruct (Hdust eq_refl eq_refl) as [_ Hlast].
  destruct (Hlast ltac:(vm_compute; discriminate)) as (portions & H1 & _ & H2).
  split; [exact (f_equal is_Ok Hfull)|]. split; [exact (f_equal is_Ok H1)|exact H2].
Defined.

(** The principal portion of a settlement.  It never exceeds the principal
    still open nor the settlement's pro-rata share, and a settlement that covers
    the debt releases all of the principal still open. *)
Theorem principal_portion_bounds (l : LoanFixed) (s : Z)
    (Hwf : loan_wf l) (Hs : in_u U64 s) (Hout : 0 < outstanding_debt_atoms l) :
  let open := Z.max 0 (principal_debt_atoms l - principal_retired_atoms l) in
  principal_portion_of_settlement l s =
    Ok (if outstanding_debt_atoms l <=? s then open else s * open / outstanding_debt_atoms l)
  ∧ (s < outstanding_debt_atoms l → 0 <= s * open / outstanding_debt_atoms l <= open).
Proof.
  intros open. destruct Hwf. unfold principal_portion_of_settlement, saturating_sub. fold open.
  rewrite (proj2 (Z.eqb_neq _ 0)) by lia.
  assert (s < outstanding_debt_atoms l → 0 <= s * open / outstanding_debt_atoms l <= open) as Hb.
  { intros ?. assert (0 <= open) by lia.
    split; [apply Z.div_pos; znia|]. apply Z.div_le_upper_bound; znia. }
  split; [|done]. unfold as_u. assert (in_u U64 open) by (subst open; zlia).
  destruct (Z.leb_spec (outstanding_debt_atoms l) s).
  - rewrite (Z.min_l open) by zlia. by rewrite Z.mod_small by zlia.
  - specialize (Hb ltac:(lia)).
    rewrite (proj2 (mul_div_floor_Ok s open (outstanding_debt_atoms l) (s * open / outstanding_debt_atoms l)
      ltac:(zlia) ltac:(zlia) ltac:(zlia))) by (split_and!; zlia). simpl.
    rewrite (Z.min_l _ open) by lia.
    rewrite (Z.min_l _ (umax U64)) by zlia. by rewrite Z.mod_small by zlia.
Qed.

Lemma principal_portion_bounds_witness :
  principal_portion_of_settlement sample_loan 250000 = Ok 250000.
Proof.
  rewrite (proj1 (principal_portion_bounds sample_loan 250000
    (bool_decide_unpack (loan_wf sample_loan) ltac:(vm_compute; exact I)) ltac:(zlia)
    ltac:(vm_compute; reflexivity))).
  vm_compute. reflexivity.
Defined.
