(* ===== verification/Marginfi.v ===== *)
(** * The marginfi adapter

    Raw account data as the runtime hands it over, the zero-copy views of a
    marginfi bank and account ([programs/marginfi-mocks/src/state.rs],
    [wire.rs]), and the adapter around them
    ([programs/ydelta/src/protocol/marginfi.rs]): the share and atom conversions
    and the wrappers that call marginfi and report the realised delta.  The
    marginfi program itself is not part of this repository: a call into it is
    the parameter [invoke_signed] of the section [Cpi]. *)
From stdpp Require Import base numbers list option.
From S2P Require Import Prelude FixedPoint.
Local Open Scope Z_scope.

(** ** Accounts and bytes *)

(** An account as an instruction sees it; a byte is a [Z] in [[0, 256)]. *)
Record AccountInfo := mkAccountInfo {
  ai_key : Pubkey;
  ai_owner : Pubkey;
  ai_data : list Z }.

#[export] Instance eta_AccountInfo : Eta AccountInfo := λ a,
  mkAccountInfo (ai_key a) (ai_owner a) (ai_data a).

#[export] Instance AccountInfo_eq_dec : EqDecision AccountInfo.
Proof. solve_decision. Defined.

(** [data[off..off + n]]: an out-of-range slice panics. *)
Definition slice (data : list Z) (off n : nat) : result (list Z) :=
  if (off + n <=? length data)%nat then Ok (take n (drop off data)) else Err Panic.

(** [data[off]]. *)
Definition byte_at (data : list Z) (off : nat) : result Z := ok_or (data !! off) Panic.

(** [accounts[i]]. *)
Definition account_at (accounts : list AccountInfo) (i : nat) : result AccountInfo :=
  ok_or (accounts !! i) Panic.

(** [uN::from_le_bytes], and the 32-byte key read big-endian. *)
Definition from_le_bytes (bs : list Z) : Z := foldr (λ b acc, b + 256 * acc) 0 bs.
Definition key_from_bytes (bs : list Z) : Pubkey := foldl (λ acc b, 256 * acc + b) 0 bs.

Definition ANCHOR_HEADER_LEN : nat := 8.
Definition MARGINFI_ID : Pubkey :=
  0x5307ad6454bbc5e1e4e92059253a18bb8c8868c58a6312ec86a39e6224e373b.
Definition SPL_TOKEN_ID : Pubkey :=
  0x6ddf6e1d765a193d9cbe146ceeb79ac1cb485ed5f5b37913a8cf5857eff00a9.
Definition SPL_TOKEN_2022_ID : Pubkey :=
  0x6ddf6e1ee758fde18425dbce46ccddab61afc4d83b90d27febdf928d8a18bfc.

(** ** The zero-copy views *)

(** [WrappedI80F48::to_i128_bits] of the sixteen bytes at [off]. *)
Definition wrapped_at (data : list Z) (off : nat) : result Z :=
  bs ← slice data off 16; mret (as_i 128 (from_le_bytes bs)).

Definition key_at (data : list Z) (off : nat) : result Pubkey :=
  bs ← slice data off 32; mret (key_from_bytes bs).

Definition InvalidDiscriminator : ProgramError := Custom 200.
Definition AccountTooSmall : ProgramError := Custom 201.

Definition BANK_ACCOUNT_SIZE : nat := 1864.
Definition BANK_DISCRIMINATOR : list Z := [142; 49; 166; 242; 50; 66; 97; 188].
Definition MARGINFI_ACCOUNT_TOTAL_SIZE : nat := 2312.
Definition MARGINFI_ACCOUNT_DISCRIMINATOR : list Z := [67; 178; 130; 109; 126; 114; 28; 42].

(** The fields of [Bank] the program reads. *)
Record Bank := mkBank {
  bank_mint : Pubkey;
  bank_mint_decimals : Z;
  bank_group : Pubkey;
  asset_share_value : Z;
  liability_share_value : Z;
  bank_liquidity_vault : Pubkey }.

(** [Bank::try_from_account_data]. *)
Definition bank_try_from_account_data (data : list Z) : result Bank :=
  if negb (length data =? BANK_ACCOUNT_SIZE)%nat then Err AccountTooSmall else
  disc ← slice data 0 ANCHOR_HEADER_LEN;
  if negb (bool_decide (disc = BANK_DISCRIMINATOR)) then Err InvalidDiscriminator else
  mint ← key_at data (ANCHOR_HEADER_LEN + 0);
  decimals ← byte_at data (ANCHOR_HEADER_LEN + 32);
  group ← key_at data (ANCHOR_HEADER_LEN + 33);
  asv ← wrapped_at data (ANCHOR_HEADER_LEN + 72);
  lsv ← wrapped_at data (ANCHOR_HEADER_LEN + 88);
  vault ← key_at data (ANCHOR_HEADER_LEN + 104);
  mret (mkBank mint decimals group asv lsv vault).

(** [BankConfigView::try_from_account_data]: the 544 config bytes. *)
Definition BANK_CONFIG_BODY_OFFSET : nat := 288.
Definition BANK_CONFIG_SIZE : nat := 544.

Definition config_try_from_account_data (data : list Z) : result (list Z) :=
  if negb (length data =? BANK_ACCOUNT_SIZE)%nat then Err AccountTooSmall else
  disc ← slice data 0 ANCHOR_HEADER_LEN;
  if negb (bool_decide (disc = BANK_DISCRIMINATOR)) then Err InvalidDiscriminator else
  slice data (ANCHOR_HEADER_LEN + BANK_CONFIG_BODY_OFFSET) BANK_CONFIG_SIZE.

Definition cfg_asset_weight_init (raw : list Z) : result Z := wrapped_at raw 0.
Definition cfg_asset_weight_maint (raw : list Z) : result Z := wrapped_at raw 16.
Definition cfg_liability_weight_init (raw : list Z) : result Z := wrapped_at raw 32.
Definition cfg_liability_weight_maint (raw : list Z) : result Z := wrapped_at raw 48.
Definition cfg_oracle_setup_raw (raw : list Z) : result Z := byte_at raw 313.
Definition cfg_oracle_key (raw : list Z) (idx : nat) : result Pubkey :=
  if negb (idx <? 5)%nat then Err Panic else key_at raw (314 + idx * 32).
Definition cfg_oracle_max_age (raw : list Z) : result Z :=
  bs ← slice raw 504 2; mret (from_le_bytes bs).
Definition cfg_oracle_max_confidence (raw : list Z) : result Z :=
  bs ← slice raw 508 4; mret (from_le_bytes bs).

(** One of the sixteen [Balance] slots of a marginfi account. *)
Record Balance := mkBalance {
  balance_active : Z;
  balance_bank_pk : Pubkey;
  balance_asset_shares : Z;
  balance_liability_shares : Z }.

Definition balance_is_active (b : Balance) : bool := negb (balance_active b =? 0).

Definition BALANCE_SIZE : nat := 104.

Definition balance_at (data : list Z) (i : nat) : result Balance :=
  let off := (ANCHOR_HEADER_LEN + 64 + i * BALANCE_SIZE)%nat in
  active ← byte_at data off;
  bank_pk ← key_at data (off + 1);
  assets ← wrapped_at data (off + 40);
  liabilities ← wrapped_at data (off + 56);
  mret (mkBalance active bank_pk assets liabilities).

(** [MarginfiAccount::try_from_account_data]: its balance slots. *)
Definition marginfi_account_try_from_account_data (data : list Z) : result (list Balance) :=
  if (length data <? MARGINFI_ACCOUNT_TOTAL_SIZE)%nat then Err AccountTooSmall else
  disc ← slice data 0 ANCHOR_HEADER_LEN;
  if negb (bool_decide (disc = MARGINFI_ACCOUNT_DISCRIMINATOR)) then Err InvalidDiscriminator else
  foldr (λ i acc, b ← balance_at data i; bs ← acc; mret (b :: bs)) (Ok []) (seq 0 16).

(** [MarginfiAccount::find_balance]. *)
Definition find_balance (balances : list Balance) (bank : Pubkey) : option Balance :=
  List.find (λ b, balance_is_active b && (balance_bank_pk b =? bank)) balances.

(** ** Reads of the adapter *)

Definition wrapped_i80f48_to_u128 (bits : Z) : result Z :=
  if bits <? 0 then Err InvalidIntegrationAccount else Ok bits.

(** [u128_to_wrapped_i80f48]: the bits of the wrapped value. *)
Definition u128_to_wrapped_i80f48 (scaled : Z) : Z := as_i 128 scaled.

Definition borrow_bank (data : list Z) : result Bank :=
  map_err (bank_try_from_account_data data) InvalidIntegrationAccount.

Definition assert_marginfi_owned (account : AccountInfo) : result unit :=
  require (ai_owner account =? MARGINFI_ID) InvalidIntegrationAccount.

Definition borrow_marginfi_account (data : list Z) : result (list Balance) :=
  map_err (marginfi_account_try_from_account_data data) InvalidIntegrationAccount.

Definition read_asset_shares_u128 (marginfi_account : AccountInfo) (bank_pk : Pubkey) : result Z :=
  mfi ← borrow_marginfi_account (ai_data marginfi_account);
  match find_balance mfi bank_pk with
  | Some b => wrapped_i80f48_to_u128 (balance_asset_shares b)
  | None => Ok 0
  end.

Definition read_liability_shares_u128 (marginfi_account : AccountInfo) (bank_pk : Pubkey)
    : result Z :=
  mfi ← borrow_marginfi_account (ai_data marginfi_account);
  match find_balance mfi bank_pk with
  | Some b => wrapped_i80f48_to_u128 (balance_liability_shares b)
  | None => Ok 0
  end.

Definition token_balance_of (info : AccountInfo) : result Z :=
  if negb (ai_owner info =? SPL_TOKEN_ID) && negb (ai_owner info =? SPL_TOKEN_2022_ID)
  then Err InvalidIntegrationAccount else
  if (length (ai_data info) <? 72)%nat then Err InvalidIntegrationAccount else
  bs ← slice (ai_data info) 64 8;
  mret (from_le_bytes bs).

(** ** Share and atom conversions

    Each takes the bank account, [accounts.first()] of the Rust method. *)

(** [if x > u64::MAX { ArithmeticOverflow } else { x as u64 }]. *)
Definition to_u64_or_overflow (x : Z) : result Z :=
  if umax U64 <? x then Err ArithmeticOverflow else Ok x.

Definition first_account (accounts : list AccountInfo) : result AccountInfo :=
  ok_or (head accounts) InvalidIntegrationAccount.

Definition shares_to_amount (accounts : list AccountInfo) (shares : Z) : result Z :=
  bank_info ← first_account accounts;
  _ ← assert_marginfi_owned bank_info;
  bank ← borrow_bank (ai_data bank_info);
  asv ← wrapped_i80f48_to_u128 (asset_share_value bank);
  atoms ← mul_scale shares asv;
  to_u64_or_overflow (from_scaled_floor atoms).

Definition amount_to_asset_shares (accounts : list AccountInfo) (amount_atoms : Z) : result Z :=
  bank_info ← first_account accounts;
  _ ← assert_marginfi_owned bank_info;
  bank ← borrow_bank (ai_data bank_info);
  asv ← wrapped_i80f48_to_u128 (asset_share_value bank);
  amount_fp48 ← to_scaled amount_atoms;
  div_scale amount_fp48 asv.

Definition amount_to_liability_shares (accounts : list AccountInfo) (amount_atoms : Z)
    : result Z :=
  bank_info ← first_account accounts;
  _ ← assert_marginfi_owned bank_info;
  bank ← borrow_bank (ai_data bank_info);
  lsv ← wrapped_i80f48_to_u128 (liability_share_value bank);
  amount_fp48 ← to_scaled amount_atoms;
  div_scale amount_fp48 lsv.

(** The arithmetic of [amount_to_asset_shares_ceil] at a share value. *)
Definition asset_shares_ceil_at (amount_atoms asv : Z) : result Z :=
  amount_fp48 ← to_scaled amount_atoms;
  shares_floor ← div_scale amount_fp48 asv;
  back ← mul_scale shares_floor asv;
  if from_scaled_floor back <? amount_atoms
  then ok_or (checked_add U128 shares_floor 1) ArithmeticOverflow
  else Ok shares_floor.

Definition amount_to_asset_shares_ceil (accounts : list AccountInfo) (amount_atoms : Z)
    : result Z :=
  bank_info ← first_account accounts;
  bank ← borrow_bank (ai_data bank_info);
  asv ← wrapped_i80f48_to_u128 (asset_share_value bank);
  asset_shares_ceil_at amount_atoms asv.

Definition liability_shares_to_atoms_floor (accounts : list AccountInfo) (shares : Z)
    : result Z :=
  bank_info ← first_account accounts;
  bank ← borrow_bank (ai_data bank_info);
  lsv ← wrapped_i80f48_to_u128 (liability_share_value bank);
  atoms ← mul_scale shares lsv;
  ok_or (try_from U64 (from_scaled_floor atoms)) ArithmeticOverflow.

Definition liability_shares_to_atoms_ceil_at_lsv (shares_fp48 lsv_fp48 : Z) : result Z :=
  atoms_fp48 ← mul_scale shares_fp48 lsv_fp48;
  atoms ← from_scaled_ceil atoms_fp48;
  ok_or (try_from U64 atoms) ArithmeticOverflow.

Definition init_weight (accounts : list AccountInfo) : result (Z * Z) :=
  bank_ai ← first_account accounts;
  _ ← assert_marginfi_owned bank_ai;
  cfg ← map_err (config_try_from_account_data (ai_data bank_ai)) InvalidIntegrationAccount;
  a_bits ← cfg_asset_weight_init cfg;
  a ← wrapped_i80f48_to_u128 a_bits;
  l_bits ← cfg_liability_weight_init cfg;
  l ← wrapped_i80f48_to_u128 l_bits;
  mret (a, l).

Definition maint_weight (accounts : list AccountInfo) : result (Z * Z) :=
  bank_ai ← first_account accounts;
  _ ← assert_marginfi_owned bank_ai;
  cfg ← map_err (config_try_from_account_data (ai_data bank_ai)) InvalidIntegrationAccount;
  a_bits ← cfg_asset_weight_maint cfg;
  a ← wrapped_i80f48_to_u128 a_bits;
  l_bits ← cfg_liability_weight_maint cfg;
  l ← wrapped_i80f48_to_u128 l_bits;
  mret (a, l).

(** ** Calls into marginfi *)

Inductive MarginfiIx :=
  | DepositIx (amount : Z) (deposit_up_to_limit : option bool)
  | WithdrawIx (amount : Z) (withdraw_all : option bool)
  | BorrowIx (amount : Z)
  | RepayIx (amount : Z) (repay_all : option bool).

(** [|actual - expected| > 1] is an error. *)
Definition check_atom_delta (actual expected : Z) : result unit :=
  if 1 <? Z.abs (actual - expected) then Err UnexpectedAtomDelta else Ok tt.

(** The slice-length and program-id checks every wrapper opens with. *)
Definition check_cpi_accounts (accounts : list AccountInfo) (explicit : nat) : result unit :=
  if (length accounts <? explicit + 1)%nat then Err InvalidIntegrationAccount else
  program ← account_at accounts explicit;
  if negb (ai_key program =? MARGINFI_ID) then Err InvalidIntegrationAccount else Ok tt.

Section Cpi.
  (** What marginfi does to the accounts of the call, or its error. *)
  Variable invoke_signed : MarginfiIx → list AccountInfo → result (list AccountInfo).

Definition adapter_deposit (accounts : list AccountInfo) (amount_atoms : Z)
    : result (Z * list AccountInfo) :=
  _ ← check_cpi_accounts accounts 7;
  marginfi_account ← account_at accounts 1;
  bank ← account_at accounts 3;
  _ ← borrow_bank (ai_data bank);
  pre_shares ← read_asset_shares_u128 marginfi_account (ai_key bank);
  accounts' ← invoke_signed (DepositIx amount_atoms None) accounts;
  marginfi_account' ← account_at accounts' 1;
  post_shares ← read_asset_shares_u128 marginfi_account' (ai_key bank);
  mret (saturating_sub post_shares pre_shares, accounts').

Definition adapter_withdraw (accounts : list AccountInfo) (shares : Z)
    : result (Z * Z * list AccountInfo) :=
  _ ← check_cpi_accounts accounts 8;
  marginfi_account ← account_at accounts 1;
  bank ← account_at accounts 3;
  destination ← account_at accounts 4;
  bank_view ← borrow_bank (ai_data bank);
  asv ← wrapped_i80f48_to_u128 (asset_share_value bank_view);
  atoms ← mul_scale shares asv;
  expected_atoms ← to_u64_or_overflow (from_scaled_floor atoms);
  pre_destination ← token_balance_of destination;
  pre_asset_shares ← read_asset_shares_u128 marginfi_account (ai_key bank);
  accounts' ← invoke_signed (WithdrawIx expected_atoms None) accounts;
  destination' ← account_at accounts' 4;
  post_destination ← token_balance_of destination';
  let actual_atoms := saturating_sub post_destination pre_destination in
  _ ← check_atom_delta actual_atoms expected_atoms;
  marginfi_account' ← account_at accounts' 1;
  post_asset_shares ← read_asset_shares_u128 marginfi_account' (ai_key bank);
  mret (actual_atoms, saturating_sub pre_asset_shares post_asset_shares, accounts').

Definition adapter_borrow (accounts : list AccountInfo) (amount_atoms : Z)
    : result (Z * list AccountInfo) :=
  _ ← check_cpi_accounts accounts 8;
  marginfi_account ← account_at accounts 1;
  bank ← account_at accounts 3;
  _ ← borrow_bank (ai_data bank);
  pre_liability ← read_liability_shares_u128 marginfi_account (ai_key bank);
  accounts' ← invoke_signed (BorrowIx amount_atoms) accounts;
  marginfi_account' ← account_at accounts' 1;
  post_liability ← read_liability_shares_u128 marginfi_account' (ai_key bank);
  mret (saturating_sub post_liability pre_liability, accounts').

Definition adapter_repay (accounts : list AccountInfo) (shares : Z)
    : result (Z * list AccountInfo) :=
  _ ← check_cpi_accounts accounts 7;
  bank ← account_at accounts 3;
  signer ← account_at accounts 4;
  bank_view ← borrow_bank (ai_data bank);
  lsv ← wrapped_i80f48_to_u128 (liability_share_value bank_view);
  atoms ← mul_scale shares lsv;
  expected_u128 ← from_scaled_ceil atoms;
  expected_atoms ← to_u64_or_overflow expected_u128;
  pre_signer ← token_balance_of signer;
  accounts' ← invoke_signed (RepayIx expected_atoms None) accounts;
  signer' ← account_at accounts' 4;
  post_signer ← token_balance_of signer';
  let actual_atoms := saturating_sub pre_signer post_signer in
  _ ← check_atom_delta actual_atoms expected_atoms;
  mret (actual_atoms, accounts').

Definition repay_atoms_inner (accounts : list AccountInfo) (amount_atoms : Z) (repay_all : bool)
    : result (Z * list AccountInfo) :=
  _ ← check_cpi_accounts accounts 7;
  marginfi_account ← account_at accounts 1;
  bank ← account_at accounts 3;
  pre_liability ← read_liability_shares_u128 marginfi_account (ai_key bank);
  accounts' ← invoke_signed (RepayIx amount_atoms (if repay_all then Some true else None)) accounts;
  marginfi_account' ← account_at accounts' 1;
  post_liability ← read_liability_shares_u128 marginfi_account' (ai_key bank);
  burned ← ok_or (checked_sub pre_liability post_liability) InvalidIntegrationAccount;
  mret (burned, accounts').

Definition repay_atoms (accounts : list AccountInfo) (amount_atoms : Z) :=
  repay_atoms_inner accounts amount_atoms false.

Definition repay_atoms_full (accounts : list AccountInfo) (amount_atoms : Z) :=
  repay_atoms_inner accounts amount_atoms true.

Definition withdraw_atoms_full (accounts : list AccountInfo) (amount_cap : Z)
    : result (Z * list AccountInfo) :=
  _ ← check_cpi_accounts accounts 8;
  destination ← account_at accounts 4;
  pre_destination ← token_balance_of destination;
  accounts' ← invoke_signed (WithdrawIx amount_cap (Some true)) accounts;
  destination' ← account_at accounts' 4;
  post_destination ← token_balance_of destination';
  mret (saturating_sub post_destination pre_destination, accounts').
End Cpi.

(** ** Sample accounts

    Writers that lay out bytes ([to_le_bytes], a key's own), and accounts for the
    examples. *)

Fixpoint le_bytes (n : nat) (x : Z) : list Z :=
  match n with O => [] | S n => x mod 256 :: le_bytes n (x / 256) end.

Definition put (data : list Z) (off : nat) (bs : list Z) : list Z :=
  take off data ++ bs ++ drop (off + length bs) data.

Definition key_bytes (k : Pubkey) : list Z := rev (le_bytes 32 k).

(** A bank whose share values are [asv] and [lsv]. *)
Definition sample_bank (key : Pubkey) (asv lsv : Z) : AccountInfo :=
  mkAccountInfo key MARGINFI_ID
    (put (put (put (replicate BANK_ACCOUNT_SIZE 0) 0 BANK_DISCRIMINATOR)
      (ANCHOR_HEADER_LEN + 72) (le_bytes 16 asv)) (ANCHOR_HEADER_LEN + 88) (le_bytes 16 lsv)).

(** A marginfi account with one active balance. *)
Definition sample_marginfi_account (bank : Pubkey) (assets liabilities : Z) : AccountInfo :=
  mkAccountInfo 21 MARGINFI_ID
    (put (put (put (put (put (replicate MARGINFI_ACCOUNT_TOTAL_SIZE 0) 0
      MARGINFI_ACCOUNT_DISCRIMINATOR) 72 [1]) 73 (key_bytes bank))
      112 (le_bytes 16 assets)) 128 (le_bytes 16 liabilities)).

Definition sample_token_account (amount : Z) : AccountInfo :=
  mkAccountInfo 22 SPL_TOKEN_ID (put (replicate 165 0) 64 (le_bytes 8 amount)).

(** ** Lemmas *)

Lemma from_le_bytes_le_bytes n x :
  0 <= x < 256 ^ Z.of_nat n → from_le_bytes (le_bytes n x) = x.
Proof.
  revert x. induction n as [|n IH]; intros x Hx.
  - simpl in *. lia.
  - assert (256 ^ Z.of_nat (S n) = 256 * 256 ^ Z.of_nat n) as Hp
      by (rewrite Nat2Z.inj_succ, Z.pow_succ_r by lia; done).
    cbn [le_bytes from_le_bytes foldr]. fold (from_le_bytes (le_bytes n (x / 256))).
    rewrite IH; [pose proof (Z.div_mod x 256); lia|].
    split; [apply Z.div_pos; lia|apply Z.div_lt_upper_bound; lia].
Qed.

(** The floored atoms of [s] raw shares at share value [v], through the two
    roundings of the code. *)
Definition atoms_of_shares (s v : Z) : Z := s * v / SCALE / SCALE.

Lemma atoms_of_shares_ge s v a : a <= atoms_of_shares s v ↔ a * (SCALE * SCALE) <= s * v.
Proof.
  unfold atoms_of_shares. rewrite Z.div_div by done.
  assert (0 < SCALE * SCALE) as Hpos by done. split; intros H.
  - pose proof (Z.mul_div_le (s * v) (SCALE * SCALE) ltac:(done)). nia.
  - apply Z.div_le_lower_bound; [done|]. lia.
Qed.

Lemma wrapped_at_range data off x : wrapped_at data off = Ok x → in_i 128 x.
Proof.
  unfold wrapped_at, as_i. intros H. apply bind_Ok in H as (bs & _ & H). injection H as <-.
  pose proof (Z.mod_pos_bound (from_le_bytes bs + 2 ^ (128 - 1)) (2 ^ 128) ltac:(done)).
  unfold in_i. zlia.
Qed.

(** The share values of a bank that parses are [i128] values. *)
Lemma borrow_bank_range data bank :
  borrow_bank data = Ok bank →
  in_i 128 (asset_share_value bank) ∧ in_i 128 (liability_share_value bank).
Proof.
  unfold borrow_bank, bank_try_from_account_data. intros H. apply map_err_Ok in H.
  destruct (negb _); [done|]. apply bind_Ok in H as (disc & _ & H). destruct (negb _); [done|].
  apply bind_Ok in H as (? & _ & H). apply bind_Ok in H as (? & _ & H).
  apply bind_Ok in H as (? & _ & H). apply bind_Ok in H as (asv & Ha & H).
  apply bind_Ok in H as (lsv & Hl & H). apply bind_Ok in H as (? & _ & H). injection H as <-.
  split; by eapply wrapped_at_range.
Qed.

Lemma asset_shares_floor_eq a v :
  in_u U64 a → 0 < v < 2 ^ 127 →
  to_scaled a = Ok (a * SCALE) ∧
  (a * SCALE * SCALE / v < 2 ^ 128 →
    div_scale (a * SCALE) v = Ok (a * SCALE * SCALE / v)
    ∧ mul_scale (a * SCALE * SCALE / v) v = Ok ((a * SCALE * SCALE / v) * v / SCALE)).
Proof.
  intros Ha Hv. split.
  - rewrite to_scaled_spec by (eapply in_u_mono; [|done]; lia).
    rewrite (proj2 (Z.ltb_lt _ _)); [done|zlia].
  - intros Hlt. assert (in_u U128 (a * SCALE)) by (rewrite SCALE_eq; zlia).
    assert (0 <= a * SCALE * SCALE / v) by (apply Z.div_pos; rewrite ?SCALE_eq; zlia).
    assert (in_u U128 v) by zlia.
    split.
    + rewrite div_scale_spec by done. rewrite (proj2 (Z.eqb_neq v 0)) by lia.
      by rewrite (proj2 (Z.ltb_lt _ _)).
    + rewrite mul_scale_spec by (done || split; done).
      rewrite (proj2 (Z.ltb_lt _ _)); [done|].
      apply Z.div_lt_upper_bound; [done|].
      pose proof (Z.mul_div_le (a * SCALE * SCALE) v ltac:(lia)).
      rewrite SCALE_eq in *. zlia.
Qed.

(** ** Properties *)

(** The rounded-up share count is the least that covers the amount.  When
    [asset_shares_ceil_at] succeeds with [s] at a positive share value, [s]
    shares are worth at least [amount] atoms, and no smaller count is. *)
Theorem asset_shares_ceil_least (amount asv s : Z)
    (Ha : in_u U64 amount) (Hv : 0 < asv < 2 ^ 127)
    (H : asset_shares_ceil_at amount asv = Ok s) :
  amount <= atoms_of_shares s asv
  ∧ ∀ s', 0 <= s' < s → atoms_of_shares s' asv < amount.
Proof.
  pose proof (asset_shares_floor_eq amount asv Ha Hv) as [Hs Hok].
  unfold asset_shares_ceil_at in H. rewrite Hs in H. cbn [mbind result_bind] in H.
  set (f := amount * SCALE * SCALE / asv) in *.
  assert (f < 2 ^ 128) as Hf.
  { rewrite div_scale_spec in H by (rewrite ?SCALE_eq; zlia).
    rewrite (proj2 (Z.eqb_neq asv 0)) in H by lia. fold f in H.
    destruct (Z.ltb_spec f (2 ^ 128)); [done|discriminate]. }
  destruct (Hok Hf) as [Hd Hm]. rewrite Hd in H. cbn [mbind result_bind] in H.
  rewrite Hm in H. cbn [mbind result_bind] in H. rewrite from_scaled_floor_eq in H.
  fold (atoms_of_shares f asv) in H.
  pose proof (Z.div_mod (amount * SCALE * SCALE) asv ltac:(lia)) as E. fold f in E.
  pose proof (Z.mod_pos_bound (amount * SCALE * SCALE) asv ltac:(lia)).
  assert (∀ s', s' * asv < amount * (SCALE * SCALE) → atoms_of_shares s' asv < amount) as Hless.
  { intros s' Hs'. apply Z.nle_gt. rewrite atoms_of_shares_ge. lia. }
  destruct (Z.ltb_spec (atoms_of_shares f asv) amount) as [Hlt|Hge]; inv_ok; subst.
  - split; [apply atoms_of_shares_ge; lia|]. intros s' Hs'.
    apply Z.lt_nge in Hlt. rewrite atoms_of_shares_ge in Hlt. apply Hless. nia.
  - split; [done|]. intros s' Hs'. apply Hless. nia.
Qed.

Lemma asset_shares_ceil_least_witness :
  ∃ s, asset_shares_ceil_at 1000000 300000000000001 = Ok s
       ∧ 1000000 <= atoms_of_shares s 300000000000001.
Proof.
  eexists. split; [vm_compute; reflexivity|].
  eapply (asset_shares_ceil_least 1000000 300000000000001);
    [vm_compute; split; congruence|vm_compute; split; congruence|vm_compute; reflexivity].
Defined.

(** A deposit's shares are worth the deposit, less at most an atom.  Reading
    the same bank, [amount_to_asset_shares] followed by [shares_to_amount]
    never returns more than the amount, and at most one atom less while a share
    is worth less than [2^48] atoms. *)
Theorem asset_shares_round_trip (accounts : list AccountInfo) (amount s back : Z)
    (Ha : in_u U64 amount)
    (Hs : amount_to_asset_shares accounts amount = Ok s)
    (Hb : shares_to_amount accounts s = Ok back) :
  back <= amount
  ∧ (∀ info bank, head accounts = Some info → borrow_bank (ai_data info) = Ok bank →
      asset_share_value bank < 2 ^ 96 → amount - 1 <= back).
Proof.
  unfold amount_to_asset_shares, shares_to_amount, first_account, to_u64_or_overflow in *.
  destruct (head accounts) as [info|]; [|done]. cbn [ok_or mbind result_bind] in *.
  destruct (assert_marginfi_owned info); [|done]. cbn [mbind result_bind] in *.
  destruct (borrow_bank (ai_data info)) as [bank|] eqn:Eb; [|done]. cbn [mbind result_bind] in *.
  unfold wrapped_i80f48_to_u128 in *. destruct (Z.ltb_spec (asset_share_value bank) 0); [done|].
  pose proof (borrow_bank_range _ _ Eb) as [Hr _].
  set (v := asset_share_value bank) in *.
  destruct (Z.eq_dec v 0) as [Hv0|Hv0].
  { rewrite to_scaled_spec in Hs by (eapply in_u_mono; [|done]; lia).
    rewrite (proj2 (Z.ltb_lt _ _)) in Hs by zlia. cbn in Hs.
    rewrite div_scale_spec, Hv0 in Hs by (rewrite ?SCALE_eq; zlia). done. }
  pose proof (asset_shares_floor_eq amount v Ha ltac:(unfold in_i in Hr; zlia)) as [Hsc Hok].
  rewrite Hsc in Hs. cbn [mbind result_bind] in Hs.
  set (f := amount * SCALE * SCALE / v) in *.
  assert (f < 2 ^ 128) as Hf.
  { rewrite div_scale_spec in Hs by (rewrite ?SCALE_eq; zlia).
    rewrite (proj2 (Z.eqb_neq v 0)) in Hs by lia. fold f in Hs.
    destruct (Z.ltb_spec f (2 ^ 128)); [done|discriminate]. }
  destruct (Hok Hf) as [Hd Hm]. rewrite Hd in Hs. injection Hs as <-.
  cbn [mbind result_bind] in Hb.
  rewrite Hm in Hb. cbn [mbind result_bind] in Hb. rewrite from_scaled_floor_eq in Hb.
  fold (atoms_of_shares f v) in Hb.
  assert (back = atoms_of_shares f v) as -> by (destruct (_ <? _); [done|by injection Hb]).
  pose proof (Z.div_mod (amount * SCALE * SCALE) v ltac:(lia)) as E. fold f in E.
  pose proof (Z.mod_pos_bound (amount * SCALE * SCALE) v ltac:(lia)).
  split.
  - apply Z.lt_succ_r, Z.nle_gt. rewrite atoms_of_shares_ge. rewrite SCALE_eq in *. zlia.
  - intros ? ? [= <-] [= <-]%(eq_trans (eq_sym Eb)) Hlt. fold v in Hlt.
    apply atoms_of_shares_ge. rewrite SCALE_eq in *. zlia.
Qed.

Lemma asset_shares_round_trip_witness :
  ∃ s b, amount_to_asset_shares [sample_bank 5 300000000000001 SCALE] 1000000 = Ok s
    ∧ shares_to_amount [sample_bank 5 300000000000001 SCALE] s = Ok b ∧ b <= 1000000.
Proof.
  do 2 eexists. split; [vm_compute; reflexivity|]. split; [vm_compute; reflexivity|].
  refine (proj1 (asset_shares_round_trip [sample_bank 5 300000000000001 SCALE] 1000000
    _ _ _ _ _)); [vm_compute; split; congruence|vm_compute; reflexivity|vm_compute; reflexivity].
Defined.

(** A withdrawal reports what arrived.  When the adapter's withdraw
    succeeds, the atoms it reports are the growth of the destination token
    account across the call into marginfi, at most one atom away from the
    requested shares at the bank's share value, and the call asked marginfi for
    exactly that expected amount. *)
Theorem adapter_withdraw_reports_delta
    (invoke : MarginfiIx → list AccountInfo → result (list AccountInfo))
    (accounts accounts' : list AccountInfo) (shares atoms burned : Z)
    (H : adapter_withdraw invoke accounts shares = Ok (atoms, burned, accounts')) :
  ∃ bank view dest dest' pre post expected,
    accounts !! 3%nat = Some bank ∧ borrow_bank (ai_data bank) = Ok view
    ∧ accounts !! 4%nat = Some dest ∧ accounts' !! 4%nat = Some dest'
    ∧ token_balance_of dest = Ok pre ∧ token_balance_of dest' = Ok post
    ∧ shares_to_amount [bank <| ai_owner := MARGINFI_ID |>] shares = Ok expected
    ∧ invoke (WithdrawIx expected None) accounts = Ok accounts'
    ∧ atoms = Z.max 0 (post - pre) ∧ Z.abs (atoms - expected) <= 1.
Proof.
  unfold adapter_withdraw in H. unfold account_at in H.
  destruct (check_cpi_accounts accounts 8) as [[]|]; [|done]. cbn [mbind result_bind] in H.
  destruct (accounts !! 1%nat) as [mfi|]; [|done]. cbn [mbind result_bind ok_or] in H.
  destruct (accounts !! 3%nat) as [bank|]; [|done]. cbn [mbind result_bind ok_or] in H.
  destruct (accounts !! 4%nat) as [dest|]; [|done]. cbn [mbind result_bind ok_or] in H.
  destruct (borrow_bank (ai_data bank)) as [view|] eqn:Eb; [|done]. cbn [mbind result_bind] in H.
  apply bind_Ok in H as (asv & Hasv & H). apply bind_Ok in H as (sc & Hsc & H).
  apply bind_Ok in H as (expected & Hexp & H). apply bind_Ok in H as (pre & Hpre & H).
  apply bind_Ok in H as (pas & _ & H). apply bind_Ok in H as (acc & Hacc & H).
  apply bind_Ok in H as (dest' & Hdest' & H). apply ok_or_Ok in Hdest'.
  apply bind_Ok in H as (post & Hpost & H). apply bind_Ok in H as ([] & Hdelta & H).
  apply bind_Ok in H as (? & _ & H). apply bind_Ok in H as (? & _ & H). injection H as <- _ <-.
  exists bank, view, dest, dest', pre, post, expected. split_and!; try done.
  - unfold shares_to_amount. simpl. rewrite Eb. simpl. rewrite Hasv. simpl. by rewrite Hsc.
  - unfold check_atom_delta in Hdelta. destruct (Z.ltb_spec 1 (Z.abs
      (saturating_sub post pre - expected))); [done|]. lia.
Qed.

(** A marginfi that pays the requested atoms into the destination account. *)
Definition paying_marginfi (ix : MarginfiIx) (accounts : list AccountInfo)
    : result (list AccountInfo) :=
  match ix with
  | WithdrawIx amount _ => Ok (<[4%nat := sample_token_account (1000 + amount)]> accounts)
  | _ => Ok accounts
  end.

Definition sample_withdraw_accounts : list AccountInfo :=
  let filler := mkAccountInfo 1 1 [] in
  [filler; sample_marginfi_account 5 (700 * SCALE) 0; filler; sample_bank 5 (2 * SCALE) SCALE;
   sample_token_account 1000; filler; filler; filler; mkAccountInfo MARGINFI_ID 0 []].

Lemma adapter_withdraw_reports_delta_witness :
  match adapter_withdraw paying_marginfi sample_withdraw_accounts (300 * SCALE) with
  | Ok (atoms, _, _) => ∃ expected, Z.abs (atoms - expected) <= 1
  | Err _ => False
  end.
Proof.
  destruct (adapter_withdraw _ _ _) as [[[atoms burned] accounts']|e] eqn:E.
  - destruct (adapter_withdraw_reports_delta paying_marginfi sample_withdraw_accounts accounts'
      (300 * SCALE) atoms burned E) as (? & ? & ? & ? & ? & ? & expected & Hall).
    exists expected. apply Hall.
  - vm_compute in E. discriminate E.
Defined.
