(* ===== verification/RateCalc.v ===== *)
(** * The interest-rate replica ([programs/ydelta/src/protocol/marginfi_rate_calc.rs])

    The raw-byte readers of a marginfi bank and group, the two interest-rate
    curves, the lending and borrowing rates, the projection of a share value in
    time and the supply-rate floor under every vault ask. *)
From stdpp Require Import base numbers list option.
From S2P Require Import Prelude FixedPoint Marginfi.
Local Open Scope Z_scope.

(** ** Raw readers *)

Definition MARGINFI_SECONDS_PER_YEAR : Z := 31557600.
Definition INTEREST_CURVE_LEGACY : Z := 0.
Definition INTEREST_CURVE_SEVEN_POINT : Z := 1.
Definition PROGRAM_FEES_ENABLED_FLAG : Z := 1.

Definition BANK_BODY_TOTAL_LIABILITY_SHARES : nat := 248.
Definition BANK_BODY_TOTAL_ASSET_SHARES : nat := 264.
Definition BANK_BODY_LAST_UPDATE : nat := 280.
Definition BANK_BODY_CONFIG_START : nat := 288.
Definition BC_INTEREST_RATE_CONFIG : nat := 72.

Definition read_wrapped_i80f48_fp48 (data : list Z) (body_offset : nat) : result Z :=
  let offset := (ANCHOR_HEADER_LEN + body_offset)%nat in
  if (length data <? offset + 16)%nat then Err InvalidIntegrationAccount else
  buf ← slice data offset 16;
  let bits := as_i 128 (from_le_bytes buf) in
  if bits <? 0 then Err InvalidIntegrationAccount else Ok bits.

Definition read_u8 (data : list Z) (body_offset : nat) : result Z :=
  let offset := (ANCHOR_HEADER_LEN + body_offset)%nat in
  if (length data <=? offset)%nat then Err InvalidIntegrationAccount else byte_at data offset.

Definition read_u32 (data : list Z) (body_offset : nat) : result Z :=
  let offset := (ANCHOR_HEADER_LEN + body_offset)%nat in
  if (length data <? offset + 4)%nat then Err InvalidIntegrationAccount else
  buf ← slice data offset 4; mret (from_le_bytes buf).

Definition read_u64 (data : list Z) (body_offset : nat) : result Z :=
  let offset := (ANCHOR_HEADER_LEN + body_offset)%nat in
  if (length data <? offset + 8)%nat then Err InvalidIntegrationAccount else
  buf ← slice data offset 8; mret (from_le_bytes buf).

Definition read_i64 (data : list Z) (body_offset : nat) : result Z :=
  x ← read_u64 data body_offset; mret (as_i 64 x).

(** A reader behind the owner check. *)
Definition owned_read {A} (reader : list Z → result A) (info : AccountInfo) : result A :=
  _ ← assert_marginfi_owned info; reader (ai_data info).

Definition read_bank_last_update : AccountInfo → result Z :=
  owned_read (λ data, read_i64 data BANK_BODY_LAST_UPDATE).
Definition read_bank_asset_share_value_fp48 : AccountInfo → result Z :=
  owned_read (λ data, read_wrapped_i80f48_fp48 data 72).
Definition read_bank_liability_share_value_fp48 : AccountInfo → result Z :=
  owned_read (λ data, read_wrapped_i80f48_fp48 data 88).
Definition read_bank_total_asset_shares_fp48 : AccountInfo → result Z :=
  owned_read (λ data, read_wrapped_i80f48_fp48 data BANK_BODY_TOTAL_ASSET_SHARES).
Definition read_bank_total_liability_shares_fp48 : AccountInfo → result Z :=
  owned_read (λ data, read_wrapped_i80f48_fp48 data BANK_BODY_TOTAL_LIABILITY_SHARES).

Record InterestRateConfigDecoded := mkInterestRateConfig {
  optimal_utilization_rate_fp48 : Z;
  plateau_interest_rate_fp48 : Z;
  max_interest_rate_fp48 : Z;
  insurance_fee_fixed_apr_fp48 : Z;
  insurance_ir_fee_fp48 : Z;
  protocol_fixed_fee_apr_fp48 : Z;
  protocol_ir_fee_fp48 : Z;
  zero_util_rate_milli_u32 : Z;
  hundred_util_rate_milli_u32 : Z;
  irc_points : list (Z * Z);
  irc_curve_type : Z }.

(** The five [(util, rate)] points, read in order. *)
Fixpoint read_points (data : list Z) (off : nat) (n : nat) : result (list (Z * Z)) :=
  match n with
  | O => Ok []
  | S n =>
      util ← read_u32 data off;
      rate ← read_u32 data (off + 4);
      rest ← read_points data (off + 8) n;
      mret ((util, rate) :: rest)
  end.

Definition read_bank_interest_rate_config : AccountInfo → result InterestRateConfigDecoded :=
  owned_read (λ data,
    let irc_base := (BANK_BODY_CONFIG_START + BC_INTEREST_RATE_CONFIG)%nat in
    optimal ← read_wrapped_i80f48_fp48 data (irc_base + 0);
    plateau ← read_wrapped_i80f48_fp48 data (irc_base + 16);
    max_rate ← read_wrapped_i80f48_fp48 data (irc_base + 32);
    insurance_fixed ← read_wrapped_i80f48_fp48 data (irc_base + 48);
    insurance_ir ← read_wrapped_i80f48_fp48 data (irc_base + 64);
    protocol_fixed ← read_wrapped_i80f48_fp48 data (irc_base + 80);
    protocol_ir ← read_wrapped_i80f48_fp48 data (irc_base + 96);
    zero_util ← read_u32 data (irc_base + 128);
    hundred_util ← read_u32 data (irc_base + 132);
    points ← read_points data (irc_base + 136) 5;
    curve_type ← read_u8 data (irc_base + 176);
    mret (mkInterestRateConfig optimal plateau max_rate insurance_fixed insurance_ir
      protocol_fixed protocol_ir zero_util hundred_util points curve_type)).

Record GroupProgramFees := mkGroupProgramFees {
  fees_enabled : bool;
  program_fee_fixed_fp48 : Z;
  program_fee_rate_fp48 : Z }.

Definition read_group_program_fees : AccountInfo → result GroupProgramFees :=
  owned_read (λ data,
    flags ← read_u64 data 32;
    fixed ← read_wrapped_i80f48_fp48 data 72;
    rate ← read_wrapped_i80f48_fp48 data 88;
    mret (mkGroupProgramFees (negb (Z.land flags PROGRAM_FEES_ENABLED_FLAG =? 0)) fixed rate)).

(** ** The curves *)

Definition rate_milli_u32_to_fp48 (rate : Z) : result Z :=
  mul_div rate (10 * SCALE) (umax U32) false.

Definition util_centi_u32_to_fp48 (util : Z) : result Z := mul_div util SCALE (umax U32) false.

Definition lerp_fp48 (start_x start_y end_x end_y target_x : Z) : result Z :=
  if end_x <=? start_x then Err InvalidArgument else
  if (target_x <? start_x) || (end_x <? target_x) then Err InvalidArgument else
  if end_y <? start_y then Err InvalidArgument else
  delta_x ← panic_sub end_x start_x;
  offset ← panic_sub target_x start_x;
  proportion_fp48 ← div_scale offset delta_x;
  delta_y ← panic_sub end_y start_y;
  scaled_delta ← mul_scale delta_y proportion_fp48;
  mret (saturating_add U128 start_y scaled_delta).

Definition interest_rate_curve_legacy (ur_fp48 : Z) (cfg : InterestRateConfigDecoded) : result Z :=
  let optimal_ur := optimal_utilization_rate_fp48 cfg in
  let plateau_ir := plateau_interest_rate_fp48 cfg in
  let max_ir := max_interest_rate_fp48 cfg in
  if optimal_ur =? 0 then Err InvalidArgument else
  if ur_fp48 <=? optimal_ur then
    prop_fp48 ← div_scale ur_fp48 optimal_ur;
    mul_scale prop_fp48 plateau_ir
  else
    numer ← panic_sub ur_fp48 optimal_ur;
    let denom := saturating_sub SCALE optimal_ur in
    if denom =? 0 then Err InvalidArgument else
    prop_fp48 ← div_scale numer denom;
    let spread := saturating_sub max_ir plateau_ir in
    scaled ← mul_scale prop_fp48 spread;
    mret (saturating_add U128 plateau_ir scaled).

(** The loop over [cfg.points], with the previous point as its state. *)
Fixpoint seven_point_loop (points : list (Z * Z)) (prev_util prev_rate hundred_rate ur : Z)
    : result Z :=
  match points with
  | [] => lerp_fp48 prev_util prev_rate SCALE hundred_rate ur
  | (point_util_u32, point_rate_u32) :: rest =>
      if point_util_u32 =? 0 then seven_point_loop rest prev_util prev_rate hundred_rate ur else
      point_util ← util_centi_u32_to_fp48 point_util_u32;
      point_rate ← rate_milli_u32_to_fp48 point_rate_u32;
      _ ← require (prev_util <? point_util) InvalidArgument;
      if ur <=? point_util then lerp_fp48 prev_util prev_rate point_util point_rate ur
      else seven_point_loop rest point_util point_rate hundred_rate ur
  end.

Definition interest_rate_curve_seven_point (ur_fp48 : Z) (cfg : InterestRateConfigDecoded)
    : result Z :=
  zero_rate ← rate_milli_u32_to_fp48 (zero_util_rate_milli_u32 cfg);
  hundred_rate ← rate_milli_u32_to_fp48 (hundred_util_rate_milli_u32 cfg);
  let ur := Z.min ur_fp48 SCALE in
  seven_point_loop (irc_points cfg) 0 zero_rate hundred_rate ur.

Definition calc_interest_rate_fp48 (utilization_fp48 : Z) (cfg : InterestRateConfigDecoded)
    (program_fees : GroupProgramFees) : result (Z * Z) :=
  let '(program_rate_fee, program_fixed_fee) :=
    if fees_enabled program_fees
    then (program_fee_rate_fp48 program_fees, program_fee_fixed_fp48 program_fees)
    else (0, 0) in
  let fee_ir_fp48 :=
    saturating_add U128
      (saturating_add U128 (insurance_ir_fee_fp48 cfg) (protocol_ir_fee_fp48 cfg))
      program_rate_fee in
  let fee_fixed_fp48 :=
    saturating_add U128
      (saturating_add U128 (insurance_fee_fixed_apr_fp48 cfg) (protocol_fixed_fee_apr_fp48 cfg))
      program_fixed_fee in
  base_rate_apr_fp48 ←
    (if irc_curve_type cfg =? INTEREST_CURVE_LEGACY
     then interest_rate_curve_legacy utilization_fp48 cfg
     else if irc_curve_type cfg =? INTEREST_CURVE_SEVEN_POINT
     then interest_rate_curve_seven_point utilization_fp48 cfg
     else Err InvalidIntegrationAccount);
  lending_rate_apr_fp48 ← mul_scale base_rate_apr_fp48 utilization_fp48;
  let one_plus_fee_ir := saturating_add U128 SCALE fee_ir_fp48 in
  borrow_base ← mul_scale base_rate_apr_fp48 one_plus_fee_ir;
  mret (lending_rate_apr_fp48, saturating_add U128 borrow_base fee_fixed_fp48).

(** ** Projection in time *)

Definition calc_accrued_share_value_fp48 (apr_fp48 dt share_value_fp48 : Z) : result Z :=
  if (dt =? 0) || (apr_fp48 =? 0) || (share_value_fp48 =? 0) then Ok share_value_fp48 else
  period_rate_fp48 ← mul_div apr_fp48 dt MARGINFI_SECONDS_PER_YEAR false;
  accrued_fp48 ← mul_scale share_value_fp48 period_rate_fp48;
  mret (saturating_add U128 share_value_fp48 accrued_fp48).

(** [(now_unix - last_update).max(0) as u128]; the subtraction panics when it
    leaves [i64]. *)
Definition elapsed_since (now_unix last_update : Z) : result Z :=
  d ← panic_sub_i 64 now_unix last_update; mret (Z.max d 0).

Definition calc_projected_liability_share_value_fp48 (bank_info group_info : AccountInfo)
    (now_unix : Z) : result Z :=
  last_update ← read_bank_last_update bank_info;
  dt ← elapsed_since now_unix last_update;
  lsv_fp48 ← read_bank_liability_share_value_fp48 bank_info;
  if dt =? 0 then Ok lsv_fp48 else
  total_asset_shares ← read_bank_total_asset_shares_fp48 bank_info;
  total_liability_shares ← read_bank_total_liability_shares_fp48 bank_info;
  asv_fp48 ← read_bank_asset_share_value_fp48 bank_info;
  total_assets ← mul_scale total_asset_shares asv_fp48;
  total_liabilities ← mul_scale total_liability_shares lsv_fp48;
  if (total_assets =? 0) || (total_liabilities =? 0) then Ok lsv_fp48 else
  utilization ← div_scale total_liabilities total_assets;
  cfg ← read_bank_interest_rate_config bank_info;
  program_fees ← read_group_program_fees group_info;
  rates ← calc_interest_rate_fp48 utilization cfg program_fees;
  calc_accrued_share_value_fp48 (snd rates) dt lsv_fp48.

Definition calc_projected_asset_share_value_fp48 (bank_info group_info : AccountInfo)
    (now_unix : Z) : result Z :=
  last_update ← read_bank_last_update bank_info;
  dt ← elapsed_since now_unix last_update;
  asv_fp48 ← read_bank_asset_share_value_fp48 bank_info;
  if dt =? 0 then Ok asv_fp48 else
  total_asset_shares ← read_bank_total_asset_shares_fp48 bank_info;
  total_liability_shares ← read_bank_total_liability_shares_fp48 bank_info;
  lsv_fp48 ← read_bank_liability_share_value_fp48 bank_info;
  total_assets ← mul_scale total_asset_shares asv_fp48;
  total_liabilities ← mul_scale total_liability_shares lsv_fp48;
  if (total_assets =? 0) || (total_liabilities =? 0) then Ok asv_fp48 else
  utilization ← div_scale total_liabilities total_assets;
  cfg ← read_bank_interest_rate_config bank_info;
  program_fees ← read_group_program_fees group_info;
  rates ← calc_interest_rate_fp48 utilization cfg program_fees;
  calc_accrued_share_value_fp48 (fst rates) dt asv_fp48.

Definition current_lending_apr_bps_ceil (bank_info group_info : AccountInfo) : result Z :=
  asv_fp48 ← read_bank_asset_share_value_fp48 bank_info;
  lsv_fp48 ← read_bank_liability_share_value_fp48 bank_info;
  total_asset_shares ← read_bank_total_asset_shares_fp48 bank_info;
  total_liability_shares ← read_bank_total_liability_shares_fp48 bank_info;
  total_assets ← mul_scale total_asset_shares asv_fp48;
  total_liabilities ← mul_scale total_liability_shares lsv_fp48;
  if (total_assets =? 0) || (total_liabilities =? 0) then Ok 0 else
  utilization ← div_scale total_liabilities total_assets;
  cfg ← read_bank_interest_rate_config bank_info;
  program_fees ← read_group_program_fees group_info;
  rates ← calc_interest_rate_fp48 utilization cfg program_fees;
  bps_fp48 ← ok_or (checked_mul U128 (fst rates) 10000) MathOverflow;
  bps ← from_scaled_ceil bps_fp48;
  ok_or (try_from U16 bps) MathOverflow.

(** [get_projected_liability_atoms_ceil] of the adapter. *)
Definition get_projected_liability_atoms_ceil (bank_info group_info : AccountInfo)
    (shares_fp48 now_unix : Z) : result Z :=
  if shares_fp48 =? 0 then Ok 0 else
  new_lsv_fp48 ← calc_projected_liability_share_value_fp48 bank_info group_info now_unix;
  liability_shares_to_atoms_ceil_at_lsv shares_fp48 new_lsv_fp48.

(** ** Lemmas *)

Lemma mul_scale_Ok a b q :
  in_u U128 a → in_u U128 b → mul_scale a b = Ok q → q = a * b / SCALE ∧ in_u U128 q.
Proof.
  intros Ha Hb H. rewrite mul_scale_spec in H by done.
  destruct (Z.ltb_spec (a * b / SCALE) (2 ^ 128)); [|done]. injection H as <-.
  split; [done|]. split; [|done].
  apply Z.div_pos; [apply (mul_in_u256 a b Ha Hb)|done].
Qed.

Lemma div_scale_Ok a b q :
  in_u U128 a → in_u U128 b → div_scale a b = Ok q → q = a * SCALE / b ∧ 0 < b ∧ in_u U128 q.
Proof.
  intros Ha Hb H. rewrite div_scale_spec in H by done. destruct (Z.eqb_spec b 0); [done|].
  destruct (Z.ltb_spec (a * SCALE / b) (2 ^ 128)); [|done]. injection H as <-.
  assert (0 < b) by (unfold in_u in *; lia).
  split_and!; [done|done|split; [|done]]. apply Z.div_pos; [|done]. rewrite SCALE_eq. zlia.
Qed.

Lemma saturating_add_u128 a b :
  in_u U128 a → 0 <= b → a <= saturating_add U128 a b ∧ in_u U128 (saturating_add U128 a b).
Proof. intros. zlia. Qed.

Lemma panic_sub_Ok a b c : panic_sub a b = Ok c ↔ c = a - b ∧ b <= a.
Proof. unfold panic_sub. rewrite ok_or_Ok. apply checked_sub_Some. Qed.

(** The guards of [lerp_fp48] and its closed form. *)
Lemma lerp_fp48_inv x0 y0 x1 y1 x y :
  in_u U128 x0 → in_u U128 y0 → in_u U128 x1 → in_u U128 y1 →
  lerp_fp48 x0 y0 x1 y1 x = Ok y →
  x0 < x1 ∧ x0 <= x <= x1 ∧ y0 <= y1
  ∧ y = y0 + (y1 - y0) * ((x - x0) * SCALE / (x1 - x0)) / SCALE
  ∧ y0 <= y <= y1.
Proof.
  intros Hx0 Hy0 Hx1 Hy1 H. unfold lerp_fp48 in H.
  destruct (Z.leb_spec x1 x0); [done|]. destruct (_ || _) eqn:E; [done|].
  apply orb_false_iff in E as [E1%Z.ltb_ge E2%Z.ltb_ge].
  destruct (Z.ltb_spec y1 y0); [done|].
  apply bind_Ok in H as (dx & Hdx & H). apply panic_sub_Ok in Hdx as [-> _].
  apply bind_Ok in H as (dt & Hdt & H). apply panic_sub_Ok in Hdt as [-> _].
  apply bind_Ok in H as (p & Hp & H). apply div_scale_Ok in Hp as (-> & _ & Hp); [|zlia..].
  apply bind_Ok in H as (dy & Hdy & H). apply panic_sub_Ok in Hdy as [-> _].
  apply bind_Ok in H as (sd & Hsd & H). apply mul_scale_Ok in Hsd as [-> Hsd]; [|zlia|done].
  injection H as H. set (p := (x - x0) * SCALE / (x1 - x0)) in *.
  assert (0 <= p <= SCALE) as Hpb.
  { split; [apply Hp|]. apply Z.div_le_upper_bound; [lia|]. rewrite SCALE_eq. znia. }
  assert ((y1 - y0) * p / SCALE <= y1 - y0) as Hle.
  { apply Z.div_le_upper_bound; [done|]. nia. }
  split_and!; try lia; zlia.
Qed.

Lemma legacy_curve_inv ur cfg r :
  in_u U128 ur → in_u U128 (optimal_utilization_rate_fp48 cfg) →
  in_u U128 (plateau_interest_rate_fp48 cfg) → in_u U128 (max_interest_rate_fp48 cfg) →
  interest_rate_curve_legacy ur cfg = Ok r →
  in_u U128 r
  ∧ (ur <= optimal_utilization_rate_fp48 cfg → r <= plateau_interest_rate_fp48 cfg)
  ∧ (optimal_utilization_rate_fp48 cfg < ur → plateau_interest_rate_fp48 cfg <= r
     ∧ (ur <= SCALE → r <= Z.max (plateau_interest_rate_fp48 cfg) (max_interest_rate_fp48 cfg))).
Proof.
  intros Hur Ho Hp Hm H. unfold interest_rate_curve_legacy in H.
  set (o := optimal_utilization_rate_fp48 cfg) in *.
  set (pl := plateau_interest_rate_fp48 cfg) in *. set (mx := max_interest_rate_fp48 cfg) in *.
  destruct (Z.eqb_spec o 0); [done|]. destruct (Z.leb_spec ur o).
  - apply bind_Ok in H as (p & Hpp & H). apply div_scale_Ok in Hpp as (-> & Hpos & Hpp); [|done..].
    apply mul_scale_Ok in H as [-> Hr]; [|done..]. split_and!; [done| |lia]. intros _.
    assert (ur * SCALE / o <= SCALE) as Hle
      by (apply Z.div_le_upper_bound; [lia|]; rewrite SCALE_eq; znia).
    apply Z.div_le_upper_bound; [done|]. unfold in_u in *. nia.
  - apply bind_Ok in H as (nu & Hnu & H). apply panic_sub_Ok in Hnu as [-> _].
    destruct (Z.eqb_spec (saturating_sub SCALE o) 0) as [|Hd0]; [done|].
    assert (0 < SCALE - o) by (unfold saturating_sub in Hd0; lia).
    apply bind_Ok in H as (p & Hpp & H). unfold saturating_sub in Hpp.
    rewrite Z.max_r in Hpp by lia.
    apply div_scale_Ok in Hpp as (-> & Hpos & Hpp); [|zlia|rewrite SCALE_eq in *; zlia].
    apply bind_Ok in H as (sd & Hsd & H).
    apply mul_scale_Ok in Hsd as [-> Hsd]; [|done|zlia]. injection H as <-.
    pose proof (saturating_add_u128 pl _ Hp (proj1 Hsd)) as [Hge Hin].
    split_and!; [done|lia|]. intros _. split; [done|]. intros Hs.
    assert ((ur - o) * SCALE / (SCALE - o) <= SCALE) as Hle
      by (apply Z.div_le_upper_bound; [lia|]; rewrite SCALE_eq in *; znia).
    assert ((ur - o) * SCALE / (SCALE - o) * saturating_sub mx pl / SCALE
            <= saturating_sub mx pl) as Hle2
      by (apply Z.div_le_upper_bound; [done|]; unfold saturating_sub; nia).
    unfold saturating_add. rewrite Z.min_le_iff. right.
    unfold saturating_sub in *. lia.
Qed.

Lemma read_wrapped_range data off x : read_wrapped_i80f48_fp48 data off = Ok x → 0 <= x < 2 ^ 127.
Proof.
  unfold read_wrapped_i80f48_fp48. destruct (_ <? _)%nat; [done|]. intros H.
  apply bind_Ok in H as (buf & _ & H). destruct (Z.ltb_spec (as_i 128 (from_le_bytes buf)) 0); [done|].
  injection H as <-. split; [done|]. unfold as_i.
  pose proof (Z.mod_pos_bound (from_le_bytes buf + 2 ^ (128 - 1)) (2 ^ 128) ltac:(done)). zlia.
Qed.

Lemma owned_read_Ok {A} (reader : list Z → result A) info a :
  owned_read reader info = Ok a → reader (ai_data info) = Ok a.
Proof. unfold owned_read. intros H. by apply bind_Ok in H as (_ & _ & H). Qed.

(** The plateau rate and the fees that marginfi adds to it are not negative. *)
Definition rates_nonneg (cfg : InterestRateConfigDecoded) (fees : GroupProgramFees) : Prop :=
  0 <= plateau_interest_rate_fp48 cfg
  ∧ 0 <= insurance_ir_fee_fp48 cfg ∧ 0 <= protocol_ir_fee_fp48 cfg
  ∧ 0 <= insurance_fee_fixed_apr_fp48 cfg ∧ 0 <= protocol_fixed_fee_apr_fp48 cfg
  ∧ 0 <= program_fee_rate_fp48 fees ∧ 0 <= program_fee_fixed_fp48 fees.

#[export] Instance rates_nonneg_dec cfg fees : Decision (rates_nonneg cfg fees).
Proof. unfold rates_nonneg. apply _. Defined.

Lemma config_rates_nonneg bank group cfg fees :
  read_bank_interest_rate_config bank = Ok cfg → read_group_program_fees group = Ok fees →
  rates_nonneg cfg fees.
Proof.
  intros Hc Hg. apply owned_read_Ok in Hc. apply owned_read_Ok in Hg.
  repeat (apply bind_Ok in Hc as (? & ? & Hc)). injection Hc as <-.
  repeat (apply bind_Ok in Hg as (? & ? & Hg)). injection Hg as <-.
  unfold rates_nonneg. simpl. split_and!; by eapply read_wrapped_range.
Qed.

Lemma saturating_add_nonneg a b : 0 <= a → 0 <= b → 0 <= saturating_add U128 a b.
Proof. intros. zlia. Qed.

(** Both rates are [u128] values. *)
Lemma calc_interest_rate_range u cfg fees l b :
  rates_nonneg cfg fees → calc_interest_rate_fp48 u cfg fees = Ok (l, b) →
  in_u U128 l ∧ in_u U128 b.
Proof.
  intros (F0 & F1 & F2 & F3 & F4 & F5 & F6) H. unfold calc_interest_rate_fp48 in H.
  destruct (fees_enabled fees); cbv zeta iota beta in H;
    apply bind_Ok in H as (base & _ & H); apply bind_Ok in H as (lend & Hl & H);
    apply bind_Ok in H as (bb & Hb & H); injection H as <- <-;
    apply mul_scale_range in Hl; apply mul_scale_range in Hb; (split; [done|]);
    apply saturating_add_u128; [done|repeat apply saturating_add_nonneg; done
                               |done|repeat apply saturating_add_nonneg; done].
Qed.

Lemma calc_accrued_mono apr dt s v :
  in_u U128 s → calc_accrued_share_value_fp48 apr dt s = Ok v → s <= v ∧ in_u U128 v.
Proof.
  intros Hs H. unfold calc_accrued_share_value_fp48 in H. destruct (_ || _).
  { injection H as <-. done. }
  apply bind_Ok in H as (p & _ & H). apply bind_Ok in H as (a & Ha & H). injection H as <-.
  apply mul_scale_range in Ha. apply saturating_add_u128; [done|apply Ha].
Qed.

Lemma saturating_add_range a b : 0 <= a → 0 <= b → in_u U128 (saturating_add U128 a b).
Proof. intros. zlia. Qed.

Lemma legacy_curve_range u cfg r :
  0 <= plateau_interest_rate_fp48 cfg →
  interest_rate_curve_legacy u cfg = Ok r → in_u U128 r.
Proof.
  intros Hp H. unfold interest_rate_curve_legacy in H. destruct (_ =? 0); [done|].
  destruct (_ <=? _).
  - apply bind_Ok in H as (p & _ & H). by apply mul_scale_range in H.
  - apply bind_Ok in H as (nu & _ & H). destruct (_ =? 0); [done|].
    apply bind_Ok in H as (p & _ & H). apply bind_Ok in H as (sc & Hsc & H). injection H as <-.
    apply mul_scale_range in Hsc. apply saturating_add_range; [done|apply Hsc].
Qed.

Lemma lerp_fp48_range x0 y0 x1 y1 x y :
  0 <= y0 → lerp_fp48 x0 y0 x1 y1 x = Ok y → in_u U128 y.
Proof.
  intros Hy0 H. unfold lerp_fp48 in H. destruct (x1 <=? x0); [done|].
  destruct (_ || _); [done|]. destruct (y1 <? y0); [done|].
  do 4 (apply bind_Ok in H as (? & _ & H)). apply bind_Ok in H as (sc & Hsc & H).
  injection H as <-. apply mul_scale_range in Hsc. apply saturating_add_range; [done|apply Hsc].
Qed.

Lemma seven_point_loop_range points pu pr hr ur y :
  0 <= pr → seven_point_loop points pu pr hr ur = Ok y → in_u U128 y.
Proof.
  revert pu pr. induction points as [|[pt rt] rest IH]; intros pu pr Hpr H; simpl in H.
  - by eapply lerp_fp48_range.
  - destruct (pt =? 0); [by eapply IH|].
    apply bind_Ok in H as (a & _ & H). apply bind_Ok in H as (b & Hb & H).
    apply bind_Ok in H as ([] & _ & H). destruct (ur <=? a); [by eapply lerp_fp48_range|].
    eapply IH; [|done]. by apply mul_div_range in Hb as [? _].
Qed.

Lemma seven_point_range u cfg r : interest_rate_curve_seven_point u cfg = Ok r → in_u U128 r.
Proof.
  intros H. apply bind_Ok in H as (z & Hz & H). apply bind_Ok in H as (h & _ & H).
  apply mul_div_range in Hz as [? _]. by eapply seven_point_loop_range.
Qed.

(** One projection, for either side of the bank. *)
Lemma projected_liability_mono bank group now v :
  calc_projected_liability_share_value_fp48 bank group now = Ok v →
  ∃ lsv last, read_bank_liability_share_value_fp48 bank = Ok lsv
    ∧ read_bank_last_update bank = Ok last ∧ lsv <= v < 2 ^ 128 ∧ (now <= last → v = lsv).
Proof.
  unfold calc_projected_liability_share_value_fp48, elapsed_since. intros H.
  apply bind_Ok in H as (last & -> & H). apply bind_Ok in H as (dt & Hdt & H).
  apply bind_Ok in Hdt as (d & Hd & Hdt). injection Hdt as <-.
  apply ok_or_Ok, checked_sub_i_Some in Hd as [-> _].
  apply bind_Ok in H as (lsv & Hl & H). rewrite Hl. exists lsv, last. do 2 (split; [done|]).
  apply owned_read_Ok, read_wrapped_range in Hl. assert (in_u U128 lsv) as Hr by zlia.
  destruct (Z.eqb_spec (Z.max (now - last) 0) 0); [injection H as <-; zlia|].
  split; [|lia]. do 5 (apply bind_Ok in H as (? & _ & H)).
  destruct (_ || _); [injection H as <-; zlia|].
  do 4 (apply bind_Ok in H as (? & _ & H)). apply calc_accrued_mono in H as [? [_ ?]]; done.
Qed.

Lemma projected_asset_mono bank group now v :
  calc_projected_asset_share_value_fp48 bank group now = Ok v →
  ∃ asv last, read_bank_asset_share_value_fp48 bank = Ok asv
    ∧ read_bank_last_update bank = Ok last ∧ asv <= v < 2 ^ 128 ∧ (now <= last → v = asv).
Proof.
  unfold calc_projected_asset_share_value_fp48, elapsed_since. intros H.
  apply bind_Ok in H as (last & -> & H). apply bind_Ok in H as (dt & Hdt & H).
  apply bind_Ok in Hdt as (d & Hd & Hdt). injection Hdt as <-.
  apply ok_or_Ok, checked_sub_i_Some in Hd as [-> _].
  apply bind_Ok in H as (asv & Hl & H). rewrite Hl. exists asv, last. do 2 (split; [done|]).
  apply owned_read_Ok, read_wrapped_range in Hl. assert (in_u U128 asv) as Hr by zlia.
  destruct (Z.eqb_spec (Z.max (now - last) 0) 0); [injection H as <-; zlia|].
  split; [|lia]. do 5 (apply bind_Ok in H as (? & _ & H)).
  destruct (_ || _); [injection H as <-; zlia|].
  do 4 (apply bind_Ok in H as (? & _ & H)). apply calc_accrued_mono in H as [? [_ ?]]; done.
Qed.

(** ** Sample bank and group *)

(** Half of the assets borrowed; legacy curve with optimal 80%, plateau 10%, max
    100%; a 5% insurance fee on the rate. *)
Definition sample_rate_bank (now : Z) : AccountInfo :=
  let b := sample_bank 5 (SCALE + 1000) (SCALE + 5000) in
  let irc := (ANCHOR_HEADER_LEN + BANK_BODY_CONFIG_START + BC_INTEREST_RATE_CONFIG)%nat in
  let w data off x := put data off (le_bytes 16 x) in
  let data := w (ai_data b) (ANCHOR_HEADER_LEN + BANK_BODY_TOTAL_LIABILITY_SHARES)%nat
                (500000 * SCALE) in
  let data := w data (ANCHOR_HEADER_LEN + BANK_BODY_TOTAL_ASSET_SHARES)%nat (1000000 * SCALE) in
  let data := put data (ANCHOR_HEADER_LEN + BANK_BODY_LAST_UPDATE)%nat (le_bytes 8 now) in
  let data := w data irc (SCALE * 8 / 10) in
  let data := w data (irc + 16)%nat (SCALE / 10) in
  let data := w data (irc + 32)%nat SCALE in
  let data := w data (irc + 64)%nat (SCALE / 20) in
  mkAccountInfo 5 MARGINFI_ID data.

Definition sample_group : AccountInfo := mkAccountInfo 6 MARGINFI_ID (replicate 1064 0).

(** ** Properties *)

(** Projecting a share value never lowers it.  Whatever bytes the bank and
    the group hold, a projection that succeeds starts from the stored share
    value, stays in [u128], never falls below it, and equals it when no time has
    passed: for the liability value a borrower owes and for the asset value a
    lender holds. *)
Theorem projected_share_values_never_fall (bank group : AccountInfo) (now v w : Z)
    (Hl : calc_projected_liability_share_value_fp48 bank group now = Ok v)
    (Ha : calc_projected_asset_share_value_fp48 bank group now = Ok w) :
  ∃ lsv asv last, read_bank_liability_share_value_fp48 bank = Ok lsv
    ∧ read_bank_asset_share_value_fp48 bank = Ok asv
    ∧ read_bank_last_update bank = Ok last
    ∧ lsv <= v < 2 ^ 128 ∧ asv <= w < 2 ^ 128
    ∧ (now <= last → v = lsv ∧ w = asv).
Proof.
  apply projected_liability_mono in Hl as (lsv & last & -> & Hlast & Hlv & Hld).
  apply projected_asset_mono in Ha as (asv & last' & -> & Hlast' & Hav & Had).
  rewrite Hlast in Hlast'. injection Hlast' as <-.
  exists lsv, asv, last. split_and!; try done; try apply Hlv; try apply Hav. auto.
Qed.

Lemma projected_share_values_never_fall_witness :
  ∃ v w, calc_projected_liability_share_value_fp48 (sample_rate_bank 1000) sample_group 31558600
           = Ok v
    ∧ calc_projected_asset_share_value_fp48 (sample_rate_bank 1000) sample_group 31558600 = Ok w
    ∧ SCALE + 5000 <= v.
Proof.
  do 2 eexists. split; [vm_compute; reflexivity|]. split; [vm_compute; reflexivity|].
  edestruct (projected_share_values_never_fall (sample_rate_bank 1000) sample_group 31558600)
    as (lsv & asv & last & Hlsv & _ & _ & Hle & _);
    [vm_compute; reflexivity|vm_compute; reflexivity|].
  vm_compute in Hlsv. injection Hlsv as <-. apply Hle.
Defined.

(** Interpolation stays inside its segment.  When [lerp_fp48] succeeds the
    segment is not degenerate, the target lies on it, and the rate lies between
    the two end rates, with the start rate at the start and, for a target
    further along, no smaller rate. *)
Theorem lerp_fp48_inside (x0 y0 x1 y1 x y : Z)
    (Hr : in_u U128 x0 ∧ in_u U128 y0 ∧ in_u U128 x1 ∧ in_u U128 y1)
    (H : lerp_fp48 x0 y0 x1 y1 x = Ok y) :
  x0 < x1 ∧ x0 <= x <= x1 ∧ y0 <= y <= y1 ∧ (x = x0 → y = y0) ∧ (x = x1 → y = y1)
  ∧ (∀ x' y', x <= x' → lerp_fp48 x0 y0 x1 y1 x' = Ok y' → y <= y').
Proof.
  destruct Hr as (Hx0 & Hy0 & Hx1 & Hy1).
  pose proof (lerp_fp48_inv _ _ _ _ _ _ Hx0 Hy0 Hx1 Hy1 H) as (Hlt & Hx & Hy & Heq & Hb).
  split_and!; try lia.
  - intros ->. rewrite Heq, Z.sub_diag, Z.mul_0_l, Z.div_0_l, Z.mul_0_r by lia.
    change (0 / SCALE) with 0. lia.
  - intros ->. rewrite Heq, (Z.mul_comm (x1 - x0)), !Z.div_mul by (done || lia). lia.
  - intros x' y' Hle H'.
    pose proof (lerp_fp48_inv _ _ _ _ _ _ Hx0 Hy0 Hx1 Hy1 H') as (_ & Hx' & _ & Heq' & _).
    rewrite Heq, Heq'. apply Z.add_le_mono_l, Z.div_le_mono; [done|].
    apply Z.mul_le_mono_nonneg_l; [lia|]. apply Z.div_le_mono; [lia|].
    apply Z.mul_le_mono_nonneg_r; [done|lia].
Qed.

Lemma lerp_fp48_inside_witness :
  lerp_fp48 0 100 SCALE 900 (SCALE / 4) = Ok 300 ∧ 100 <= 300 <= 900.
Proof.
  split; [vm_compute; reflexivity|].
  refine (proj1 (proj2 (proj2 (lerp_fp48_inside 0 100 SCALE 900 (SCALE / 4) 300 _ _))));
    [split_and!; vm_compute; split; congruence|vm_compute; reflexivity].
Defined.

(** C37: borrowers pay what lenders earn.  Whichever curve the bank uses and at whatever
    utilisation [u] (liabilities over assets, not capped here), the lending rate is the
    floor of the base rate times [u] and the borrowing rate is at least the base rate, so
    what borrowers pay on [u] covers what lenders earn on the whole; up to a utilisation of
    100% the lending rate is at most the base rate, and so at most the borrowing rate.
    (Above 100%, which the program does not rule out, it may exceed the borrowing rate.) *)
Theorem borrow_rate_covers_lending_rate (u l b : Z) (cfg : InterestRateConfigDecoded)
    (fees : GroupProgramFees) (Hu : in_u U128 u) (Hf : rates_nonneg cfg fees)
    (H : calc_interest_rate_fp48 u cfg fees = Ok (l, b)) :
  ∃ base,
    (if irc_curve_type cfg =? INTEREST_CURVE_LEGACY then interest_rate_curve_legacy u cfg
     else interest_rate_curve_seven_point u cfg) = Ok base
    ∧ l = base * u / SCALE ∧ 0 <= base <= b
    ∧ l * SCALE <= b * u
    ∧ (u <= SCALE → l <= base).
Proof.
  destruct Hf as (F0 & F1 & F2 & F3 & F4 & F5 & F6). unfold calc_interest_rate_fp48 in H.
  set (fee_ir := if fees_enabled fees then program_fee_rate_fp48 fees else 0).
  assert (0 <= fee_ir) by (subst fee_ir; destruct (fees_enabled fees); done).
  assert (∃ rate fixed base lend bb, 0 <= rate ∧ 0 <= fixed
    ∧ (if irc_curve_type cfg =? INTEREST_CURVE_LEGACY then interest_rate_curve_legacy u cfg
       else interest_rate_curve_seven_point u cfg) = Ok base
    ∧ mul_scale base u = Ok lend
    ∧ mul_scale base (saturating_add U128 SCALE rate) = Ok bb
    ∧ l = lend ∧ b = saturating_add U128 bb fixed)
    as (rate & fixed & base & lend & bb & Hrate & Hfixed & Hbase & Hl & Hb & -> & ->).
  { destruct (fees_enabled fees); cbv zeta iota beta in H;
      apply bind_Ok in H as (base & Hbase & H); apply bind_Ok in H as (lend & Hl & H);
      apply bind_Ok in H as (bb & Hb & H); injection H as <- <-;
      do 2 eexists; exists base, lend, bb;
      (split_and!; [| | |exact Hl|exact Hb|reflexivity..];
       [repeat apply saturating_add_nonneg; done|repeat apply saturating_add_nonneg; done|]);
      destruct (irc_curve_type cfg =? INTEREST_CURVE_LEGACY); [done| |done|];
      destruct (irc_curve_type cfg =? INTEREST_CURVE_SEVEN_POINT); done. }
  exists base. split; [done|].
  assert (in_u U128 base) as Hbr.
  { destruct (irc_curve_type cfg =? INTEREST_CURVE_LEGACY);
      [by eapply legacy_curve_range|by eapply seven_point_range]. }
  apply mul_scale_Ok in Hl as [-> Hlr]; [|done|done].
  pose proof (saturating_add_u128 SCALE rate ltac:(done) Hrate) as [Hge Hin].
  apply mul_scale_Ok in Hb as [-> Hbb]; [|done|done].
  assert (base <= saturating_add U128 (base * saturating_add U128 SCALE rate / SCALE) fixed) as Hle.
  { apply Z.le_trans with (base * saturating_add U128 SCALE rate / SCALE).
    - apply Z.div_le_lower_bound; [done|]. unfold in_u in Hbr. nia.
    - by apply saturating_add_u128. }
  pose proof (Z.mul_div_le (base * u) SCALE ltac:(done)) as Hdiv. unfold in_u in Hbr, Hu.
  split_and!; [done|lia|done| |].
  - rewrite (Z.mul_comm (_ / _)). nia.
  - intros Hfull. apply Z.div_le_upper_bound; [done|]. nia.
Qed.

(** Half utilised, legacy curve: 6.25% base, 3.125% lending, 6.56% borrowing. *)
Definition sample_config : InterestRateConfigDecoded :=
  mkInterestRateConfig (SCALE * 8 / 10) (SCALE / 10) SCALE 0 (SCALE / 20) 0 0 0 0 [] 0.

Lemma borrow_rate_covers_lending_rate_witness :
  match calc_interest_rate_fp48 (SCALE / 2) sample_config (mkGroupProgramFees false 0 0) with
  | Ok (l, b) => l * SCALE <= b * (SCALE / 2) ∧ 0 < l <= b
  | Err _ => False
  end
  ∧ match calc_interest_rate_fp48 (2 * SCALE) sample_config (mkGroupProgramFees false 0 0) with
    | Ok (l, b) => l * SCALE <= b * (2 * SCALE) ∧ b < l
    | Err _ => False
    end.
Proof.
  split.
  - destruct (calc_interest_rate_fp48 _ _ _) as [[l b]|e] eqn:E; [|vm_compute in E; discriminate E].
    destruct (borrow_rate_covers_lending_rate (SCALE / 2) l b sample_config
      (mkGroupProgramFees false 0 0)) as (base & _ & _ & Hb & Hc & Hl);
      [vm_compute; split; congruence|apply (bool_decide_unpack _); vm_compute; exact I|exact E|].
    vm_compute in E. injection E as <- <-. split; [exact Hc|vm_compute; split; congruence].
  - destruct (calc_interest_rate_fp48 _ _ _) as [[l b]|e] eqn:E; [|vm_compute in E; discriminate E].
    destruct (borrow_rate_covers_lending_rate (2 * SCALE) l b sample_config
      (mkGroupProgramFees false 0 0)) as (base & _ & _ & _ & Hc & _);
      [vm_compute; split; congruence|apply (bool_decide_unpack _); vm_compute; exact I|exact E|].
    vm_compute in E. injection E as <- <-. split; [exact Hc|vm_compute; reflexivity].
Defined.

(** The supply-rate floor is the exact ceiling of marginfi's lending rate.
    [current_lending_apr_bps_ceil] returns zero on a bank without assets or
    liabilities, and otherwise the least number of basis points that is not
    below the lending rate at the bank's current utilisation; it fits [u16]. *)
Theorem lending_floor_is_ceiling (bank group : AccountInfo) (bps : Z)
    (H : current_lending_apr_bps_ceil bank group = Ok bps) :
  0 <= bps < 2 ^ 16 ∧
  (bps = 0 ∨ ∃ u cfg fees l b,
    read_bank_interest_rate_config bank = Ok cfg ∧ read_group_program_fees group = Ok fees
    ∧ calc_interest_rate_fp48 u cfg fees = Ok (l, b)
    ∧ 10000 * l <= bps * SCALE < 10000 * l + SCALE).
Proof.
  unfold current_lending_apr_bps_ceil in H. do 6 (apply bind_Ok in H as (? & _ & H)).
  destruct (_ || _); [injection H as <-; split; [lia|by left]|].
  apply bind_Ok in H as (u & _ & H). apply bind_Ok in H as (cfg & Hcfg & H).
  apply bind_Ok in H as (fees & Hfees & H). apply bind_Ok in H as ([l b] & Hr & H).
  pose proof (calc_interest_rate_range u cfg fees l b
    (config_rates_nonneg _ _ _ _ Hcfg Hfees) Hr) as [Hl _].
  cbn [fst] in H. apply bind_Ok in H as (bf & Hbf & H). apply ok_or_Ok, checked_mul_Some in Hbf as [-> Hbf].
  rewrite from_scaled_ceil_spec in H by (unfold in_u in *; lia). cbn [mbind result_bind] in H.
  apply ok_or_Ok, try_from_Some in H as [-> Hb].
  pose proof (ceil_div_bounds (l * 10000) SCALE ltac:(done)) as Hcd.
  assert (0 <= ceil_div (l * 10000) SCALE).
  { unfold ceil_div. pose proof (Z.div_pos (l * 10000) SCALE ltac:(unfold in_u in *; lia) ltac:(done)).
    destruct (_ =? 0); lia. }
  split; [lia|]. right. exists u, cfg, fees, l, b. split_and!; try done; lia.
Qed.

Lemma lending_floor_is_ceiling_witness :
  current_lending_apr_bps_ceil (sample_rate_bank 1000) sample_group = Ok 313 ∧ 0 <= 313 < 2 ^ 16.
Proof.
  split; [vm_compute; reflexivity|].
  refine (proj1 (lending_floor_is_ceiling (sample_rate_bank 1000) sample_group 313 _)).
  vm_compute. reflexivity.
Defined.
