(* ===== verification/Oracles.v ===== *)
(** * Oracle decoding ([programs/ydelta/src/protocol/oracles.rs])

    The Pyth push and Switchboard pull decoders on raw account bytes, the
    staked-LST composite, the confidence gate and the freshness window.  The
    clock and the borsh decoding of a stake account (a Solana library) are
    parameters of [read_oracle_price]. *)
From stdpp Require Import base numbers list option.
From S2P Require Import Prelude FixedPoint Marginfi.
Local Open Scope Z_scope.

Definition PYTH_PUSH_PROGRAM_ID : Pubkey :=
  0xcb7fabb52f7a648bb5b317d9a018b9057cb024774fafe01e6c4df98cc385881.
Definition SWITCHBOARD_ON_DEMAND_PROGRAM_ID : Pubkey :=
  0x673bd46f2e47e04f12bd92fb731968ecd9d9757c274da87476f465c040c6573.
Definition STAKE_PROGRAM_ID : Pubkey :=
  0x6a1d8179137542a983437bdfe2a7ab2557f535c8a78722b68a49dc000000000.

Definition DEFAULT_ORACLE_MAX_AGE_SECS : Z := 300.
Definition MAX_FUTURE_SKEW_SECS : Z := 900.

(** ** Oracle setups *)

Inductive OracleSetup :=
  | Setup_None | Setup_PythLegacy | Setup_SwitchboardV2 | Setup_PythPushOracle
  | Setup_SwitchboardPull | Setup_StakedWithPythPush | Setup_KaminoPythPush
  | Setup_KaminoSwitchboardPull | Setup_Fixed | Setup_DriftPythPull
  | Setup_DriftSwitchboardPull | Setup_SolendPythPull | Setup_SolendSwitchboardPull
  | Setup_FixedKamino | Setup_FixedDrift | Setup_JuplendPythPull
  | Setup_JuplendSwitchboardPull | Setup_FixedJuplend.

#[export] Instance OracleSetup_eq_dec : EqDecision OracleSetup.
Proof. solve_decision. Defined.

(** [OracleSetup::from_u8], the discriminants in declaration order. *)
Definition oracle_setups : list OracleSetup :=
  [Setup_None; Setup_PythLegacy; Setup_SwitchboardV2; Setup_PythPushOracle;
   Setup_SwitchboardPull; Setup_StakedWithPythPush; Setup_KaminoPythPush;
   Setup_KaminoSwitchboardPull; Setup_Fixed; Setup_DriftPythPull;
   Setup_DriftSwitchboardPull; Setup_SolendPythPull; Setup_SolendSwitchboardPull;
   Setup_FixedKamino; Setup_FixedDrift; Setup_JuplendPythPull;
   Setup_JuplendSwitchboardPull; Setup_FixedJuplend].

Definition OracleSetup_from_u8 (v : Z) : option OracleSetup := oracle_setups !! Z.to_nat v.

Definition expected_oracle_account_count (setup : OracleSetup) : option nat :=
  match setup with
  | Setup_PythPushOracle | Setup_SwitchboardPull => Some 1%nat
  | Setup_StakedWithPythPush => Some 3%nat
  | _ => None
  end.

Definition oracle_timestamp_acceptable (age effective_max_age : Z) : bool :=
  (- MAX_FUTURE_SKEW_SECS <=? age) && (age <? effective_max_age).

(** ** Price scaling *)

(** [pow10_u128]: the loop multiplies by ten under [checked_mul]. *)
Fixpoint pow10_loop (n : nat) (acc : Z) : result Z :=
  match n with
  | O => Ok acc
  | S n => acc' ← ok_or (checked_mul U128 acc 10) ArithmeticOverflow; pow10_loop n acc'
  end.

Definition pow10_u128 (exp : Z) : result Z := pow10_loop (Z.to_nat exp) 1.

Definition scale_to_fp48 (value exponent : Z) : result Z :=
  if 0 <=? exponent then
    factor ← pow10_u128 exponent;
    scaled_value ← mul_div value factor 1 false;
    to_scaled scaled_value
  else
    denom ← pow10_u128 (- exponent);
    scaled ← mul_div value (Z.shiftl 1 48) denom false;
    if scaled =? 0 then Err OracleNonPositive else Ok scaled.

Definition CONF_INTERVAL_MULTIPLE_BPS : Z := 21200.
Definition STD_DEV_MULTIPLE_BPS : Z := 19600.
Definition BPS_DIVISOR : Z := 10000.
Definition DEFAULT_MAX_CONF_PCT_BPS : Z := 1000.

Definition check_confidence_interval
    (price_fp48 conf_fp48 multiplier_bps oracle_max_confidence_u32 : Z) : result unit :=
  if conf_fp48 =? 0 then Ok tt else
  inflated_conf ← mul_div conf_fp48 multiplier_bps BPS_DIVISOR false;
  max_conf_fp48 ←
    (if 0 <? oracle_max_confidence_u32
     then mul_div price_fp48 oracle_max_confidence_u32 (umax U32) false
     else mul_div price_fp48 DEFAULT_MAX_CONF_PCT_BPS BPS_DIVISOR false);
  if max_conf_fp48 <? inflated_conf then Err OracleMaxConfidenceExceeded else Ok tt.

(** ** The decoders *)

Definition PYTH_DISC_LEN : nat := 8.
Definition PYTH_VERIFICATION_LEVEL_OFFSET : nat := PYTH_DISC_LEN + 32.
Definition PYTH_MIN_EXPONENT : Z := -12.
Definition PYTH_MAX_EXPONENT : Z := 2.
Definition PYTH_VERIFY_TAG_FULL : Z := 1.

Definition decode_pyth_push (data : list Z) (oracle_max_confidence_u32 : Z) : result (Z * Z) :=
  if (length data <? PYTH_VERIFICATION_LEVEL_OFFSET + 1)%nat
  then Err InvalidIntegrationAccount else
  verify_tag ← byte_at data PYTH_VERIFICATION_LEVEL_OFFSET;
  if negb (verify_tag =? PYTH_VERIFY_TAG_FULL) then Err OracleSetupUnsupported else
  let price_offset := (PYTH_DISC_LEN + 33 + 32)%nat in
  let conf_offset := (price_offset + 8)%nat in
  let exponent_offset := (conf_offset + 8)%nat in
  let publish_time_offset := (exponent_offset + 4)%nat in
  if (length data <? publish_time_offset + 8)%nat then Err InvalidIntegrationAccount else
  price_bytes ← slice data price_offset 8;
  let price := as_i 64 (from_le_bytes price_bytes) in
  conf_bytes ← slice data conf_offset 8;
  let conf := from_le_bytes conf_bytes in
  exponent_bytes ← slice data exponent_offset 4;
  let exponent := as_i 32 (from_le_bytes exponent_bytes) in
  publish_bytes ← slice data publish_time_offset 8;
  let publish_time := as_i 64 (from_le_bytes publish_bytes) in
  if price <=? 0 then Err OracleNonPositive else
  if conf =? 0 then Err OracleMaxConfidenceExceeded else
  if negb ((PYTH_MIN_EXPONENT <=? exponent) && (exponent <=? PYTH_MAX_EXPONENT))
  then Err OracleSetupUnsupported else
  price_fp48 ← scale_to_fp48 price exponent;
  conf_fp48 ← scale_to_fp48 conf exponent;
  _ ← check_confidence_interval price_fp48 conf_fp48 CONF_INTERVAL_MULTIPLE_BPS
        oracle_max_confidence_u32;
  mret (price_fp48, publish_time).

Definition SWB_DISC_LEN : nat := 8.
Definition SWB_LAST_UPDATE_TS_OFFSET : nat := SWB_DISC_LEN + 2208.
Definition SWB_RESULT_VALUE_OFFSET : nat := SWB_DISC_LEN + 2256.
Definition SWB_RESULT_STD_DEV_OFFSET : nat := SWB_DISC_LEN + 2272.
Definition SWB_PRECISION : Z := 18.
Definition SWB_MIN_SAMPLE_SIZE_OFFSET : nat := SWB_DISC_LEN + 2207.
Definition SWB_RESULT_NUM_SAMPLES_OFFSET : nat := SWB_DISC_LEN + 2352.

Definition decode_switchboard_pull (data : list Z) (oracle_max_confidence_u32 : Z)
    : result (Z * Z) :=
  if (length data <? SWB_RESULT_NUM_SAMPLES_OFFSET + 1)%nat
  then Err InvalidIntegrationAccount else
  min_sample_size ← byte_at data SWB_MIN_SAMPLE_SIZE_OFFSET;
  num_samples ← byte_at data SWB_RESULT_NUM_SAMPLES_OFFSET;
  _ ← require ((min_sample_size <=? num_samples) && (0 <? num_samples)) OracleSetupUnsupported;
  ts_bytes ← slice data SWB_LAST_UPDATE_TS_OFFSET 8;
  let last_update_ts := as_i 64 (from_le_bytes ts_bytes) in
  value_bytes ← slice data SWB_RESULT_VALUE_OFFSET 16;
  let result_value := as_i 128 (from_le_bytes value_bytes) in
  dev_bytes ← slice data SWB_RESULT_STD_DEV_OFFSET 16;
  let std_dev := as_i 128 (from_le_bytes dev_bytes) in
  if result_value <=? 0 then Err OracleNonPositive else
  denom ← pow10_u128 SWB_PRECISION;
  price_fp48 ← mul_div result_value (Z.shiftl 1 48) denom false;
  std_dev_fp48 ← (if 0 <? std_dev then mul_div std_dev (Z.shiftl 1 48) denom false else Ok 0);
  _ ← check_confidence_interval price_fp48 std_dev_fp48 STD_DEV_MULTIPLE_BPS
        oracle_max_confidence_u32;
  mret (price_fp48, last_update_ts).

(** ** Reading a price *)

Definition SPL_MINT_SUPPLY_OFFSET : nat := 36.
Definition SPL_MINT_DECIMALS_OFFSET : nat := 44.
Definition SOL_DECIMALS : Z := 9.
Definition LAMPORTS_PER_SOL : Z := 1000000000.

Definition read_spl_mint_supply_and_decimals (mint : AccountInfo) : result (Z * Z) :=
  let data := ai_data mint in
  if (length data <? SPL_MINT_DECIMALS_OFFSET + 1)%nat then Err InvalidIntegrationAccount else
  supply_bytes ← slice data SPL_MINT_SUPPLY_OFFSET 8;
  decimals ← byte_at data SPL_MINT_DECIMALS_OFFSET;
  mret (from_le_bytes supply_bytes, decimals).

(** The variants of Solana's [StakeStateV2] the program tells apart. *)
Inductive StakeState := Stake (delegation_stake : Z) | OtherStakeState.

Section ReadPrice.
  (** The borsh decoding of a stake account, and the clock. *)
  Variable parse_stake_state : list Z → option StakeState.
  Variable now : Z.

Definition read_stake_state_v2_delegated_lamports (stake : AccountInfo) : result Z :=
  state ← ok_or (parse_stake_state (ai_data stake)) InvalidIntegrationAccount;
  match state with
  | Stake delegation_stake => Ok delegation_stake
  | OtherStakeState => Err OracleSetupUnsupported
  end.

(** The [StakedWithPythPush] arm: the SOL price scaled by the pool's backing. *)
Definition staked_price (cfg : list Z) (oracle_accounts : list AccountInfo)
    (oracle_data : list Z) (max_confidence : Z) : result (Z * Z) :=
  lst_mint ← account_at oracle_accounts 1;
  stake_state ← account_at oracle_accounts 2;
  key1 ← cfg_oracle_key cfg 1;
  _ ← require (ai_key lst_mint =? key1) IncorrectAccount;
  key2 ← cfg_oracle_key cfg 2;
  _ ← require (ai_key stake_state =? key2) IncorrectAccount;
  _ ← require ((ai_owner lst_mint =? SPL_TOKEN_ID) || (ai_owner lst_mint =? SPL_TOKEN_2022_ID))
        IncorrectAccount;
  _ ← require (ai_owner stake_state =? STAKE_PROGRAM_ID) IncorrectAccount;
  mint ← read_spl_mint_supply_and_decimals lst_mint;
  let '(lst_supply, lst_decimals) := mint in
  _ ← require (0 <? lst_supply) OracleSetupUnsupported;
  _ ← require (lst_decimals =? SOL_DECIMALS) OracleSetupUnsupported;
  sol_pool_balance ← read_stake_state_v2_delegated_lamports stake_state;
  sol_pool_adjusted ← ok_or (checked_sub sol_pool_balance LAMPORTS_PER_SOL) OracleSetupUnsupported;
  _ ← require (0 <? sol_pool_adjusted) OracleSetupUnsupported;
  pyth ← decode_pyth_push oracle_data max_confidence;
  let '(raw_pyth_fp48, ts) := pyth in
  adjusted_fp48 ← mul_div raw_pyth_fp48 sol_pool_adjusted lst_supply false;
  _ ← require (0 <? adjusted_fp48) OracleNonPositive;
  mret (adjusted_fp48, ts).

Definition expected_owner (setup : OracleSetup) : result Pubkey :=
  match setup with
  | Setup_PythPushOracle | Setup_StakedWithPythPush => Ok PYTH_PUSH_PROGRAM_ID
  | Setup_SwitchboardPull => Ok SWITCHBOARD_ON_DEMAND_PROGRAM_ID
  | _ => Err OracleSetupUnsupported
  end.

Definition read_oracle_price (accounts : list AccountInfo) : result Z :=
  match accounts with
  | [] => Err InvalidIntegrationAccount
  | bank_ai :: oracle_accounts =>
    if negb (ai_owner bank_ai =? MARGINFI_ID) then Err InvalidIntegrationAccount else
    cfg ← map_err (config_try_from_account_data (ai_data bank_ai)) InvalidIntegrationAccount;
    setup_raw ← cfg_oracle_setup_raw cfg;
    setup ← ok_or (OracleSetup_from_u8 setup_raw) OracleSetupUnsupported;
    expected ← ok_or (expected_oracle_account_count setup) OracleSetupUnsupported;
    if negb (length oracle_accounts =? expected)%nat then Err OracleSetupUnsupported else
    primary ← account_at oracle_accounts 0;
    primary_key ← cfg_oracle_key cfg 0;
    if negb (ai_key primary =? primary_key) then Err OracleAccountMismatch else
    owner ← expected_owner setup;
    if negb (ai_owner primary =? owner) then Err OracleAccountMismatch else
    max_age ← cfg_oracle_max_age cfg;
    max_confidence ← cfg_oracle_max_confidence cfg;
    price ←
      match setup with
      | Setup_PythPushOracle => decode_pyth_push (ai_data primary) max_confidence
      | Setup_SwitchboardPull => decode_switchboard_pull (ai_data primary) max_confidence
      | Setup_StakedWithPythPush =>
          staked_price cfg oracle_accounts (ai_data primary) max_confidence
      | _ => Err OracleSetupUnsupported
      end;
    let '(price_fp48, publish_time) := price in
    let effective_max_age := if max_age =? 0 then DEFAULT_ORACLE_MAX_AGE_SECS else max_age in
    age ← panic_sub_i 64 now publish_time;
    if negb (oracle_timestamp_acceptable age effective_max_age) then Err OracleStale
    else Ok price_fp48
  end.
End ReadPrice.

(** ** Lemmas *)

Lemma pow10_loop_Ok n acc p : pow10_loop n acc = Ok p → p = acc * 10 ^ Z.of_nat n.
Proof.
  revert acc. induction n as [|n IH]; intros acc H; cbn [pow10_loop] in H.
  - injection H as <-. change (10 ^ Z.of_nat 0) with 1. lia.
  - apply bind_Ok in H as (acc' & Hacc & H).
    apply ok_or_Ok, checked_mul_Some in Hacc as [-> _]. apply IH in H as ->.
    rewrite Nat2Z.inj_succ, Z.pow_succ_r by lia. lia.
Qed.

(** Up to [10^38] the loop cannot overflow. *)
Lemma pow10_loop_total n acc :
  1 <= acc → acc * 10 ^ Z.of_nat n < 2 ^ 128 → is_Ok (pow10_loop n acc) = true.
Proof.
  revert acc. induction n as [|n IH]; intros acc Ha H; cbn [pow10_loop]; [done|].
  rewrite Nat2Z.inj_succ, Z.pow_succ_r in H by lia.
  assert (1 <= 10 ^ Z.of_nat n) by (pose proof (Z.pow_pos_nonneg 10 (Z.of_nat n)); lia).
  rewrite mul_ok by nia. cbn [mbind result_bind]. apply IH; lia.
Qed.

Lemma pow10_u128_Ok e : 0 <= e <= 38 → pow10_u128 e = Ok (10 ^ e).
Proof.
  intros He. unfold pow10_u128. set (n := Z.to_nat e).
  assert (Z.of_nat n = e) as Hn by (subst n; lia).
  assert (10 ^ e <= 10 ^ 38) by (apply Z.pow_le_mono_r; lia).
  assert (10 ^ 38 < 2 ^ 128) by (vm_compute; reflexivity).
  assert (is_Ok (pow10_loop n 1) = true) as Ht by (apply pow10_loop_total; [lia|rewrite Hn; lia]).
  destruct (pow10_loop n 1) as [p|] eqn:E; [|done].
  apply pow10_loop_Ok in E. rewrite E, Hn. f_equal. lia.
Qed.

Lemma scale_to_fp48_pos v e q :
  0 < v → in_u U128 v → PYTH_MIN_EXPONENT <= e <= PYTH_MAX_EXPONENT →
  scale_to_fp48 v e = Ok q → 0 < q ∧ in_u U128 q.
Proof.
  unfold PYTH_MIN_EXPONENT, PYTH_MAX_EXPONENT. intros Hv Hvr He H. unfold scale_to_fp48 in H.
  destruct (Z.leb_spec 0 e).
  - rewrite pow10_u128_Ok in H by lia. cbn [mbind result_bind] in H.
    assert (1 <= 10 ^ e <= 100) as Hp.
    { split; [pose proof (Z.pow_pos_nonneg 10 e); lia|].
      change 100 with (10 ^ 2). apply Z.pow_le_mono_r; lia. }
    apply bind_Ok in H as (s & Hs & H). pose proof (mul_div_range _ _ _ _ _ Hs) as Hsr.
    apply mul_div_floor_Ok in Hs as (_ & -> & _); [|zlia..]. rewrite Z.div_1_r in *.
    rewrite to_scaled_spec in H by done. destruct (Z.ltb_spec (v * 10 ^ e) (2 ^ 80)); [|done].
    injection H as <-. rewrite SCALE_eq. zlia || (split; [nia|unfold in_u in *; zlia]).
  - rewrite pow10_u128_Ok in H by lia. cbn [mbind result_bind] in H.
    apply bind_Ok in H as (s & Hs & H). apply mul_div_range in Hs.
    destruct (Z.eqb_spec s 0); [done|]. injection H as <-. unfold in_u in *. lia.
Qed.

Lemma from_le_bytes_as_i w bs : 0 < w → in_i w (as_i w (from_le_bytes bs)).
Proof.
  intros Hw. unfold as_i, in_i.
  pose proof (Z.mod_pos_bound (from_le_bytes bs + 2 ^ (w - 1)) (2 ^ w)
    ltac:(apply Z.pow_pos_nonneg; lia)).
  assert (2 ^ w = 2 * 2 ^ (w - 1)) by (rewrite <- Z.pow_succ_r by lia; f_equal; lia). lia.
Qed.

(** A Pyth price that decodes is a positive [u128]. *)
Lemma decode_pyth_push_pos data mc p t :
  decode_pyth_push data mc = Ok (p, t) → 0 < p ∧ in_u U128 p.
Proof.
  unfold decode_pyth_push. intros H. destruct (_ <? _)%nat; [done|].
  apply bind_Ok in H as (tag & _ & H). destruct (negb _); [done|]. destruct (_ <? _)%nat; [done|].
  apply bind_Ok in H as (pb & _ & H). apply bind_Ok in H as (cb & _ & H).
  apply bind_Ok in H as (eb & _ & H). apply bind_Ok in H as (tb & _ & H).
  pose proof (from_le_bytes_as_i 64 pb ltac:(done)) as Hp.
  set (price := as_i 64 (from_le_bytes pb)) in *. set (e := as_i 32 (from_le_bytes eb)) in *.
  destruct (Z.leb_spec price 0); [done|]. destruct (_ =? 0); [done|].
  destruct (_ && _) eqn:Ee; [|done]. apply andb_true_iff in Ee as [E1%Z.leb_le E2%Z.leb_le].
  apply bind_Ok in H as (pf & Hpf & H). apply bind_Ok in H as (cf & _ & H).
  apply bind_Ok in H as (? & _ & H). injection H as <- _.
  eapply scale_to_fp48_pos; [| | |done]; [done|unfold in_i in Hp; zlia|done].
Qed.

Lemma decode_switchboard_range data mc p t :
  decode_switchboard_pull data mc = Ok (p, t) → in_u U128 p.
Proof.
  unfold decode_switchboard_pull. intros H. destruct (_ <? _)%nat; [done|].
  do 6 (apply bind_Ok in H as (? & _ & H)). destruct (_ <=? 0); [done|].
  apply bind_Ok in H as (? & _ & H). apply bind_Ok in H as (p' & Hp & H).
  do 2 (apply bind_Ok in H as (? & _ & H)). injection H as <- _. by eapply mul_div_range.
Qed.

Lemma staked_price_pos parse cfg accs data mc p t :
  staked_price parse cfg accs data mc = Ok (p, t) → 0 < p ∧ in_u U128 p.
Proof.
  unfold staked_price. intros H. do 8 (apply bind_Ok in H as (? & _ & H)).
  apply bind_Ok in H as ([supply dec] & _ & H). do 2 (apply bind_Ok in H as (? & _ & H)).
  do 3 (apply bind_Ok in H as (? & _ & H)). apply bind_Ok in H as ([raw ts] & _ & H).
  apply bind_Ok in H as (adj & Hadj & H). apply bind_Ok in H as (? & Hr & H).
  injection H as <- _. apply mul_div_range in Hadj. apply require_Ok in Hr. lia || (split; [lia|done]).
Qed.

(** The time of a staked price is the Pyth account's own. *)
Lemma staked_price_decoded parse cfg oracles data mc p t : staked_price parse cfg oracles data mc = Ok (p, t) →
  ∃ sol_price, decode_pyth_push data mc = Ok (sol_price, t).
Proof.
  intros H. unfold staked_price in H. do 9 (apply bind_Ok in H as (? & _ & H)).
  match type of H with context [let '(_, _) := ?x in _] => destruct x as [supply dec] end.
  do 5 (apply bind_Ok in H as (? & _ & H)). apply bind_Ok in H as ([raw ts] & Hd & H).
  apply bind_Ok in H as (adj & _ & H). apply bind_Ok in H as (? & _ & [= _ <-]). by exists raw.
Qed.

(** ** Properties *)

(** C36: an accepted price is authentic and fresh.  Whatever price
    [read_oracle_price] returns: the bank is marginfi's; the setup is the one its configuration
    names, and the number of oracle accounts is that of the setup; the first of them is the
    account the configuration names, owned by the oracle program of the setup; the price
    and its time are what the decoder of that setup reads from the data of that account
    (for a staked setup, the Pyth time and the Pyth price scaled by the pool behind the
    mint and the stake account the configuration names); and that time lies in the
    freshness window the bank asks for (300 seconds when unset), at most 900 seconds
    ahead.  The price is a [u128], and not zero on the Pyth and the staked setups. *)
Theorem read_oracle_price_sound (parse : list Z → option StakeState) (now p : Z)
    (accounts : list AccountInfo) (H : read_oracle_price parse now accounts = Ok p) :
  ∃ bank primary rest cfg setup_raw setup max_age max_conf t,
    accounts = bank :: primary :: rest ∧ ai_owner bank = MARGINFI_ID
    ∧ config_try_from_account_data (ai_data bank) = Ok cfg
    ∧ cfg_oracle_setup_raw cfg = Ok setup_raw ∧ OracleSetup_from_u8 setup_raw = Some setup
    ∧ expected_oracle_account_count setup = Some (length (primary :: rest))
    ∧ cfg_oracle_key cfg 0 = Ok (ai_key primary) ∧ expected_owner setup = Ok (ai_owner primary)
    ∧ cfg_oracle_max_age cfg = Ok max_age ∧ cfg_oracle_max_confidence cfg = Ok max_conf
    ∧ match setup with
      | Setup_PythPushOracle => decode_pyth_push (ai_data primary) max_conf = Ok (p, t) ∧ 0 < p
      | Setup_SwitchboardPull => decode_switchboard_pull (ai_data primary) max_conf = Ok (p, t)
      | Setup_StakedWithPythPush =>
          staked_price parse cfg (primary :: rest) (ai_data primary) max_conf = Ok (p, t) ∧ 0 < p
          ∧ ∃ sol_price, decode_pyth_push (ai_data primary) max_conf = Ok (sol_price, t)
      | _ => False
      end
    ∧ now - (if max_age =? 0 then DEFAULT_ORACLE_MAX_AGE_SECS else max_age) < t
    ∧ t <= now + MAX_FUTURE_SKEW_SECS
    ∧ in_u U128 p.
Proof.
  unfold read_oracle_price in H. destruct accounts as [|bank oracles]; [done|].
  destruct (Z.eqb_spec (ai_owner bank) MARGINFI_ID) as [Hown|]; [|done]. cbn [negb] in H.
  apply bind_Ok in H as (cfg & Hcfg & H). apply map_err_Ok in Hcfg.
  apply bind_Ok in H as (sraw & Hsraw & H). apply bind_Ok in H as (setup & Hsetup%ok_or_Ok & H).
  apply bind_Ok in H as (ex & Hex%ok_or_Ok & H).
  destruct (Nat.eqb_spec (length oracles) ex) as [<-|]; [|done]. cbn [negb] in H.
  apply bind_Ok in H as (primary & Hprim & H). apply ok_or_Ok in Hprim.
  destruct oracles as [|primary' rest]; [done|]. injection Hprim as ->.
  apply bind_Ok in H as (pk & Hpk & H). destruct (Z.eqb_spec (ai_key primary) pk) as [<-|]; [|done].
  cbn [negb] in H. apply bind_Ok in H as (owner & Howner & H).
  destruct (Z.eqb_spec (ai_owner primary) owner) as [<-|]; [|done]. cbn [negb] in H.
  apply bind_Ok in H as (max_age & Hage & H). apply bind_Ok in H as (mc & Hmc & H).
  apply bind_Ok in H as ([p' t] & Hprice & H).
  apply bind_Ok in H as (age & Hd & H). apply ok_or_Ok, checked_sub_i_Some in Hd as [-> _].
  set (eff := if max_age =? 0 then DEFAULT_ORACLE_MAX_AGE_SECS else max_age) in *.
  destruct (oracle_timestamp_acceptable _ _) eqn:Eacc; [|done]. injection H as ->.
  apply andb_true_iff in Eacc as [E1%Z.leb_le E2%Z.ltb_lt].
  exists bank, primary, rest, cfg, sraw, setup, max_age, mc, t. split_and!; try done; try lia.
  - destruct setup; try done.
    + split; [done|]. by apply decode_pyth_push_pos in Hprice as [].
    + split; [done|]. split; [by apply staked_price_pos in Hprice as []|].
      by eapply staked_price_decoded.
  - destruct setup; try done;
      [apply decode_pyth_push_pos in Hprice; tauto|apply decode_switchboard_range in Hprice; tauto
      |apply staked_price_pos in Hprice; tauto].
Qed.

(** A Pyth account: price 150.25 (exponent -8), confidence 0.05, at [t]. *)
Definition sample_pyth_account (t : Z) : AccountInfo :=
  mkAccountInfo 31 PYTH_PUSH_PROGRAM_ID
    (put (put (put (put (put (replicate 133 0) 40 [1]) 73 (le_bytes 8 15025000000))
      81 (le_bytes 8 5000000)) 89 (le_bytes 4 (2 ^ 32 - 8))) 93 (le_bytes 8 t)).

(** The sample bank with a Pyth setup naming that account, 60 s of maximum age. *)
Definition sample_oracle_bank : AccountInfo :=
  let cfg := (ANCHOR_HEADER_LEN + BANK_CONFIG_BODY_OFFSET)%nat in
  mkAccountInfo 5 MARGINFI_ID
    (put (put (put (ai_data (sample_bank 5 SCALE SCALE)) (cfg + 313)%nat [3])
      (cfg + 314)%nat (key_bytes 31)) (cfg + 504)%nat (le_bytes 2 60)).

Lemma read_oracle_price_sound_witness :
  match read_oracle_price (λ _, None) 1050 [sample_oracle_bank; sample_pyth_account 1000] with
  | Ok p => in_u U128 p
  | Err _ => False
  end.
Proof.
  destruct (read_oracle_price _ _ _) as [p|e] eqn:E.
  - destruct (read_oracle_price_sound (λ _, None) 1050 p
      [sample_oracle_bank; sample_pyth_account 1000] E)
      as (? & ? & ? & ? & ? & ? & ? & ? & ? & ? & ? & ? & ? & ? & ? & ? & ? & ? & ? & ? & ? & ? & Hin).
    exact Hin.
  - vm_compute in E. discriminate E.
Defined.

(** The confidence gate is a band around the price.  On a [u128] price, a
    confidence whose inflated value fits and a [u32] setting, the gate passes
    exactly when the confidence is zero or its inflated value is at most the
    configured fraction of the price (10% when unset); otherwise the error is
    [OracleMaxConfidenceExceeded]. *)
Theorem confidence_gate_exact (price conf mult setting : Z)
    (Hp : in_u U128 price) (Hc : in_u 112 conf) (Hm : in_u U16 mult)
    (Hs : in_u U32 setting) :
  let inflated := conf * mult / BPS_DIVISOR in
  let cap := if 0 <? setting then price * setting / umax U32
             else price * DEFAULT_MAX_CONF_PCT_BPS / BPS_DIVISOR in
  check_confidence_interval price conf mult setting =
    if (conf =? 0) || (inflated <=? cap) then Ok tt else Err OracleMaxConfidenceExceeded.
Proof.
  intros inflated cap. unfold check_confidence_interval.
  destruct (Z.eqb_spec conf 0) as [|Hc0]; [done|]. cbn [orb].
  assert (0 <= conf * mult < 2 ^ 128) by (apply (mul_range conf mult 112 16); done).
  rewrite (proj2 (mul_div_floor_Ok conf mult BPS_DIVISOR inflated ltac:(zlia) ltac:(zlia) ltac:(done))).
  2:{ split_and!; [done|done|]. apply Z.div_lt_upper_bound; [done|]. unfold BPS_DIVISOR. zlia. }
  cbn [mbind result_bind].
  assert (∀ k d, 0 <= k <= d → 0 < d < 2 ^ 128 → mul_div price k d false = Ok (price * k / d)) as Hcap.
  { intros k d Hk Hd. apply mul_div_floor_Ok; [done|zlia|zlia|]. split_and!; [lia|done|].
    apply Z.le_lt_trans with price; [|apply Hp].
    apply Z.div_le_upper_bound; [lia|]. unfold in_u in Hp. nia. }
  subst cap. destruct (Z.ltb_spec 0 setting).
  - rewrite Hcap by zlia. cbn [mbind result_bind]. rewrite Z.ltb_antisym.
    by destruct (inflated <=? _).
  - rewrite Hcap by done. cbn [mbind result_bind]. rewrite Z.ltb_antisym.
    by destruct (inflated <=? _).
Qed.

Lemma confidence_gate_exact_witness :
  check_confidence_interval 1000000 60000 CONF_INTERVAL_MULTIPLE_BPS 0
    = Err OracleMaxConfidenceExceeded.
Proof.
  rewrite (confidence_gate_exact 1000000 60000 CONF_INTERVAL_MULTIPLE_BPS 0);
    [reflexivity|vm_compute; split; congruence|vm_compute; split; congruence
    |vm_compute; split; congruence|vm_compute; split; congruence].
Defined.
