(* ===== verification/Ltv.v ===== *)
(** * Loan-to-value ([programs/ydelta/src/state/ltv.rs])

    The collateral a debt requires at given prices and weights, the origination
    and liquidation caps built on it, the live debt of a loan, and the two gates
    of a liquidation: the LTV breach and the end of the grace period. *)
From stdpp Require Import base numbers list option.
From S2P Require Import Prelude FixedPoint Loan Marginfi Oracles.
Local Open Scope Z_scope.

(** ** Required collateral *)

Definition get_required_quote_collateral_to_back_debt (debt_atoms_traded : Z)
    (debt_price coll_price liability_weight coll_asset_weight : Fp48)
    (debt_mint_decimals collateral_mint_decimals : Z) : result Z :=
  if fp48_is_zero coll_price || fp48_is_zero coll_asset_weight
     || fp48_is_zero debt_price || fp48_is_zero liability_weight
  then Ok (umax U64) else
  let debt_atoms_fp48 := fp48_from_atoms debt_atoms_traded in
  num1 ← fp48_checked_mul debt_atoms_fp48 debt_price;
  num2 ← fp48_checked_mul num1 liability_weight;
  denom ← fp48_checked_mul coll_price coll_asset_weight;
  result_fp48 ← fp48_checked_div num2 denom;
  normalized_fp48 ←
    (if debt_mint_decimals <=? collateral_mint_decimals then
       factor ← pow10_u128 (collateral_mint_decimals - debt_mint_decimals);
       mul_div (raw result_fp48) factor 1 false
     else
       factor ← pow10_u128 (debt_mint_decimals - collateral_mint_decimals);
       mul_div (raw result_fp48) 1 factor false);
  atoms_u128 ← from_scaled_ceil normalized_fp48;
  if umax U64 <? atoms_u128 then Ok (umax U64) else Ok atoms_u128.

Definition required_collateral_at_ltv_cap (debt_atoms_traded : Z) (debt_price coll_price : Fp48)
    (ltv_cap_bps debt_mint_decimals collateral_mint_decimals : Z) : result Z :=
  cap ← to_scaled ltv_cap_bps;
  let cap_weight_fp48 := cap / 10000 in
  get_required_quote_collateral_to_back_debt debt_atoms_traded debt_price coll_price
    fp48_ONE (from_raw cap_weight_fp48) debt_mint_decimals collateral_mint_decimals.

Definition effective_origination_cap_bps (sub_vault_max_ltv_bps borrower_buffer_bps : Z) : Z :=
  saturating_sub sub_vault_max_ltv_bps borrower_buffer_bps.

(** ** Live debt *)

Definition read_borrower_liability_shares (borrower_marginfi : AccountInfo) (debt_bank_pk : Pubkey)
    : result Z :=
  mfi ← map_err (marginfi_account_try_from_account_data (ai_data borrower_marginfi))
          IncorrectAccount;
  match find_balance mfi debt_bank_pk with
  | Some b => wrapped_i80f48_to_u128 (balance_liability_shares b)
  | None => Ok 0
  end.

Definition liability_shares_to_atoms_ceil (debt_bank : AccountInfo) (shares : Z) : result Z :=
  bank ← map_err (bank_try_from_account_data (ai_data debt_bank)) IncorrectAccount;
  lsv ← wrapped_i80f48_to_u128 (liability_share_value bank);
  atoms_fp48 ← mul_scale shares lsv;
  atoms_u128 ← from_scaled_ceil atoms_fp48;
  if umax U64 <? atoms_u128 then Err ArithmeticOverflow else Ok atoms_u128.

Definition loan_live_outstanding_atoms (loan : LoanFixed)
    (borrower_marginfi debt_bank : AccountInfo) : result Z :=
  ty ← loan_type loan;
  match ty with
  | LoanType_Fixed => Ok (outstanding_debt_atoms loan)
  | LoanType_P2Pool =>
      account_total ← read_borrower_liability_shares borrower_marginfi (ai_key debt_bank);
      let this_loan_shares := Z.min (borrower_marginfi_borrow_shares loan) account_total in
      liability_shares_to_atoms_ceil debt_bank this_loan_shares
  end.

(** ** The liquidation gates *)

Section Gates.
  Variable parse_stake_state : list Z → option StakeState.
  Variable now : Z.

Definition required_collateral_for_breach (ty : LoanType)
    (stamped_liquidation_ltv_bps outstanding_atoms : Z) (debt_price coll_price : Fp48)
    (debt_bank collateral_bank : AccountInfo)
    (debt_mint_decimals collateral_mint_decimals : Z) : result Z :=
  match ty with
  | LoanType_Fixed =>
      _ ← require (0 <? stamped_liquidation_ltv_bps) InvalidArgument;
      required_collateral_at_ltv_cap outstanding_atoms debt_price coll_price
        stamped_liquidation_ltv_bps debt_mint_decimals collateral_mint_decimals
  | LoanType_P2Pool =>
      debt_weights ← maint_weight [debt_bank];
      let debt_liability_weight := from_raw (snd debt_weights) in
      coll_weights ← maint_weight [collateral_bank];
      let coll_asset_weight := from_raw (fst coll_weights) in
      _ ← require (negb (fp48_is_zero coll_asset_weight)
                   && negb (fp48_is_zero debt_liability_weight)) OracleDegenerate;
      get_required_quote_collateral_to_back_debt outstanding_atoms debt_price coll_price
        debt_liability_weight coll_asset_weight debt_mint_decimals collateral_mint_decimals
  end.

Definition assert_ltv_breach (ty : LoanType)
    (stamped_liquidation_ltv_bps outstanding_atoms collateral_atoms : Z)
    (debt_bank : AccountInfo) (debt_oracle_args : list AccountInfo)
    (collateral_bank : AccountInfo) (collateral_oracle_args : list AccountInfo)
    (debt_mint_decimals collateral_mint_decimals : Z) : result unit :=
  _ ← require (0 <? outstanding_atoms) InvalidArgument;
  _ ← require (0 <? collateral_atoms) LiquidationCollateralUnderflow;
  debt_raw ← read_oracle_price parse_stake_state now debt_oracle_args;
  let debt_price := from_raw debt_raw in
  coll_raw ← read_oracle_price parse_stake_state now collateral_oracle_args;
  let coll_price := from_raw coll_raw in
  _ ← require (negb (fp48_is_zero coll_price) && negb (fp48_is_zero debt_price)) OracleDegenerate;
  required ← required_collateral_for_breach ty stamped_liquidation_ltv_bps outstanding_atoms
               debt_price coll_price debt_bank collateral_bank
               debt_mint_decimals collateral_mint_decimals;
  require (collateral_atoms <? required) LoanStillSolvent.
End Gates.

Definition assert_past_grace_period (loan : LoanFixed) (grace_period_seconds now_unix_ts : Z)
    : result unit :=
  grace_end ← ok_or (checked_add_i 64 (matures_at_unix loan) grace_period_seconds)
                    ArithmeticOverflow;
  require (grace_end <? now_unix_ts) LoanNotMatured.

(** ** Lemmas *)

(** The chain of floors inside the required collateral, before normalisation. *)
Definition collateral_quotient (debt dp cp lw aw : Z) : Z :=
  (debt * SCALE * dp / SCALE) * lw / SCALE * SCALE / (cp * aw / SCALE).

Lemma fp48_from_atoms_eq a : in_u U64 a → fp48_from_atoms a = from_raw (a * SCALE).
Proof.
  intros Ha. unfold fp48_from_atoms, as_u. rewrite shl48_eq by apply Ha.
  rewrite Z.mod_small by (rewrite SCALE_eq; zlia). done.
Qed.

Lemma fp48_mul_Ok x y z :
  in_u U128 (raw x) → in_u U128 (raw y) → fp48_checked_mul x y = Ok z →
  raw z = raw x * raw y / SCALE ∧ in_u U128 (raw z).
Proof.
  intros Hx Hy H. unfold fp48_checked_mul in H. rewrite mul_scale_spec in H by done.
  destruct (Z.ltb_spec (raw x * raw y / SCALE) (2 ^ 128)); [|done]. injection H as <-. simpl.
  split; [done|]. split; [|done].
  apply Z.div_pos; [apply (mul_in_u256 (raw x) (raw y) Hx Hy)|done].
Qed.

Lemma fp48_div_Ok x y z :
  in_u U128 (raw x) → in_u U128 (raw y) → fp48_checked_div x y = Ok z →
  raw y ≠ 0 ∧ raw z = raw x * SCALE / raw y ∧ in_u U128 (raw z).
Proof.
  intros Hx Hy H. unfold fp48_checked_div in H. rewrite div_scale_spec in H by done.
  destruct (Z.eqb_spec (raw y) 0); [done|].
  destruct (Z.ltb_spec (raw x * SCALE / raw y) (2 ^ 128)); [|done]. injection H as <-. simpl.
  split; [done|]. split; [done|]. split; [|done].
  apply Z.div_pos; [rewrite SCALE_eq; zlia|zlia].
Qed.

Definition normalize_decimals (q debt_dec coll_dec : Z) : Z :=
  if debt_dec <=? coll_dec then q * 10 ^ (coll_dec - debt_dec) else q / 10 ^ (debt_dec - coll_dec).

Definition decimals_ok (d : Z) : Prop := 0 <= d <= 38.

#[export] Instance decimals_ok_dec d : Decision (decimals_ok d).
Proof. unfold decimals_ok. apply _. Defined.

Lemma normalize_decimals_mono q q' d c :
  decimals_ok d → decimals_ok c → q <= q' → normalize_decimals q d c <= normalize_decimals q' d c.
Proof.
  intros Hd Hc Hq. unfold normalize_decimals. destruct (Z.leb_spec d c).
  - apply Z.mul_le_mono_nonneg_r; [apply Z.pow_nonneg; lia|done].
  - apply Z.div_le_mono; [apply Z.pow_pos_nonneg; lia|done].
Qed.

(** The requirement of a call with nothing degenerate. *)
Lemma required_collateral_inv debt dp cp lw aw dd cd r :
  in_u U64 debt → in_u U128 (raw dp) → in_u U128 (raw cp) → in_u U128 (raw lw) →
  in_u U128 (raw aw) → decimals_ok dd → decimals_ok cd →
  raw dp ≠ 0 → raw cp ≠ 0 → raw lw ≠ 0 → raw aw ≠ 0 →
  get_required_quote_collateral_to_back_debt debt dp cp lw aw dd cd = Ok r →
  let q := collateral_quotient debt (raw dp) (raw cp) (raw lw) (raw aw) in
  0 < raw cp * raw aw / SCALE ∧ in_u U128 q
  ∧ r = Z.min (umax U64) (ceil_div (normalize_decimals q dd cd) SCALE).
Proof.
  intros Hd Hdp Hcp Hlw Haw Hdd Hcd Ndp Ncp Nlw Naw H.
  unfold get_required_quote_collateral_to_back_debt, fp48_is_zero in H.
  rewrite !(proj2 (Z.eqb_neq _ _)) in H by done. cbn [orb] in H.
  rewrite fp48_from_atoms_eq in H by done.
  apply bind_Ok in H as (n1 & Hn1 & H).
  apply fp48_mul_Ok in Hn1 as [En1 Hn1]; [|simpl; rewrite SCALE_eq; zlia|done]. simpl in En1.
  apply bind_Ok in H as (n2 & Hn2 & H). apply fp48_mul_Ok in Hn2 as [En2 Hn2]; [|done|done].
  apply bind_Ok in H as (dn & Hdn & H). apply fp48_mul_Ok in Hdn as [Edn Hdn]; [|done|done].
  apply bind_Ok in H as (q & Hq & H). apply fp48_div_Ok in Hq as (Hnz & Eq & Hq); [|done|done].
  assert (collateral_quotient debt (raw dp) (raw cp) (raw lw) (raw aw) = raw q) as ->
    by (unfold collateral_quotient; rewrite Eq, En2, En1, Edn; done).
  rewrite Edn in *. split; [unfold in_u in Hdn; lia|]. split; [done|].
  apply bind_Ok in H as (nf & Hnf & H).
  assert (nf = normalize_decimals (raw q) dd cd ∧ in_u U128 nf) as [-> Hnr].
  { unfold normalize_decimals, decimals_ok in *. destruct (Z.leb_spec dd cd).
    - rewrite pow10_u128_Ok in Hnf by lia. cbn [mbind result_bind] in Hnf.
      pose proof (mul_div_range _ _ _ _ _ Hnf).
      assert (0 <= 10 ^ (cd - dd) < 2 ^ 128).
      { split; [apply Z.pow_nonneg; lia|]. apply Z.le_lt_trans with (10 ^ 38);
          [apply Z.pow_le_mono_r; lia|vm_compute; reflexivity]. }
      apply mul_div_floor_Ok in Hnf as (_ & -> & _); [|done..]. by rewrite Z.div_1_r in *.
    - rewrite pow10_u128_Ok in Hnf by lia. cbn [mbind result_bind] in Hnf.
      pose proof (mul_div_range _ _ _ _ _ Hnf).
      assert (0 <= 10 ^ (dd - cd) < 2 ^ 128).
      { split; [apply Z.pow_nonneg; lia|]. apply Z.le_lt_trans with (10 ^ 38);
          [apply Z.pow_le_mono_r; lia|vm_compute; reflexivity]. }
      apply mul_div_floor_Ok in Hnf as (_ & -> & _); [|done..]. by rewrite Z.mul_1_r in *. }
  rewrite from_scaled_ceil_spec in H by done. cbn [mbind result_bind] in H.
  destruct (Z.ltb_spec (umax U64) (ceil_div (normalize_decimals (raw q) dd cd) SCALE));
    injection H as <-; lia.
Qed.

Lemma ceil_div_mono a b c : 0 < c → a <= b → ceil_div a c <= ceil_div b c.
Proof. intros Hc Hab. rewrite !ceil_div_spec by done. apply Z.div_le_mono; lia. Qed.

Lemma collateral_quotient_mono d d' p p' c c' w a a' :
  0 <= d <= d' → 0 <= p <= p' → 0 <= c' <= c → 0 <= w → 0 <= a' <= a →
  0 < c' * a' / SCALE →
  collateral_quotient d p c w a <= collateral_quotient d' p' c' w a'.
Proof.
  intros Hd Hp Hc Hw Ha Hpos. unfold collateral_quotient.
  assert (0 < SCALE) as HS by done.
  assert (d * SCALE * p / SCALE <= d' * SCALE * p' / SCALE) as H1.
  { apply Z.div_le_mono; [done|]. apply Z.mul_le_mono_nonneg; nia. }
  assert (0 <= d * SCALE * p / SCALE) as H1' by (apply Z.div_pos; [nia|done]).
  set (x := d * SCALE * p / SCALE) in *. set (x' := d' * SCALE * p' / SCALE) in *.
  assert (x * w / SCALE <= x' * w / SCALE) as H2 by (apply Z.div_le_mono; nia).
  assert (0 <= x * w / SCALE) as H2' by (apply Z.div_pos; nia).
  set (y := x * w / SCALE) in *. set (y' := x' * w / SCALE) in *.
  assert (c' * a' / SCALE <= c * a / SCALE) as H3.
  { apply Z.div_le_mono; [done|]. apply Z.mul_le_mono_nonneg; lia. }
  set (z := c * a / SCALE) in *. set (z' := c' * a' / SCALE) in *.
  apply Z.le_trans with (y * SCALE / z').
  - apply Z.div_le_compat_l; [nia|lia].
  - apply Z.div_le_mono; nia.
Qed.

(** The weight a cap in basis points stands for. *)
Definition cap_weight (cap : Z) : Z := cap * SCALE / 10000.

Lemma required_at_cap_eq debt dp cp cap dd cd :
  in_u U16 cap →
  required_collateral_at_ltv_cap debt dp cp cap dd cd =
  get_required_quote_collateral_to_back_debt debt dp cp fp48_ONE (from_raw (cap_weight cap)) dd cd
  ∧ in_u U128 (cap_weight cap) ∧ (cap_weight cap = 0 ↔ cap = 0).
Proof.
  intros Hcap. unfold required_collateral_at_ltv_cap, cap_weight.
  rewrite to_scaled_spec by (eapply in_u_mono; [|done]; lia).
  rewrite (proj2 (Z.ltb_lt cap (2 ^ 80))) by zlia. split; [done|]. rewrite SCALE_eq.
  assert (0 <= cap * 2 ^ 48 < 2 ^ 64) as Hb by zlia.
  split; [eapply in_u_mono; [|apply div_range; [exact Hb|done]]; lia|].
  split; [|by intros ->]. intros H0. apply Z.div_small_iff in H0; zlia.
Qed.

(** The monotonicity both the origination and the liquidation gate rest on. *)
Lemma required_at_cap_mono d d' cap cap' dd cd r r' (dp dp' cp cp' : Fp48) :
  0 <= d <= d' ∧ d' < 2 ^ 64 → 0 <= cap' <= cap ∧ cap < 2 ^ 16 →
  0 < raw dp <= raw dp' ∧ raw dp' < 2 ^ 128 → 0 <= raw cp' <= raw cp ∧ raw cp < 2 ^ 128 →
  decimals_ok dd ∧ decimals_ok cd →
  required_collateral_at_ltv_cap d dp cp cap dd cd = Ok r →
  required_collateral_at_ltv_cap d' dp' cp' cap' dd cd = Ok r' →
  r <= r' ∧ (cap' = 0 ∨ raw cp' = 0 → r' = umax U64).
Proof.
  intros Hdebt Hcap Hdp Hcp Hdec H H'.
  pose proof (required_at_cap_eq d dp cp cap dd cd ltac:(zlia)) as (E & Hw & Hw0).
  pose proof (required_at_cap_eq d' dp' cp' cap' dd cd ltac:(zlia)) as (E' & Hw' & Hw0').
  rewrite E in H. rewrite E' in H'. clear E E'.
  assert (cap_weight cap' <= cap_weight cap) as Hmw by (apply Z.div_le_mono; [done|]; rewrite SCALE_eq; zlia).
  assert (r <= umax U64) as Hmax.
  { unfold get_required_quote_collateral_to_back_debt in H. destruct (_ || _); [injection H as <-; lia|].
    do 6 (apply bind_Ok in H as (? & _ & H)).
    match type of H with context [umax U64 <? ?x] => destruct (Z.ltb_spec (umax U64) x) end;
      injection H as <-; lia. }
  destruct (decide (cap' = 0 ∨ raw cp' = 0)) as [Hz|Hnz].
  - unfold get_required_quote_collateral_to_back_debt, fp48_is_zero in H'. simpl in H'.
    assert ((raw cp' =? 0) || (cap_weight cap' =? 0) = true) as Hor.
    { destruct Hz as [Hz|Hz]; [rewrite (proj2 Hw0' Hz)|rewrite Hz]; by rewrite ?orb_true_r. }
    rewrite Hor in H'. injection H' as <-. done.
  - split; [|tauto]. destruct Hdec as [Hdd Hcd].
    apply required_collateral_inv in H as (_ & _ & ->); try done; try zlia;
      [|simpl; rewrite Hw0; lia].
    apply required_collateral_inv in H' as (Hpos & _ & ->); try done; try zlia;
      [|simpl; rewrite Hw0'; tauto].
    apply Z.min_le_compat_l, ceil_div_mono; [done|]. apply normalize_decimals_mono; [done..|].
    apply collateral_quotient_mono; simpl; unfold in_u in *; (lia || done).
Qed.

(** The Fixed-loan liquidation gate, as a predicate. *)
Lemma assert_ltv_breach_fixed_Ok parse now stamp out coll dbank dargs cbank cargs dd cd :
  assert_ltv_breach parse now LoanType_Fixed stamp out coll dbank dargs cbank cargs dd cd = Ok tt ↔
  0 < out ∧ 0 < coll ∧ 0 < stamp
  ∧ ∃ dp cp req, read_oracle_price parse now dargs = Ok dp ∧ read_oracle_price parse now cargs = Ok cp
      ∧ dp ≠ 0 ∧ cp ≠ 0
      ∧ required_collateral_at_ltv_cap out (from_raw dp) (from_raw cp) stamp dd cd = Ok req
      ∧ coll < req.
Proof.
  unfold assert_ltv_breach, fp48_is_zero. split.
  - intros H. apply bind_Ok in H as ([] & Ho%require_Ok & H).
    apply bind_Ok in H as ([] & Hc%require_Ok & H).
    apply bind_Ok in H as (dp & Hdp & H). apply bind_Ok in H as (cp & Hcp & H).
    apply bind_Ok in H as ([] & Hz%require_Ok & H). cbn [raw] in Hz.
    apply bind_Ok in H as (req & Hreq & H%require_Ok).
    apply bind_Ok in Hreq as ([] & Hs%require_Ok & Hreq).
    apply andb_true_iff in Hz as [Hz1%negb_true_iff%Z.eqb_neq Hz2%negb_true_iff%Z.eqb_neq].
    split_and!; try lia. exists dp, cp, req. split_and!; try done. lia.
  - intros (Ho & Hc & Hs & dp & cp & req & -> & -> & Hdp & Hcp & Hreq & Hlt).
    rewrite !(require_true (0 <? _)) by lia. cbn [mbind result_bind raw].
    rewrite !(proj2 (Z.eqb_neq _ _)) by done. cbn [negb andb require mbind result_bind].
    unfold required_collateral_for_breach. rewrite (require_true (0 <? stamp)) by lia.
    cbn [mbind result_bind]. rewrite Hreq. cbn [mbind result_bind].
    by rewrite require_true by lia.
Qed.

(** The collateral requirement never aborts. *)
Lemma pow10_u128_safe e : returns (pow10_u128 e) (λ _, True).
Proof.
  unfold pow10_u128. generalize 1. induction (Z.to_nat e) as [|n IH]; intros acc; simpl; safe_walk.
Qed.
#[export] Hint Resolve pow10_u128_safe : safe.
Lemma required_collateral_safe d dp cp lw cw dd cd :
  returns (get_required_quote_collateral_to_back_debt d dp cp lw cw dd cd) (λ _, True).
Proof. unfold get_required_quote_collateral_to_back_debt. safe_walk. Qed.
#[export] Hint Resolve required_collateral_safe : safe.
Lemma required_at_cap_safe d dp cp cap dd cd :
  returns (required_collateral_at_ltv_cap d dp cp cap dd cd) (λ _, True).
Proof. unfold required_collateral_at_ltv_cap. safe_walk. Qed.
#[export] Hint Resolve required_at_cap_safe : safe.

(** ** Properties *)

(** The collateral requirement is monotone and fails closed.  More debt, a
    dearer debt token, a cheaper collateral or a tighter cap never lowers the
    requirement; and a zero price or a zero cap requires [u64::MAX], which no
    smaller amount of collateral meets. *)
Theorem required_collateral_monotone (d d' cap cap' dd cd r r' : Z) (dp dp' cp cp' : Fp48)
    (Hdebt : 0 <= d <= d' ∧ d' < 2 ^ 64) (Hcap : 0 <= cap' <= cap ∧ cap < 2 ^ 16)
    (Hdp : 0 < raw dp <= raw dp' ∧ raw dp' < 2 ^ 128)
    (Hcp : 0 <= raw cp' <= raw cp ∧ raw cp < 2 ^ 128)
    (Hdec : decimals_ok dd ∧ decimals_ok cd)
    (H : required_collateral_at_ltv_cap d dp cp cap dd cd = Ok r)
    (H' : required_collateral_at_ltv_cap d' dp' cp' cap' dd cd = Ok r') :
  r <= r' ∧ (cap' = 0 ∨ raw cp' = 0 → r' = umax U64).
Proof. by eapply required_at_cap_mono. Qed.

Lemma required_collateral_monotone_witness :
  required_collateral_at_ltv_cap 1000000 fp48_ONE (from_raw (150 * SCALE)) 8000 6 9 = Ok 8333334
  ∧ required_collateral_at_ltv_cap 1200000 fp48_ONE (from_raw (140 * SCALE)) 7500 6 9
    = Ok 11428572 ∧ 8333334 <= 11428572.
Proof.
  split; [vm_compute; reflexivity|]. split; [vm_compute; reflexivity|].
  refine (proj1 (required_collateral_monotone 1000000 1200000 8000 7500 6 9 _ _
    fp48_ONE fp48_ONE (from_raw (150 * SCALE)) (from_raw (140 * SCALE)) _ _ _ _ _ _ _));
    [lia|lia|vm_compute; intuition congruence|vm_compute; intuition congruence
    |split; vm_compute; intuition congruence|vm_compute; reflexivity|vm_compute; reflexivity].
Defined.

(** The requirement keeps the loan within its cap.  With equal decimals, a
    requirement below [u64::MAX] is worth the debt at the cap: debt value is at
    most the collateral value scaled by the cap, up to a single raw unit
    ([2^-48] of an atom) of collateral. *)
Theorem required_collateral_covers (debt cap dec r : Z) (dp cp : Fp48)
    (Hd : in_u U64 debt) (Hcap : in_u U16 cap) (Hdec : decimals_ok dec)
    (Hdp : 0 < raw dp < 2 ^ 128) (Hcp : 0 < raw cp < 2 ^ 128)
    (H : required_collateral_at_ltv_cap debt dp cp cap dec dec = Ok r) (Hr : r < umax U64) :
  debt * SCALE * raw dp * SCALE < (r * SCALE + 1) * (raw cp * cap_weight cap).
Proof.
  pose proof (required_at_cap_eq debt dp cp cap dec dec Hcap) as (E & Hw & Hw0).
  rewrite E in H. clear E.
  destruct (decide (cap_weight cap = 0)) as [Hz|Hnz].
  { unfold get_required_quote_collateral_to_back_debt, fp48_is_zero in H. simpl in H.
    rewrite Hz in H. simpl in H. rewrite orb_true_r in H. injection H as <-. lia. }
  apply required_collateral_inv in H as (Hpos & Hq & ->); try done; try zlia.
  cbn [raw fp48_ONE] in *. set (W := cap_weight cap) in *.
  rewrite Z.min_r in * by lia.
  assert (collateral_quotient debt (raw dp) (raw cp) SCALE W
          = debt * raw dp * SCALE / (raw cp * W / SCALE)) as Eq.
  { unfold collateral_quotient.
    replace (debt * SCALE * raw dp) with (debt * raw dp * SCALE) by lia.
    by rewrite !Z.div_mul by done. }
  rewrite Eq. set (D := raw cp * W / SCALE) in *.
  unfold normalize_decimals. rewrite Z.leb_refl, Z.sub_diag, Z.pow_0_r, Z.mul_1_r.
  set (q := debt * raw dp * SCALE / D) in *.
  pose proof (ceil_div_bounds q SCALE ltac:(done)) as [Hc _].
  pose proof (Z.div_mod (debt * raw dp * SCALE) D ltac:(lia)) as E1. fold q in E1.
  pose proof (Z.mod_pos_bound (debt * raw dp * SCALE) D Hpos) as E2.
  pose proof (Z.mul_div_le (raw cp * W) SCALE ltac:(done)) as E3. fold D in E3.
  assert (debt * raw dp * SCALE < (q + 1) * D) by lia.
  assert (0 <= q) by (rewrite Eq in Hq; apply Hq).
  assert (0 < SCALE) by done. nia.
Qed.

Lemma required_collateral_covers_witness :
  required_collateral_at_ltv_cap 1000000 fp48_ONE (from_raw (3 * SCALE)) 8000 6 6 = Ok 416667
  ∧ 1000000 * SCALE * SCALE * SCALE < (416667 * SCALE + 1) * (3 * SCALE * cap_weight 8000).
Proof.
  split; [vm_compute; reflexivity|].
  refine (required_collateral_covers 1000000 8000 6 416667 fp48_ONE (from_raw (3 * SCALE))
    _ _ _ _ _ _ _); try (vm_compute; intuition congruence).
Defined.

(** A fixed loan is liquidatable only past its own stamp.  The gate of a
    fixed loan passes exactly when there is debt and collateral, both oracle
    prices are accepted and non-zero, and the collateral is below what the
    stamped liquidation threshold requires at those prices; so collateral that
    covers the debt at a cap no looser than the stamp is never liquidatable at
    the same prices, whatever weights marginfi publishes. *)
Theorem fixed_liquidation_gate (parse : list Z → option StakeState)
    (now stamp cap out debt coll dp cp req dd cd : Z) (dbank cbank : AccountInfo)
    (dargs cargs : list AccountInfo)
    (Hdp : read_oracle_price parse now dargs = Ok dp)
    (Hcp : read_oracle_price parse now cargs = Ok cp)
    (Hpos : 0 < dp < 2 ^ 128 ∧ 0 < cp < 2 ^ 128)
    (Hcap : 0 < cap <= stamp ∧ stamp < 2 ^ 16) (Hdebt : 0 <= out <= debt ∧ debt < 2 ^ 64)
    (Hdec : decimals_ok dd ∧ decimals_ok cd)
    (Hreq : required_collateral_at_ltv_cap debt (from_raw dp) (from_raw cp) cap dd cd = Ok req) :
  let gate coll := assert_ltv_breach parse now LoanType_Fixed stamp out coll
                     dbank dargs cbank cargs dd cd in
  (gate coll = Ok tt ↔ 0 < out ∧ 0 < coll ∧ ∃ r,
      required_collateral_at_ltv_cap out (from_raw dp) (from_raw cp) stamp dd cd = Ok r ∧ coll < r)
  ∧ (req <= coll → gate coll ≠ Ok tt).
Proof.
  intros gate. assert (gate coll = Ok tt ↔ 0 < out ∧ 0 < coll ∧ ∃ r,
      required_collateral_at_ltv_cap out (from_raw dp) (from_raw cp) stamp dd cd = Ok r ∧ coll < r)
    as Hiff.
  { subst gate. cbv beta. rewrite assert_ltv_breach_fixed_Ok, Hdp, Hcp. split.
    - intros (? & ? & _ & ? & ? & r & [= <-] & [= <-] & _ & _ & ? & ?). eauto.
    - intros (? & ? & r & ? & ?). split_and!; try done; try lia.
      exists dp, cp, r. split_and!; try done; lia. }
  split; [done|]. intros Hcov Hok. apply Hiff in Hok as (_ & _ & r & Hr & Hlt).
  assert (r <= req) as Hle; [|lia].
  eapply (required_at_cap_mono out debt stamp cap dd cd r req (from_raw dp) (from_raw dp)
    (from_raw cp) (from_raw cp)); simpl; try done; lia.
Qed.

Lemma fixed_liquidation_gate_witness :
  let args := [sample_oracle_bank; sample_pyth_account 1000] in
  assert_ltv_breach (λ _, None) 1050 LoanType_Fixed 8500 1000000 1250001
    sample_oracle_bank args sample_oracle_bank args 6 6 ≠ Ok tt.
Proof.
  refine (proj2 (fixed_liquidation_gate (λ _, None) 1050 8500 8000 1000000 1000000 1250001
    (15025 * SCALE / 100) (15025 * SCALE / 100) 1250001 6 6 sample_oracle_bank sample_oracle_bank
    _ _ _ _ _ _ _ _ _) _); try (vm_compute; intuition congruence).
Defined.
