(* ===== verification/SubVault.v ===== *)
(** * Sub-vault accounting ([programs/ydelta/src/state/vault.rs])

    The records of a global vault account and the mark-to-market accrual of a
    sub-vault.  The tree-shaped part of the vault account is in [VaultTrees]. *)
From stdpp Require Import base numbers list option.
From S2P Require Import Prelude FixedPoint Loan Marginfi.
Local Open Scope Z_scope.

Definition GLOBAL_VAULT_FIXED_DISCRIMINANT : Z := 0x7964656C74615661.
Definition SUB_VAULT_KIND_POOL : Z := 0.
Definition SUB_VAULT_KIND_PRIVATE : Z := 1.
Definition ACCRUE_INDEX_SCALE : Z := Z.shiftl 1 48.

(** ** Records *)

Record GlobalVaultFixed := mkGlobalVaultFixed {
  gv_discriminator : Z;
  gv_mint : Pubkey;
  gv_global_vault_admin : Pubkey;
  gv_integration_pool : Pubkey;
  gv_integration_account : Pubkey;
  gv_global_vault_signer : Pubkey;
  gv_lending_pool : Pubkey;
  gv_sub_vaults_root_index : Z;
  gv_claimed_seats_root_index : Z;
  gv_market_orders_root_index : Z;
  gv_sub_vault_free_list_head_index : Z;
  gv_node_free_list_head_index : Z;
  gv_num_bytes_allocated : Z;
  gv_sub_vault_count : Z;
  gv_global_vault_signer_bump : Z;
  gv_version : Z;
  gv_claimed_seat_count : Z;
  gv_open_order_count : Z;
  gv_pending_global_vault_admin : Pubkey;
  gv_is_paused : Z;
  gv_next_sub_vault_id : Z }.

#[export] Instance eta_GlobalVaultFixed : Eta GlobalVaultFixed := λ g,
  mkGlobalVaultFixed (gv_discriminator g) (gv_mint g) (gv_global_vault_admin g)
    (gv_integration_pool g) (gv_integration_account g) (gv_global_vault_signer g)
    (gv_lending_pool g) (gv_sub_vaults_root_index g) (gv_claimed_seats_root_index g)
    (gv_market_orders_root_index g) (gv_sub_vault_free_list_head_index g)
    (gv_node_free_list_head_index g) (gv_num_bytes_allocated g) (gv_sub_vault_count g)
    (gv_global_vault_signer_bump g) (gv_version g) (gv_claimed_seat_count g)
    (gv_open_order_count g) (gv_pending_global_vault_admin g) (gv_is_paused g)
    (gv_next_sub_vault_id g).

(** [GlobalVaultFixed::new_empty]. *)
Definition global_vault_new_empty (mint admin pool account signer : Pubkey) (bump : Z)
    (lending_pool : Pubkey) : GlobalVaultFixed :=
  mkGlobalVaultFixed GLOBAL_VAULT_FIXED_DISCRIMINANT mint admin pool account signer lending_pool
    NIL NIL NIL NIL NIL 0 0 bump ACCOUNT_LAYOUT_VERSION 0 0 Pubkey_default 0 1.

Definition vault_is_paused (g : GlobalVaultFixed) : bool := negb (gv_is_paused g =? 0).
Definition has_free_sub_vault_block (g : GlobalVaultFixed) : bool :=
  negb (gv_sub_vault_free_list_head_index g =? NIL).
Definition has_free_node_block (g : GlobalVaultFixed) : bool :=
  negb (gv_node_free_list_head_index g =? NIL).
Definition vault_verify_discriminant (g : GlobalVaultFixed) : result unit :=
  require (gv_discriminator g =? GLOBAL_VAULT_FIXED_DISCRIMINANT) InvalidAccountData.
Definition vault_verify_version (g : GlobalVaultFixed) : result unit :=
  require (gv_version g =? ACCOUNT_LAYOUT_VERSION) InvalidAccountData.

Record SubVault := mkSubVault {
  sv_sub_vault_id : Z;
  sv_is_sunset : Z;
  sv_kind : Z;
  sv_spread_bps : Z;
  sv_curator : Pubkey;
  sv_max_ltv_bps : Z;
  sv_liquidation_ltv_bps : Z;
  sv_max_term_seconds : Z;
  sv_curator_fee_bps : Z;
  sv_open_orders_count : Z;
  sv_open_loans_count : Z;
  sv_total_shares : Z;
  sv_total_assets_atoms : Z;
  sv_total_principal_atoms : Z;
  sv_deployed_principal_atoms : Z;
  sv_encumbered_in_orders_atoms : Z;
  sv_total_weighted_rate_bps : Z;
  sv_accumulated_curator_fee_atoms : Z;
  sv_last_accrue_unix : Z;
  sv_cumulative_supply_yield_index_scaled : Z;
  sv_cumulative_delta_yield_index_scaled : Z;
  sv_last_supply_share_value_fp48 : Fp48;
  sv_pending_curator : Pubkey;
  sv_total_weighted_net_rate_bps : Z;
  sv_pending_claim_atoms : Z }.

#[export] Instance SubVault_eq_dec : EqDecision SubVault.
Proof. solve_decision. Defined.

#[export] Instance eta_SubVault : Eta SubVault := λ s,
  mkSubVault (sv_sub_vault_id s) (sv_is_sunset s) (sv_kind s) (sv_spread_bps s) (sv_curator s)
    (sv_max_ltv_bps s) (sv_liquidation_ltv_bps s) (sv_max_term_seconds s) (sv_curator_fee_bps s)
    (sv_open_orders_count s) (sv_open_loans_count s) (sv_total_shares s)
    (sv_total_assets_atoms s) (sv_total_principal_atoms s) (sv_deployed_principal_atoms s)
    (sv_encumbered_in_orders_atoms s) (sv_total_weighted_rate_bps s)
    (sv_accumulated_curator_fee_atoms s) (sv_last_accrue_unix s)
    (sv_cumulative_supply_yield_index_scaled s) (sv_cumulative_delta_yield_index_scaled s)
    (sv_last_supply_share_value_fp48 s) (sv_pending_curator s)
    (sv_total_weighted_net_rate_bps s) (sv_pending_claim_atoms s).

(** [SubVault::is_empty]. *)
Definition sub_vault_is_empty (s : SubVault) : bool :=
  (sv_total_shares s =? 0) && (sv_total_assets_atoms s =? 0)
  && (sv_total_principal_atoms s =? 0) && (sv_deployed_principal_atoms s =? 0)
  && (sv_encumbered_in_orders_atoms s =? 0) && (sv_accumulated_curator_fee_atoms s =? 0)
  && (sv_pending_claim_atoms s =? 0) && (sv_open_orders_count s =? 0)
  && (sv_open_loans_count s =? 0).

(** [SubVault::new_empty]. *)
Definition sub_vault_new_empty (id : Z) (curator : Pubkey) (max_ltv max_term : Z) : SubVault :=
  mkSubVault id 0 0 0 curator max_ltv 0 max_term 0 0 0 0 0 0 0 0 0 0 0 0 0 fp48_ZERO
    Pubkey_default 0 0.

(** [impl Ord for SubVault]. *)
Definition sub_vault_cmp (a b : SubVault) : comparison := sv_sub_vault_id a ?= sv_sub_vault_id b.

Record SubVaultDepositorSeat := mkDepositorSeat {
  ds_owner : Pubkey;
  ds_sub_vault_id : Z;
  ds_shares : Z;
  ds_snapshot_supply_yield_index_scaled : Z;
  ds_snapshot_delta_yield_index_scaled : Z;
  ds_last_updated_unix : Z }.

#[export] Instance eta_DepositorSeat : Eta SubVaultDepositorSeat := λ d,
  mkDepositorSeat (ds_owner d) (ds_sub_vault_id d) (ds_shares d)
    (ds_snapshot_supply_yield_index_scaled d) (ds_snapshot_delta_yield_index_scaled d)
    (ds_last_updated_unix d).

Definition depositor_seat_probe (owner : Pubkey) (sub_vault_id : Z) : SubVaultDepositorSeat :=
  mkDepositorSeat owner sub_vault_id 0 0 0 0.

(** [impl Ord for SubVaultDepositorSeat]. *)
Definition depositor_seat_cmp (a b : SubVaultDepositorSeat) : comparison :=
  match ds_owner a ?= ds_owner b with
  | Eq => ds_sub_vault_id a ?= ds_sub_vault_id b
  | ord => ord
  end.

Record SubVaultOrderRef := mkSubVaultOrderRef {
  or_market : Pubkey;
  or_sub_vault_id : Z;
  or_side : Z;
  or_rate_bps : Z;
  or_term_seconds : Z;
  or_order_sequence_in_market : Z;
  or_placed_at_unix : Z }.

Definition sub_vault_order_ref_probe (market : Pubkey) (sub_vault_id : Z) : SubVaultOrderRef :=
  mkSubVaultOrderRef market sub_vault_id 0 0 0 0 0.

(** [impl Ord for SubVaultOrderRef]. *)
Definition sub_vault_order_ref_cmp (a b : SubVaultOrderRef) : comparison :=
  match or_market a ?= or_market b with
  | Eq => or_sub_vault_id a ?= or_sub_vault_id b
  | ord => ord
  end.

(** ** Accrual *)

(** [vault.rs]'s reader of the bank's share value. *)
Definition read_bank_share_value (bank : AccountInfo) : result Fp48 :=
  b ← map_err (bank_try_from_account_data (ai_data bank)) IncorrectAccount;
  v ← wrapped_i80f48_to_u128 (asset_share_value b);
  mret (from_raw v).

Definition restore_assets_principal_invariant (s : SubVault) : SubVault :=
  if sv_total_assets_atoms s <? sv_total_principal_atoms s
  then s <| sv_total_assets_atoms := sv_total_principal_atoms s |>
  else s.

(** [idle_delta_atoms]: the revaluation of the idle atoms, an [i128]. *)
Definition idle_delta (s : SubVault) (idle : Z) (current : Fp48) : result Z :=
  if (0 <? idle) && negb (fp48_is_zero current) then
    let snapshot := sv_last_supply_share_value_fp48 s in
    if fp48_is_zero snapshot then Ok 0 else
    current_idle_value ← mul_div idle (raw current) (raw snapshot) false;
    if umax U64 <? current_idle_value then Err MathOverflow
    else Ok (current_idle_value - idle)
  else Ok 0.

(** The gain and loss arms on the assets and the principal. *)
Definition apply_idle_delta (s : SubVault) (delta : Z) : result SubVault :=
  if 0 <=? delta then
    idle_gain ← ok_or (try_from U64 delta) MathOverflow;
    assets ← ok_or (checked_add U64 (sv_total_assets_atoms s) idle_gain) ArithmeticOverflow;
    principal ← ok_or (checked_add U64 (sv_total_principal_atoms s) idle_gain) ArithmeticOverflow;
    mret (s <| sv_total_assets_atoms := assets |> <| sv_total_principal_atoms := principal |>)
  else
    idle_loss ← ok_or (try_from U64 (- delta)) MathOverflow;
    mret (s <| sv_total_assets_atoms ::= λ x, saturating_sub x idle_loss |>
            <| sv_total_principal_atoms ::= λ x, saturating_sub x idle_loss |>).

(** The per-share yield indices. *)
Definition grow_indices (s : SubVault) (delta loan_yield : Z) : result SubVault :=
  if 0 <? sv_total_shares s then
    s ← (if 0 <? delta then
           growth ← mul_div delta ACCRUE_INDEX_SCALE (sv_total_shares s) false;
           idx ← ok_or (checked_add U128 (sv_cumulative_supply_yield_index_scaled s) growth)
                       ArithmeticOverflow;
           mret (s <| sv_cumulative_supply_yield_index_scaled := idx |>)
         else Ok s);
    growth ← mul_div loan_yield ACCRUE_INDEX_SCALE (sv_total_shares s) false;
    idx ← ok_or (checked_add U128 (sv_cumulative_delta_yield_index_scaled s) growth)
                ArithmeticOverflow;
    mret (s <| sv_cumulative_delta_yield_index_scaled := idx |>)
  else Ok s.

(** The closing stamps of an accrual. *)
Definition stamp_accrual (s : SubVault) (now : Z) (current : Fp48) : SubVault :=
  let s := s <| sv_last_accrue_unix := now |> in
  if fp48_is_zero current then s else s <| sv_last_supply_share_value_fp48 := current |>.

Definition accrue_sub_vault (s : SubVault) (now : Z) (current : Fp48) : result SubVault :=
  if now <=? sv_last_accrue_unix s then Ok s else
  if sv_total_principal_atoms s =? 0 then Ok (stamp_accrual s now current) else
  elapsed ← ok_or (d ← checked_sub_i 64 now (sv_last_accrue_unix s);
                   if 0 <=? d then Some d else None) ArithmeticOverflow;
  denom ← ok_or (checked_mul U128 BPS_PER_UNIT SECONDS_PER_YEAR) ArithmeticOverflow;
  undeployed ← ok_or (checked_sub (sv_total_principal_atoms s) (sv_deployed_principal_atoms s))
                     ArithmeticOverflow;
  idle ← ok_or (checked_sub undeployed (sv_pending_claim_atoms s)) ArithmeticOverflow;
  delta ← idle_delta s idle current;
  loan_yield ← mul_div (sv_total_weighted_net_rate_bps s) elapsed denom false;
  s ← apply_idle_delta s delta;
  if umax U64 <? loan_yield then Err MathOverflow else
  assets ← ok_or (checked_add U64 (sv_total_assets_atoms s) loan_yield) ArithmeticOverflow;
  let s := s <| sv_total_assets_atoms := assets |> in
  s ← grow_indices s delta loan_yield;
  mret (restore_assets_principal_invariant (stamp_accrual s now current)).

(** ** The accounting invariant *)

(** Every field in its type; the atoms out on loans or awaiting a claim are part
    of the principal, and the assets never fall below the principal. *)
Record sub_vault_wf (s : SubVault) : Prop := {
  sw_assets : in_u U64 (sv_total_assets_atoms s);
  sw_principal : 0 <= sv_total_principal_atoms s <= sv_total_assets_atoms s;
  sw_deployed : 0 <= sv_deployed_principal_atoms s;
  sw_pending : 0 <= sv_pending_claim_atoms s;
  sw_backed : sv_deployed_principal_atoms s + sv_pending_claim_atoms s
              <= sv_total_principal_atoms s;
  sw_shares : in_u U128 (sv_total_shares s);
  sw_net_rate : in_u U128 (sv_total_weighted_net_rate_bps s);
  sw_supply_index : in_u U128 (sv_cumulative_supply_yield_index_scaled s);
  sw_delta_index : in_u U128 (sv_cumulative_delta_yield_index_scaled s);
  sw_snapshot : in_u U128 (raw (sv_last_supply_share_value_fp48 s));
  sw_last : 0 <= sv_last_accrue_unix s < 2 ^ 63 }.

#[export] Instance sub_vault_wf_dec s : Decision (sub_vault_wf s).
Proof.
  refine (cast_if (decide (in_u U64 (sv_total_assets_atoms s)
    ∧ 0 <= sv_total_principal_atoms s <= sv_total_assets_atoms s
    ∧ 0 <= sv_deployed_principal_atoms s ∧ 0 <= sv_pending_claim_atoms s
    ∧ sv_deployed_principal_atoms s + sv_pending_claim_atoms s <= sv_total_principal_atoms s
    ∧ in_u U128 (sv_total_shares s) ∧ in_u U128 (sv_total_weighted_net_rate_bps s)
    ∧ in_u U128 (sv_cumulative_supply_yield_index_scaled s)
    ∧ in_u U128 (sv_cumulative_delta_yield_index_scaled s)
    ∧ in_u U128 (raw (sv_last_supply_share_value_fp48 s))
    ∧ 0 <= sv_last_accrue_unix s < 2 ^ 63)));
    abstract (first [split; tauto | intros []; tauto]).
Defined.

(** The idle atoms at the current share value. *)
Definition idle_atoms (s : SubVault) : Z :=
  sv_total_principal_atoms s - sv_deployed_principal_atoms s - sv_pending_claim_atoms s.

Definition idle_marked (s : SubVault) (current : Fp48) : Z :=
  let snapshot := sv_last_supply_share_value_fp48 s in
  if (0 <? idle_atoms s) && negb (fp48_is_zero current) && negb (fp48_is_zero snapshot)
  then idle_atoms s * raw current / raw snapshot
  else idle_atoms s.

(** The loan yield of [now - last_accrue_unix] seconds. *)
Definition loan_yield_at (s : SubVault) (now : Z) : Z :=
  sv_total_weighted_net_rate_bps s * (now - sv_last_accrue_unix s) / INTEREST_DENOM.

(** ** Lemmas *)

Lemma idle_delta_Ok s current d :
  sub_vault_wf s → in_u U128 (raw current) →
  idle_delta s (idle_atoms s) current = Ok d →
  d = idle_marked s current - idle_atoms s ∧ 0 <= idle_marked s current <= umax U64.
Proof.
  intros Hwf Hc H. destruct Hwf. unfold idle_delta, idle_marked in *.
  assert (0 <= idle_atoms s < 2 ^ 64) as Hi by (unfold idle_atoms; zlia).
  destruct (0 <? idle_atoms s) eqn:E1; simpl in *; [|injection H as <-; zlia].
  destruct (fp48_is_zero current) eqn:E2; simpl in *; [injection H as <-; zlia|].
  unfold fp48_is_zero in *.
  destruct (Z.eqb_spec (raw (sv_last_supply_share_value_fp48 s)) 0) as [E3|E3]; simpl in *.
  { injection H as <-. zlia. }
  apply bind_Ok in H as (v & Hv & H). apply mul_div_floor_Ok in Hv as (_ & -> & _); [|zlia..].
  destruct (Z.ltb_spec (umax U64)
    (idle_atoms s * raw current / raw (sv_last_supply_share_value_fp48 s))); [done|].
  injection H as <-. split; [done|]. split; [apply Z.div_pos; unfold in_u in *; nia|done].
Qed.

Lemma apply_idle_delta_Ok s d s' :
  sub_vault_wf s → - sv_total_principal_atoms s <= d → apply_idle_delta s d = Ok s' →
  s' = s <| sv_total_assets_atoms := sv_total_assets_atoms s + d |>
         <| sv_total_principal_atoms := sv_total_principal_atoms s + d |>
  ∧ sv_total_assets_atoms s + d <= umax U64.
Proof.
  intros Hwf Hd H. destruct Hwf. unfold apply_idle_delta in H. destruct (Z.leb_spec 0 d).
  - apply bind_Ok in H as (g & Hg & H). apply ok_or_Ok, try_from_Some in Hg as [-> Hg].
    apply bind_Ok in H as (a & Ha & H). apply ok_or_Ok, checked_add_Some in Ha as [-> Ha].
    apply bind_Ok in H as (p & Hp & H). apply ok_or_Ok, checked_add_Some in Hp as [-> Hp].
    injection H as <-. split; [done|zlia].
  - apply bind_Ok in H as (g & Hg & H). apply ok_or_Ok, try_from_Some in Hg as [-> Hg].
    injection H as <-. unfold saturating_sub. simpl. rewrite !Z.max_r by lia.
    split; [f_equal; lia|zlia].
Qed.

(** The index growth never hands out more than the yield. *)
Lemma grow_indices_Ok s d y s' :
  sub_vault_wf s → 0 <= y → in_i 128 d → y < 2 ^ 128 → grow_indices s d y = Ok s' →
  ∃ gs gd, s' = s <| sv_cumulative_supply_yield_index_scaled ::= Z.add gs |>
                  <| sv_cumulative_delta_yield_index_scaled ::= Z.add gd |>
    ∧ 0 <= gs ∧ 0 <= gd
    ∧ gs * sv_total_shares s <= Z.max 0 d * ACCRUE_INDEX_SCALE
    ∧ gd * sv_total_shares s <= y * ACCRUE_INDEX_SCALE
    ∧ gs + sv_cumulative_supply_yield_index_scaled s < 2 ^ 128
    ∧ gd + sv_cumulative_delta_yield_index_scaled s < 2 ^ 128.
Proof.
  intros Hwf Hy Hd Hyu H. destruct Hwf. unfold grow_indices in H.
  assert (in_u U128 ACCRUE_INDEX_SCALE) as Hs by done.
  destruct (Z.ltb_spec 0 (sv_total_shares s)) as [Hsh|Hsh].
  2:{ injection H as <-. exists 0, 0. split; [by destruct s|]. split_and!; zlia. }
  assert (∀ x g, 0 <= x < 2 ^ 128 → mul_div x ACCRUE_INDEX_SCALE (sv_total_shares s) false = Ok g →
    0 <= g ∧ g * sv_total_shares s <= x * ACCRUE_INDEX_SCALE) as Hg.
  { intros x g Hx Hg. pose proof (mul_div_range _ _ _ _ _ Hg) as [? _].
    apply mul_div_floor_Ok in Hg as (_ & -> & _); [|done..].
    pose proof (Z.mul_div_le (x * ACCRUE_INDEX_SCALE) (sv_total_shares s) Hsh). lia. }
  apply bind_Ok in H as (s1 & Hs1 & H).
  assert (∃ gs, s1 = s <| sv_cumulative_supply_yield_index_scaled ::= Z.add gs |> ∧ 0 <= gs
    ∧ gs * sv_total_shares s <= Z.max 0 d * ACCRUE_INDEX_SCALE
    ∧ gs + sv_cumulative_supply_yield_index_scaled s < 2 ^ 128) as (gs & -> & Hgs0 & Hgs & Hgs').
  { destruct (Z.ltb_spec 0 d).
    - apply bind_Ok in Hs1 as (g & Hg1 & Hs1). apply Hg in Hg1 as [? ?]; [|zlia].
      apply bind_Ok in Hs1 as (i & Hi & Hs1). apply ok_or_Ok, checked_add_Some in Hi as [-> Hi].
      injection Hs1 as <-. exists g. rewrite Z.max_r by lia. split; [|lia].
      simpl. f_equal; lia.
    - injection Hs1 as <-. exists 0. split; [by destruct s|]. zlia. }
  simpl in H. apply bind_Ok in H as (g & Hg1 & H). apply Hg in Hg1 as [? ?]; [|lia].
  apply bind_Ok in H as (i & Hi & H). apply ok_or_Ok, checked_add_Some in Hi as [-> Hi].
  injection H as <-. exists gs, g. split; [|lia]. simpl. f_equal; lia.
Qed.

(** The success branch of an accrual that does work. *)
Lemma accrue_sub_vault_inv s now current s' :
  sub_vault_wf s → in_u U128 (raw current) → sv_last_accrue_unix s < now →
  sv_total_principal_atoms s ≠ 0 → accrue_sub_vault s now current = Ok s' →
  let d := idle_marked s current - idle_atoms s in
  let y := loan_yield_at s now in
  0 <= idle_marked s current <= umax U64 ∧ 0 <= y <= umax U64
  ∧ sv_total_assets_atoms s + d + y <= umax U64
  ∧ ∃ gs gd, 0 <= gs ∧ 0 <= gd
    ∧ gs * sv_total_shares s <= Z.max 0 d * ACCRUE_INDEX_SCALE
    ∧ gd * sv_total_shares s <= y * ACCRUE_INDEX_SCALE
    ∧ gs + sv_cumulative_supply_yield_index_scaled s < 2 ^ 128
    ∧ gd + sv_cumulative_delta_yield_index_scaled s < 2 ^ 128
    ∧ s' = stamp_accrual
        (s <| sv_total_assets_atoms := sv_total_assets_atoms s + d + y |>
           <| sv_total_principal_atoms := sv_total_principal_atoms s + d |>
           <| sv_cumulative_supply_yield_index_scaled ::= Z.add gs |>
           <| sv_cumulative_delta_yield_index_scaled ::= Z.add gd |>) now current.
Proof.
  intros Hwf Hc Hnow Hp H d y. pose proof Hwf as Hwf'. destruct Hwf'.
  unfold accrue_sub_vault in H.
  rewrite (proj2 (Z.leb_gt now _)) in H by lia. rewrite (proj2 (Z.eqb_neq _ 0)) in H by done.
  apply bind_Ok in H as (e & He & H). apply ok_or_Ok, bind_Some in He as (e' & He' & He).
  apply checked_sub_i_Some in He' as [-> He']. rewrite (proj2 (Z.leb_le 0 _)) in He by lia.
  injection He as <-.
  change (ok_or (checked_mul U128 BPS_PER_UNIT SECONDS_PER_YEAR) ArithmeticOverflow)
    with (Ok INTEREST_DENOM) in H. cbn [mbind result_bind] in H.
  apply bind_Ok in H as (u & Hu & H). apply ok_or_Ok, checked_sub_Some in Hu as [-> Hu].
  apply bind_Ok in H as (i & Hi & H). apply ok_or_Ok, checked_sub_Some in Hi as [-> Hi].
  fold (idle_atoms s) in H.
  apply bind_Ok in H as (d' & Hd & H). apply idle_delta_Ok in Hd as [-> Hm]; [|done..]. fold d in H.
  apply bind_Ok in H as (y' & Hy & H). pose proof (mul_div_range _ _ _ _ _ Hy) as Hyr.
  apply mul_div_floor_Ok in Hy as (_ & -> & _); [|done|zlia|done].
  fold (loan_yield_at s now) in H, Hyr. fold y in H, Hyr.
  assert (- sv_total_principal_atoms s <= d) by (subst d; unfold idle_atoms in *; lia).
  apply bind_Ok in H as (s1 & Hs1 & H). apply apply_idle_delta_Ok in Hs1 as [-> Ha]; [|done..].
  destruct (Z.ltb_spec (umax U64) y); [done|].
  apply bind_Ok in H as (a & Ha' & H). apply ok_or_Ok, checked_add_Some in Ha' as [-> Ha'].
  simpl in Ha'. apply bind_Ok in H as (s2 & Hs2 & H). injection H as <-.
  split; [done|]. split; [unfold in_u in Hyr; lia|]. split; [zlia|].
  apply grow_indices_Ok in Hs2 as (gs & gd & -> & ? & ? & ? & ? & ? & ?); simpl in *.
  - exists gs, gd. split_and!; try done.
    unfold restore_assets_principal_invariant, stamp_accrual, fp48_is_zero. simpl.
    destruct (raw current =? 0); simpl; rewrite (proj2 (Z.ltb_ge _ _)) by (unfold in_u in Hyr; lia);
      done.
  - split; simpl; try done; unfold in_u in Hyr; subst d; unfold idle_atoms in *; zlia.
  - apply Hyr.
  - subst d. unfold idle_atoms in *. zlia.
  - zlia.
Qed.

Lemma stamp_accrual_wf s now current :
  sub_vault_wf s → in_u U128 (raw current) → 0 <= now < 2 ^ 63 →
  sub_vault_wf (stamp_accrual s now current).
Proof.
  intros [] Hc Hnow. unfold stamp_accrual. destruct (fp48_is_zero current); split; simpl; done.
Qed.

Lemma accrue_sub_vault_wf (s s' : SubVault) (now : Z) (current : Fp48)
    (Hwf : sub_vault_wf s) (Hc : in_u U128 (raw current)) (Hnow : now < 2 ^ 63)
    (H : accrue_sub_vault s now current = Ok s') :
  sub_vault_wf s' ∧ sv_last_accrue_unix s' = Z.max now (sv_last_accrue_unix s).
Proof.
  destruct (Z.le_gt_cases now (sv_last_accrue_unix s)) as [Hle|Hgt].
  { unfold accrue_sub_vault in H. rewrite (proj2 (Z.leb_le _ _)) in H by lia. injection H as <-.
    split; [done|lia]. }
  assert (∀ t, sv_last_accrue_unix (stamp_accrual t now current) = now) as Hst.
  { intros t. unfold stamp_accrual. by destruct (fp48_is_zero current). }
  destruct (Z.eq_dec (sv_total_principal_atoms s) 0) as [Hz|Hnz].
  { unfold accrue_sub_vault in H. rewrite (proj2 (Z.leb_gt _ _)) in H by lia.
    rewrite Hz in H. injection H as <-. rewrite Hst. split; [|lia].
    apply stamp_accrual_wf; try done. destruct Hwf. lia. }
  apply accrue_sub_vault_inv in H
    as ((? & ?) & (? & ?) & ? & gs & gd & ? & ? & ? & ? & ? & ? & ->); try done.
  rewrite Hst. split; [|lia]. apply stamp_accrual_wf; [|done|destruct Hwf; lia].
  destruct Hwf. split; simpl; try done; unfold idle_atoms in *; zlia.
Qed.

(** ** Properties *)

(** C28: sub-vault accrual marks the vault to market.  When a sub-vault with
    principal accrues, its idle atoms are revalued at the new marginfi share
    value, so the principal is what is deployed, what awaits a claim and the
    revalued idle; the assets move by the same revaluation plus the loan yield;
    the timestamp and the share-value snapshot advance; and shares, deployed,
    pending and encumbered atoms are untouched. *)
Theorem accrue_sub_vault_marks_to_market (s s' : SubVault) (now : Z) (current : Fp48)
    (Hwf : sub_vault_wf s) (Hc : in_u U128 (raw current))
    (Hnow : sv_last_accrue_unix s < now) (Hp : sv_total_principal_atoms s ≠ 0)
    (H : accrue_sub_vault s now current = Ok s') :
  sv_total_principal_atoms s'
    = sv_deployed_principal_atoms s + sv_pending_claim_atoms s + idle_marked s current
  ∧ sv_total_assets_atoms s'
    = sv_total_assets_atoms s + (idle_marked s current - idle_atoms s) + loan_yield_at s now
  ∧ sv_last_accrue_unix s' = now
  ∧ sv_last_supply_share_value_fp48 s'
    = (if fp48_is_zero current then sv_last_supply_share_value_fp48 s else current)
  ∧ sv_total_shares s' = sv_total_shares s
  ∧ sv_deployed_principal_atoms s' = sv_deployed_principal_atoms s
  ∧ sv_pending_claim_atoms s' = sv_pending_claim_atoms s
  ∧ sv_encumbered_in_orders_atoms s' = sv_encumbered_in_orders_atoms s.
Proof.
  apply accrue_sub_vault_inv in H as (_ & _ & _ & gs & gd & _ & _ & _ & _ & _ & _ & ->); try done.
  unfold stamp_accrual. destruct (fp48_is_zero current); simpl; split_and!; try done;
    unfold idle_atoms; lia.
Qed.

(** A pool with 1000 idle, 4000 deployed and 200 pending at 1.0, holding 10% loans. *)
Definition sample_sub_vault : SubVault :=
  sub_vault_new_empty 3 9 8000 2592000
    <| sv_total_shares := 5000 * SCALE |> <| sv_total_assets_atoms := 5300 |>
    <| sv_total_principal_atoms := 5200 |> <| sv_deployed_principal_atoms := 4000 |>
    <| sv_pending_claim_atoms := 200 |> <| sv_total_weighted_net_rate_bps := 4000000 |>
    <| sv_last_accrue_unix := 1700000000 |> <| sv_last_supply_share_value_fp48 := fp48_ONE |>.

Lemma accrue_sub_vault_marks_to_market_witness :
  match accrue_sub_vault sample_sub_vault 1702592000 (from_raw (SCALE + SCALE / 50)) with
  | Ok s' => sv_total_principal_atoms s' = 4000 + 200 + 1019
             ∧ sv_total_assets_atoms s' = 5300 + (1019 - 1000) + 32
  | Err _ => False
  end.
Proof.
  destruct (accrue_sub_vault _ _ _) as [s'|e] eqn:E; [|vm_compute in E; discriminate E].
  destruct (accrue_sub_vault_marks_to_market sample_sub_vault s' 1702592000
    (from_raw (SCALE + SCALE / 50))) as (Hp & Ha & _);
    [apply (bool_decide_unpack _); vm_compute; exact I|vm_compute; split; congruence
    |vm_compute; reflexivity|vm_compute; congruence|exact E|].
  split; [rewrite Hp|rewrite Ha]; vm_compute; reflexivity.
Defined.

(** Accrual preserves the sub-vault invariant.  From a well-formed
    sub-vault, a successful accrual at any time and share value yields a
    well-formed one, in particular with assets at least the principal and the
    principal at least what is deployed or pending; and the timestamp never goes
    back. *)
Theorem accrue_sub_vault_preserves (s s' : SubVault) (now : Z) (current : Fp48)
    (Hwf : sub_vault_wf s) (Hc : in_u U128 (raw current)) (Hnow : now < 2 ^ 63)
    (H : accrue_sub_vault s now current = Ok s') :
  sub_vault_wf s' ∧ sv_last_accrue_unix s' = Z.max now (sv_last_accrue_unix s).
Proof. by apply (accrue_sub_vault_wf s s' now current). Qed.

Lemma accrue_sub_vault_preserves_witness :
  match accrue_sub_vault sample_sub_vault 1702592000 (from_raw (SCALE / 2)) with
  | Ok s' => sub_vault_wf s'
  | Err _ => False
  end.
Proof.
  destruct (accrue_sub_vault _ _ _) as [s'|e] eqn:E; [|vm_compute in E; discriminate E].
  refine (proj1 (accrue_sub_vault_preserves sample_sub_vault s' 1702592000
    (from_raw (SCALE / 2)) _ _ _ E));
    [apply (bool_decide_unpack _); vm_compute; exact I|vm_compute; split; congruence|lia].
Defined.

(** C29: the yield indices hand out no more than was earned.  Over a successful
    accrual both cumulative indices only grow, and the growth times the shares
    outstanding is at most the idle gain, respectively the loan yield, at the
    index scale. *)
Theorem accrue_sub_vault_indices_bounded (s s' : SubVault) (now : Z) (current : Fp48)
    (Hwf : sub_vault_wf s) (Hc : in_u U128 (raw current))
    (Hnow : sv_last_accrue_unix s < now) (Hp : sv_total_principal_atoms s ≠ 0)
    (H : accrue_sub_vault s now current = Ok s') :
  let gs := sv_cumulative_supply_yield_index_scaled s' - sv_cumulative_supply_yield_index_scaled s in
  let gd := sv_cumulative_delta_yield_index_scaled s' - sv_cumulative_delta_yield_index_scaled s in
  0 <= gs ∧ 0 <= gd
  ∧ gs * sv_total_shares s
      <= Z.max 0 (idle_marked s current - idle_atoms s) * ACCRUE_INDEX_SCALE
  ∧ gd * sv_total_shares s <= loan_yield_at s now * ACCRUE_INDEX_SCALE.
Proof.
  apply accrue_sub_vault_inv in H as (_ & _ & _ & gs & gd & ? & ? & ? & ? & _ & _ & ->); try done.
  unfold stamp_accrual. destruct (fp48_is_zero current); simpl;
    rewrite !Z.add_simpl_r; split_and!; done.
Qed.

Lemma accrue_sub_vault_indices_bounded_witness :
  match accrue_sub_vault sample_sub_vault 1702592000 (from_raw (SCALE + SCALE / 50)) with
  | Ok s' => 0 <= sv_cumulative_delta_yield_index_scaled s'
                  - sv_cumulative_delta_yield_index_scaled sample_sub_vault
  | Err _ => False
  end.
Proof.
  destruct (accrue_sub_vault _ _ _) as [s'|e] eqn:E; [|vm_compute in E; discriminate E].
  refine (proj1 (proj2 (accrue_sub_vault_indices_bounded sample_sub_vault s' 1702592000
    (from_raw (SCALE + SCALE / 50)) _ _ _ _ E)));
    [apply (bool_decide_unpack _); vm_compute; exact I|vm_compute; split; congruence
    |vm_compute; reflexivity|vm_compute; congruence].
Defined.
