(* ===== verification/Hypertree.v ===== *)
(** * The hypertree library ([lib/src])

    The intrusive free list ([free_list.rs]) and red-black tree
    ([red_black_tree.rs], [hypertree.rs]) that live in the dynamic region of an
    account, operation by operation and pointer by pointer.

    The byte array is a store of typed blocks: a [DataIndex] (byte offset) names a
    block, and reading a node of type [V] at an index that holds no such node
    panics, where the Rust code would reinterpret the bytes.  A [while] loop gets
    fuel from the size of the store; running out of it is the exhausted compute
    budget, and aborts the instruction like a panic. *)
From stdpp Require Import base numbers list option gmap.
From S2P Require Import Prelude.
Local Open Scope Z_scope.

(** ** Nodes and stores *)

Inductive Color := Black | Red.

#[export] Instance Color_eq_dec : EqDecision Color.
Proof. solve_decision. Defined.

Record RBNode (V : Type) := mkRBNode {
  rb_left : Z;
  rb_right : Z;
  rb_parent : Z;
  rb_color : Color;
  rb_payload_type : Z;
  rb_value : V }.
Arguments mkRBNode {V} _ _ _ _ _ _.
Arguments rb_left {V} _.
Arguments rb_right {V} _.
Arguments rb_parent {V} _.
Arguments rb_color {V} _.
Arguments rb_payload_type {V} _.
Arguments rb_value {V} _.

#[export] Instance eta_RBNode V : Eta (RBNode V) := λ n,
  mkRBNode (rb_left n) (rb_right n) (rb_parent n) (rb_color n) (rb_payload_type n) (rb_value n).

(** A node of a free list: the next index of the list. *)
Record FreeListNode := mkFreeListNode { fl_next : Z }.

(** The payloads a tree stores: [Ord] and [PartialEq]. *)
Class Payload (V : Type) := {
  payload_cmp : V → V → comparison;
  payload_eqb : V → V → bool }.

(** How the blocks [B] of an account hold values of type [A]. *)
Class BlockOf (B A : Type) := {
  to_block : A → B;
  of_block : B → option A;
  of_to_block a : of_block (to_block a) = Some a;
  to_of_block b a : of_block b = Some a → b = to_block a }.

(** The dynamic region: the allocated blocks by index. *)
Abbreviation Region B := (gmap Z B).

Definition region_get {B A} `{BlockOf B A} (d : Region B) (i : Z) : result A :=
  ok_or (b ← d !! i; of_block b) Panic.

(** [*get_mut_helper(data, index) = a]: the block must exist. *)
Definition region_set {B A} `{BlockOf B A} (d : Region B) (i : Z) (a : A) : result (Region B) :=
  match d !! i with
  | Some _ => Ok (<[i := to_block a]> d)
  | None => Err Panic
  end.

(** [get_mut_helper(data, index).get_mut_value()] and an update of the value. *)
Definition modify_value {B V} `{BlockOf B (RBNode V)} (d : Region B) (i : Z) (f : V → result V)
    : result (Region B) :=
  node ← region_get d i;
  v ← f (rb_value node);
  region_set d i (node <| rb_value := v |>).

(** [get_helper(data, index).get_value()]. *)
Definition read_value {B V} `{BlockOf B (RBNode V)} (d : Region B) (i : Z) : result V :=
  rb_value <$> region_get d i.

(** ** The free list *)

Section FreeList.
  Context {B : Type} `{BlockOf B FreeListNode}.

(** [FreeList::add]: [get_mut_helper] reinterprets whatever the block held. *)
Definition free_list_add (d : Region B) (head index : Z) : result (Region B * Z) :=
  d ← region_set d index (mkFreeListNode head);
  mret (d, index).

(** [FreeList::remove]: the popped index, or [NIL] on an empty list. *)
Definition free_list_remove (d : Region B) (head : Z) : result (Region B * Z * Z) :=
  if head =? NIL then Ok (d, head, NIL) else
  node ← region_get d head;
  d ← region_set d head (mkFreeListNode 0);
  mret (d, fl_next node, head).
End FreeList.

(** ** The tree *)

(** [RedBlackTree]: the region, the root and the optional maximum. *)
Record Tree (B : Type) := mkTree { t_data : Region B; t_root : Z; t_max : Z }.
Arguments mkTree {B} _ _ _.
Arguments t_data {B} _.
Arguments t_root {B} _.
Arguments t_max {B} _.

#[export] Instance eta_Tree B : Eta (Tree B) := λ t, mkTree (t_data t) (t_root t) (t_max t).

Section RedBlackTree.
  Context {B V : Type} `{BlockOf B (RBNode V)} `{Payload V}.
  Implicit Types (t : Tree B) (i : Z).

(** *** Reads *)

Definition get_node t i : result (RBNode V) := region_get (t_data t) i.

Definition get_value t i : result V := rb_value <$> get_node t i.

Definition get_color t i : result Color :=
  if i =? NIL then Ok Black else rb_color <$> get_node t i.

Definition get_right_index t i : result Z :=
  if i =? NIL then Ok NIL else rb_right <$> get_node t i.

Definition get_left_index t i : result Z :=
  if i =? NIL then Ok NIL else rb_left <$> get_node t i.

Definition get_parent_index t i : result Z :=
  if i =? NIL then Ok NIL else rb_parent <$> get_node t i.

Definition is_left_child t i : result bool :=
  if i =? t_root t then Ok false else
  parent ← get_parent_index t i;
  left ← get_left_index t parent;
  mret (left =? i).

Definition is_right_child t i : result bool :=
  if i =? t_root t then Ok false else
  parent ← get_parent_index t i;
  right ← get_right_index t parent;
  mret (right =? i).

Definition get_child_index t i : result Z :=
  left ← get_left_index t i;
  if negb (left =? NIL) then Ok left else get_right_index t i.

Definition is_internal t i : result bool :=
  right ← get_right_index t i;
  left ← get_left_index t i;
  mret (negb (right =? NIL) && negb (left =? NIL)).

Definition get_sibling_index t i parent : result Z :=
  parent_left ← get_left_index t parent;
  if parent_left =? i then get_right_index t parent else Ok parent_left.

(** *** Writes *)

(** [get_mut_helper] and an update of one node. *)
Definition modify_node t i (f : RBNode V → RBNode V) : result (Tree B) :=
  node ← get_node t i;
  d ← region_set (t_data t) i (f node);
  mret (t <| t_data := d |>).

Definition set_color t i (c : Color) : result (Tree B) :=
  if i =? NIL then Ok t else modify_node t i (λ n, n <| rb_color := c |>).

Definition set_parent_index t i (p : Z) : result (Tree B) :=
  if i =? NIL then Ok t else modify_node t i (λ n, n <| rb_parent := p |>).

Definition set_left_index t i (l : Z) : result (Tree B) :=
  if i =? NIL then Ok t else modify_node t i (λ n, n <| rb_left := l |>).

Definition set_right_index t i (r : Z) : result (Tree B) :=
  if i =? NIL then Ok t else modify_node t i (λ n, n <| rb_right := r |>).

(** The part of a rotation that hangs [p] below [gg] in place of [g]. *)
Definition relink_grandparent t (g p gg : Z) : result (Tree B) :=
  if gg =? NIL then Ok t else
  left ← get_left_index t gg;
  t ← (if left =? g then set_left_index t gg p else Ok t);
  right ← get_right_index t gg;
  if right =? g then set_right_index t gg p else Ok t.

Definition rotate_left t (index : Z) : result (Tree B) :=
  let g := index in
  p ← get_right_index t g;
  y ← get_left_index t p;
  gg ← get_parent_index t index;
  t ← modify_node t p (λ n, n <| rb_parent := gg |> <| rb_left := g |>);
  t ← set_parent_index t y g;
  t ← modify_node t g (λ n, n <| rb_parent := p |> <| rb_right := y |>);
  t ← relink_grandparent t g p gg;
  if t_root t =? g then Ok (t <| t_root := p |>) else Ok t.

Definition rotate_right t (index : Z) : result (Tree B) :=
  let g := index in
  p ← get_left_index t g;
  y ← get_right_index t p;
  gg ← get_parent_index t index;
  t ← modify_node t p (λ n, n <| rb_parent := gg |> <| rb_right := g |>);
  t ← set_parent_index t y g;
  t ← modify_node t g (λ n, n <| rb_parent := p |> <| rb_left := y |>);
  t ← relink_grandparent t g p gg;
  if t_root t =? g then Ok (t <| t_root := p |>) else Ok t.

Definition swap_node_with_successor t (i0 i1 : Z) : result (Tree B) :=
  parent_0 ← get_parent_index t i0;
  parent_1 ← get_parent_index t i1;
  left_0 ← get_left_index t i0;
  left_1 ← get_left_index t i1;
  right_0 ← get_right_index t i0;
  right_1 ← get_right_index t i1;
  is_left_0 ← is_left_child t i0;
  is_left_1 ← is_left_child t i1;
  t ← (if is_left_0 : bool then set_left_index t parent_0 i1 else set_right_index t parent_0 i1);
  t ← (if is_left_1 : bool then set_left_index t parent_1 i0 else set_right_index t parent_1 i0);
  t ← set_left_index t i0 left_1;
  t ← set_right_index t i0 right_1;
  t ← set_parent_index t i0 parent_1;
  t ← set_left_index t i1 left_0;
  t ← set_right_index t i1 right_0;
  t ← set_parent_index t i1 parent_0;
  t ← set_parent_index t left_0 i1;
  t ← set_parent_index t left_1 i0;
  t ← set_parent_index t right_0 i1;
  t ← set_parent_index t right_1 i0;
  t ← (if parent_1 =? i0 then
         t ← set_parent_index t i0 i1;
         t ← set_parent_index t i1 parent_0;
         set_right_index t i1 i0
       else Ok t);
  let t := if t_root t =? i0 then t <| t_root := i1 |> else t in
  color_0 ← get_color t i0;
  color_1 ← get_color t i1;
  t ← set_color t i0 color_1;
  set_color t i1 color_0.

Definition update_parent_child t (index : Z) : result (Tree B) :=
  parent ← get_parent_index t index;
  child ← get_child_index t index;
  t ← set_parent_index t child parent;
  left ← is_left_child t index;
  t ← (if left : bool then set_left_index t parent child else set_right_index t parent child);
  if t_root t =? index then Ok (t <| t_root := child |>) else Ok t.

(** *** Lookups

    [fuel_of] bounds every walk: a loop that visits no node twice stops within
    it. *)
Definition fuel_of t : nat := S (S (2 * size (t_data t)))%nat.

(** The explicit-stack search of [lookup_index]; the head of the list is the top
    of the stack. *)
Fixpoint lookup_loop (fuel : nat) t (value : V) (stack : list Z) : result Z :=
  match fuel with
  | O => Err Panic
  | S fuel =>
    match stack with
    | [] => Ok NIL
    | current :: stack =>
      if current =? NIL then lookup_loop fuel t value stack else
      v ← get_value t current;
      match payload_cmp v value with
      | Eq =>
          if payload_eqb v value then Ok current else
          left ← get_left_index t current;
          right ← get_right_index t current;
          lookup_loop fuel t value (right :: left :: stack)
      | Gt => left ← get_left_index t current; lookup_loop fuel t value (left :: stack)
      | Lt => right ← get_right_index t current; lookup_loop fuel t value (right :: stack)
      end
    end
  end.

Definition lookup_index t (value : V) : result Z :=
  if t_root t =? NIL then Ok NIL else lookup_loop (fuel_of t) t value [t_root t].

(** Follows right (or left) links to the end. *)
Fixpoint rightmost (fuel : nat) t (current : Z) : result Z :=
  match fuel with
  | O => Err Panic
  | S fuel =>
      right ← get_right_index t current;
      if right =? NIL then Ok current else rightmost fuel t right
  end.

Fixpoint leftmost (fuel : nat) t (current : Z) : result Z :=
  match fuel with
  | O => Err Panic
  | S fuel =>
      left ← get_left_index t current;
      if left =? NIL then Ok current else leftmost fuel t left
  end.

Definition lookup_max_index t : result Z :=
  if t_root t =? NIL then Ok NIL else rightmost (fuel_of t) t (t_root t).

Definition get_max_index t : Z := t_max t.
Definition get_root_index t : Z := t_root t.

(** Climbs while the node is a left child. *)
Fixpoint climb_left (fuel : nat) t (current : Z) : result Z :=
  match fuel with
  | O => Err Panic
  | S fuel =>
      is_left ← is_left_child t current;
      if is_left : bool then parent ← get_parent_index t current; climb_left fuel t parent
      else Ok current
  end.

Definition get_next_lower_index t (index : Z) : result Z :=
  if index =? NIL then Ok NIL else
  left ← get_left_index t index;
  if negb (left =? NIL) then rightmost (fuel_of t) t left else
  current ← climb_left (fuel_of t) t index;
  get_parent_index t current.

Definition get_next_higher_index t (index : Z) : result Z :=
  right ← get_right_index t index;
  leftmost (fuel_of t) t right.

(** [HyperTreeValueIteratorTrait::iter]: the indices from the maximum down. *)
Fixpoint iter_from (fuel : nat) t (index : Z) : result (list Z) :=
  match fuel with
  | O => Err Panic
  | S fuel =>
      if index =? NIL then Ok [] else
      next ← get_next_lower_index t index;
      rest ← iter_from fuel t next;
      mret (index :: rest)
  end.

Definition iter_indices t : result (list Z) :=
  start ← (if t_max t =? NIL then lookup_max_index t else Ok (t_max t));
  iter_from (fuel_of t) t start.

(** *** Insertion *)

Definition new_node (color : Color) (value : V) : RBNode V := mkRBNode NIL NIL NIL color 0 value.

(** The descent of [insert_node_no_fix]: the node to hang the new one below. *)
Fixpoint insert_descend (fuel : nat) t (value : V) (current : Z) : result Z :=
  match fuel with
  | O => Err Panic
  | S fuel =>
      node ← get_node t current;
      if (rb_left node =? NIL) && (rb_right node =? NIL) then Ok current else
      match payload_cmp value (rb_value node) with
      | Gt => if negb (rb_right node =? NIL) then insert_descend fuel t value (rb_right node)
              else Ok current
      | _ => if negb (rb_left node =? NIL) then insert_descend fuel t value (rb_left node)
             else Ok current
      end
  end.

Definition insert_node_no_fix t (node_to_insert : RBNode V) (index : Z) : result (Tree B) :=
  parent ← insert_descend (fuel_of t) t (rb_value node_to_insert) (t_root t);
  node ← get_node t parent;
  t ← (match payload_cmp (rb_value node) (rb_value node_to_insert) with
       | Lt => set_right_index t parent index
       | _ => set_left_index t parent index
       end);
  d ← region_set (t_data t) index (node_to_insert <| rb_parent := parent |>);
  mret (t <| t_data := d |>).

Definition insert_fix t (index_to_fix : Z) : result (Tree B * Z) :=
  if t_root t =? index_to_fix then
    t ← set_color t index_to_fix Black; mret (t, NIL)
  else
  parent ← get_parent_index t index_to_fix;
  parent_color ← get_color t parent;
  if bool_decide (parent_color = Black) then Ok (t, NIL) else
  grandparent ← get_parent_index t parent;
  grandparent_left ← get_left_index t grandparent;
  uncle ← (if grandparent_left =? parent then get_right_index t grandparent
           else get_left_index t grandparent);
  uncle_color ← get_color t uncle;
  if bool_decide (uncle_color = Red) then
    t ← set_color t parent Black;
    t ← set_color t uncle Black;
    t ← set_color t grandparent Red;
    mret (t, grandparent)
  else
  grandparent_color ← get_color t grandparent;
  parent_is_left ← is_left_child t parent;
  current_is_left ← is_left_child t index_to_fix;
  if (grandparent =? NIL) && bool_decide (parent_color = Red) then
    t ← set_color t parent Black; mret (t, NIL)
  else
  index_to_fix_color ← get_color t index_to_fix;
  t ← (match parent_is_left : bool, current_is_left : bool with
       | true, true =>
           t ← rotate_right t grandparent;
           t ← set_color t grandparent parent_color;
           set_color t parent grandparent_color
       | true, false =>
           t ← rotate_left t parent;
           t ← rotate_right t grandparent;
           t ← set_color t index_to_fix grandparent_color;
           set_color t grandparent index_to_fix_color
       | false, false =>
           t ← rotate_left t grandparent;
           t ← set_color t grandparent parent_color;
           set_color t parent grandparent_color
       | false, true =>
           t ← rotate_right t parent;
           t ← rotate_left t grandparent;
           t ← set_color t index_to_fix grandparent_color;
           set_color t grandparent index_to_fix_color
       end);
  mret (t, NIL).

Fixpoint insert_fix_loop (fuel : nat) t (node_to_fix : Z) : result (Tree B) :=
  match fuel with
  | O => Err Panic
  | S fuel =>
      '(t, next) ← insert_fix t node_to_fix;
      if next =? NIL then Ok t else insert_fix_loop fuel t next
  end.

(** [HyperTreeWriteOperations::insert]. *)
Definition insert t (index : Z) (value : V) : result (Tree B) :=
  if t_root t =? NIL then
    d ← region_set (t_data t) index (new_node Black value);
    mret (mkTree d index index)
  else
  t ← (if negb (t_max t =? NIL) then
         max_value ← get_value t (t_max t);
         match payload_cmp max_value value with
         | Lt => Ok (t <| t_max := index |>)
         | _ => Ok t
         end
       else Ok t);
  t ← insert_node_no_fix t (new_node Red value) index;
  insert_fix_loop (fuel_of t) t index.

(** *** Removal *)

(** [remove_fix]: the double-black node and its parent, and the next pair. *)
Definition remove_fix t (current parent : Z) : result (Tree B * (Z * Z)) :=
  if t_root t =? current then Ok (t, (NIL, NIL)) else
  sibling ← get_sibling_index t current parent;
  sibling_color ← get_color t sibling;
  parent_color ← get_color t parent;
  sibling_left ← get_left_index t sibling;
  sibling_left_color ← get_color t sibling_left;
  sibling_right ← get_right_index t sibling;
  sibling_right_color ← get_color t sibling_right;
  sibling_is_left ← is_left_child t sibling;
  sibling_is_right ← is_right_child t sibling;
  let left_red := bool_decide (sibling_left_color = Red) in
  let right_red := bool_decide (sibling_right_color = Red) in
  if bool_decide (sibling_color = Black) && (left_red || right_red) then
    if left_red && sibling_is_left then
      t ← set_color t sibling_left Black;
      t ← set_color t parent sibling_color;
      t ← set_color t sibling parent_color;
      t ← rotate_right t parent;
      mret (t, (NIL, NIL))
    else if right_red && sibling_is_left then
      t ← set_color t sibling_right parent_color;
      t ← set_color t parent Black;
      t ← set_color t sibling Black;
      t ← rotate_left t sibling;
      t ← rotate_right t parent;
      mret (t, (NIL, NIL))
    else if right_red && sibling_is_right then
      t ← set_color t sibling_right Black;
      t ← set_color t parent sibling_color;
      t ← set_color t sibling parent_color;
      t ← rotate_left t parent;
      mret (t, (NIL, NIL))
    else if left_red && sibling_is_right then
      t ← set_color t sibling_left parent_color;
      t ← set_color t parent Black;
      t ← set_color t sibling Black;
      t ← rotate_right t sibling;
      t ← rotate_left t parent;
      mret (t, (NIL, NIL))
    else Ok (t, (NIL, NIL))
  else if bool_decide (sibling_color = Black) then
    t ← set_color t sibling Red;
    if bool_decide (parent_color = Black) then
      grandparent ← get_parent_index t parent;
      mret (t, (parent, grandparent))
    else
      t ← set_color t parent Black;
      mret (t, (NIL, NIL))
  else if sibling_is_left : bool then
    t ← rotate_right t parent;
    t ← set_color t parent Red;
    t ← set_color t sibling Black;
    mret (t, (current, parent))
  else if sibling_is_right : bool then
    t ← rotate_left t parent;
    t ← set_color t parent Red;
    t ← set_color t sibling Black;
    mret (t, (current, parent))
  else Ok (t, (NIL, NIL)).

Fixpoint remove_fix_loop (fuel : nat) t (current parent : Z) : result (Tree B) :=
  match fuel with
  | O => Err Panic
  | S fuel =>
      '(t, (current, parent)) ← remove_fix t current parent;
      if (current =? NIL) && (parent =? NIL) then Ok t else remove_fix_loop fuel t current parent
  end.

(** [HyperTreeWriteOperations::remove_by_index]. *)
Definition remove_by_index t (index : Z) : result (Tree B) :=
  if index =? NIL then Ok t else
  t ← (if index =? t_max t then
         lower ← get_next_lower_index t (t_max t); mret (t <| t_max := lower |>)
       else Ok t);
  internal ← is_internal t index;
  t ← (if internal : bool then
         successor ← get_next_higher_index t index;
         swap_node_with_successor t index successor
       else Ok t);
  to_delete_color ← get_color t index;
  left ← get_left_index t index;
  left_color ← get_color t left;
  right ← get_right_index t index;
  right_color ← get_color t right;
  let child_red := bool_decide (left_color = Red) || bool_decide (right_color = Red) in
  if child_red || bool_decide (to_delete_color = Red) then
    child ← get_child_index t index;
    t ← update_parent_child t index;
    set_color t child Black
  else
    child ← get_child_index t index;
    parent ← get_parent_index t index;
    t ← update_parent_child t index;
    remove_fix_loop (fuel_of t) t child parent.
End RedBlackTree.
