(* ===== verification/HypertreeFrame.v ===== *)
(** * What the tree and the free list leave alone

    A market keeps four kinds of blocks in one region.  An operation on the tree of
    one kind only writes nodes of that kind (and, when it inserts, the block it is
    given): [frame] states it, for every operation of [Hypertree]. *)
From stdpp Require Import base numbers list option gmap.
From S2P Require Import Prelude Hypertree.
Local Open Scope Z_scope.

(** ** Reading and writing blocks *)

Section region.
Context {B A : Type} `{BlockOf B A}.
Implicit Types (d : Region B) (i j : Z) (a : A).

Lemma region_get_Ok d i a : region_get d i = Ok a ↔ d !! i = Some (to_block a).
Proof.
  unfold region_get. rewrite ok_or_Ok, bind_Some. split.
  - intros (b & -> & Hb). by rewrite (to_of_block b a Hb).
  - intros ->. eexists. split; [done|apply of_to_block].
Qed.

Lemma region_set_Ok d i a d' :
  region_set d i a = Ok d' ↔ is_Some (d !! i) ∧ d' = <[i := to_block a]> d.
Proof.
  unfold region_set. destruct (d !! i) eqn:E; split.
  - intros [= <-]. by split; [eexists|].
  - by intros [_ ->].
  - done.
  - by intros [[? [=]] _].
Qed.

Lemma region_get_insert d i a : region_get (<[i := to_block a]> d) i = Ok a.
Proof. apply region_get_Ok, lookup_insert_eq. Qed.

Lemma region_get_insert_ne d i j (b : B) : i ≠ j →
  region_get (<[i := b]> d) j = region_get (A:=A) d j.
Proof. intros. unfold region_get. by rewrite lookup_insert_ne. Qed.

Lemma region_set_get d i a a' : region_get d i = Ok a →
  region_set d i a' = Ok (<[i := to_block a']> d).
Proof.
  intros Hg%region_get_Ok. unfold region_set. by rewrite Hg.
Qed.

(** Whether a block holds an [A]. *)
Definition holds (d : Region B) (j : Z) : bool :=
  match d !! j with
  | Some b => match of_block (A:=A) b with Some _ => true | None => false end
  | None => false
  end.

Lemma holds_get d j a : region_get d j = Ok a → holds d j = true.
Proof. intros Hg%region_get_Ok. unfold holds. by rewrite Hg, of_to_block. Qed.

Lemma holds_insert d i a : holds (<[i := to_block a]> d) i = true.
Proof. unfold holds. by rewrite lookup_insert_eq, of_to_block. Qed.

(** [frame X d d']: the same blocks exist, only the [A]s and the blocks of [X] may
    differ, and an [A] stays an [A]. *)
Record frame (X : Z → Prop) (d d' : Region B) : Prop := mk_frame {
  frame_holds : ∀ j, holds d j = true → holds d' j = true;
  frame_other : ∀ j, holds d j = false → ¬ X j → d' !! j = d !! j;
  frame_dom : dom d' = dom d }.

#[export] Instance frame_preorder X : PreOrder (frame X).
Proof.
  split; [done|]. intros d1 d2 d3 [Hh1 Ho1 Hd1] [Hh2 Ho2 Hd2]. split; [by auto| |congruence].
  intros j Hj Hx. rewrite Ho2, Ho1; try done. unfold holds in *. by rewrite Ho1.
Qed.

Lemma frame_weaken (X Y : Z → Prop) d d' : (∀ j, X j → Y j) → frame X d d' → frame Y d d'.
Proof. intros HXY [Hh Ho Hd]. split; [done| |done]. intros j Hj Hy. apply Ho; auto. Qed.

Lemma frame_set X d i a d' : holds d i = true ∨ X i → region_set d i a = Ok d' → frame X d d'.
Proof.
  intros Hi [Hd ->]%region_set_Ok.
  split; [intros j Hj|intros j Hj|by apply dom_insert_lookup_L].
  - destruct (decide (i = j)) as [->|]; [apply holds_insert|].
    unfold holds. by rewrite lookup_insert_ne.
  - intros Hx. apply lookup_insert_ne. intros ->. destruct Hi; congruence.
Qed.
End region.
Arguments holds {B} A {_} d j.
Arguments frame {B} A {_} X d d'.

(** A frame for one kind keeps what another kind reads, outside [X]. *)
Class Disjoint (B A A' : Type) `{BlockOf B A, BlockOf B A'} :=
  disjoint_block (a' : A') : of_block (A:=A) (to_block a') = None.

Lemma frame_get {B A A'} `{HA : BlockOf B A, HA' : BlockOf B A'} `{!Disjoint B A A'} X
    (d d' : Region B) j (a : A') :
  frame A X d d' → ¬ X j → region_get d j = Ok a → region_get d' j = Ok a.
Proof.
  intros [_ Ho _] Hx Hg%region_get_Ok. apply region_get_Ok. rewrite Ho; try done.
  unfold holds. by rewrite Hg, disjoint_block.
Qed.

Lemma frame_holds_other {B A A'} `{HA : BlockOf B A, HA' : BlockOf B A'} `{!Disjoint B A A'} X
    (d d' : Region B) j :
  frame A X d d' → ¬ X j → holds A' d j = true → holds A' d' j = true.
Proof.
  intros Hf Hx Hh. unfold holds in Hh. destruct (d !! j) as [b|] eqn:E; [|done].
  destruct (of_block b) as [a|] eqn:Eb; [|done].
  apply (holds_get _ _ a). eapply frame_get; [done..|].
  apply region_get_Ok. rewrite E. f_equal. by apply to_of_block.
Qed.

Lemma frame_size {B A} `{BlockOf B A} X (d d' : Region B) : frame A X d d' → size d' = size d.
Proof. intros [_ _ Hd]. by rewrite <- !size_dom, Hd. Qed.

(** ** Computations that respect a relation *)

(** Every success of [r] is related to [s]; [π] selects the state. *)
Definition Steps {S A} (R : S → S → Prop) (π : A → S) (s : S) (r : result A) : Prop :=
  ∀ a, r = Ok a → R s (π a).

Section steps.
Context {S : Type} (R : S → S → Prop) `{!PreOrder R}.

Lemma steps_ok {A} (π : A → S) s a : R s (π a) → Steps R π s (Ok a).
Proof. by intros H ? [= <-]. Qed.

Lemma steps_err {A} (π : A → S) s e : Steps R π s (Err e).
Proof. by intros ? ?. Qed.

(** A read does not move the state. *)
Lemma steps_read {A C} (π : A → S) s (r : result C) (f : C → result A) :
  (∀ c, Steps R π s (f c)) → Steps R π s (r ≫= f).
Proof. intros Hf a (c & _ & Hc)%bind_Ok. by eapply Hf. Qed.

(** A write does, and the rest goes on from there. *)
Lemma steps_write {A C} (π : A → S) (π' : C → S) s (r : result C) (f : C → result A) :
  Steps R π' s r → (∀ c, R s (π' c) → Steps R π (π' c) (f c)) → Steps R π s (r ≫= f).
Proof.
  intros Hr Hf a (c & Hc & Ha)%bind_Ok. specialize (Hr _ Hc). etrans; [done|]. by eapply Hf.
Qed.

Lemma steps_trans {A} (π : A → S) s s' r : R s s' → Steps R π s' r → Steps R π s r.
Proof. intros Hs Hr a Ha. etrans; [done|]. by apply Hr. Qed.
End steps.

(** ** The operations *)

Create HintDb frame.

Section tree_frame.
Context {B V : Type} `{HB : BlockOf B (RBNode V)} `{HP : Payload V}.
Context (X : Z → Prop).
Implicit Types (t : Tree B) (i : Z).
Local Abbreviation TSteps := (Steps (frame (RBNode V) X) t_data).
Local Abbreviation TSteps1 := (Steps (frame (RBNode V) X) (t_data ∘ fst)).

Lemma modify_node_frame t i f : TSteps (t_data t) (modify_node t i f).
Proof.
  intros t' (n & Hn & H)%bind_Ok. apply bind_Ok in H as (d & Hd & [= <-]).
  apply (frame_set _ _ _ _ _ (or_introl (holds_get _ _ _ Hn)) Hd).
Qed.

Lemma set_color_frame t i c : TSteps (t_data t) (set_color t i c).
Proof.
  unfold set_color. destruct (i =? NIL); [apply steps_ok; reflexivity|apply modify_node_frame].
Qed.
Lemma set_parent_index_frame t i p : TSteps (t_data t) (set_parent_index t i p).
Proof.
  unfold set_parent_index.
  destruct (i =? NIL); [apply steps_ok; reflexivity|apply modify_node_frame].
Qed.
Lemma set_left_index_frame t i l : TSteps (t_data t) (set_left_index t i l).
Proof.
  unfold set_left_index.
  destruct (i =? NIL); [apply steps_ok; reflexivity|apply modify_node_frame].
Qed.
Lemma set_right_index_frame t i r : TSteps (t_data t) (set_right_index t i r).
Proof.
  unfold set_right_index.
  destruct (i =? NIL); [apply steps_ok; reflexivity|apply modify_node_frame].
Qed.
End tree_frame.

(** Walks a computation: every bind is a known write or a read. *)
Ltac frame_walk :=
  repeat first
    [ match goal with
      | |- context [(t_data ∘ fst) (?a, ?b)] => change ((t_data ∘ fst) (a, b)) with (t_data a)
      | |- Steps _ _ _ (Ok _) => apply steps_ok; cbn [t_data fst compose]; reflexivity
      | |- Steps _ _ _ (mret _) => apply steps_ok; cbn [t_data fst compose]; reflexivity
      | |- Steps _ _ _ (Err _) => apply steps_err
      | |- Steps _ _ _ (_ (if ?b then _ else _) _ ≫= _) => destruct b
      | |- Steps ?R ?p (t_data ?c) ((?h _ _) ≫= ?k) =>
          lazymatch h with context [c <| t_root := ?j |>] =>
            change (t_data c) with (t_data (c <| t_root := j |>));
            generalize (c <| t_root := j |>); intros ? end
      | |- Steps _ _ _ (let x := _ in _) => cbv zeta
      | |- Steps _ _ _ (if ?b then _ else _) => destruct b
      | |- Steps _ _ _ (match ?x with _ => _ end) => destruct x
      | |- Steps _ _ _ (_ ≫= _) =>
          first [ eapply (steps_write _ _ (t_data ∘ fst));
                    [solve [frame_walk1]|intros [? ?] _]
                | eapply (steps_write _ _ t_data); [solve [frame_walk1]|intros ? _]
                | apply steps_read; intros ? ]
      | |- Steps _ _ _ _ => solve [auto with frame]
      end ]
with frame_walk1 := lazymatch goal with
  | |- Steps _ _ _ (if _ then _ else _) => frame_walk
  | |- Steps _ _ _ (match _ with _ => _ end) => frame_walk
  | |- Steps _ _ _ (_ ≫= _) => frame_walk
  | |- Steps _ _ _ _ => auto with frame nocore
  end.

#[export] Hint Resolve modify_node_frame set_color_frame set_parent_index_frame
  set_left_index_frame set_right_index_frame : frame.

Section tree_frame_ops.
Context {B V : Type} `{HB : BlockOf B (RBNode V)} `{HP : Payload V}.
Context (X : Z → Prop).
Implicit Types (t : Tree B) (i : Z).
Local Abbreviation TSteps := (Steps (frame (RBNode V) X) t_data).
Local Abbreviation TSteps1 := (Steps (frame (RBNode V) X) (t_data ∘ fst)).

Lemma relink_grandparent_frame t g p gg : TSteps (t_data t) (relink_grandparent t g p gg).
Proof. unfold relink_grandparent. frame_walk. Qed.
#[local] Hint Resolve relink_grandparent_frame : frame.

Lemma rotate_left_frame t i : TSteps (t_data t) (rotate_left t i).
Proof. unfold rotate_left. frame_walk. Qed.
Lemma rotate_right_frame t i : TSteps (t_data t) (rotate_right t i).
Proof. unfold rotate_right. frame_walk. Qed.
#[local] Hint Resolve rotate_left_frame rotate_right_frame : frame.

Lemma swap_node_with_successor_frame t i j : TSteps (t_data t) (swap_node_with_successor t i j).
Proof. unfold swap_node_with_successor. frame_walk. Qed.
Lemma update_parent_child_frame t i : TSteps (t_data t) (update_parent_child t i).
Proof. unfold update_parent_child. frame_walk. Qed.
#[local] Hint Resolve swap_node_with_successor_frame update_parent_child_frame : frame.

Lemma insert_fix_frame t i : TSteps1 (t_data t) (insert_fix t i).
Proof. unfold insert_fix. frame_walk. Qed.
#[local] Hint Resolve insert_fix_frame : frame.

Lemma insert_fix_loop_frame fuel t i : TSteps (t_data t) (insert_fix_loop fuel t i).
Proof. revert t i. induction fuel; intros t i; simpl; frame_walk. Qed.
#[local] Hint Resolve insert_fix_loop_frame : frame.

Lemma remove_fix_frame t i j : TSteps1 (t_data t) (remove_fix t i j).
Proof. unfold remove_fix. frame_walk. Qed.
#[local] Hint Resolve remove_fix_frame : frame.

Lemma remove_fix_loop_frame fuel t i j : TSteps (t_data t) (remove_fix_loop fuel t i j).
Proof. revert t i j. induction fuel; intros t i j; simpl; frame_walk. Qed.
#[local] Hint Resolve remove_fix_loop_frame : frame.

(** Removing writes nodes of the tree's kind only. *)
Lemma remove_by_index_frame t i : TSteps (t_data t) (remove_by_index (V:=V) t i).
Proof. unfold remove_by_index. frame_walk. Qed.

(** Inserting also writes the block it is given. *)
Lemma insert_frame t i (v : V) :
  Steps (frame (RBNode V) (λ j, X j ∨ j = i)) t_data (t_data t) (insert t i v).
Proof.
  assert (∀ d n, Steps (frame (RBNode V) (λ j, X j ∨ j = i)) id d (region_set d i n)) as Hset.
  { intros d n d' Hd. eapply frame_set; [by right; right|exact Hd]. }
  unfold insert. destruct (t_root t =? NIL).
  { eapply (steps_write _ _ id); [apply Hset|intros d _; apply steps_ok; done]. }
  eapply (steps_write _ _ t_data); [frame_walk|intros t1 _].
  assert (∀ t' f j, Steps (frame (RBNode V) (λ k, X k ∨ k = i)) t_data (t_data t')
    (insert_fix_loop f t' j)) as Hloop.
  { intros t' f j t2 Ht2. apply (frame_weaken X); [by left|]. by eapply insert_fix_loop_frame. }
  eapply (steps_write _ _ t_data); [|intros; apply Hloop].
  unfold insert_node_no_fix. apply steps_read; intros p. apply steps_read; intros n.
  eapply (steps_write _ _ t_data); [frame_walk|intros t2 _].
  eapply (steps_write _ _ id); [apply Hset|intros d _; apply steps_ok; done].
Qed.

End tree_frame_ops.

(** Updating a value in place. *)
Lemma modify_value_Ok {B V} `{BlockOf B (RBNode V)} (d : Region B) i (f : V → result V) d' :
  modify_value d i f = Ok d' →
  ∃ n v, region_get d i = Ok n ∧ f (rb_value n) = Ok v
       ∧ d' = <[i := to_block (n <| rb_value := v |>)]> d.
Proof.
  intros (n & Hn & Hd)%bind_Ok. apply bind_Ok in Hd as (v & Hv & Hd).
  exists n, v. rewrite (region_set_get _ _ _ _ Hn) in Hd. by injection Hd as <-.
Qed.

Lemma modify_value_frame {B V} `{BlockOf B (RBNode V)} X (d : Region B) i (f : V → result V) :
  Steps (frame (RBNode V) X) id d (modify_value d i f).
Proof.
  intros d' (n & v & Hn & _ & ->)%modify_value_Ok. simpl.
  eapply frame_set; [left; by eapply holds_get|]. by eapply region_set_get.
Qed.

(** Reading back what was written in place, here and elsewhere. *)
Lemma modify_value_read {B V} `{BlockOf B (RBNode V)} (d d' : Region B) i (f : V → result V) :
  modify_value d i f = Ok d' →
  ∃ v v', read_value d i = Ok v ∧ f v = Ok v' ∧ read_value d' i = Ok v'.
Proof.
  intros (n & v & Hn & Hv & ->)%modify_value_Ok. exists (rb_value n), v.
  unfold read_value. by rewrite Hn, region_get_insert.
Qed.

Lemma modify_value_read_ne {B V} `{BlockOf B (RBNode V)} (d d' : Region B) i j
    (f : V → result V) :
  modify_value d i f = Ok d' → i ≠ j → read_value d' j = read_value d j.
Proof.
  intros (n & v & Hn & Hv & ->)%modify_value_Ok Hij. unfold read_value.
  by rewrite region_get_insert_ne.
Qed.

(** Two updates in place are one, and an update that changes nothing is none. *)
Lemma modify_value_modify {B V} `{BlockOf B (RBNode V)} (d d1 d2 : Region B) i
    (f g : V → result V) :
  modify_value d i f = Ok d1 → modify_value d1 i g = Ok d2 →
  modify_value d i (λ v, v ← f v; g v) = Ok d2.
Proof.
  intros (n & v & Hn & Hv & ->)%modify_value_Ok (n2 & v2 & Hn2 & Hv2 & ->)%modify_value_Ok.
  rewrite region_get_insert in Hn2. injection Hn2 as <-. simpl in Hv2.
  unfold modify_value. rewrite Hn. cbn [mbind result_bind]. rewrite Hv. cbn [mbind result_bind].
  rewrite Hv2. cbn [mbind result_bind]. rewrite (region_set_get _ _ _ _ Hn).
  by rewrite insert_insert_eq.
Qed.

Lemma modify_value_same {B V} `{BlockOf B (RBNode V)} (d d' : Region B) i (f : V → result V) v :
  modify_value d i f = Ok d' → read_value d i = Ok v → f v = Ok v → d' = d.
Proof.
  intros (n & v' & Hn & Hv & ->)%modify_value_Ok. unfold read_value. rewrite Hn. intros [= <-].
  rewrite Hv. intros [= ->]. apply insert_id. apply region_get_Ok in Hn. rewrite Hn.
  by destruct n.
Qed.

(** ** The free list *)

Section free_frame.
Context {B : Type} `{HB : BlockOf B FreeListNode}.

(** A block pushed on the list is the next one popped, and the list is as before:
    only the block's old contents are gone. *)
Lemma free_list_add_remove (d : Region B) head index d1 head1 :
  index ≠ NIL → free_list_add d head index = Ok (d1, head1) →
  free_list_remove d1 head1 = Ok (<[index := to_block (mkFreeListNode 0)]> d, head, index).
Proof.
  intros Hi (d' & Hd & [= <- <-])%bind_Ok. apply region_set_Ok in Hd as [Hd ->].
  unfold free_list_remove. rewrite (proj2 (Z.eqb_neq _ _) Hi), region_get_insert.
  cbn [mbind result_bind]. rewrite (region_set_get _ _ _ _ (region_get_insert _ _ _)).
  cbn. by rewrite insert_insert_eq.
Qed.

Lemma free_list_remove_Ok (d : Region B) head d' head' idx :
  free_list_remove d head = Ok (d', head', idx) →
  idx = head ∧ ((head = NIL ∧ d' = d ∧ head' = head)
    ∨ (head ≠ NIL ∧ region_get d head = Ok (mkFreeListNode head')
       ∧ d' = <[head := to_block (mkFreeListNode 0)]> d)).
Proof.
  unfold free_list_remove. destruct (Z.eqb_spec head NIL) as [->|Hn].
  - intros [= <- <- <-]. auto.
  - intros (n & Hn' & H)%bind_Ok. rewrite (region_set_get _ _ _ _ Hn') in H.
    injection H as <- <- <-. destruct n. auto.
Qed.

Lemma free_list_add_Ok (d : Region B) head idx d' head' :
  free_list_add d head idx = Ok (d', head') →
  head' = idx ∧ is_Some (d !! idx) ∧ d' = <[idx := to_block (mkFreeListNode head)]> d.
Proof.
  intros (d1 & Hd & [= <- <-])%bind_Ok. apply region_set_Ok in Hd as [? ->]. auto.
Qed.

(** The list of free blocks that starts at [head]. *)
Fixpoint free_chain (d : Region B) (head : Z) (l : list Z) : Prop :=
  match l with
  | [] => head = NIL
  | i :: l => head = i ∧ i ≠ NIL ∧ ∃ next, d !! i = Some (to_block (mkFreeListNode next))
                                      ∧ free_chain d next l
  end.

Lemma free_chain_block (d : Region B) h l i :
  free_chain d h l → i ∈ l → ∃ n, d !! i = Some (to_block n) ∧ i ≠ NIL.
Proof.
  revert h. induction l as [|j l IH]; intros h; [by intros _ ?%not_elem_of_nil|].
  intros (_ & ? & next & Hj & Hl) [->|Hi]%elem_of_cons; [eauto|by eapply IH].
Qed.

Lemma free_chain_outside (d1 d2 : Region B) (X : list Z) h l :
  free_chain d1 h l → (∀ j, j ∉ X → d2 !! j = d1 !! j) → (∀ j, j ∈ l → j ∉ X) → free_chain d2 h l.
Proof.
  intros Hl Ho. revert h Hl. induction l as [|i l IH]; intros h; [done|].
  intros (-> & Hi & next & Hn & Hl) Hd. split_and!; [done|done|]. exists next. split.
  - rewrite Ho; [done|]. apply Hd. left.
  - apply IH; [done|]. intros j Hj. apply Hd. by right.
Qed.

(** Popping: an empty list yields [NIL], another its first block, zeroed. *)
Lemma free_list_remove_nil (d : Region B) : free_list_remove d NIL = Ok (d, NIL, NIL).
Proof. done. Qed.

Lemma free_list_remove_chain (d : Region B) head i l : free_chain d head (i :: l) →
  ∃ next, free_list_remove d head = Ok (<[i := to_block (mkFreeListNode 0)]> d, next, i)
    ∧ free_chain d next l ∧ i ≠ NIL.
Proof.
  intros (-> & Hi & next & Hn & Hl). exists next. split_and!; [|done|done].
  unfold free_list_remove. rewrite (proj2 (Z.eqb_neq _ _) Hi).
  assert (region_get d i = Ok (mkFreeListNode next)) as Hg by (by apply region_get_Ok).
  rewrite Hg. cbn [mbind result_bind]. by rewrite (region_set_get _ _ _ _ Hg).
Qed.
End free_frame.

(** ** Reads see only the nodes of their tree *)

(** Every node of [t] is a node of [t'], and walks have the same fuel. *)
Record reads_from {B V} `{BlockOf B (RBNode V)} (t t' : Tree B) : Prop := {
  rf_node : ∀ i n, get_node (V:=V) t i = Ok n → get_node t' i = Ok n;
  rf_root : t_root t' = t_root t;
  rf_max : t_max t' = t_max t;
  rf_fuel : fuel_of t' = fuel_of t }.
Arguments reads_from {B} V {_} t t'.

Section reads.
Context {B V : Type} `{HB : BlockOf B (RBNode V)} `{HP : Payload V}.
Context (t t' : Tree B) (Hr : reads_from V t t').

Lemma fmap_Ok {A C} (f : A → C) (r : result A) c : f <$> r = Ok c ↔ ∃ a, r = Ok a ∧ f a = c.
Proof. destruct r; cbn; split; naive_solver. Qed.

Lemma get_node_reads {C} (f : RBNode V → C) i c :
  f <$> get_node t i = Ok c → f <$> get_node t' i = Ok c.
Proof. rewrite !fmap_Ok. intros (n & Hn & Hc). exists n. split; [by apply Hr|done]. Qed.

Lemma get_right_index_reads i j :
  get_right_index (V:=V) t i = Ok j → get_right_index (V:=V) t' i = Ok j.
Proof. unfold get_right_index. destruct (i =? NIL); [done|apply get_node_reads]. Qed.
Lemma get_left_index_reads i j :
  get_left_index (V:=V) t i = Ok j → get_left_index (V:=V) t' i = Ok j.
Proof. unfold get_left_index. destruct (i =? NIL); [done|apply get_node_reads]. Qed.
Lemma get_parent_index_reads i j :
  get_parent_index (V:=V) t i = Ok j → get_parent_index (V:=V) t' i = Ok j.
Proof. unfold get_parent_index. destruct (i =? NIL); [done|apply get_node_reads]. Qed.

Lemma bind_reads {A C} (r r' : result A) (f f' : A → result C) c :
  (∀ a, r = Ok a → r' = Ok a) → (∀ a, f a = Ok c → f' a = Ok c) →
  (r ≫= f) = Ok c → (r' ≫= f') = Ok c.
Proof. intros Hr' Hf (a & Ha & Hc)%bind_Ok. apply bind_Ok. exists a. auto. Qed.

Lemma is_left_child_reads i b :
  is_left_child (V:=V) t i = Ok b → is_left_child (V:=V) t' i = Ok b.
Proof.
  unfold is_left_child. rewrite (rf_root _ _ Hr). destruct (i =? t_root t); [done|].
  apply bind_reads; [apply get_parent_index_reads|]. intros p.
  apply bind_reads; [apply get_left_index_reads|done].
Qed.

Lemma rightmost_reads fuel i j :
  rightmost (V:=V) fuel t i = Ok j → rightmost (V:=V) fuel t' i = Ok j.
Proof.
  revert i. induction fuel as [|fuel IH]; intros i; [done|]. simpl.
  apply bind_reads; [apply get_right_index_reads|]. intros r. destruct (r =? NIL); [done|apply IH].
Qed.

Lemma climb_left_reads fuel i j :
  climb_left (V:=V) fuel t i = Ok j → climb_left (V:=V) fuel t' i = Ok j.
Proof.
  revert i. induction fuel as [|fuel IH]; intros i; [done|]. simpl.
  apply bind_reads; [apply is_left_child_reads|]. intros []; [|done].
  apply bind_reads; [apply get_parent_index_reads|]. apply IH.
Qed.

Lemma get_next_lower_index_reads i j :
  get_next_lower_index (V:=V) t i = Ok j → get_next_lower_index (V:=V) t' i = Ok j.
Proof.
  unfold get_next_lower_index. destruct (i =? NIL); [done|]. rewrite (rf_fuel _ _ Hr).
  apply bind_reads; [apply get_left_index_reads|]. intros l.
  destruct (negb (l =? NIL)); [apply rightmost_reads|].
  apply bind_reads; [apply climb_left_reads|intros ?; apply get_parent_index_reads].
Qed.
End reads.
