(* ===== verification/HypertreeSpec.v ===== *)
(** * The red-black tree is a tree

    [repr t s]: the nodes of [t] reachable from its root are the functional tree
    [s], parent pointers included.  A path of [crumb]s is the context of a subtree,
    so that [plug s k] focuses on [s].  Each pointer operation of [Hypertree] is
    shown to perform a functional operation; the in-order listing [entries] then
    says what lookup, iteration and insertion do. *)
From Stdlib Require Import Sorting.Sorted.
From stdpp Require Import base numbers list option gmap fin_maps.
From S2P Require Import Prelude Hypertree HypertreeFrame.
Local Open Scope Z_scope.

Inductive tree (V : Type) :=
  | Leaf
  | Node (l : tree V) (i : Z) (c : Color) (v : V) (r : tree V).
Arguments Leaf {V}.
Arguments Node {V} l i c v r.

Inductive crumb (V : Type) :=
  | GoLeft (i : Z) (c : Color) (v : V) (r : tree V)
  | GoRight (l : tree V) (i : Z) (c : Color) (v : V).
Arguments GoLeft {V} i c v r.
Arguments GoRight {V} l i c v.

Section defs.
Context {V : Type}.
Implicit Types (s l r : tree V) (k : list (crumb V)).

Definition top s : Z := match s with Leaf => NIL | Node _ i _ _ _ => i end.
Definition color_of s : Color := match s with Leaf => Black | Node _ _ c _ _ => c end.
Definition recolor s (c : Color) : tree V :=
  match s with Leaf => Leaf | Node l i _ v r => Node l i c v r end.

Definition crumb_id (f : crumb V) : Z := match f with GoLeft i _ _ _ | GoRight _ i _ _ => i end.
Definition crumb_color (f : crumb V) : Color :=
  match f with GoLeft _ c _ _ | GoRight _ _ c _ => c end.
Definition crumb_sibling (f : crumb V) : tree V :=
  match f with GoLeft _ _ _ r => r | GoRight l _ _ _ => l end.

(** The parent of the hole. *)
Definition up k : Z := match k with [] => NIL | f :: _ => crumb_id f end.

Definition fill (s : tree V) (f : crumb V) : tree V :=
  match f with GoLeft i c v r => Node s i c v r | GoRight l i c v => Node l i c v s end.
Definition plug s k : tree V := foldl fill s k.

Fixpoint entries s : list (Z * V) :=
  match s with Leaf => [] | Node l i _ v r => entries l ++ (i, v) :: entries r end.
Definition ids s : list Z := (entries s).*1.

Fixpoint height s : nat := match s with Leaf => 0 | Node l _ _ _ r => S (height l `max` height r) end.

Definition crumb_ids (f : crumb V) : list Z := crumb_id f :: ids (crumb_sibling f).
Definition path_ids k : list Z := k ≫= crumb_ids.
#[local] Arguments path_ids : simpl never.

(** The entries left and right of the hole. *)
Fixpoint lefts k : list (Z * V) :=
  match k with
  | [] => []
  | GoLeft _ _ _ _ :: k => lefts k
  | GoRight l i _ v :: k => lefts k ++ entries l ++ [(i, v)]
  end.
Fixpoint rights k : list (Z * V) :=
  match k with
  | [] => []
  | GoLeft i _ v r :: k => (i, v) :: entries r ++ rights k
  | GoRight _ _ _ _ :: k => rights k
  end.

Lemma entries_plug s k : entries (plug s k) = lefts k ++ entries s ++ rights k.
Proof.
  revert s. induction k as [|[i c v r|l i c v] k IH]; intros s; simpl.
  - by rewrite app_nil_r.
  - unfold plug in *. rewrite IH. simpl. by rewrite <- !app_assoc.
  - unfold plug in *. rewrite IH. simpl. by rewrite <- !app_assoc.
Qed.

Lemma ids_Node l i c v r : ids (Node l i c v r) = ids l ++ i :: ids r.
Proof. unfold ids. simpl. by rewrite fmap_app. Qed.

Lemma height_le_ids s : (height s <= length (ids s))%nat.
Proof.
  induction s as [|l IHl i c v r IHr]; simpl; [lia|]. rewrite ids_Node, length_app. simpl. lia.
Qed.

Lemma ids_recolor s c : ids (recolor s c) = ids s.
Proof. by destruct s. Qed.

Lemma top_recolor s c : top (recolor s c) = top s.
Proof. by destruct s. Qed.

Lemma ids_fill s f : ids (fill s f) ≡ₚ ids s ++ crumb_ids f.
Proof.
  destruct f; simpl; rewrite ids_Node; unfold crumb_ids; simpl; [done|].
  rewrite (Permutation_app_comm (ids s)). simpl. by rewrite <- Permutation_middle.
Qed.

Lemma ids_plug s k : ids (plug s k) ≡ₚ ids s ++ path_ids k.
Proof.
  revert s. induction k as [|f k IH]; intros s; simpl; [by rewrite app_nil_r|].
  unfold plug in *. rewrite IH, ids_fill. unfold path_ids. simpl. by rewrite <- app_assoc.
Qed.

(** The root of a plugged tree. *)
Fixpoint path_root (h : Z) k : Z := match k with [] => h | f :: k => path_root (crumb_id f) k end.

Lemma top_plug s k : top (plug s k) = path_root (top s) k.
Proof.
  revert s. induction k as [|f k IH]; intros s; simpl; [done|].
  unfold plug in *. rewrite IH. by destruct f.
Qed.

Lemma path_ids_cons f k : path_ids (f :: k) = crumb_id f :: ids (crumb_sibling f) ++ path_ids k.
Proof. done. Qed.

Lemma path_root_in_or h k : path_root h k = h ∨ path_root h k ∈ path_ids k.
Proof.
  revert h. induction k as [|f k IH]; intros h; simpl; [by left|right].
  rewrite path_ids_cons. destruct (IH (crumb_id f)) as [->|]; set_solver.
Qed.

Lemma up_in f k : up (f :: k) ∈ path_ids (f :: k).
Proof. rewrite path_ids_cons. set_solver. Qed.
End defs.
#[global] Arguments path_ids {V} k : simpl never.
#[global] Arguments ids {V} s : simpl never.
#[global] Arguments plug {V} s k : simpl never.

Section repr.
Context {B V : Type} `{HB : BlockOf B (RBNode V)}.
Implicit Types (d : Region B) (t : Tree B) (s l r : tree V) (k : list (crumb V)).

Definition node_is d (i : Z) (n : RBNode V) : Prop := i ≠ NIL ∧ region_get d i = Ok n.

(** [d] holds [s] below the parent [p]. *)
Fixpoint rep d (p : Z) s : Prop :=
  match s with
  | Leaf => True
  | Node l i c v r =>
      node_is d i (mkRBNode (top l) (top r) p c 0 v) ∧ rep d i l ∧ rep d i r
  end.

(** [d] holds the path [k] above a subtree whose root is [h]. *)
Fixpoint rep_path d (h : Z) k : Prop :=
  match k with
  | [] => True
  | GoLeft i c v r :: k =>
      node_is d i (mkRBNode h (top r) (up k) c 0 v) ∧ rep d i r ∧ rep_path d i k
  | GoRight l i c v :: k =>
      node_is d i (mkRBNode (top l) h (up k) c 0 v) ∧ rep d i l ∧ rep_path d i k
  end.

Record repr t s : Prop := mk_repr {
  repr_rep : rep (t_data t) NIL s;
  repr_nodup : NoDup (ids s);
  repr_root : t_root t = top s }.

Lemma rep_plug d s k : rep d NIL (plug s k) ↔ rep d (up k) s ∧ rep_path d (top s) k.
Proof.
  revert s. induction k as [|f k IH]; intros s; simpl; [naive_solver|].
  change (plug s (f :: k)) with (plug (fill s f) k). rewrite IH.
  destruct f; simpl; naive_solver.
Qed.

(** The focused form of [repr]. *)
Lemma repr_plug t s k :
  repr t (plug s k) ↔ rep (t_data t) (up k) s ∧ rep_path (t_data t) (top s) k
    ∧ NoDup (ids s ++ path_ids k) ∧ t_root t = path_root (top s) k.
Proof.
  rewrite <- (ids_plug s k), <- top_plug. split.
  - intros [H1 H2 H3]. rewrite rep_plug in H1. tauto.
  - intros (? & ? & ? & ?). split; [by rewrite rep_plug|done..].
Qed.

(** Two regions that agree on some nodes. *)
Definition agree (L : list Z) d d' : Prop :=
  ∀ j, j ∈ L → region_get (A:=RBNode V) d' j = region_get d j.

Lemma rep_agree d d' p s : agree (ids s) d d' → rep d p s → rep d' p s.
Proof.
  revert p. induction s as [|l IHl i c v r IHr]; intros p Ha; simpl; [done|].
  rewrite ids_Node in Ha. intros ([Hi Hn] & Hl & Hr). split_and!.
  - split; [done|]. rewrite Ha; [done|]. set_solver.
  - apply IHl; [|done]. intros j Hj. apply Ha. set_solver.
  - apply IHr; [|done]. intros j Hj. apply Ha. set_solver.
Qed.

Lemma rep_path_agree d d' h k : agree (path_ids k) d d' → rep_path d h k → rep_path d' h k.
Proof.
  revert h. induction k as [|f k IH]; intros h Ha; simpl; [done|].
  destruct f as [i c v r|l i c v]; rewrite path_ids_cons in Ha; simpl in *;
    intros ([Hi Hn] & Hs & Hk); split_and!.
  1,4: split; [done|]; rewrite Ha; [done|set_solver].
  1,3: eapply rep_agree; [|done]; intros j Hj; apply Ha; set_solver.
  all: apply IH; [|done]; intros j Hj; apply Ha; set_solver.
Qed.

Lemma rep_not_NIL d p s : rep d p s → NIL ∉ ids s.
Proof.
  revert p. induction s as [|l IHl i c v r IHr]; intros p; simpl; [set_solver|].
  rewrite ids_Node. intros ([Hi _] & Hl%IHl & Hr%IHr). set_solver.
Qed.

Lemma rep_path_not_NIL d h k : rep_path d h k → NIL ∉ path_ids k.
Proof.
  revert h. induction k as [|[i c v r|l i c v] k IH]; intros h; [set_solver|..];
    rewrite path_ids_cons; simpl; intros ([Hi _] & Hs%rep_not_NIL & Hk%IH);
    set_solver.
Qed.
End repr.

(** ** Pointer operations *)

Section pointers.
Context {B V : Type} `{HB : BlockOf B (RBNode V)}.
Implicit Types (d : Region B) (t : Tree B) (s l r : tree V) (k : list (crumb V)) (i j rt mx : Z).

(** Only the nodes of [L] may differ. *)
Definition outside (L : list Z) d d' : Prop :=
  ∀ j, j ∉ L → d' !! j = d !! j.

Lemma outside_get L d d' j : outside L d d' → j ∉ L → region_get (A:=RBNode V) d' j = region_get d j.
Proof. intros Ho Hj. unfold region_get. by rewrite Ho. Qed.

Lemma outside_rep L d d' p s : outside L d d' → (∀ j, j ∈ ids s → j ∉ L) → rep d p s → rep d' p s.
Proof. intros Ho Hl. apply rep_agree. intros j Hj. eapply outside_get; [exact Ho|by apply Hl]. Qed.

Lemma outside_rep_path L d d' h k :
  outside L d d' → (∀ j, j ∈ path_ids k → j ∉ L) → rep_path d h k → rep_path d' h k.
Proof. intros Ho Hl. apply rep_path_agree. intros j Hj. eapply outside_get; [exact Ho|by apply Hl]. Qed.

Lemma outside_node L d d' i (n : RBNode V) : outside L d d' → i ∉ L → node_is d i n → node_is d' i n.
Proof. intros Ho Hi [? Hn]. split; [done|]. by rewrite (outside_get L d d'). Qed.

Lemma outside_insert d i (n : RBNode V) : outside [i] d (<[i := to_block n]> d).
Proof. intros j Hj. apply lookup_insert_ne. set_solver. Qed.

Lemma outside_refl L d : outside L d d.
Proof. done. Qed.

Lemma outside_trans L d1 d2 d3 : outside L d1 d2 → outside L d2 d3 → outside L d1 d3.
Proof. intros H1 H2 j Hj. by rewrite H2, H1. Qed.

Lemma outside_mono L L' d d' : (∀ j, j ∈ L → j ∈ L') → outside L d d' → outside L' d d'.
Proof. intros HL Ho j Hj. apply Ho. auto. Qed.

Lemma node_is_insert d i (n : RBNode V) : i ≠ NIL → node_is (<[i := to_block n]> d) i n.
Proof. intros. split; [done|apply region_get_insert]. Qed.

Lemma modify_node_at d rt mx i (n : RBNode V) f :
  node_is d i n →
  modify_node (mkTree d rt mx) i f = Ok (mkTree (<[i := to_block (f n)]> d) rt mx).
Proof.
  intros [_ Hn]. unfold modify_node, get_node. cbn [t_data]. rewrite Hn. cbn [mbind result_bind].
  by rewrite (region_set_get _ _ _ _ Hn).
Qed.

(** Reads of a node. *)
Lemma get_left_at d rt mx i (n : RBNode V) :
  node_is d i n → get_left_index (V:=V) (mkTree d rt mx) i = Ok (rb_left n).
Proof. intros [Hi Hn]. unfold get_left_index, get_node. apply Z.eqb_neq in Hi. cbn [t_data]. by rewrite Hi, Hn. Qed.
Lemma get_right_at d rt mx i (n : RBNode V) :
  node_is d i n → get_right_index (V:=V) (mkTree d rt mx) i = Ok (rb_right n).
Proof. intros [Hi Hn]. unfold get_right_index, get_node. apply Z.eqb_neq in Hi. cbn [t_data]. by rewrite Hi, Hn. Qed.
Lemma get_parent_at d rt mx i (n : RBNode V) :
  node_is d i n → get_parent_index (V:=V) (mkTree d rt mx) i = Ok (rb_parent n).
Proof. intros [Hi Hn]. unfold get_parent_index, get_node. apply Z.eqb_neq in Hi. cbn [t_data]. by rewrite Hi, Hn. Qed.
Lemma get_color_at d rt mx i (n : RBNode V) :
  node_is d i n → get_color (V:=V) (mkTree d rt mx) i = Ok (rb_color n).
Proof. intros [Hi Hn]. unfold get_color, get_node. apply Z.eqb_neq in Hi. cbn [t_data]. by rewrite Hi, Hn. Qed.

(** Writes of a field. *)
Lemma set_left_at d rt mx i (n : RBNode V) x : node_is d i n →
  set_left_index (V:=V) (mkTree d rt mx) i x
    = Ok (mkTree (<[i := to_block (n <| rb_left := x |>)]> d) rt mx).
Proof. intros Hn. pose proof Hn as [Hi%Z.eqb_neq _]. unfold set_left_index. rewrite Hi.
  by apply modify_node_at. Qed.
Lemma set_right_at d rt mx i (n : RBNode V) x : node_is d i n →
  set_right_index (V:=V) (mkTree d rt mx) i x
    = Ok (mkTree (<[i := to_block (n <| rb_right := x |>)]> d) rt mx).
Proof. intros Hn. pose proof Hn as [Hi%Z.eqb_neq _]. unfold set_right_index. rewrite Hi.
  by apply modify_node_at. Qed.
Lemma set_color_at d rt mx i (n : RBNode V) c : node_is d i n →
  set_color (V:=V) (mkTree d rt mx) i c
    = Ok (mkTree (<[i := to_block (n <| rb_color := c |>)]> d) rt mx).
Proof. intros Hn. pose proof Hn as [Hi%Z.eqb_neq _]. unfold set_color. rewrite Hi.
  by apply modify_node_at. Qed.

(** Re-parenting a subtree writes its root, if it has one. *)
Lemma set_parent_tree d rt mx p p' s :
  rep d p s → NoDup (ids s) →
  ∃ d', set_parent_index (V:=V) (mkTree d rt mx) (top s) p' = Ok (mkTree d' rt mx)
    ∧ rep d' p' s ∧ outside (ids s) d d'.
Proof.
  destruct s as [|l i c v r]; simpl.
  - intros _ _. exists d. unfold set_parent_index. by rewrite Z.eqb_refl.
  - rewrite ids_Node. intros (Hn & Hl & Hr) Hnd. pose proof Hn as [Hi%Z.eqb_neq _].
    unfold set_parent_index. rewrite Hi. rewrite (modify_node_at _ _ _ _ _ _ Hn).
    apply NoDup_app in Hnd as (_ & Hli & [Hir _]%NoDup_cons).
    eexists. split; [done|]. pose proof (outside_insert d i
      (mkRBNode (top l) (top r) p c 0 v <| rb_parent := p' |>)) as Ho.
    split_and!.
    + apply node_is_insert. apply Hn.
    + eapply outside_rep; [exact Ho| |done]. intros j Hj. specialize (Hli j Hj). set_solver.
    + eapply outside_rep; [exact Ho| |done]. intros j Hj. set_solver.
    + eapply outside_mono; [|exact Ho]. set_solver.
Qed.

(** Hanging another subtree root in the hole of a path. *)
Lemma relink_path d rt mx g p k :
  rep_path d g k → g ≠ NIL → NoDup (g :: path_ids k) →
  ∃ d', relink_grandparent (V:=V) (mkTree d rt mx) g p (up k) = Ok (mkTree d' rt mx)
    ∧ rep_path d' p k ∧ outside (path_ids k) d d'.
Proof.
  intros Hk Hg Hnd. unfold relink_grandparent.
  destruct k as [|[i c v r|l i c v] k]; simpl.
  - exists d. split_and!; [done..|apply outside_refl].
  - destruct Hk as (Hn & Hr & Hk). pose proof Hn as [Hi%Z.eqb_neq _]. rewrite Hi.
    rewrite path_ids_cons in *. simpl in *. rewrite (get_left_at _ _ _ _ _ Hn). simpl.
    rewrite Z.eqb_refl, (set_left_at _ _ _ _ _ _ Hn). cbn [mbind result_bind].
    pose proof (outside_insert d i (mkRBNode g (top r) (up k) c 0 v <| rb_left := p |>)) as Ho.
    pose proof (node_is_insert d i (mkRBNode g (top r) (up k) c 0 v <| rb_left := p |>)
      (proj1 Hn)) as Hn'.
    rewrite (get_right_at _ _ _ _ _ Hn'). simpl.
    rewrite !NoDup_cons in Hnd. destruct Hnd as (Hgn & Hin & _).
    assert (top r ≠ g) as ->%Z.eqb_neq.
    { intros <-. apply Hgn. destruct r; [done|]. rewrite ids_Node. set_solver. }
    eexists. split; [done|]. split_and!; [exact Hn'|..].
    + eapply outside_rep; [exact Ho| |done]. set_solver.
    + eapply outside_rep_path; [exact Ho| |done]. set_solver.
    + eapply outside_mono; [|exact Ho]. set_solver.
  - destruct Hk as (Hn & Hl & Hk). pose proof Hn as [Hi%Z.eqb_neq _]. rewrite Hi.
    rewrite path_ids_cons in *. simpl in *. rewrite (get_left_at _ _ _ _ _ Hn). simpl.
    rewrite !NoDup_cons in Hnd. destruct Hnd as (Hgn & Hin & _).
    assert (top l ≠ g) as ->%Z.eqb_neq.
    { intros <-. apply Hgn. destruct l; [done|]. rewrite ids_Node. set_solver. }
    cbn [mbind result_bind]. rewrite (get_right_at _ _ _ _ _ Hn). simpl.
    rewrite Z.eqb_refl, (set_right_at _ _ _ _ _ _ Hn).
    pose proof (outside_insert d i (mkRBNode (top l) g (up k) c 0 v <| rb_right := p |>)) as Ho.
    pose proof (node_is_insert d i (mkRBNode (top l) g (up k) c 0 v <| rb_right := p |>)
      (proj1 Hn)) as Hn'.
    eexists. split; [done|]. split_and!; [exact Hn'|..].
    + eapply outside_rep; [exact Ho| |done]. set_solver.
    + eapply outside_rep_path; [exact Ho| |done]. set_solver.
    + eapply outside_mono; [|exact Ho]. set_solver.
Qed.
End pointers.

(** Splits a [NoDup] of concatenations into its disjointness facts. *)
Ltac nodup_split H :=
  let H1 := fresh "Hnd" in let H2 := fresh "Hnd" in let H3 := fresh "Hnd" in
  lazymatch type of H with
  | NoDup (_ ++ _) => apply NoDup_app in H as (H1 & H2 & H3); nodup_split H1; nodup_split H3
  | NoDup (_ :: _) => apply NoDup_cons in H as (H1 & H2); nodup_split H2
  | _ => idtac
  end.
Ltac nodup_facts H := let H' := fresh "Hnd" in pose proof H as H'; nodup_split H'.

(** Membership in an explicit concatenation. *)
Ltac mem :=
  match goal with
  | |- ?x ∈ ?x :: _ => apply list_elem_of_here
  | |- _ ∈ _ :: _ => apply list_elem_of_further; mem
  | |- _ ∈ _ ++ _ => apply elem_of_app; first [left; mem | right; mem]
  | |- _ => assumption
  end.

(** Two memberships that the disjointness facts in the context exclude. *)
Ltac disj :=
  intros;
  repeat match goal with
  | |- _ ∉ _ => intros ?
  | |- _ ≠ _ => intros ?
  | H : _ ∈ _ ++ _ |- _ => apply elem_of_app in H as [H|H]
  | H : _ ∈ _ :: _ |- _ => apply elem_of_cons in H as [H|H]
  | H : _ ∈ [] |- _ => apply not_elem_of_nil in H
  end; subst; first
  [ done
  | match goal with
    | H : ?g ∉ ?L |- False => apply H; mem
    | H : ∀ x, x ∈ ?A → x ∉ ?L, Hx : ?j ∈ _ |- False => apply (H j); mem
    | H : ∀ x, x ∈ ?A → x ∉ ?L |- False =>
        match L with context [?j :: _] => apply (H j); mem end
    end ].

(** ** Focused reads, colours and rotations *)

Section rotations.
Context {B V : Type} `{HB : BlockOf B (RBNode V)}.
Implicit Types (d : Region B) (t : Tree B) (s l r : tree V) (k : list (crumb V)) (i j rt mx : Z).

Lemma repr_node t l i c v r k :
  repr t (plug (Node l i c v r) k) →
  node_is (t_data t) i (mkRBNode (top l) (top r) (up k) c 0 v).
Proof. rewrite repr_plug. simpl. tauto. Qed.

Lemma get_left_repr t l i c v r k :
  repr t (plug (Node l i c v r) k) → get_left_index (V:=V) t i = Ok (top l).
Proof. intros Hn%repr_node. destruct t. by rewrite (get_left_at _ _ _ _ _ Hn). Qed.
Lemma get_right_repr t l i c v r k :
  repr t (plug (Node l i c v r) k) → get_right_index (V:=V) t i = Ok (top r).
Proof. intros Hn%repr_node. destruct t. by rewrite (get_right_at _ _ _ _ _ Hn). Qed.
Lemma get_parent_repr t l i c v r k :
  repr t (plug (Node l i c v r) k) → get_parent_index (V:=V) t i = Ok (up k).
Proof. intros Hn%repr_node. destruct t. by rewrite (get_parent_at _ _ _ _ _ Hn). Qed.
Lemma get_color_repr t s k :
  repr t (plug s k) → get_color (V:=V) t (top s) = Ok (color_of s).
Proof.
  destruct s as [|l i c v r]; simpl; [done|]. intros Hn%repr_node. destruct t.
  by rewrite (get_color_at _ _ _ _ _ Hn).
Qed.

(** The parent of the focus, as a focus. *)
Lemma plug_cons s f k : plug s (f :: k) = plug (fill s f) k.
Proof. done. Qed.

Lemma repr_nodup_plug t s k : repr t (plug s k) → NoDup (ids s ++ path_ids k).
Proof. rewrite repr_plug. tauto. Qed.

Lemma repr_root_plug t s k : repr t (plug s k) → t_root t = path_root (top s) k.
Proof. rewrite repr_plug. tauto. Qed.

Lemma top_in s : s ≠ Leaf → top s ∈ ids s.
Proof. destruct s; [done|]. rewrite ids_Node. set_solver. Qed.

Lemma repr_top_NIL t s k : repr t (plug s k) → top s = NIL → s = Leaf.
Proof.
  destruct s as [|l i c v r]; [done|]. intros [Hi _]%repr_node. simpl. congruence.
Qed.

(** A focus below a parent is not the root. *)
Lemma repr_not_root t s f k : repr t (plug s (f :: k)) → s ≠ Leaf → t_root t ≠ top s.
Proof.
  intros Hr Hs. pose proof (repr_nodup_plug _ _ _ Hr) as Hnd.
  rewrite (repr_root_plug _ _ _ Hr). apply NoDup_app in Hnd as (_ & Hd & _).
  intros Heq. apply (Hd (top s)); [by apply top_in|].
  rewrite <- Heq. simpl. rewrite path_ids_cons.
  destruct (path_root_in_or (crumb_id f) k) as [->|]; set_solver.
Qed.

Lemma repr_sibling_ne t s f k : repr t (plug s (f :: k)) → s ≠ Leaf → top (crumb_sibling f) ≠ top s.
Proof.
  intros Hr Hs Heq. pose proof (repr_nodup_plug _ _ _ Hr) as Hnd.
  apply NoDup_app in Hnd as (_ & Hd & _). apply (Hd (top s)); [by apply top_in|].
  rewrite path_ids_cons. destruct (crumb_sibling f) as [|l i c v r] eqn:E.
  - destruct s; [done|]. apply repr_node in Hr as [Hn _].
    simpl in Heq. congruence.
  - rewrite <- Heq, ids_Node. set_solver.
Qed.

Definition goes_left (k : list (crumb V)) : bool :=
  match k with GoLeft _ _ _ _ :: _ => true | _ => false end.

Lemma is_left_child_repr t l i c v r k :
  repr t (plug (Node l i c v r) k) → is_left_child (V:=V) t i = Ok (goes_left k).
Proof.
  intros Hr. unfold is_left_child. destruct k as [|f k].
  - rewrite (repr_root_plug _ _ _ Hr). simpl. by rewrite Z.eqb_refl.
  - pose proof (repr_not_root _ _ _ _ Hr ltac:(done)) as Hne. simpl in Hne.
    rewrite (proj2 (Z.eqb_neq _ _)) by congruence.
    rewrite (get_parent_repr _ _ _ _ _ _ _ Hr). cbn [mbind result_bind].
    pose proof (repr_sibling_ne _ _ _ _ Hr ltac:(done)) as Hs. rewrite plug_cons in Hr.
    destruct f as [p pc pv sib|sib p pc pv]; simpl in *.
    + rewrite (get_left_repr _ _ _ _ _ _ _ Hr). simpl. by rewrite Z.eqb_refl.
    + rewrite (get_left_repr _ _ _ _ _ _ _ Hr). simpl. by rewrite (proj2 (Z.eqb_neq _ _)).
Qed.

Lemma root_relink g p k : NoDup (g :: path_ids k) →
  (if path_root g k =? g then p else path_root g k) = path_root p k.
Proof.
  destruct k as [|f k]; simpl; [by rewrite Z.eqb_refl|].
  intros [Hg _]%NoDup_cons. rewrite (proj2 (Z.eqb_neq _ _)); [done|].
  intros Heq. apply Hg. rewrite path_ids_cons.
  destruct (path_root_in_or (crumb_id f) k) as [Hc|Hc]; rewrite <- Heq; [rewrite Hc|]; set_solver.
Qed.

(** A run that started from some tree: its maximum and the blocks that are not its
    own stay. *)
Record Keep := mkKeep { k_data : Region B; k_max : Z; k_ids : list Z }.

Record reprk (K : Keep) t s : Prop := mk_reprk {
  rk_repr : repr t s;
  rk_max : t_max t = k_max K;
  rk_in : ∀ j, j ∈ ids s → j ∈ k_ids K;
  rk_out : outside (k_ids K) (k_data K) (t_data t) }.

(** A step that only writes nodes of the tree. *)
Lemma reprk_step K d rt mx s k rt' d' s' k' :
  reprk K (mkTree d rt mx) (plug s k) → repr (mkTree d' rt' mx) (plug s' k') →
  entries (plug s' k') = entries (plug s k) →
  outside (ids s ++ path_ids k) d d' → reprk K (mkTree d' rt' mx) (plug s' k').
Proof.
  intros [Hr Hm Hi Ho] Hr' He Ho'. split; [done|done| |].
  - unfold ids in *. by rewrite He.
  - eapply outside_trans; [exact Ho|]. eapply outside_mono; [|exact Ho'].
    intros j Hj. apply Hi. by rewrite ids_plug.
Qed.

Context {K : Keep}.

Lemma set_color_repr t s k c :
  reprk K t (plug s k) →
  ∃ t', set_color (V:=V) t (top s) c = Ok t' ∧ reprk K t' (plug (recolor s c) k).
Proof.
  destruct s as [|l i c0 v r]; simpl.
  - intros Hr. exists t. unfold set_color. by rewrite Z.eqb_refl.
  - intros HK. pose proof (rk_repr _ _ _ HK) as Hr. pose proof (repr_node _ _ _ _ _ _ _ Hr) as Hn.
    apply repr_plug in Hr as ((_ & Hl & Hrr) & Hk & Hnd & Hrt). simpl in *.
    destruct t as [d rt mx]. simpl in *. rewrite (set_color_at _ _ _ _ _ _ Hn).
    eexists. split; [done|]. cbn [rb_color set_field].
    pose proof (outside_insert d i (mkRBNode (top l) (top r) (up k) c 0 v)) as Ho.
    eapply reprk_step; [exact HK| |by rewrite !entries_plug|].
    2:{ eapply outside_mono; [|exact Ho]. rewrite ids_Node. clear. set_solver. }
    apply repr_plug. simpl. rewrite ids_Node in *. nodup_facts Hnd.
    split_and!; [by apply node_is_insert; apply Hn|..]; try done.
    + eapply outside_rep; [exact Ho|disj|done].
    + eapply outside_rep; [exact Ho|disj|done].
    + eapply outside_rep_path; [exact Ho|disj|done].
Qed.

Lemma rotate_left_repr t a g cg vg y p cp vp b k :
  reprk K t (plug (Node a g cg vg (Node y p cp vp b)) k) →
  ∃ t', rotate_left (V:=V) t g = Ok t'
    ∧ reprk K t' (plug (Node (Node a g cg vg y) p cp vp b) k).
Proof.
  intros HK. pose proof (rk_repr _ _ _ HK) as Hr. apply repr_plug in Hr as ((Hg & Ha & Hp & Hy & Hb) & Hk & Hnd & Hrt).
  destruct t as [d rt mx]. simpl in *. rewrite !ids_Node in *. nodup_facts Hnd.
  unfold rotate_left.
  rewrite (get_right_at _ _ _ _ _ Hg). cbn [mbind result_bind rb_right].
  rewrite (get_left_at _ _ _ _ _ Hp). cbn [mbind result_bind rb_left].
  rewrite (get_parent_at _ _ _ _ _ Hg). cbn [mbind result_bind rb_parent].
  rewrite (modify_node_at _ _ _ _ _ _ Hp).
  cbn [mbind result_bind set_field rb_left rb_right rb_parent rb_color rb_payload_type rb_value].
  set (np := mkRBNode g (top b) (up k) cp 0 vp).
  pose proof (outside_insert d p np) as O1. set (d1 := <[p:=to_block np]> d) in *.
  destruct (set_parent_tree d1 rt mx p g y) as (d2 & E2 & Hy2 & O2);
    [eapply outside_rep; [exact O1|disj|done]|done|].
  rewrite E2. cbn [mbind result_bind].
  assert (node_is d2 g (mkRBNode (top a) p (up k) cg 0 vg)) as Hg2.
  { eapply outside_node; [exact O2|disj|].
    eapply outside_node; [exact O1|disj|exact Hg]. }
  rewrite (modify_node_at _ _ _ _ _ _ Hg2).
  cbn [mbind result_bind set_field rb_left rb_right rb_parent rb_color rb_payload_type rb_value].
  set (ng := mkRBNode (top a) (top y) p cg 0 vg).
  pose proof (outside_insert d2 g ng) as O3. set (d3 := <[g:=to_block ng]> d2) in *.
  assert (outside (g :: p :: ids y) d d3) as O.
  { eapply outside_trans; [eapply outside_mono; [|exact O1]; clear; set_solver|].
    eapply outside_trans; [eapply outside_mono; [|exact O2]; clear; set_solver|].
    eapply outside_mono; [|exact O3]; clear; set_solver. }
  destruct (relink_path d3 rt mx g p k) as (d4 & E4 & Hk4 & O4);
    [eapply outside_rep_path; [exact O|disj|done]|apply Hg|apply NoDup_cons; split; [disj|done]|].
  rewrite E4. cbn [mbind result_bind t_root].
  exists (mkTree d4 (path_root p k) mx). split_and!.
  - rewrite Hrt, <- (root_relink g p k) by (apply NoDup_cons; split; [disj|done]).
    by destruct (_ =? g).
  - eapply reprk_step; [exact HK| |by rewrite !entries_plug; simpl; rewrite <- ?app_assoc; simpl; rewrite <- ?app_assoc|].
    2:{ eapply outside_trans; [eapply outside_mono; [|exact O]|eapply outside_mono; [|exact O4]];
        rewrite !ids_Node; clear; set_solver. }
    apply repr_plug. simpl. rewrite !ids_Node. split_and!; try done.
    + eapply outside_node; [exact O4|disj|]. eapply outside_node; [exact O3|disj|].
      eapply outside_node; [exact O2|disj|]. apply node_is_insert, Hp.
    + eapply outside_node; [exact O4|disj|]. apply node_is_insert, Hg.
    + eapply outside_rep; [exact O4|disj|]. eapply outside_rep; [exact O|disj|done].
    + eapply outside_rep; [exact O4|disj|]. eapply outside_rep; [exact O3|disj|done].
    + eapply outside_rep; [exact O4|disj|]. eapply outside_rep; [exact O|disj|done].
    + clear -Hnd. by rewrite <- !app_assoc in *; simpl in *; rewrite <- !app_assoc in *.
Qed.

Lemma rotate_right_repr t y p cp vp b g cg vg a k :
  reprk K t (plug (Node (Node b p cp vp y) g cg vg a) k) →
  ∃ t', rotate_right (V:=V) t g = Ok t'
    ∧ reprk K t' (plug (Node b p cp vp (Node y g cg vg a)) k).
Proof.
  intros HK. pose proof (rk_repr _ _ _ HK) as Hr. apply repr_plug in Hr as ((Hg & (Hp & Hb & Hy) & Ha) & Hk & Hnd & Hrt).
  destruct t as [d rt mx]. simpl in *. rewrite !ids_Node in *. nodup_facts Hnd.
  unfold rotate_right.
  rewrite (get_left_at _ _ _ _ _ Hg). cbn [mbind result_bind rb_left].
  rewrite (get_right_at _ _ _ _ _ Hp). cbn [mbind result_bind rb_right].
  rewrite (get_parent_at _ _ _ _ _ Hg). cbn [mbind result_bind rb_parent].
  rewrite (modify_node_at _ _ _ _ _ _ Hp).
  cbn [mbind result_bind set_field rb_left rb_right rb_parent rb_color rb_payload_type rb_value].
  set (np := mkRBNode (top b) g (up k) cp 0 vp).
  pose proof (outside_insert d p np) as O1. set (d1 := <[p:=to_block np]> d) in *.
  destruct (set_parent_tree d1 rt mx p g y) as (d2 & E2 & Hy2 & O2);
    [eapply outside_rep; [exact O1|disj|done]|done|].
  rewrite E2. cbn [mbind result_bind].
  assert (node_is d2 g (mkRBNode p (top a) (up k) cg 0 vg)) as Hg2.
  { eapply outside_node; [exact O2|disj|].
    eapply outside_node; [exact O1|disj|exact Hg]. }
  rewrite (modify_node_at _ _ _ _ _ _ Hg2).
  cbn [mbind result_bind set_field rb_left rb_right rb_parent rb_color rb_payload_type rb_value].
  set (ng := mkRBNode (top y) (top a) p cg 0 vg).
  pose proof (outside_insert d2 g ng) as O3. set (d3 := <[g:=to_block ng]> d2) in *.
  assert (outside (g :: p :: ids y) d d3) as O.
  { eapply outside_trans; [eapply outside_mono; [|exact O1]; clear; set_solver|].
    eapply outside_trans; [eapply outside_mono; [|exact O2]; clear; set_solver|].
    eapply outside_mono; [|exact O3]; clear; set_solver. }
  destruct (relink_path d3 rt mx g p k) as (d4 & E4 & Hk4 & O4);
    [eapply outside_rep_path; [exact O|disj|done]|apply Hg|apply NoDup_cons; split; [disj|done]|].
  rewrite E4. cbn [mbind result_bind t_root].
  exists (mkTree d4 (path_root p k) mx). split_and!.
  - rewrite Hrt, <- (root_relink g p k) by (apply NoDup_cons; split; [disj|done]).
    by destruct (_ =? g).
  - eapply reprk_step; [exact HK| |by rewrite !entries_plug; simpl; rewrite <- ?app_assoc; simpl; rewrite <- ?app_assoc|].
    2:{ eapply outside_trans; [eapply outside_mono; [|exact O]|eapply outside_mono; [|exact O4]];
        rewrite !ids_Node; clear; set_solver. }
    apply repr_plug. simpl. rewrite !ids_Node. split_and!; try done.
    + eapply outside_node; [exact O4|disj|]. eapply outside_node; [exact O3|disj|].
      eapply outside_node; [exact O2|disj|]. apply node_is_insert, Hp.
    + eapply outside_rep; [exact O4|disj|]. eapply outside_rep; [exact O|disj|done].
    + eapply outside_node; [exact O4|disj|]. apply node_is_insert, Hg.
    + eapply outside_rep; [exact O4|disj|]. eapply outside_rep; [exact O3|disj|done].
    + eapply outside_rep; [exact O4|disj|]. eapply outside_rep; [exact O|disj|done].
    + clear -Hnd. by rewrite <- !app_assoc in *; simpl in *; rewrite <- !app_assoc in *.
Qed.
End rotations.

(** ** Insertion on functional trees *)

Section functional.
Context {V : Type} `{HP : Payload V}.
Implicit Types (s l r : tree V) (k : list (crumb V)) (x : V).

Definition recolor_crumb (f : crumb V) (c : Color) : crumb V :=
  match f with GoLeft i _ v r => GoLeft i c v r | GoRight l i _ v => GoRight l i c v end.
Definition blacken_sibling (f : crumb V) : crumb V :=
  match f with
  | GoLeft i c v r => GoLeft i c v (recolor r Black)
  | GoRight l i c v => GoRight (recolor l Black) i c v
  end.
(** The other child of the crumb's node as the focus. *)
Definition flip (s : tree V) (f : crumb V) : crumb V :=
  match f with GoLeft i c v _ => GoRight s i c v | GoRight _ i c v => GoLeft i c v s end.

(** The path of [insert_descend] from [s] down to a leaf. *)
Fixpoint ins_path x s k : list (crumb V) :=
  match s with
  | Leaf => k
  | Node l i c v r =>
      match payload_cmp x v with
      | Gt => ins_path x r (GoRight l i c v :: k)
      | _ => ins_path x l (GoLeft i c v r :: k)
      end
  end.

(** The rotations and colour swaps that end a repair. *)
Definition rotate_fix s (f g : crumb V) : tree V :=
  match g, f with
  | GoLeft gi gc gv u, GoLeft p pc pv b => Node s p gc pv (Node b gi pc gv u)
  | GoRight u gi gc gv, GoRight b p pc pv => Node (Node u gi pc gv b) p gc pv s
  | GoLeft gi gc gv u, GoRight a p pc pv =>
      match s with
      | Leaf => fill (fill s f) g
      | Node sl i c v sr => Node (Node a p pc pv sl) i gc v (Node sr gi c gv u)
      end
  | GoRight u gi gc gv, GoLeft p pc pv a =>
      match s with
      | Leaf => fill (fill s f) g
      | Node sl i c v sr => Node (Node u gi c gv sl) i gc v (Node sr p pc pv a)
      end
  end.

(** [insert_fix_loop] on the node at the root of [s]. *)
Fixpoint fix_up s k : tree V :=
  match k with
  | [] => recolor s Black
  | f :: k1 =>
      if bool_decide (crumb_color f = Black) then plug s k else
      match k1 with
      | [] => plug s [recolor_crumb f Black]
      | g :: k2 =>
          if bool_decide (color_of (crumb_sibling g) = Red)
          then fix_up (fill (fill s (recolor_crumb f Black))
                            (recolor_crumb (blacken_sibling g) Red)) k2
          else plug (rotate_fix s f g) k2
      end
  end.

(** [insert] on a functional tree. *)
Definition insert_tree (i : Z) x s : tree V :=
  match s with
  | Leaf => Node Leaf i Black x Leaf
  | _ => fix_up (Node Leaf i Red x Leaf) (ins_path x s [])
  end.

Lemma plug_flip s f k : plug (fill s f) k = plug (crumb_sibling f) (flip s f :: k).
Proof. by destruct f. Qed.
Lemma fill_recolor s f c : recolor (fill s f) c = fill s (recolor_crumb f c).
Proof. by destruct f. Qed.
Lemma top_fill s f : top (fill s f) = crumb_id f.
Proof. by destruct f. Qed.
Lemma plug_ins_path x s k : plug Leaf (ins_path x s k) = plug s k.
Proof.
  revert k. induction s as [|l IHl i c v r IHr]; intros k; simpl; [done|].
  destruct (payload_cmp x v); rewrite ?IHl, ?IHr; done.
Qed.

Lemma ins_path_length x s k : (length (ins_path x s k) <= length k + length (ids s))%nat.
Proof.
  revert k. induction s as [|l IHl i c v r IHr]; intros k; simpl; [lia|].
  rewrite ids_Node, length_app. simpl.
  destruct (payload_cmp x v);
    match goal with |- (length (ins_path _ ?y ?p) <= _)%nat =>
      first [pose proof (IHl p)|idtac]; pose proof (IHr p) end; simpl in *; lia.
Qed.

(** The in-order listing survives the repair. *)
Lemma entries_plug_cong s s' k : entries s = entries s' → entries (plug s k) = entries (plug s' k).
Proof. rewrite !entries_plug. by intros ->. Qed.

Lemma entries_fill_cong s s' f f' :
  entries s = entries s' → lefts [f] = lefts [f'] → rights [f] = rights [f'] →
  entries (fill s f) = entries (fill s' f').
Proof.
  intros Hs Hl Hr.
  change (entries (plug s [f]) = entries (plug s' [f'])). by rewrite !entries_plug, Hs, Hl, Hr.
Qed.

Lemma entries_recolor s c : entries (recolor s c) = entries s.
Proof. by destruct s. Qed.

Lemma entries_rotate_fix s f g : entries (rotate_fix s f g) = entries (fill (fill s f) g).
Proof.
  destruct g, f; simpl; try (by rewrite <- ?app_assoc); destruct s; simpl;
    by rewrite <- ?app_assoc; simpl; rewrite <- ?app_assoc.
Qed.

Lemma entries_fix_up s k : entries (fix_up s k) = entries (plug s k).
Proof.
  remember (length k) as n eqn:Hn. revert s k Hn.
  induction (lt_wf n) as [n _ IH]. intros s k ->.
  destruct k as [|f [|g k]]; simpl; [apply entries_recolor|..].
  - case_bool_decide; [done|]. by destruct f.
  - case_bool_decide; [done|]. case_bool_decide.
    + rewrite (IH (length k)); [|simpl; lia|done]. rewrite !plug_cons. apply entries_plug_cong.
      apply entries_fill_cong; [by destruct f|..];
        destruct g; simpl; by rewrite ?entries_recolor.
    + rewrite !plug_cons. apply entries_plug_cong, entries_rotate_fix.
Qed.

Lemma entries_insert_tree i x s :
  entries (insert_tree i x s)
    = lefts (ins_path x s []) ++ (i, x) :: rights (ins_path x s []).
Proof.
  destruct s as [|l j c v r]; [done|]. unfold insert_tree. rewrite entries_fix_up, entries_plug.
  done.
Qed.

Lemma entries_split x s : entries s = lefts (ins_path x s []) ++ rights (ins_path x s []).
Proof.
  pose proof (entries_plug Leaf (ins_path x s [])) as H. rewrite plug_ins_path in H. exact H.
Qed.
End functional.

(** ** [insert] performs [insert_tree] *)

Section insertion.
Context {B V : Type} `{HB : BlockOf B (RBNode V)} `{HP : Payload V}.
Implicit Types (d : Region B) (t : Tree B) (s l r : tree V) (k : list (crumb V)) (i j : Z) (x : V).

(** Reads and colour writes on the parent, the grandparent and the uncle. *)
Lemma get_parent_focus t s f k : s ≠ Leaf → repr t (plug s (f :: k)) →
  get_parent_index (V:=V) t (top s) = Ok (crumb_id f).
Proof. destruct s; [done|]. intros _ Hr. exact (get_parent_repr _ _ _ _ _ _ _ Hr). Qed.

Lemma get_color_up t s f k : repr t (plug s (f :: k)) →
  get_color (V:=V) t (crumb_id f) = Ok (crumb_color f).
Proof.
  rewrite plug_cons. intros Hr%get_color_repr. rewrite top_fill in Hr. rewrite Hr. by destruct f.
Qed.

Lemma is_left_child_focus t s k : s ≠ Leaf → repr t (plug s k) →
  is_left_child (V:=V) t (top s) = Ok (goes_left k).
Proof. destruct s; [done|]. intros _ Hr. exact (is_left_child_repr _ _ _ _ _ _ _ Hr). Qed.

Context {K : Keep (B:=B)}.

Lemma set_color_up t s f k c : reprk K t (plug s (f :: k)) →
  ∃ t', set_color (V:=V) t (crumb_id f) c = Ok t'
    ∧ reprk K t' (plug s (recolor_crumb f c :: k)).
Proof.
  rewrite plug_cons. intros Hr. destruct (set_color_repr _ _ _ c Hr) as (t' & E & Hr').
  rewrite top_fill in E. rewrite fill_recolor in Hr'. by exists t'.
Qed.

Lemma set_color_sibling t s f k c : reprk K t (plug s (f :: k)) →
  ∃ t', set_color (V:=V) t (top (crumb_sibling f)) c = Ok t'
    ∧ reprk K t' (plug (recolor (crumb_sibling f) c) (flip s f :: k)).
Proof. rewrite plug_cons, plug_flip. apply set_color_repr. Qed.

(** The uncle, as [insert_fix] reads it. *)
Lemma uncle_read t s f g k : repr t (plug s (f :: g :: k)) →
  get_left_index (V:=V) t (crumb_id g) ≫= (λ gl,
    if gl =? crumb_id f then get_right_index (V:=V) t (crumb_id g)
    else get_left_index (V:=V) t (crumb_id g)) = Ok (top (crumb_sibling g)).
Proof.
  intros Hr. rewrite plug_cons in Hr.
  assert (fill s f ≠ Leaf) as Hne by (by destruct f).
  pose proof (repr_sibling_ne _ _ _ _ Hr Hne) as Hs. rewrite top_fill in Hs.
  rewrite plug_cons in Hr. destruct g as [gi gc gv u|u gi gc gv]; simpl in *.
  - rewrite (get_left_repr _ _ _ _ _ _ _ Hr), (get_right_repr _ _ _ _ _ _ _ Hr). simpl.
    by rewrite top_fill, Z.eqb_refl.
  - rewrite (get_left_repr _ _ _ _ _ _ _ Hr). simpl. by rewrite (proj2 (Z.eqb_neq _ _)).
Qed.

(** What one call of [insert_fix] achieves. *)
Definition fix_step s k (out : Tree B * Z) : Prop :=
  (out.2 = NIL ∧ reprk K out.1 (fix_up s k))
  ∨ ∃ s' k', s' ≠ Leaf ∧ out.2 = top s' ∧ reprk K out.1 (plug s' k')
      ∧ fix_up s k = fix_up s' k' ∧ (length k' < length k)%nat.

(** The rotation cases. *)
Lemma rotate_fix_spec t s f g k pc gc ic :
  s ≠ Leaf → reprk K t (plug s (f :: g :: k)) →
  crumb_color f = pc → crumb_color g = gc → color_of s = ic →
  ∃ t', (match goes_left (g :: k) : bool, goes_left (f :: g :: k) : bool with
         | true, true =>
             t ← rotate_right (V:=V) t (crumb_id g);
             t ← set_color (V:=V) t (crumb_id g) pc;
             set_color (V:=V) t (crumb_id f) gc
         | true, false =>
             t ← rotate_left (V:=V) t (crumb_id f);
             t ← rotate_right (V:=V) t (crumb_id g);
             t ← set_color (V:=V) t (top s) gc;
             set_color (V:=V) t (crumb_id g) ic
         | false, false =>
             t ← rotate_left (V:=V) t (crumb_id g);
             t ← set_color (V:=V) t (crumb_id g) pc;
             set_color (V:=V) t (crumb_id f) gc
         | false, true =>
             t ← rotate_right (V:=V) t (crumb_id f);
             t ← rotate_left (V:=V) t (crumb_id g);
             t ← set_color (V:=V) t (top s) gc;
             set_color (V:=V) t (crumb_id g) ic
         end) = Ok t' ∧ reprk K t' (plug (rotate_fix s f g) k).
Proof.
  intros Hne Hr <- <- <-. destruct s as [|sl i c v sr]; [done|]. clear Hne.
  destruct g as [gi gc gv u|u gi gc gv], f as [p pc pv b|b p pc pv]; simpl in *;
    rewrite !plug_cons in Hr; simpl in Hr.
  - destruct (rotate_right_repr _ _ _ _ _ _ _ _ _ _ _ Hr) as (t1 & -> & Hr1).
    cbn [mbind result_bind].
    destruct (set_color_repr t1 (Node b gi gc gv u) (GoRight (Node sl i c v sr) p pc pv :: k) pc Hr1)
      as (t2 & E2 & Hr2). simpl in E2. rewrite E2. cbn [mbind result_bind].
    destruct (set_color_repr t2 (Node (Node sl i c v sr) p pc pv (Node b gi pc gv u)) k gc Hr2)
      as (t3 & E3 & Hr3). simpl in E3. exists t3. by split.
  - destruct (rotate_left_repr t b p pc pv sl i c v sr (GoLeft gi gc gv u :: k) Hr)
      as (t1 & -> & Hr1). cbn [mbind result_bind]. rewrite plug_cons in Hr1. simpl in Hr1.
    destruct (rotate_right_repr _ _ _ _ _ _ _ _ _ _ _ Hr1) as (t2 & -> & Hr2).
    cbn [mbind result_bind].
    destruct (set_color_repr t2 (Node (Node b p pc pv sl) i c v (Node sr gi gc gv u)) k gc Hr2)
      as (t3 & E3 & Hr3). simpl in E3. rewrite E3. cbn [mbind result_bind].
    destruct (set_color_repr t3 (Node sr gi gc gv u) (GoRight (Node b p pc pv sl) i gc v :: k) c Hr3)
      as (t4 & E4 & Hr4). simpl in E4. exists t4. by split.
  - destruct (rotate_right_repr t sr i c v sl p pc pv b (GoRight u gi gc gv :: k) Hr)
      as (t1 & -> & Hr1). cbn [mbind result_bind]. rewrite plug_cons in Hr1. simpl in Hr1.
    destruct (rotate_left_repr _ _ _ _ _ _ _ _ _ _ _ Hr1) as (t2 & -> & Hr2).
    cbn [mbind result_bind].
    destruct (set_color_repr t2 (Node (Node u gi gc gv sl) i c v (Node sr p pc pv b)) k gc Hr2)
      as (t3 & E3 & Hr3). simpl in E3. rewrite E3. cbn [mbind result_bind].
    destruct (set_color_repr t3 (Node u gi gc gv sl) (GoLeft i gc v (Node sr p pc pv b) :: k) c Hr3)
      as (t4 & E4 & Hr4). simpl in E4. exists t4. by split.
  - destruct (rotate_left_repr _ _ _ _ _ _ _ _ _ _ _ Hr) as (t1 & -> & Hr1).
    cbn [mbind result_bind].
    destruct (set_color_repr t1 (Node u gi gc gv b) (GoLeft p pc pv (Node sl i c v sr) :: k) pc Hr1)
      as (t2 & E2 & Hr2). simpl in E2. rewrite E2. cbn [mbind result_bind].
    destruct (set_color_repr t2 (Node (Node u gi pc gv b) p pc pv (Node sl i c v sr)) k gc Hr2)
      as (t3 & E3 & Hr3). simpl in E3. exists t3. by split.
Qed.

(** The uncle-is-red case. *)
Lemma push_up_spec t s f g k :
  reprk K t (plug s (f :: g :: k)) →
  ∃ t', (t ← set_color (V:=V) t (crumb_id f) Black;
         t ← set_color (V:=V) t (top (crumb_sibling g)) Black;
         t ← set_color (V:=V) t (crumb_id g) Red;
         mret (t, crumb_id g)) = Ok (t', crumb_id g)
    ∧ reprk K t' (plug (fill (fill s (recolor_crumb f Black))
                             (recolor_crumb (blacken_sibling g) Red)) k).
Proof.
  intros Hr. destruct (set_color_up _ _ _ _ Black Hr) as (t1 & -> & Hr1).
  cbn [mbind result_bind]. rewrite plug_cons in Hr1.
  destruct (set_color_sibling _ _ _ _ Black Hr1) as (t2 & -> & Hr2).
  cbn [mbind result_bind].
  assert (reprk K t2 (plug (fill s (recolor_crumb f Black)) (blacken_sibling g :: k))) as Hr2'.
  { by destruct g. }
  destruct (set_color_up _ _ _ _ Red Hr2') as (t3 & E3 & Hr3).
  replace (crumb_id (blacken_sibling g)) with (crumb_id g) in E3 by (by destruct g).
  rewrite E3. cbn [mbind result_bind]. exists t3. by split.
Qed.

Lemma insert_fix_spec t s k :
  s ≠ Leaf → reprk K t (plug s k) →
  ∃ out, insert_fix (V:=V) t (top s) = Ok out ∧ fix_step s k out.
Proof.
  intros Hne HK. pose proof (rk_repr _ _ _ HK) as Hr. unfold insert_fix. destruct k as [|f k].
  { rewrite (repr_root_plug _ _ _ Hr). simpl. rewrite Z.eqb_refl.
    destruct (set_color_repr _ _ _ Black HK) as (t' & -> & Hr').
    eexists. split; [done|]. left. by split. }
  pose proof (repr_not_root _ _ _ _ Hr Hne) as Hroot.
  rewrite (proj2 (Z.eqb_neq _ _)) by done.
  rewrite (get_parent_focus _ _ _ _ Hne Hr). cbn [mbind result_bind].
  rewrite (get_color_up _ _ _ _ Hr). cbn [mbind result_bind].
  destruct (bool_decide (crumb_color f = Black)) eqn:Hfb.
  { eexists. split; [done|]. left. split; [done|]. simpl. by rewrite Hfb. }
  assert (crumb_color f = Red) as Hfr.
  { apply bool_decide_eq_false in Hfb. by destruct (crumb_color f). }
  assert (fill s f ≠ Leaf) as Hne' by (by destruct f).
  destruct k as [|g k].
  { pose proof Hr as Hr'. rewrite plug_cons in Hr'.
    assert (get_parent_index (V:=V) t (crumb_id f) = Ok NIL) as ->.
    { destruct f; exact (get_parent_repr _ _ _ _ _ _ _ Hr'). }
    cbn [mbind result_bind]. change (get_left_index (V:=V) t NIL) with (@Ok Z NIL).
    cbn [mbind result_bind].
    assert (crumb_id f ≠ NIL) as Hf%not_eq_sym.
    { destruct f; apply (repr_node _ _ _ _ _ _ _ Hr'). }
    rewrite (proj2 (Z.eqb_neq NIL (crumb_id f)) Hf). cbn [mbind result_bind].
    change (get_left_index (V:=V) t NIL) with (@Ok Z NIL). cbn [mbind result_bind].
    change (get_color (V:=V) t NIL) with (@Ok Color Black). cbn [mbind result_bind].
    rewrite bool_decide_eq_false_2 by done.
    pose proof (is_left_child_focus _ _ _ Hne' Hr') as Hpl. rewrite top_fill in Hpl.
    rewrite Hpl. cbn [mbind result_bind]. rewrite (is_left_child_focus _ _ _ Hne Hr). cbn [mbind result_bind].
    rewrite Z.eqb_refl. cbn [andb]. rewrite Hfr, bool_decide_eq_true_2 by done.
    destruct (set_color_up _ _ _ _ Black HK) as (t' & -> & Hr''). cbn [mbind result_bind].
    eexists. split; [done|]. left. split; [done|]. simpl. by rewrite Hfb. }
  pose proof Hr as Hr'. rewrite plug_cons in Hr'.
  pose proof (get_parent_focus _ _ _ _ Hne' Hr') as Hgp. rewrite top_fill in Hgp. rewrite Hgp.
  cbn [mbind result_bind].
  pose proof (uncle_read _ _ _ _ _ Hr) as Hu. apply bind_Ok in Hu as (gl & -> & Hu).
  cbn [mbind result_bind]. rewrite Hu. cbn [mbind result_bind].
  assert (get_color (V:=V) t (top (crumb_sibling g)) = Ok (color_of (crumb_sibling g))) as ->.
  { rewrite plug_cons, plug_flip in Hr'. by apply get_color_repr in Hr'. }
  cbn [mbind result_bind].
  destruct (bool_decide (color_of (crumb_sibling g) = Red)) eqn:Hur.
  { destruct (push_up_spec _ _ _ _ _ HK) as (t' & E & Hr''). rewrite E.
    eexists. split; [done|]. right.
    exists (fill (fill s (recolor_crumb f Black)) (recolor_crumb (blacken_sibling g) Red)), k.
    split_and!; [by destruct g|by destruct g|done| |simpl; lia].
    simpl. by rewrite Hfb, Hur. }
  rewrite (get_color_up _ _ _ _ Hr'). cbn [mbind result_bind].
  pose proof (is_left_child_focus _ _ _ Hne' Hr') as Hpl. rewrite top_fill in Hpl. rewrite Hpl.
  cbn [mbind result_bind]. rewrite (is_left_child_focus _ _ _ Hne Hr). cbn [mbind result_bind].
  assert (crumb_id g ≠ NIL) as Hg.
  { rewrite plug_cons in Hr'. destruct g; apply (repr_node _ _ _ _ _ _ _ Hr'). }
  rewrite (proj2 (Z.eqb_neq _ _) Hg). cbn [andb].
  rewrite (get_color_repr _ _ _ Hr). cbn [mbind result_bind].
  destruct (rotate_fix_spec t s f g k _ _ _ Hne HK eq_refl eq_refl eq_refl)
    as (t' & -> & Hr''). cbn [mbind result_bind].
  eexists. split; [done|]. left. split; [done|]. simpl. by rewrite Hfb, Hur.
Qed.

Lemma insert_fix_loop_spec fuel t s k :
  (length k < fuel)%nat → s ≠ Leaf → reprk K t (plug s k) →
  ∃ t', insert_fix_loop (V:=V) fuel t (top s) = Ok t' ∧ reprk K t' (fix_up s k).
Proof.
  revert t s k. induction fuel as [|fuel IH]; intros t s k Hf Hne Hr; [lia|]. simpl.
  destruct (insert_fix_spec _ _ _ Hne Hr) as ([t1 nxt] & -> & Hstep). cbn [mbind result_bind].
  unfold fix_step in Hstep. simpl in *. destruct Hstep as [[-> Hr']|(s' & k' & Hne' & -> & Hr' & Heq & Hlen)].
  - rewrite Z.eqb_refl. by exists t1.
  - assert (top s' ≠ NIL) as Hn.
    { intros Hn. by apply (repr_top_NIL _ _ _ (rk_repr _ _ _ Hr')) in Hn. }
    rewrite (proj2 (Z.eqb_neq _ _) Hn).
    destruct (IH t1 s' k') as (t' & E & Hr''); [lia|done..|].
    exists t'. rewrite Heq. by split.
Qed.
End insertion.

Section insertion_top.
Context {B V : Type} `{HB : BlockOf B (RBNode V)} `{HP : Payload V}.
Implicit Types (d : Region B) (t : Tree B) (s l r : tree V) (k : list (crumb V)) (i j : Z) (x : V).

(** Every entry can be brought into focus. *)
Lemma focus_entry s j v : (j, v) ∈ entries s → ∃ l c r k, s = plug (Node l j c v r) k.
Proof.
  induction s as [|l IHl i c w r IHr]; simpl; [set_solver|].
  rewrite elem_of_app, elem_of_cons. intros [H|[[= <- <-]|H]].
  - destruct (IHl H) as (l' & c' & r' & k & ->). exists l', c', r', (k ++ [GoLeft i c w r]).
    unfold plug. by rewrite foldl_app.
  - by exists l, c, r, [].
  - destruct (IHr H) as (l' & c' & r' & k & ->). exists l', c', r', (k ++ [GoRight l i c w]).
    unfold plug. by rewrite foldl_app.
Qed.

Lemma get_value_entry t s j v : repr t s → (j, v) ∈ entries s → get_value (V:=V) t j = Ok v.
Proof.
  intros Hr (l & c & r & k & ->)%focus_entry. apply repr_node in Hr as [_ Hn].
  unfold get_value, get_node. by rewrite Hn.
Qed.

Lemma repr_root_NIL t s : repr t s → (t_root t =? NIL) = match s with Leaf => true | _ => false end.
Proof.
  intros Hr. rewrite (repr_root _ _ Hr). destruct s as [|l i c v r]; [done|].
  apply Z.eqb_neq, (repr_node t l i c v r [] Hr).
Qed.

(** A represented tree is no larger than the store. *)
Lemma rep_in_dom d p s j : rep d p s → j ∈ ids s → j ∈ dom d.
Proof.
  revert p. induction s as [|l IHl i c v r IHr]; intros p; [set_solver|]. rewrite ids_Node. simpl.
  intros ([_ Hn%region_get_Ok] & Hl & Hr). rewrite elem_of_app, elem_of_cons. intros [H|[->|H]].
  - by eapply IHl.
  - by eapply elem_of_dom_2.
  - by eapply IHr.
Qed.

Lemma repr_size t s : repr t s → (length (ids s) <= size (t_data t))%nat.
Proof.
  intros [Hrep Hnd _]. rewrite <- size_dom, <- (size_list_to_set (C:=gset Z)) by done.
  apply subseteq_size. intros j Hj%elem_of_list_to_set. by eapply rep_in_dom.
Qed.

Lemma insert_descend_spec fuel t l i c v r k x :
  repr t (plug (Node l i c v r) k) → (length (ids (Node l i c v r)) <= fuel)%nat →
  insert_descend fuel t x i = Ok (up (ins_path x (Node l i c v r) k)).
Proof.
  revert l i c v r k. induction fuel as [|fuel IH]; intros l i c v r k Hr Hf;
    rewrite ids_Node, length_app in Hf; cbn [length] in Hf; [lia|].
  simpl. pose proof (repr_node _ _ _ _ _ _ _ Hr) as [_ Hn]. unfold get_node. rewrite Hn.
  cbn [mbind result_bind rb_left rb_right rb_value].
  assert (∀ y ky, repr t (plug y ky) → (length (ids y) <= fuel)%nat → up ky = i →
    (if negb (top y =? NIL) then insert_descend fuel t x (top y) else Ok i)
      = Ok (up (ins_path x y ky))) as Hchild.
  { intros y ky Hy Hly Hup. destruct y as [|yl yi yc yv yr]; [simpl; by rewrite Hup|].
    pose proof (repr_node _ _ _ _ _ _ _ Hy) as [Hyi _]. cbn [top].
    rewrite (proj2 (Z.eqb_neq _ _) Hyi). by apply IH. }
  destruct ((top l =? NIL) && (top r =? NIL)) eqn:Hleaf.
  { apply andb_true_iff in Hleaf as [Hl%Z.eqb_eq Hrr%Z.eqb_eq].
    rewrite (repr_top_NIL t l (GoLeft i c v r :: k) Hr Hl).
    rewrite (repr_top_NIL t r (GoRight l i c v :: k) Hr Hrr). by destruct (payload_cmp x v). }
  pose proof (Hchild l (GoLeft i c v r :: k) Hr ltac:(lia) eq_refl).
  pose proof (Hchild r (GoRight l i c v :: k) Hr ltac:(lia) eq_refl).
  by destruct (payload_cmp x v).
Qed.

(** The last crumb of [ins_path] was chosen by comparing with its node. *)
Definition head_ok x k : Prop :=
  match k with
  | [] => False
  | GoLeft _ _ v _ :: _ => payload_cmp v x ≠ Lt
  | GoRight _ _ _ v :: _ => payload_cmp v x = Lt
  end.

(** The comparisons with [x] read the same from both sides. *)
Definition cmp_flips x s : Prop :=
  ∀ j v, (j, v) ∈ entries s → payload_cmp v x = CompOpp (payload_cmp x v).

Lemma ins_path_head x s k : cmp_flips x s → s ≠ Leaf ∨ head_ok x k → head_ok x (ins_path x s k).
Proof.
  revert k. induction s as [|l IHl i c v r IHr]; intros k Hx Hk; simpl; [naive_solver|].
  assert (payload_cmp v x = CompOpp (payload_cmp x v)) as Hv.
  { apply (Hx i). simpl. set_solver. }
  assert (cmp_flips x l ∧ cmp_flips x r) as [Hl Hr].
  { split; intros j w Hj; apply (Hx j); simpl; set_solver. }
  destruct (payload_cmp x v) eqn:E; [apply IHl|apply IHl|apply IHr]; try done; right; simpl;
    rewrite Hv; done.
Qed.

Lemma attach_spec K t x i c f k :
  reprk K t (plug Leaf (f :: k)) → i ∈ k_ids K → head_ok x (f :: k) → i ≠ NIL → is_Some (t_data t !! i) →
  i ∉ path_ids (f :: k) →
  ∃ t', (node ← get_node (V:=V) t (crumb_id f);
         t ← (match payload_cmp (rb_value node) x with
              | Lt => set_right_index (V:=V) t (crumb_id f) i
              | _ => set_left_index (V:=V) t (crumb_id f) i
              end);
         d ← region_set (t_data t) i (new_node c x <| rb_parent := crumb_id f |>);
         mret (t <| t_data := d |>)) = Ok t'
    ∧ reprk K t' (plug (Node Leaf i c x Leaf) (f :: k)).
Proof.
  intros [Hr Hm Hin Hout] HiK Hh Hi Hd Hni. destruct t as [d rt mx]. simpl in Hd, Hm, Hout.
  assert (∀ d' n1 n2, d' = <[i := to_block n2]> (<[crumb_id f := to_block n1]> d) →
    repr (mkTree d' rt mx) (plug (Node Leaf i c x Leaf) (f :: k)) →
    reprk K (mkTree d' rt mx) (plug (Node Leaf i c x Leaf) (f :: k))) as Hk'.
  { intros d' n1 n2 -> Hr'. split; [done|done| |].
    - intros j. rewrite ids_plug. change (ids (Node Leaf i c x Leaf)) with [i]. simpl.
      intros [->|Hj]%elem_of_cons; [done|]. apply Hin. by rewrite ids_plug.
    - assert (crumb_id f ∈ k_ids K).
      { apply Hin. rewrite ids_plug, path_ids_cons. set_solver. }
      eapply outside_trans; [exact Hout|].
      eapply outside_trans; (eapply outside_mono; [|apply outside_insert]); set_solver. }
  rewrite path_ids_cons in Hni. apply not_elem_of_cons in Hni as [Hne Hni].
  apply repr_plug in Hr as (_ & Hk & Hnd & Hrt). rewrite path_ids_cons in Hnd. simpl in *.
  change (ids Leaf) with (@nil Z) in Hnd. simpl in Hnd. nodup_facts Hnd.
  assert (∀ n, is_Some (<[crumb_id f := to_block n]> d !! i)) as Hd'.
  { intros n. rewrite lookup_insert_ne; auto. }
  destruct f as [p pc pv sb|sb p pc pv]; simpl in *; destruct Hk as (Hn & Hs & Hk);
    unfold get_node; cbn [t_data]; rewrite (proj2 Hn); cbn [mbind result_bind rb_value].
  - rewrite (set_left_at _ _ _ _ _ _ Hn).
    assert (∀ a b : result (Tree B), match payload_cmp pv x with Lt => a | _ => b end = b) as ->
      by (intros; by destruct (payload_cmp pv x)).
    cbn [mbind result_bind t_data set_field]. unfold region_set.
    destruct (Hd' (mkRBNode i (top sb) (up k) pc 0 pv)) as [b Hb].
    cbn [rb_left rb_right rb_parent rb_color rb_payload_type rb_value]. rewrite Hb.
    cbn [mbind result_bind]. eexists. split; [done|]. eapply Hk'; [done|].
    set (n1 := mkRBNode i (top sb) (up k) pc 0 pv). pose proof (outside_insert d p n1) as O1.
    pose proof (node_is_insert d p n1 (proj1 Hn)) as Hp.
    set (n2 := new_node c x <| rb_parent := p |>).
    pose proof (outside_insert (<[p:=to_block n1]> d) i n2) as O2.
    apply repr_plug. rewrite path_ids_cons. simpl. split_and!.
    + by apply node_is_insert.
    + done.
    + done.
    + eapply outside_node; [exact O2|disj|exact Hp].
    + eapply outside_rep; [exact O2|disj|]. eapply outside_rep; [exact O1|disj|done].
    + eapply outside_rep_path; [exact O2|disj|]. eapply outside_rep_path; [exact O1|disj|done].
    + apply NoDup_cons. split; [|done]. rewrite not_elem_of_cons. done.
    + done.
  - rewrite Hh, (set_right_at _ _ _ _ _ _ Hn).
    cbn [mbind result_bind t_data set_field]. unfold region_set.
    destruct (Hd' (mkRBNode (top sb) i (up k) pc 0 pv)) as [b Hb].
    cbn [rb_left rb_right rb_parent rb_color rb_payload_type rb_value]. rewrite Hb.
    cbn [mbind result_bind]. eexists. split; [done|]. eapply Hk'; [done|].
    set (n1 := mkRBNode (top sb) i (up k) pc 0 pv). pose proof (outside_insert d p n1) as O1.
    pose proof (node_is_insert d p n1 (proj1 Hn)) as Hp.
    set (n2 := new_node c x <| rb_parent := p |>).
    pose proof (outside_insert (<[p:=to_block n1]> d) i n2) as O2.
    apply repr_plug. rewrite path_ids_cons. simpl. split_and!.
    + by apply node_is_insert.
    + done.
    + done.
    + eapply outside_node; [exact O2|disj|exact Hp].
    + eapply outside_rep; [exact O2|disj|]. eapply outside_rep; [exact O1|disj|done].
    + eapply outside_rep_path; [exact O2|disj|]. eapply outside_rep_path; [exact O1|disj|done].
    + apply NoDup_cons. split; [|done]. rewrite not_elem_of_cons. done.
    + done.
Qed.

(** The maximum after an insertion. *)
Definition new_max t (i : Z) x s : Z :=
  match s with
  | Leaf => i
  | _ => match get_value (V:=V) t (t_max t) with
         | Ok v => match payload_cmp v x with Lt => i | _ => t_max t end
         | Err _ => t_max t
         end
  end.

Definition max_known t s : Prop := t_max t = NIL ∨ ∃ v, (t_max t, v) ∈ entries s.

Lemma insert_node_no_fix_spec K t s x i :
  reprk K t s → i ∈ k_ids K → s ≠ Leaf → cmp_flips x s → i ≠ NIL → is_Some (t_data t !! i) → i ∉ ids s →
  ∃ t', insert_node_no_fix t (new_node Red x) i = Ok t'
    ∧ reprk K t' (plug (Node Leaf i Red x Leaf) (ins_path x s [])).
Proof.
  intros HK HiK Hne Hx Hi Hd Hni. unfold insert_node_no_fix. cbn [rb_value new_node].
  pose proof (rk_repr _ _ _ HK) as Hr. pose proof (repr_size _ _ Hr) as Hsz.
  destruct s as [|l j c v r]; [done|]. rewrite (repr_root _ _ Hr). cbn [top].
  rewrite (insert_descend_spec _ t l j c v r [] x) by (done || (unfold fuel_of; lia)).
  cbn [mbind result_bind].
  pose proof (ins_path_head x (Node l j c v r) [] Hx (or_introl Hne)) as Hh.
  destruct (ins_path x (Node l j c v r) []) as [|f k] eqn:Hp; [done|].
  assert (reprk K t (plug Leaf (f :: k))) as Hr'.
  { rewrite <- Hp, plug_ins_path. exact HK. }
  apply (attach_spec K t x i Red f k); try done.
  intros Hin. apply Hni. change (i ∈ ids (plug (Node l j c v r) [])).
  rewrite <- (plug_ins_path x), Hp, ids_plug. apply elem_of_app. by right.
Qed.

(** [insert] performs [insert_tree]. *)
Lemma insert_repr t s x i :
  repr t s → max_known t s → cmp_flips x s → i ≠ NIL → is_Some (t_data t !! i) → i ∉ ids s →
  ∃ t', insert t i x = Ok t' ∧ repr t' (insert_tree i x s)
    ∧ t_max t' = (if (t_max t =? NIL) && negb (t_root t =? NIL) then NIL else new_max t i x s)
    ∧ outside (i :: ids s) (t_data t) (t_data t').
Proof.
  intros Hr Hmax Hx Hi Hd Hni. unfold insert. rewrite (repr_root_NIL _ _ Hr).
  destruct s as [|l j c v r] eqn:Hs.
  - destruct Hd as [b Hb]. unfold region_set. rewrite Hb. cbn [mbind result_bind].
    eexists. split; [done|]. split_and!; [|cbn; by rewrite andb_false_r|].
    + split; [|apply NoDup_singleton|done]. split_and!; [|done..]. by apply node_is_insert.
    + eapply outside_mono; [|apply outside_insert]. set_solver.
  - rewrite <- Hs in *. assert (s ≠ Leaf) as Hne by (by rewrite Hs).
    assert (∀ m, reprk (mkKeep (t_data t) m (i :: ids s)) (t <| t_max := m |>) s) as Hrm.
    { intros m. split; [destruct Hr; by split|done|intros y Hy; by apply list_elem_of_further|done]. }
    assert (∃ m, (if negb (t_max t =? NIL) then
         max_value ← get_value (V:=V) t (t_max t);
         match payload_cmp max_value x with
         | Lt => Ok (t <| t_max := i |>)
         | _ => Ok t
         end
       else Ok t) = Ok (t <| t_max := m |>)
       ∧ m = (if t_max t =? NIL then NIL else new_max t i x s)) as (m & -> & Hm).
    { destruct (Z.eqb_spec (t_max t) NIL) as [He|Hn]; simpl.
      - exists NIL. rewrite <- He. by destruct t.
      - destruct Hmax as [?|[mv Hmv]]; [done|]. unfold new_max. rewrite Hs.
        rewrite (get_value_entry _ _ _ _ Hr Hmv). cbn [mbind result_bind].
        destruct (payload_cmp mv x); eexists; (split; [|done]); by destruct t. }
    cbn [mbind result_bind negb]. rewrite andb_true_r.
    destruct (insert_node_no_fix_spec _ (t <| t_max := m |>) s x i (Hrm m)) as (t1 & -> & Hr1);
      [cbn; set_solver|done..|]. cbn [mbind result_bind].
    pose proof (ins_path_length x s []) as Hlen. pose proof (repr_size _ _ (rk_repr _ _ _ Hr1)) as Hsz.
    rewrite ids_plug, length_app, ids_Node in Hsz. simpl in Hsz.
    destruct (insert_fix_loop_spec (K:=mkKeep (t_data t) m (i :: ids s)) (fuel_of t1) t1 (Node Leaf i Red x Leaf) (ins_path x s []))
      as (t2 & E2 & Hr2); [|done|exact Hr1|].
    + unfold fuel_of.
      assert (∀ q, (length q <= length (path_ids (V:=V) q))%nat) as Hq.
      { intros q. induction q as [|f q IHq]; [done|].
        rewrite path_ids_cons. cbn [length]. rewrite length_app. lia. }
      specialize (Hq (ins_path x s [])). lia.
    + exists t2. split; [exact E2|]. destruct Hr2 as [Hr2 Hm2 _ Ho2].
      split_and!; [|by rewrite Hm2|exact Ho2]. unfold insert_tree. rewrite Hs in *. exact Hr2.
Qed.
End insertion_top.
