(* ===== verification/HypertreeOrder.v ===== *)
(** * Order, lookup, iteration and balance of the tree

    [tree_inv t E]: [t] is a balanced search tree that lists the entries [E].  This
    is the contract the accounts rely on: what [insert], [lookup_index] and [iter] do
    to [E], that they succeed, and that they touch no other block. *)
From Stdlib Require Import Sorting.Sorted.
From stdpp Require Import base numbers list option gmap fin_maps.
From S2P Require Import Prelude Hypertree HypertreeFrame HypertreeSpec.
Local Open Scope Z_scope.

(** ** Order, lookup and iteration *)

(** The order laws a tree relies on, for the values that satisfy [P]. *)
Class PayloadOrder {V} `{Payload V} (P : V → Prop) : Prop := {
  po_antisym a b : P a → P b → payload_cmp b a = CompOpp (payload_cmp a b);
  po_trans a b c : P a → P b → P c →
    payload_cmp a b ≠ Gt → payload_cmp b c ≠ Gt → payload_cmp a c ≠ Gt;
  po_eqb a b : P a → P b → payload_cmp a b = Eq → payload_eqb a b = true }.

Section ordered.
Context {V : Type} `{HP : Payload V} (P : V → Prop) `{HO : !PayloadOrder P}.
Implicit Types (s l r : tree V) (k : list (crumb V)) (i j : Z) (x : V) (E : list (Z * V)).

Definition entry_le (a b : Z * V) : Prop := payload_cmp a.2 b.2 ≠ Gt.
Definition all_P E : Prop := Forall (λ e, P e.2) E.

(** The search-tree invariant. *)
Definition sorted s : Prop := all_P (entries s) ∧ StronglySorted entry_le (entries s).

Lemma StronglySorted_app_iff {A} (R : A → A → Prop) (l1 l2 : list A) :
  StronglySorted R (l1 ++ l2) ↔
  StronglySorted R l1 ∧ StronglySorted R l2 ∧ ∀ a b, a ∈ l1 → b ∈ l2 → R a b.
Proof.
  induction l1 as [|a l1 IH]; simpl.
  - split; [|tauto]. intros H. split_and!; [constructor|done|]. intros ? ? H'. by apply not_elem_of_nil in H'.
  - split.
    + intros [H Hf]%StronglySorted_inv. apply IH in H as (H1 & H2 & H3).
      apply Forall_app in Hf as [Hf1 Hf2]. rewrite Forall_forall in Hf2.
      split_and!; [by constructor|done|]. intros c b [->|Hc]%elem_of_cons Hb; auto.
    + intros ([H1 Hf]%StronglySorted_inv & H2 & H3). constructor.
      * apply IH. split_and!; [done|done|]. intros c b Hc Hb. apply H3; [by right|done].
      * apply Forall_app. split; [done|]. rewrite Forall_forall. intros b Hb. apply H3; [by left|done].
Qed.

Lemma StronglySorted_reverse {A} (R : A → A → Prop) (l : list A) :
  StronglySorted (λ a b, R b a) l → StronglySorted R (reverse l).
Proof.
  induction 1 as [|a l Hs IH Hf]; [constructor|]. rewrite reverse_cons.
  apply StronglySorted_app_iff. split_and!; [done|repeat constructor|].
  intros b c Hb Hc. rewrite elem_of_reverse in Hb. apply list_elem_of_singleton in Hc as ->.
  rewrite Forall_forall in Hf. exact (Hf b Hb).
Qed.

Lemma StronglySorted_impl_in {A} (R R' : A → A → Prop) (l : list A) :
  (∀ a b, a ∈ l → b ∈ l → R a b → R' a b) → StronglySorted R l → StronglySorted R' l.
Proof.
  intros Hi Hs. induction Hs as [|a l Hs IH Hf]; constructor.
  - apply IH. intros b c Hb Hc. apply Hi; by right.
  - rewrite Forall_forall in *. intros b Hb. apply Hi; [by left|by right|by apply Hf].
Qed.

Lemma sorted_Node l i c v r :
  sorted (Node l i c v r) ↔
  sorted l ∧ sorted r ∧ P v ∧ (∀ e, e ∈ entries l → payload_cmp e.2 v ≠ Gt)
  ∧ (∀ e, e ∈ entries r → payload_cmp v e.2 ≠ Gt)
  ∧ ∀ e e', e ∈ entries l → e' ∈ entries r → payload_cmp e.2 e'.2 ≠ Gt.
Proof.
  unfold sorted, all_P. simpl. rewrite Forall_app, Forall_cons, StronglySorted_app_iff.
  split.
  - intros ((Hpl & Hv & Hpr) & Hl & [Hr Hvr]%StronglySorted_inv & Hc).
    rewrite Forall_forall in Hvr. split_and!; try done.
    + intros e He. apply (Hc e (i, v) He). left.
    + intros e e' He He'. apply (Hc e e' He). by right.
  - intros ((Hpl & Hl) & (Hpr & Hr) & Hv & H1 & H2 & H3). split_and!; try done.
    + constructor; [done|]. rewrite Forall_forall. exact H2.
    + intros e e' He [->|He']%elem_of_cons; [by apply H1|by apply H3].
Qed.

Lemma sorted_P s e : sorted s → e ∈ entries s → P e.2.
Proof. intros [H _]. unfold all_P in H. rewrite Forall_forall in H. apply H. Qed.

Lemma po_lt_flip a b : P a → P b → payload_cmp a b = Gt → payload_cmp b a = Lt.
Proof. intros Ha Hb H. by rewrite (po_antisym a b), H. Qed.

Lemma po_le_lt a b x : P a → P b → P x →
  payload_cmp a b ≠ Gt → payload_cmp b x = Lt → payload_cmp a x = Lt.
Proof.
  intros Ha Hb Hx Hab Hbx. destruct (payload_cmp a x) eqn:E; [|done|].
  - exfalso. apply (po_trans x a b); try done.
    + by rewrite (po_antisym a x), E.
    + by rewrite (po_antisym b x), Hbx.
  - exfalso. apply (po_trans x a b); try done.
    + by rewrite (po_antisym a x), E.
    + by rewrite (po_antisym b x), Hbx.
Qed.

(** Where [ins_path] puts a value: after what is smaller, before what is not. *)
Lemma ins_path_split x s k : P x → sorted s →
  ∃ E1 E2, lefts (ins_path x s k) = lefts k ++ E1 ∧ rights (ins_path x s k) = E2 ++ rights k
    ∧ entries s = E1 ++ E2
    ∧ (∀ e, e ∈ E1 → payload_cmp e.2 x = Lt) ∧ (∀ e, e ∈ E2 → payload_cmp x e.2 ≠ Gt).
Proof.
  intros Hx. revert k. induction s as [|l IHl i c v r IHr]; intros k Hs.
  - exists [], []. simpl. rewrite app_nil_r. split_and!; try done;
      intros e He; by apply not_elem_of_nil in He.
  - pose proof Hs as (Hl & Hr & Hv & Hlv & Hvr & Hlr)%sorted_Node. simpl.
    destruct (payload_cmp x v) eqn:E.
    3:{ destruct (IHr (GoRight l i c v :: k) Hr) as (E1 & E2 & H1 & H2 & He & Hle & Hge).
        exists (entries l ++ (i, v) :: E1), E2. rewrite H1, H2, He. simpl.
        rewrite <- !app_assoc. split_and!; [done|done|done| |done].
        pose proof (po_lt_flip _ _ Hx Hv E) as Hvx.
        intros e [He'|[->|He']%elem_of_cons]%elem_of_app.
        + apply (po_le_lt e.2 v x); auto. by apply (sorted_P l).
        + done.
        + by apply Hle. }
    all: destruct (IHl (GoLeft i c v r :: k) Hl) as (E1 & E2 & H1 & H2 & He & Hle & Hge);
      exists E1, (E2 ++ (i, v) :: entries r); rewrite H1, H2, He; simpl;
      rewrite <- !app_assoc; split_and!; try done;
      intros e [He'|[->|He']%elem_of_cons]%elem_of_app; [by apply Hge|by simpl; rewrite E|];
      apply (po_trans x v e.2); auto; [by apply (sorted_P r)|by rewrite E].
Qed.

Lemma insert_tree_split i x s : P x → sorted s →
  ∃ E1 E2, entries s = E1 ++ E2 ∧ entries (insert_tree i x s) = E1 ++ (i, x) :: E2
    ∧ (∀ e, e ∈ E1 → payload_cmp e.2 x = Lt) ∧ (∀ e, e ∈ E2 → payload_cmp x e.2 ≠ Gt).
Proof.
  intros Hx Hs. destruct (ins_path_split x s [] Hx Hs) as (E1 & E2 & H1 & H2 & He & Hle & Hge).
  rewrite app_nil_r in H2. simpl in H1. exists E1, E2. split_and!; try done.
  by rewrite entries_insert_tree, H1, H2.
Qed.

Lemma insert_tree_sorted i x s : P x → sorted s → sorted (insert_tree i x s).
Proof.
  intros Hx Hs. destruct (insert_tree_split i x s Hx Hs) as (E1 & E2 & He & Hi & Hle & Hge).
  destruct Hs as [Hp Hs]. unfold sorted, all_P in *. rewrite Hi. rewrite He in Hp, Hs.
  rewrite Forall_app, Forall_cons in *. rewrite StronglySorted_app_iff in *.
  destruct Hs as (Hs1 & Hs2 & Hs3). split_and!; try tauto.
  - constructor; [done|]. rewrite Forall_forall. exact Hge.
  - intros a b Ha [->|Hb]%elem_of_cons; [|by apply Hs3].
    unfold entry_le. simpl. by rewrite Hle.
Qed.

Lemma sorted_cmp_flips x s : P x → sorted s → cmp_flips x s.
Proof. intros Hx Hs j v Hj. apply po_antisym; [done|]. by apply (sorted_P s (j, v)). Qed.

(** *** Lookup *)

Fixpoint find_tree x s : Z :=
  match s with
  | Leaf => NIL
  | Node l i _ v r =>
      match payload_cmp v x with
      | Eq => i
      | Gt => find_tree x l
      | Lt => find_tree x r
      end
  end.

Lemma find_tree_sound x s : find_tree x s ≠ NIL →
  ∃ v, (find_tree x s, v) ∈ entries s ∧ payload_cmp v x = Eq.
Proof.
  induction s as [|l IHl i c v r IHr]; simpl; [done|].
  destruct (payload_cmp v x) eqn:E.
  - intros _. exists v. split; [set_solver|done].
  - intros (w & Hw & Hc)%IHr. exists w. split; [set_solver|done].
  - intros (w & Hw & Hc)%IHl. exists w. split; [set_solver|done].
Qed.

Lemma find_tree_complete x s j v : P x → sorted s → (j, v) ∈ entries s → payload_cmp v x = Eq →
  ∃ w, (find_tree x s, w) ∈ entries s ∧ payload_cmp w x = Eq.
Proof.
  intros Hx Hs Hj Hv. induction s as [|l IHl i c w r IHr]; [by apply not_elem_of_nil in Hj|].
  pose proof Hs as (Hl & Hr & Hw & Hlw & Hwr & Hlr)%sorted_Node. simpl in *.
  apply elem_of_app in Hj as [Hj|[[= -> ->]|Hj]%elem_of_cons].
  - pose proof (Hlw _ Hj) as Hvw. simpl in Hvw.
    assert (payload_cmp w x ≠ Lt) as Hn.
    { intros Hlt. apply (po_trans x v w) in Hvw; try done.
      - apply Hvw. by rewrite (po_antisym w x), Hlt.
      - apply (sorted_P l (j, v)); done.
      - rewrite (po_antisym v x), Hv; [done|by apply (sorted_P l (j, v))|done]. }
    destruct (payload_cmp w x) eqn:E; [exists w; split; [set_solver|done]|done|].
    destruct (IHl Hl Hj) as (u & Hu & ?). exists u. split; [set_solver|done].
  - rewrite Hv. exists w. split; [set_solver|done].
  - pose proof (Hwr _ Hj) as Hwv. simpl in Hwv.
    assert (payload_cmp w x ≠ Gt) as Hn.
    { apply (po_trans w v x); try done; [by apply (sorted_P r (j, v))|by rewrite Hv]. }
    destruct (payload_cmp w x) eqn:E; [exists w; split; [set_solver|done]| |done].
    destruct (IHr Hr Hj) as (u & Hu & ?). exists u. split; [set_solver|done].
Qed.
End ordered.

Section walks.
Context {B V : Type} `{HB : BlockOf B (RBNode V)} `{HP : Payload V}.
Implicit Types (t : Tree B) (s l r : tree V) (k : list (crumb V)) (i j : Z) (x : V).

(** When equal comparisons mean equal values, [lookup_index] is [find_tree]. *)
Lemma lookup_loop_spec fuel t x s k :
  (∀ j v, (j, v) ∈ entries s → payload_cmp v x = Eq → payload_eqb v x = true) →
  repr t (plug s k) → (S (height s) < fuel)%nat →
  lookup_loop fuel t x [top s] = Ok (find_tree x s).
Proof.
  revert s k. induction fuel as [|fuel IH]; intros s k Heq Hr Hf; [lia|].
  destruct s as [|l i c v r].
  { simpl. destruct fuel; [simpl in Hf; lia|done]. }
  pose proof (repr_node _ _ _ _ _ _ _ Hr) as [Hi Hn]. simpl.
  rewrite (proj2 (Z.eqb_neq _ _) Hi). unfold get_value, get_node. rewrite Hn.
  cbn [fmap result_fmap mbind result_bind rb_value].
  cbn [height] in Hf.
  destruct (payload_cmp v x) eqn:E.
  - rewrite (Heq i v); [done| |done]. simpl. set_solver.
  - rewrite (get_right_repr _ _ _ _ _ _ _ Hr). cbn [mbind result_bind].
    apply (IH r (GoRight l i c v :: k)); [|done|lia].
    intros j w Hj. apply (Heq j). simpl. set_solver.
  - rewrite (get_left_repr _ _ _ _ _ _ _ Hr). cbn [mbind result_bind].
    apply (IH l (GoLeft i c v r :: k)); [|done|lia].
    intros j w Hj. apply (Heq j). simpl. set_solver.
Qed.

Lemma lookup_index_repr t x s :
  (∀ j v, (j, v) ∈ entries s → payload_cmp v x = Eq → payload_eqb v x = true) →
  repr t s → lookup_index t x = Ok (find_tree x s).
Proof.
  intros Heq Hr. unfold lookup_index. rewrite (repr_root_NIL _ _ Hr).
  destruct s as [|l i c v r]; [done|]. pose proof (repr_size _ _ Hr).
  rewrite (repr_root _ _ Hr). apply (lookup_loop_spec _ _ _ _ []); [done|done|].
  pose proof (height_le_ids (Node l i c v r)). unfold fuel_of. lia.
Qed.

Definition last_id (E : list (Z * V)) : Z := default NIL (last E.*1).

Lemma last_id_snoc E i v : last_id (E ++ [(i, v)]) = i.
Proof.
  unfold last_id. rewrite fmap_app. change ([(i, v)].*1) with [i]. by rewrite last_snoc.
Qed.

Lemma last_id_app E1 E2 : E2 ≠ [] → last_id (E1 ++ E2) = last_id E2.
Proof.
  destruct (last E2) as [[i v]|] eqn:Hl.
  - apply last_Some in Hl as [E' ->]. intros _. by rewrite app_assoc, !last_id_snoc.
  - by apply last_None in Hl as ->.
Qed.

Lemma rightmost_spec fuel t l i c v r k :
  repr t (plug (Node l i c v r) k) → (length (ids (Node l i c v r)) <= fuel)%nat →
  rightmost (V:=V) fuel t i = Ok (last_id (entries (Node l i c v r))).
Proof.
  revert l i c v r k. induction fuel as [|fuel IH]; intros l i c v r k Hr Hf;
    rewrite ids_Node, length_app in Hf; cbn [length] in Hf; [lia|]. simpl.
  rewrite (get_right_repr _ _ _ _ _ _ _ Hr). cbn [mbind result_bind].
  destruct r as [|rl ri rc rv rr].
  - simpl. by rewrite last_id_snoc.
  - pose proof (repr_node t rl ri rc rv rr (GoRight l i c v :: k) Hr) as [Hri _]. simpl.
    rewrite (proj2 (Z.eqb_neq _ _) Hri).
    rewrite (IH rl ri rc rv rr (GoRight l i c v :: k) Hr) by lia.
    rewrite (cons_middle (i, v) (entries l)), app_assoc, (last_id_app _ (entries rl ++ _)); [done|].
    by destruct (entries rl).
Qed.

Lemma climb_left_spec fuel t l i c v r k :
  repr t (plug (Node l i c v r) k) → (length k < fuel)%nat →
  ∃ j, climb_left (V:=V) fuel t i = Ok j ∧ get_parent_index (V:=V) t j = Ok (last_id (lefts k)).
Proof.
  revert l i c v r k. induction fuel as [|fuel IH]; intros l i c v r k Hr Hf; [lia|]. simpl.
  rewrite (is_left_child_repr _ _ _ _ _ _ _ Hr). cbn [mbind result_bind].
  destruct k as [|[p pc pv sb|sb p pc pv] k]; simpl.
  - exists i. split; [done|]. by rewrite (get_parent_repr _ _ _ _ _ _ _ Hr).
  - rewrite (get_parent_repr _ _ _ _ _ _ _ Hr). simpl. rewrite plug_cons in Hr. simpl in Hr.
    apply (IH _ _ _ _ _ _ Hr). simpl in Hf. lia.
  - exists i. split; [done|]. rewrite (get_parent_repr _ _ _ _ _ _ _ Hr). simpl.
    by rewrite app_assoc, last_id_snoc.
Qed.

Lemma path_length_ids k : (length k <= length (path_ids (V:=V) k))%nat.
Proof.
  induction k as [|f k IH]; [done|]. rewrite path_ids_cons. cbn [length].
  rewrite length_app. lia.
Qed.

(** The in-order predecessor. *)
Lemma get_next_lower_index_spec t l i c v r k :
  repr t (plug (Node l i c v r) k) →
  get_next_lower_index (V:=V) t i = Ok (last_id (lefts k ++ entries l)).
Proof.
  intros Hr. pose proof (repr_node _ _ _ _ _ _ _ Hr) as [Hi _].
  pose proof (repr_size _ _ Hr) as Hsz. rewrite ids_plug, length_app, ids_Node, length_app in Hsz.
  cbn [length] in Hsz. pose proof (path_length_ids k) as Hpl.
  unfold get_next_lower_index. rewrite (proj2 (Z.eqb_neq _ _) Hi).
  rewrite (get_left_repr _ _ _ _ _ _ _ Hr). cbn [mbind result_bind].
  destruct l as [|ll li lc lv lr].
  - cbn [top entries]. rewrite Z.eqb_refl, app_nil_r. cbn [negb].
    destruct (climb_left_spec (fuel_of t) _ _ _ _ _ _ _ Hr) as (j & -> & Hj);
      [unfold fuel_of; lia|]. cbn [mbind result_bind]. exact Hj.
  - pose proof (repr_node t ll li lc lv lr (GoLeft i c v r :: k) Hr) as [Hli _]. cbn [top].
    rewrite (proj2 (Z.eqb_neq _ _) Hli). cbn [negb].
    rewrite (rightmost_spec _ t ll li lc lv lr (GoLeft i c v r :: k) Hr)
      by (unfold fuel_of; lia).
    rewrite last_id_app; [done|]. simpl. by destruct (entries ll).
Qed.

(** The position of an index in a listing is unique. *)
Lemma split_unique (E1 E2 F1 F2 : list (Z * V)) i v w :
  E1 ++ (i, v) :: E2 = F1 ++ (i, w) :: F2 → NoDup (E1 ++ (i, v) :: E2).*1 → E1 = F1 ∧ v = w ∧ E2 = F2.
Proof.
  revert F1. induction E1 as [|e E1 IH]; intros [|f F1] Heq Hnd; simpl in *.
  - naive_solver.
  - injection Heq as <- ->. apply NoDup_cons in Hnd as [Hni _]. exfalso. apply Hni.
    rewrite fmap_app, elem_of_app. right. simpl. left.
  - injection Heq as -> <-. apply NoDup_cons in Hnd as [Hni _]. exfalso. apply Hni.
    rewrite fmap_app, elem_of_app. right. simpl. left.
  - injection Heq as <- Heq. apply NoDup_cons in Hnd as [_ Hnd].
    destruct (IH F1 Heq Hnd) as (-> & -> & ->). done.
Qed.

Lemma next_lower_entries t s E1 i v E2 : repr t s → entries s = E1 ++ (i, v) :: E2 →
  get_next_lower_index (V:=V) t i = Ok (last_id E1).
Proof.
  intros Hr He. destruct (focus_entry s i v) as (l & c & r & k & ->); [rewrite He; set_solver|].
  rewrite (get_next_lower_index_spec _ _ _ _ _ _ _ Hr). do 2 f_equal.
  pose proof (repr_nodup _ _ Hr) as Hnd. unfold ids in Hnd. rewrite He in Hnd.
  rewrite entries_plug in He. simpl in He. rewrite <- app_assoc, app_assoc in He. simpl in He.
  by destruct (split_unique _ _ _ _ _ _ _ (eq_sym He) Hnd) as (-> & _).
Qed.

(** A walk from an entry lists it and what is below it, downwards. *)
Lemma iter_from_spec fuel t s E1 i v E2 : repr t s → entries s = E1 ++ (i, v) :: E2 →
  (S (length E1) < fuel)%nat →
  iter_from (V:=V) fuel t i = Ok (i :: reverse E1.*1).
Proof.
  intros Hr. revert i v E1 E2. induction fuel as [|fuel IH]; intros i v E1 E2 He Hf; [lia|]. simpl.
  assert (i ≠ NIL) as Hi.
  { destruct (focus_entry s i v) as (l & c & r & k & ->); [rewrite He; set_solver|].
    by apply repr_node in Hr as [? _]. }
  rewrite (proj2 (Z.eqb_neq _ _) Hi), (next_lower_entries _ _ _ _ _ _ Hr He). cbn [mbind result_bind].
  destruct (last E1) as [[j w]|] eqn:Hl.
  - apply last_Some in Hl as [E' ->]. rewrite last_id_snoc. rewrite <- app_assoc in He.
    rewrite length_app in Hf. cbn [length] in Hf.
    rewrite (IH j w E' _ He) by lia. cbn [mbind result_bind].
    by rewrite fmap_app, reverse_app.
  - apply last_None in Hl as ->. destruct fuel; [simpl in Hf; lia|]. done.
Qed.

(** The maximum pointer of a bookside: unused, or the last entry. *)
Definition max_ok t s : Prop := t_max t = NIL ∨ t_max t = last_id (entries s).

(** [iter] lists the tree from its last entry down. *)
Lemma iter_indices_repr t s : repr t s → max_ok t s →
  iter_indices (V:=V) t = Ok (reverse (ids s)).
Proof.
  intros Hr Hm. unfold iter_indices.
  assert ((if t_max t =? NIL then lookup_max_index (V:=V) t else Ok (t_max t))
    = Ok (last_id (entries s))) as ->.
  { destruct (Z.eqb_spec (t_max t) NIL) as [_|Hn].
    - unfold lookup_max_index. rewrite (repr_root_NIL _ _ Hr).
      destruct s as [|l i c v r]; [done|]. rewrite (repr_root _ _ Hr).
      pose proof (repr_size _ _ Hr).
      apply (rightmost_spec _ t l i c v r [] Hr). unfold fuel_of. lia.
    - destruct Hm as [?|Hm]; [done|]. by rewrite Hm. }
  cbn [mbind result_bind]. pose proof (repr_size _ _ Hr) as Hsz.
  destruct (last (entries s)) as [[i v]|] eqn:Hl.
  - apply last_Some in Hl as [E He]. rewrite He, last_id_snoc.
    unfold ids in *. rewrite He in Hsz. rewrite length_fmap, length_app in Hsz.
    cbn [length] in Hsz.
    rewrite (iter_from_spec _ _ _ E i v [] Hr He) by (unfold fuel_of; lia).
    by rewrite He, fmap_app, reverse_app.
  - apply last_None in Hl. unfold ids. rewrite Hl. done.
Qed.
End walks.

(** ** Balance *)

Section balance.
Context {V : Type} `{HP : Payload V}.
Implicit Types (s l r : tree V) (k : list (crumb V)) (n m : nat) (x : V).

(** The red-black invariant: [n] black nodes on every path, no red node with a red
    child. *)
Inductive rb : tree V → nat → Prop :=
  | rb_leaf : rb Leaf 0
  | rb_black l i v r n : rb l n → rb r n → rb (Node l i Black v r) (S n)
  | rb_red l i v r n : rb l n → rb r n → color_of l = Black → color_of r = Black →
      rb (Node l i Red v r) n.

Definition head_black k : Prop :=
  match k with [] => True | f :: _ => crumb_color f = Black end.

(** A path whose hole wants [n] black nodes. *)
Inductive rb_path : list (crumb V) → nat → Prop :=
  | rbp_nil n : rb_path [] n
  | rbp_black f k n : crumb_color f = Black → rb (crumb_sibling f) n → rb_path k (S n) →
      rb_path (f :: k) n
  | rbp_red f k n : crumb_color f = Red → rb (crumb_sibling f) n →
      color_of (crumb_sibling f) = Black → head_black k → rb_path k n → rb_path (f :: k) n.

Definition balanced s : Prop := color_of s = Black ∧ ∃ n, rb s n.

Lemma rb_fill_black s f n : crumb_color f = Black → rb s n → rb (crumb_sibling f) n →
  rb (fill s f) (S n).
Proof. destruct f; simpl; intros -> Hs Hf; by constructor. Qed.
Lemma rb_fill_red s f n : crumb_color f = Red → rb s n → rb (crumb_sibling f) n →
  color_of s = Black → color_of (crumb_sibling f) = Black → rb (fill s f) n.
Proof. destruct f; simpl; intros -> Hs Hf Hc Hc'; by constructor. Qed.
Lemma color_fill s f : color_of (fill s f) = crumb_color f.
Proof. by destruct f. Qed.

Lemma rb_plug s k n : rb_path k n → rb s n → color_of s = Black ∨ head_black k →
  ∃ m, rb (plug s k) m.
Proof.
  intros Hk. revert s. induction Hk as [n|f k n Hc Hf Hk IH|f k n Hc Hf Hfc Hh Hk IH];
    intros s Hs Hor; [by exists n|..]; rewrite plug_cons.
  - apply IH; [by apply rb_fill_black|]. left. by rewrite color_fill.
  - apply IH; [|by right]. apply rb_fill_red; try done. destruct Hor as [?|Hx]; [done|].
    simpl in Hx. congruence.
Qed.

(** Every path of a balanced tree is one. *)
Lemma rb_unplug s k m : rb (plug s k) m → ∃ n, rb s n ∧ rb_path k n ∧ (color_of s = Red → head_black k).
Proof.
  revert s. induction k as [|f k IH]; intros s Hr; [exists m; by repeat constructor|].
  rewrite plug_cons in Hr. destruct (IH _ Hr) as (n & Hn & Hk & Hh). rewrite color_fill in Hh.
  destruct f as [i c v sb|sb i c v]; simpl in *; inversion Hn; subst; simpl in *;
    eexists; (split; [done|split; [|done || congruence]]); first
      [by apply rbp_black | by apply rbp_red; auto].
Qed.

Lemma rb_recolor_black s n : rb s n → ∃ m, rb (recolor s Black) m.
Proof. intros []; simpl; eexists; by constructor. Qed.

Lemma rb_blacken s n : rb s n → color_of s = Red → rb (recolor s Black) (S n).
Proof. intros []; simpl; intros; [done|done|]. by constructor. Qed.

Lemma rotate_fix_rb s f g n :
  rb s n → color_of s = Red → crumb_color f = Red → crumb_color g = Black →
  rb (crumb_sibling f) n → color_of (crumb_sibling f) = Black →
  rb (crumb_sibling g) n → color_of (crumb_sibling g) = Black →
  rb (rotate_fix s f g) (S n) ∧ color_of (rotate_fix s f g) = Black.
Proof.
  intros Hs Hsc Hf Hg Hfs Hfc Hgs Hgc.
  destruct g, f; simpl in *; subst; destruct Hs; simpl in *; try done;
    split; try done; repeat constructor; try done.
Qed.

(** The repair restores the invariant, whatever path the red node hangs on. *)
Lemma fix_up_rb s k n : rb s n → color_of s = Red → rb_path k n → ∃ m, rb (fix_up s k) m.
Proof.
  remember (length k) as len eqn:Hlen. revert s k n Hlen.
  induction (lt_wf len) as [len _ IH]. intros s k n -> Hs Hsc Hk.
  destruct Hk as [n|f k n Hc Hf Hk|f k n Hc Hf Hfc Hh Hk].
  - simpl. by eapply rb_recolor_black.
  - assert (rb_path (f :: k) n) as Hp by (by apply rbp_black).
    destruct k as [|g k]; simpl; rewrite bool_decide_eq_true_2 by done;
      (eapply rb_plug; [exact Hp|done|by right]).
  - destruct k as [|g k]; cbn [fix_up]; rewrite bool_decide_eq_false_2 by (by rewrite Hc).
    { eexists. change (plug s [recolor_crumb f Black]) with (fill s (recolor_crumb f Black)).
      apply rb_fill_black; [by destruct f|done|by destruct f]. }
    simpl in Hh. inversion Hk as [|? ? ? Hgc Hgs Hk'|? ? ? Hgc]; subst; [|congruence].
    case_bool_decide as Hu.
    + eapply (IH (length k)); [simpl; lia|done| | |exact Hk'].
      * apply rb_fill_red; [by destruct g| | | |].
        -- apply rb_fill_black; [by destruct f|done|by destruct f].
        -- destruct g; simpl in *; by apply rb_blacken.
        -- rewrite color_fill. by destruct f.
        -- destruct g as [? ? ? u|u]; simpl in *; by destruct u.
      * rewrite color_fill. by destruct g.
    + assert (color_of (crumb_sibling g) = Black) as Hub.
      { by destruct (color_of (crumb_sibling g)). }
      destruct (rotate_fix_rb s f g n) as [Hr Hrc]; try done.
      eapply rb_plug; [exact Hk'|done|by left].
Qed.

(** The root colour of a plugged tree is its path's. *)
Lemma color_plug s s' k : k ≠ [] → color_of (plug s k) = color_of (plug s' k).
Proof.
  intros Hk. destruct k as [|f k] using rev_ind; [done|].
  unfold plug. rewrite !foldl_app. simpl. by rewrite !color_fill.
Qed.

Lemma ins_path_nonempty x s k : s ≠ Leaf ∨ k ≠ [] → ins_path x s k ≠ [].
Proof.
  revert k. induction s as [|l IHl i c v r IHr]; intros k Hk; simpl; [naive_solver|].
  destruct (payload_cmp x v); [apply IHl|apply IHl|apply IHr]; by right.
Qed.

Lemma fix_up_root s k : color_of (plug s k) = Black ∨ k = [] → color_of (fix_up s k) = Black.
Proof.
  remember (length k) as len eqn:Hlen. revert s k Hlen.
  induction (lt_wf len) as [len _ IH]. intros s k -> Hb.
  destruct k as [|f [|g k]]; cbn [fix_up].
  - by destruct s.
  - destruct Hb as [Hb|]; [|done]. case_bool_decide; [done|].
    change (color_of (fill s (recolor_crumb f Black)) = Black). rewrite color_fill. by destruct f.
  - destruct Hb as [Hb|]; [|done]. case_bool_decide; [done|]. case_bool_decide.
    + apply (IH (length k)); [simpl; lia|done|]. destruct k as [|h k]; [by right|left].
      rewrite !plug_cons in Hb. rewrite <- Hb. rewrite !plug_cons.
      destruct k as [|h' k]; [|by apply color_plug]. unfold plug. simpl. by rewrite !color_fill.
    + destruct k as [|h k].
      * unfold plug in *. simpl in *. rewrite color_fill in Hb.
        destruct g, f; simpl in *; subst; destruct s; simpl; done.
      * rewrite !plug_cons in *. rewrite <- Hb. destruct k as [|h' k]; [|by apply color_plug].
        unfold plug. simpl. by rewrite !color_fill.
Qed.

Lemma insert_tree_balanced i x s : balanced s → balanced (insert_tree i x s).
Proof.
  intros [Hb [n Hn]]. destruct s as [|l j c v r].
  { split; [done|]. exists 1%nat. by repeat constructor. }
  unfold insert_tree. set (s := Node l j c v r) in *.
  assert (rb (plug Leaf (ins_path x s [])) n) as Hp by (by rewrite plug_ins_path).
  destruct (rb_unplug _ _ _ Hp) as (n' & Hl & Hk & _). inversion Hl; subst n'. split.
  - apply fix_up_root. left.
    rewrite (color_plug _ Leaf), plug_ins_path; [done|]. apply ins_path_nonempty. by left.
  - eapply fix_up_rb; [by repeat constructor|done|exact Hk].
Qed.

Lemma rb_height s n : rb s n →
  (height s <= 2 * n + match color_of s with Red => 1 | Black => 0 end)%nat
  ∧ (2 ^ n <= S (length (ids s)))%nat.
Proof.
  induction 1 as [|l i v r n Hl [IHl1 IHl2] Hr [IHr1 IHr2]
    |l i v r n Hl [IHl1 IHl2] Hr [IHr1 IHr2] Hcl Hcr]; [done|..];
    rewrite ids_Node, length_app; cbn [length height color_of].
  - split; [|simpl; lia]. destruct (color_of l), (color_of r); lia.
  - rewrite Hcl, Hcr in *. split; [lia|]. lia.
Qed.

(** A balanced tree is no deeper than twice the logarithm of its size. *)
Lemma balanced_height s : balanced s → (height s <= 2 * Nat.log2 (S (length (ids s))))%nat.
Proof.
  intros [Hc [n Hn]]. apply rb_height in Hn as [Hh Hl]. rewrite Hc in Hh.
  apply Nat.log2_le_mono in Hl. rewrite Nat.log2_pow2 in Hl by lia. lia.
Qed.
End balance.

(** ** The contract of the tree *)

Section contract.
Context {B V : Type} `{HB : BlockOf B (RBNode V)} `{HP : Payload V}.
Context (P : V → Prop) `{HO : !PayloadOrder P}.
Implicit Types (t : Tree B) (s : tree V) (i j : Z) (x : V) (E : list (Z * V)).

(** [t] is a search tree of values in [P] that lists [E], smallest first. *)
Record tree_inv t (E : list (Z * V)) : Prop := {
  ti_tree : ∃ s, repr t s ∧ entries s = E ∧ sorted P s ∧ balanced s;
  ti_max : t_max t = NIL ∨ t_max t = last_id E }.

Lemma last_id_in E : E ≠ [] → ∃ v, (last_id E, v) ∈ E.
Proof.
  destruct (last E) as [[i v]|] eqn:Hl.
  - apply last_Some in Hl as [E' ->]. intros _. exists v. rewrite last_id_snoc. set_solver.
  - by apply last_None in Hl as ->.
Qed.

Lemma sorted_le_last s e v : sorted P s → (last_id (entries s), v) ∈ entries s →
  NoDup (ids s) → e ∈ entries s → e.1 = last_id (entries s) ∨ payload_cmp e.2 v ≠ Gt.
Proof.
  intros [_ Hs] Hv Hnd He. destruct (last (entries s)) as [[i w]|] eqn:Hl.
  - apply last_Some in Hl as [E' HE]. unfold ids in Hnd. rewrite HE in *. rewrite last_id_snoc in *.
    assert (v = w) as ->.
    { apply elem_of_app in Hv as [Hv|Hv]; [|set_solver].
      rewrite fmap_app in Hnd. apply NoDup_app in Hnd as (_ & Hnd & _). exfalso.
      apply (Hnd i); [|simpl; set_solver]. apply list_elem_of_fmap. by exists (i, v). }
    apply StronglySorted_app_iff in Hs as (_ & _ & Hs).
    apply elem_of_app in He as [He| ->%list_elem_of_singleton]; [right|by left].
    apply (Hs e (i, w) He). set_solver.
  - apply last_None in Hl. rewrite Hl in He. by apply not_elem_of_nil in He.
Qed.

(** What [insert] promises. *)
Lemma insert_tree_inv t E i x :
  tree_inv t E → P x → i ≠ NIL → is_Some (t_data t !! i) → i ∉ E.*1 →
  ∃ t' E1 E2, insert t i x = Ok t' ∧ E = E1 ++ E2 ∧ tree_inv t' (E1 ++ (i, x) :: E2)
    ∧ (∀ e, e ∈ E1 → payload_cmp e.2 x = Lt) ∧ (∀ e, e ∈ E2 → payload_cmp x e.2 ≠ Gt)
    ∧ outside (i :: E.*1) (t_data t) (t_data t')
    ∧ (t_max t = last_id E → t_max t' = last_id (E1 ++ (i, x) :: E2)).
Proof.
  intros [(s & Hr & <- & Hs & Hb) Hm] Hx Hi Hd Hni.
  assert (max_known t s) as Hmk.
  { destruct Hm as [?|Hm]; [by left|]. destruct s as [|l j c v r]; [by left|right].
    rewrite Hm. apply last_id_in. simpl. by destruct (entries l). }
  destruct (insert_repr t s x i Hr Hmk (sorted_cmp_flips P x s Hx Hs) Hi Hd Hni)
    as (t' & Hins & Hr' & Hmax & Hout).
  destruct (insert_tree_split P i x s Hx Hs) as (E1 & E2 & HE & HE' & Hlt & Hge).
  assert (t_max t' = last_id (E1 ++ (i, x) :: E2)
    ∨ t_max t = NIL ∧ entries s ≠ [] ∧ t_max t' = NIL) as Hmx; cycle 1.
  { exists t', E1, E2. split_and!; try done.
    - rewrite <- HE'. split; [|rewrite HE'; tauto].
      exists (insert_tree i x s). split_and!; [done|done|by apply insert_tree_sorted
        |by apply insert_tree_balanced].
    - intros Hml. destruct Hmx as [|(Hnil & Hne & _)]; [done|]. exfalso. rewrite Hnil in Hml.
      destruct (last_id_in _ Hne) as [w Hw]. rewrite <- Hml in Hw.
      destruct (focus_entry s NIL w Hw) as (l & c & r & k & ->). by apply repr_node in Hr as [? _]. }
  rewrite Hmax. destruct (Z.eqb_spec (t_max t) NIL) as [Hnil|Hnn]; simpl.
  - rewrite (repr_root_NIL _ _ Hr). destruct s as [|l j c v r]; simpl;
      [left; by apply eq_sym, app_eq_nil in HE as [-> ->]|right].
    split_and!; [done|by destruct (entries l)|done].
  - left. destruct Hm as [?|Hm]; [done|]. unfold new_max.
    destruct s as [|l j c v r] eqn:Hseq; [by apply eq_sym, app_eq_nil in HE as [-> ->]|].
    rewrite <- Hseq in *. assert (entries s ≠ []) as Hne.
    { rewrite Hseq. simpl. by destruct (entries l). }
    destruct (last_id_in _ Hne) as [mv Hmv]. rewrite Hm, (get_value_entry _ _ _ _ Hr Hmv).
    assert (E2 ≠ [] → last_id (entries s) = last_id (E1 ++ (i, x) :: E2)) as HE2.
    { intros Hn. rewrite HE, (cons_middle (i, x)), app_assoc, !(last_id_app _ E2); done. }
    pose proof (repr_nodup _ _ Hr) as Hnd. pose proof (sorted_P P s _ Hs Hmv) as Pmv. simpl in Pmv.
    destruct (payload_cmp mv x) eqn:Hc.
    2:{ destruct E2 as [|e E2']; [by rewrite last_id_snoc|]. exfalso.
        assert (e ∈ entries s) as He by (rewrite HE; set_solver).
        assert (payload_cmp x e.2 ≠ Gt) as Hxe by (apply Hge; left).
        destruct (sorted_le_last s e mv Hs Hmv Hnd He) as [Heq|Hle].
        - destruct e as [ej ev]. simpl in *. subst ej.
          pose proof (get_value_entry _ _ _ _ Hr He) as H1.
          rewrite (get_value_entry _ _ _ _ Hr Hmv) in H1. injection H1 as <-.
          rewrite (po_antisym mv x), Hc in Hxe; [done|exact Pmv|done].
        - assert (payload_cmp x mv ≠ Gt) as Hxm.
          { apply (po_trans x e.2 mv); try done. by apply (sorted_P P s). }
          by rewrite (po_antisym mv x), Hc in Hxm. }
    all: apply HE2; intros ->; rewrite app_nil_r in HE; rewrite HE in Hmv;
      specialize (Hlt _ Hmv); simpl in Hlt; congruence.
Qed.

(** What [lookup_index] promises. *)
Lemma lookup_tree_inv t E x : tree_inv t E → P x →
  ∃ j, lookup_index t x = Ok j
    ∧ (j ≠ NIL → ∃ v, (j, v) ∈ E ∧ payload_cmp v x = Eq)
    ∧ (∀ i v, (i, v) ∈ E → payload_cmp v x = Eq → j ≠ NIL).
Proof.
  intros [(s & Hr & <- & Hs & Hb) _] Hx. exists (find_tree x s). split_and!.
  - apply lookup_index_repr; [|done]. intros j v Hj Hc. apply (po_eqb (P:=P)); [|done|done].
    by apply (sorted_P P s (j, v)).
  - apply (find_tree_sound P).
  - intros i v Hi Hc. destruct (find_tree_complete P x s i v Hx Hs Hi Hc) as (w & Hw & _).
    intros Hn. rewrite Hn in Hw. destruct (focus_entry s NIL w Hw) as (l & c & r & k & ->).
    by apply repr_node in Hr as [? _].
Qed.

(** What iteration promises. *)
Lemma iter_tree_inv t E : tree_inv t E → iter_indices (V:=V) t = Ok (reverse E.*1).
Proof.
  intros [(s & Hr & <- & Hs & Hb) Hm]. by apply iter_indices_repr.
Qed.

Lemma tree_inv_node t E i v : tree_inv t E → (i, v) ∈ E → get_value (V:=V) t i = Ok v.
Proof. intros [(s & Hr & <- & _) _]. by apply get_value_entry. Qed.

Lemma tree_inv_nodup t E : tree_inv t E → NoDup E.*1.
Proof. intros [(s & Hr & <- & _) _]. apply (repr_nodup _ _ Hr). Qed.

(** Writing elsewhere keeps a tree. *)
Lemma tree_inv_outside L d d' rt mx E : tree_inv (mkTree d rt mx) E → outside L d d' →
  (∀ j, j ∈ E.*1 → j ∉ L) → tree_inv (mkTree d' rt mx) E.
Proof.
  intros [(s & [Hr Hnd Hrt] & <- & Hs) Hm] Ho Hd. split; [|done]. exists s.
  split_and!; [|done|apply Hs|apply Hs]. split; [|done|done]. eapply outside_rep; [exact Ho|exact Hd|done].
Qed.
End contract.

(** ** Updating a value in place *)

Section update.
Context {B V : Type} `{HB : BlockOf B (RBNode V)} `{HP : Payload V}.
Context (P : V → Prop) `{HO : !PayloadOrder P}.
Implicit Types (t : Tree B) (d : Region B) (s : tree V) (i j : Z) (x : V) (E : list (Z * V)).

(** The listing with the value of [i] replaced. *)
Definition set_entry (i : Z) (v : V) E : list (Z * V) :=
  (λ e, if decide (e.1 = i) then (i, v) else e) <$> E.

Fixpoint set_value (i : Z) (x : V) s : tree V :=
  match s with
  | Leaf => Leaf
  | Node l j c v r =>
      Node (set_value i x l) j c (if decide (j = i) then x else v) (set_value i x r)
  end.

Lemma entries_set_value i x s : entries (set_value i x s) = set_entry i x (entries s).
Proof.
  induction s as [|l IHl j c v r IHr]; [done|]. simpl. unfold set_entry in *.
  rewrite fmap_app, IHl, IHr. simpl. by case_decide; subst.
Qed.

Lemma set_entry_fst i x E : (set_entry i x E).*1 = E.*1.
Proof.
  unfold set_entry. rewrite <- list_fmap_compose. apply list_fmap_ext. intros _ [j v] _. simpl.
  by case_decide.
Qed.

Lemma top_set_value i x s : top (set_value i x s) = top s.
Proof. by destruct s. Qed.
Lemma color_set_value i x s : color_of (set_value i x s) = color_of s.
Proof. by destruct s. Qed.

Lemma elem_of_set_entry i x E e :
  e ∈ set_entry i x E → (e = (i, x) ∧ ∃ v, (i, v) ∈ E) ∨ (e ∈ E ∧ e.1 ≠ i).
Proof.
  unfold set_entry. rewrite list_elem_of_fmap. intros ([j v] & -> & He). simpl.
  case_decide; subst; [left|right]; eauto.
Qed.

Lemma set_entry_elem i x v E : (i, v) ∈ E → (i, x) ∈ set_entry i x E.
Proof.
  intros He. unfold set_entry. apply list_elem_of_fmap. exists (i, v). simpl.
  by rewrite decide_True.
Qed.

Lemma set_entry_ne i x j v E : j ≠ i → (j, v) ∈ E → (j, v) ∈ set_entry i x E.
Proof.
  intros Hj He. unfold set_entry. apply list_elem_of_fmap. exists (j, v). simpl.
  by rewrite decide_False.
Qed.

Lemma set_entry_absent i x E : i ∉ E.*1 → set_entry i x E = E.
Proof.
  intros Hi. unfold set_entry. rewrite <- (list_fmap_id E) at 2. apply list_fmap_ext.
  intros k [j v] Hk. simpl. case_decide; [|done]. subst. exfalso. apply Hi.
  apply list_elem_of_fmap. exists (i, v). split; [done|]. by eapply list_elem_of_lookup_2.
Qed.

Lemma rb_set_value i x s n : rb s n → rb (set_value i x s) n.
Proof.
  induction 1; simpl; constructor; rewrite ?color_set_value; done.
Qed.

Lemma rep_set_value d p s i n x :
  rep d p s → NoDup (ids s) → region_get d i = Ok n →
  rep (<[i := to_block (n <| rb_value := x |>)]> d) p (set_value i x s).
Proof.
  intros Hr Hnd Hn. revert p Hr Hnd. induction s as [|l IHl j c v r IHr]; intros p; [done|].
  rewrite ids_Node. simpl. intros ([Hj Hjn] & Hl & Hr) (Hndl & _ & [_ Hndr]%NoDup_cons)%NoDup_app.
  rewrite !top_set_value. split_and!; [|by apply IHl|by apply IHr].
  case_decide as Hji; subst.
  - rewrite Hn in Hjn. injection Hjn as ->. by apply node_is_insert.
  - split; [done|]. by rewrite region_get_insert_ne.
Qed.

Lemma sorted_set_entry i v x E :
  all_P P E → StronglySorted entry_le E → NoDup E.*1 → (i, v) ∈ E → P x →
  (∀ y, P y → payload_cmp x y = payload_cmp v y) →
  all_P P (set_entry i x E) ∧ StronglySorted entry_le (set_entry i x E).
Proof.
  intros Hp Hs Hnd Hi Hx Hc. unfold all_P in *. rewrite Forall_forall in Hp.
  split.
  - apply Forall_forall. intros e [[-> _]|[He _]]%elem_of_set_entry; [done|by apply Hp].
  - assert (∀ w, (i, w) ∈ E → w = v) as Huniq.
    { intros w Hw. apply list_elem_of_split in Hi as (E1 & E2 & ->).
      apply list_elem_of_split in Hw as (F1 & F2 & HF).
      by destruct (split_unique _ _ _ _ _ _ _ HF Hnd) as (_ & -> & _). }
    clear Hnd. pose proof (Hp _ Hi) as Hv. simpl in Hv. clear Hi.
    induction Hs as [|[j w] E Hs IH Hf]; [constructor|].
    assert (StronglySorted entry_le (set_entry i x E)) as IH'.
    { apply IH; [intros e He; apply Hp; by right|intros w' Hw'; apply Huniq; by right]. }
    simpl. constructor; [done|]. rewrite Forall_forall in *.
    assert (∀ y, P y → payload_cmp y x = payload_cmp y v) as Hc'.
    { intros y Hy. by rewrite (po_antisym x y), Hc, <- (po_antisym v y). }
    intros e [[-> [u Hu]]|[He Hne]]%elem_of_set_entry; unfold entry_le in *.
    + assert (u = v) as -> by (apply Huniq; by right). specialize (Hf _ Hu). simpl in *.
      case_decide; simpl.
      * rewrite Hc by done. rewrite Hc' by done. subst j.
        assert (w = v) as -> by (apply Huniq; left). done.
      * rewrite Hc'; [done|]. apply (Hp (j, w)). left.
    + specialize (Hf _ He). simpl in *. case_decide; simpl; [|done].
      subst j. assert (w = v) as -> by (apply Huniq; left).
      rewrite Hc; [done|]. apply (Hp e). by right.
Qed.

(** Rewriting a value without moving it in the order. *)
Lemma tree_inv_set_value d rt mx E i v n x :
  tree_inv P (mkTree d rt mx) E → (i, v) ∈ E → region_get d i = Ok n → P x →
  (∀ y, P y → payload_cmp x y = payload_cmp v y) →
  tree_inv P (mkTree (<[i := to_block (n <| rb_value := x |>)]> d) rt mx) (set_entry i x E).
Proof.
  intros [(s & [Hr Hnd Hrt] & <- & [Hp Hs] & [Hb [m Hrb]]) Hm] Hi Hn Hx Hc. split.
  - exists (set_value i x s). split_and!.
    + split; simpl in *.
      * by apply rep_set_value.
      * unfold ids in *. by rewrite entries_set_value, set_entry_fst.
      * by rewrite top_set_value.
    + apply entries_set_value.
    + unfold sorted. rewrite entries_set_value. eapply sorted_set_entry; eauto.
    + split; [by rewrite color_set_value|]. exists m. by apply rb_set_value.
  - destruct Hm as [?|Hm]; [by left|right]. simpl in *. unfold last_id in *.
    by rewrite set_entry_fst.
Qed.
End update.

(** ** Trees inside a larger region *)

Lemma tree_inv_block {B V} `{BlockOf B (RBNode V)} `{Payload V} (P : V → Prop)
    t E (i : Z) (v : V) :
  tree_inv P t E → (i, v) ∈ E → i ≠ NIL ∧ ∃ n, t_data t !! i = Some (to_block n) ∧ rb_value n = v.
Proof.
  intros [(s & Hr & <- & _) _] Hi. destruct (focus_entry s i v Hi) as (l & c & r & k & ->).
  apply repr_node in Hr as [Hn Hg%region_get_Ok]. split; [done|]. eexists. by split.
Qed.

Lemma tree_inv_P {B V} `{BlockOf B (RBNode V)} `{Payload V} (P : V → Prop) t E (e : Z * V) :
  tree_inv P t E → e ∈ E → P e.2.
Proof. intros [(s & Hr & <- & Hs & _) _]. by apply sorted_P. Qed.

Lemma tree_inv_outside' {B V} `{BlockOf B (RBNode V)} `{Payload V} (P : V → Prop)
    (X : list Z) (t t' : Tree B) E :
  tree_inv (V:=V) P t E → t_root t' = t_root t → t_max t' = t_max t →
  (∀ j, j ∉ X → t_data t' !! j = t_data t !! j) →
  (∀ j, j ∈ E.*1 → j ∉ X) → tree_inv P t' E.
Proof.
  destruct t as [d r mx], t' as [d' r' mx']. simpl. intros Hi -> -> Ho Hd.
  eapply tree_inv_outside; [exact Hi|exact Ho|exact Hd].
Qed.

(** The blocks outside the tree an insertion works on. *)
Lemma bound_outside {B} (d d' : Region B) (i n : Z) (X : list Z) :
  (∀ j, is_Some (d !! j) → 0 <= j < n) → (∀ j, j ∉ i :: X → d' !! j = d !! j) →
  is_Some (d !! i) → (∀ j, j ∈ X → is_Some (d !! j)) →
  ∀ j, is_Some (d' !! j) → 0 <= j < n.
Proof.
  intros Hb Ho Hi HX j Hj. destruct (decide (j ∈ i :: X)) as [[->|Hin]%elem_of_cons|Hni].
  - by apply Hb.
  - by apply Hb, HX.
  - apply Hb. by rewrite <- Ho.
Qed.

(** Trees kept without a maximum pointer. *)
Lemma tree_inv_no_max {B V} `{BlockOf B (RBNode V)} `{Payload V} (P : V → Prop)
    (t : Tree B) E :
  tree_inv (V:=V) P t E → tree_inv P (mkTree (t_data t) (t_root t) NIL) E.
Proof.
  intros [(s & [Hr Hnd Hrt] & HE & Hs) _]. split; [|by left]. exists s. split_and!; [|done|apply Hs..].
  by split.
Qed.

Lemma tree_inv_eta {B V} `{BlockOf B (RBNode V)} `{Payload V} (P : V → Prop)
    (t : Tree B) E :
  tree_inv (V:=V) P t E → tree_inv P (mkTree (t_data t) (t_root t) (t_max t)) E.
Proof. by destruct t. Qed.

Lemma tree_ids_node {B V} `{BlockOf B (RBNode V)} `{Payload V} (P : V → Prop) t E j :
  tree_inv (V:=V) P t E → j ∈ E.*1 → ∃ n, t_data t !! j = Some (to_block n) ∧ P (rb_value n).
Proof.
  intros Hi ([k v] & -> & Hk)%list_elem_of_fmap. pose proof (tree_inv_P _ _ _ _ Hi Hk) as Hp.
  apply (tree_inv_block _ _ _ _ _ Hi) in Hk as (_ & n & Hn & <-). by exists n.
Qed.

Lemma tree_ids_block {B V} `{BlockOf B (RBNode V)} `{Payload V} (P : V → Prop) t E j :
  tree_inv (V:=V) P t E → j ∈ E.*1 → is_Some (t_data t !! j).
Proof. intros Hi Hj. destruct (tree_ids_node _ _ _ _ Hi Hj) as (n & -> & _). by eexists. Qed.

(** Updating a value that keeps its place. *)
Lemma tree_inv_modify_value {B V} `{BlockOf B (RBNode V)} `{Payload V} (P : V → Prop)
    `{!PayloadOrder P} (t : Tree B) E i v v' (f : V → result V) :
  tree_inv P t E → (i, v) ∈ E → f v = Ok v' → P v' →
  (∀ y, P y → payload_cmp v' y = payload_cmp v y) →
  ∃ d', modify_value (t_data t) i f = Ok d'
    ∧ tree_inv P (mkTree d' (t_root t) (t_max t)) (set_entry i v' E)
    ∧ is_Some (t_data t !! i) ∧ ∀ j, j ∉ [i] → d' !! j = t_data t !! j.
Proof.
  intros Hinv Hi Hf Hv' Hc. destruct (tree_inv_block _ _ _ _ _ Hinv Hi) as (HiN & n & Hn & Hv).
  assert (region_get (t_data t) i = Ok n) as Hg by (by apply region_get_Ok).
  unfold modify_value. rewrite Hg. cbn [mbind result_bind]. rewrite Hv, Hf.
  cbn [mbind result_bind]. rewrite (region_set_get _ _ _ _ Hg).
  eexists. split_and!; [done| |by rewrite Hn; eexists|].
  - destruct t as [d rt mx]. by apply (tree_inv_set_value _ _ _ _ _ _ v).
  - intros j Hj. apply lookup_insert_ne. intros ->. apply Hj. left.
Qed.

(** The walk from an entry to the one below it, and the length of a walk. *)
Lemma next_tree_inv {B V} `{BlockOf B (RBNode V)} `{Payload V} (P : V → Prop) t E1 i v E2 :
  tree_inv (V:=V) P t (E1 ++ (i, v) :: E2) → get_next_lower_index (V:=V) t i = Ok (last_id E1).
Proof. intros [(s & Hr & He & _) _]. by eapply next_lower_entries. Qed.

Lemma tree_inv_fuel {B V} `{BlockOf B (RBNode V)} `{Payload V} (P : V → Prop) (t : Tree B) E :
  tree_inv (V:=V) P t E → (length E < fuel_of t)%nat.
Proof.
  intros [(s & Hr & <- & _) _]. pose proof (repr_size _ _ Hr) as Hs. unfold ids in Hs.
  rewrite length_fmap in Hs. unfold fuel_of. lia.
Qed.

Lemma last_id_NIL {B V} `{BlockOf B (RBNode V)} `{Payload V} (P : V → Prop) (t : Tree B) E :
  tree_inv (V:=V) P t E → last_id E = NIL → E = [].
Proof.
  intros Hi Hl. destruct (last E) as [[i v]|] eqn:He; [|by apply last_None in He].
  apply last_Some in He as [E' ->]. rewrite last_id_snoc in Hl. subst i.
  destruct (tree_inv_block _ _ _ NIL v Hi) as [? _]; [|done]. apply elem_of_app. right. left.
Qed.

(** Replacing one entry keeps an entrywise relation that the new value satisfies. *)
Lemma set_entry_Forall2 {A V} (R : A → Z * V → Prop) l (E : list (Z * V)) i v v' :
  Forall2 R l E → NoDup E.*1 → (i, v) ∈ E → (∀ a, R a (i, v) → R a (i, v')) →
  Forall2 R l (set_entry i v' E).
Proof.
  intros HR Hnd Hi Hv. induction HR as [|a [j w] l E Ha HR IH]; [by apply not_elem_of_nil in Hi|].
  cbn [fmap list_fmap fst] in Hnd. apply NoDup_cons in Hnd as [Hj Hnd].
  unfold set_entry. cbn [fmap list_fmap fst]. constructor.
  - case_decide as Hd; [|done]. subst j. apply elem_of_cons in Hi as [[= <-]|Hi]; [by apply Hv|].
    destruct Hj. apply list_elem_of_fmap. by exists (i, v).
  - apply elem_of_cons in Hi as [[= <- <-]|Hi]; [|by apply IH].
    fold (set_entry i v' E). by rewrite (set_entry_absent i v' E Hj).
Qed.

Lemma set_entry_elem_inv {V} (E : list (Z * V)) i x j v :
  (j, v) ∈ set_entry i x E → (j = i ∧ v = x) ∨ (j ≠ i ∧ (j, v) ∈ E).
Proof.
  intros ([k w] & Hk & Hin)%list_elem_of_fmap. simpl in Hk. case_decide; simplify_eq; auto.
Qed.

(** ** Deciding the invariant of a concrete store *)

Section check.
Context {B V : Type} `{HB : BlockOf B (RBNode V)} `{HP : Payload V}.
Implicit Types (d : Region B) (t : Tree B) (s : tree V) (E : list (Z * V)).

(** The functional tree a store holds below [i]. *)
Fixpoint read_tree (fuel : nat) d (p i : Z) : option (tree V) :=
  if i =? NIL then Some Leaf else
  match fuel with
  | O => None
  | S fuel =>
      match region_get d i with
      | Ok n =>
          if (rb_parent n =? p) && (rb_payload_type n =? 0) then
            l ← read_tree fuel d i (rb_left n);
            r ← read_tree fuel d i (rb_right n);
            Some (Node l i (rb_color n) (rb_value n) r)
          else None
      | Err _ => None
      end
  end.

Lemma read_tree_rep fuel d p i s : read_tree fuel d p i = Some s → rep d p s ∧ top s = i.
Proof.
  revert p i s. induction fuel as [|fuel IH]; intros p i s; simpl;
    (destruct (Z.eqb_spec i NIL) as [->|Hi]; [by intros [= <-]|]); [done|].
  destruct (region_get d i) as [n|] eqn:Hn; [|done].
  destruct (Z.eqb_spec (rb_parent n) p) as [<-|]; [|done].
  destruct (Z.eqb_spec (rb_payload_type n) 0) as [H0|]; [|done]. simpl.
  intros (l & Hl & Hs)%bind_Some. apply bind_Some in Hs as (r & Hr & [= <-]).
  apply IH in Hl as [Hl Hlt]. apply IH in Hr as [Hr Hrt]. simpl. split; [|done].
  split_and!; [|done|done]. split; [done|]. rewrite Hlt, Hrt, Hn. destruct n. simpl in *. by subst.
Qed.

Fixpoint sorted_b E : bool :=
  match E with
  | [] => true
  | e :: E => forallb (λ e', match payload_cmp e.2 e'.2 with Gt => false | _ => true end) E
              && sorted_b E
  end.

Lemma sorted_b_spec E : sorted_b E = true → StronglySorted entry_le E.
Proof.
  induction E as [|e E IH]; simpl; [constructor|]. rewrite andb_true_iff, forallb_forall.
  intros [Hf Hs]. constructor; [by apply IH|]. apply Forall_forall. intros e' He'.
  unfold entry_le. specialize (Hf e' (proj1 (list_elem_of_In _ _) He')).
  by destruct (payload_cmp e.2 e'.2).
Qed.

(** The black height, if the colours are right. *)
Fixpoint rb_b s : option nat :=
  match s with
  | Leaf => Some O
  | Node l _ c _ r =>
      nl ← rb_b l; nr ← rb_b r;
      if decide (nl = nr) then
        match c with
        | Black => Some (S nl)
        | Red => if decide (color_of l = Black ∧ color_of r = Black) then Some nl else None
        end
      else None
  end.

Lemma rb_b_spec s n : rb_b s = Some n → rb s n.
Proof.
  revert n. induction s as [|l IHl i c v r IHr]; intros n; simpl; [intros [= <-]; constructor|].
  intros (nl & Hl & H)%bind_Some. apply bind_Some in H as (nr & Hr & H).
  case_decide; [subst|done]. destruct c; [injection H as <-; constructor; auto|].
  case_decide as Hc; [|done]. injection H as <-. constructor; [auto|auto|apply Hc..].
Qed.

(** The listing of a store that satisfies [tree_inv] for the values that pass [pb]. *)
Definition check_tree (pb : V → bool) t : option (list (Z * V)) :=
  s ← read_tree (size (t_data t)) (t_data t) NIL (t_root t);
  let E := entries s in
  n ← rb_b s;
  if bool_decide (NoDup E.*1) && forallb (λ e, pb e.2) E && sorted_b E
     && bool_decide (color_of s = Black)
     && ((t_max t =? NIL) || (t_max t =? last_id E))
  then Some E else None.

Lemma check_tree_inv (P : V → Prop) pb t E :
  (∀ v, pb v = true → P v) → check_tree pb t = Some E → tree_inv P t E.
Proof.
  intros Hpb (s & Hs & H)%bind_Some. apply bind_Some in H as (n & Hn & H).
  apply read_tree_rep in Hs as [Hr Ht]. apply rb_b_spec in Hn.
  destruct (_ && _) eqn:Hc in H; [|done]. injection H as <-.
  rewrite !andb_true_iff, orb_true_iff, !bool_decide_eq_true, forallb_forall, !Z.eqb_eq in Hc.
  destruct Hc as ((((Hnd & Hp) & Hso) & Hcol) & Hm). split; [|done]. exists s. split_and!.
  - by split.
  - done.
  - split; [|by apply sorted_b_spec]. apply Forall_forall. intros e He. apply Hpb, Hp.
    by apply list_elem_of_In.
  - split; [done|by exists n].
Qed.
End check.

(** The free blocks of a store, in list order. *)
Section check_free.
Context {B : Type} `{HB : BlockOf B FreeListNode}.

Fixpoint read_free (fuel : nat) (d : Region B) (i : Z) : option (list Z) :=
  if i =? NIL then Some [] else
  match fuel with
  | O => None
  | S fuel =>
      match region_get d i with
      | Ok n => l ← read_free fuel d (fl_next n); Some (i :: l)
      | Err _ => None
      end
  end.

Lemma read_free_chain fuel (d : Region B) i l : read_free fuel d i = Some l → free_chain d i l.
Proof.
  revert i l. induction fuel as [|fuel IH]; intros i l; simpl;
    (destruct (Z.eqb_spec i NIL) as [->|Hi]; [by intros [= <-]|]); [done|].
  destruct (region_get d i) as [n|] eqn:Hn; [|done].
  intros (l' & Hl & [= <-])%bind_Some. simpl. split_and!; [done|done|].
  exists (fl_next n). apply region_get_Ok in Hn. split; [rewrite Hn; by destruct n|by apply IH].
Qed.
End check_free.

(** ** Properties *)

(** Blocks for the examples: a free block, or a node holding an integer. *)
Inductive sample_block := SB_free (n : FreeListNode) | SB_node (n : RBNode Z).

#[export] Instance sample_block_node : BlockOf sample_block (RBNode Z).
Proof.
  refine {| to_block := SB_node; of_block b := match b with SB_node n => Some n | _ => None end |};
    [done|]. intros [] ? [=]; congruence.
Defined.
#[export] Instance sample_payload : Payload Z := {| payload_cmp := Z.compare; payload_eqb := Z.eqb |}.
#[export] Instance sample_order : PayloadOrder (λ _ : Z, True).
Proof.
  split; simpl.
  - intros a b _ _. apply Z.compare_antisym.
  - intros a b c _ _ _. rewrite !Z.compare_le_iff. lia.
  - intros a b _ _. rewrite Z.compare_eq_iff, Z.eqb_eq. done.
Qed.

(** 20 (black) with a red left child 10, and a free block. *)
Definition sample_tree : Tree sample_block :=
  mkTree (<[0 := SB_node (mkRBNode 160 NIL NIL Black 0 20)]>
         (<[160 := SB_node (mkRBNode NIL NIL 0 Red 0 10)]>
         (<[320 := SB_free (mkFreeListNode 0)]> ∅))) 0 0.

Definition sample_entries : list (Z * Z) := [(160, 10); (0, 20)].

Lemma sample_tree_inv : tree_inv (λ _, True) sample_tree sample_entries.
Proof.
  split; [|by right]. exists (Node (Node Leaf 160 Red 10 Leaf) 0 Black 20 Leaf).
  split_and!.
  - split; [|vm_compute; repeat constructor; set_solver|done]. simpl.
    split_and!; try done; (split; [done|reflexivity]).
  - done.
  - split; repeat constructor; done.
  - split; [done|]. exists 1%nat. repeat constructor.
Defined.

(** C23: inserting into the red-black tree.  In a store that holds a balanced search
    tree listing the entries [E], with its maximum pointer unused or right, [insert]
    of a value at a block outside the tree succeeds; the new tree is again balanced
    and sorted, lists [E] with the new entry after everything smaller and before
    everything else, its maximum pointer is kept right if it is used, and no block outside the tree and the
    new one is written. *)
Theorem insert_contract {B V : Type} `{HB : BlockOf B (RBNode V)} `{HP : Payload V}
    (P : V → Prop) `{HO : !PayloadOrder P} (t : Tree B) (E : list (Z * V)) (i : Z) (x : V)
    (Hinv : tree_inv P t E) (Hx : P x) (Hi : i ≠ NIL) (Hblock : is_Some (t_data t !! i))
    (Hfresh : i ∉ E.*1) :
  ∃ t' E1 E2, insert t i x = Ok t' ∧ E = E1 ++ E2 ∧ tree_inv P t' (E1 ++ (i, x) :: E2)
    ∧ (∀ e, e ∈ E1 → payload_cmp e.2 x = Lt) ∧ (∀ e, e ∈ E2 → payload_cmp x e.2 ≠ Gt)
    ∧ (∀ j, j ∉ i :: E.*1 → t_data t' !! j = t_data t !! j)
    ∧ (t_max t = last_id E → t_max t' = last_id (E1 ++ (i, x) :: E2)).
Proof.
  destruct (insert_tree_inv P t E i x Hinv Hx Hi Hblock Hfresh) as (t' & E1 & E2 & ?).
  by exists t', E1, E2.
Qed.

Lemma insert_contract_witness :
  ∃ t' E1 E2, insert sample_tree 320 15 = Ok t'
    ∧ sample_entries = E1 ++ E2 ∧ tree_inv (λ _, True) t' (E1 ++ (320, 15) :: E2).
Proof.
  destruct (insert_contract (λ _, True) sample_tree sample_entries 320 15 sample_tree_inv)
    as (t' & E1 & E2 & H1 & H2 & H3 & _);
    [exact I|vm_compute; congruence|eexists; vm_compute; reflexivity
    |vm_compute; set_solver|].
  exists t', E1, E2. split; [exact H1|split; [exact H2|exact H3]].
Defined.

(** C30: looking a value up.  In a balanced search tree of [n] entries,
    [lookup_index] returns, and needs no more than twice the logarithm of [n]
    iterations of its loop; the index it returns is [NIL] exactly when no entry compares
    equal, and otherwise the index of one that does. *)
Theorem lookup_contract {B V : Type} `{HB : BlockOf B (RBNode V)} `{HP : Payload V}
    (P : V → Prop) `{HO : !PayloadOrder P} (t : Tree B) (E : list (Z * V)) (x : V)
    (Hinv : tree_inv P t E) (Hx : P x) :
  ∃ j, lookup_index t x = Ok j
    ∧ (t_root t ≠ NIL →
       lookup_loop (2 * Nat.log2 (S (length E)) + 2) t x [t_root t] = Ok j)
    ∧ (j = NIL ↔ ∀ i v, (i, v) ∈ E → payload_cmp v x ≠ Eq)
    ∧ (j ≠ NIL → ∃ v, (j, v) ∈ E ∧ payload_cmp v x = Eq).
Proof.
  destruct (lookup_tree_inv P t E x Hinv Hx) as (j & Hj & Hs & Hc). exists j.
  split_and!; [done| |split|done].
  - intros Hroot. destruct Hinv as [(s & Hr & <- & Hso & Hb) _]. rewrite <- Hj.
    assert (∀ j v, (j, v) ∈ entries s → payload_cmp v x = Eq → payload_eqb v x = true) as Heq.
    { intros k v Hk Hv. apply (po_eqb (P:=P)); [by apply (sorted_P P s (k, v))|done|done]. }
    rewrite (lookup_index_repr t x s Heq Hr), (repr_root _ _ Hr).
    apply (lookup_loop_spec _ t x s []); [done|done|].
    pose proof (balanced_height s Hb) as Hh. unfold ids in Hh. rewrite length_fmap in Hh. lia.
  - intros Hn i v Hi Hv. exact (Hc i v Hi Hv Hn).
  - intros Hn. destruct (Z.eq_dec j NIL) as [|Hne]; [done|].
    destruct (Hs Hne) as (v & Hv & Hcv). by destruct (Hn j v Hv).
Qed.

Lemma lookup_contract_witness :
  ∃ j, lookup_index sample_tree 10 = Ok j
    ∧ (j = NIL ↔ ∀ i v, (i, v) ∈ sample_entries → payload_cmp v 10 ≠ Eq).
Proof.
  destruct (lookup_contract (λ _, True) sample_tree sample_entries 10 sample_tree_inv I)
    as (j & H1 & _ & H2 & _).
  exists j. split; [exact H1|exact H2].
Defined.

(** C31: iterating from the best entry.  On a search tree that lists [E], the
    iterator yields exactly the indices of [E] from the greatest down, each once, and
    it stops. *)
Theorem iter_contract {B V : Type} `{HB : BlockOf B (RBNode V)} `{HP : Payload V}
    (P : V → Prop) `{HO : !PayloadOrder P} (t : Tree B) (E : list (Z * V))
    (Hinv : tree_inv P t E) :
  iter_indices (V:=V) t = Ok (reverse E.*1) ∧ NoDup E.*1
  ∧ StronglySorted (λ a b, payload_cmp a.2 b.2 ≠ Gt) E.
Proof.
  split_and!; [by apply (iter_tree_inv P)|by eapply tree_inv_nodup|].
  destruct Hinv as [(s & _ & <- & [_ Hs] & _) _]. exact Hs.
Qed.

Lemma iter_contract_witness : iter_indices (V:=Z) sample_tree = Ok [0; 160].
Proof. exact (proj1 (iter_contract (λ _, True) sample_tree sample_entries sample_tree_inv)). Defined.
