(* ===== verification/HypertreeRemove.v ===== *)
(** * Removal from the tree

    [remove_by_index], the way [HypertreeSpec] treats [insert]: the pointer program
    against functional trees.  A node with two children first trades places with its
    successor ([rename]); the node then has at most one child, which takes its place,
    and [fix_del] repairs the missing black node on the way up.  The result is the
    contract of removal: the tree stays balanced and sorted and loses one entry. *)
From stdpp Require Import base numbers list option gmap fin_maps.
From S2P Require Import Prelude Hypertree HypertreeFrame HypertreeSpec HypertreeOrder.
Local Open Scope Z_scope.

(** ** Repair on functional trees *)

Section functional.
Context {V : Type}.
Implicit Types (s l r w : tree V) (f : crumb V) (k : list (crumb V)) (n m : nat).

Definition is_red s : bool := bool_decide (color_of s = Red).

(** A child of the sibling is red. *)
Definition red_nephew w : bool :=
  match w with Leaf => false | Node l _ _ _ r => is_red l || is_red r end.

Definition redden_sibling f : crumb V :=
  match f with
  | GoLeft i c v w => GoLeft i c v (recolor w Red)
  | GoRight w i c v => GoRight (recolor w Red) i c v
  end.

(** The rotations around a black sibling with a red child. *)
Definition del_rotate s f : tree V :=
  match f with
  | GoRight (Node wl wi _ wv wr) i c v =>
      if is_red wl then Node (recolor wl Black) wi c wv (Node wr i Black v s) else
      match wr with
      | Node a j _ u b => Node (Node wl wi Black wv a) j c u (Node b i Black v s)
      | Leaf => fill s f
      end
  | GoLeft i c v (Node wl wi _ wv wr) =>
      if is_red wr then Node (Node s i Black v wl) wi c wv (recolor wr Black) else
      match wl with
      | Node a j _ u b => Node (Node s i Black v a) j c u (Node b wi Black wv wr)
      | Leaf => fill s f
      end
  | _ => fill s f
  end.

(** Below a red parent with a black sibling the repair ends. *)
Definition settle s f : tree V :=
  if red_nephew (crumb_sibling f) then del_rotate s f
  else fill s (recolor_crumb (redden_sibling f) Black).

(** A red sibling rotates above the parent first. *)
Definition rotate_red s f : list (crumb V) :=
  match f with
  | GoRight (Node wl wi _ wv wr) i _ v => [GoRight wr i Red v; GoRight wl wi Black wv]
  | GoLeft i _ v (Node wl wi _ wv wr) => [GoLeft i Red v wl; GoLeft wi Black wv wr]
  | _ => [f]
  end.

(** [remove_fix_loop] on a subtree that lacks one black node. *)
Fixpoint fix_del s k : tree V :=
  match k with
  | [] => s
  | f :: k =>
      let w := crumb_sibling f in
      if is_red w then
        match rotate_red s f with
        | [f'; g'] => plug (settle s f') (g' :: k)
        | _ => plug s (f :: k)
        end
      else if red_nephew w then plug (del_rotate s f) k
      else
        let s := fill s (redden_sibling f) in
        match crumb_color f with
        | Black => fix_del s k
        | Red => plug (recolor s Black) k
        end
  end.

(** *** The listing *)

Lemma entries_redden s f : entries (fill s (redden_sibling f)) = entries (fill s f).
Proof. by destruct f; simpl; rewrite entries_recolor. Qed.
Lemma entries_recolor_crumb s f c : entries (fill s (recolor_crumb f c)) = entries (fill s f).
Proof. by destruct f. Qed.

Lemma entries_del_rotate s f : entries (del_rotate s f) = entries (fill s f).
Proof.
  destruct f as [i c v [|wl wi wc wv wr]|[|wl wi wc wv wr] i c v]; simpl; try done;
    destruct (is_red _); simpl; rewrite ?entries_recolor.
  1: by rewrite <- app_assoc.
  1: destruct wl. 3: by rewrite <- app_assoc.
  3: destruct wr. all: simpl; repeat (rewrite <- app_assoc; simpl); done.
Qed.

Lemma entries_settle s f : entries (settle s f) = entries (fill s f).
Proof.
  unfold settle. destruct (red_nephew _); [apply entries_del_rotate|].
  by rewrite entries_recolor_crumb, entries_redden.
Qed.

Lemma entries_rotate_red s f k : entries (plug s (rotate_red s f ++ k)) = entries (plug s (f :: k)).
Proof.
  destruct f as [i c v [|wl wi wc wv wr]|[|wl wi wc wv wr] i c v]; simpl; try done;
    rewrite !plug_cons; apply entries_plug_cong; simpl; by rewrite <- app_assoc.
Qed.

Lemma entries_fix_del s k : entries (fix_del s k) = entries (plug s k).
Proof.
  revert s. induction k as [|f k IH]; intros s; [done|]. simpl. destruct (is_red _).
  - pose proof (entries_rotate_red s f k) as Hr. destruct (rotate_red s f) as [|f' [|g' []]] eqn:E;
      try done. rewrite <- Hr. simpl. rewrite !plug_cons. apply entries_plug_cong.
    apply entries_fill_cong; [apply entries_settle|done..].
  - destruct (red_nephew _).
    + rewrite plug_cons. apply entries_plug_cong, entries_del_rotate.
    + rewrite plug_cons. destruct (crumb_color f).
      * rewrite IH. apply entries_plug_cong, entries_redden.
      * apply entries_plug_cong. by rewrite entries_recolor, entries_redden.
Qed.

(** *** Balance *)

Lemma is_red_spec s : is_red s = true ↔ color_of s = Red.
Proof. apply bool_decide_eq_true. Qed.
Lemma is_red_false s : is_red s = false ↔ color_of s = Black.
Proof. unfold is_red. rewrite bool_decide_eq_false. by destruct (color_of s). Qed.

Lemma rb_black_inv s n : rb s (S n) → color_of s = Black →
  ∃ l i v r, s = Node l i Black v r ∧ rb l n ∧ rb r n.
Proof. intros Hs Hc. inversion Hs; subst; simpl in Hc; [eauto 10|done]. Qed.

Lemma rb_red_inv l i v r n : rb (Node l i Red v r) n →
  rb l n ∧ rb r n ∧ color_of l = Black ∧ color_of r = Black.
Proof. by inversion 1. Qed.

(** With colour [c], the rotated subtree has one more black node than its parts. *)
Lemma del_rotate_rb s f n : rb s n → rb (crumb_sibling f) (S n) →
  color_of (crumb_sibling f) = Black → red_nephew (crumb_sibling f) = true →
  color_of (del_rotate s f) = crumb_color f
  ∧ rb (del_rotate s f) (match crumb_color f with Black => S (S n) | Red => S n end).
Proof.
  intros Hs Hw Hc Hn. destruct (rb_black_inv _ _ Hw Hc) as (wl & wi & wv & wr & E & Hl & Hr).
  rewrite E in Hn. simpl in Hn. assert (∀ x y, rb (Node x wi Black wv y) (S n) → rb x n) by (by inversion 1).
  destruct f as [i c v w|w i c v]; simpl in *; subst w.
  - destruct (is_red wr) eqn:Er.
    + apply is_red_spec in Er. pose proof (rb_blacken _ _ Hr Er) as Hr'.
      split; [done|]. destruct c; repeat constructor; try done. by destruct wr.
    + rewrite orb_false_r in Hn. apply is_red_spec in Hn. destruct wl as [|a j cj u b]; [done|].
      simpl in Hn. subst cj. apply rb_red_inv in Hl as (Ha & Hb & _).
      split; [done|]. destruct c; repeat constructor; done.
  - destruct (is_red wl) eqn:El.
    + apply is_red_spec in El. pose proof (rb_blacken _ _ Hl El) as Hl'.
      split; [done|]. destruct c; repeat constructor; try done. by destruct wl.
    + simpl in Hn. apply is_red_spec in Hn. destruct wr as [|a j cj u b]; [done|].
      simpl in Hn. subst cj. apply rb_red_inv in Hr as (Ha & Hb & _).
      split; [done|]. destruct c; repeat constructor; done.
Qed.

(** The sibling gives up one black node. *)
Lemma redden_rb s f n : rb s n → rb (crumb_sibling f) (S n) →
  color_of (crumb_sibling f) = Black → red_nephew (crumb_sibling f) = false →
  rb (fill s (recolor_crumb (redden_sibling f) Black)) (S n).
Proof.
  intros Hs Hw Hc Hn. destruct (rb_black_inv _ _ Hw Hc) as (wl & wi & wv & wr & E & Hl & Hr).
  rewrite E in Hn. simpl in Hn. apply orb_false_iff in Hn as [H1%is_red_false H2%is_red_false].
  destruct f as [i c v w|w i c v]; simpl in *; subst w; repeat constructor; done.
Qed.

Lemma settle_rb s f n : rb s n → rb (crumb_sibling f) (S n) →
  color_of (crumb_sibling f) = Black → crumb_color f = Red → rb (settle s f) (S n).
Proof.
  intros Hs Hw Hc Hf. unfold settle. destruct (red_nephew _) eqn:Hn; [|by apply redden_rb].
  destruct (del_rotate_rb s f n Hs Hw Hc Hn) as [_ H]. by rewrite Hf in H.
Qed.

Lemma fix_del_rb s k n : rb s n → rb_path k (S n) → ∃ m, rb (fix_del s k) m.
Proof.
  revert s n. induction k as [|f k IH]; intros s n Hs Hk; [by exists n|]. simpl.
  destruct (is_red (crumb_sibling f)) eqn:Ew.
  { apply is_red_spec in Ew.
    inversion Hk as [|? ? ? Hc Hw Hk'|? ? ? Hc Hw Hwc]; subst; [|congruence].
    destruct f as [i c v [|wl wi wc wv wr]|[|wl wi wc wv wr] i c v]; simpl in *; try done; subst;
      apply rb_red_inv in Hw as (Hl & Hr & Hlc & Hrc);
      rewrite plug_cons; (eapply rb_plug; [exact Hk'| |by left]); constructor; try done; by apply settle_rb. }
  apply is_red_false in Ew. destruct (red_nephew _) eqn:En.
  - inversion Hk as [|? ? ? Hc Hw Hk'|? ? ? Hc Hw Hwc Hh Hk']; subst;
      destruct (del_rotate_rb s f n Hs Hw Ew En) as [Hco Hr]; rewrite Hc in *;
      (eapply rb_plug; [exact Hk'|exact Hr|]); [by left|by right].
  - inversion Hk as [|? ? ? Hc Hw Hk'|? ? ? Hc Hw Hwc Hh Hk']; subst; rewrite Hc;
      pose proof (redden_rb s f n Hs Hw Ew En) as Hr.
    + apply (IH _ (S n)); [|done]. by destruct f; simpl in *; subst.
    + rewrite fill_recolor. eapply rb_plug; [exact Hk'|exact Hr|by right].
Qed.

(** The root of a path, when its lowest crumb is replaced by a black subtree. *)
Lemma color_plug_cons s s' f k : color_of (plug s (f :: k)) = Black →
  color_of s' = crumb_color f ∨ color_of s' = Black → color_of (plug s' k) = Black.
Proof.
  intros H Hs'. destruct k as [|g k].
  - unfold plug in *. simpl in *. rewrite color_fill in H. destruct Hs'; congruence.
  - rewrite plug_cons in H. by rewrite (color_plug _ (fill s f)).
Qed.

Lemma color_del_rotate s f : red_nephew (crumb_sibling f) = true →
  color_of (del_rotate s f) = crumb_color f.
Proof.
  destruct f as [i c v [|wl wi wc wv wr]|[|wl wi wc wv wr] i c v]; simpl; try done.
  - destruct (is_red wr); [done|]. rewrite orb_false_r. by destruct wl.
  - destruct (is_red wl); [done|]. by destruct wr.
Qed.

Lemma fix_del_root s k : color_of s = Black → color_of (plug s k) = Black →
  color_of (fix_del s k) = Black.
Proof.
  revert s. induction k as [|f k IH]; intros s Hs Hp; [done|]. simpl.
  destruct (is_red (crumb_sibling f)) eqn:Ew.
  { destruct f as [i c v [|wl wi wc wv wr]|[|wl wi wc wv wr] i c v]; simpl in *; try done;
      rewrite plug_cons; (eapply color_plug_cons; [exact Hp|by right]). }
  destruct (red_nephew _) eqn:En.
  - eapply color_plug_cons; [exact Hp|]. left. by apply color_del_rotate.
  - destruct (crumb_color f) eqn:Hc.
    + assert (color_of (fill s (redden_sibling f)) = Black) as Hf.
      { rewrite color_fill. by destruct f. }
      apply IH; [done|]. eapply color_plug_cons; [exact Hp|by right].
    + eapply color_plug_cons; [exact Hp|]. right. by destruct f.
Qed.

(** *** Taking out a node with at most one child *)

(** The child that takes the node's place. *)
Definition only_child l r : tree V := match l with Leaf => r | _ => l end.

Definition excise l c r k : tree V :=
  if is_red l || is_red r || bool_decide (c = Red)
  then plug (recolor (only_child l r) Black) k
  else fix_del (only_child l r) k.

Lemma rb_0_leaf s : rb s 0 → color_of s = Black → s = Leaf.
Proof. inversion 1; subst; [done|done]. Qed.

Lemma entries_excise l c r k : l = Leaf ∨ r = Leaf →
  entries (excise l c r k) = lefts k ++ entries l ++ entries r ++ rights k.
Proof.
  intros Ho. assert (entries (only_child l r) = entries l ++ entries r) as He.
  { destruct Ho as [->| ->]; [done|]. rewrite app_nil_r. by destruct l. }
  unfold excise. case_match; rewrite ?entries_fix_del, entries_plug, ?entries_recolor, He;
    by rewrite <- !app_assoc.
Qed.

Lemma excise_balanced l i c v r k : l = Leaf ∨ r = Leaf → balanced (plug (Node l i c v r) k) →
  balanced (excise l c r k).
Proof.
  intros Ho [Hcol [m Hm]]. apply rb_unplug in Hm as (n & Hn & Hk & Hh). simpl in Hh.
  assert (∀ s', color_of s' = Black → color_of (plug s' k) = Black) as Hroot.
  { intros s' Hs'. destruct k as [|f k]; [done|]. by rewrite (color_plug _ (Node l i c v r)). }
  destruct c.
  - inversion Hn as [|? ? ? ? n' Hl Hr|]; subst. unfold excise. rewrite orb_false_r.
    destruct (is_red l || is_red r) eqn:Hred.
    + assert (color_of (recolor (only_child l r) Black) = Black) as Hb
        by (by destruct (only_child l r)).
      split; [by apply Hroot|]. eapply rb_plug; [exact Hk| |by left].
      assert (rb (only_child l r) n' ∧ color_of (only_child l r) = Red) as [H1 H2];
        [|by apply rb_blacken].
      rewrite orb_true_iff, !is_red_spec in Hred.
      destruct Ho as [->| ->]; simpl in *; [naive_solver|]. destruct l; naive_solver.
    + apply orb_false_iff in Hred as [H1%is_red_false H2%is_red_false].
      assert (only_child l r = Leaf ∧ n' = O) as [-> ->].
      { destruct Ho as [->| ->].
        - inversion Hl; subst. by rewrite (rb_0_leaf r).
        - inversion Hr; subst. by rewrite (rb_0_leaf l). }
      split; [by apply fix_del_root, Hroot|]. by eapply fix_del_rb; [constructor|].
  - apply rb_red_inv in Hn as (Hl & Hr & Hlc & Hrc). unfold excise.
    rewrite (bool_decide_eq_true_2 (Red = Red)), orb_true_r by done.
    assert (only_child l r = Leaf ∧ n = O) as [-> ->].
    { destruct Ho as [->| ->].
      - inversion Hl; subst. by rewrite (rb_0_leaf r).
      - inversion Hr; subst. by rewrite (rb_0_leaf l). }
    simpl. split; [by apply Hroot|]. eapply rb_plug; [exact Hk|constructor|by left].
Qed.
End functional.

(** ** The pointer program *)

Section unlink.
Context {B V : Type} `{HB : BlockOf B (RBNode V)}.
Implicit Types (d : Region B) (t : Tree B) (s l r : tree V) (f : crumb V) (k : list (crumb V)) (i j rt mx : Z).

(** Replacing the child pointer above the hole. *)
Lemma set_child_path d rt mx g p k : rep_path d g k → NoDup (path_ids k) →
  ∃ d', (if goes_left k then set_left_index (V:=V) (mkTree d rt mx) (up k) p
         else set_right_index (V:=V) (mkTree d rt mx) (up k) p) = Ok (mkTree d' rt mx)
    ∧ rep_path d' p k ∧ outside (path_ids k) d d'.
Proof.
  intros Hk Hnd. destruct k as [|[i c v r|l i c v] k]; simpl.
  - exists d. unfold set_right_index. rewrite Z.eqb_refl. by split_and!.
  - destruct Hk as (Hn & Hr & Hk). rewrite (set_left_at _ _ _ _ _ _ Hn).
    rewrite path_ids_cons in *. simpl in *. nodup_facts Hnd.
    pose proof (outside_insert d i (mkRBNode p (top r) (up k) c 0 v)) as Ho.
    eexists. split; [done|]. split_and!; [by apply node_is_insert, Hn|..].
    + eapply outside_rep; [exact Ho|disj|done].
    + eapply outside_rep_path; [exact Ho|disj|done].
    + eapply outside_mono; [|exact Ho]. set_solver.
  - destruct Hk as (Hn & Hl & Hk). rewrite (set_right_at _ _ _ _ _ _ Hn).
    rewrite path_ids_cons in *. simpl in *. nodup_facts Hnd.
    pose proof (outside_insert d i (mkRBNode (top l) p (up k) c 0 v)) as Ho.
    eexists. split; [done|]. split_and!; [by apply node_is_insert, Hn|..].
    + eapply outside_rep; [exact Ho|disj|done].
    + eapply outside_rep_path; [exact Ho|disj|done].
    + eapply outside_mono; [|exact Ho]. set_solver.
Qed.

(** [is_left_child] reads the node, its parent and the root only. *)
Lemma is_left_child_path d rt mx i n k :
  node_is d i n → rb_parent n = up k → rep_path d i k → NoDup (i :: path_ids k) →
  rt = path_root i k → is_left_child (V:=V) (mkTree d rt mx) i = Ok (goes_left k).
Proof.
  intros Hn Hp Hk Hnd ->. unfold is_left_child. simpl.
  pose proof (root_relink i NIL k Hnd) as Hroot.
  destruct k as [|f k]; [by rewrite Z.eqb_refl|].
  assert (path_root i (f :: k) ≠ i) as Hne.
  { simpl. intros He. apply NoDup_cons in Hnd as [Hi _]. apply Hi. rewrite path_ids_cons, <- He.
    destruct (path_root_in_or (crumb_id f) k) as [->|Hin]; [left|right; apply elem_of_app; by right]. }
  rewrite (proj2 (Z.eqb_neq i _)) by congruence.
  rewrite (get_parent_at _ _ _ _ _ Hn), Hp. cbn [mbind result_bind].
  rewrite path_ids_cons in Hnd. destruct f as [p c v sb|sb p c v]; simpl in *;
    destruct Hk as (Hpn & Hs & Hk); rewrite (get_left_at _ _ _ _ _ Hpn); cbn [mbind result_bind rb_left].
  - by rewrite Z.eqb_refl.
  - rewrite (proj2 (Z.eqb_neq _ _)); [done|]. intros He. nodup_facts Hnd.
    destruct sb as [|a b]; simpl in *; [destruct Hn; congruence|]. subst. rewrite ids_Node in *. disj.
Qed.

Lemma get_child_repr t l i c v r k : l = Leaf ∨ r = Leaf →
  repr t (plug (Node l i c v r) k) → get_child_index (V:=V) t i = Ok (top (only_child l r)).
Proof.
  intros Ho Hr. unfold get_child_index. rewrite (get_left_repr _ _ _ _ _ _ _ Hr). cbn [mbind result_bind].
  destruct l as [|ll li lc lv lr]; simpl.
  - by rewrite (get_right_repr _ _ _ _ _ _ _ Hr).
  - pose proof (repr_node t ll li lc lv lr (GoLeft i c v r :: k) Hr) as [Hi _].
    by rewrite (proj2 (Z.eqb_neq _ _) Hi).
Qed.

Context {K : Keep (B:=B)}.

(** The child takes the node's place; the node itself stays behind, outside the tree. *)
Lemma update_parent_child_spec t l i c v r k : l = Leaf ∨ r = Leaf →
  reprk K t (plug (Node l i c v r) k) →
  ∃ t', update_parent_child (V:=V) t i = Ok t' ∧ reprk K t' (plug (only_child l r) k).
Proof.
  intros Ho HK. pose proof (rk_repr _ _ _ HK) as Hr. unfold update_parent_child.
  rewrite (get_parent_repr _ _ _ _ _ _ _ Hr). cbn [mbind result_bind].
  rewrite (get_child_repr _ _ _ _ _ _ _ Ho Hr). cbn [mbind result_bind].
  apply repr_plug in Hr as ((Hi & Hl & Hrr) & Hk & Hnd & Hrt). destruct t as [d rt mx]. simpl in *.
  assert (rep d i (only_child l r) ∧ ids (Node l i c v r) ≡ₚ i :: ids (only_child l r)) as [Hc Hids].
  { destruct Ho as [->| ->]; simpl; [done|]. destruct l; [done|]. split; [done|].
    rewrite (ids_Node _ i). change (ids (@Leaf V)) with (@nil Z).
    by rewrite (Permutation_app_comm _ [i]). }
  rewrite Hids in Hnd. simpl in Hnd. nodup_facts Hnd.
  destruct (set_parent_tree d rt mx i (up k) (only_child l r)) as (d1 & E1 & Hc1 & O1); [done..|].
  rewrite E1. cbn [mbind result_bind].
  assert (rep_path d1 i k) as Hk1 by (eapply outside_rep_path; [exact O1|disj|done]).
  rewrite (is_left_child_path d1 rt mx i (mkRBNode (top l) (top r) (up k) c 0 v) k);
    [|eapply outside_node; [exact O1|disj|done]|done|done|apply NoDup_cons; split; [disj|done]|done].
  cbn [mbind result_bind].
  destruct (set_child_path d1 rt mx i (top (only_child l r)) k Hk1) as (d2 & E2 & Hk2 & O2); [done|].
  rewrite E2. cbn [mbind result_bind t_root].
  exists (mkTree d2 (path_root (top (only_child l r)) k) mx). split.
  - rewrite Hrt, <- (root_relink i (top (only_child l r)) k) by (apply NoDup_cons; split; [disj|done]).
    by destruct (_ =? i).
  - destruct HK as [_ Hm Hin Hout].
    assert (∀ x, x ∈ ids (only_child l r) ++ path_ids k → x ∈ k_ids K) as Hin'.
    { intros x Hx. apply Hin. rewrite ids_plug, Hids. by right. }
    split; [|done|..].
    + apply repr_plug. split_and!; [eapply outside_rep; [exact O2|disj|done]|done| |done].
      apply NoDup_app. split_and!; [done| |done]. intros x Hx Hx'. disj.
    + intros x. rewrite ids_plug. apply Hin'.
    + eapply outside_trans; [exact Hout|]. eapply outside_trans; (eapply outside_mono; [|first [exact O1|exact O2]]);
        intros x Hx; apply Hin', elem_of_app; tauto.
Qed.
End unlink.

Section repair.
Context {B V : Type} `{HB : BlockOf B (RBNode V)}.
Implicit Types (d : Region B) (t : Tree B) (s l r w : tree V) (f g : crumb V) (k : list (crumb V)) (i j : Z).

Lemma get_sibling_repr t s f k : repr t (plug s (f :: k)) →
  get_sibling_index (V:=V) t (top s) (crumb_id f) = Ok (top (crumb_sibling f)).
Proof.
  intros Hr. unfold get_sibling_index. pose proof Hr as Hr'. rewrite plug_cons in Hr'.
  assert (crumb_sibling f = Leaf ∧ s = Leaf ∨ top (crumb_sibling f) ≠ top s) as Hs.
  { destruct s as [|l i c v r]; [|right; by apply (repr_sibling_ne _ _ _ _ Hr)].
    destruct (crumb_sibling f) as [|l i c v r] eqn:E; [by left|right]. simpl.
    rewrite plug_flip, E in Hr'. apply (repr_node _ _ _ _ _ _ _ Hr'). }
  destruct f as [p c v w|w p c v]; simpl in *; rewrite (get_left_repr _ _ _ _ _ _ _ Hr'); simpl.
  - by rewrite Z.eqb_refl, (get_right_repr _ _ _ _ _ _ _ Hr').
  - destruct Hs as [[-> ->]|Hs]; [by rewrite (get_right_repr _ _ _ _ _ _ _ Hr')|].
    by rewrite (proj2 (Z.eqb_neq _ _)).
Qed.

Lemma is_right_child_focus t s f k : s ≠ Leaf → repr t (plug s (f :: k)) →
  is_right_child (V:=V) t (top s) = Ok (negb (goes_left (f :: k))).
Proof.
  intros Hs Hr. unfold is_right_child.
  pose proof (repr_not_root _ _ _ _ Hr Hs) as Hne. rewrite (proj2 (Z.eqb_neq _ _)) by congruence.
  rewrite (get_parent_focus _ _ _ _ Hs Hr). cbn [mbind result_bind].
  pose proof (repr_sibling_ne _ _ _ _ Hr Hs) as Hsb. rewrite plug_cons in Hr.
  destruct f as [p pc pv sib|sib p pc pv]; simpl in *; rewrite (get_right_repr _ _ _ _ _ _ _ Hr); simpl.
  - by rewrite (proj2 (Z.eqb_neq _ _)).
  - by rewrite Z.eqb_refl.
Qed.

Lemma root_not_focus t s f k : repr t (plug s (f :: k)) → t_root t ≠ top s.
Proof.
  intros Hr. destruct s as [|l i c v r]; [|by apply (repr_not_root _ _ _ _ Hr)].
  rewrite plug_cons in Hr. pose proof (repr_root_NIL _ _ Hr) as H. simpl. intros Heq.
  rewrite Heq in H. simpl in H. destruct (plug (fill Leaf f) k) eqn:E; [|done].
  assert (crumb_id f ∈ ids (plug (fill Leaf f) k)) as Hin.
  { rewrite <- plug_cons, ids_plug, path_ids_cons. set_solver. }
  rewrite E in Hin. by apply not_elem_of_nil in Hin.
Qed.

(** What [remove_fix] does with what it read. *)
Definition repair t (current parent sibling sl sr : Z) (sc pc : Color)
    (left_red right_red is_left is_right : bool) : result (Tree B * (Z * Z)) :=
  if bool_decide (sc = Black) && (left_red || right_red) then
    if left_red && is_left then
      t ← set_color (V:=V) t sl Black;
      t ← set_color (V:=V) t parent sc;
      t ← set_color (V:=V) t sibling pc;
      t ← rotate_right (V:=V) t parent;
      mret (t, (NIL, NIL))
    else if right_red && is_left then
      t ← set_color (V:=V) t sr pc;
      t ← set_color (V:=V) t parent Black;
      t ← set_color (V:=V) t sibling Black;
      t ← rotate_left (V:=V) t sibling;
      t ← rotate_right (V:=V) t parent;
      mret (t, (NIL, NIL))
    else if right_red && is_right then
      t ← set_color (V:=V) t sr Black;
      t ← set_color (V:=V) t parent sc;
      t ← set_color (V:=V) t sibling pc;
      t ← rotate_left (V:=V) t parent;
      mret (t, (NIL, NIL))
    else if left_red && is_right then
      t ← set_color (V:=V) t sl pc;
      t ← set_color (V:=V) t parent Black;
      t ← set_color (V:=V) t sibling Black;
      t ← rotate_right (V:=V) t sibling;
      t ← rotate_left (V:=V) t parent;
      mret (t, (NIL, NIL))
    else Ok (t, (NIL, NIL))
  else if bool_decide (sc = Black) then
    t ← set_color (V:=V) t sibling Red;
    if bool_decide (pc = Black) then
      grandparent ← get_parent_index (V:=V) t parent;
      mret (t, (parent, grandparent))
    else
      t ← set_color (V:=V) t parent Black;
      mret (t, (NIL, NIL))
  else if is_left then
    t ← rotate_right (V:=V) t parent;
    t ← set_color (V:=V) t parent Red;
    t ← set_color (V:=V) t sibling Black;
    mret (t, (current, parent))
  else if is_right then
    t ← rotate_left (V:=V) t parent;
    t ← set_color (V:=V) t parent Red;
    t ← set_color (V:=V) t sibling Black;
    mret (t, (current, parent))
  else Ok (t, (NIL, NIL)).

Definition left_of w : tree V := match w with Leaf => Leaf | Node l _ _ _ _ => l end.
Definition right_of w : tree V := match w with Leaf => Leaf | Node _ _ _ _ r => r end.

(** The sibling reads, once and for all. *)
Lemma remove_fix_reads t s f k : repr t (plug s (f :: k)) →
  ∃ sl sr : bool, (crumb_sibling f ≠ Leaf → sl = negb (goes_left (f :: k)) ∧ sr = goes_left (f :: k))
  ∧ remove_fix (V:=V) t (top s) (crumb_id f)
    = repair t (top s) (crumb_id f) (top (crumb_sibling f))
        (top (left_of (crumb_sibling f))) (top (right_of (crumb_sibling f)))
        (color_of (crumb_sibling f)) (crumb_color f)
        (is_red (left_of (crumb_sibling f))) (is_red (right_of (crumb_sibling f))) sl sr.
Proof.
  intros Hr. pose proof Hr as Hw. rewrite plug_cons, plug_flip in Hw. unfold remove_fix.
  rewrite (proj2 (Z.eqb_neq _ _) (root_not_focus _ _ _ _ Hr)).
  rewrite (get_sibling_repr _ _ _ _ Hr). cbn [mbind result_bind].
  rewrite (get_color_repr _ _ _ Hw). cbn [mbind result_bind].
  rewrite (get_color_up _ _ _ _ Hr). cbn [mbind result_bind].
  assert (goes_left (flip s f :: k) = negb (goes_left (f :: k))) as Hg by (by destruct f).
  destruct (crumb_sibling f) as [|wl wi wc wv wr] eqn:Ew.
  - change (get_left_index (V:=V) t (top Leaf)) with (@Ok Z NIL).
    change (get_right_index (V:=V) t (top Leaf)) with (@Ok Z NIL). cbn [mbind result_bind].
    change (get_color (V:=V) t NIL) with (@Ok Color Black). cbn [mbind result_bind].
    pose proof (root_not_focus _ _ _ _ Hw) as Hroot%not_eq_sym%Z.eqb_neq. cbn [top] in Hroot.
    unfold is_left_child, is_right_child. cbn [top]. rewrite Hroot. cbn -[repair].
    exists true, true. split; [done|]. by destruct (crumb_color f).
  - cbn [top color_of left_of right_of].
    rewrite (get_left_repr _ _ _ _ _ _ _ Hw). cbn [mbind result_bind].
    rewrite (get_color_repr t wl (GoLeft wi wc wv wr :: flip s f :: k) Hw). cbn [mbind result_bind].
    rewrite (get_right_repr _ _ _ _ _ _ _ Hw). cbn [mbind result_bind].
    rewrite (get_color_repr t wr (GoRight wl wi wc wv :: flip s f :: k) Hw). cbn [mbind result_bind].
    pose proof (is_left_child_focus t (Node wl wi wc wv wr) _ ltac:(done) Hw) as E1.
    pose proof (is_right_child_focus t (Node wl wi wc wv wr) _ _ ltac:(done) Hw) as E2.
    cbn [top] in E1, E2. rewrite E1. cbn [mbind result_bind]. rewrite E2. cbn [mbind result_bind].
    rewrite Hg, negb_involutive. exists (negb (goes_left (f :: k))), (goes_left (f :: k)).
    split; [done|]. reflexivity.
Qed.

Context {K : Keep (B:=B)}.

(** One colour write at a focus, and one rotation. *)
Ltac paint H s k c :=
  let t' := fresh "t" in let E := fresh "E" in let H' := fresh "H" in
  destruct (set_color_repr _ s k c H) as (t' & E & H'); cbn [top] in E; rewrite E;
  cbn [mbind result_bind]; clear E H; rename H' into H; cbn [recolor] in H.
Ltac rotate lem H :=
  let t' := fresh "t" in let E := fresh "E" in let H' := fresh "H" in
  destruct (lem H) as (t' & E & H'); rewrite E; cbn [mbind result_bind]; clear E H;
  rename H' into H.

(** The rotation cases. *)
Lemma rotate_below_right t s wl wi wv wr i c v k cur sl sr :
  is_red wl || is_red wr = true → sl = true →
  reprk K t (plug s (GoRight (Node wl wi Black wv wr) i c v :: k)) →
  ∃ t', repair t cur i wi (top wl) (top wr) Black c (is_red wl) (is_red wr) sl sr = Ok (t', (NIL, NIL))
    ∧ reprk K t' (plug (del_rotate s (GoRight (Node wl wi Black wv wr) i c v)) k).
Proof.
  intros Hred -> H. unfold repair. rewrite Hred. simpl del_rotate. cbn [bool_decide andb].
  rewrite bool_decide_eq_true_2 by done. cbn [andb]. destruct (is_red wl) eqn:El.
  - paint H wl (GoLeft wi Black wv wr :: GoLeft i c v s :: k) Black.
    paint H (Node (Node (recolor wl Black) wi Black wv wr) i c v s) k Black.
    paint H (Node (recolor wl Black) wi Black wv wr) (GoLeft i Black v s :: k) c.
    rotate (rotate_right_repr (K:=K) t2 wr wi c wv (recolor wl Black) i Black v s k) H. by eexists.
  - simpl in Hred. rewrite Hred. cbn [andb]. destruct wr as [|a j cj u b]; [done|]. cbn [top].
    paint H (Node a j cj u b) (GoRight wl wi Black wv :: GoLeft i c v s :: k) c.
    paint H (Node (Node wl wi Black wv (Node a j c u b)) i c v s) k Black.
    paint H (Node wl wi Black wv (Node a j c u b)) (GoLeft i Black v s :: k) Black.
    rotate (rotate_left_repr (K:=K) t2 wl wi Black wv a j c u b (GoLeft i Black v s :: k)) H.
    rotate (rotate_right_repr (K:=K) t3 b j c u (Node wl wi Black wv a) i Black v s k) H. by eexists.
Qed.

Lemma rotate_below_left t s wl wi wv wr i c v k cur sl sr :
  is_red wl || is_red wr = true → sl = false → sr = true →
  reprk K t (plug s (GoLeft i c v (Node wl wi Black wv wr) :: k)) →
  ∃ t', repair t cur i wi (top wl) (top wr) Black c (is_red wl) (is_red wr) sl sr = Ok (t', (NIL, NIL))
    ∧ reprk K t' (plug (del_rotate s (GoLeft i c v (Node wl wi Black wv wr))) k).
Proof.
  intros Hred -> -> H. unfold repair. rewrite Hred, !andb_false_r, !andb_true_r. simpl del_rotate.
  rewrite bool_decide_eq_true_2 by done. cbn [andb]. destruct (is_red wr) eqn:Er.
  - paint H wr (GoRight wl wi Black wv :: GoRight s i c v :: k) Black.
    paint H (Node s i c v (Node wl wi Black wv (recolor wr Black))) k Black.
    paint H (Node wl wi Black wv (recolor wr Black)) (GoRight s i Black v :: k) c.
    rotate (rotate_left_repr (K:=K) t2 s i Black v wl wi c wv (recolor wr Black) k) H. by eexists.
  - rewrite orb_false_r in Hred. rewrite Hred. destruct wl as [|a j cj u b]; [done|]. cbn [top].
    paint H (Node a j cj u b) (GoLeft wi Black wv wr :: GoRight s i c v :: k) c.
    paint H (Node s i c v (Node (Node a j c u b) wi Black wv wr)) k Black.
    paint H (Node (Node a j c u b) wi Black wv wr) (GoRight s i Black v :: k) Black.
    rotate (rotate_right_repr (K:=K) t2 b j c u a wi Black wv wr (GoRight s i Black v :: k)) H.
    rotate (rotate_left_repr (K:=K) t3 s i Black v a j c u (Node b wi Black wv wr) k) H. by eexists.
Qed.

(** One call below a black sibling: it ends, or moves one level up. *)
Definition black_step s f k (out : Tree B * (Z * Z)) : Prop :=
  if red_nephew (crumb_sibling f) then out.2 = (NIL, NIL) ∧ reprk K out.1 (plug (del_rotate s f) k)
  else match crumb_color f with
       | Black => out.2 = (crumb_id f, up k) ∧ reprk K out.1 (plug (fill s (redden_sibling f)) k)
       | Red => out.2 = (NIL, NIL)
                ∧ reprk K out.1 (plug (recolor (fill s (redden_sibling f)) Black) k)
       end.

Lemma black_sibling_spec t s f k : is_red (crumb_sibling f) = false → reprk K t (plug s (f :: k)) →
  ∃ out, remove_fix (V:=V) t (top s) (crumb_id f) = Ok out ∧ black_step s f k out.
Proof.
  intros Hw%is_red_false H. destruct (remove_fix_reads _ _ _ _ (rk_repr _ _ _ H)) as (sl & sr & Hd & ->).
  unfold black_step. rewrite Hw. destruct (red_nephew (crumb_sibling f)) eqn:Hn.
  - destruct f as [i c v [|wl wi wc wv wr]|[|wl wi wc wv wr] i c v]; simpl in *; try done; subst wc;
      destruct (Hd ltac:(done)) as [-> ->].
    + destruct (rotate_below_left t s wl wi wv wr i c v k (top s) false true Hn) as (t' & -> & H');
        [done..|]. by eexists.
    + destruct (rotate_below_right t s wl wi wv wr i c v k (top s) true false Hn) as (t' & -> & H');
        [done..|]. by eexists.
  - assert (is_red (left_of (crumb_sibling f)) || is_red (right_of (crumb_sibling f)) = false) as Hlr
      by (by destruct (crumb_sibling f)).
    unfold repair. rewrite Hlr, andb_false_r. rewrite bool_decide_eq_true_2 by done.
    rewrite plug_cons, plug_flip in H.
    paint H (crumb_sibling f) (flip s f :: k) Red.
    assert (reprk K t0 (plug (fill s (redden_sibling f)) k)) as H' by (by destruct f). clear H.
    assert (crumb_id f = top (fill s (redden_sibling f))) as Ht by (by destruct f).
    destruct (crumb_color f); [rewrite bool_decide_eq_true_2 by done|rewrite bool_decide_eq_false_2 by done].
    + assert (∃ l c v r, fill s (redden_sibling f) = Node l (crumb_id f) c v r) as (l & c & v & r & E).
      { destruct f; simpl; eauto. }
      pose proof (rk_repr _ _ _ H') as Hr. rewrite E in Hr.
      rewrite (get_parent_repr _ _ _ _ _ _ _ Hr). by eexists.
    + rewrite Ht. paint H' (fill s (redden_sibling f)) k Black. by eexists.
Qed.

(** One call below a red sibling. *)
Lemma red_sibling_spec t s f k : is_red (crumb_sibling f) = true → reprk K t (plug s (f :: k)) →
  ∃ t' f' g, remove_fix (V:=V) t (top s) (crumb_id f) = Ok (t', (top s, crumb_id f'))
    ∧ rotate_red s f = [f'; g] ∧ crumb_color f' = Red ∧ reprk K t' (plug s (f' :: g :: k)).
Proof.
  intros Hw%is_red_spec H. destruct (remove_fix_reads _ _ _ _ (rk_repr _ _ _ H)) as (sl & sr & Hd & ->).
  unfold repair. rewrite Hw, !(bool_decide_eq_false_2 (Red = Black)) by done. cbn [andb].
  destruct f as [i c v [|wl wi wc wv wr]|[|wl wi wc wv wr] i c v]; simpl in Hw; try done; subst wc;
    destruct (Hd ltac:(done)) as [-> ->]; simpl negb; cbn [goes_left crumb_id crumb_sibling top].
  - rotate (rotate_left_repr (K:=K) t s i c v wl wi Red wv wr k) H.
    paint H (Node s i c v wl) (GoLeft wi Red wv wr :: k) Red.
    paint H (Node (Node s i Red v wl) wi Red wv wr) k Black.
    by exists t2, (GoLeft i Red v wl), (GoLeft wi Black wv wr).
  - rotate (rotate_right_repr (K:=K) t wr wi Red wv wl i c v s k) H.
    paint H (Node wr i c v s) (GoRight wl wi Red wv :: k) Red.
    paint H (Node wl wi Red wv (Node wr i Red v s)) k Black.
    by exists t2, (GoRight wr i Red v), (GoRight wl wi Black wv).
Qed.

Definition well_colored k : Prop := Forall (λ f, ∃ n, rb (crumb_sibling f) n) k.

Lemma remove_fix_loop_spec fuel t s k :
  (S (length k) < fuel)%nat → well_colored k → reprk K t (plug s k) →
  ∃ t', remove_fix_loop (V:=V) fuel t (top s) (up k) = Ok t' ∧ reprk K t' (fix_del s k).
Proof.
  revert fuel t s. induction k as [|f k IH]; intros fuel t s Hf Hk H; destruct fuel as [|fuel]; try lia; simpl.
  - unfold remove_fix. rewrite (repr_root_plug _ s [] (rk_repr _ _ _ H)). simpl. rewrite Z.eqb_refl.
    simpl. by exists t.
  - apply Forall_cons in Hk as [[n Hn] Hk]. destruct (is_red (crumb_sibling f)) eqn:Hred.
    + destruct (red_sibling_spec _ _ _ _ Hred H) as (t1 & f' & g & -> & Hrot & Hc & H1).
      cbn [mbind result_bind]. rewrite Hrot.
      assert (crumb_id f' ≠ NIL) as Hid.
      { pose proof (rk_repr _ _ _ H1) as Hr. rewrite plug_cons in Hr.
        destruct f'; apply (repr_node _ _ _ _ _ _ _ Hr). }
      rewrite (proj2 (Z.eqb_neq _ _) Hid), andb_false_r.
      destruct fuel as [|fuel]; [simpl in Hf; lia|]. simpl.
      assert (is_red (crumb_sibling f') = false) as Hb.
      { apply is_red_false. apply is_red_spec in Hred.
        destruct f as [i c v [|wl wi wc wv wr]|[|wl wi wc wv wr] i c v]; simpl in *; try done; subst;
          injection Hrot as <- <-; by apply rb_red_inv in Hn as (_ & _ & ? & ?). }
      destruct (black_sibling_spec _ _ _ _ Hb H1) as ([t2 nxt] & -> & Hs).
      cbn [mbind result_bind]. unfold black_step in Hs. rewrite Hc in Hs.
      exists t2. unfold settle. destruct (red_nephew (crumb_sibling f')); simpl in Hs; destruct Hs as [-> Hs].
      * by split.
      * by rewrite fill_recolor in Hs.
    + destruct (black_sibling_spec _ _ _ _ Hred H) as ([t1 nxt] & -> & Hs).
      cbn [mbind result_bind]. unfold black_step in Hs.
      destruct (red_nephew (crumb_sibling f)); simpl in Hs; [destruct Hs as [-> Hs]; by exists t1|].
      destruct (crumb_color f); simpl in Hs; destruct Hs as [-> Hs]; [|by exists t1].
      assert (crumb_id f ≠ NIL) as Hid.
      { pose proof (rk_repr _ _ _ H) as Hr. rewrite plug_cons in Hr.
        destruct f; apply (repr_node _ _ _ _ _ _ _ Hr). }
      rewrite (proj2 (Z.eqb_neq _ _) Hid). cbn [andb].
      replace (crumb_id f) with (top (fill s (redden_sibling f))) by (by destruct f).
      apply IH; [simpl in Hf; lia|done|done].
Qed.
End repair.

(** ** Logs of field writes

    A straight-line run of setters is a list of writes; what a node holds at the end
    is the fold of the writes that hit it. *)

Section writes.
Context {B V : Type} `{HB : BlockOf B (RBNode V)}.
Implicit Types (d : Region B) (t : Tree B) (i j x rt mx : Z) (n : RBNode V).

Definition write : Type := Z * (RBNode V → RBNode V).
Implicit Types (o : write) (ws : list write).

Definition run_write d o : Region B :=
  if o.1 =? NIL then d else
  match region_get d o.1 with Ok n => <[o.1 := to_block (o.2 n)]> d | Err _ => d end.
Definition run_writes d ws : Region B := foldl run_write d ws.

Definition hit x n o : RBNode V := if o.1 =? x then o.2 n else n.

Definition has_node d i : Prop := i = NIL ∨ ∃ n, region_get (A:=RBNode V) d i = Ok n.

Lemma run_write_get d o x n : x ≠ NIL → region_get d x = Ok n →
  region_get (run_write d o) x = Ok (hit x n o).
Proof.
  intros Hx Hn. unfold run_write, hit. destruct (Z.eqb_spec (o.1) NIL) as [Ho|Ho].
  - rewrite (proj2 (Z.eqb_neq _ _)); [done|congruence].
  - destruct (Z.eqb_spec (o.1) x) as [Hox|Hox].
    + rewrite Hox, Hn. apply region_get_insert.
    + destruct (region_get d (o.1)); [|done]. by rewrite region_get_insert_ne by done.
Qed.

Lemma run_writes_get ws d x n : x ≠ NIL → region_get d x = Ok n →
  region_get (run_writes d ws) x = Ok (foldl (hit x) n ws).
Proof.
  intros Hx. revert d n. induction ws as [|o ws IH]; intros d n Hn; [done|].
  apply IH. by apply run_write_get.
Qed.

Lemma has_node_run d i o : has_node d i → has_node (run_write d o) i.
Proof.
  intros [->|[n Hn]]; [by left|]. destruct (decide (i = NIL)); [by left|right].
  eexists. by apply run_write_get.
Qed.

Lemma has_node_runs ws d i : has_node d i → has_node (run_writes d ws) i.
Proof.
  revert d. induction ws as [|o ws IH]; intros d Hi; [done|]. by apply IH, has_node_run.
Qed.

Lemma run_write_outside d o : outside [o.1] d (run_write d o).
Proof.
  unfold run_write. destruct (_ =? _); [apply outside_refl|].
  destruct (region_get d (o.1)); [apply outside_insert|apply outside_refl].
Qed.

Lemma run_writes_outside L ws d :
  (∀ o, o ∈ ws → o.1 ∈ L ∨ o.1 = NIL) → outside L d (run_writes d ws).
Proof.
  revert d. induction ws as [|o ws IH]; intros d Hw; [apply outside_refl|].
  eapply outside_trans; [|apply IH; intros o' Ho'; apply Hw; by right].
  destruct (Hw o) as [Ho|Ho]; [left| |].
  - eapply outside_mono; [|apply run_write_outside]. intros j ->%list_elem_of_singleton. done.
  - unfold run_write. rewrite Ho. apply outside_refl.
Qed.

Definition to_left (y : Z) n : RBNode V := n <| rb_left := y |>.
Definition to_right (y : Z) n : RBNode V := n <| rb_right := y |>.
Definition to_parent (y : Z) n : RBNode V := n <| rb_parent := y |>.
Definition to_color (c : Color) n : RBNode V := n <| rb_color := c |>.
Definition to_child (b : bool) (y : Z) n : RBNode V := if b then to_left y n else to_right y n.

Lemma modify_run d rt mx i f : i ≠ NIL → has_node d i →
  modify_node (mkTree d rt mx) i f = Ok (mkTree (run_write d (i, f)) rt mx).
Proof.
  intros Hi [|[n Hn]]; [done|]. rewrite (modify_node_at _ _ _ _ n) by done. unfold run_write. simpl.
  by rewrite (proj2 (Z.eqb_neq _ _) Hi), Hn.
Qed.

Lemma set_left_run d rt mx i y : has_node d i →
  set_left_index (V:=V) (mkTree d rt mx) i y = Ok (mkTree (run_write d (i, to_left y)) rt mx).
Proof.
  intros Hi. unfold set_left_index. destruct (Z.eqb_spec i NIL) as [->|Hn]; [done|]. by apply modify_run.
Qed.
Lemma set_right_run d rt mx i y : has_node d i →
  set_right_index (V:=V) (mkTree d rt mx) i y = Ok (mkTree (run_write d (i, to_right y)) rt mx).
Proof.
  intros Hi. unfold set_right_index. destruct (Z.eqb_spec i NIL) as [->|Hn]; [done|]. by apply modify_run.
Qed.
Lemma set_parent_run d rt mx i y : has_node d i →
  set_parent_index (V:=V) (mkTree d rt mx) i y = Ok (mkTree (run_write d (i, to_parent y)) rt mx).
Proof.
  intros Hi. unfold set_parent_index. destruct (Z.eqb_spec i NIL) as [->|Hn]; [done|]. by apply modify_run.
Qed.
Lemma set_color_run d rt mx i c : has_node d i →
  set_color (V:=V) (mkTree d rt mx) i c = Ok (mkTree (run_write d (i, to_color c)) rt mx).
Proof.
  intros Hi. unfold set_color. destruct (Z.eqb_spec i NIL) as [->|Hn]; [done|]. by apply modify_run.
Qed.
Lemma set_child_run (b : bool) d rt mx i y : has_node d i →
  (if b then set_left_index (V:=V) (mkTree d rt mx) i y else set_right_index (V:=V) (mkTree d rt mx) i y)
    = Ok (mkTree (run_write d (i, to_child b y)) rt mx).
Proof. intros Hi. destruct b; [by rewrite set_left_run|by rewrite set_right_run]. Qed.

(** Writes that leave the colours alone. *)
Definition keeps_color o : Prop := ∀ n, rb_color (o.2 n) = rb_color n.

Lemma get_color_run ws d rt mx i n : i ≠ NIL → region_get d i = Ok n → Forall keeps_color ws →
  get_color (V:=V) (mkTree (run_writes d ws) rt mx) i = Ok (rb_color n).
Proof.
  intros Hi Hn Hw. unfold get_color, get_node. rewrite (proj2 (Z.eqb_neq _ _) Hi). cbn [t_data].
  rewrite (run_writes_get _ _ _ n) by done. cbn [fmap result_fmap]. f_equal. clear Hn. revert n.
  induction Hw as [|o ws Ho Hw IH]; intros n; [done|]. simpl. rewrite IH. unfold hit.
  by destruct (_ =? i).
Qed.
End writes.
Arguments write : clear implicits.

(** ** Trading places with the successor *)

Section swap.
Context {B V : Type} `{HB : BlockOf B (RBNode V)}.
Implicit Types (d : Region B) (t : Tree B) (s l r : tree V) (k : list (crumb V)) (i j x rt mx : Z) (n : RBNode V).

(** The writes of [swap_node_with_successor]. *)
Definition swap_links (b0 b1 : bool) (i0 i1 p0 p1 l0 l1 r0 r1 : Z) : list (write V) :=
  [(p0, to_child b0 i1); (p1, to_child b1 i0);
   (i0, to_left l1); (i0, to_right r1); (i0, to_parent p1);
   (i1, to_left l0); (i1, to_right r0); (i1, to_parent p0);
   (l0, to_parent i1); (l1, to_parent i0); (r0, to_parent i1); (r1, to_parent i0)]
  ++ (if p1 =? i0 then [(i0, to_parent i1); (i1, to_parent p0); (i1, to_right i0)] else []).

Lemma swap_runs d rt mx i0 i1 n0 n1 (b0 b1 : bool) :
  node_is d i0 n0 → node_is d i1 n1 →
  is_left_child (V:=V) (mkTree d rt mx) i0 = Ok b0 → is_left_child (V:=V) (mkTree d rt mx) i1 = Ok b1 →
  has_node (V:=V) d (rb_parent n0) → has_node (V:=V) d (rb_parent n1) →
  has_node (V:=V) d (rb_left n0) → has_node (V:=V) d (rb_left n1) →
  has_node (V:=V) d (rb_right n0) → has_node (V:=V) d (rb_right n1) →
  swap_node_with_successor (V:=V) (mkTree d rt mx) i0 i1
    = Ok (mkTree (run_writes d (swap_links b0 b1 i0 i1 (rb_parent n0) (rb_parent n1)
                   (rb_left n0) (rb_left n1) (rb_right n0) (rb_right n1)
                   ++ [(i0, to_color (rb_color n1)); (i1, to_color (rb_color n0))]))
            (if rt =? i0 then i1 else rt) mx).
Proof.
  intros N0 N1 H0 H1 Hp0 Hp1 Hl0 Hl1 Hr0 Hr1. unfold swap_node_with_successor.
  rewrite (get_parent_at _ _ _ _ _ N0), (get_parent_at _ _ _ _ _ N1). cbn [mbind result_bind].
  rewrite (get_left_at _ _ _ _ _ N0), (get_left_at _ _ _ _ _ N1). cbn [mbind result_bind].
  rewrite (get_right_at _ _ _ _ _ N0), (get_right_at _ _ _ _ _ N1). cbn [mbind result_bind].
  rewrite H0. cbn [mbind result_bind]. rewrite H1. cbn [mbind result_bind].
  assert (has_node (V:=V) d i0 ∧ has_node (V:=V) d i1) as [Hi0 Hi1].
  { split; right; [exists n0; apply N0|exists n1; apply N1]. }
  repeat first [rewrite set_child_run by (repeat apply has_node_run; done)
    |rewrite set_left_run by (repeat apply has_node_run; done)
    |rewrite set_right_run by (repeat apply has_node_run; done)
    |rewrite set_parent_run by (repeat apply has_node_run; done)
    |progress cbn [mbind result_bind]].
  set (ws := swap_links b0 b1 i0 i1 (rb_parent n0) (rb_parent n1)
               (rb_left n0) (rb_left n1) (rb_right n0) (rb_right n1)).
  lazymatch goal with |- context [if ?b then Ok ?x else Ok ?y] =>
    replace (if b then Ok x else Ok y) with (@Ok (Tree B) (mkTree (run_writes d ws) rt mx))
      by (unfold ws, swap_links; destruct b; reflexivity) end.
  assert (Forall keeps_color ws) as Hk.
  { unfold ws, swap_links. destruct (_ =? _); repeat constructor; intros m; destruct m;
      unfold to_child; simpl; repeat case_match; done. }
  clearbody ws. cbn [mbind result_bind t_root].
  set (rt' := if rt =? i0 then i1 else rt).
  replace (if rt =? i0 then (mkTree (run_writes d ws) rt mx) <| t_root := i1 |>
           else mkTree (run_writes d ws) rt mx) with (mkTree (run_writes d ws) rt' mx)
    by (unfold rt'; by destruct (rt =? i0)).
  rewrite (get_color_run ws d rt' mx i0 n0), (get_color_run ws d rt' mx i1 n1)
    by (done || apply N0 || apply N1). cbn [mbind result_bind].
  rewrite set_color_run by (by apply has_node_runs). cbn [mbind result_bind].
  rewrite set_color_run by (by apply has_node_run, has_node_runs).
  unfold run_writes. by rewrite foldl_app.
Qed.

(** Who points to whom in a represented tree. *)
Lemma focus_id s x : x ∈ ids s → ∃ l c v r k, s = plug (Node l x c v r) k.
Proof.
  intros ([y v] & -> & Hin)%list_elem_of_fmap. apply focus_entry in Hin as (l & c & r & k & ->). eauto 10.
Qed.

Lemma focus_same t s x l c v r k l' c' v' r' k' : repr t s →
  s = plug (Node l x c v r) k → s = plug (Node l' x c' v' r') k' →
  top l = top l' ∧ top r = top r' ∧ up k = up k' ∧ c = c' ∧ v = v' ∧ goes_left k = goes_left k'.
Proof.
  intros Hr -> E. pose proof Hr as Hr'. rewrite E in Hr'.
  pose proof (is_left_child_repr _ _ _ _ _ _ _ Hr) as H1.
  rewrite (is_left_child_repr _ _ _ _ _ _ _ Hr') in H1.
  apply repr_node in Hr as [_ Hn]. apply repr_node in Hr' as [_ Hn']. rewrite Hn in Hn'.
  injection Hn' as -> -> -> -> ->. by injection H1 as ->.
Qed.

Lemma focus_not_NIL t s x l c v r k : repr t s → s = plug (Node l x c v r) k → x ≠ NIL.
Proof. intros Hr ->. apply (repr_node _ _ _ _ _ _ _ Hr). Qed.

Lemma left_child_of t s y l c v r k x l' c' v' r' k' : repr t s →
  s = plug (Node l y c v r) k → s = plug (Node l' x c' v' r') k' →
  top l' = y ↔ up k = x ∧ goes_left k = true.
Proof.
  intros Hr E E'. pose proof (focus_not_NIL _ _ _ _ _ _ _ _ Hr E) as Hy. split.
  - intros Ht. destruct l' as [|a z b w e]; simpl in Ht; [congruence|]. subst z.
    destruct (focus_same t s y l c v r k a b w e (GoLeft x c' v' r' :: k') Hr E E')
      as (_ & _ & -> & _ & _ & ->). done.
  - destruct k as [|[p pc pv sb|sb p pc pv] k]; simpl; intros [Hx Hg]; try done. subst p.
    destruct (focus_same t s x (Node l y c v r) pc pv sb k l' c' v' r' k' Hr E E') as (<- & _). done.
Qed.

Lemma right_child_of t s y l c v r k x l' c' v' r' k' : repr t s →
  s = plug (Node l y c v r) k → s = plug (Node l' x c' v' r') k' →
  top r' = y ↔ up k = x ∧ goes_left k = false.
Proof.
  intros Hr E E'. pose proof (focus_not_NIL _ _ _ _ _ _ _ _ Hr E) as Hy.
  pose proof (focus_not_NIL _ _ _ _ _ _ _ _ Hr E') as Hx. split.
  - intros Ht. destruct r' as [|a z b w e]; simpl in Ht; [congruence|]. subst z.
    destruct (focus_same t s y l c v r k a b w e (GoRight l' x c' v' :: k') Hr E E')
      as (_ & _ & -> & _ & _ & ->). done.
  - destruct k as [|[p pc pv sb|sb p pc pv] k]; simpl; intros [Hp Hg]; try done. subst p.
    destruct (focus_same t s x sb pc pv (Node l y c v r) k l' c' v' r' k' Hr E E') as (_ & <- & _). done.
Qed.

Lemma parent_of t s y l c v r k x l' c' v' r' k' : repr t s →
  s = plug (Node l y c v r) k → s = plug (Node l' x c' v' r') k' →
  up k' = y ↔ top l = x ∨ top r = x.
Proof.
  intros Hr E E'. rewrite (left_child_of t s x l' c' v' r' k' y l c v r k Hr E' E).
  rewrite (right_child_of t s x l' c' v' r' k' y l c v r k Hr E' E).
  destruct (goes_left k'); naive_solver.
Qed.

(** *** The tree after the exchange *)

Definition sw (i j x : Z) : Z := if x =? i then j else if x =? j then i else x.

(** The positions of [i] and [j] trade their nodes; colours belong to positions. *)
Fixpoint swap_tree i (vi : V) j (vj : V) s : tree V :=
  match s with
  | Leaf => Leaf
  | Node l x c v r =>
      Node (swap_tree i vi j vj l) (sw i j x) c
        (if x =? i then vj else if x =? j then vi else v) (swap_tree i vi j vj r)
  end.
Definition swap_crumb i (vi : V) j (vj : V) (f : crumb V) : crumb V :=
  match f with
  | GoLeft x c v r =>
      GoLeft (sw i j x) c (if x =? i then vj else if x =? j then vi else v) (swap_tree i vi j vj r)
  | GoRight l x c v =>
      GoRight (swap_tree i vi j vj l) (sw i j x) c (if x =? i then vj else if x =? j then vi else v)
  end.

Lemma sw_ne i j x : x ≠ i → x ≠ j → sw i j x = x.
Proof. intros H1%Z.eqb_neq H2%Z.eqb_neq. unfold sw. by rewrite H1, H2. Qed.
Lemma sw_l i j : sw i j i = j.
Proof. unfold sw. by rewrite Z.eqb_refl. Qed.
Lemma sw_r i j : sw i j j = i.
Proof. unfold sw. rewrite Z.eqb_refl. by destruct (Z.eqb_spec j i). Qed.
Lemma sw_involutive i j x : sw i j (sw i j x) = x.
Proof.
  destruct (decide (x = i)) as [->|Hi]; [by rewrite sw_l, sw_r|].
  destruct (decide (x = j)) as [->|Hj]; [by rewrite sw_r, sw_l|].
  by rewrite !(sw_ne i j x).
Qed.

Lemma top_swap i vi j vj s : i ≠ NIL → j ≠ NIL → top (swap_tree i vi j vj s) = sw i j (top s).
Proof. intros. destruct s; simpl; [by rewrite sw_ne|done]. Qed.

Lemma ids_swap i vi j vj s : ids (swap_tree i vi j vj s) = sw i j <$> ids s.
Proof.
  induction s as [|l IHl x c v r IHr]; [done|]. simpl swap_tree.
  rewrite !ids_Node, IHl, IHr. by rewrite fmap_app.
Qed.

Lemma color_swap i vi j vj s : color_of (swap_tree i vi j vj s) = color_of s.
Proof. by destruct s. Qed.

Lemma rb_swap i vi j vj s m : rb s m → rb (swap_tree i vi j vj s) m.
Proof. induction 1; simpl; constructor; rewrite ?color_swap; done. Qed.

Lemma swap_tree_id i vi j vj s : i ∉ ids s → j ∉ ids s → swap_tree i vi j vj s = s.
Proof.
  induction s as [|l IHl x c v r IHr]; [done|]. rewrite ids_Node, !not_elem_of_app, !not_elem_of_cons.
  intros (Hil & Hix & Hir) (Hjl & Hjx & Hjr). simpl. rewrite IHl, IHr by done.
  rewrite sw_ne by congruence. by rewrite !(proj2 (Z.eqb_neq _ _)) by congruence.
Qed.

Lemma swap_path_id i vi j vj k : i ∉ path_ids k → j ∉ path_ids k → swap_crumb i vi j vj <$> k = k.
Proof.
  induction k as [|f k IH]; [done|]. rewrite path_ids_cons, !not_elem_of_cons, !not_elem_of_app.
  intros (Hif & Hil & Hir) (Hjf & Hjl & Hjr). rewrite fmap_cons, IH by done. f_equal.
  destruct f; simpl in *; rewrite swap_tree_id, sw_ne by done;
    by rewrite !(proj2 (Z.eqb_neq _ _)) by congruence.
Qed.

Lemma swap_plug i vi j vj s k :
  swap_tree i vi j vj (plug s k) = plug (swap_tree i vi j vj s) (swap_crumb i vi j vj <$> k).
Proof.
  revert s. induction k as [|f k IH]; intros s; [done|]. rewrite plug_cons, IH, fmap_cons, plug_cons.
  f_equal. by destruct f.
Qed.

(** A region that holds the exchanged node at every position holds the exchanged tree. *)
Lemma rep_swap d i vi j vj s k : i ≠ NIL → j ≠ NIL →
  (∀ l x c v r k', plug s k = plug (Node l x c v r) k' →
    node_is d (sw i j x) (mkRBNode (sw i j (top l)) (sw i j (top r)) (sw i j (up k')) c 0
      (if x =? i then vj else if x =? j then vi else v))) →
  rep d (sw i j (up k)) (swap_tree i vi j vj s).
Proof.
  intros Hi Hj. revert k. induction s as [|l IHl x c v r IHr]; intros k H; [done|]. simpl.
  rewrite !top_swap by done. split_and!; [by apply H|..].
  - apply (IHl (GoLeft x c v r :: k)), H.
  - apply (IHr (GoRight l x c v :: k)), H.
Qed.

(** *** What the writes leave in each node *)

Lemma hit_here x i f ws n : (i =? x) = true →
  foldl (hit x) n ((i, f) :: ws) = foldl (hit (V:=V) x) (f n) ws.
Proof. simpl. unfold hit. simpl. by intros ->. Qed.
Lemma hit_skip x i f ws n : (i =? x) = false →
  foldl (hit x) n ((i, f) :: ws) = foldl (hit (V:=V) x) n ws.
Proof. simpl. unfold hit at 2. simpl. by intros ->. Qed.

(** Plays a log on one node; an undecided key splits the case. *)
Ltac play :=
  cbn [app];
  repeat first
    [ rewrite hit_skip by assumption | rewrite hit_here by assumption
    | rewrite hit_here by apply Z.eqb_refl
    | rewrite hit_skip by (apply Z.eqb_neq; congruence) ].

Lemma swap_writes_other (g0 g1 : bool) i j p0 p1 y0 z0 z1 x a b p c v c0 c1 :
  i ≠ j → x ≠ i → x ≠ j → x ≠ NIL →
  (a =? i) = (p0 =? x) && g0 → (b =? i) = (p0 =? x) && negb g0 →
  (a =? j) = (p1 =? x) && g1 → (b =? j) = (p1 =? x) && negb g1 →
  (p =? i) = (y0 =? x) || (z0 =? x) → (p =? j) = (z1 =? x) →
  foldl (hit x) (mkRBNode a b p c 0 v)
    (swap_links g0 g1 i j p0 p1 y0 NIL z0 z1 ++ [(i, to_color c1); (j, to_color c0)])
  = mkRBNode (sw i j a) (sw i j b) (sw i j p) c 0 v.
Proof.
  intros Hij Hxi%not_eq_sym%Z.eqb_neq Hxj%not_eq_sym%Z.eqb_neq Hx%not_eq_sym%Z.eqb_neq Ha Hb Ha' Hb' Hp Hp'.
  assert (∀ y, (y =? i) = true → (y =? j) = true → False) as Hc.
  { intros y H1%Z.eqb_eq H2%Z.eqb_eq. congruence. }
  pose proof (Hc a) as Hca. pose proof (Hc b) as Hcb. pose proof (Hc p) as Hcp. clear Hc.
  unfold sw. rewrite Ha, Ha', Hb, Hb', Hp, Hp' in *. clear Ha Hb Ha' Hb' Hp Hp'. unfold swap_links.
  assert (∀ n, foldl (hit x) n ((if p1 =? i then [(i, to_parent j); (j, to_parent p0); (j, to_right i)]
    else []) ++ [(i, to_color c1); (j, to_color c0)]) = n) as Htail.
  { intros n. destruct (p1 =? i); play; done. }
  rewrite <- app_assoc.
  destruct (p0 =? x) eqn:E0, g0; simpl in Hca, Hcb; destruct (p1 =? x) eqn:E1, g1;
    try (by destruct Hca); try (by destruct Hcb); clear Hca Hcb;
    destruct (y0 =? x) eqn:E2, (z0 =? x) eqn:E3, (z1 =? x) eqn:E4; try (by destruct Hcp);
    play; by rewrite Htail.
Qed.

Lemma swap_writes_node (g0 g1 : bool) i j p0 p1 y0 z0 z1 c0 c1 v :
  i ≠ j → j ≠ NIL → p0 ≠ i → p0 ≠ j → p1 ≠ j → y0 ≠ i → y0 ≠ j → z0 ≠ i → z1 ≠ j → z1 ≠ i →
  (z0 =? j) = (p1 =? i) →
  foldl (hit j) (mkRBNode NIL z1 p1 c1 0 v)
    (swap_links g0 g1 i j p0 p1 y0 NIL z0 z1 ++ [(i, to_color c1); (j, to_color c0)])
  = mkRBNode (sw i j y0) (sw i j z0) (sw i j p0) c0 0 v.
Proof.
  intros Hij Hj Hp0i Hp0 Hp1 Hy0i Hy0 Hz0 Hz1 Hz1i Hadj.
  rewrite (sw_ne i j y0), (sw_ne i j p0) by done. unfold sw, swap_links. rewrite <- app_assoc.
  rewrite (proj2 (Z.eqb_neq z0 i)), Hadj by done. destruct (p1 =? i); play; done.
Qed.

Lemma swap_writes_successor (g0 g1 : bool) i j p0 p1 y0 z0 z1 c0 c1 v :
  i ≠ j → i ≠ NIL → p0 ≠ i → p1 ≠ j → y0 ≠ i → z0 ≠ i → z1 ≠ j → z1 ≠ i → j ≠ NIL →
  foldl (hit i) (mkRBNode y0 z0 p0 c0 0 v)
    (swap_links g0 g1 i j p0 p1 y0 NIL z0 z1 ++ [(i, to_color c1); (j, to_color c0)])
  = mkRBNode NIL (sw i j z1) (sw i j p1) c1 0 v.
Proof.
  intros Hij Hi Hp0 Hp1 Hy0 Hz0 Hz1j Hz1 Hj. rewrite (sw_ne i j z1) by done. unfold sw, swap_links.
  rewrite <- app_assoc, (proj2 (Z.eqb_neq p1 j)) by done.
  destruct (Z.eqb_spec p1 i) as [->|Hne]; play; [by destruct g1|done].
Qed.

(** *** The exchange itself *)

Lemma up_or k : up k = NIL ∨ up k ∈ path_ids k.
Proof. destruct k as [|f k]; [by left|right]. apply up_in. Qed.
Lemma top_or s : top s = NIL ∨ top s ∈ ids s.
Proof. destruct s; [by left|right]. by apply top_in. Qed.

Lemma path_ids_app k1 k2 : path_ids (k1 ++ k2) = path_ids (V:=V) k1 ++ path_ids k2.
Proof. apply bind_app. Qed.

Lemma has_node_of t s x : repr t s → x = NIL ∨ x ∈ ids s → has_node (V:=V) (t_data t) x.
Proof.
  intros Hr [->|Hx]; [by left|right]. destruct (focus_id _ _ Hx) as (l & c & v & r & k & ->).
  apply repr_node in Hr as [_ Hn]. by eexists.
Qed.

(** The nodes around [i] and its successor [j] are all different, but for the
    successor being the right child. *)
Lemma swap_apart l i c v cj vj rr j kj k :
  NoDup (ids (Node l i c v (plug (Node Leaf j cj vj rr) kj)) ++ path_ids k) →
  i ≠ NIL → j ≠ NIL →
  i ≠ j ∧ up k ≠ i ∧ up k ≠ j ∧ up (kj ++ GoRight l i c v :: k) ≠ j
  ∧ top l ≠ i ∧ top l ≠ j ∧ top (plug (Node Leaf j cj vj rr) kj) ≠ i ∧ top rr ≠ j ∧ top rr ≠ i.
Proof.
  intros Hnd Hi Hj.
  assert (NoDup (ids l ++ i :: (j :: ids rr ++ path_ids kj) ++ path_ids k)) as Hnd'.
  { rewrite ids_Node, ids_plug, ids_Node in Hnd. simpl in Hnd. by rewrite <- app_assoc in Hnd. }
  rewrite top_plug. simpl in Hnd'. nodup_facts Hnd'. assert (i ≠ j) as Hij by disj.
  assert (up (kj ++ GoRight l i c v :: k) = i ∨ up (kj ++ GoRight l i c v :: k) ∈ path_ids kj) as Hu.
  { destruct kj as [|f kj]; [by left|right]. rewrite path_ids_cons. left. }
  destruct (up_or k), (top_or l), (top_or rr), Hu, (path_root_in_or (top (Node Leaf j cj vj rr)) kj);
    simpl top in *; split_and!; first [congruence|disj].
Qed.

Context {K : Keep (B:=B)}.

Lemma eqb_iff x y (b : bool) : (x = y ↔ b = true) → (x =? y) = b.
Proof. intros H. destruct b; [by apply Z.eqb_eq, H|]. apply Z.eqb_neq. naive_solver. Qed.

(** Every position of the exchanged tree, in the region the writes leave. *)
Lemma swap_positions d rt mx s l i c v r k rr j cj vj kj ws :
  repr (mkTree d rt mx) s → s = plug (Node l i c v r) k → s = plug (Node Leaf j cj vj rr) kj →
  i ≠ j ∧ up k ≠ i ∧ up k ≠ j ∧ up kj ≠ j
  ∧ top l ≠ i ∧ top l ≠ j ∧ top r ≠ i ∧ top rr ≠ j ∧ top rr ≠ i →
  ws = swap_links (goes_left k) (goes_left kj) i j (up k) (up kj) (top l) NIL (top r) (top rr)
         ++ [(i, to_color cj); (j, to_color c)] →
  ∀ l' x c' v' r' k', s = plug (Node l' x c' v' r') k' →
    node_is (run_writes d ws) (sw i j x)
      (mkRBNode (sw i j (top l')) (sw i j (top r')) (sw i j (up k')) c' 0
        (if x =? i then vj else if x =? j then v else v')).
Proof.
  intros Hr E E' (Hij & Hp0i & Hp0j & Hp1j & Hl0i & Hl0j & Hr0i & Hr1j & Hr1i) Hws l' x c' v' r' k' Ex.
  pose proof (focus_not_NIL _ _ _ _ _ _ _ _ Hr E) as Hi.
  pose proof (focus_not_NIL _ _ _ _ _ _ _ _ Hr E') as Hj.
  pose proof (focus_not_NIL _ _ _ _ _ _ _ _ Hr Ex) as Hx.
  pose proof Hr as N0. rewrite E in N0. apply repr_node in N0 as [_ N0].
  pose proof Hr as N1. rewrite E' in N1. apply repr_node in N1 as [_ N1].
  pose proof Hr as Nx. rewrite Ex in Nx. apply repr_node in Nx as [_ Nx].
  cbn [t_data top] in N0, N1, Nx.
  destruct (decide (x = i)) as [->|Hxi]; [|destruct (decide (x = j)) as [->|Hxj]].
  - destruct (focus_same _ _ _ _ _ _ _ _ _ _ _ _ _ Hr E Ex) as (<- & <- & <- & <- & <- & _).
    rewrite sw_l, Z.eqb_refl. split; [done|]. rewrite (run_writes_get _ _ _ _ Hj N1), Hws. f_equal.
    apply swap_writes_node; try done. apply eq_bool_prop_intro.
    rewrite !Is_true_true, !Z.eqb_eq. rewrite (right_child_of _ _ _ _ _ _ _ _ _ _ _ _ _ _ Hr E' E).
    pose proof (left_child_of _ _ _ _ _ _ _ _ _ _ _ _ _ _ Hr E' E) as Hl.
    destruct (goes_left kj); naive_solver.
  - destruct (focus_same _ _ _ _ _ _ _ _ _ _ _ _ _ Hr E' Ex) as (<- & <- & <- & <- & <- & _).
    rewrite sw_r, Z.eqb_refl, (proj2 (Z.eqb_neq j i)) by congruence. split; [done|].
    rewrite (run_writes_get _ _ _ _ Hi N0), Hws. f_equal. rewrite (sw_ne i j (top Leaf)) by (simpl; congruence).
    by apply swap_writes_successor.
  - rewrite (sw_ne i j x), (proj2 (Z.eqb_neq x i)), (proj2 (Z.eqb_neq x j)) by done. split; [done|].
    rewrite (run_writes_get _ _ _ _ Hx Nx), Hws. f_equal.
    apply swap_writes_other; try done; apply eqb_iff;
      rewrite ?andb_true_iff, ?orb_true_iff, ?negb_true_iff, ?Z.eqb_eq.
    + apply (left_child_of _ _ _ _ _ _ _ _ _ _ _ _ _ _ Hr E Ex).
    + apply (right_child_of _ _ _ _ _ _ _ _ _ _ _ _ _ _ Hr E Ex).
    + apply (left_child_of _ _ _ _ _ _ _ _ _ _ _ _ _ _ Hr E' Ex).
    + apply (right_child_of _ _ _ _ _ _ _ _ _ _ _ _ _ _ Hr E' Ex).
    + apply (parent_of _ _ _ _ _ _ _ _ _ _ _ _ _ _ Hr E Ex).
    + rewrite (parent_of _ _ _ _ _ _ _ _ _ _ _ _ _ _ Hr E' Ex). simpl. naive_solver.
Qed.

Lemma swap_spec t s l i c v r k rr j cj vj kj :
  reprk K t s → s = plug (Node l i c v r) k → r = plug (Node Leaf j cj vj rr) kj →
  ∃ t', swap_node_with_successor (V:=V) t i j = Ok t' ∧ reprk K t' (swap_tree i v j vj s).
Proof.
  intros HK E Er. pose proof (rk_repr _ _ _ HK) as Hr.
  set (kj' := kj ++ GoRight l i c v :: k).
  assert (s = plug (Node Leaf j cj vj rr) kj') as E'.
  { rewrite E, Er. unfold plug, kj'. by rewrite foldl_app. }
  pose proof (focus_not_NIL _ _ _ _ _ _ _ _ Hr E) as Hi.
  pose proof (focus_not_NIL _ _ _ _ _ _ _ _ Hr E') as Hj.
  pose proof Hr as Hn. rewrite E in Hn. pose proof (repr_nodup_plug _ _ _ Hn) as Hnd. rewrite Er in Hnd.
  destruct (swap_apart _ _ _ _ _ _ _ _ _ _ Hnd Hi Hj)
    as (Hij & Hp0i & Hp0j & Hp1j & Hl0i & Hl0j & Hr0i & Hr1j & Hr1i).
  rewrite <- Er in *. fold kj' in Hp1j.
  pose proof (is_left_child_repr _ _ _ _ _ _ _ Hn) as Hg0. pose proof (repr_node _ _ _ _ _ _ _ Hn) as N0.
  pose proof Hr as Hn'. rewrite E' in Hn'.
  pose proof (is_left_child_repr _ _ _ _ _ _ _ Hn') as Hg1. pose proof (repr_node _ _ _ _ _ _ _ Hn') as N1.
  pose proof (repr_root_plug _ _ _ Hn') as Hroot'.
  destruct t as [d rt mx]. simpl in N0, N1.
  assert (∀ x, x = NIL ∨ x ∈ ids s → has_node (V:=V) d x) as Hh.
  { intros x. apply (has_node_of _ _ _ Hr). }
  assert (∀ s1 k1, s = plug s1 k1 → (top s1 = NIL ∨ top s1 ∈ ids s) ∧ (up k1 = NIL ∨ up k1 ∈ ids s)) as Hpt.
  { intros s1 k1 ->. rewrite ids_plug, !elem_of_app. destruct (top_or s1), (up_or k1); tauto. }
  destruct (Hpt _ _ E) as [_ Up0], (Hpt _ _ E') as [_ Up1].
  destruct (Hpt l (GoLeft i c v r :: k) E) as [Tl _], (Hpt r (GoRight l i c v :: k) E) as [Tr _].
  destruct (Hpt rr (GoRight Leaf j cj vj :: kj') E') as [Trr _].
  rewrite (swap_runs d rt mx i j _ _ _ _ N0 N1 Hg0 Hg1) by (apply Hh; first [done|by left]).
  eexists. split; [done|]. cbn [rb_left rb_right rb_parent rb_color] in *.
  set (ws := _ ++ _). destruct HK as [_ Hm Hin Hout]. cbn [t_data t_max] in Hm, Hout.
  assert (i ∈ ids s ∧ j ∈ ids s) as [Hii Hjj].
  { split; [rewrite E|rewrite E']; rewrite ids_plug, ids_Node; apply elem_of_app; left;
      apply elem_of_app; right; left. }
  assert (∀ o, o ∈ ws → o.1 ∈ ids s ∨ o.1 = NIL) as Hws.
  { unfold ws, swap_links. destruct (up kj' =? i); intros o Ho;
      repeat (apply elem_of_cons in Ho as [->|Ho]; [cbn [fst top]; first [by left|by right|by apply or_comm]|]); by apply not_elem_of_nil in Ho. }
  assert (top s ≠ j) as Hroot.
  { pose proof (repr_root _ _ Hr) as <-. cbn [t_root].
    assert (∃ f k0, kj' = f :: k0) as (f & k0 & Ek) by (unfold kj'; destruct kj; simpl; eauto).
    rewrite Ek in Hn'. by apply (repr_not_root _ _ _ _ Hn'). }
  split; [|done|..]; cbn [t_data].
  - split; cbn [t_data t_root].
    + pose proof (rep_swap (run_writes d ws) i v j vj s [] Hi Hj) as Hs. rewrite sw_ne in Hs by done.
      apply Hs. intros l' x c' v' r' k' Ex.
      by apply (swap_positions d rt mx s l i c v r k rr j cj vj kj').
    + rewrite ids_swap. apply NoDup_fmap_2; [|apply (repr_nodup _ _ Hr)].
      intros x y Hxy. by rewrite <- (sw_involutive i j x), Hxy, sw_involutive.
    + rewrite top_swap by done. pose proof (repr_root _ _ Hr) as Ht. cbn [t_root] in Ht. rewrite Ht. unfold sw.
      by rewrite (proj2 (Z.eqb_neq (top s) j)).
  - intros x. rewrite ids_swap. intros (y & -> & Hy)%list_elem_of_fmap. apply Hin.
    unfold sw. by repeat destruct (_ =? _).
  - eapply outside_trans; [exact Hout|]. apply run_writes_outside. intros o Ho.
    destruct (Hws o Ho); [left; by apply Hin|by right].
Qed.
End swap.

(** ** [remove_by_index] *)

Section removal.
Context {B V : Type} `{HB : BlockOf B (RBNode V)} `{HP : Payload V}.
Implicit Types (d : Region B) (t : Tree B) (s l r : tree V) (k : list (crumb V)) (i j : Z).

Lemma lefts_spine k : Forall (λ f, goes_left (V:=V) [f] = true) k → lefts k = [].
Proof. induction 1 as [|[] k Hf Hk IH]; [done|exact IH|done]. Qed.

Lemma leftmost_spec fuel t s k : repr t (plug s k) → s ≠ Leaf → (length (ids s) <= fuel)%nat →
  ∃ j c v rr kj, s = plug (Node Leaf j c v rr) kj ∧ lefts kj = []
    ∧ leftmost (V:=V) fuel t (top s) = Ok j.
Proof.
  intros Hr Hs Hf.
  cut (∃ j c v rr kj, s = plug (Node Leaf j c v rr) kj ∧ Forall (λ f, goes_left (V:=V) [f] = true) kj
    ∧ leftmost (V:=V) fuel t (top s) = Ok j).
  { intros (j & c & v & rr & kj & Es & Hk%lefts_spine & El). eauto 10. }
  revert s k Hr Hs Hf. induction fuel as [|fuel IH]; intros s k Hr Hs Hf; destruct s as [|l i c v r];
    [done| |done|]; rewrite ids_Node, length_app in Hf; cbn [length] in Hf; [lia|].
  simpl. rewrite (get_left_repr _ _ _ _ _ _ _ Hr). cbn [mbind result_bind].
  destruct l as [|ll li lc lv lr].
  - exists i, c, v, r, []. by repeat constructor.
  - pose proof (repr_node t ll li lc lv lr (GoLeft i c v r :: k) Hr) as [Hli _]. cbn [top].
    rewrite (proj2 (Z.eqb_neq _ _) Hli).
    destruct (IH (Node ll li lc lv lr) (GoLeft i c v r :: k) Hr) as (j & cj & vj & rr & kj & E & Hk & Hl);
      [done|lia|].
    exists j, cj, vj, rr, (kj ++ [GoLeft i c v r]). split_and!; [|apply Forall_app; by repeat constructor|exact Hl].
    unfold plug in *. by rewrite foldl_app, <- E.
Qed.

Lemma swap_shape l i c v cj vj rr j kj k :
  NoDup (ids (plug (Node l i c v (plug (Node Leaf j cj vj rr) kj)) k)) →
  swap_tree i v j vj (plug (Node l i c v (plug (Node Leaf j cj vj rr) kj)) k)
    = plug (Node Leaf i cj v rr) (kj ++ GoRight l j c vj :: k).
Proof.
  rewrite ids_plug, ids_Node, ids_plug, ids_Node. intros Hnd. simpl in Hnd. nodup_facts Hnd.
  rewrite swap_plug. simpl. rewrite swap_plug. simpl. rewrite sw_l, sw_r, !Z.eqb_refl.
  rewrite (proj2 (Z.eqb_neq j i)) by disj.
  rewrite !swap_path_id, !swap_tree_id by disj. unfold plug. by rewrite foldl_app.
Qed.

(** The part of the program that takes out a node with at most one child. *)
Definition take_out t (index : Z) : result (Tree B) :=
  to_delete_color ← get_color (V:=V) t index;
  left ← get_left_index (V:=V) t index;
  left_color ← get_color (V:=V) t left;
  right ← get_right_index (V:=V) t index;
  right_color ← get_color (V:=V) t right;
  let child_red := bool_decide (left_color = Red) || bool_decide (right_color = Red) in
  if child_red || bool_decide (to_delete_color = Red) then
    child ← get_child_index (V:=V) t index;
    t ← update_parent_child (V:=V) t index;
    set_color (V:=V) t child Black
  else
    child ← get_child_index (V:=V) t index;
    parent ← get_parent_index (V:=V) t index;
    t ← update_parent_child (V:=V) t index;
    remove_fix_loop (V:=V) (fuel_of t) t child parent.

Lemma rb_path_colored k n : rb_path (V:=V) k n → well_colored k.
Proof. induction 1; constructor; eauto. Qed.

Lemma take_out_spec (K : Keep) t l i c v r k : l = Leaf ∨ r = Leaf → balanced (plug (Node l i c v r) k) →
  reprk K t (plug (Node l i c v r) k) →
  ∃ t', take_out t i = Ok t' ∧ reprk K t' (excise l c r k).
Proof.
  intros Ho [_ [m Hb]] HK. pose proof (rk_repr _ _ _ HK) as Hr. unfold take_out.
  pose proof (get_color_repr _ _ _ Hr) as Hc. cbn [top color_of] in Hc. rewrite Hc. cbn [mbind result_bind].
  rewrite (get_left_repr _ _ _ _ _ _ _ Hr). cbn [mbind result_bind].
  rewrite (get_color_repr t l (GoLeft i c v r :: k) Hr). cbn [mbind result_bind].
  rewrite (get_right_repr _ _ _ _ _ _ _ Hr). cbn [mbind result_bind].
  rewrite (get_color_repr t r (GoRight l i c v :: k) Hr). cbn [mbind result_bind].
  rewrite (get_child_repr _ _ _ _ _ _ _ Ho Hr). cbn [mbind result_bind].
  rewrite (get_parent_repr _ _ _ _ _ _ _ Hr). cbn [mbind result_bind].
  destruct (update_parent_child_spec _ _ _ _ _ _ _ Ho HK) as (t1 & -> & H1). cbn [mbind result_bind].
  unfold excise. fold (is_red l) (is_red r).
  destruct (is_red l || is_red r || bool_decide (c = Red)).
  - by apply set_color_repr.
  - apply rb_unplug in Hb as (n & _ & Hk & _). apply remove_fix_loop_spec; [|by eapply rb_path_colored|done].
    pose proof (repr_size _ _ (rk_repr _ _ _ H1)) as Hsz. rewrite ids_plug, length_app in Hsz.
    pose proof (path_length_ids k). unfold fuel_of. lia.
Qed.

Lemma lefts_app k1 k2 : lefts (k1 ++ k2) = lefts (V:=V) k2 ++ lefts k1.
Proof.
  induction k1 as [|[] k1 IH]; simpl; [by rewrite app_nil_r|exact IH|]. by rewrite IH, <- app_assoc.
Qed.
Lemma rights_app k1 k2 : rights (k1 ++ k2) = rights (V:=V) k1 ++ rights k2.
Proof.
  induction k1 as [|[] k1 IH]; simpl; [done| |exact IH]. by rewrite IH, <- app_assoc.
Qed.

Lemma balanced_swap i vi j vj s : balanced s → balanced (swap_tree i vi j vj s).
Proof. intros [Hc [n Hn]]. split; [by rewrite color_swap|]. exists n. by apply rb_swap. Qed.

(** A node with a right child, by way of its successor. *)
Lemma remove_internal (K : Keep) t l i c v r k : r ≠ Leaf → balanced (plug (Node l i c v r) k) →
  reprk K t (plug (Node l i c v r) k) →
  ∃ t' s', (t ← (successor ← get_next_higher_index (V:=V) t i;
                 swap_node_with_successor (V:=V) t i successor);
            take_out t i) = Ok t' ∧ reprk K t' s'
    ∧ entries s' = lefts k ++ entries l ++ entries r ++ rights k ∧ balanced s'.
Proof.
  intros Hne Hb HK. pose proof (rk_repr _ _ _ HK) as Hr. unfold get_next_higher_index.
  rewrite (get_right_repr _ _ _ _ _ _ _ Hr). cbn [mbind result_bind].
  pose proof (repr_size t (plug r (GoRight l i c v :: k)) Hr) as Hsz. rewrite ids_plug, length_app in Hsz.
  destruct (leftmost_spec (fuel_of t) t r (GoRight l i c v :: k) Hr Hne) as (j & cj & vj & rr & kj & Er & Hkj & ->);
    [unfold fuel_of; lia|]. cbn [mbind result_bind].
  destruct (swap_spec t _ l i c v r k rr j cj vj kj HK eq_refl Er) as (t1 & -> & H1). cbn [mbind result_bind].
  apply (balanced_swap i v j vj) in Hb. rewrite Er in H1, Hb.
  rewrite swap_shape in H1, Hb by (rewrite <- Er; apply (repr_nodup _ _ Hr)).
  destruct (take_out_spec K t1 Leaf i cj v rr _ (or_introl eq_refl) Hb H1) as (t2 & -> & H2).
  eexists t2, _. split_and!; [done|exact H2| |by apply (excise_balanced _ i _ v); [left|]].
  rewrite entries_excise by (by left). rewrite lefts_app, rights_app, Hkj, app_nil_r, Er, entries_plug, Hkj.
  simpl. by rewrite <- !app_assoc.
Qed.

(** Everything but the maximum pointer. *)
Lemma remove_node (K : Keep) t l i c v r k : balanced (plug (Node l i c v r) k) →
  reprk K t (plug (Node l i c v r) k) →
  ∃ t' s', (internal ← is_internal (V:=V) t i;
            t ← (if internal : bool then
                   successor ← get_next_higher_index (V:=V) t i;
                   swap_node_with_successor (V:=V) t i successor
                 else Ok t);
            take_out t i) = Ok t' ∧ reprk K t' s'
    ∧ entries s' = lefts k ++ entries l ++ entries r ++ rights k ∧ balanced s'.
Proof.
  intros Hb HK. pose proof (rk_repr _ _ _ HK) as Hr. unfold is_internal.
  rewrite (get_right_repr _ _ _ _ _ _ _ Hr). cbn [mbind result_bind].
  rewrite (get_left_repr _ _ _ _ _ _ _ Hr). cbn [mbind result_bind].
  destruct (negb (top r =? NIL) && negb (top l =? NIL)) eqn:Hint; cbn [mbind result_bind].
  - apply andb_true_iff in Hint as [Hint _]. apply negb_true_iff, Z.eqb_neq in Hint.
    by apply (remove_internal K t l i c v r k ltac:(by intros ->) Hb HK).
  - assert (l = Leaf ∨ r = Leaf) as Ho.
    { rewrite andb_false_iff, !negb_false_iff, !Z.eqb_eq in Hint. destruct Hint as [H|H]; [right|left].
      - by apply (repr_top_NIL t r (GoRight l i c v :: k)).
      - by apply (repr_top_NIL t l (GoLeft i c v r :: k)). }
    destruct (take_out_spec K t l i c v r k Ho Hb HK) as (t' & Et & H').
    exists t', (excise l c r k). split_and!; [done|done|by apply entries_excise|by eapply excise_balanced].
Qed.

(** [remove_by_index] takes one entry out. *)
Lemma remove_repr t l i c v r k : repr t (plug (Node l i c v r) k) → balanced (plug (Node l i c v r) k) →
  ∃ t' s', remove_by_index (V:=V) t i = Ok t' ∧ repr t' s'
    ∧ entries s' = lefts k ++ entries l ++ entries r ++ rights k ∧ balanced s'
    ∧ t_max t' = (if i =? t_max t then last_id (lefts k ++ entries l) else t_max t)
    ∧ outside (ids (plug (Node l i c v r) k)) (t_data t) (t_data t').
Proof.
  intros Hr Hb. pose proof (repr_node _ _ _ _ _ _ _ Hr) as [Hi _].
  set (mx := if i =? t_max t then last_id (lefts k ++ entries l) else t_max t).
  destruct (remove_node (mkKeep (t_data t) mx (ids (plug (Node l i c v r) k))) (t <| t_max := mx |>)
    l i c v r k Hb) as (t' & s' & Et & [Hs Hm _ Ho] & He & Hb'); [split; [destruct Hr; by split|done..]|].
  exists t', s'. split_and!; try done.
  rewrite <- Et. unfold remove_by_index. rewrite (proj2 (Z.eqb_neq _ _) Hi).
  assert ((if i =? t_max t then
             lower ← get_next_lower_index (V:=V) t (t_max t); mret (t <| t_max := lower |>)
           else Ok t) = Ok (t <| t_max := mx |>)) as ->; [|done].
  unfold mx. destruct (Z.eqb_spec i (t_max t)) as [<-|Hne]; [|by destruct t].
  by rewrite (get_next_lower_index_spec _ _ _ _ _ _ _ Hr).
Qed.
End removal.

(** ** The contract of removal *)

Section contract.
Context {B V : Type} `{HB : BlockOf B (RBNode V)} `{HP : Payload V}.
Context (P : V → Prop) `{HO : !PayloadOrder P}.
Implicit Types (t : Tree B) (s : tree V) (i j : Z) (E : list (Z * V)).

Lemma sorted_drop s s' E1 e E2 : sorted P s → entries s = E1 ++ e :: E2 → entries s' = E1 ++ E2 →
  sorted P s'.
Proof.
  intros [Hp Hs] E E'. unfold sorted, all_P in *. rewrite E in Hp, Hs. rewrite E'.
  rewrite Forall_app, Forall_cons in Hp. rewrite Forall_app.
  apply StronglySorted_app_iff in Hs as (H1 & [H2 _]%Sorted.StronglySorted_inv & H3).
  split; [tauto|]. apply StronglySorted_app_iff. split_and!; [done|done|].
  intros a b Ha Hb. apply H3; [done|by right].
Qed.

(** What [remove_by_index] promises. *)
Lemma remove_tree_inv t E1 i v E2 : tree_inv P t (E1 ++ (i, v) :: E2) →
  ∃ t', remove_by_index (V:=V) t i = Ok t' ∧ tree_inv P t' (E1 ++ E2)
    ∧ outside (E1 ++ (i, v) :: E2).*1 (t_data t) (t_data t') ∧ dom (t_data t') = dom (t_data t)
    ∧ (t_max t = last_id (E1 ++ (i, v) :: E2) → t_max t' = last_id (E1 ++ E2)).
Proof.
  intros [(s & Hr & He & Hs & Hb) Hm]. pose proof (repr_nodup _ _ Hr) as Hnd. unfold ids in Hnd. rewrite He in Hnd.
  destruct (focus_entry s i v) as (l & c & r & k & Ef); [rewrite He; set_solver|]. rewrite Ef in *.
  pose proof He as He'. rewrite entries_plug in He'. simpl in He'.
  rewrite <- app_assoc, app_assoc, <- app_comm_cons in He'.
  destruct (split_unique _ _ _ _ _ _ _ (eq_sym He') Hnd) as (-> & _ & ->).
  destruct (remove_repr t l i c v r k Hr Hb) as (t' & s' & Et & Hr' & Hes & Hb' & Hmx & Ho).
  assert (entries s' = (lefts k ++ entries l) ++ entries r ++ rights k) as Hes'
    by (by rewrite Hes, <- app_assoc).
  assert (t_max t = last_id ((lefts k ++ entries l) ++ (i, v) :: entries r ++ rights k) →
          t_max t' = last_id ((lefts k ++ entries l) ++ entries r ++ rights k)) as Hlast.
  { intros Hl. rewrite Hmx, Hl. destruct (entries r ++ rights k) as [|e E2] eqn:E2e.
    - by rewrite last_id_snoc, Z.eqb_refl, app_nil_r.
    - rewrite (last_id_app _ (e :: E2)), (cons_middle (i, v)), app_assoc, (last_id_app _ (e :: E2)) by done.
      destruct (Z.eqb_spec i (last_id (e :: E2))) as [Heq|]; [|done]. exfalso.
      destruct (last_id_in P (e :: E2) ltac:(done)) as [w Hw]. rewrite <- Heq in Hw.
      rewrite fmap_app in Hnd. apply NoDup_app in Hnd as (_ & _ & [Hni _]%NoDup_cons).
      apply Hni. change (i ∈ (e :: E2).*1). apply list_elem_of_fmap. by exists (i, w). }
  exists t'. split_and!; [done| | | |done].
  - split.
    + exists s'. split_and!; [done|done| |done]. by eapply sorted_drop.
    + destruct Hm as [Hn|Hl]; [left|right; by apply Hlast]. rewrite Hmx, Hn.
      rewrite (proj2 (Z.eqb_neq i NIL)); [done|]. apply (repr_node _ _ _ _ _ _ _ Hr).
  - unfold ids in Ho. by rewrite He in Ho.
  - apply (frame_dom _ _ _ (remove_by_index_frame (V:=V) (λ _, False) t i t' Et)).
Qed.
End contract.

(** ** What insertions and removals do to a listing *)

Lemma insert_listing {V} (E1 E2 : list (Z * V)) X i v :
  (i :: X) ++ (E1 ++ E2).*1 ≡ₚ X ++ (E1 ++ (i, v) :: E2).*1.
Proof. rewrite !fmap_app. cbn [fmap list_fmap fst]. solve_Permutation. Qed.

Lemma insert_outside {V} (E1 E2 : list (Z * V)) X i j :
  j ∉ (i :: X) ++ (E1 ++ E2).*1 → j ∉ i :: (E1 ++ E2).*1.
Proof. rewrite !not_elem_of_app, !not_elem_of_cons. tauto. Qed.

Lemma insert_dom {B V} `{BlockOf B (RBNode V)} `{Payload V} (t t' : Tree B) i (v : V) :
  insert t i v = Ok t' → dom (t_data t') = dom (t_data t).
Proof. intros Ht. apply (frame_dom _ _ _ (insert_frame (λ _, False) t i v t' Ht)). Qed.

Lemma remove_listing {V} (E1 E2 : list (Z * V)) i v :
  [] ++ (E1 ++ (i, v) :: E2).*1 ≡ₚ [i] ++ (E1 ++ E2).*1.
Proof. symmetry. apply (insert_listing E1 E2 [] i v). Qed.

Lemma remove_dom {B V} `{BlockOf B (RBNode V)} `{Payload V} (t t' : Tree B) i :
  remove_by_index (V:=V) t i = Ok t' → dom (t_data t') = dom (t_data t).
Proof. intros Ht. apply (frame_dom _ _ _ (remove_by_index_frame (V:=V) (λ _, False) t i t' Ht)). Qed.

Lemma Forall_without {V} (P : V → Prop) E1 x E2 : Forall P (E1 ++ x :: E2) → Forall P (E1 ++ E2).
Proof. rewrite !Forall_app, Forall_cons. tauto. Qed.

Lemma set_entry_split {V} (E1 E2 : list (Z * V)) i (v x : V) : NoDup (E1 ++ (i, v) :: E2).*1 →
  set_entry i x (E1 ++ (i, v) :: E2) = E1 ++ (i, x) :: E2.
Proof.
  rewrite fmap_app. intros (_ & Hd & [Hi _]%NoDup_cons)%NoDup_app.
  assert (set_entry i x (E1 ++ (i, v) :: E2) = set_entry i x E1 ++ (i, x) :: set_entry i x E2) as ->.
  { unfold set_entry. rewrite fmap_app, fmap_cons. simpl. by rewrite decide_True. }
  rewrite !set_entry_absent; [done|exact Hi|]. intros Hi1. apply (Hd i Hi1). left.
Qed.

Lemma last_id_set_entry {V} (E : list (Z * V)) i x : last_id (set_entry i x E) = last_id E.
Proof. unfold last_id. by rewrite set_entry_fst. Qed.

(** ** The property *)

(** Eight insertions into a store of free blocks: every key of the tree has a
    successor to trade with or a black node to repair. *)
Definition grown_tree : Tree sample_block :=
  foldl (λ t e, match insert t (e.1 : Z) (e.2 : Z) with Ok t => t | Err _ => t end)
    (mkTree (list_to_map ((λ i : Z, (i, SB_free (mkFreeListNode 0))) <$> [0; 8; 16; 24; 32; 40; 48; 56])) NIL NIL)
    [(0, 10); (8, 20); (16, 30); (24, 40); (32, 50); (40, 60); (48, 70); (56, 80)].

(** C24: removing from the red-black tree.  In a store that holds a balanced search
    tree, [remove_by_index] of any of its entries succeeds; the new tree is again
    balanced and sorted and lists exactly the other entries, in the same order; its
    maximum pointer, if it was right, still is; no block outside the tree is written and
    none disappears. *)
Theorem remove_contract {B V : Type} `{HB : BlockOf B (RBNode V)} `{HP : Payload V}
    (P : V → Prop) `{HO : !PayloadOrder P} (t : Tree B) (E1 E2 : list (Z * V)) (i : Z) (v : V)
    (Hinv : tree_inv P t (E1 ++ (i, v) :: E2)) :
  ∃ t', remove_by_index (V:=V) t i = Ok t' ∧ tree_inv P t' (E1 ++ E2)
    ∧ (∀ j, j ∉ (E1 ++ (i, v) :: E2).*1 → t_data t' !! j = t_data t !! j)
    ∧ dom (t_data t') = dom (t_data t)
    ∧ (t_max t = last_id (E1 ++ (i, v) :: E2) → t_max t' = last_id (E1 ++ E2)).
Proof.
  destruct (remove_tree_inv P t E1 i v E2 Hinv) as (t' & ? & ? & ? & ? & ?). by exists t'.
Qed.

Lemma remove_contract_witness :
  ∃ t', remove_by_index (V:=Z) grown_tree 24 = Ok t'
    ∧ tree_inv (λ _ : Z, True) t' [(0, 10); (8, 20); (16, 30); (32, 50); (40, 60); (48, 70); (56, 80)].
Proof.
  destruct (remove_contract (λ _ : Z, True) grown_tree [(0, 10); (8, 20); (16, 30)]
    [(32, 50); (40, 60); (48, 70); (56, 80)] 24 40) as (t' & H1 & H2 & _).
  - apply (check_tree_inv (λ _ : Z, True) (λ _, true)); [done|vm_compute; reflexivity].
  - exists t'. split; [exact H1|exact H2].
Defined.
