(* ===== verification/Market.v ===== *)
(** * The market account ([state/market.rs], [claimed_seat.rs], [resting_order.rs])

    The header and the nodes of a market account, and the seat-level half of
    [state/market_helpers.rs]: allocation, seat balances, encumbrance, seat
    lookup.  A market is its header and its dynamic region; the region holds seats,
    resting orders and matched loans, each in a red-black tree of [Hypertree], and
    the free blocks, and, for the seat hints of clients, the bytes of all of them.  The
    matching engine is in [Matching]. *)
From stdpp Require Import base numbers list option gmap.
From S2P Require Import Prelude FixedPoint Loan Marginfi Hypertree.
Local Open Scope Z_scope.

Definition MARKET_FIXED_DISCRIMINANT : Z := 0x7964656C74614D4B.
Definition MARKET_BLOCK_SIZE : Z := 160.
Definition NO_EXPIRATION_LAST_VALID_UNIX_TS : Z := 0.
Definition MIN_PRINCIPAL_ATOMS : Z := 1.
Definition DEFAULT_GRACE_PERIOD_SECONDS : Z := 86400.

(** ** Claimed seats *)

Record ClaimedSeat := mkClaimedSeat {
  cs_owner : Pubkey;
  cs_debt_withdrawable_shares : Z;
  cs_debt_encumbered_shares : Z;
  cs_collateral_withdrawable_shares : Z;
  cs_collateral_encumbered_shares : Z;
  cs_open_borrow_count : Z;
  cs_open_lend_count : Z;
  cs_owner_kind : Z;
  cs_sub_vault_id : Z }.

#[export] Instance ClaimedSeat_eq_dec : EqDecision ClaimedSeat.
Proof. solve_decision. Defined.

#[export] Instance eta_ClaimedSeat : Eta ClaimedSeat := λ s,
  mkClaimedSeat (cs_owner s) (cs_debt_withdrawable_shares s) (cs_debt_encumbered_shares s)
    (cs_collateral_withdrawable_shares s) (cs_collateral_encumbered_shares s)
    (cs_open_borrow_count s) (cs_open_lend_count s) (cs_owner_kind s) (cs_sub_vault_id s).

(** [ClaimedSeat::new_empty]. *)
Definition claimed_seat_new_empty (owner : Pubkey) (owner_kind sub_vault_id : Z) : ClaimedSeat :=
  mkClaimedSeat owner 0 0 0 0 0 0 owner_kind sub_vault_id.

(** [impl Ord for ClaimedSeat]. *)
Definition claimed_seat_cmp (a b : ClaimedSeat) : comparison :=
  match cs_owner_kind a ?= cs_owner_kind b with
  | Eq => match cs_owner a ?= cs_owner b with
          | Eq => cs_sub_vault_id a ?= cs_sub_vault_id b
          | ord => ord
          end
  | ord => ord
  end.

(** [impl PartialEq for ClaimedSeat]. *)
Definition claimed_seat_eqb (a b : ClaimedSeat) : bool :=
  (cs_owner_kind a =? cs_owner_kind b) && (cs_owner a =? cs_owner b)
  && (cs_sub_vault_id a =? cs_sub_vault_id b).

#[export] Instance payload_ClaimedSeat : Payload ClaimedSeat :=
  {| payload_cmp := claimed_seat_cmp; payload_eqb := claimed_seat_eqb |}.

(** ** Resting orders *)

Inductive Side := Bid | Ask.

#[export] Instance Side_eq_dec : EqDecision Side.
Proof. solve_decision. Defined.

Definition Side_as_u8 (s : Side) : Z := match s with Bid => 0 | Ask => 1 end.

Inductive OrderType := Limit | ImmediateOrCancel | PostOnly.

#[export] Instance OrderType_eq_dec : EqDecision OrderType.
Proof. solve_decision. Defined.

Definition OrderType_as_u8 (t : OrderType) : Z :=
  match t with Limit => 0 | ImmediateOrCancel => 1 | PostOnly => 2 end.

Definition order_type_can_rest (t : OrderType) : bool := negb (bool_decide (t = ImmediateOrCancel)).
Definition order_type_can_take (t : OrderType) : bool := negb (bool_decide (t = PostOnly)).

Record RestingOrder := mkRestingOrder {
  ro_trader_seat_index : Z;
  ro_sequence_number : Z;
  ro_principal_atoms : Z;
  ro_collateral_atoms : Z;
  ro_last_valid_unix_ts : Z;
  ro_term_seconds : Z;
  ro_rate_bps : Z;
  ro_side : Z;
  ro_order_type : Z;
  ro_flags : Z;
  ro_share_price_snapshot : Fp48;
  ro_ltv_buffer_bps : Z }.

#[export] Instance eta_RestingOrder : Eta RestingOrder := λ o,
  mkRestingOrder (ro_trader_seat_index o) (ro_sequence_number o) (ro_principal_atoms o)
    (ro_collateral_atoms o) (ro_last_valid_unix_ts o) (ro_term_seconds o) (ro_rate_bps o)
    (ro_side o) (ro_order_type o) (ro_flags o) (ro_share_price_snapshot o) (ro_ltv_buffer_bps o).

(** [RestingOrder::new_primary]. *)
Definition new_primary (trader_seat_index sequence_number : Z) (side : Side) (order_type : OrderType)
    (rate_bps term_seconds principal_atoms collateral_atoms last_valid_unix_ts flags
     ltv_buffer_bps : Z) (share_price_snapshot : Fp48) : RestingOrder :=
  mkRestingOrder trader_seat_index sequence_number principal_atoms collateral_atoms
    last_valid_unix_ts term_seconds rate_bps (Side_as_u8 side) (OrderType_as_u8 order_type) flags
    share_price_snapshot ltv_buffer_bps.

(** [RestingOrder::is_expired]. *)
Definition order_is_expired (o : RestingOrder) (now_unix_ts : Z) : bool :=
  negb (ro_last_valid_unix_ts o =? NO_EXPIRATION_LAST_VALID_UNIX_TS)
  && (ro_last_valid_unix_ts o <? now_unix_ts).

(** [RestingOrder::reduce] and [increase]. *)
Definition order_reduce (o : RestingOrder) (atoms : Z) : result RestingOrder :=
  p ← ok_or (checked_sub (ro_principal_atoms o) atoms) ArithmeticOverflow;
  mret (o <| ro_principal_atoms := p |>).

Definition order_increase (o : RestingOrder) (atoms : Z) : result RestingOrder :=
  p ← ok_or (checked_add U64 (ro_principal_atoms o) atoms) ArithmeticOverflow;
  mret (o <| ro_principal_atoms := p |>).

(** [impl Ord for RestingOrder] (the [debug_assert!] on the sides is compiled out
    of the deployed program). *)
Definition resting_order_cmp (a b : RestingOrder) : comparison :=
  match (if ro_side a =? Side_as_u8 Bid then ro_rate_bps a ?= ro_rate_bps b
         else ro_rate_bps b ?= ro_rate_bps a) with
  | Eq => ro_sequence_number b ?= ro_sequence_number a
  | ord => ord
  end.

(** [impl PartialEq for RestingOrder]. *)
Definition resting_order_eqb (a b : RestingOrder) : bool :=
  (ro_rate_bps a =? ro_rate_bps b) && (ro_sequence_number a =? ro_sequence_number b).

#[export] Instance payload_RestingOrder : Payload RestingOrder :=
  {| payload_cmp := resting_order_cmp; payload_eqb := resting_order_eqb |}.

(** ** Matched loans *)

Record MatchedLoan := mkMatchedLoan {
  ml_sequence : Z;
  ml_borrower_marginfi_borrow_shares : Z;
  ml_principal_atoms : Z;
  ml_origination_atoms : Z;
  ml_collateral_atoms : Z;
  ml_matched_at_unix : Z;
  ml_lender_seat_index : Z;
  ml_borrower_seat_index : Z;
  ml_term_seconds : Z;
  ml_borrower_rate_bps : Z;
  ml_lender_rate_bps : Z;
  ml_loan_type : Z;
  ml_flags : Z;
  ml_curator_fee_bps_snapshot : Z;
  ml_origination_ltv_bps : Z;
  ml_liquidation_ltv_bps : Z;
  ml_lender_debt_share_price_snapshot_fp48 : Fp48;
  ml_borrower_collateral_share_price_snapshot_fp48 : Fp48 }.

#[export] Instance eta_MatchedLoan : Eta MatchedLoan := λ n,
  mkMatchedLoan (ml_sequence n) (ml_borrower_marginfi_borrow_shares n) (ml_principal_atoms n)
    (ml_origination_atoms n) (ml_collateral_atoms n) (ml_matched_at_unix n)
    (ml_lender_seat_index n) (ml_borrower_seat_index n) (ml_term_seconds n)
    (ml_borrower_rate_bps n) (ml_lender_rate_bps n) (ml_loan_type n) (ml_flags n)
    (ml_curator_fee_bps_snapshot n) (ml_origination_ltv_bps n) (ml_liquidation_ltv_bps n)
    (ml_lender_debt_share_price_snapshot_fp48 n)
    (ml_borrower_collateral_share_price_snapshot_fp48 n).

Definition MATCHED_LOAN_FLAG_VAULT_LENDER : Z := 1.
Definition MATCHED_LOAN_FLAG_VAULT_PRESETTLED : Z := 8.

(** [impl Ord for MatchedLoan] and its [PartialEq]. *)
Definition matched_loan_cmp (a b : MatchedLoan) : comparison := ml_sequence a ?= ml_sequence b.
Definition matched_loan_eqb (a b : MatchedLoan) : bool := ml_sequence a =? ml_sequence b.

#[export] Instance payload_MatchedLoan : Payload MatchedLoan :=
  {| payload_cmp := matched_loan_cmp; payload_eqb := matched_loan_eqb |}.

(** ** The header *)

(** The cap on the keeper's bonus ([fee_config_helpers.rs]). *)
Definition MAX_LIQUIDATION_KEEPER_BPS : Z := 5000.

Record FeeConfig := mkFeeConfig {
  fc_protocol_fee_bps_floor : Z;
  fc_origination_bps : Z;
  fc_curator_split_bps : Z;
  fc_liquidation_keeper_bps : Z;
  fc_liquidation_protocol_bps : Z;
  fc_grace_period_seconds : Z }.

#[export] Instance eta_FeeConfig : Eta FeeConfig := λ f,
  mkFeeConfig (fc_protocol_fee_bps_floor f) (fc_origination_bps f) (fc_curator_split_bps f)
    (fc_liquidation_keeper_bps f) (fc_liquidation_protocol_bps f) (fc_grace_period_seconds f).

Definition FeeConfig_default : FeeConfig := mkFeeConfig 0 0 0 0 0 DEFAULT_GRACE_PERIOD_SECONDS.

Record MarketFixed := mkMarketFixed {
  mf_discriminator : Z;
  mf_version : Z;
  mf_debt_mint_decimals : Z;
  mf_collateral_mint_decimals : Z;
  mf_debt_vault_bump : Z;
  mf_collateral_vault_bump : Z;
  mf_debt_mint : Pubkey;
  mf_collateral_mint : Pubkey;
  mf_debt_vault : Pubkey;
  mf_collateral_vault : Pubkey;
  mf_accumulated_protocol_fee_shares : Z;
  mf_order_sequence_number : Z;
  mf_matched_loan_sequence : Z;
  mf_num_bytes_allocated : Z;
  mf_bids_root_index : Z;
  mf_bids_best_index : Z;
  mf_asks_root_index : Z;
  mf_asks_best_index : Z;
  mf_claimed_seats_root_index : Z;
  mf_matched_loans_root_index : Z;
  mf_free_list_head_index : Z;
  mf_position_count : Z;
  mf_fee_config : FeeConfig;
  mf_lender_integration_account : Pubkey;
  mf_borrower_integration_account : Pubkey;
  mf_debt_lending_pool : Pubkey;
  mf_collateral_lending_pool : Pubkey;
  mf_marginfi_group : Pubkey;
  mf_market_signer : Pubkey;
  mf_market_signer_bump : Z;
  mf_lender_integration_account_bump : Z;
  mf_borrower_integration_account_bump : Z;
  mf_admin : Pubkey;
  mf_pending_admin : Pubkey;
  mf_is_paused : Z }.

#[export] Instance eta_MarketFixed : Eta MarketFixed := λ m,
  mkMarketFixed (mf_discriminator m) (mf_version m) (mf_debt_mint_decimals m)
    (mf_collateral_mint_decimals m) (mf_debt_vault_bump m) (mf_collateral_vault_bump m)
    (mf_debt_mint m) (mf_collateral_mint m) (mf_debt_vault m) (mf_collateral_vault m)
    (mf_accumulated_protocol_fee_shares m) (mf_order_sequence_number m)
    (mf_matched_loan_sequence m) (mf_num_bytes_allocated m) (mf_bids_root_index m)
    (mf_bids_best_index m) (mf_asks_root_index m) (mf_asks_best_index m)
    (mf_claimed_seats_root_index m) (mf_matched_loans_root_index m) (mf_free_list_head_index m)
    (mf_position_count m) (mf_fee_config m) (mf_lender_integration_account m)
    (mf_borrower_integration_account m) (mf_debt_lending_pool m) (mf_collateral_lending_pool m)
    (mf_marginfi_group m) (mf_market_signer m) (mf_market_signer_bump m)
    (mf_lender_integration_account_bump m) (mf_borrower_integration_account_bump m) (mf_admin m)
    (mf_pending_admin m) (mf_is_paused m).

(** [MarketFixed::new_empty]; [get_vault_address] (a PDA derivation) is a
    parameter. *)
Definition market_new_empty (get_vault_address : Pubkey → Pubkey → Pubkey * Z)
    (debt_mint : Pubkey) (debt_decimals : Z) (collateral_mint : Pubkey) (collateral_decimals : Z)
    (market_key : Pubkey) : MarketFixed :=
  let '(debt_vault, debt_vault_bump) := get_vault_address market_key debt_mint in
  let '(collateral_vault, collateral_vault_bump) := get_vault_address market_key collateral_mint in
  mkMarketFixed MARKET_FIXED_DISCRIMINANT ACCOUNT_LAYOUT_VERSION debt_decimals collateral_decimals
    debt_vault_bump collateral_vault_bump debt_mint collateral_mint debt_vault collateral_vault
    0 0 0 0 NIL NIL NIL NIL NIL NIL NIL 0 FeeConfig_default Pubkey_default Pubkey_default
    Pubkey_default Pubkey_default Pubkey_default Pubkey_default 0 0 0 Pubkey_default
    Pubkey_default 0.

Definition market_verify_discriminant (m : MarketFixed) : result unit :=
  require (mf_discriminator m =? MARKET_FIXED_DISCRIMINANT) InvalidAccountData.
Definition market_verify_version (m : MarketFixed) : result unit :=
  require (mf_version m =? ACCOUNT_LAYOUT_VERSION) InvalidAccountData.
Definition market_has_free_block (m : MarketFixed) : bool := negb (mf_free_list_head_index m =? NIL).

(** ** The dynamic region *)

(** A block of the region: a free-list node or a node of one of the trees.  Zeroed
    bytes are the free-list node [0]. *)
Inductive MarketBlock :=
  | MB_free (n : FreeListNode)
  | MB_seat (n : RBNode ClaimedSeat)
  | MB_order (n : RBNode RestingOrder)
  | MB_loan (n : RBNode MatchedLoan).

#[export] Instance market_block_free : BlockOf MarketBlock FreeListNode.
Proof.
  refine {| to_block := MB_free; of_block b := match b with MB_free n => Some n | _ => None end |};
    [done|]. intros [] ? [=]; congruence.
Defined.
#[export] Instance market_block_seat : BlockOf MarketBlock (RBNode ClaimedSeat).
Proof.
  refine {| to_block := MB_seat; of_block b := match b with MB_seat n => Some n | _ => None end |};
    [done|]. intros [] ? [=]; congruence.
Defined.
#[export] Instance market_block_order : BlockOf MarketBlock (RBNode RestingOrder).
Proof.
  refine {| to_block := MB_order; of_block b := match b with MB_order n => Some n | _ => None end |};
    [done|]. intros [] ? [=]; congruence.
Defined.
#[export] Instance market_block_loan : BlockOf MarketBlock (RBNode MatchedLoan).
Proof.
  refine {| to_block := MB_loan; of_block b := match b with MB_loan n => Some n | _ => None end |};
    [done|]. intros [] ? [=]; congruence.
Defined.

(** [MarketRefMut]: the header and the region. *)
Record Market := mkMarket { mk_fixed : MarketFixed; mk_dynamic : Region MarketBlock }.

#[export] Instance eta_Market : Eta Market := λ m, mkMarket (mk_fixed m) (mk_dynamic m).

Definition claimed_seat_tree (m : Market) : Tree MarketBlock :=
  mkTree (mk_dynamic m) (mf_claimed_seats_root_index (mk_fixed m)) NIL.
Definition matched_loan_tree (m : Market) : Tree MarketBlock :=
  mkTree (mk_dynamic m) (mf_matched_loans_root_index (mk_fixed m)) NIL.
Definition asks_tree (m : Market) : Tree MarketBlock :=
  mkTree (mk_dynamic m) (mf_asks_root_index (mk_fixed m)) (mf_asks_best_index (mk_fixed m)).
Definition bids_tree (m : Market) : Tree MarketBlock :=
  mkTree (mk_dynamic m) (mf_bids_root_index (mk_fixed m)) (mf_bids_best_index (mk_fixed m)).

(** Writing a tree back: its region, its root and, for a bookside, its maximum. *)
Definition put_claimed_seats (m : Market) (t : Tree MarketBlock) : Market :=
  mkMarket (mk_fixed m <| mf_claimed_seats_root_index := t_root t |>) (t_data t).
Definition put_matched_loans (m : Market) (t : Tree MarketBlock) : Market :=
  mkMarket (mk_fixed m <| mf_matched_loans_root_index := t_root t |>) (t_data t).
Definition put_asks (m : Market) (t : Tree MarketBlock) : Market :=
  mkMarket (mk_fixed m <| mf_asks_root_index := t_root t |> <| mf_asks_best_index := t_max t |>)
    (t_data t).
Definition put_bids (m : Market) (t : Tree MarketBlock) : Market :=
  mkMarket (mk_fixed m <| mf_bids_root_index := t_root t |> <| mf_bids_best_index := t_max t |>)
    (t_data t).

(** The typed reads: what [get_helper_seat], [get_helper_order] and
    [get_helper_matched_loan] give wherever such a node was written.  (The bytes at an index
    a client hints at are [get_helper_seat], below.) *)
Definition get_seat (m : Market) (i : Z) : result ClaimedSeat := read_value (mk_dynamic m) i.
Definition get_order (m : Market) (i : Z) : result RestingOrder := read_value (mk_dynamic m) i.
Definition get_matched_loan (m : Market) (i : Z) : result MatchedLoan := read_value (mk_dynamic m) i.

Definition modify_seat (m : Market) (i : Z) (f : ClaimedSeat → result ClaimedSeat)
    : result Market :=
  d ← modify_value (mk_dynamic m) i f; mret (m <| mk_dynamic := d |>).
Definition modify_order (m : Market) (i : Z) (f : RestingOrder → result RestingOrder)
    : result Market :=
  d ← modify_value (mk_dynamic m) i f; mret (m <| mk_dynamic := d |>).

(** ** Allocation *)

(** [get_free_address_on_market_fixed] and its three aliases. *)
Definition get_free_address (m : Market) : result (Market * Z) :=
  '(d, head, index) ← free_list_remove (mk_dynamic m) (mf_free_list_head_index (mk_fixed m));
  mret (mkMarket (mk_fixed m <| mf_free_list_head_index := head |>) d, index).

(** [release_address_on_market_fixed]. *)
Definition release_address (m : Market) (index : Z) : result Market :=
  '(d, head) ← free_list_add (mk_dynamic m) (mf_free_list_head_index (mk_fixed m)) index;
  mret (mkMarket (mk_fixed m <| mf_free_list_head_index := head |>) d).

(** [market_expand]; the caller has grown the region with a zeroed block. *)
Definition market_expand (m : Market) : result Market :=
  '(d, head) ← free_list_add (mk_dynamic m) (mf_free_list_head_index (mk_fixed m))
                 (mf_num_bytes_allocated (mk_fixed m));
  bytes ← ok_or (checked_add U32 (mf_num_bytes_allocated (mk_fixed m)) MARKET_BLOCK_SIZE)
            ArithmeticOverflow;
  mret (mkMarket (mk_fixed m <| mf_num_bytes_allocated := bytes |>
                             <| mf_free_list_head_index := head |>) d).

(** [expand_market] ([processor/shared.rs]) after the rent transfer: the account
    grows by one block behind the allocated ones, and [market_expand] frees it. *)
Definition expand_market (m : Market) : result Market :=
  market_expand
    (m <| mk_dynamic ::= λ d, <[mf_num_bytes_allocated (mk_fixed m) := MB_free (mkFreeListNode 0)]> d |>).

Definition expand_market_if_needed (m : Market) : result Market :=
  if market_has_free_block (mk_fixed m) then Ok m else expand_market m.

(** [count_market_free_blocks]: the length of the free list. *)
Fixpoint count_free_from (fuel : nat) (d : Region MarketBlock) (idx : Z) : result Z :=
  if idx =? NIL then Ok 0 else
  match fuel with
  | O => Err Panic
  | S fuel =>
      node ← region_get (A:=FreeListNode) d idx;
      rest ← count_free_from fuel d (fl_next node);
      mret (1 + rest)
  end.

Definition count_market_free_blocks (m : Market) : result Z :=
  count_free_from (size (mk_dynamic m)) (mk_dynamic m) (mf_free_list_head_index (mk_fixed m)).

(** The loop of [expand_market_to_free_blocks]; every round adds one free block, so
    [min_free_blocks] rounds are enough. *)
Fixpoint expand_market_loop (fuel : nat) (m : Market) (min_free_blocks : Z) : result Market :=
  free_count ← count_market_free_blocks m;
  if min_free_blocks <=? free_count then Ok m else
  match fuel with
  | O => Err Panic
  | S fuel => m ← expand_market m; expand_market_loop fuel m min_free_blocks
  end.

Definition expand_market_to_free_blocks (m : Market) (min_free_blocks : Z) : result Market :=
  expand_market_loop (Z.to_nat min_free_blocks) m min_free_blocks.

(** ** Seat balances *)

Inductive BalanceAxis := Debt | Collateral.
Inductive BalanceBucket := Withdrawable | Encumbered.
Inductive BalanceSign := Plus | Minus.

Definition balance_field (s : ClaimedSeat) (axis : BalanceAxis) (bucket : BalanceBucket) : Z :=
  match axis, bucket with
  | Debt, Withdrawable => cs_debt_withdrawable_shares s
  | Debt, Encumbered => cs_debt_encumbered_shares s
  | Collateral, Withdrawable => cs_collateral_withdrawable_shares s
  | Collateral, Encumbered => cs_collateral_encumbered_shares s
  end.

Definition set_balance_field (s : ClaimedSeat) (axis : BalanceAxis) (bucket : BalanceBucket) (v : Z)
    : ClaimedSeat :=
  match axis, bucket with
  | Debt, Withdrawable => s <| cs_debt_withdrawable_shares := v |>
  | Debt, Encumbered => s <| cs_debt_encumbered_shares := v |>
  | Collateral, Withdrawable => s <| cs_collateral_withdrawable_shares := v |>
  | Collateral, Encumbered => s <| cs_collateral_encumbered_shares := v |>
  end.

Definition update_balance (s : ClaimedSeat) (axis : BalanceAxis) (bucket : BalanceBucket)
    (sign : BalanceSign) (atoms : Z) : result ClaimedSeat :=
  v ← (match sign with
       | Plus => ok_or (checked_add U128 (balance_field s axis bucket) atoms) ArithmeticOverflow
       | Minus => ok_or (checked_sub (balance_field s axis bucket) atoms)
                    InsufficientWithdrawableBalance
       end);
  mret (set_balance_field s axis bucket v).

Definition atoms_to_shares_at_snapshot (atoms : Z) (snapshot : Fp48) : result Z :=
  if fp48_is_zero snapshot then Err MathDivisionByZero else
  raw <$> fp48_checked_div (fp48_from_atoms atoms) snapshot.

(** The seat update of [encumber_for_order]. *)
Definition encumber_seat (side : Side) (principal_shares collateral_shares : Z) (s : ClaimedSeat)
    : result ClaimedSeat :=
  match side with
  | Bid =>
      s ← update_balance s Collateral Withdrawable Minus collateral_shares;
      update_balance s Collateral Encumbered Plus collateral_shares
  | Ask =>
      s ← update_balance s Debt Withdrawable Minus principal_shares;
      s ← update_balance s Debt Encumbered Plus principal_shares;
      c ← ok_or (checked_add U32 (cs_open_lend_count s) 1) ArithmeticOverflow;
      mret (s <| cs_open_lend_count := c |>)
  end.

Definition encumber_for_order (m : Market) (seat_index : Z) (side : Side)
    (principal_shares collateral_shares : Z) : result Market :=
  modify_seat m seat_index (encumber_seat side principal_shares collateral_shares).

(** The seat update of [unencumber_for_order]. *)
Definition unencumber_seat (side : Side) (principal_shares collateral_shares : Z) (s : ClaimedSeat)
    : result ClaimedSeat :=
  match side with
  | Bid =>
      s ← update_balance s Collateral Encumbered Minus collateral_shares;
      update_balance s Collateral Withdrawable Plus collateral_shares
  | Ask =>
      s ← update_balance s Debt Encumbered Minus principal_shares;
      s ← update_balance s Debt Withdrawable Plus principal_shares;
      c ← ok_or (checked_sub (cs_open_lend_count s) 1) ArithmeticOverflow;
      mret (s <| cs_open_lend_count := c |>)
  end.

Definition unencumber_for_order (m : Market) (seat_index : Z) (side : Side)
    (principal_shares collateral_shares : Z) : result Market :=
  modify_seat m seat_index (unencumber_seat side principal_shares collateral_shares).

(** The seat update of [release_loan_collateral]. *)
Definition release_collateral_seat (total_collateral_shares returned_shares : Z) (s : ClaimedSeat)
    : result ClaimedSeat :=
  _ ← require (total_collateral_shares <=? cs_collateral_encumbered_shares s)
        InsufficientEncumberedCollateral;
  e ← ok_or (checked_sub (cs_collateral_encumbered_shares s) total_collateral_shares)
        ArithmeticOverflow;
  let s := s <| cs_collateral_encumbered_shares := e |> in
  let credit := Z.min returned_shares total_collateral_shares in
  w ← ok_or (checked_add U128 (cs_collateral_withdrawable_shares s) credit) ArithmeticOverflow;
  mret (s <| cs_collateral_withdrawable_shares := w |>).

Definition release_loan_collateral (m : Market) (seat_index total_collateral_shares
    returned_shares : Z) : result Market :=
  modify_seat m seat_index (release_collateral_seat total_collateral_shares returned_shares).

Definition axis_of (is_debt : bool) : BalanceAxis := if is_debt then Debt else Collateral.

Definition deposit_to_seat (m : Market) (seat_index shares : Z) (is_debt : bool) : result Market :=
  modify_seat m seat_index (λ s, update_balance s (axis_of is_debt) Withdrawable Plus shares).

Definition withdraw_from_seat (m : Market) (seat_index shares : Z) (is_debt : bool) : result Market :=
  modify_seat m seat_index (λ s, update_balance s (axis_of is_debt) Withdrawable Minus shares).

Definition withdrawable_shares_for_seat (m : Market) (seat_index : Z) (is_debt : bool) : result Z :=
  s ← get_seat m seat_index;
  mret (if is_debt then cs_debt_withdrawable_shares s else cs_collateral_withdrawable_shares s).

(** The counter updates the engine and the loan close-outs make. *)
Definition bump_open_borrow (s : ClaimedSeat) : result ClaimedSeat :=
  c ← ok_or (checked_add U32 (cs_open_borrow_count s) 1) ArithmeticOverflow;
  mret (s <| cs_open_borrow_count := c |>).
Definition bump_open_lend (s : ClaimedSeat) : result ClaimedSeat :=
  c ← ok_or (checked_add U32 (cs_open_lend_count s) 1) ArithmeticOverflow;
  mret (s <| cs_open_lend_count := c |>).
Definition drop_open_lend (s : ClaimedSeat) : result ClaimedSeat :=
  c ← ok_or (checked_sub (cs_open_lend_count s) 1) ArithmeticOverflow;
  mret (s <| cs_open_lend_count := c |>).

(** ** The bytes behind a seat hint

    The region is typed; the code sees bytes.  A seat hint is the one index a client may
    choose freely, so [get_helper_seat] is given its bytes: each block as [repr(C)] lays it
    out (integers little-endian, keys as they are, padding zero), and a view of the 160
    bytes at any aligned offset as a seat. *)

Definition color_as_u8 (c : Color) : Z := match c with Black => 0 | Red => 1 end.

Definition rb_node_bytes {V} (value_bytes : V → list Z) (n : RBNode V) : list Z :=
  le_bytes 4 (rb_left n) ++ le_bytes 4 (rb_right n) ++ le_bytes 4 (rb_parent n)
  ++ [color_as_u8 (rb_color n)] ++ le_bytes 1 (rb_payload_type n) ++ replicate 2 0
  ++ value_bytes (rb_value n).

Definition claimed_seat_bytes (s : ClaimedSeat) : list Z :=
  key_bytes (cs_owner s)
  ++ le_bytes 16 (cs_debt_withdrawable_shares s) ++ le_bytes 16 (cs_debt_encumbered_shares s)
  ++ le_bytes 16 (cs_collateral_withdrawable_shares s)
  ++ le_bytes 16 (cs_collateral_encumbered_shares s)
  ++ le_bytes 4 (cs_open_borrow_count s) ++ le_bytes 4 (cs_open_lend_count s)
  ++ le_bytes 1 (cs_owner_kind s) ++ [0] ++ le_bytes 2 (cs_sub_vault_id s)
  ++ replicate 4 0 ++ replicate 32 0.

Definition resting_order_bytes (o : RestingOrder) : list Z :=
  le_bytes 4 (ro_trader_seat_index o) ++ replicate 4 0
  ++ le_bytes 8 (ro_sequence_number o) ++ le_bytes 8 (ro_principal_atoms o)
  ++ le_bytes 8 (ro_collateral_atoms o) ++ le_bytes 8 (ro_last_valid_unix_ts o)
  ++ le_bytes 4 (ro_term_seconds o) ++ le_bytes 2 (ro_rate_bps o)
  ++ le_bytes 1 (ro_side o) ++ le_bytes 1 (ro_order_type o) ++ le_bytes 1 (ro_flags o) ++ [0]
  ++ le_bytes 16 (raw (ro_share_price_snapshot o)) ++ le_bytes 2 (ro_ltv_buffer_bps o)
  ++ replicate 4 0 ++ replicate 72 0.

Definition matched_loan_bytes (n : MatchedLoan) : list Z :=
  le_bytes 8 (ml_sequence n) ++ replicate 8 0
  ++ le_bytes 16 (ml_borrower_marginfi_borrow_shares n)
  ++ le_bytes 8 (ml_principal_atoms n) ++ le_bytes 8 (ml_origination_atoms n)
  ++ le_bytes 8 (ml_collateral_atoms n) ++ le_bytes 8 (ml_matched_at_unix n)
  ++ le_bytes 4 (ml_lender_seat_index n) ++ le_bytes 4 (ml_borrower_seat_index n)
  ++ le_bytes 4 (ml_term_seconds n) ++ le_bytes 2 (ml_borrower_rate_bps n)
  ++ le_bytes 2 (ml_lender_rate_bps n) ++ le_bytes 1 (ml_loan_type n) ++ le_bytes 1 (ml_flags n)
  ++ replicate 6 0 ++ le_bytes 2 (ml_curator_fee_bps_snapshot n)
  ++ le_bytes 2 (ml_origination_ltv_bps n) ++ le_bytes 2 (ml_liquidation_ltv_bps n)
  ++ replicate 18 0 ++ le_bytes 16 (raw (ml_lender_debt_share_price_snapshot_fp48 n))
  ++ le_bytes 16 (raw (ml_borrower_collateral_share_price_snapshot_fp48 n)).

(** [FreeListNode<MarketUnusedFreeListPadding>]: the next index, then zeroes. *)
Definition free_node_bytes (n : FreeListNode) : list Z := le_bytes 4 (fl_next n) ++ replicate 156 0.

Definition market_block_bytes (b : MarketBlock) : list Z :=
  match b with
  | MB_free n => free_node_bytes n
  | MB_seat n => rb_node_bytes claimed_seat_bytes n
  | MB_order n => rb_node_bytes resting_order_bytes n
  | MB_loan n => rb_node_bytes matched_loan_bytes n
  end.

(** [&data[i..i + 160]]: bytes of the block [i] falls in and of the next one. *)
Definition region_bytes (d : Region MarketBlock) (i : Z) : result (list Z) :=
  let off := i mod MARKET_BLOCK_SIZE in
  b ← ok_or (d !! (i - off)) Panic;
  next ← (if off =? 0 then Ok []
          else market_block_bytes <$> ok_or (d !! (i - off + MARKET_BLOCK_SIZE)) Panic);
  slice (market_block_bytes b ++ next) (Z.to_nat off) 160.

(** The seat in the 144 bytes that follow the tree's header. *)
Definition claimed_seat_from_bytes (bs : list Z) : ClaimedSeat :=
  let le off n := from_le_bytes (take n (drop off bs)) in
  mkClaimedSeat (key_from_bytes (take 32 bs)) (le 32 16)%nat (le 48 16)%nat (le 64 16)%nat
    (le 80 16)%nat (le 96 4)%nat (le 100 4)%nat (le 104 1)%nat (le 106 2)%nat.

(** The alignment of a node, which [bytemuck::from_bytes] insists on: eight bytes on the
    program's target, where the region starts aligned.  (A 128-bit integer is not aligned
    more strictly there.) *)
Definition SEAT_ALIGN : Z := 8.

(** [get_helper_seat(dynamic, i).get_value()].  Where a seat was written that seat is read;
    anywhere else the bytes are reinterpreted. *)
Definition get_helper_seat (m : Market) (i : Z) : result ClaimedSeat :=
  match mk_dynamic m !! i with
  | Some (MB_seat n) => Ok (rb_value n)
  | _ =>
      _ ← require (i mod SEAT_ALIGN =? 0) Panic;
      bs ← region_bytes (mk_dynamic m) i;
      mret (claimed_seat_from_bytes (drop 16 bs))
  end.

(** The test [get_seat_index_with_hint] makes. *)
Definition seat_matches (s : ClaimedSeat) (signer : Pubkey) : bool :=
  (cs_owner s =? signer) && (cs_owner_kind s =? OWNER_KIND_USER) && (cs_sub_vault_id s =? 0).

(** ** Finding seats *)

Definition lookup_seat_index (m : Market) (probe : ClaimedSeat) : result Z :=
  lookup_index (V:=ClaimedSeat) (claimed_seat_tree m) probe.

Definition lookup_user_seat_index (m : Market) (owner : Pubkey) : result Z :=
  lookup_seat_index m (claimed_seat_new_empty owner OWNER_KIND_USER 0).

Definition lookup_sub_vault_seat_index (m : Market) (global_vault : Pubkey) (sub_vault_id : Z)
    : result Z :=
  lookup_seat_index m (claimed_seat_new_empty global_vault OWNER_KIND_SUB_VAULT sub_vault_id).

Definition verify_live_seat (m : Market) (seat_index expected_owner_kind : Z)
    : result ClaimedSeat :=
  _ ← require (negb (seat_index =? NIL)) IncorrectAccount;
  seat ← get_seat m seat_index;
  resolved ← lookup_seat_index m
    (claimed_seat_new_empty (cs_owner seat) (cs_owner_kind seat) (cs_sub_vault_id seat));
  _ ← require (resolved =? seat_index) IncorrectAccount;
  _ ← require (cs_owner_kind seat =? expected_owner_kind) IncorrectAccount;
  mret seat.

Definition get_seat_index_with_hint (m : Market) (signer : Pubkey) (hint : option Z) : result Z :=
  hinted ← (match hint with
            | Some idx =>
                if negb (idx =? NIL) then
                  seat ← get_helper_seat m idx;
                  mret (if seat_matches seat signer then Some idx else None)
                else Ok None
            | None => Ok None
            end);
  match hinted with
  | Some idx => Ok idx
  | None =>
      idx ← lookup_seat_index m (claimed_seat_new_empty signer OWNER_KIND_USER 0);
      if idx =? NIL then Err NoSeatClaimed else Ok idx
  end.

(** The hint does not imitate a seat: if its bytes pass the test, a seat is what they are.
    Where it fails the code goes on to read and write a seat that was never claimed; the
    typed [get_seat] and [modify_seat] stop there. *)
Definition honest_hint (m : Market) (signer : Pubkey) (hint : option Z) : Prop :=
  ∀ i s, hint = Some i → i ≠ NIL → get_helper_seat m i = Ok s → seat_matches s signer = true →
    ∃ s', get_seat m i = Ok s'.

(** No hint, or one that names a seat: whatever is appended to the account later. *)
Definition plain_hint (m : Market) (hint : option Z) : Prop :=
  ∀ i, hint = Some i → i ≠ NIL → ∃ s, get_seat m i = Ok s.

Definition assert_already_has_seat (seat_index : Z) : result unit :=
  require (negb (seat_index =? NIL)) NoSeatClaimed.

(** [claim_seat_with_sub_vault] and [claim_seat]. *)
Definition claim_seat_with_sub_vault (m : Market) (owner : Pubkey) (owner_kind sub_vault_id : Z)
    : result Market :=
  found ← lookup_seat_index m (claimed_seat_new_empty owner owner_kind sub_vault_id);
  if negb (found =? NIL) then Err AlreadyClaimedSeat else
  '(m, free_addr) ← get_free_address m;
  _ ← require (negb (free_addr =? NIL)) AccountDataTooSmall;
  t ← insert (claimed_seat_tree m) free_addr (claimed_seat_new_empty owner owner_kind sub_vault_id);
  let m := put_claimed_seats m t in
  count ← ok_or (checked_add U32 (mf_position_count (mk_fixed m)) 1) ArithmeticOverflow;
  mret (m <| mk_fixed ::= λ f, f <| mf_position_count := count |> |>).

Definition claim_seat (m : Market) (owner : Pubkey) (owner_kind : Z) : result Market :=
  claim_seat_with_sub_vault m owner owner_kind 0.

(** ** Resting and removing orders *)

(** [MarketRefMut::rest_order]. *)
Definition rest_order (m : Market) (order_index : Z) (order : RestingOrder) : result Market :=
  if ro_side order =? Side_as_u8 Ask then
    t ← insert (asks_tree m) order_index order; mret (put_asks m t)
  else
    t ← insert (bids_tree m) order_index order; mret (put_bids m t).

Definition remove_order_from_tree_and_free (m : Market) (order_index : Z) : result Market :=
  order ← get_order m order_index;
  m ← (if ro_side order =? Side_as_u8 Ask then
         t ← remove_by_index (V:=RestingOrder) (asks_tree m) order_index; mret (put_asks m t)
       else
         t ← remove_by_index (V:=RestingOrder) (bids_tree m) order_index; mret (put_bids m t));
  release_address m order_index.

(** Allocates and inserts a [MatchedLoan] node, then advances the sequence. *)
Definition mint_matched_loan (m : Market) (node : MatchedLoan) : result (Market * Z) :=
  '(m, node_index) ← get_free_address m;
  _ ← require (negb (node_index =? NIL)) AccountDataTooSmall;
  t ← insert (matched_loan_tree m) node_index node;
  let m := put_matched_loans m t in
  seq ← ok_or (checked_add U64 (mf_matched_loan_sequence (mk_fixed m)) 1) ArithmeticOverflow;
  mret (m <| mk_fixed ::= λ f, f <| mf_matched_loan_sequence := seq |> |>, node_index).
