(* ===== verification/MarketSpec.v ===== *)
(** * Invariant of a market account

    [market_inv m S A B L F]: the region of [m] holds four balanced search trees that
    list the seats [S], the asks [A], the bids [B] and the matched loans [L], and the
    free list [F].  Allocation, in-place updates, seat claims, resting orders and minted
    loans are shown to succeed on such a market and to keep it one. *)
From Stdlib Require Import Sorting.Sorted.
From stdpp Require Import base numbers list option gmap.
From S2P Require Import Prelude FixedPoint Loan Hypertree HypertreeFrame.
From S2P Require Import HypertreeSpec HypertreeOrder Market.
Local Open Scope Z_scope.

(** ** The order laws of the nodes *)

#[export] Instance claimed_seat_order : PayloadOrder (λ _ : ClaimedSeat, True).
Proof.
  split; simpl; unfold claimed_seat_cmp, claimed_seat_eqb.
  - intros a b _ _. solve_cmp.
  - intros a b c _ _ _. solve_cmp.
  - intros a b _ _. rewrite !andb_true_iff, !Z.eqb_eq. solve_cmp.
Qed.

#[export] Instance matched_loan_order : PayloadOrder (λ _ : MatchedLoan, True).
Proof.
  split; simpl; unfold matched_loan_cmp, matched_loan_eqb.
  - intros a b _ _. solve_cmp.
  - intros a b c _ _ _. solve_cmp.
  - intros a b _ _. rewrite !Z.eqb_eq. solve_cmp.
Qed.

(** Orders of one side. *)
Definition on_side (side : Side) (o : RestingOrder) : Prop := ro_side o = Side_as_u8 side.

#[export] Instance resting_order_order side : PayloadOrder (on_side side).
Proof.
  split; simpl; unfold resting_order_cmp, resting_order_eqb, on_side.
  - intros a b -> ->. destruct side; simpl; solve_cmp.
  - intros a b c -> -> _. destruct side; simpl; solve_cmp.
  - intros a b -> _. rewrite !andb_true_iff, !Z.eqb_eq. destruct side; simpl; solve_cmp.
Qed.

(** ** The invariant *)

Record market_inv (m : Market) (S : list (Z * ClaimedSeat)) (A B : list (Z * RestingOrder))
    (L : list (Z * MatchedLoan)) (F : list Z) : Prop := {
  mi_seats : tree_inv (λ _, True) (claimed_seat_tree m) S;
  mi_asks : tree_inv (on_side Ask) (asks_tree m) A;
  mi_bids : tree_inv (on_side Bid) (bids_tree m) B;
  mi_loans : tree_inv (λ _, True) (matched_loan_tree m) L;
  mi_asks_best : mf_asks_best_index (mk_fixed m) = last_id A;
  mi_bids_best : mf_bids_best_index (mk_fixed m) = last_id B;
  mi_free : free_chain (mk_dynamic m) (mf_free_list_head_index (mk_fixed m)) F;
  mi_free_nodup : NoDup F;
  mi_bound : ∀ j, is_Some (mk_dynamic m !! j) → 0 <= j < mf_num_bytes_allocated (mk_fixed m) }.

Section market_inv.
Context {m : Market} {S : list (Z * ClaimedSeat)} {A B : list (Z * RestingOrder)}.
Context {L : list (Z * MatchedLoan)} {F : list Z}.
Context (Hm : market_inv m S A B L F).
Local Abbreviation d := (mk_dynamic m).

Lemma seat_block i : i ∈ S.*1 → ∃ n, d !! i = Some (MB_seat n).
Proof. intros (n & ? & _)%(tree_ids_node _ _ _ _ (mi_seats _ _ _ _ _ _ Hm)). by exists n. Qed.
Lemma ask_block i : i ∈ A.*1 → ∃ n, d !! i = Some (MB_order n) ∧ on_side Ask (rb_value n).
Proof. apply (tree_ids_node _ _ _ _ (mi_asks _ _ _ _ _ _ Hm)). Qed.
Lemma bid_block i : i ∈ B.*1 → ∃ n, d !! i = Some (MB_order n) ∧ on_side Bid (rb_value n).
Proof. apply (tree_ids_node _ _ _ _ (mi_bids _ _ _ _ _ _ Hm)). Qed.
Lemma loan_block i : i ∈ L.*1 → ∃ n, d !! i = Some (MB_loan n).
Proof. intros (n & ? & _)%(tree_ids_node _ _ _ _ (mi_loans _ _ _ _ _ _ Hm)). by exists n. Qed.
Lemma free_block i : i ∈ F → ∃ n, d !! i = Some (MB_free n).
Proof.
  intros Hi. destruct (free_chain_block _ _ _ _ (mi_free _ _ _ _ _ _ Hm) Hi) as (n & Hn & _). by exists n.
Qed.

End market_inv.

(** Two blocks of different kinds are different. *)
Ltac block_clash :=
  repeat match goal with
  | Hm : market_inv _ _ _ _ _ _, H : ?j ∈ ?X |- _ =>
      first [ apply (seat_block Hm) in H as [? H] | apply (ask_block Hm) in H as (? & H & ?)
            | apply (bid_block Hm) in H as (? & H & ?) | apply (loan_block Hm) in H as [? H]
            | apply (free_block Hm) in H as [? H] ]
  end; simplify_eq; unfold on_side in *; simpl in *; congruence.

(** ** Allocation *)

Section operations.
Implicit Types (m : Market) (S : list (Z * ClaimedSeat)) (A B : list (Z * RestingOrder)).
Implicit Types (L : list (Z * MatchedLoan)) (F : list Z) (i : Z).

Lemma get_free_inv m S A B L i F : market_inv m S A B L (i :: F) →
  ∃ head, let m' := mkMarket (mk_fixed m <| mf_free_list_head_index := head |>)
                      (<[i := MB_free (mkFreeListNode 0)]> (mk_dynamic m)) in
  get_free_address m = Ok (m', i) ∧ market_inv m' S A B L F
  ∧ i ≠ NIL ∧ i ∉ S.*1 ∧ i ∉ A.*1 ∧ i ∉ B.*1 ∧ i ∉ L.*1 ∧ i ∉ F.
Proof.
  intros Hm. pose proof (mi_free _ _ _ _ _ _ Hm) as (Hh & Hi & next & Hn & Hc).
  pose proof (mi_free_nodup _ _ _ _ _ _ Hm) as [Hni Hnd]%NoDup_cons.
  assert (i ∉ S.*1 ∧ i ∉ A.*1 ∧ i ∉ B.*1 ∧ i ∉ L.*1) as (HS & HA & HB & HL).
  { split_and!; intros Hx; block_clash. }
  destruct (free_list_remove_chain _ _ _ _ (mi_free _ _ _ _ _ _ Hm)) as (h & Hr & Hc' & _).
  exists h. split_and!; try done.
  - unfold get_free_address. rewrite Hr. done.
  - assert (∀ j, j ∉ [i] →
      <[i := MB_free (mkFreeListNode 0)]> (mk_dynamic m) !! j = mk_dynamic m !! j) as Ho.
    { intros j Hj. apply lookup_insert_ne. set_solver. }
    destruct Hm as [Hms Hma Hmb Hml ? ? Hmf _ Hmd]. split; simpl; try done.
    + eapply tree_inv_outside'; [exact Hms|done|done|exact Ho|set_solver].
    + eapply tree_inv_outside'; [exact Hma|done|done|exact Ho|set_solver].
    + eapply tree_inv_outside'; [exact Hmb|done|done|exact Ho|set_solver].
    + eapply tree_inv_outside'; [exact Hml|done|done|exact Ho|set_solver].
    + eapply free_chain_outside; [exact Hc'|exact Ho|set_solver].
    + intros j Hj. apply Hmd. destruct (decide (i = j)) as [<-|]; [by eexists|].
      by rewrite lookup_insert_ne in Hj.
Qed.

Lemma get_free_nil m S A B L : market_inv m S A B L [] → get_free_address m = Ok (m, NIL).
Proof.
  intros Hm. pose proof (mi_free _ _ _ _ _ _ Hm) as Hh. simpl in Hh.
  unfold get_free_address, free_list_remove. rewrite Hh, Z.eqb_refl. simpl.
  destruct m as [f d]. simpl in *. rewrite <- Hh. by destruct f.
Qed.

(** Growing the account frees one more block. *)
Lemma expand_market_inv m S A B L F : market_inv m S A B L F →
  0 <= mf_num_bytes_allocated (mk_fixed m) →
  mf_num_bytes_allocated (mk_fixed m) + MARKET_BLOCK_SIZE < 2 ^ 32 →
  ∃ m', expand_market m = Ok m'
    ∧ market_inv m' S A B L (mf_num_bytes_allocated (mk_fixed m) :: F)
    ∧ mf_num_bytes_allocated (mk_fixed m')
        = mf_num_bytes_allocated (mk_fixed m) + MARKET_BLOCK_SIZE.
Proof.
  intros Hm H0 Hn. set (n := mf_num_bytes_allocated (mk_fixed m)) in *.
  assert (mk_dynamic m !! n = None) as Hnone.
  { destruct (mk_dynamic m !! n) eqn:E; [|done]. exfalso.
    assert (0 <= n < n); [|lia]. by apply (mi_bound _ _ _ _ _ _ Hm); eexists. }
  unfold expand_market, market_expand, free_list_add, region_set. cbn [mk_dynamic mk_fixed set_field].
  fold n. rewrite lookup_insert_eq. cbn [mbind result_bind mret result_ret].
  rewrite (add_ok U32) by done. cbn [mbind result_bind mret result_ret].
  eexists. split; [done|]. split; [|done].
  rewrite insert_insert_eq.
  assert (∀ j, j ∉ [n] → <[n := MB_free (mkFreeListNode (mf_free_list_head_index (mk_fixed m)))]>
    (mk_dynamic m) !! j = mk_dynamic m !! j) as Ho.
  { intros j Hj. apply lookup_insert_ne. set_solver. }
  assert (n ≠ NIL) by (unfold NIL; unfold MARKET_BLOCK_SIZE in *; norm_pow; lia).
  assert (n ∉ S.*1 ∧ n ∉ A.*1 ∧ n ∉ B.*1 ∧ n ∉ L.*1 ∧ n ∉ F) as (HS & HA & HB & HL & HF).
  { split_and!; intros Hx; block_clash. }
  destruct Hm as [Hms Hma Hmb Hml ? ? Hmf Hmn Hmd]. split; simpl; try done.
  - eapply tree_inv_outside'; [exact Hms|done|done|exact Ho|set_solver].
  - eapply tree_inv_outside'; [exact Hma|done|done|exact Ho|set_solver].
  - eapply tree_inv_outside'; [exact Hmb|done|done|exact Ho|set_solver].
  - eapply tree_inv_outside'; [exact Hml|done|done|exact Ho|set_solver].
  - split_and!; [done|done|]. eexists. split; [apply lookup_insert_eq|].
    eapply free_chain_outside; [exact Hmf|exact Ho|set_solver].
  - by apply NoDup_cons.
  - intros j Hj. fold n. unfold MARKET_BLOCK_SIZE. destruct (decide (n = j)) as [<-|]; [lia|].
    rewrite lookup_insert_ne in Hj by done. apply Hmd in Hj. fold n in Hj. lia.
Qed.

(** ** In-place updates *)

(** A new value that keeps a seat's place in the tree. *)
Definition same_key (a b : ClaimedSeat) : Prop :=
  cs_owner_kind a = cs_owner_kind b ∧ cs_owner a = cs_owner b ∧ cs_sub_vault_id a = cs_sub_vault_id b.

Lemma get_seat_inv m S A B L F i v : market_inv m S A B L F → (i, v) ∈ S → get_seat m i = Ok v.
Proof. intros Hm Hi. apply (tree_inv_node _ _ _ _ _ (mi_seats _ _ _ _ _ _ Hm) Hi). Qed.
Lemma get_ask_inv m S A B L F i v : market_inv m S A B L F → (i, v) ∈ A → get_order m i = Ok v.
Proof. intros Hm Hi. apply (tree_inv_node _ _ _ _ _ (mi_asks _ _ _ _ _ _ Hm) Hi). Qed.
Lemma get_bid_inv m S A B L F i v : market_inv m S A B L F → (i, v) ∈ B → get_order m i = Ok v.
Proof. intros Hm Hi. apply (tree_inv_node _ _ _ _ _ (mi_bids _ _ _ _ _ _ Hm) Hi). Qed.

Lemma modify_seat_inv m S A B L F i v v' f :
  market_inv m S A B L F → (i, v) ∈ S → f v = Ok v' → same_key v' v →
  ∃ m', modify_seat m i f = Ok m' ∧ market_inv m' (set_entry i v' S) A B L F
    ∧ mk_fixed m' = mk_fixed m.
Proof.
  intros Hm Hi Hf (Hk1 & Hk2 & Hk3).
  pose proof (tree_inv_block _ _ _ _ _ (mi_seats _ _ _ _ _ _ Hm) Hi) as (HiN & n & Hn & Hv).
  simpl in Hn. assert (region_get (mk_dynamic m) i = Ok n) as Hg by (by apply region_get_Ok).
  unfold modify_seat, modify_value. rewrite Hg. cbn [mbind result_bind]. rewrite Hv, Hf.
  cbn [mbind result_bind]. rewrite (region_set_get _ _ _ _ Hg). cbn [mbind result_bind].
  eexists. split; [done|]. split; [|done].
  assert (i ∈ S.*1) as HiS by (apply list_elem_of_fmap; by exists (i, v)).
  assert (i ∉ A.*1 ∧ i ∉ B.*1 ∧ i ∉ L.*1 ∧ i ∉ F) as (HA & HB & HL & HF).
  { split_and!; intros Hx; clear HiS; block_clash. }
  assert (∀ b j, j ∉ [i] → <[i := b]> (mk_dynamic m) !! j = mk_dynamic m !! j) as Ho.
  { intros b j Hj. apply lookup_insert_ne. set_solver. }
  destruct Hm as [Hms Hma Hmb Hml ? ? Hmf Hmn Hmd]. split; simpl; try done.
  - apply (tree_inv_set_value _ _ _ _ _ _ v n v' Hms Hi Hg I).
    intros y _. simpl. unfold claimed_seat_cmp. by rewrite Hk1, Hk2, Hk3.
  - eapply tree_inv_outside'; [exact Hma|done|done|apply Ho|set_solver].
  - eapply tree_inv_outside'; [exact Hmb|done|done|apply Ho|set_solver].
  - eapply tree_inv_outside'; [exact Hml|done|done|apply Ho|set_solver].
  - eapply free_chain_outside; [exact Hmf|apply Ho|set_solver].
  - intros j Hj. apply Hmd. destruct (decide (i = j)) as [<-|]; [by eexists|].
    by rewrite lookup_insert_ne in Hj.
Qed.
End operations.

(** ** Insertions *)

Section insertions.
Implicit Types (m : Market) (S : list (Z * ClaimedSeat)) (A B : list (Z * RestingOrder)).
Implicit Types (L : list (Z * MatchedLoan)) (F : list Z) (i : Z).

(** A block that is in use by no tree and not free: just allocated. *)
Record spare m S A B L F i : Prop := {
  sp_nil : i ≠ NIL;
  sp_block : is_Some (mk_dynamic m !! i);
  sp_seats : i ∉ S.*1;
  sp_asks : i ∉ A.*1;
  sp_bids : i ∉ B.*1;
  sp_loans : i ∉ L.*1;
  sp_free : i ∉ F }.

Lemma get_free_spare m S A B L i F : market_inv m S A B L (i :: F) →
  ∃ head m', m' = mkMarket (mk_fixed m <| mf_free_list_head_index := head |>)
                    (<[i := MB_free (mkFreeListNode 0)]> (mk_dynamic m))
  ∧ get_free_address m = Ok (m', i) ∧ market_inv m' S A B L F ∧ spare m' S A B L F i.
Proof.
  intros Hm. destruct (get_free_inv _ _ _ _ _ _ _ Hm) as (h & Hg & Hm' & ? & ? & ? & ? & ? & ?).
  exists h. eexists. split; [done|]. split_and!; [done|done|]. split; try done. simpl.
  rewrite lookup_insert_eq. by eexists.
Qed.

Lemma insert_seat_inv m S A B L F i v : market_inv m S A B L F → spare m S A B L F i →
  ∃ t S1 S2, insert (claimed_seat_tree m) i v = Ok t ∧ S = S1 ++ S2
    ∧ market_inv (put_claimed_seats m t) (S1 ++ (i, v) :: S2) A B L F.
Proof.
  intros Hm []. destruct (insert_tree_inv _ _ _ i v (mi_seats _ _ _ _ _ _ Hm))
    as (t & S1 & S2 & Hins & HS & Hinv & _ & _ & Ho & _); [done..|].
  exists t, S1, S2. split_and!; [done|done|]. simpl in Ho.
  assert (∀ j, j ∈ A.*1 ∨ j ∈ B.*1 ∨ j ∈ L.*1 ∨ j ∈ F → j ∉ i :: S.*1) as Hd.
  { intros j Hj [->|Hin]%elem_of_cons; [set_solver|].
    destruct Hj as [Hj|[Hj|[Hj|Hj]]]; block_clash. }
  pose proof (mi_seats _ _ _ _ _ _ Hm) as Hms.
  destruct Hm as [_ Hma Hmb Hml ? ? Hmf Hmn Hmd]. split; simpl; try done.
  - by apply tree_inv_no_max in Hinv.
  - eapply tree_inv_outside'; [exact Hma|done|done|exact Ho|auto].
  - eapply tree_inv_outside'; [exact Hmb|done|done|exact Ho|auto].
  - eapply tree_inv_outside'; [exact Hml|done|done|exact Ho|auto].
  - eapply free_chain_outside; [exact Hmf|exact Ho|auto].
  - eapply bound_outside; [exact Hmd|exact Ho|done|]. intros j. apply (tree_ids_block _ _ _ _ Hms).
Qed.

Lemma insert_loan_inv m S A B L F i v : market_inv m S A B L F → spare m S A B L F i →
  ∃ t L1 L2, insert (matched_loan_tree m) i v = Ok t ∧ L = L1 ++ L2
    ∧ market_inv (put_matched_loans m t) S A B (L1 ++ (i, v) :: L2) F
    ∧ (∀ e, e ∈ L2 → ml_sequence v <= ml_sequence e.2).
Proof.
  intros Hm []. destruct (insert_tree_inv _ _ _ i v (mi_loans _ _ _ _ _ _ Hm))
    as (t & L1 & L2 & Hins & HL & Hinv & _ & Hge & Ho & _); [done..|].
  exists t, L1, L2. split_and!; [done|done| |intros e He; specialize (Hge e He); by apply Z.compare_le_iff].
  simpl in Ho.
  assert (∀ j, j ∈ S.*1 ∨ j ∈ A.*1 ∨ j ∈ B.*1 ∨ j ∈ F → j ∉ i :: L.*1) as Hd.
  { intros j Hj [->|Hin]%elem_of_cons; [set_solver|].
    destruct Hj as [Hj|[Hj|[Hj|Hj]]]; block_clash. }
  pose proof (mi_loans _ _ _ _ _ _ Hm) as Hml.
  destruct Hm as [Hms Hma Hmb _ ? ? Hmf Hmn Hmd]. split; simpl; try done.
  - eapply tree_inv_outside'; [exact Hms|done|done|exact Ho|auto].
  - eapply tree_inv_outside'; [exact Hma|done|done|exact Ho|auto].
  - eapply tree_inv_outside'; [exact Hmb|done|done|exact Ho|auto].
  - by apply tree_inv_no_max in Hinv.
  - eapply free_chain_outside; [exact Hmf|exact Ho|auto].
  - eapply bound_outside; [exact Hmd|exact Ho|done|]. intros j. apply (tree_ids_block _ _ _ _ Hml).
Qed.

Lemma insert_ask_inv m S A B L F i v : market_inv m S A B L F → spare m S A B L F i →
  on_side Ask v →
  ∃ t A1 A2, insert (asks_tree m) i v = Ok t ∧ A = A1 ++ A2
    ∧ market_inv (put_asks m t) S (A1 ++ (i, v) :: A2) B L F
    ∧ (∀ e, e ∈ A1 → resting_order_cmp e.2 v = Lt) ∧ (∀ e, e ∈ A2 → resting_order_cmp v e.2 ≠ Gt).
Proof.
  intros Hm [] Hv. destruct (insert_tree_inv _ _ _ i v (mi_asks _ _ _ _ _ _ Hm))
    as (t & A1 & A2 & Hins & HA & Hinv & Hlt & Hge & Ho & Hmx); [done..|].
  exists t, A1, A2. split_and!; [done|done| |done|done]. simpl in Ho.
  assert (∀ j, j ∈ S.*1 ∨ j ∈ B.*1 ∨ j ∈ L.*1 ∨ j ∈ F → j ∉ i :: A.*1) as Hd.
  { intros j Hj [->|Hin]%elem_of_cons; [set_solver|].
    destruct Hj as [Hj|[Hj|[Hj|Hj]]]; block_clash. }
  pose proof (mi_asks _ _ _ _ _ _ Hm) as Hma.
  destruct Hm as [Hms _ Hmb Hml ? ? Hmf Hmn Hmd]. split; simpl; try done.
  - eapply tree_inv_outside'; [exact Hms|done|done|exact Ho|auto].
  - by apply tree_inv_eta in Hinv.
  - eapply tree_inv_outside'; [exact Hmb|done|done|exact Ho|auto].
  - eapply tree_inv_outside'; [exact Hml|done|done|exact Ho|auto].
  - by apply Hmx.
  - eapply free_chain_outside; [exact Hmf|exact Ho|auto].
  - eapply bound_outside; [exact Hmd|exact Ho|done|]. intros j. apply (tree_ids_block _ _ _ _ Hma).
Qed.

Lemma insert_bid_inv m S A B L F i v : market_inv m S A B L F → spare m S A B L F i →
  on_side Bid v →
  ∃ t B1 B2, insert (bids_tree m) i v = Ok t ∧ B = B1 ++ B2
    ∧ market_inv (put_bids m t) S A (B1 ++ (i, v) :: B2) L F
    ∧ (∀ e, e ∈ B1 → resting_order_cmp e.2 v = Lt) ∧ (∀ e, e ∈ B2 → resting_order_cmp v e.2 ≠ Gt).
Proof.
  intros Hm [] Hv. destruct (insert_tree_inv _ _ _ i v (mi_bids _ _ _ _ _ _ Hm))
    as (t & B1 & B2 & Hins & HB & Hinv & Hlt & Hge & Ho & Hmx); [done..|].
  exists t, B1, B2. split_and!; [done|done| |done|done]. simpl in Ho.
  assert (∀ j, j ∈ S.*1 ∨ j ∈ A.*1 ∨ j ∈ L.*1 ∨ j ∈ F → j ∉ i :: B.*1) as Hd.
  { intros j Hj [->|Hin]%elem_of_cons; [set_solver|].
    destruct Hj as [Hj|[Hj|[Hj|Hj]]]; block_clash. }
  pose proof (mi_bids _ _ _ _ _ _ Hm) as Hmb.
  destruct Hm as [Hms Hma _ Hml ? ? Hmf Hmn Hmd]. split; simpl; try done.
  - eapply tree_inv_outside'; [exact Hms|done|done|exact Ho|auto].
  - eapply tree_inv_outside'; [exact Hma|done|done|exact Ho|auto].
  - by apply tree_inv_eta in Hinv.
  - eapply tree_inv_outside'; [exact Hml|done|done|exact Ho|auto].
  - by apply Hmx.
  - eapply free_chain_outside; [exact Hmf|exact Ho|auto].
  - eapply bound_outside; [exact Hmd|exact Ho|done|]. intros j. apply (tree_ids_block _ _ _ _ Hmb).
Qed.

(** The header fields the invariant does not constrain. *)
Lemma market_inv_fixed m f S A B L F : market_inv m S A B L F →
  mf_claimed_seats_root_index f = mf_claimed_seats_root_index (mk_fixed m) →
  mf_asks_root_index f = mf_asks_root_index (mk_fixed m) →
  mf_asks_best_index f = mf_asks_best_index (mk_fixed m) →
  mf_bids_root_index f = mf_bids_root_index (mk_fixed m) →
  mf_bids_best_index f = mf_bids_best_index (mk_fixed m) →
  mf_matched_loans_root_index f = mf_matched_loans_root_index (mk_fixed m) →
  mf_free_list_head_index f = mf_free_list_head_index (mk_fixed m) →
  mf_num_bytes_allocated f = mf_num_bytes_allocated (mk_fixed m) →
  market_inv (mkMarket f (mk_dynamic m)) S A B L F.
Proof.
  intros [Hms Hma Hmb Hml ? ? Hmf Hmn Hmd] H1 H2 H3 H4 H5 H6 H7 H8.
  split; unfold claimed_seat_tree, asks_tree, bids_tree, matched_loan_tree in *; simpl in *;
    rewrite ?H1, ?H2, ?H3, ?H4, ?H5, ?H6, ?H7, ?H8; done.
Qed.

(** [mint_matched_loan]: the loan goes to the end of the loans, whose sequences are
    all smaller; without a free block, or with the counter at its end, it fails. *)
Definition sequences_below (n : Z) L : Prop := ∀ e, e ∈ L → ml_sequence e.2 < n.

Lemma mint_returns m S A B L F node : market_inv m S A B L F →
  sequences_below (mf_matched_loan_sequence (mk_fixed m)) L →
  ml_sequence node = mf_matched_loan_sequence (mk_fixed m) →
  returns (mint_matched_loan m node) (λ mi, ∃ F', F = mi.2 :: F'
    ∧ market_inv mi.1 S A B (L ++ [(mi.2, node)]) F'
    ∧ mf_matched_loan_sequence (mk_fixed m) + 1 < 2 ^ 64
    ∧ ∃ h r, mk_fixed mi.1 = mk_fixed m <| mf_free_list_head_index := h |>
                      <| mf_matched_loans_root_index := r |>
                      <| mf_matched_loan_sequence := mf_matched_loan_sequence (mk_fixed m) + 1 |>).
Proof.
  intros Hm Hb Hn. unfold mint_matched_loan. destruct F as [|i F].
  { rewrite (get_free_nil _ _ _ _ _ Hm). simpl. discriminate. }
  destruct (get_free_spare _ _ _ _ _ _ _ Hm) as (h & m1 & Hm1 & Hg & Hi1 & Hsp).
  destruct (insert_loan_inv _ _ _ _ _ _ _ node Hi1 Hsp) as (t & L1 & L2 & Hins & HL & Hi2 & Hge).
  assert (L2 = []) as ->.
  { destruct L2 as [|e L2]; [done|]. assert (e ∈ L) as He by (rewrite HL; apply elem_of_app; right; left).
    specialize (Hge e ltac:(left)). specialize (Hb e He). lia. }
  rewrite app_nil_r in HL. subst L1.
  rewrite Hg. cbn [mbind result_bind].
  rewrite (proj2 (Z.eqb_neq _ _) (sp_nil _ _ _ _ _ _ _ Hsp)). cbn [negb require mbind result_bind].
  rewrite Hins. cbn [mbind result_bind].
  assert (mf_matched_loan_sequence (mk_fixed (put_matched_loans m1 t))
    = mf_matched_loan_sequence (mk_fixed m)) as -> by (by subst m1).
  apply returns_bind, returns_ok_or; [discriminate|]. intros seq [-> Hlt]%checked_add_Some.
  exists F. cbn [fst snd]. split_and!; [done| |done|exists h, (t_root t); by subst m1].
  by apply (market_inv_fixed (put_matched_loans m1 t)).
Qed.

(** Updating a seat without touching its key. *)
Lemma modify_seat_returns m S A B L F i v f : market_inv m S A B L F → (i, v) ∈ S →
  returns (f v) (λ v', same_key v' v) →
  returns (modify_seat m i f) (λ m', ∃ v', f v = Ok v' ∧ same_key v' v
    ∧ market_inv m' (set_entry i v' S) A B L F ∧ mk_fixed m' = mk_fixed m).
Proof.
  intros Hm Hi Hf. destruct (f v) as [v'|e] eqn:E.
  - destruct (modify_seat_inv _ _ _ _ _ _ _ _ _ _ Hm Hi E Hf) as (m' & -> & Hm' & Hfix).
    simpl. by exists v'.
  - pose proof (tree_inv_block _ _ _ _ _ (mi_seats _ _ _ _ _ _ Hm) Hi) as (_ & n & Hn & Hv).
    simpl in Hn. unfold modify_seat, modify_value.
    assert (region_get (mk_dynamic m) i = Ok n) as -> by (by apply region_get_Ok).
    cbn [mbind result_bind]. rewrite Hv, E. done.
Qed.
End insertions.

(** ** Deciding the invariant of a concrete market *)

Definition check_market (m : Market) (S : list (Z * ClaimedSeat)) (A B : list (Z * RestingOrder))
    (L : list (Z * MatchedLoan)) (F : list Z) : Prop :=
  check_tree (λ _, true) (claimed_seat_tree m) = Some S
  ∧ check_tree (λ o, ro_side o =? Side_as_u8 Ask) (asks_tree m) = Some A
  ∧ check_tree (λ o, ro_side o =? Side_as_u8 Bid) (bids_tree m) = Some B
  ∧ check_tree (λ _, true) (matched_loan_tree m) = Some L
  ∧ mf_asks_best_index (mk_fixed m) = last_id A
  ∧ mf_bids_best_index (mk_fixed m) = last_id B
  ∧ read_free (size (mk_dynamic m)) (mk_dynamic m) (mf_free_list_head_index (mk_fixed m)) = Some F
  ∧ bool_decide (NoDup F) = true
  ∧ forallb (λ jb, (0 <=? jb.1) && (jb.1 <? mf_num_bytes_allocated (mk_fixed m)))
      (map_to_list (mk_dynamic m)) = true.

Lemma check_market_inv m S A B L F : check_market m S A B L F → market_inv m S A B L F.
Proof.
  intros (H1 & H2 & H3 & H4 & Hab & Hbb & H5 & H6 & H7). split; [..|exact Hab|exact Hbb| | |].
  - by apply (check_tree_inv _ (λ _, true)).
  - apply (check_tree_inv _ (λ o, ro_side o =? Side_as_u8 Ask)); [|done]. by intros v ?%Z.eqb_eq.
  - apply (check_tree_inv _ (λ o, ro_side o =? Side_as_u8 Bid)); [|done]. by intros v ?%Z.eqb_eq.
  - by apply (check_tree_inv _ (λ _, true)).
  - by eapply read_free_chain.
  - by apply bool_decide_eq_true in H6.
  - rewrite forallb_forall in H7. intros j [b Hb].
    assert (In (j, b) (map_to_list (mk_dynamic m))) as Hin.
    { apply list_elem_of_In. by apply elem_of_map_to_list. }
    apply H7 in Hin. simpl in Hin. lia.
Qed.

(** ** Contracts of the market operations *)

Section contracts.
Implicit Types (m : Market) (S : list (Z * ClaimedSeat)) (A B : list (Z * RestingOrder)).
Implicit Types (L : list (Z * MatchedLoan)) (F : list Z) (i : Z).

Lemma claimed_seat_cmp_Eq a b : claimed_seat_cmp a b = Eq ↔
  cs_owner_kind a = cs_owner_kind b ∧ cs_owner a = cs_owner b ∧ cs_sub_vault_id a = cs_sub_vault_id b.
Proof. unfold claimed_seat_cmp. solve_cmp; split; intros; simplify_eq; try done; lia. Qed.

(** The seat lookup on a market: the seat with the key, if there is one. *)
Lemma lookup_seat_inv m S A B L F probe : market_inv m S A B L F →
  ∃ j, lookup_seat_index m probe = Ok j
    ∧ (j ≠ NIL → ∃ v, (j, v) ∈ S ∧ claimed_seat_cmp v probe = Eq)
    ∧ (∀ i v, (i, v) ∈ S → claimed_seat_cmp v probe = Eq → j ≠ NIL).
Proof.
  intros Hm. by apply (lookup_tree_inv (λ _, True) _ _ probe (mi_seats _ _ _ _ _ _ Hm)).
Qed.

(** No two seats have the same key. *)
Definition keys_unique S : Prop :=
  ∀ i v j w, (i, v) ∈ S → (j, w) ∈ S → claimed_seat_cmp v w = Eq → i = j.

Lemma claim_seat_inv m S A B L i F owner kind id :
  market_inv m S A B L (i :: F) → mf_position_count (mk_fixed m) + 1 < 2 ^ 32 →
  (∀ j v, (j, v) ∈ S → claimed_seat_cmp v (claimed_seat_new_empty owner kind id) ≠ Eq) →
  ∃ m' S1 S2, claim_seat_with_sub_vault m owner kind id = Ok m' ∧ S = S1 ++ S2
    ∧ market_inv m' (S1 ++ (i, claimed_seat_new_empty owner kind id) :: S2) A B L F
    ∧ mf_position_count (mk_fixed m') = mf_position_count (mk_fixed m) + 1.
Proof.
  intros Hm Hcount Hno. destruct (lookup_seat_inv _ _ _ _ _ _
    (claimed_seat_new_empty owner kind id) Hm) as (j & Hj & Hs & _).
  assert (j = NIL) as ->.
  { destruct (Z.eq_dec j NIL) as [|Hn]; [done|]. destruct (Hs Hn) as (v & Hv & Hc).
    by apply Hno in Hv. }
  destruct (get_free_spare _ _ _ _ _ _ _ Hm) as (h & m1 & Hm1 & Hg & Hi1 & Hsp).
  destruct (insert_seat_inv _ _ _ _ _ _ _ (claimed_seat_new_empty owner kind id) Hi1 Hsp)
    as (t & S1 & S2 & Hins & HS & Hi2).
  unfold claim_seat_with_sub_vault. rewrite Hj. cbn [mbind result_bind]. rewrite Z.eqb_refl.
  cbn [negb]. rewrite Hg. cbn [mbind result_bind].
  rewrite (proj2 (Z.eqb_neq _ _) (sp_nil _ _ _ _ _ _ _ Hsp)). cbn [negb require mbind result_bind].
  rewrite Hins. cbn [mbind result_bind].
  assert (mf_position_count (mk_fixed (put_claimed_seats m1 t)) = mf_position_count (mk_fixed m))
    as -> by (by subst m1).
  rewrite (add_ok U32) by done. cbn [mbind result_bind].
  eexists _, S1, S2. split; [done|]. split_and!; [done| |done].
  by apply (market_inv_fixed (put_claimed_seats m1 t)).
Qed.

(** Claiming a seat.  On a well-formed market with a free block and no seat of
    the given owner, kind and sub-vault, the claim succeeds; the market stays
    well-formed with a zeroed seat added, every order, loan and other seat unchanged,
    and looking the key up now yields the new seat, so a second claim fails with
    [AlreadyClaimedSeat]. *)
Theorem claim_seat_contract (m : Market) (S : list (Z * ClaimedSeat))
    (A B : list (Z * RestingOrder)) (L : list (Z * MatchedLoan)) (i : Z) (F : list Z)
    (owner kind id : Z)
    (Hm : market_inv m S A B L (i :: F))
    (Hcount : mf_position_count (mk_fixed m) + 1 < 2 ^ 32)
    (Hno : ∀ j v, (j, v) ∈ S → claimed_seat_cmp v (claimed_seat_new_empty owner kind id) ≠ Eq) :
  ∃ m' S1 S2, claim_seat_with_sub_vault m owner kind id = Ok m' ∧ S = S1 ++ S2
    ∧ market_inv m' (S1 ++ (i, claimed_seat_new_empty owner kind id) :: S2) A B L F
    ∧ lookup_seat_index m' (claimed_seat_new_empty owner kind id) = Ok i
    ∧ claim_seat_with_sub_vault m' owner kind id = Err AlreadyClaimedSeat.
Proof.
  destruct (claim_seat_inv _ _ _ _ _ _ _ _ _ _ Hm Hcount Hno) as (m' & S1 & S2 & Hc & HS & Hm' & _).
  exists m', S1, S2. split_and!; [done|done|done|..].
  all: destruct (lookup_seat_inv _ _ _ _ _ _ (claimed_seat_new_empty owner kind id) Hm')
    as (j & Hj & Hsound & Hcomp).
  all: assert (j ≠ NIL) as Hn by (apply (Hcomp i (claimed_seat_new_empty owner kind id));
    [apply elem_of_app; right; left|by apply claimed_seat_cmp_Eq]).
  - destruct (Hsound Hn) as (v & Hv & Hcv). rewrite Hj. f_equal.
    apply elem_of_app in Hv as [Hv|[[= -> _]|Hv]%elem_of_cons]; [|done|];
      (destruct (Hno j v); [rewrite HS; apply elem_of_app; tauto|done]).
  - unfold claim_seat_with_sub_vault. rewrite Hj. cbn [mbind result_bind].
    by rewrite (proj2 (Z.eqb_neq _ _) Hn).
Qed.

(** An empty market with two free blocks. *)
Definition sample_header : MarketFixed :=
  market_new_empty (λ market mint, (market + mint, 255)) 11 6 12 6 5.
Definition sample_empty_market : Market :=
  mkMarket (sample_header <| mf_free_list_head_index := 160 |> <| mf_num_bytes_allocated := 320 |>)
    (<[160 := MB_free (mkFreeListNode 0)]> (<[0 := MB_free (mkFreeListNode NIL)]> ∅)).

Lemma sample_empty_market_inv : market_inv sample_empty_market [] [] [] [] [160; 0].
Proof. apply check_market_inv. vm_compute. repeat split. Defined.

Lemma claim_seat_contract_witness :
  ∃ m', claim_seat_with_sub_vault sample_empty_market 500 OWNER_KIND_USER 0 = Ok m'
    ∧ market_inv m' [(160, claimed_seat_new_empty 500 0 0)] [] [] [] [0].
Proof.
  destruct (claim_seat_contract sample_empty_market [] [] [] [] 160 [0] 500 OWNER_KIND_USER 0
    sample_empty_market_inv) as (m' & S1 & S2 & H1 & H2 & H3 & _);
    [vm_compute; reflexivity|intros j v Hv; by apply not_elem_of_nil in Hv|].
  exists m'. split; [exact H1|]. apply eq_sym, app_eq_nil in H2 as [-> ->]. exact H3.
Defined.

(** A live seat is a seat of the tree.  On a well-formed market whose seats have
    distinct keys, [verify_live_seat] accepts an index exactly when it is in the
    seat tree with the expected kind, and then returns that seat: a [NIL] index and an
    index the tree does not resolve to are refused. *)
Theorem verify_live_seat_exact (m : Market) (S : list (Z * ClaimedSeat))
    (A B : list (Z * RestingOrder)) (L : list (Z * MatchedLoan)) (F : list Z)
    (i kind : Z) (seat : ClaimedSeat)
    (Hm : market_inv m S A B L F) (Hu : keys_unique S) :
  verify_live_seat m i kind = Ok seat ↔ (i, seat) ∈ S ∧ cs_owner_kind seat = kind.
Proof.
  unfold verify_live_seat. split.
  - intros (u1 & Hnil & H)%bind_Ok. apply bind_Ok in H as (s & Hs & H).
    apply bind_Ok in H as (j & Hj & H). apply bind_Ok in H as (u2 & Hres & H).
    apply bind_Ok in H as (u3 & Hk & [= <-]).
    apply require_Ok, negb_true_iff, Z.eqb_neq in Hnil.
    apply require_Ok, Z.eqb_eq in Hres. apply require_Ok, Z.eqb_eq in Hk. subst j.
    destruct (lookup_seat_inv _ _ _ _ _ _ (claimed_seat_new_empty (cs_owner s) (cs_owner_kind s)
      (cs_sub_vault_id s)) Hm) as (j & Hj' & Hsound & _).
    rewrite Hj in Hj'. injection Hj' as <-. destruct (Hsound Hnil) as (v & Hv & _).
    rewrite (get_seat_inv _ _ _ _ _ _ _ _ Hm Hv) in Hs. by injection Hs as <-.
  - intros [Hi <-]. pose proof (tree_inv_block _ _ _ _ _ (mi_seats _ _ _ _ _ _ Hm) Hi) as [Hn _].
    rewrite (proj2 (Z.eqb_neq _ _) Hn). cbn [negb require mbind result_bind].
    rewrite (get_seat_inv _ _ _ _ _ _ _ _ Hm Hi). cbn [mbind result_bind].
    destruct (lookup_seat_inv _ _ _ _ _ _ (claimed_seat_new_empty (cs_owner seat)
      (cs_owner_kind seat) (cs_sub_vault_id seat)) Hm) as (j & -> & Hsound & Hcomp).
    assert (j ≠ NIL) as Hjn by (eapply (Hcomp i); [done|by apply claimed_seat_cmp_Eq]).
    destruct (Hsound Hjn) as (v & Hv & Hc%claimed_seat_cmp_Eq).
    assert (j = i) as -> by (eapply Hu; [done|done|by apply claimed_seat_cmp_Eq]).
    cbn [mbind result_bind]. rewrite !Z.eqb_refl. done.
Qed.

(** The market of the previous example with its seat. *)
Definition sample_seat_market : Market :=
  mkMarket (sample_header <| mf_num_bytes_allocated := 160 |> <| mf_claimed_seats_root_index := 0 |>)
    (<[0 := MB_seat (new_node Black (claimed_seat_new_empty 500 0 0))]> ∅).

Lemma verify_live_seat_exact_witness :
  verify_live_seat sample_seat_market 0 OWNER_KIND_USER = Ok (claimed_seat_new_empty 500 0 0).
Proof.
  apply (verify_live_seat_exact sample_seat_market [(0, claimed_seat_new_empty 500 0 0)] [] [] [] []);
    [apply check_market_inv; vm_compute; repeat split
    |intros i v j w Hi%list_elem_of_singleton Hj%list_elem_of_singleton _; congruence
    |split; [apply list_elem_of_here|reflexivity]].
Defined.

(** The book is walked in price-time priority.  On a well-formed market the ask
    iteration starts at the best ask and lists every resting ask once, cheapest first and,
    at one rate, lowest sequence first; the bid iteration lists every resting bid once,
    highest rate first and then lowest sequence first. *)
Theorem book_price_time_priority (m : Market) (S : list (Z * ClaimedSeat))
    (A B : list (Z * RestingOrder)) (L : list (Z * MatchedLoan)) (F : list Z)
    (Hm : market_inv m S A B L F) :
  iter_indices (V:=RestingOrder) (asks_tree m) = Ok (reverse A).*1
  ∧ iter_indices (V:=RestingOrder) (bids_tree m) = Ok (reverse B).*1
  ∧ NoDup A.*1 ∧ NoDup B.*1
  ∧ StronglySorted (λ a b, ro_rate_bps a.2 < ro_rate_bps b.2
        ∨ ro_rate_bps a.2 = ro_rate_bps b.2 ∧ ro_sequence_number a.2 <= ro_sequence_number b.2)
      (reverse A)
  ∧ StronglySorted (λ a b, ro_rate_bps a.2 > ro_rate_bps b.2
        ∨ ro_rate_bps a.2 = ro_rate_bps b.2 ∧ ro_sequence_number a.2 <= ro_sequence_number b.2)
      (reverse B).
Proof.
  pose proof (mi_asks _ _ _ _ _ _ Hm) as Ha. pose proof (mi_bids _ _ _ _ _ _ Hm) as Hb.
  rewrite !fmap_reverse. split_and!; [by apply (iter_tree_inv (on_side Ask))
    |by apply (iter_tree_inv (on_side Bid))|by eapply tree_inv_nodup|by eapply tree_inv_nodup|..].
  - destruct Ha as [(s & _ & <- & [Hp Hs] & _) _]. unfold all_P in Hp. rewrite Forall_forall in Hp.
    apply StronglySorted_reverse.
    revert Hs. apply StronglySorted_impl_in. intros a b Hia Hib Hle.
    specialize (Hp a Hia) as Hsa. unfold entry_le, on_side in *. simpl in Hle.
    unfold resting_order_cmp in Hle. rewrite Hsa in Hle. simpl in Hle. solve_cmp.
  - destruct Hb as [(s & _ & <- & [Hp Hs] & _) _]. unfold all_P in Hp. rewrite Forall_forall in Hp.
    apply StronglySorted_reverse.
    revert Hs. apply StronglySorted_impl_in. intros a b Hia Hib Hle.
    specialize (Hp a Hia) as Hsa. unfold entry_le, on_side in *. simpl in Hle.
    unfold resting_order_cmp in Hle. rewrite Hsa in Hle. simpl in Hle. solve_cmp.
Qed.

(** A market with one seat, two asks (at 700 and 800 bps) and a bid. *)
Definition sample_order (side : Side) (rate_bps sequence_number : Z) : RestingOrder :=
  new_primary 0 sequence_number side Limit rate_bps 86400 1000 0 0 0 0 fp48_ONE.
Definition sample_book_market : Market :=
  mkMarket (sample_header <| mf_num_bytes_allocated := 640 |> <| mf_claimed_seats_root_index := 0 |>
      <| mf_asks_root_index := 160 |> <| mf_asks_best_index := 320 |>
      <| mf_bids_root_index := 480 |> <| mf_bids_best_index := 480 |>)
    (<[0 := MB_seat (new_node Black (claimed_seat_new_empty 5 OWNER_KIND_SUB_VAULT 1))]>
    (<[160 := MB_order (mkRBNode NIL 320 NIL Black 0 (sample_order Ask 800 0))]>
    (<[320 := MB_order (mkRBNode NIL NIL 160 Red 0 (sample_order Ask 700 1))]>
    (<[480 := MB_order (new_node Black (sample_order Bid 650 2))]> ∅)))).

Lemma book_price_time_priority_witness :
  iter_indices (V:=RestingOrder) (asks_tree sample_book_market) = Ok [320; 160].
Proof.
  refine (proj1 (book_price_time_priority sample_book_market
    [(0, claimed_seat_new_empty 5 OWNER_KIND_SUB_VAULT 1)]
    [(160, sample_order Ask 800 0); (320, sample_order Ask 700 1)] [(480, sample_order Bid 650 2)]
    [] [] _)).
  apply check_market_inv. vm_compute. repeat split.
Defined.
End contracts.

(** ** Growing the account *)

Section growth.
Implicit Types (m : Market) (S : list (Z * ClaimedSeat)) (A B : list (Z * RestingOrder)).
Implicit Types (L : list (Z * MatchedLoan)) (F : list Z).

Lemma count_free_from_chain fuel d head F :
  free_chain d head F → (length F <= fuel)%nat →
  count_free_from fuel d head = Ok (Z.of_nat (length F)).
Proof.
  revert fuel head. induction F as [|i F IH]; intros fuel head.
  - intros -> _. destruct fuel; reflexivity.
  - intros (-> & Hi & next & Hn & Hc) Hf. destruct fuel as [|fuel]; [simpl in Hf; lia|]. simpl.
    rewrite (proj2 (Z.eqb_neq _ _) Hi).
    assert (region_get d i = Ok (mkFreeListNode next)) as -> by (by apply region_get_Ok).
    cbn [mbind result_bind fl_next]. rewrite (IH fuel next) by (done || (simpl in Hf; lia)).
    cbn [mbind result_bind mret result_ret]. f_equal. lia.
Qed.

Lemma count_market_free_blocks_inv m S A B L F : market_inv m S A B L F →
  count_market_free_blocks m = Ok (Z.of_nat (length F)).
Proof.
  intros Hm. apply count_free_from_chain; [apply (mi_free _ _ _ _ _ _ Hm)|].
  pose proof (mi_free_nodup _ _ _ _ _ _ Hm) as Hnd.
  rewrite <- (size_list_to_set (C:=gset Z) F Hnd), <- size_dom. apply subseteq_size.
  intros i Hi%elem_of_list_to_set. apply elem_of_dom.
  destruct (free_block Hm i Hi) as [n ->]. by eexists.
Qed.

Lemma expand_market_loop_inv fuel m S A B L F n : market_inv m S A B L F →
  0 <= mf_num_bytes_allocated (mk_fixed m) →
  n - Z.of_nat (length F) <= Z.of_nat fuel →
  mf_num_bytes_allocated (mk_fixed m)
    + MARKET_BLOCK_SIZE * Z.max 0 (n - Z.of_nat (length F)) < 2 ^ 32 →
  ∃ m' F', expand_market_loop fuel m n = Ok m' ∧ market_inv m' S A B L (F' ++ F)
    ∧ Z.of_nat (length (F' ++ F)) = Z.max n (Z.of_nat (length F))
    ∧ mf_num_bytes_allocated (mk_fixed m')
        = mf_num_bytes_allocated (mk_fixed m) + MARKET_BLOCK_SIZE * Z.of_nat (length F').
Proof.
  revert m F. induction fuel as [|fuel IH]; intros m F Hm H0 Hf Hb; simpl;
    rewrite (count_market_free_blocks_inv _ _ _ _ _ _ Hm); cbn [mbind result_bind];
    (destruct (Z.leb_spec n (Z.of_nat (length F))) as [Hn|Hn];
      [exists m, []; split_and!; [done|done|simpl; lia|simpl; lia]|]); [lia|].
  destruct (expand_market_inv m S A B L F Hm H0) as (m1 & -> & Hm1 & Hb1).
  { unfold MARKET_BLOCK_SIZE in *. lia. }
  cbn [mbind result_bind].
  destruct (IH m1 _ Hm1) as (m' & F' & -> & Hm' & Hl & Hb'); rewrite ?Hb1;
    unfold MARKET_BLOCK_SIZE in *; cbn [length] in *; [lia..|].
  exists m', (F' ++ [mf_num_bytes_allocated (mk_fixed m)]). rewrite <- app_assoc. cbn [app]. split_and!;
    [done|done|rewrite Hl; lia|]. rewrite Hb', length_app. simpl. lia.
Qed.

(** Pre-allocation.  On a well-formed market whose account can still grow enough,
    [expand_market_to_free_blocks] stops, leaves exactly the requested number of free
    blocks (or the ones there were, if more), grows the account by one block for each
    one added, and keeps every seat, order and loan. *)
Theorem expand_market_to_free_blocks_contract (m : Market) (S : list (Z * ClaimedSeat))
    (A B : list (Z * RestingOrder)) (L : list (Z * MatchedLoan)) (F : list Z) (n : Z)
    (Hm : market_inv m S A B L F) (H0 : 0 <= mf_num_bytes_allocated (mk_fixed m))
    (Hfit : mf_num_bytes_allocated (mk_fixed m)
              + MARKET_BLOCK_SIZE * Z.max 0 (n - Z.of_nat (length F)) < 2 ^ 32) :
  ∃ m' F', expand_market_to_free_blocks m n = Ok m' ∧ market_inv m' S A B L (F' ++ F)
    ∧ Z.of_nat (length (F' ++ F)) = Z.max n (Z.of_nat (length F))
    ∧ mf_num_bytes_allocated (mk_fixed m')
        = mf_num_bytes_allocated (mk_fixed m) + MARKET_BLOCK_SIZE * Z.of_nat (length F')
    ∧ count_market_free_blocks m' = Ok (Z.max n (Z.of_nat (length F))).
Proof.
  destruct (expand_market_loop_inv (Z.to_nat n) m S A B L F n Hm H0) as (m' & F' & ? & Hm' & Hl & ?);
    [lia|done|].
  exists m', F'. split_and!; [done..|]. by rewrite <- Hl, (count_market_free_blocks_inv _ _ _ _ _ _ Hm').
Qed.

Lemma expand_market_to_free_blocks_contract_witness :
  ∃ m' F', expand_market_to_free_blocks sample_empty_market 5 = Ok m'
    ∧ market_inv m' [] [] [] [] (F' ++ [160; 0]) ∧ Z.of_nat (length (F' ++ [160; 0])) = 5.
Proof.
  destruct (expand_market_to_free_blocks_contract sample_empty_market [] [] [] [] [160; 0] 5
    sample_empty_market_inv) as (m' & F' & H1 & H2 & H3 & _); [vm_compute; congruence|reflexivity|].
  exists m', F'. split; [exact H1|split; [exact H2|exact H3]].
Defined.
End growth.

(** ** Seat balances *)

Section balances.
Implicit Types (m : Market) (s : ClaimedSeat).

(** The fields of a seat are within their types. *)
Record seat_wf s : Prop := {
  sw_dw : in_u U128 (cs_debt_withdrawable_shares s);
  sw_de : in_u U128 (cs_debt_encumbered_shares s);
  sw_cw : in_u U128 (cs_collateral_withdrawable_shares s);
  sw_ce : in_u U128 (cs_collateral_encumbered_shares s);
  sw_borrow : in_u U32 (cs_open_borrow_count s);
  sw_lend : in_u U32 (cs_open_lend_count s) }.

#[export] Instance seat_wf_dec s : Decision (seat_wf s).
Proof.
  refine (cast_if (decide (in_u U128 (cs_debt_withdrawable_shares s)
    ∧ in_u U128 (cs_debt_encumbered_shares s) ∧ in_u U128 (cs_collateral_withdrawable_shares s)
    ∧ in_u U128 (cs_collateral_encumbered_shares s) ∧ in_u U32 (cs_open_borrow_count s)
    ∧ in_u U32 (cs_open_lend_count s))));
    [abstract (split; tauto)|abstract (intros []; tauto)].
Defined.

(** What the seat owns on an axis, free or locked. *)
Definition seat_debt s : Z := cs_debt_withdrawable_shares s + cs_debt_encumbered_shares s.
Definition seat_collateral s : Z :=
  cs_collateral_withdrawable_shares s + cs_collateral_encumbered_shares s.

Lemma encumber_seat_Ok side p c s s1 : encumber_seat side p c s = Ok s1 →
  match side with
  | Bid => c <= cs_collateral_withdrawable_shares s
           ∧ s1 = s <| cs_collateral_withdrawable_shares := cs_collateral_withdrawable_shares s - c |>
                    <| cs_collateral_encumbered_shares := cs_collateral_encumbered_shares s + c |>
  | Ask => p <= cs_debt_withdrawable_shares s
           ∧ s1 = s <| cs_debt_withdrawable_shares := cs_debt_withdrawable_shares s - p |>
                    <| cs_debt_encumbered_shares := cs_debt_encumbered_shares s + p |>
                    <| cs_open_lend_count := cs_open_lend_count s + 1 |>
  end.
Proof.
  destruct side; simpl; unfold update_balance; simpl; intros H; inv_ok; subst; (split; [simpl in *; lia|done]).
Qed.

Lemma encumber_unencumber_seat side p c s s1 : seat_wf s → 0 <= p → 0 <= c →
  encumber_seat side p c s = Ok s1 → unencumber_seat side p c s1 = Ok s.
Proof.
  intros [] Hp Hc H. apply encumber_seat_Ok in H. destruct side, H as [Hle ->]; simpl;
    unfold update_balance; simpl.
  - rewrite (sub_ok _ c) by zlia. cbn. rewrite (add_ok U128) by zlia. cbn.
    f_equal. destruct s; simpl; f_equal; lia.
  - rewrite (sub_ok _ p) by zlia. cbn. rewrite (add_ok U128) by zlia. cbn.
    rewrite (sub_ok _ 1) by zlia. cbn. f_equal. destruct s; simpl; f_equal; lia.
Qed.

Lemma modify_seat_Ok m i f m' : modify_seat m i f = Ok m' →
  ∃ s s', get_seat m i = Ok s ∧ f s = Ok s' ∧ get_seat m' i = Ok s' ∧ mk_fixed m' = mk_fixed m
    ∧ (∀ j, j ≠ i → get_seat m' j = get_seat m j) ∧ modify_value (mk_dynamic m) i f = Ok (mk_dynamic m').
Proof.
  intros (d & Hd & [= <-])%bind_Ok. destruct (modify_value_read _ _ _ _ Hd) as (s & s' & H1 & H2 & H3).
  exists s, s'. split_and!; try done. intros j Hj. by eapply modify_value_read_ne.
Qed.

(** Two updates in a row that cancel out. *)
Lemma modify_seat_cancel m i f g m1 m2 s s1 : get_seat m i = Ok s → f s = Ok s1 → g s1 = Ok s →
  modify_seat m i f = Ok m1 → modify_seat m1 i g = Ok m2 → m2 = m.
Proof.
  intros Hs Hf Hg (d1 & Hd1 & [= <-])%bind_Ok (d2 & Hd2 & [= <-])%bind_Ok. simpl in Hd2.
  pose proof (modify_value_modify _ _ _ _ _ _ Hd1 Hd2) as Hd.
  rewrite (modify_value_same _ _ _ _ _ Hd Hs).
  - by destruct m.
  - by rewrite Hf.
Qed.

Lemma modify_seat_forward m i f s s' : get_seat m i = Ok s → f s = Ok s' →
  ∃ m', modify_seat m i f = Ok m' ∧ get_seat m' i = Ok s'.
Proof.
  unfold get_seat, read_value, modify_seat, modify_value. intros Hs Hf.
  destruct (region_get (mk_dynamic m) i) as [n|] eqn:Hg; [|done].
  cbn [mbind result_bind] in Hs |- *. injection Hs as Hs. rewrite Hs, Hf. cbn [mbind result_bind].
  rewrite (region_set_get _ _ _ _ Hg). cbn [mbind result_bind mret result_ret].
  eexists. split; [done|]. cbn [mk_dynamic set_field eta_expand eta_Market]. by rewrite region_get_insert.
Qed.

(** Encumbrance is a round trip.  When [encumber_for_order] locks shares for an
    order, the seat had them withdrawable, its total on each axis does not move, and
    [unencumber_for_order] of the same shares succeeds and restores the market exactly,
    byte for byte. *)
Theorem encumber_unencumber_roundtrip (m m1 : Market) (i : Z) (side : Side) (p c : Z)
    (s : ClaimedSeat) (Hs : get_seat m i = Ok s) (Hwf : seat_wf s) (Hp : 0 <= p) (Hc : 0 <= c)
    (H : encumber_for_order m i side p c = Ok m1) :
  unencumber_for_order m1 i side p c = Ok m
  ∧ (∃ s1, get_seat m1 i = Ok s1 ∧ seat_debt s1 = seat_debt s
       ∧ seat_collateral s1 = seat_collateral s)
  ∧ match side with
    | Bid => c <= cs_collateral_withdrawable_shares s
    | Ask => p <= cs_debt_withdrawable_shares s
    end.
Proof.
  unfold encumber_for_order, unencumber_for_order in *.
  destruct (modify_seat_Ok _ _ _ _ H) as (s' & s1 & Hs' & Hf & Hs1 & _).
  rewrite Hs in Hs'. injection Hs' as <-.
  pose proof (encumber_unencumber_seat _ _ _ _ _ Hwf Hp Hc Hf) as Hg.
  destruct (modify_seat_forward _ _ _ _ _ Hs1 Hg) as (m2 & Hm2 & _). split_and!.
  - rewrite Hm2. f_equal. by eapply modify_seat_cancel.
  - exists s1. split; [done|]. apply encumber_seat_Ok in Hf. unfold seat_debt, seat_collateral.
    destruct side; destruct Hf as [_ ->]; simpl; lia.
  - apply encumber_seat_Ok in Hf. destruct side; tauto.
Qed.

(** A market whose seat has 1000 collateral shares. *)
Definition sample_funded_market : Market :=
  default sample_seat_market
    (match deposit_to_seat sample_seat_market 0 1000 false with Ok m => Some m | Err _ => None end).

Lemma encumber_unencumber_roundtrip_witness :
  match encumber_for_order sample_funded_market 0 Bid 0 400 with
  | Ok m1 => unencumber_for_order m1 0 Bid 0 400 = Ok sample_funded_market
  | Err _ => False
  end.
Proof.
  destruct (encumber_for_order sample_funded_market 0 Bid 0 400) as [m1|] eqn:E;
    [|vm_compute in E; discriminate E].
  refine (proj1 (encumber_unencumber_roundtrip sample_funded_market m1 0 Bid 0 400
    (claimed_seat_new_empty 500 0 0 <| cs_collateral_withdrawable_shares := 1000 |>) _ _ _ _ E));
    [vm_compute; reflexivity|apply (bool_decide_unpack _); vm_compute; exact I|vm_compute; congruence
    |vm_compute; congruence].
Defined.

(** Releasing a loan's collateral.  [release_loan_collateral] refuses, and says
    so, to release more than the seat has encumbered; otherwise it always succeeds
    on a seat whose balance has room: the encumbrance falls by the whole amount and the
    withdrawable balance rises by what is returned, never by more than was locked, so a
    seat's collateral never grows; what is not returned leaves the seat.  No other
    seat moves. *)
Theorem release_loan_collateral_exact (m : Market) (i total returned : Z) (s : ClaimedSeat)
    (Hs : get_seat m i = Ok s) (Hwf : seat_wf s) (Ht : 0 <= total) (Hr : 0 <= returned)
    (Hroom : seat_collateral s < 2 ^ 128) :
  (cs_collateral_encumbered_shares s < total →
     release_loan_collateral m i total returned = Err InsufficientEncumberedCollateral)
  ∧ (total <= cs_collateral_encumbered_shares s → ∃ m' s',
     release_loan_collateral m i total returned = Ok m' ∧ get_seat m' i = Ok s'
     ∧ s' = s <| cs_collateral_encumbered_shares := cs_collateral_encumbered_shares s - total |>
              <| cs_collateral_withdrawable_shares :=
                   cs_collateral_withdrawable_shares s + Z.min returned total |>
     ∧ seat_collateral s' = seat_collateral s - total + Z.min returned total
     ∧ seat_collateral s' <= seat_collateral s
     ∧ ∀ j, j ≠ i → get_seat m' j = get_seat m j).
Proof.
  destruct Hwf. unfold seat_collateral in *. split; intros Hle.
  - unfold release_loan_collateral, modify_seat, modify_value.
    unfold get_seat, read_value in Hs. destruct (region_get (mk_dynamic m) i) as [n|]; [|done].
    cbn [mbind result_bind] in *. injection Hs as ->. unfold release_collateral_seat.
    rewrite (proj2 (Z.leb_gt _ _)) by lia. done.
  - assert (release_collateral_seat total returned s = Ok (s
        <| cs_collateral_encumbered_shares := cs_collateral_encumbered_shares s - total |>
        <| cs_collateral_withdrawable_shares :=
             cs_collateral_withdrawable_shares s + Z.min returned total |>)) as Hf.
    { unfold release_collateral_seat. rewrite (proj2 (Z.leb_le _ _)) by lia.
      cbn [require mbind result_bind]. rewrite sub_ok by lia. cbn [mbind result_bind].
      simpl. by rewrite (add_ok U128) by lia. }
    destruct (modify_seat_forward _ _ _ _ _ Hs Hf) as (m' & Hm' & Hs').
    exists m'. eexists. split_and!; [done|done|done|simpl; lia|simpl; lia|].
    destruct (modify_seat_Ok _ _ _ _ Hm') as (_ & _ & _ & _ & _ & _ & Ho & _). done.
Qed.

Definition sample_encumbered_market : Market :=
  default sample_seat_market
    (match encumber_for_order sample_funded_market 0 Bid 0 400 with Ok m => Some m | Err _ => None end).

Lemma release_loan_collateral_exact_witness :
  release_loan_collateral sample_encumbered_market 0 401 100 = Err InsufficientEncumberedCollateral
  ∧ ∃ m' s', release_loan_collateral sample_encumbered_market 0 300 200 = Ok m'
      ∧ get_seat m' 0 = Ok s' ∧ seat_collateral s' = 900.
Proof.
  set (s := claimed_seat_new_empty 500 0 0 <| cs_collateral_withdrawable_shares := 600 |>
              <| cs_collateral_encumbered_shares := 400 |>).
  assert (seat_wf s) as Hwf by (apply (bool_decide_unpack _); vm_compute; exact I).
  split.
  - apply (proj1 (release_loan_collateral_exact sample_encumbered_market 0 401 100 s
      ltac:(vm_compute; reflexivity) Hwf ltac:(lia) ltac:(lia) ltac:(vm_compute; reflexivity))).
    vm_compute. reflexivity.
  - destruct (proj2 (release_loan_collateral_exact sample_encumbered_market 0 300 200 s
      ltac:(vm_compute; reflexivity) Hwf ltac:(lia) ltac:(lia) ltac:(vm_compute; reflexivity)))
      as (m' & s' & H1 & H2 & _ & H3 & _); [vm_compute; congruence|].
    exists m', s'. split; [exact H1|split; [exact H2|]]. rewrite H3. reflexivity.
Defined.

Lemma region_get_block {V} `{BlockOf MarketBlock V} (d : Region MarketBlock) i (x : V) :
  region_get d i = Ok x → d !! i = Some (to_block x).
Proof. by intros ?%region_get_Ok. Qed.

(** Where a seat was written, the view of a hinted seat is that seat. *)
Lemma get_helper_seat_typed m i s : get_seat m i = Ok s → get_helper_seat m i = Ok s.
Proof.
  intros (n & Hn%region_get_block & [= <-])%bind_Ok. unfold get_helper_seat. by rewrite Hn.
Qed.

Lemma seat_matches_true s signer : seat_matches s signer = true ↔
  cs_owner s = signer ∧ cs_owner_kind s = OWNER_KIND_USER ∧ cs_sub_vault_id s = 0.
Proof. unfold seat_matches. rewrite !andb_true_iff, !Z.eqb_eq. tauto. Qed.

(** A hint whose bytes are not the signer's seat is as good as none. *)
Lemma stale_hint m signer i s : get_helper_seat m i = Ok s → seat_matches s signer = false →
  get_seat_index_with_hint m signer (Some i) = get_seat_index_with_hint m signer None.
Proof.
  intros Hs He. unfold get_seat_index_with_hint. destruct (i =? NIL); [done|].
  cbn [negb]. rewrite Hs. cbn [mbind result_bind]. by rewrite He.
Qed.

(** The seat hint is only a shortcut.  On a well-formed market whose seats have
    distinct keys, resolving a signer's seat with any hint that points at a seat gives
    what it gives without one: the signer's own seat, or [NoSeatClaimed]. *)
Theorem seat_hint_irrelevant (m : Market) (S : list (Z * ClaimedSeat))
    (A B : list (Z * RestingOrder)) (L : list (Z * MatchedLoan)) (F : list Z)
    (signer idx : Z) (Hm : market_inv m S A B L F) (Hu : keys_unique S)
    (Hidx : idx = NIL ∨ idx ∈ S.*1) :
  get_seat_index_with_hint m signer (Some idx) = get_seat_index_with_hint m signer None
  ∧ (∀ i, get_seat_index_with_hint m signer None = Ok i ↔
       ∃ s, (i, s) ∈ S ∧ cs_owner s = signer ∧ cs_owner_kind s = OWNER_KIND_USER
            ∧ cs_sub_vault_id s = 0)
  ∧ ((¬ ∃ i s, (i, s) ∈ S ∧ cs_owner s = signer ∧ cs_owner_kind s = OWNER_KIND_USER
            ∧ cs_sub_vault_id s = 0) →
     get_seat_index_with_hint m signer None = Err NoSeatClaimed).
Proof.
  destruct (lookup_seat_inv _ _ _ _ _ _ (claimed_seat_new_empty signer OWNER_KIND_USER 0) Hm)
    as (j & Hj & Hsound & Hcomp).
  assert (∀ i s, (i, s) ∈ S → cs_owner s = signer → cs_owner_kind s = OWNER_KIND_USER →
    cs_sub_vault_id s = 0 → j = i) as Huniq.
  { intros i s Hi H1 H2 H3.
    assert (j ≠ NIL) as Hn by (apply (Hcomp i s Hi); apply claimed_seat_cmp_Eq; simpl; auto).
    destruct (Hsound Hn) as (v & Hv & (K1 & K2 & K3)%claimed_seat_cmp_Eq). simpl in *.
    eapply Hu; [done|done|]. apply claimed_seat_cmp_Eq. split_and!; congruence. }
  unfold get_seat_index_with_hint at 2 3 4. cbn [mbind result_bind]. rewrite Hj.
  cbn [mbind result_bind]. split_and!.
  - destruct Hidx as [->|([i s] & -> & Hi)%list_elem_of_fmap].
    + unfold get_seat_index_with_hint. rewrite Z.eqb_refl. cbn [negb mbind result_bind].
      by rewrite Hj.
    + pose proof (tree_inv_block _ _ _ _ _ (mi_seats _ _ _ _ _ _ Hm) Hi) as [Hn _].
      unfold get_seat_index_with_hint. cbn [fst]. rewrite (proj2 (Z.eqb_neq _ _) Hn). cbn [negb].
      rewrite (get_helper_seat_typed _ _ _ (get_seat_inv _ _ _ _ _ _ _ _ Hm Hi)).
      cbn [mbind result_bind mret result_ret].
      destruct (seat_matches s signer) eqn:E; [|by rewrite Hj].
      apply seat_matches_true in E as (E1 & E2 & E3).
      rewrite (Huniq i s Hi E1 E2 E3). by rewrite (proj2 (Z.eqb_neq _ _) Hn).
  - intros i. split.
    + destruct (Z.eqb_spec j NIL) as [|Hn]; [done|]. intros [= <-].
      destruct (Hsound Hn) as (v & Hv & (K1 & K2 & K3)%claimed_seat_cmp_Eq). by exists v.
    + intros (s & Hi & H1 & H2 & H3). rewrite (Huniq i s Hi H1 H2 H3).
      pose proof (tree_inv_block _ _ _ _ _ (mi_seats _ _ _ _ _ _ Hm) Hi) as [Hn _].
      by rewrite (proj2 (Z.eqb_neq _ _) Hn).
  - intros Hno. destruct (Z.eqb_spec j NIL) as [|Hn]; [done|]. destruct Hno.
    destruct (Hsound Hn) as (v & Hv & (K1 & K2 & K3)%claimed_seat_cmp_Eq). by exists j, v.
Qed.

Lemma seat_hint_irrelevant_witness :
  get_seat_index_with_hint sample_seat_market 500 (Some 0) = Ok 0
  ∧ get_seat_index_with_hint sample_seat_market 501 (Some 0) = Err NoSeatClaimed.
Proof.
  assert (market_inv sample_seat_market [(0, claimed_seat_new_empty 500 0 0)] [] [] [] []) as Hm
    by (apply check_market_inv; vm_compute; repeat split).
  assert (keys_unique [(0, claimed_seat_new_empty 500 0 0)]) as Hu
    by (intros i v j w Hi%list_elem_of_singleton Hj%list_elem_of_singleton _; congruence).
  split.
  - destruct (seat_hint_irrelevant sample_seat_market _ _ _ _ _ 500 0 Hm Hu) as [-> _];
      [right; left|vm_compute; reflexivity].
  - destruct (seat_hint_irrelevant sample_seat_market _ _ _ _ _ 501 0 Hm Hu) as (E & _ & Hno);
      [right; left|]. rewrite E. apply Hno. intros (i & s & Hi%list_elem_of_singleton & Ho & _).
    injection Hi as -> ->. vm_compute in Ho. discriminate Ho.
Defined.
End balances.
