(* ===== verification/VaultTrees.v ===== *)
(** * The global vault account ([state/vault.rs], the tree half)

    A global vault account is its header and its dynamic region, which holds the
    sub-vaults, the depositor seats and the order references, each in a tree of
    [Hypertree], and two free lists: 512-byte blocks for sub-vaults, 160-byte blocks
    for the rest.  The records and the accrual are in [SubVault]. *)
From stdpp Require Import base numbers list option gmap.
From S2P Require Import Prelude FixedPoint Loan Hypertree SubVault.
Local Open Scope Z_scope.

Definition SUB_VAULT_BLOCK_SIZE : Z := 512.
Definition VAULT_NODE_BLOCK_SIZE : Z := 160.
(** One atom kept idle in every sub-vault ([MARGINFI_ROUNDING_RESERVE_ATOMS]). *)
Definition MARGINFI_ROUNDING_RESERVE_ATOMS : Z := 1.

#[export] Instance payload_SubVault : Payload SubVault :=
  {| payload_cmp := sub_vault_cmp; payload_eqb a b := sv_sub_vault_id a =? sv_sub_vault_id b |}.
#[export] Instance payload_DepositorSeat : Payload SubVaultDepositorSeat :=
  {| payload_cmp := depositor_seat_cmp;
     payload_eqb a b := (ds_owner a =? ds_owner b) && (ds_sub_vault_id a =? ds_sub_vault_id b) |}.
#[export] Instance payload_OrderRef : Payload SubVaultOrderRef :=
  {| payload_cmp := sub_vault_order_ref_cmp;
     payload_eqb a b := (or_market a =? or_market b) && (or_sub_vault_id a =? or_sub_vault_id b) |}.

(** ** The dynamic region *)

Inductive VaultBlock :=
  | VB_free (n : FreeListNode)
  | VB_sub_vault (n : RBNode SubVault)
  | VB_seat (n : RBNode SubVaultDepositorSeat)
  | VB_order (n : RBNode SubVaultOrderRef).

#[export] Instance vault_block_free : BlockOf VaultBlock FreeListNode.
Proof.
  refine {| to_block := VB_free; of_block b := match b with VB_free n => Some n | _ => None end |};
    [done|]. intros [] ? [=]; congruence.
Defined.
#[export] Instance vault_block_sub_vault : BlockOf VaultBlock (RBNode SubVault).
Proof.
  refine {| to_block := VB_sub_vault;
            of_block b := match b with VB_sub_vault n => Some n | _ => None end |};
    [done|]. intros [] ? [=]; congruence.
Defined.
#[export] Instance vault_block_seat : BlockOf VaultBlock (RBNode SubVaultDepositorSeat).
Proof.
  refine {| to_block := VB_seat; of_block b := match b with VB_seat n => Some n | _ => None end |};
    [done|]. intros [] ? [=]; congruence.
Defined.
#[export] Instance vault_block_order : BlockOf VaultBlock (RBNode SubVaultOrderRef).
Proof.
  refine {| to_block := VB_order; of_block b := match b with VB_order n => Some n | _ => None end |};
    [done|]. intros [] ? [=]; congruence.
Defined.

Record Vault := mkVault { vt_fixed : GlobalVaultFixed; vt_dynamic : Region VaultBlock }.

#[export] Instance eta_Vault : Eta Vault := λ v, mkVault (vt_fixed v) (vt_dynamic v).

Definition sub_vault_tree (v : Vault) : Tree VaultBlock :=
  mkTree (vt_dynamic v) (gv_sub_vaults_root_index (vt_fixed v)) NIL.
Definition depositor_seat_tree (v : Vault) : Tree VaultBlock :=
  mkTree (vt_dynamic v) (gv_claimed_seats_root_index (vt_fixed v)) NIL.
Definition order_ref_tree (v : Vault) : Tree VaultBlock :=
  mkTree (vt_dynamic v) (gv_market_orders_root_index (vt_fixed v)) NIL.

Definition put_sub_vaults (v : Vault) (t : Tree VaultBlock) : Vault :=
  mkVault (vt_fixed v <| gv_sub_vaults_root_index := t_root t |>) (t_data t).
Definition put_depositor_seats (v : Vault) (t : Tree VaultBlock) : Vault :=
  mkVault (vt_fixed v <| gv_claimed_seats_root_index := t_root t |>) (t_data t).
Definition put_order_refs (v : Vault) (t : Tree VaultBlock) : Vault :=
  mkVault (vt_fixed v <| gv_market_orders_root_index := t_root t |>) (t_data t).

(** ** The two free lists *)

Definition get_free_sub_vault_address (v : Vault) : result (Vault * Z) :=
  '(d, head, index) ←
    free_list_remove (vt_dynamic v) (gv_sub_vault_free_list_head_index (vt_fixed v));
  mret (mkVault (vt_fixed v <| gv_sub_vault_free_list_head_index := head |>) d, index).

Definition release_sub_vault_address (v : Vault) (index : Z) : result Vault :=
  '(d, head) ←
    free_list_add (vt_dynamic v) (gv_sub_vault_free_list_head_index (vt_fixed v)) index;
  mret (mkVault (vt_fixed v <| gv_sub_vault_free_list_head_index := head |>) d).

Definition get_free_node_address (v : Vault) : result (Vault * Z) :=
  '(d, head, index) ←
    free_list_remove (vt_dynamic v) (gv_node_free_list_head_index (vt_fixed v));
  mret (mkVault (vt_fixed v <| gv_node_free_list_head_index := head |>) d, index).

Definition release_node_address (v : Vault) (index : Z) : result Vault :=
  '(d, head) ← free_list_add (vt_dynamic v) (gv_node_free_list_head_index (vt_fixed v)) index;
  mret (mkVault (vt_fixed v <| gv_node_free_list_head_index := head |>) d).

(** The caller has grown the region with a zeroed block. *)
Definition vault_expand_sub_vault_block (v : Vault) : result Vault :=
  '(d, head) ← free_list_add (vt_dynamic v) (gv_sub_vault_free_list_head_index (vt_fixed v))
                 (gv_num_bytes_allocated (vt_fixed v));
  bytes ← ok_or (checked_add U32 (gv_num_bytes_allocated (vt_fixed v)) SUB_VAULT_BLOCK_SIZE)
            ArithmeticOverflow;
  mret (mkVault (vt_fixed v <| gv_num_bytes_allocated := bytes |>
                            <| gv_sub_vault_free_list_head_index := head |>) d).

Definition vault_expand_node_block (v : Vault) : result Vault :=
  '(d, head) ← free_list_add (vt_dynamic v) (gv_node_free_list_head_index (vt_fixed v))
                 (gv_num_bytes_allocated (vt_fixed v));
  bytes ← ok_or (checked_add U32 (gv_num_bytes_allocated (vt_fixed v)) VAULT_NODE_BLOCK_SIZE)
            ArithmeticOverflow;
  mret (mkVault (vt_fixed v <| gv_num_bytes_allocated := bytes |>
                            <| gv_node_free_list_head_index := head |>) d).

(** ** Sub-vaults *)

(** The lookup every caller of the sub-vault tree writes out: the probe is
    [SubVault::new_empty(id, Pubkey::default(), 1, 1)]. *)
Definition lookup_sub_vault (v : Vault) (sub_vault_id : Z) : result Z :=
  lookup_index (V:=SubVault) (sub_vault_tree v) (sub_vault_new_empty sub_vault_id Pubkey_default 1 1).

Definition get_sub_vault (v : Vault) (i : Z) : result SubVault := read_value (vt_dynamic v) i.

Definition modify_sub_vault (v : Vault) (i : Z) (f : SubVault → result SubVault) : result Vault :=
  d ← modify_value (vt_dynamic v) i f; mret (v <| vt_dynamic := d |>).

Definition remove_sub_vault (v : Vault) (sub_vault_id : Z) : result (Vault * Z) :=
  idx ← lookup_sub_vault v sub_vault_id;
  if idx =? NIL then Ok (v, NIL) else
  sv ← get_sub_vault v idx;
  _ ← require (sub_vault_is_empty sv) InvalidArgument;
  t ← remove_by_index (V:=SubVault) (sub_vault_tree v) idx;
  let v := put_sub_vaults v t in
  count ← ok_or (checked_sub (gv_sub_vault_count (vt_fixed v)) 1) ArithmeticOverflow;
  let v := v <| vt_fixed ::= λ f, f <| gv_sub_vault_count := count |> |> in
  v ← release_sub_vault_address v idx;
  mret (v, idx).

(** [bump_sub_vault_order_count]; [delta] is [+1] or [-1]. *)
Definition bump_sub_vault_order_count (v : Vault) (sub_vault_id delta : Z) : result Vault :=
  idx ← lookup_sub_vault v sub_vault_id;
  _ ← require (negb (idx =? NIL)) SubVaultNotFound;
  modify_sub_vault v idx (λ sv,
    c ← (if 0 <=? delta
         then ok_or (checked_add U16 (sv_open_orders_count sv) (as_u U16 delta)) ArithmeticOverflow
         else ok_or (checked_sub (sv_open_orders_count sv) (as_u U16 (- delta)))
                ArithmeticOverflow);
    mret (sv <| sv_open_orders_count := c |>)).

(** ** Depositor seats *)

Definition lookup_depositor_seat (v : Vault) (owner : Pubkey) (sub_vault_id : Z) : result Z :=
  lookup_index (V:=SubVaultDepositorSeat) (depositor_seat_tree v)
    (depositor_seat_probe owner sub_vault_id).

Definition upsert_sub_vault_depositor_seat (v : Vault) (owner : Pubkey) (sub_vault_id : Z)
    : result (Vault * Z) :=
  existing_idx ← lookup_depositor_seat v owner sub_vault_id;
  if negb (existing_idx =? NIL) then Ok (v, existing_idx) else
  '(v, order_index) ← get_free_node_address v;
  _ ← require (negb (order_index =? NIL)) AccountDataTooSmall;
  t ← insert (depositor_seat_tree v) order_index (depositor_seat_probe owner sub_vault_id);
  let v := put_depositor_seats v t in
  count ← ok_or (checked_add U32 (gv_claimed_seat_count (vt_fixed v)) 1) ArithmeticOverflow;
  mret (v <| vt_fixed ::= λ f, f <| gv_claimed_seat_count := count |> |>, order_index).

Definition remove_sub_vault_depositor_seat (v : Vault) (owner : Pubkey) (sub_vault_id : Z)
    : result (Vault * Z) :=
  existing_idx ← lookup_depositor_seat v owner sub_vault_id;
  if existing_idx =? NIL then Ok (v, NIL) else
  t ← remove_by_index (V:=SubVaultDepositorSeat) (depositor_seat_tree v) existing_idx;
  let v := put_depositor_seats v t in
  count ← ok_or (checked_sub (gv_claimed_seat_count (vt_fixed v)) 1) ArithmeticOverflow;
  let v := v <| vt_fixed ::= λ f, f <| gv_claimed_seat_count := count |> |> in
  v ← release_node_address v existing_idx;
  mret (v, existing_idx).

(** ** Order references *)

Definition lookup_order_ref (v : Vault) (market : Pubkey) (sub_vault_id : Z) : result Z :=
  lookup_index (V:=SubVaultOrderRef) (order_ref_tree v)
    (sub_vault_order_ref_probe market sub_vault_id).

Definition insert_sub_vault_order_ref (v : Vault) (market : Pubkey)
    (sub_vault_id side rate_bps term_seconds order_sequence_in_market placed_at_unix : Z)
    : result (Vault * Z) :=
  existing_idx ← lookup_order_ref v market sub_vault_id;
  _ ← require (existing_idx =? NIL) SubVaultOrderExists;
  '(v, order_index) ← get_free_node_address v;
  _ ← require (negb (order_index =? NIL)) AccountDataTooSmall;
  t ← insert (order_ref_tree v) order_index
    (mkSubVaultOrderRef market sub_vault_id side rate_bps term_seconds order_sequence_in_market
       placed_at_unix);
  let v := put_order_refs v t in
  count ← ok_or (checked_add U32 (gv_open_order_count (vt_fixed v)) 1) ArithmeticOverflow;
  let v := v <| vt_fixed ::= λ f, f <| gv_open_order_count := count |> |> in
  v ← bump_sub_vault_order_count v sub_vault_id 1;
  mret (v, order_index).

Definition remove_sub_vault_order_ref (v : Vault) (market : Pubkey) (sub_vault_id : Z)
    : result (Vault * Z) :=
  idx ← lookup_order_ref v market sub_vault_id;
  if idx =? NIL then Ok (v, NIL) else
  t ← remove_by_index (V:=SubVaultOrderRef) (order_ref_tree v) idx;
  let v := put_order_refs v t in
  count ← ok_or (checked_sub (gv_open_order_count (vt_fixed v)) 1) ArithmeticOverflow;
  let v := v <| vt_fixed ::= λ f, f <| gv_open_order_count := count |> |> in
  v ← release_node_address v idx;
  v ← bump_sub_vault_order_count v sub_vault_id (-1);
  mret (v, idx).

(** ** Capacity and reservation, as the matching engine uses them *)

(** The principal a sub-vault can still lend. *)
Definition sub_vault_idle (sv : SubVault) : Z :=
  saturating_sub
    (saturating_sub
       (saturating_sub (sv_total_principal_atoms sv) (sv_deployed_principal_atoms sv))
       (sv_encumbered_in_orders_atoms sv))
    MARGINFI_ROUNDING_RESERVE_ATOMS.

(** One fill is one open loan on the sub-vault; an absent sub-vault is left alone. *)
Definition reserve_fill (v : Vault) (sub_vault_id atoms : Z) : result Vault :=
  idx ← lookup_sub_vault v sub_vault_id;
  if idx =? NIL then Ok v else
  modify_sub_vault v idx (λ p,
    e ← ok_or (checked_add U64 (sv_encumbered_in_orders_atoms p) atoms) ArithmeticOverflow;
    let p := p <| sv_encumbered_in_orders_atoms := e |> in
    c ← ok_or (checked_add U32 (sv_open_loans_count p) 1) ArithmeticOverflow;
    mret (p <| sv_open_loans_count := c |>)).
