(* ===== verification/VaultSpec.v ===== *)
(** * Invariant of a global vault account

    [vault_inv v V D O F G]: the region of [v] holds three balanced search trees that
    list the sub-vaults [V], the depositor seats [D] and the order references [O],
    and the two free lists [F] (sub-vault blocks) and [G] (node blocks).  Reading and
    reserving capacity, as the matching engine does, and the upserts are shown to
    succeed on such a vault and to keep it one. *)
From Stdlib Require Import Sorting.Sorted.
From stdpp Require Import base numbers list option gmap.
From S2P Require Import Prelude FixedPoint Loan Hypertree HypertreeFrame.
From S2P Require Import HypertreeSpec HypertreeOrder SubVault VaultTrees.
Local Open Scope Z_scope.

(** ** The order laws of the nodes *)

#[export] Instance sub_vault_order : PayloadOrder (λ _ : SubVault, True).
Proof.
  split; simpl; unfold sub_vault_cmp.
  - intros a b _ _. solve_cmp.
  - intros a b c _ _ _. solve_cmp.
  - intros a b _ _. rewrite !Z.eqb_eq. solve_cmp.
Qed.

#[export] Instance depositor_seat_order : PayloadOrder (λ _ : SubVaultDepositorSeat, True).
Proof.
  split; simpl; unfold depositor_seat_cmp.
  - intros a b _ _. solve_cmp.
  - intros a b c _ _ _. solve_cmp.
  - intros a b _ _. rewrite !andb_true_iff, !Z.eqb_eq. solve_cmp.
Qed.

#[export] Instance order_ref_order : PayloadOrder (λ _ : SubVaultOrderRef, True).
Proof.
  split; simpl; unfold sub_vault_order_ref_cmp.
  - intros a b _ _. solve_cmp.
  - intros a b c _ _ _. solve_cmp.
  - intros a b _ _. rewrite !andb_true_iff, !Z.eqb_eq. solve_cmp.
Qed.

(** ** The invariant *)

Record vault_inv (v : Vault) (V : list (Z * SubVault)) (D : list (Z * SubVaultDepositorSeat))
    (O : list (Z * SubVaultOrderRef)) (F G : list Z) : Prop := {
  vi_sub_vaults : tree_inv (λ _, True) (sub_vault_tree v) V;
  vi_seats : tree_inv (λ _, True) (depositor_seat_tree v) D;
  vi_orders : tree_inv (λ _, True) (order_ref_tree v) O;
  vi_sub_vault_free :
    free_chain (vt_dynamic v) (gv_sub_vault_free_list_head_index (vt_fixed v)) F;
  vi_node_free : free_chain (vt_dynamic v) (gv_node_free_list_head_index (vt_fixed v)) G;
  vi_free_nodup : NoDup (F ++ G) }.

(** Two blocks of different kinds are different. *)
Ltac vault_clash :=
  repeat match goal with
  | Hv : vault_inv _ _ _ _ _ _, H : ?j ∈ ?X.*1 |- _ =>
      first [ apply (tree_ids_node _ _ _ _ (vi_sub_vaults _ _ _ _ _ _ Hv)) in H as (? & H & _)
            | apply (tree_ids_node _ _ _ _ (vi_seats _ _ _ _ _ _ Hv)) in H as (? & H & _)
            | apply (tree_ids_node _ _ _ _ (vi_orders _ _ _ _ _ _ Hv)) in H as (? & H & _) ]
  | Hv : vault_inv _ _ _ _ _ _, H : ?j ∈ _ |- _ =>
      first [ apply (free_chain_block _ _ _ _ (vi_sub_vault_free _ _ _ _ _ _ Hv)) in H as (? & H & _)
            | apply (free_chain_block _ _ _ _ (vi_node_free _ _ _ _ _ _ Hv)) in H as (? & H & _) ]
  end; simpl in *; congruence.

Section vault_inv.
Implicit Types (v : Vault) (V : list (Z * SubVault)) (D : list (Z * SubVaultDepositorSeat)).
Implicit Types (O : list (Z * SubVaultOrderRef)) (F G : list Z) (i id : Z) (p : SubVault).

Lemma get_sub_vault_inv v V D O F G i p :
  vault_inv v V D O F G → (i, p) ∈ V → get_sub_vault v i = Ok p.
Proof. intros Hv Hi. apply (tree_inv_node _ _ _ _ _ (vi_sub_vaults _ _ _ _ _ _ Hv) Hi). Qed.

(** Looking a sub-vault up by its identifier. *)
Lemma lookup_sub_vault_inv v V D O F G id : vault_inv v V D O F G →
  ∃ j, lookup_sub_vault v id = Ok j
    ∧ (j ≠ NIL → ∃ p, (j, p) ∈ V ∧ sv_sub_vault_id p = id)
    ∧ (∀ i p, (i, p) ∈ V → sv_sub_vault_id p = id → j ≠ NIL).
Proof.
  intros Hv. destruct (lookup_tree_inv (λ _, True) _ _ (sub_vault_new_empty id Pubkey_default 1 1)
    (vi_sub_vaults _ _ _ _ _ _ Hv)) as (j & Hj & Hs & Hc); [done|].
  exists j. split_and!; [done| |].
  - intros Hn. destruct (Hs Hn) as (p & Hp & Hcmp). exists p. split; [done|].
    by apply Z.compare_eq_iff in Hcmp.
  - intros i p Hi Hid. apply (Hc i p Hi). by apply Z.compare_eq_iff.
Qed.

Lemma modify_sub_vault_inv v V D O F G i p p' f :
  vault_inv v V D O F G → (i, p) ∈ V → f p = Ok p' → sv_sub_vault_id p' = sv_sub_vault_id p →
  ∃ v', modify_sub_vault v i f = Ok v' ∧ vault_inv v' (set_entry i p' V) D O F G
    ∧ vt_fixed v' = vt_fixed v.
Proof.
  intros Hv Hi Hf Hid.
  destruct (tree_inv_modify_value _ _ _ _ _ p' f (vi_sub_vaults _ _ _ _ _ _ Hv) Hi Hf I)
    as (d' & Hd & Ht & _ & Ho).
  { intros y _. simpl. unfold sub_vault_cmp. by rewrite Hid. }
  unfold modify_sub_vault. simpl in Hd. rewrite Hd. cbn [mbind result_bind mret result_ret].
  eexists. split; [done|]. split; [|done].
  assert (i ∈ V.*1) as HiV by (apply list_elem_of_fmap; by exists (i, p)).
  assert (∀ j, j ∈ D.*1 ∨ j ∈ O.*1 ∨ j ∈ F ∨ j ∈ G → j ∉ [i]) as Hx.
  { intros j Hj ->%list_elem_of_singleton. clear Hi. destruct Hj as [Hj|[Hj|[Hj|Hj]]]; vault_clash. }
  destruct Hv as [_ Hd' Ho' Hf1 Hf2 Hnd]. split; simpl.
  - done.
  - eapply tree_inv_outside'; [exact Hd'|done|done|exact Ho|auto].
  - eapply tree_inv_outside'; [exact Ho'|done|done|exact Ho|auto].
  - eapply free_chain_outside; [exact Hf1|exact Ho|auto].
  - eapply free_chain_outside; [exact Hf2|exact Ho|auto].
  - done.
Qed.
End vault_inv.

(** ** Deciding the invariant of a concrete vault *)

Definition check_vault (v : Vault) (V : list (Z * SubVault)) (D : list (Z * SubVaultDepositorSeat))
    (O : list (Z * SubVaultOrderRef)) (F G : list Z) : Prop :=
  check_tree (λ _, true) (sub_vault_tree v) = Some V
  ∧ check_tree (λ _, true) (depositor_seat_tree v) = Some D
  ∧ check_tree (λ _, true) (order_ref_tree v) = Some O
  ∧ read_free (size (vt_dynamic v)) (vt_dynamic v)
      (gv_sub_vault_free_list_head_index (vt_fixed v)) = Some F
  ∧ read_free (size (vt_dynamic v)) (vt_dynamic v)
      (gv_node_free_list_head_index (vt_fixed v)) = Some G
  ∧ bool_decide (NoDup (F ++ G)) = true.

Lemma check_vault_inv v V D O F G : check_vault v V D O F G → vault_inv v V D O F G.
Proof.
  intros (H1 & H2 & H3 & H4 & H5 & H6). split.
  - by apply (check_tree_inv _ (λ _, true)).
  - by apply (check_tree_inv _ (λ _, true)).
  - by apply (check_tree_inv _ (λ _, true)).
  - by eapply read_free_chain.
  - by eapply read_free_chain.
  - by apply bool_decide_eq_true in H6.
Qed.

(** ** Capacity and reservation *)

Section capacity.
Implicit Types (v : Vault) (V : list (Z * SubVault)) (D : list (Z * SubVaultDepositorSeat)).
Implicit Types (O : list (Z * SubVaultOrderRef)) (F G : list Z) (i id : Z) (p : SubVault).

(** What a sub-vault has lent out or promised. *)
Definition committed p : Z := sv_deployed_principal_atoms p + sv_encumbered_in_orders_atoms p.

(** A fill on [p]: the atoms are encumbered and one loan is open. *)
Definition filled p (atoms : Z) : SubVault :=
  p <| sv_encumbered_in_orders_atoms := sv_encumbered_in_orders_atoms p + atoms |>
    <| sv_open_loans_count := sv_open_loans_count p + 1 |>.

Definition total_encumbered V : Z :=
  foldr (λ e n, sv_encumbered_in_orders_atoms e.2 + n) 0 V.

Lemma sub_vault_idle_le p : 0 <= sv_encumbered_in_orders_atoms p →
  0 <= sub_vault_idle p
  ∧ (0 < sub_vault_idle p →
     committed p + sub_vault_idle p + MARGINFI_ROUNDING_RESERVE_ATOMS <= sv_total_principal_atoms p).
Proof.
  unfold sub_vault_idle, committed, MARGINFI_ROUNDING_RESERVE_ATOMS, saturating_sub. lia.
Qed.

(** Reserving on the sub-vault a lookup has found. *)
Lemma reserve_fill_inv v V D O F G id j p atoms :
  vault_inv v V D O F G → lookup_sub_vault v id = Ok j → j ≠ NIL → (j, p) ∈ V →
  returns (reserve_fill v id atoms) (λ v',
    vault_inv v' (set_entry j (filled p atoms) V) D O F G ∧ vt_fixed v' = vt_fixed v).
Proof.
  intros Hv Hj Hn Hp. unfold reserve_fill. rewrite Hj. cbn [mbind result_bind].
  rewrite (proj2 (Z.eqb_neq _ _) Hn). unfold modify_sub_vault.
  match goal with |- context [modify_value _ _ ?g] => set (f := g) end.
  destruct (f p) as [p'|e] eqn:Hf.
  - destruct (modify_sub_vault_inv v V D O F G j p p' f Hv Hp Hf) as (v' & Hm & Hv' & Hfix).
    { subst f. simpl in Hf. inv_ok. by subst. }
    unfold modify_sub_vault in Hm. rewrite Hm. simpl. split; [|done].
    assert (p' = filled p atoms) as <-; [|done]. subst f. simpl in Hf. inv_ok. by subst.
  - destruct (tree_inv_block _ _ _ _ _ (vi_sub_vaults _ _ _ _ _ _ Hv) Hp) as (_ & n & Hn' & Hval).
    simpl in Hn'. unfold modify_value.
    assert (region_get (vt_dynamic v) j = Ok n) as -> by (by apply region_get_Ok).
    cbn [mbind result_bind]. rewrite Hval, Hf. cbn [mbind result_bind returns].
    intros ->. subst f. cbv beta in Hf. apply bind_Err in Hf as [[_ [=]]%ok_or_Err|(c & _ & Hf)].
    by apply bind_Err in Hf as [[_ [=]]%ok_or_Err|(c' & _ & [=])].
Qed.

(** Iterating [set_entry] sums. *)
Lemma total_encumbered_set V i p p' : NoDup V.*1 → (i, p) ∈ V →
  total_encumbered (set_entry i p' V)
  = total_encumbered V - sv_encumbered_in_orders_atoms p + sv_encumbered_in_orders_atoms p'.
Proof.
  induction V as [|[j q] V IH]; [by intros _ ?%not_elem_of_nil|]. cbn [fmap list_fmap].
  intros [Hj Hnd]%NoDup_cons Hi. unfold set_entry in *. cbn [fmap list_fmap total_encumbered foldr].
  apply elem_of_cons in Hi as [[= <- <-]|Hi].
  - rewrite decide_True by done. cbn [snd]. fold (total_encumbered V).
    pose proof (set_entry_absent i p' V Hj) as He. unfold set_entry in He. rewrite He.
    fold (total_encumbered V). lia.
  - rewrite decide_False; [|intros <-; apply Hj, list_elem_of_fmap; by exists (j, p)].
    cbn [snd]. specialize (IH Hnd Hi). unfold total_encumbered in *. lia.
Qed.
End capacity.
