(* ===== verification/Matching.v ===== *)
(** * The matching engine ([state/market_helpers.rs])

    The three scans that mint loans ([match_order], the P2Pool refinance and the
    resting-bid take), the borrower's placement, the vault ask, cancel and update.
    The vault account a scan reserves on is passed and returned like the market.
    Logs are dropped: they are output only. *)
From stdpp Require Import base numbers list option gmap.
From S2P Require Import Prelude FixedPoint Loan Ltv SubVault Hypertree Market.
From S2P Require Import VaultTrees.
Local Open Scope Z_scope.

Definition RESIDUAL_MODE_P2POOL_FALLBACK : Z := 0.
Definition RESIDUAL_MODE_REST : Z := 1.
Definition RESIDUAL_MODE_DROP : Z := 2.

(** [assert_can_take]. *)
Definition assert_can_take (t : OrderType) : result unit :=
  require (negb (bool_decide (t = PostOnly))) PostOnlyWouldCross.

(** [assert_not_already_expired]. *)
Definition assert_not_already_expired (last_valid_unix_ts now : Z) : result unit :=
  if negb (last_valid_unix_ts =? 0) && (last_valid_unix_ts <? now)
  then Err OrderAlreadyExpired else Ok tt.

(** ** Inputs and outputs *)

Record MatchArgs := mkMatchArgs {
  ma_taker_seat_index : Z;
  ma_rate_bps : Z;
  ma_term_seconds : Z;
  ma_principal_atoms : Z;
  ma_collateral_atoms : Z;
  ma_order_type : OrderType;
  ma_now_unix_ts : Z;
  ma_fee_floor_bps : Z;
  ma_taker_share_price_snapshot_fp48 : Fp48;
  ma_debt_oracle_price_fp48 : Fp48;
  ma_collateral_oracle_price_fp48 : Fp48;
  ma_ask_floor_rate_bps : Z;
  ma_ltv_buffer_bps : Z }.

Inductive ResidualAction := Drop | P2PoolBorrow | Rest.

#[export] Instance ResidualAction_eq_dec : EqDecision ResidualAction.
Proof. solve_decision. Defined.

Record MatchResult := mkMatchResult {
  mr_remaining_principal : Z;
  mr_remaining_collateral : Z;
  mr_total_filled_principal : Z;
  mr_num_fills : Z;
  mr_residual_action : ResidualAction }.

#[export] Instance eta_MatchResult : Eta MatchResult := λ r,
  mkMatchResult (mr_remaining_principal r) (mr_remaining_collateral r)
    (mr_total_filled_principal r) (mr_num_fills r) (mr_residual_action r).

(** ** What the scans share *)

(** What a scan reads off the ask's sub-vault: its idle capacity and its terms;
    an absent or sunset sub-vault has none. *)
Record AskCapacity := mkAskCapacity {
  ac_idle : Z;
  ac_max_ltv_bps : Z;
  ac_liquidation_ltv_bps : Z;
  ac_max_term_seconds : Z;
  ac_curator_fee_bps : Z;
  ac_curator : Pubkey }.

Definition read_ask_capacity (v : Vault) (sub_vault_id : Z) : result AskCapacity :=
  idx ← lookup_sub_vault v sub_vault_id;
  if idx =? NIL then Ok (mkAskCapacity 0 0 0 0 0 Pubkey_default) else
  p ← get_sub_vault v idx;
  if negb (sv_is_sunset p =? 0) then Ok (mkAskCapacity 0 0 0 0 0 Pubkey_default) else
  mret (mkAskCapacity (sub_vault_idle p) (sv_max_ltv_bps p) (sv_liquidation_ltv_bps p)
          (sv_max_term_seconds p) (sv_curator_fee_bps p) (sv_curator p)).

(** The rate the borrower pays: its own bid, or the ask plus the protocol floor. *)
Definition floored_borrower_rate (bid_rate ask_rate fee_floor_bps : Z) : result Z :=
  let floored_lender_rate := ask_rate + fee_floor_bps in
  _ ← require (floored_lender_rate <=? umax U16) InvalidArgument;
  mret (Z.max bid_rate floored_lender_rate).

Definition next_maker_index (m : Market) (current : Z) : result Z :=
  get_next_lower_index (V:=RestingOrder) (asks_tree m) current.

(** ** [match_order] *)

(** The variables the scan carries. *)
Record MatchState := mkMatchState {
  ms_market : Market;
  ms_vault : option Vault;
  ms_remaining_principal : Z;
  ms_remaining_collateral : Z;
  ms_total_filled : Z;
  ms_num_fills : Z }.

(** What the body does with one maker: walk on, stop the scan, or fill. *)
Inductive ScanStep (S : Type) :=
  | Skip
  | Break
  | Filled (s : S).
Arguments Skip {S}.
Arguments Break {S}.
Arguments Filled {S} s.

(** The node minted for a fill of [match_order]. *)
Definition matched_loan_of (args : MatchArgs) (maker : RestingOrder) (cap : AskCapacity)
    (effective_cap sequence principal origination collateral borrower_rate : Z) : MatchedLoan :=
  {| ml_sequence := sequence;
     ml_borrower_marginfi_borrow_shares := 0;
     ml_principal_atoms := principal;
     ml_origination_atoms := origination;
     ml_collateral_atoms := collateral;
     ml_matched_at_unix := ma_now_unix_ts args;
     ml_lender_seat_index := ro_trader_seat_index maker;
     ml_borrower_seat_index := ma_taker_seat_index args;
     ml_term_seconds := ma_term_seconds args;
     ml_borrower_rate_bps := borrower_rate;
     ml_lender_rate_bps := ro_rate_bps maker;
     ml_loan_type := 0;
     ml_flags := MATCHED_LOAN_FLAG_VAULT_LENDER;
     ml_curator_fee_bps_snapshot := ac_curator_fee_bps cap;
     ml_origination_ltv_bps := effective_cap;
     ml_liquidation_ltv_bps := ac_liquidation_ltv_bps cap;
     ml_lender_debt_share_price_snapshot_fp48 := ro_share_price_snapshot maker;
     ml_borrower_collateral_share_price_snapshot_fp48 :=
       ma_taker_share_price_snapshot_fp48 args |}.

(** The tail of the body, once every gate has passed: reserve, mint, count. *)
Definition fill_ask (args : MatchArgs) (s : MatchState) (v : Vault) (maker : RestingOrder)
    (sub_vault_id : Z) (cap : AskCapacity) (effective_cap matched collateral : Z)
    : result MatchState :=
  let m := ms_market s in
  v ← reserve_fill v sub_vault_id matched;
  borrower_rate ← floored_borrower_rate (ma_rate_bps args) (ro_rate_bps maker)
                    (ma_fee_floor_bps args);
  origination ← mul_div_u64 matched (fc_origination_bps (mf_fee_config (mk_fixed m)))
                  BPS_PER_UNIT false;
  let node := matched_loan_of args maker cap effective_cap
                (mf_matched_loan_sequence (mk_fixed m)) matched origination collateral
                borrower_rate in
  '(m, _) ← mint_matched_loan m node;
  m ← modify_seat m (ma_taker_seat_index args) bump_open_borrow;
  m ← modify_seat m (ro_trader_seat_index maker) bump_open_lend;
  remaining ← ok_or (checked_sub (ms_remaining_principal s) matched) ArithmeticOverflow;
  total ← ok_or (checked_add U64 (ms_total_filled s) matched) ArithmeticOverflow;
  mret {| ms_market := m; ms_vault := Some v;
          ms_remaining_principal := remaining;
          ms_remaining_collateral :=
            default 0 (checked_sub (ms_remaining_collateral s) collateral);
          ms_total_filled := total;
          ms_num_fills := saturating_add U32 (ms_num_fills s) 1 |}.

(** The body of the scan on one maker. *)
Definition match_maker (args : MatchArgs) (s : MatchState) (maker : RestingOrder)
    : result (ScanStep MatchState) :=
  let m := ms_market s in
  if order_is_expired maker (ma_now_unix_ts args) then Ok Skip else
  if ro_rate_bps maker <? ma_ask_floor_rate_bps args then
    _ ← get_seat m (ro_trader_seat_index maker); Ok Skip
  else
  if ro_trader_seat_index maker =? ma_taker_seat_index args then Ok Skip else
  if ma_rate_bps args <? ro_rate_bps maker then Ok Break else
  if ro_term_seconds maker <? ma_term_seconds args then Ok Skip else
  _ ← (if negb (order_type_can_take (ma_order_type args))
       then assert_can_take (ma_order_type args) else Ok tt);
  lender_seat ← get_seat m (ro_trader_seat_index maker);
  _ ← require (cs_owner_kind lender_seat =? OWNER_KIND_SUB_VAULT) IncorrectAccount;
  match ms_vault s with
  | None => Ok Skip
  | Some v =>
    let sub_vault_id := cs_sub_vault_id lender_seat in
    cap ← read_ask_capacity v sub_vault_id;
    if ac_idle cap =? 0 then Ok Skip else
    if (0 <? ac_max_term_seconds cap) && (ac_max_term_seconds cap <? ro_term_seconds maker)
    then Ok Skip else
    let matched := Z.min (ms_remaining_principal s) (ac_idle cap) in
    taker_seat ← get_seat m (ma_taker_seat_index args);
    if ac_curator cap =? cs_owner taker_seat then Ok Skip else
    matched_collateral_taker ←
      (if matched =? ms_remaining_principal s then Ok (ms_remaining_collateral s)
       else mul_div_u64 matched (ma_collateral_atoms args) (ma_principal_atoms args) false);
    collateral ← ok_or (checked_add U64 matched_collateral_taker 0) ArithmeticOverflow;
    let effective_cap := effective_origination_cap_bps (ac_max_ltv_bps cap)
                           (ma_ltv_buffer_bps args) in
    required ← required_collateral_at_ltv_cap matched (ma_debt_oracle_price_fp48 args)
                 (ma_collateral_oracle_price_fp48 args) effective_cap
                 (mf_debt_mint_decimals (mk_fixed m)) (mf_collateral_mint_decimals (mk_fixed m));
    if collateral <? required then Ok Skip else
    Filled <$> fill_ask args s v maker sub_vault_id cap effective_cap matched collateral
  end.

Fixpoint match_loop (fuel : nat) (args : MatchArgs) (s : MatchState) (current : Z)
    : result MatchState :=
  if (0 <? ms_remaining_principal s) && negb (current =? NIL) then
    match fuel with
    | O => Err Panic
    | S fuel =>
        maker ← get_order (ms_market s) current;
        step ← match_maker args s maker;
        match step with
        | Break => Ok s
        | Skip =>
            next ← next_maker_index (ms_market s) current;
            match_loop fuel args s next
        | Filled s =>
            next ← next_maker_index (ms_market s) current;
            match_loop fuel args s next
        end
    end
  else Ok s.

Definition match_order (m : Market) (args : MatchArgs) (vault : option Vault)
    : result (Market * option Vault * MatchResult) :=
  s ← match_loop (fuel_of (asks_tree m)) args
        (mkMatchState m vault (ma_principal_atoms args) (ma_collateral_atoms args) 0 0)
        (mf_asks_best_index (mk_fixed m));
  mret (ms_market s, ms_vault s,
        mkMatchResult (ms_remaining_principal s) (ms_remaining_collateral s) (ms_total_filled s)
          (ms_num_fills s) Drop).

(** ** [match_borrower_bid] *)

Record PlaceOrderArgs := mkPlaceOrderArgs {
  pa_taker_seat_index : Z;
  pa_rate_bps : Z;
  pa_term_seconds : Z;
  pa_principal_atoms : Z;
  pa_collateral_atoms : Z;
  pa_residual_mode : Z;
  pa_last_valid_unix_ts : Z;
  pa_now_unix_ts : Z;
  pa_share_price_snapshot_fp48 : Fp48;
  pa_debt_oracle_price_fp48 : Fp48;
  pa_collateral_oracle_price_fp48 : Fp48;
  pa_debt_liability_weight_init_fp48 : Fp48;
  pa_collateral_asset_weight_init_fp48 : Fp48;
  pa_ask_floor_rate_bps : Z;
  pa_ltv_buffer_bps : Z }.

Record PlaceOrderResult := mkPlaceOrderResult {
  po_sequence : Z;
  po_match_result : MatchResult;
  po_p2pool_loan_index : Z;
  po_p2pool_loan_sequence : Z;
  po_rested : bool }.

Definition match_args_of (args : PlaceOrderArgs) (fee_floor_bps : Z) : MatchArgs :=
  mkMatchArgs (pa_taker_seat_index args) (pa_rate_bps args) (pa_term_seconds args)
    (pa_principal_atoms args) (pa_collateral_atoms args) ImmediateOrCancel
    (pa_now_unix_ts args) fee_floor_bps (pa_share_price_snapshot_fp48 args)
    (pa_debt_oracle_price_fp48 args) (pa_collateral_oracle_price_fp48 args)
    (pa_ask_floor_rate_bps args) (pa_ltv_buffer_bps args).

(** An unknown mode byte falls through to the marginfi borrow. *)
Definition residual_action_of (mode remaining_principal : Z) : ResidualAction :=
  if remaining_principal =? 0 then Drop
  else if mode =? RESIDUAL_MODE_REST then Rest
  else if mode =? RESIDUAL_MODE_DROP then Drop
  else P2PoolBorrow.

(** [order_sequence_number] is read, then advanced. *)
Definition take_order_sequence (m : Market) : result (Market * Z) :=
  let seq := mf_order_sequence_number (mk_fixed m) in
  next ← ok_or (checked_add U64 seq 1) ArithmeticOverflow;
  mret (m <| mk_fixed ::= λ f, f <| mf_order_sequence_number := next |> |>, seq).

(** The [P2PoolBorrow] arm: the residual becomes a variable-rate loan node. *)
Definition p2pool_residual (m : Market) (args : PlaceOrderArgs) (r : MatchResult)
    : result (Market * Z * Z) :=
  required ← get_required_quote_collateral_to_back_debt (mr_remaining_principal r)
    (pa_debt_oracle_price_fp48 args) (pa_collateral_oracle_price_fp48 args)
    (pa_debt_liability_weight_init_fp48 args) (pa_collateral_asset_weight_init_fp48 args)
    (mf_debt_mint_decimals (mk_fixed m)) (mf_collateral_mint_decimals (mk_fixed m));
  _ ← require (required <=? mr_remaining_collateral r) FallbackLtvInsufficient;
  m ← modify_seat m (pa_taker_seat_index args) bump_open_borrow;
  origination ← mul_div_u64 (mr_remaining_principal r)
                  (fc_origination_bps (mf_fee_config (mk_fixed m))) BPS_PER_UNIT false;
  let sequence := mf_matched_loan_sequence (mk_fixed m) in
  let node :=
    {| ml_sequence := sequence;
       ml_borrower_marginfi_borrow_shares := 0;
       ml_principal_atoms := mr_remaining_principal r;
       ml_origination_atoms := origination;
       ml_collateral_atoms := mr_remaining_collateral r;
       ml_matched_at_unix := pa_now_unix_ts args;
       ml_lender_seat_index := NIL;
       ml_borrower_seat_index := pa_taker_seat_index args;
       ml_term_seconds := pa_term_seconds args;
       ml_borrower_rate_bps := pa_rate_bps args;
       ml_lender_rate_bps := pa_rate_bps args;
       ml_loan_type := 1;
       ml_flags := 0;
       ml_curator_fee_bps_snapshot := 0;
       ml_origination_ltv_bps := 0;
       ml_liquidation_ltv_bps := 0;
       ml_lender_debt_share_price_snapshot_fp48 := fp48_ZERO;
       ml_borrower_collateral_share_price_snapshot_fp48 := pa_share_price_snapshot_fp48 args |} in
  '(m, node_index) ← mint_matched_loan m node;
  mret (m, node_index, sequence).

(** The [Rest] arm: the residual becomes a resting bid. *)
Definition rest_residual (m : Market) (args : PlaceOrderArgs) (r : MatchResult) (seq : Z)
    : result Market :=
  '(m, order_index) ← get_free_address m;
  _ ← require (negb (order_index =? NIL)) AccountDataTooSmall;
  rest_order m order_index
    (new_primary (pa_taker_seat_index args) seq Bid Limit (pa_rate_bps args)
       (pa_term_seconds args) (mr_remaining_principal r) (mr_remaining_collateral r)
       (pa_last_valid_unix_ts args) 0 (pa_ltv_buffer_bps args)
       (pa_share_price_snapshot_fp48 args)).

(** Releases what [encumber_for_order] locked for these atoms. *)
Definition unencumber_atoms (m : Market) (seat_index : Z) (side : Side)
    (principal_atoms collateral_atoms : Z) (snapshot : Fp48) : result Market :=
  principal_shares ← atoms_to_shares_at_snapshot principal_atoms snapshot;
  collateral_shares ← atoms_to_shares_at_snapshot collateral_atoms snapshot;
  unencumber_for_order m seat_index side principal_shares collateral_shares.

Definition match_borrower_bid (m : Market) (args : PlaceOrderArgs) (vault : option Vault)
    : result (Market * option Vault * PlaceOrderResult) :=
  _ ← require (MIN_PRINCIPAL_ATOMS <=? pa_principal_atoms args) CollateralInsufficient;
  _ ← require (0 <? pa_term_seconds args) TermNotCompatible;
  _ ← require (0 <? pa_collateral_atoms args) CollateralInsufficient;
  let snapshot := pa_share_price_snapshot_fp48 args in
  principal_shares ← atoms_to_shares_at_snapshot (pa_principal_atoms args) snapshot;
  collateral_shares ← atoms_to_shares_at_snapshot (pa_collateral_atoms args) snapshot;
  m ← encumber_for_order m (pa_taker_seat_index args) Bid principal_shares collateral_shares;
  '(m, seq) ← take_order_sequence m;
  '(m, vault, r) ← match_order m
    (match_args_of args (fc_protocol_fee_bps_floor (mf_fee_config (mk_fixed m)))) vault;
  let r := r <| mr_residual_action :=
                  residual_action_of (pa_residual_mode args) (mr_remaining_principal r) |> in
  if 0 <? mr_remaining_principal r then
    match mr_residual_action r with
    | P2PoolBorrow =>
        '(m, index, sequence) ← p2pool_residual m args r;
        mret (m, vault, mkPlaceOrderResult seq r index sequence false)
    | Rest =>
        m ← rest_residual m args r seq;
        mret (m, vault, mkPlaceOrderResult seq r NIL 0 true)
    | Drop =>
        m ← unencumber_atoms m (pa_taker_seat_index args) Bid (mr_remaining_principal r)
              (mr_remaining_collateral r) snapshot;
        mret (m, vault, mkPlaceOrderResult seq r NIL 0 false)
    end
  else Ok (m, vault, mkPlaceOrderResult seq r NIL 0 false).

(** ** Vault asks, cancel and update *)

Record RestVaultAskArgs := mkRestVaultAskArgs {
  va_maker_seat_index : Z;
  va_rate_bps : Z;
  va_term_seconds : Z;
  va_flags : Z;
  va_now_unix_ts : Z }.

Definition rest_vault_ask (m : Market) (args : RestVaultAskArgs) : result (Market * Z) :=
  _ ← require (0 <? va_term_seconds args) TermNotCompatible;
  m ← modify_seat m (va_maker_seat_index args) bump_open_lend;
  '(m, seq) ← take_order_sequence m;
  '(m, order_index) ← get_free_address m;
  _ ← require (negb (order_index =? NIL)) AccountDataTooSmall;
  m ← rest_order m order_index
    (new_primary (va_maker_seat_index args) seq Ask PostOnly (va_rate_bps args)
       (va_term_seconds args) (umax U64) 0 NO_EXPIRATION_LAST_VALID_UNIX_TS (va_flags args) 0
       fp48_ZERO);
  mret (m, seq).

Definition order_matches (m : Market) (seat sequence idx : Z) : result bool :=
  o ← get_order m idx;
  mret ((ro_trader_seat_index o =? seat) && (ro_sequence_number o =? sequence)).

(** The first index of a scan whose order matches. *)
Fixpoint find_order (m : Market) (seat sequence : Z) (l : list Z) : result (option Z) :=
  match l with
  | [] => Ok None
  | idx :: l =>
      found ← order_matches m seat sequence idx;
      if found : bool then Ok (Some idx) else find_order m seat sequence l
  end.

Definition lookup_order_by_seq (m : Market) (trader_seat_index sequence : Z) (hint : option Z)
    : result Z :=
  match (match hint with Some idx => if idx =? NIL then None else Some idx | None => None end) with
  | Some idx =>
      found ← order_matches m trader_seat_index sequence idx;
      if found : bool then Ok idx else Err WrongIndexHintParams
  | None =>
      asks ← iter_indices (V:=RestingOrder) (asks_tree m);
      in_asks ← find_order m trader_seat_index sequence asks;
      match in_asks with
      | Some idx => Ok idx
      | None =>
          bids ← iter_indices (V:=RestingOrder) (bids_tree m);
          in_bids ← find_order m trader_seat_index sequence bids;
          ok_or in_bids OrderNotFound
      end
  end.

Definition cancel_order_by_index (m : Market) (signer_seat_index order_index : Z)
    : result Market :=
  order ← get_order m order_index;
  _ ← require (ro_trader_seat_index order =? signer_seat_index) OrderNotOwnedBySigner;
  seat ← get_seat m (ro_trader_seat_index order);
  if cs_owner_kind seat =? OWNER_KIND_SUB_VAULT then
    m ← modify_seat m (ro_trader_seat_index order) drop_open_lend;
    remove_order_from_tree_and_free m order_index
  else
    let side := if ro_side order =? Side_as_u8 Bid then Bid else Ask in
    m ← unencumber_atoms m (ro_trader_seat_index order) side (ro_principal_atoms order)
          (ro_collateral_atoms order) (ro_share_price_snapshot order);
    remove_order_from_tree_and_free m order_index.

Definition update_user_bid (m : Market) (signer_seat_index order_index new_rate_bps
    new_term_seconds new_last_valid_unix_ts new_ltv_buffer_bps now_unix_ts : Z)
    : result (Market * Z) :=
  order ← get_order m order_index;
  _ ← require (ro_trader_seat_index order =? signer_seat_index) OrderNotOwnedBySigner;
  _ ← require (ro_side order =? Side_as_u8 Bid) IncorrectAccount;
  _ ← require (0 <? new_term_seconds) TermNotCompatible;
  _ ← require ((new_last_valid_unix_ts =? NO_EXPIRATION_LAST_VALID_UNIX_TS)
               || (now_unix_ts <? new_last_valid_unix_ts)) InvalidArgument;
  t ← remove_by_index (V:=RestingOrder) (bids_tree m) order_index;
  let m := put_bids m t in
  '(m, seq) ← take_order_sequence m;
  m ← rest_order m order_index
    (new_primary (ro_trader_seat_index order) seq Bid Limit new_rate_bps new_term_seconds
       (ro_principal_atoms order) (ro_collateral_atoms order) new_last_valid_unix_ts
       (ro_flags order) new_ltv_buffer_bps (ro_share_price_snapshot order));
  mret (m, seq).

(** ** [match_p2pool_residual_against_asks] *)

Record MatchP2PoolRefinanceArgs := mkRefinanceArgs {
  ra_borrower_seat_index : Z;
  ra_principal_cap_atoms : Z;
  ra_loan_collateral_atoms : Z;
  ra_borrower_collateral_share_price_snapshot_fp48 : Fp48;
  ra_term_remaining_seconds : Z;
  ra_max_acceptable_rate_bps : Z;
  ra_fee_floor_bps : Z;
  ra_now_unix_ts : Z;
  ra_debt_oracle_price_fp48 : Fp48;
  ra_collateral_oracle_price_fp48 : Fp48;
  ra_debt_mint_decimals : Z;
  ra_collateral_mint_decimals : Z;
  ra_ask_floor_rate_bps : Z;
  ra_ltv_buffer_bps : Z }.

Record P2PoolRefinanceCross := mkCross {
  cr_lender_sub_vault_id : Z;
  cr_lender_rate_bps : Z;
  cr_filled_principal_atoms : Z }.

Record RefinanceState := mkRefinanceState {
  rs_market : Market;
  rs_vault : option Vault;
  rs_remaining_principal : Z;
  rs_total_filled_principal : Z;
  rs_total_filled_collateral : Z;
  rs_num_fills : Z;
  rs_crosses : list P2PoolRefinanceCross }.

Definition refinance_fill (args : MatchP2PoolRefinanceArgs) (s : RefinanceState) (v : Vault)
    (maker : RestingOrder) (sub_vault_id : Z) (cap : AskCapacity) (matched : Z)
    : result RefinanceState :=
  let m := rs_market s in
  v ← reserve_fill v sub_vault_id matched;
  collateral ← mul_div_u64 (ra_loan_collateral_atoms args) matched (ra_principal_cap_atoms args)
                 false;
  borrower_rate ← floored_borrower_rate (ra_max_acceptable_rate_bps args) (ro_rate_bps maker)
                    (ra_fee_floor_bps args);
  let node :=
    {| ml_sequence := mf_matched_loan_sequence (mk_fixed m);
       ml_borrower_marginfi_borrow_shares := 0;
       ml_principal_atoms := matched;
       ml_origination_atoms := 0;
       ml_collateral_atoms := collateral;
       ml_matched_at_unix := ra_now_unix_ts args;
       ml_lender_seat_index := ro_trader_seat_index maker;
       ml_borrower_seat_index := ra_borrower_seat_index args;
       ml_term_seconds := ra_term_remaining_seconds args;
       ml_borrower_rate_bps := borrower_rate;
       ml_lender_rate_bps := ro_rate_bps maker;
       ml_loan_type := 0;
       ml_flags := Z.lor MATCHED_LOAN_FLAG_VAULT_PRESETTLED MATCHED_LOAN_FLAG_VAULT_LENDER;
       ml_curator_fee_bps_snapshot := ac_curator_fee_bps cap;
       ml_origination_ltv_bps :=
         effective_origination_cap_bps (ac_max_ltv_bps cap) (ra_ltv_buffer_bps args);
       ml_liquidation_ltv_bps := ac_liquidation_ltv_bps cap;
       ml_lender_debt_share_price_snapshot_fp48 := ro_share_price_snapshot maker;
       ml_borrower_collateral_share_price_snapshot_fp48 :=
         ra_borrower_collateral_share_price_snapshot_fp48 args |} in
  '(m, _) ← mint_matched_loan m node;
  m ← modify_seat m (ro_trader_seat_index maker) bump_open_lend;
  remaining ← ok_or (checked_sub (rs_remaining_principal s) matched) ArithmeticOverflow;
  total ← ok_or (checked_add U64 (rs_total_filled_principal s) matched) ArithmeticOverflow;
  total_collateral ← ok_or (checked_add U64 (rs_total_filled_collateral s) collateral)
                       ArithmeticOverflow;
  mret {| rs_market := m; rs_vault := Some v;
          rs_remaining_principal := remaining;
          rs_total_filled_principal := total;
          rs_total_filled_collateral := total_collateral;
          rs_num_fills := saturating_add U32 (rs_num_fills s) 1;
          rs_crosses := rs_crosses s ++ [mkCross sub_vault_id (ro_rate_bps maker) matched] |}.

Definition refinance_maker (args : MatchP2PoolRefinanceArgs) (s : RefinanceState)
    (maker : RestingOrder) : result (ScanStep RefinanceState) :=
  let m := rs_market s in
  if order_is_expired maker (ra_now_unix_ts args) then Ok Skip else
  if ro_rate_bps maker <? ra_ask_floor_rate_bps args then
    _ ← get_seat m (ro_trader_seat_index maker); Ok Skip
  else
  if ro_trader_seat_index maker =? ra_borrower_seat_index args then Ok Skip else
  if ra_max_acceptable_rate_bps args <? ro_rate_bps maker then Ok Break else
  if ro_term_seconds maker <? ra_term_remaining_seconds args then Ok Skip else
  lender_seat ← get_seat m (ro_trader_seat_index maker);
  _ ← require (cs_owner_kind lender_seat =? OWNER_KIND_SUB_VAULT) IncorrectAccount;
  match rs_vault s with
  | None => Ok Skip
  | Some v =>
    let sub_vault_id := cs_sub_vault_id lender_seat in
    cap ← read_ask_capacity v sub_vault_id;
    if ac_idle cap =? 0 then Ok Skip else
    let matched := Z.min (rs_remaining_principal s) (ac_idle cap) in
    borrower_seat ← get_seat m (ra_borrower_seat_index args);
    if ac_curator cap =? cs_owner borrower_seat then Ok Skip else
    gate_collateral ← mul_div_u64 (ra_loan_collateral_atoms args) matched
                        (ra_principal_cap_atoms args) false;
    required ← required_collateral_at_ltv_cap matched (ra_debt_oracle_price_fp48 args)
      (ra_collateral_oracle_price_fp48 args)
      (effective_origination_cap_bps (ac_max_ltv_bps cap) (ra_ltv_buffer_bps args))
      (ra_debt_mint_decimals args) (ra_collateral_mint_decimals args);
    if gate_collateral <? required then Ok Skip else
    Filled <$> refinance_fill args s v maker sub_vault_id cap matched
  end.

Fixpoint refinance_loop (fuel : nat) (args : MatchP2PoolRefinanceArgs) (s : RefinanceState)
    (current : Z) : result RefinanceState :=
  if (0 <? rs_remaining_principal s) && negb (current =? NIL) then
    match fuel with
    | O => Err Panic
    | S fuel =>
        maker ← get_order (rs_market s) current;
        step ← refinance_maker args s maker;
        match step with
        | Break => Ok s
        | Skip =>
            next ← next_maker_index (rs_market s) current;
            refinance_loop fuel args s next
        | Filled s =>
            next ← next_maker_index (rs_market s) current;
            refinance_loop fuel args s next
        end
    end
  else Ok s.

Definition match_p2pool_residual_against_asks (m : Market) (args : MatchP2PoolRefinanceArgs)
    (vault : option Vault) : result RefinanceState :=
  refinance_loop (fuel_of (asks_tree m)) args
    (mkRefinanceState m vault (ra_principal_cap_atoms args) 0 0 0 [])
    (mf_asks_best_index (mk_fixed m)).

(** ** [match_resting_bids] *)

Record MatchRestingBidsArgs := mkRestingBidsArgs {
  ba_ask_seat_index : Z;
  ba_ask_sub_vault_id : Z;
  ba_ask_rate_bps : Z;
  ba_ask_term_seconds : Z;
  ba_ask_curator_fee_bps : Z;
  ba_sub_vault_max_ltv_bps : Z;
  ba_sub_vault_liquidation_ltv_bps : Z;
  ba_ask_curator : Pubkey;
  ba_fee_floor_bps : Z;
  ba_origination_bps : Z;
  ba_now_unix_ts : Z;
  ba_lender_debt_share_price_snapshot_fp48 : Fp48;
  ba_debt_oracle_price_fp48 : Fp48;
  ba_collateral_oracle_price_fp48 : Fp48;
  ba_debt_mint_decimals : Z;
  ba_collateral_mint_decimals : Z;
  ba_max_fills : Z }.

Record BidsState := mkBidsState {
  bs_market : Market;
  bs_vault : Vault;
  bs_total_filled_principal : Z;
  bs_num_fills : Z;
  bs_num_pruned : Z }.

#[export] Instance eta_BidsState : Eta BidsState := λ s,
  mkBidsState (bs_market s) (bs_vault s) (bs_total_filled_principal s) (bs_num_fills s)
    (bs_num_pruned s).

(** The expired-bid arm: release the collateral, free the block. *)
Definition prune_bid (s : BidsState) (current : Z) (bid : RestingOrder) : result BidsState :=
  m ← unencumber_atoms (bs_market s) (ro_trader_seat_index bid) Bid (ro_principal_atoms bid)
        (ro_collateral_atoms bid) (ro_share_price_snapshot bid);
  m ← remove_order_from_tree_and_free m current;
  mret (s <| bs_market := m |> <| bs_num_pruned ::= λ n, saturating_add U32 n 1 |>).

(** A partial fill shrinks the bid. *)
Definition shrink_bid (fill consumed_collateral : Z) (o : RestingOrder) : result RestingOrder :=
  o ← order_reduce o fill;
  c ← ok_or (checked_sub (ro_collateral_atoms o) consumed_collateral) ArithmeticOverflow;
  mret (o <| ro_collateral_atoms := c |>).

Definition fill_bid (args : MatchRestingBidsArgs) (s : BidsState) (current : Z)
    (bid : RestingOrder) (fill consumed_collateral effective_cap : Z) : result BidsState :=
  let m := bs_market s in
  v ← reserve_fill (bs_vault s) (ba_ask_sub_vault_id args) fill;
  borrower_rate ← floored_borrower_rate (ro_rate_bps bid) (ba_ask_rate_bps args)
                    (ba_fee_floor_bps args);
  origination ← mul_div_u64 fill (ba_origination_bps args) BPS_PER_UNIT false;
  let node :=
    {| ml_sequence := mf_matched_loan_sequence (mk_fixed m);
       ml_borrower_marginfi_borrow_shares := 0;
       ml_principal_atoms := fill;
       ml_origination_atoms := origination;
       ml_collateral_atoms := consumed_collateral;
       ml_matched_at_unix := ba_now_unix_ts args;
       ml_lender_seat_index := ba_ask_seat_index args;
       ml_borrower_seat_index := ro_trader_seat_index bid;
       ml_term_seconds := ro_term_seconds bid;
       ml_borrower_rate_bps := borrower_rate;
       ml_lender_rate_bps := ba_ask_rate_bps args;
       ml_loan_type := 0;
       ml_flags := MATCHED_LOAN_FLAG_VAULT_LENDER;
       ml_curator_fee_bps_snapshot := ba_ask_curator_fee_bps args;
       ml_origination_ltv_bps := effective_cap;
       ml_liquidation_ltv_bps := ba_sub_vault_liquidation_ltv_bps args;
       ml_lender_debt_share_price_snapshot_fp48 := ba_lender_debt_share_price_snapshot_fp48 args;
       ml_borrower_collateral_share_price_snapshot_fp48 := ro_share_price_snapshot bid |} in
  '(m, _) ← mint_matched_loan m node;
  m ← modify_seat m (ro_trader_seat_index bid) bump_open_borrow;
  m ← modify_seat m (ba_ask_seat_index args) bump_open_lend;
  m ← (if fill =? ro_principal_atoms bid then remove_order_from_tree_and_free m current
       else modify_order m current (shrink_bid fill consumed_collateral));
  total ← ok_or (checked_add U64 (bs_total_filled_principal s) fill) ArithmeticOverflow;
  mret (mkBidsState m v total (saturating_add U32 (bs_num_fills s) 1) (bs_num_pruned s)).

Definition match_bid (args : MatchRestingBidsArgs) (s : BidsState) (current : Z)
    (bid : RestingOrder) : result (ScanStep BidsState) :=
  let m := bs_market s in
  if order_is_expired bid (ba_now_unix_ts args) then Filled <$> prune_bid s current bid else
  if ro_trader_seat_index bid =? ba_ask_seat_index args then Ok Skip else
  bid_seat ← get_seat m (ro_trader_seat_index bid);
  if cs_owner bid_seat =? ba_ask_curator args then Ok Skip else
  if ro_rate_bps bid <? ba_ask_rate_bps args then Ok Break else
  if ba_ask_term_seconds args <? ro_term_seconds bid then Ok Skip else
  cap ← read_ask_capacity (bs_vault s) (ba_ask_sub_vault_id args);
  if ac_idle cap =? 0 then Ok Break else
  let fill := Z.min (ro_principal_atoms bid) (ac_idle cap) in
  consumed_collateral ←
    (if fill =? ro_principal_atoms bid then Ok (ro_collateral_atoms bid)
     else mul_div_u64 (ro_collateral_atoms bid) fill (ro_principal_atoms bid) false);
  let effective_cap := effective_origination_cap_bps (ba_sub_vault_max_ltv_bps args)
                         (ro_ltv_buffer_bps bid) in
  required ← required_collateral_at_ltv_cap fill (ba_debt_oracle_price_fp48 args)
    (ba_collateral_oracle_price_fp48 args) effective_cap (ba_debt_mint_decimals args)
    (ba_collateral_mint_decimals args);
  if consumed_collateral <? required then Ok Skip else
  Filled <$> fill_bid args s current bid fill consumed_collateral effective_cap.

Fixpoint bids_loop (fuel : nat) (args : MatchRestingBidsArgs) (s : BidsState) (current : Z)
    : result BidsState :=
  if negb (current =? NIL) && (bs_num_fills s <? ba_max_fills args) then
    match fuel with
    | O => Err Panic
    | S fuel =>
        bid ← get_order (bs_market s) current;
        next ← get_next_lower_index (V:=RestingOrder) (bids_tree (bs_market s)) current;
        step ← match_bid args s current bid;
        match step with
        | Break => Ok s
        | Skip => bids_loop fuel args s next
        | Filled s => bids_loop fuel args s next
        end
    end
  else Ok s.

Definition match_resting_bids (m : Market) (args : MatchRestingBidsArgs) (vault : Vault)
    : result BidsState :=
  bids_loop (fuel_of (bids_tree m)) args (mkBidsState m vault 0 0 0)
    (mf_bids_best_index (mk_fixed m)).

Definition count_resting_bids (m : Market) : result Z :=
  l ← iter_indices (V:=RestingOrder) (bids_tree m); mret (Z.of_nat (length l)).
