(* ===== verification/MatchingSpec.v ===== *)
(** * What the matching engine promises

    [scan_inv] is the invariant of the ask scan of [match_order]: what the market, the
    vault and the running totals are after the fills [fs].  [match_maker_step] takes
    it through one maker, [match_loop_spec] through the book; the properties read
    it off the final state. *)
From Stdlib Require Import Sorting.Sorted.
From stdpp Require Import base numbers list option gmap.
From S2P Require Import Prelude FixedPoint Loan Ltv SubVault Hypertree.
From S2P Require Import HypertreeFrame HypertreeSpec HypertreeOrder Market.
From S2P Require Import MarketSpec VaultTrees VaultSpec Matching.
Local Open Scope Z_scope.

(** ** What a scan leaves alone *)

(** A seat whose counters alone have moved. *)
Definition counts_only (a b : ClaimedSeat) : Prop :=
  b = a <| cs_open_borrow_count := cs_open_borrow_count b |>
        <| cs_open_lend_count := cs_open_lend_count b |>.

Definition seats_kept (S0 S : list (Z * ClaimedSeat)) : Prop :=
  Forall2 (λ e0 e, e.1 = e0.1 ∧ counts_only e0.2 e.2) S0 S.

(** A header in which loans have been minted. *)
Definition header_kept (f0 f : MarketFixed) (n : Z) : Prop :=
  ∃ h r, f = f0 <| mf_free_list_head_index := h |> <| mf_matched_loans_root_index := r |>
                <| mf_matched_loan_sequence := mf_matched_loan_sequence f0 + n |>.

(** A sub-vault on which fills have been reserved, never beyond its principal. *)
Definition reserved (p0 p : SubVault) : Prop :=
  ∃ x k, 0 <= x ∧ p = p0 <| sv_encumbered_in_orders_atoms := sv_encumbered_in_orders_atoms p0 + x |>
                         <| sv_open_loans_count := sv_open_loans_count p0 + k |>
  ∧ (0 < x → committed p + MARGINFI_ROUNDING_RESERVE_ATOMS <= sv_total_principal_atoms p)
  ∧ 0 <= k ∧ (x = 0 → k = 0).

Definition vaults_kept (V0 V : list (Z * SubVault)) : Prop :=
  Forall2 (λ e0 e, e.1 = e0.1 ∧ reserved e0.2 e.2) V0 V.

Lemma counts_only_refl s : counts_only s s.
Proof. by destruct s. Qed.
Lemma counts_only_trans a b c : counts_only a b → counts_only b c → counts_only a c.
Proof. unfold counts_only. intros H1 H2. rewrite H2, H1. by destruct a, c. Qed.
Lemma counts_only_key a b : counts_only a b → same_key b a.
Proof. intros ->. by destruct a. Qed.

Lemma counts_only_owner a b : counts_only a b → cs_owner b = cs_owner a.
Proof. by intros (_ & ? & _)%counts_only_key. Qed.

Lemma bump_open_borrow_returns s :
  returns (bump_open_borrow s) (λ s', counts_only s s' ∧ same_key s' s).
Proof. unfold bump_open_borrow. safe_walk. by destruct s. Qed.
Lemma bump_open_lend_returns s :
  returns (bump_open_lend s) (λ s', counts_only s s' ∧ same_key s' s).
Proof. unfold bump_open_lend. safe_walk. by destruct s. Qed.

Lemma seats_kept_refl S : seats_kept S S.
Proof. induction S as [|e S IH]; constructor; [split; [done|apply counts_only_refl]|done]. Qed.

Lemma seats_kept_elem S0 S i s0 : seats_kept S0 S → (i, s0) ∈ S0 →
  ∃ s, (i, s) ∈ S ∧ counts_only s0 s.
Proof.
  intros HR. induction HR as [|[j a] [k b] S0 S [Hk Hab] HR IH]; [by intros ?%not_elem_of_nil|].
  simpl in *. subst k. intros [[= -> ->]|Hi]%elem_of_cons.
  - exists b. split; [left|done].
  - destruct (IH Hi) as (s & Hs & Hc). exists s. split; [by right|done].
Qed.

Lemma seats_kept_set S0 S i s s' : seats_kept S0 S → NoDup S.*1 → (i, s) ∈ S → counts_only s s' →
  seats_kept S0 (set_entry i s' S).
Proof.
  intros HR Hnd Hi Hs. eapply set_entry_Forall2; [done|done|done|].
  intros [j a] [Hj Ha]. split; [done|]. by eapply counts_only_trans.
Qed.

Lemma vaults_kept_refl V : vaults_kept V V.
Proof.
  induction V as [|[j p] V IH]; constructor; [split; [done|]|done]. exists 0, 0. simpl.
  split_and!; [done| |lia|done|done]. rewrite !Z.add_0_r. by destruct p.
Qed.

Lemma vaults_kept_elem V0 V j p : vaults_kept V0 V → (j, p) ∈ V →
  ∃ p0, (j, p0) ∈ V0 ∧ reserved p0 p.
Proof.
  intros HR. induction HR as [|[j0 a] [k b] V0 V [Hk Hab] HR IH]; [by intros ?%not_elem_of_nil|].
  simpl in *. subst k. intros [[= -> ->]|Hi]%elem_of_cons.
  - exists a. split; [left|done].
  - destruct (IH Hi) as (s & Hs & Hc). exists s. split; [by right|done].
Qed.

Lemma reserved_filled p0 p x : reserved p0 p → 0 < x → committed p + x
    + MARGINFI_ROUNDING_RESERVE_ATOMS <= sv_total_principal_atoms p →
  reserved p0 (filled p x).
Proof.
  intros (y & k & Hy & -> & _ & Hk & _) Hx Hle. exists (y + x), (k + 1).
  unfold filled, committed in *. simpl in *. split_and!; [lia| |lia|lia|lia].
  f_equal; lia.
Qed.

Lemma vaults_kept_fill V0 V j p x : vaults_kept V0 V → NoDup V.*1 → (j, p) ∈ V → 0 < x →
  committed p + x + MARGINFI_ROUNDING_RESERVE_ATOMS <= sv_total_principal_atoms p →
  vaults_kept V0 (set_entry j (filled p x) V).
Proof.
  intros HR Hnd Hj Hx Hle. eapply set_entry_Forall2; [done|done|done|].
  intros [i a] [Hi Ha]. split; [done|]. by apply reserved_filled.
Qed.

Lemma header_kept_refl f : header_kept f f 0.
Proof. exists (mf_free_list_head_index f), (mf_matched_loans_root_index f). rewrite Z.add_0_r. by destruct f. Qed.

Lemma header_kept_seq f0 f n : header_kept f0 f n →
  mf_matched_loan_sequence f = mf_matched_loan_sequence f0 + n.
Proof. by intros (h & r & ->). Qed.
Lemma header_kept_mint f0 f n h r f' : header_kept f0 f n →
  f' = f <| mf_free_list_head_index := h |> <| mf_matched_loans_root_index := r |>
         <| mf_matched_loan_sequence := mf_matched_loan_sequence f + 1 |> →
  header_kept f0 f' (n + 1).
Proof. intros (h0 & r0 & ->) ->. exists h, r. simpl. by rewrite Z.add_assoc. Qed.

(** ** Capacity *)

(** The terms a scan reads off a live sub-vault. *)
Definition capacity_of (p : SubVault) : AskCapacity :=
  mkAskCapacity (sub_vault_idle p) (sv_max_ltv_bps p) (sv_liquidation_ltv_bps p)
    (sv_max_term_seconds p) (sv_curator_fee_bps p) (sv_curator p).

(** Reading the capacity never fails; a positive one is a live sub-vault's. *)
Lemma read_ask_capacity_inv v V D O F G id : vault_inv v V D O F G →
  ∃ cap, read_ask_capacity v id = Ok cap
    ∧ (ac_idle cap ≠ 0 → ∃ j p, lookup_sub_vault v id = Ok j ∧ j ≠ NIL ∧ (j, p) ∈ V
         ∧ sv_sub_vault_id p = id ∧ sv_is_sunset p = 0 ∧ cap = capacity_of p).
Proof.
  intros Hv. destruct (lookup_sub_vault_inv _ _ _ _ _ _ id Hv) as (j & Hj & Hs & _).
  unfold read_ask_capacity. rewrite Hj. cbn [mbind result_bind].
  destruct (Z.eqb_spec j NIL) as [|Hn]; [by eexists|].
  destruct (Hs Hn) as (p & Hp & Hid). rewrite (get_sub_vault_inv _ _ _ _ _ _ _ _ Hv Hp).
  cbn [mbind result_bind]. destruct (Z.eqb_spec (sv_is_sunset p) 0) as [H0|H0]; cbn [negb];
    [|by eexists].
  eexists. split; [done|]. intros _. exists j, p. split_and!; done.
Qed.

Lemma floored_borrower_rate_returns b a f : returns (floored_borrower_rate b a f)
  (λ r, r = Z.max b (a + f) ∧ a + f <= umax U16).
Proof.
  unfold floored_borrower_rate. apply returns_bind, returns_require; [discriminate|].
  intros ?%Z.leb_le. done.
Qed.

(** ** The fills of a scan *)

(** One fill: the ask, the sub-vault as it stood, the loan minted. *)
Record Fill := mkFill {
  fi_ask : Z * RestingOrder;
  fi_sub_vault : SubVault;
  fi_loan : MatchedLoan }.

Definition fills_principal (fs : list Fill) : Z := foldr (λ f n, ml_principal_atoms (fi_loan f) + n) 0 fs.
Definition fills_collateral (fs : list Fill) : Z := foldr (λ f n, ml_collateral_atoms (fi_loan f) + n) 0 fs.

Lemma fills_principal_snoc fs f :
  fills_principal (fs ++ [f]) = fills_principal fs + ml_principal_atoms (fi_loan f).
Proof. induction fs as [|g fs IH]; simpl in *; lia. Qed.
Lemma fills_collateral_snoc fs f :
  fills_collateral (fs ++ [f]) = fills_collateral fs + ml_collateral_atoms (fi_loan f).
Proof. induction fs as [|g fs IH]; simpl in *; lia. Qed.

(** What every fill of [match_order] satisfies: the gates of the scan, and the terms
    of the loan. *)
Record fill_ok (args : MatchArgs) (fixed : MarketFixed) (S0 : list (Z * ClaimedSeat))
    (V0 : list (Z * SubVault)) (f : Fill) : Prop := {
  fo_live : order_is_expired (fi_ask f).2 (ma_now_unix_ts args) = false;
  fo_floor : ma_ask_floor_rate_bps args <= ro_rate_bps (fi_ask f).2;
  fo_limit : ro_rate_bps (fi_ask f).2 <= ma_rate_bps args;
  fo_term : ma_term_seconds args <= ro_term_seconds (fi_ask f).2;
  fo_not_self : ro_trader_seat_index (fi_ask f).2 ≠ ma_taker_seat_index args;
  fo_lender : ∃ seat, (ro_trader_seat_index (fi_ask f).2, seat) ∈ S0
    ∧ cs_owner_kind seat = OWNER_KIND_SUB_VAULT
    ∧ cs_sub_vault_id seat = sv_sub_vault_id (fi_sub_vault f);
  fo_vault : ∃ j p0, (j, p0) ∈ V0 ∧ reserved p0 (fi_sub_vault f);
  fo_sunset : sv_is_sunset (fi_sub_vault f) = 0;
  fo_max_term : 0 < sv_max_term_seconds (fi_sub_vault f) →
    ro_term_seconds (fi_ask f).2 <= sv_max_term_seconds (fi_sub_vault f);
  fo_curator : ∃ seat, (ma_taker_seat_index args, seat) ∈ S0
    ∧ sv_curator (fi_sub_vault f) ≠ cs_owner seat;
  fo_idle : 0 < ml_principal_atoms (fi_loan f) <= sub_vault_idle (fi_sub_vault f);
  fo_covered : ∃ required, required_collateral_at_ltv_cap (ml_principal_atoms (fi_loan f))
      (ma_debt_oracle_price_fp48 args) (ma_collateral_oracle_price_fp48 args)
      (ml_origination_ltv_bps (fi_loan f)) (mf_debt_mint_decimals fixed)
      (mf_collateral_mint_decimals fixed) = Ok required
    ∧ required <= ml_collateral_atoms (fi_loan f);
  fo_rate : ml_borrower_rate_bps (fi_loan f)
      = Z.max (ma_rate_bps args) (ro_rate_bps (fi_ask f).2 + ma_fee_floor_bps args)
    ∧ ro_rate_bps (fi_ask f).2 + ma_fee_floor_bps args <= umax U16;
  fo_origination : mul_div_u64 (ml_principal_atoms (fi_loan f))
      (fc_origination_bps (mf_fee_config fixed)) BPS_PER_UNIT false
    = Ok (ml_origination_atoms (fi_loan f));
  fo_loan : fi_loan f = matched_loan_of args (fi_ask f).2 (capacity_of (fi_sub_vault f))
    (effective_origination_cap_bps (sv_max_ltv_bps (fi_sub_vault f)) (ma_ltv_buffer_bps args))
    (ml_sequence (fi_loan f)) (ml_principal_atoms (fi_loan f)) (ml_origination_atoms (fi_loan f))
    (ml_collateral_atoms (fi_loan f)) (ml_borrower_rate_bps (fi_loan f)) }.

(** ** The invariant of the scan *)

Section match_order.
Context (args : MatchArgs) (m0 : Market) (S0 : list (Z * ClaimedSeat)).
Context (A B : list (Z * RestingOrder)) (L0 : list (Z * MatchedLoan)).
Context (V0 : list (Z * SubVault)) (D : list (Z * SubVaultDepositorSeat)).
Context (O : list (Z * SubVaultOrderRef)) (F1 F2 : list Z) (v0 : Vault).

(** Lists of the state after the fills [fs]; [todo] are the asks not yet visited,
    best last. *)
Record scan_inv (s : MatchState) (fs : list Fill) (todo : list (Z * RestingOrder))
    (S : list (Z * ClaimedSeat)) (L : list (Z * MatchedLoan)) (F : list Z) (v : Vault)
    (V : list (Z * SubVault)) : Prop := {
  sc_vault : ms_vault s = Some v;
  sc_market : market_inv (ms_market s) S A B L F;
  sc_vault_inv : vault_inv v V D O F1 F2;
  sc_loans : L.*2 = L0.*2 ++ (fi_loan <$> fs);
  sc_below : sequences_below (mf_matched_loan_sequence (mk_fixed (ms_market s))) L;
  sc_header : header_kept (mk_fixed m0) (mk_fixed (ms_market s)) (Z.of_nat (length fs));
  sc_sequences : ml_sequence ∘ fi_loan <$> fs
    = (λ k, mf_matched_loan_sequence (mk_fixed m0) + Z.of_nat k) <$> seq 0 (length fs);
  sc_seats : seats_kept S0 S;
  sc_sub_vaults : vaults_kept V0 V;
  sc_encumbered : total_encumbered V = total_encumbered V0 + fills_principal fs;
  sc_principal : ms_remaining_principal s + fills_principal fs = ma_principal_atoms args;
  sc_filled : ms_total_filled s = fills_principal fs;
  sc_count : ms_num_fills s = Z.min (umax U32) (Z.of_nat (length fs));
  sc_collateral : ms_remaining_collateral s + fills_collateral fs = ma_collateral_atoms args;
  sc_range : 0 <= ms_remaining_principal s ∧ 0 <= ms_remaining_collateral s;
  sc_ratio : ms_remaining_principal s * ma_collateral_atoms args
    <= ms_remaining_collateral s * ma_principal_atoms args;
  sc_exhausted : ms_remaining_principal s = 0 → ms_remaining_collateral s = 0;
  sc_idle : fs = [] → ms_market s = m0 ∧ v = v0;
  sc_fills : Forall (fill_ok args (mk_fixed m0) S0 V0) fs;
  sc_order : ∃ visited, A = todo ++ visited ∧ (fi_ask <$> fs) `sublist_of` reverse visited }.

Context (Hprincipal : 0 < ma_principal_atoms args < 2 ^ 64).
Context (Hcollateral : in_u U64 (ma_collateral_atoms args)).
Context (Htaker : ma_taker_seat_index args ∈ S0.*1).
Context (Hmakers : ∀ e, e ∈ A → ro_trader_seat_index e.2 ∈ S0.*1).
Context (Hencumbered : ∀ e, e ∈ V0 → 0 <= sv_encumbered_in_orders_atoms e.2).

Lemma scan_seat s fs todo S L F v V i : scan_inv s fs todo S L F v V → i ∈ S0.*1 →
  ∃ seat0 seat, (i, seat0) ∈ S0 ∧ (i, seat) ∈ S ∧ counts_only seat0 seat
    ∧ get_seat (ms_market s) i = Ok seat.
Proof.
  intros Hs ([j s0] & -> & Hj)%list_elem_of_fmap.
  destruct (seats_kept_elem _ _ _ _ (sc_seats _ _ _ _ _ _ _ _ Hs) Hj) as (seat & Hi & Hc).
  exists s0, seat. split_and!; try done. simpl.
  by apply (get_seat_inv _ _ _ _ _ _ _ _ (sc_market _ _ _ _ _ _ _ _ Hs)).
Qed.

(** The seat update of a fill, in the scan. *)
Lemma bump_returns m S L F i f : market_inv m S A B L F → seats_kept S0 S → i ∈ S0.*1 →
  (∀ s, returns (f s) (λ s', counts_only s s' ∧ same_key s' s)) →
  returns (modify_seat m i f) (λ m', ∃ S', market_inv m' S' A B L F ∧ seats_kept S0 S'
    ∧ mk_fixed m' = mk_fixed m).
Proof.
  intros Hm HS ([j s0] & -> & Hj)%list_elem_of_fmap Hf. simpl.
  destruct (seats_kept_elem _ _ _ _ HS Hj) as (seat & Hi & Hc).
  eapply returns_mono.
  - apply (modify_seat_returns _ _ _ _ _ _ j seat f Hm Hi).
    eapply returns_mono; [apply Hf|]. by intros s' _ [_ ?].
  - intros m' _ (s' & Hs' & Hk & Hm' & Hfix). exists (set_entry j s' S). split_and!; [done| |done].
    pose proof (Hf seat) as Hseat. rewrite Hs' in Hseat. destruct Hseat as [Hcs _].
    apply seats_kept_set with seat; try done. apply (tree_inv_nodup _ _ _ (mi_seats _ _ _ _ _ _ Hm)).
Qed.

(** An ask walked past. *)
Lemma scan_skip s fs todo e S L F v V :
  scan_inv s fs (todo ++ [e]) S L F v V → scan_inv s fs todo S L F v V.
Proof.
  intros []. split; try done. destruct sc_order0 as (visited & HA & Hsub).
  exists (e :: visited). split; [by rewrite HA, <- app_assoc|].
  rewrite reverse_cons. by apply sublist_inserts_r.
Qed.

Lemma scan_order_fill fs todo e f visited :
  A = (todo ++ [e]) ++ visited → (fi_ask <$> fs) `sublist_of` reverse visited → fi_ask f = e →
  ∃ visited, A = todo ++ visited ∧ (fi_ask <$> fs ++ [f]) `sublist_of` reverse visited.
Proof.
  intros HA Hsub <-. exists (fi_ask f :: visited). split; [by rewrite HA, <- app_assoc|].
  rewrite reverse_cons, fmap_app. by apply sublist_app.
Qed.

Lemma scan_sequences fs f n :
  ml_sequence ∘ fi_loan <$> fs = (λ k, n + Z.of_nat k) <$> seq 0 (length fs) →
  ml_sequence (fi_loan f) = n + Z.of_nat (length fs) →
  ml_sequence ∘ fi_loan <$> fs ++ [f] = (λ k, n + Z.of_nat k) <$> seq 0 (length fs + 1).
Proof.
  intros H Hf. rewrite seq_app, !fmap_app, H. f_equal. simpl. by rewrite Hf.
Qed.

(** The tail of the body. *)
Lemma fill_ask_returns s fs todo i maker S L F v V j p matched coll :
  scan_inv s fs (todo ++ [(i, maker)]) S L F v V →
  lookup_sub_vault v (sv_sub_vault_id p) = Ok j → j ≠ NIL → (j, p) ∈ V →
  let cap := capacity_of p in
  let eff := effective_origination_cap_bps (ac_max_ltv_bps cap) (ma_ltv_buffer_bps args) in
  0 < matched <= Z.min (ms_remaining_principal s) (sub_vault_idle p) →
  0 <= coll <= ms_remaining_collateral s →
  (matched = ms_remaining_principal s → coll = ms_remaining_collateral s) →
  (ms_remaining_principal s - matched) * ma_collateral_atoms args
    <= (ms_remaining_collateral s - coll) * ma_principal_atoms args →
  (∀ origin, mul_div_u64 matched (fc_origination_bps (mf_fee_config (mk_fixed m0))) BPS_PER_UNIT
       false = Ok origin → ro_rate_bps maker + ma_fee_floor_bps args <= umax U16 →
     fill_ok args (mk_fixed m0) S0 V0 (mkFill (i, maker) p
       (matched_loan_of args maker cap eff (mf_matched_loan_sequence (mk_fixed (ms_market s)))
          matched origin coll (Z.max (ma_rate_bps args) (ro_rate_bps maker + ma_fee_floor_bps args))))) →
  returns (fill_ask args s v maker (sv_sub_vault_id p) cap eff matched coll) (λ s',
    ∃ fs' S' L' F' v' V', scan_inv s' fs' todo S' L' F' v' V').
Proof.
  intros Hs Hj Hn Hp cap eff Hmatched Hcoll Hall Hratio Hok.
  pose proof (sc_market _ _ _ _ _ _ _ _ Hs) as Hm. pose proof (sc_vault_inv _ _ _ _ _ _ _ _ Hs) as Hv.
  pose proof (sc_header _ _ _ _ _ _ _ _ Hs) as Hh.
  pose proof (sc_sub_vaults _ _ _ _ _ _ _ _ Hs) as HV.
  assert (0 <= sv_encumbered_in_orders_atoms p) as Hep.
  { destruct (vaults_kept_elem _ _ _ _ HV Hp) as (p0 & Hp0 & x & k & Hx & -> & _). simpl.
    specialize (Hencumbered _ Hp0). simpl in Hencumbered. lia. }
  destruct (sub_vault_idle_le p Hep) as [Hi0 Hidle].
  unfold fill_ask. apply returns_bind.
  eapply returns_mono; [by apply (reserve_fill_inv v V D O F1 F2 _ j p)|].
  intros v' _ [Hv' _]. apply returns_bind.
  eapply returns_mono; [apply floored_borrower_rate_returns|]. intros rate _ [-> Hrate].
  apply returns_bind, returns_safe; [auto with safe|].
  assert (mf_fee_config (mk_fixed (ms_market s)) = mf_fee_config (mk_fixed m0)) as ->
    by (by destruct Hh as (h & r & ->)).
  intros origin Hx. cbv zeta. specialize (Hok origin Hx Hrate).
  set (loan := matched_loan_of _ _ _ _ _ _ _ _ _) in *.
  apply returns_bind. eapply returns_mono;
    [by apply (mint_returns _ S A B L F loan Hm (sc_below _ _ _ _ _ _ _ _ Hs))|].
  intros [m1 li] _ (F' & -> & Hm1 & Hseq & h & r & Hf1). cbn [fst snd] in *.
  apply returns_bind. eapply returns_mono;
    [by apply (bump_returns m1 S _ F' _ _ Hm1 (sc_seats _ _ _ _ _ _ _ _ Hs) Htaker bump_open_borrow_returns)|].
  intros m2 _ (S2 & Hm2 & HS2 & Hf2). apply returns_bind.
  assert (ro_trader_seat_index maker ∈ S0.*1) as Hmk.
  { apply (Hmakers (i, maker)). destruct (sc_order _ _ _ _ _ _ _ _ Hs) as (vis & -> & _).
    apply elem_of_app. left. apply elem_of_app. right. left. }
  eapply returns_mono; [by apply (bump_returns m2 S2 _ F' _ _ Hm2 HS2 Hmk bump_open_lend_returns)|].
  intros m3 _ (S3 & Hm3 & HS3 & Hf3).
  apply returns_bind, returns_ok_or; [discriminate|]. intros rp [-> _]%checked_sub_Some.
  apply returns_bind, returns_ok_or; [discriminate|]. intros total [-> _]%checked_add_Some.
  apply returns_Ok.
  exists (fs ++ [mkFill (i, maker) p loan]), S3, (L ++ [(li, loan)]), F', v', (set_entry j (filled p matched) V).
  assert (NoDup V.*1) as HndV by apply (tree_inv_nodup _ _ _ (vi_sub_vaults _ _ _ _ _ _ Hv)).
  assert (mk_fixed m3 = mk_fixed (ms_market s) <| mf_free_list_head_index := h |>
      <| mf_matched_loans_root_index := r |> <| mf_matched_loan_sequence :=
        mf_matched_loan_sequence (mk_fixed (ms_market s)) + 1 |>) as Hfix by congruence.
  pose proof (header_kept_seq _ _ _ Hh) as Hseq0.
  destruct Hs. split; cbn [ms_market ms_vault ms_remaining_principal ms_remaining_collateral
    ms_total_filled ms_num_fills]; rewrite ?length_app, ?fills_principal_snoc, ?fills_collateral_snoc;
    cbn [length fi_loan ml_principal_atoms ml_collateral_atoms matched_loan_of loan]; try done.
  - by rewrite !fmap_app, sc_loans0, <- app_assoc.
  - intros e [He|He%list_elem_of_singleton]%elem_of_app; rewrite Hfix; simpl; [|subst e; simpl; lia].
    specialize (sc_below0 _ He). lia.
  - rewrite Nat2Z.inj_add. by eapply header_kept_mint.
  - apply scan_sequences; [done|]. simpl. by rewrite Hseq0.
  - apply vaults_kept_fill; try done; lia.
  - rewrite (total_encumbered_set _ _ p) by done. unfold filled. simpl. lia.
  - lia.
  - lia.
  - rewrite sc_count0. zlia.
  - unfold checked_sub. rewrite (proj2 (Z.leb_le _ _)) by lia. simpl. lia.
  - unfold checked_sub. rewrite (proj2 (Z.leb_le _ _)) by lia. simpl. lia.
  - unfold checked_sub. rewrite (proj2 (Z.leb_le _ _)) by lia. simpl. lia.
  - unfold checked_sub. rewrite (proj2 (Z.leb_le _ _)) by lia. simpl. intros ?. rewrite Hall; lia.
  - intros H. by apply app_eq_nil in H as [_ [=]].
  - apply Forall_app. split; [done|]. by constructor.
  - destruct sc_order0 as (visited & HA & Hsub). by eapply scan_order_fill.
Qed.

(** The collateral a fill takes: within what is left, and leaving the rest its share. *)
Lemma fill_collateral_returns s fs todo S L F v V matched :
  scan_inv s fs todo S L F v V → 0 < matched <= ms_remaining_principal s →
  returns (if matched =? ms_remaining_principal s then Ok (ms_remaining_collateral s)
     else mul_div_u64 matched (ma_collateral_atoms args) (ma_principal_atoms args) false)
   (λ coll, 0 <= coll <= ms_remaining_collateral s
     ∧ (matched = ms_remaining_principal s → coll = ms_remaining_collateral s)
     ∧ (ms_remaining_principal s - matched) * ma_collateral_atoms args
       <= (ms_remaining_collateral s - coll) * ma_principal_atoms args).
Proof.
  intros Hs Hmatched. destruct (sc_range _ _ _ _ _ _ _ _ Hs) as [Hrp Hrc].
  pose proof (sc_ratio _ _ _ _ _ _ _ _ Hs) as Hratio.
  assert (ms_remaining_principal s <= ma_principal_atoms args) as Hle.
  { pose proof (sc_principal _ _ _ _ _ _ _ _ Hs) as Hp.
    assert (0 <= fills_principal fs); [|lia].
    pose proof (sc_fills _ _ _ _ _ _ _ _ Hs) as Hf. clear -Hf.
    induction Hf as [|f fs Hf _ IH]; simpl; [lia|]. pose proof (fo_idle _ _ _ _ _ Hf). lia. }
  destruct (Z.eqb_spec matched (ms_remaining_principal s)) as [->|Hne].
  - simpl. split_and!; [lia|lia|done|lia].
  - apply returns_safe; [auto with safe|]. intros coll Hc.
    apply mul_div_u64_Ok in Hc as (_ & -> & _); [|zlia|done|zlia].
    destruct Hcollateral as [HC0 _].
    set (P := ma_principal_atoms args) in *. set (C := ma_collateral_atoms args) in *.
    assert (0 <= matched * C / P) by (apply Z.div_pos; nia).
    assert (P * (matched * C / P) <= matched * C) by (apply Z.mul_div_le; lia).
    split_and!; [done| |done|nia]. apply Zlt_succ_le. apply Z.mul_lt_mono_pos_l with P; nia.
Qed.

(** The body of the scan on one maker. *)
Lemma match_maker_returns s fs todo i maker S L F v V :
  scan_inv s fs (todo ++ [(i, maker)]) S L F v V → 0 < ms_remaining_principal s →
  returns (match_maker args s maker) (λ st,
    match st with
    | Filled s' => ∃ fs' S' L' F' v' V', scan_inv s' fs' todo S' L' F' v' V'
    | _ => True
    end).
Proof.
  intros Hs Hpos. assert ((i, maker) ∈ A) as Hin.
  { destruct (sc_order _ _ _ _ _ _ _ _ Hs) as (vis & -> & _). apply elem_of_app. left.
    apply elem_of_app. right. left. }
  destruct (scan_seat _ _ _ _ _ _ _ _ _ Hs (Hmakers _ Hin)) as (l0 & lender & Hl0 & _ & Hlc & Hl).
  destruct (scan_seat _ _ _ _ _ _ _ _ _ Hs Htaker) as (t0 & taker & Ht0 & _ & Htc & Ht).
  simpl in Hl, Hl0. unfold match_maker.
  destruct (order_is_expired maker _) eqn:Hexp; [exact I|].
  destruct (Z.ltb_spec (ro_rate_bps maker) (ma_ask_floor_rate_bps args)) as [|Hfloor];
    [rewrite Hl; exact I|].
  destruct (Z.eqb_spec (ro_trader_seat_index maker) (ma_taker_seat_index args)) as [|Hself]; [exact I|].
  destruct (Z.ltb_spec (ma_rate_bps args) (ro_rate_bps maker)) as [|Hlimit]; [exact I|].
  destruct (Z.ltb_spec (ro_term_seconds maker) (ma_term_seconds args)) as [|Hterm]; [exact I|].
  apply returns_bind, returns_safe.
  { destruct (ma_order_type args); exact I || discriminate. }
  intros _ _. rewrite Hl. cbn [mbind result_bind]. apply returns_bind, returns_require; [discriminate|].
  intros Hkind%Z.eqb_eq. rewrite (sc_vault _ _ _ _ _ _ _ _ Hs).
  destruct (read_ask_capacity_inv _ _ _ _ _ _ (cs_sub_vault_id lender)
    (sc_vault_inv _ _ _ _ _ _ _ _ Hs)) as (cap & -> & Hcap). cbn [mbind result_bind].
  destruct (Z.eqb_spec (ac_idle cap) 0) as [|Hidle]; [exact I|].
  destruct (Hcap Hidle) as (j & p & Hj & Hn & Hp & Hid & Hsun & ->).
  destruct ((0 <? _) && _) eqn:Hmax; [exact I|].
  rewrite Ht. cbn [mbind result_bind].
  destruct (Z.eqb_spec (ac_curator (capacity_of p)) (cs_owner taker)) as [|Hcur]; [exact I|].
  assert (0 < Z.min (ms_remaining_principal s) (sub_vault_idle p)) as Hmp.
  { cbn [ac_idle capacity_of] in Hidle. unfold sub_vault_idle, saturating_sub in *. lia. }
  apply returns_bind. eapply returns_mono;
    [apply (fill_collateral_returns _ _ _ _ _ _ _ _ _ Hs); cbn [ac_idle capacity_of]; lia|].
  intros coll0 _ (Hcoll & Hall & Hratio).
  apply returns_bind, returns_ok_or; [discriminate|]. intros coll [-> _]%checked_add_Some.
  rewrite Z.add_0_r in *. cbv zeta. apply returns_bind, returns_safe; [auto with safe|].
  intros required Hreq. destruct (Z.ltb_spec coll0 required) as [|Hcov]; [exact I|].
  apply returns_fmap. rewrite <- Hid. eapply (fill_ask_returns _ _ _ _ _ _ _ _ _ _ _ _ _ _ Hs);
    rewrite ?Hid; try done.
  intros origin Horigin Hrate.
  destruct (sc_header _ _ _ _ _ _ _ _ Hs) as (h & r & Hfix). rewrite Hfix in Hreq. simpl in Hreq.
  rewrite (counts_only_owner _ _ Htc) in Hcur.
  split; cbn [fi_ask fi_sub_vault fi_loan fst snd matched_loan_of ml_principal_atoms
    ml_collateral_atoms ml_origination_ltv_bps ml_borrower_rate_bps ml_origination_atoms
    ac_idle capacity_of]; try done.
  - exists l0. rewrite Hid. destruct (counts_only_key _ _ Hlc) as (Hk & _ & Hsv).
    by rewrite <- Hk, <- Hsv.
  - destruct (vaults_kept_elem _ _ _ _ (sc_sub_vaults _ _ _ _ _ _ _ _ Hs) Hp) as (p0 & Hp0 & Hr).
    by exists j, p0.
  - intros Hpm. cbn [ac_max_term_seconds capacity_of] in Hmax. lia.
  - by exists t0.
  - lia.
  - by exists required.
Qed.

(** The scan from the next ask on. *)
Lemma match_loop_returns fuel s fs todo S L F v V :
  scan_inv s fs todo S L F v V → (length todo <= fuel)%nat →
  returns (match_loop fuel args s (last_id todo)) (λ s',
    ∃ fs' todo' S' L' F' v' V', scan_inv s' fs' todo' S' L' F' v' V').
Proof.
  revert s fs todo S L F v V. induction fuel as [|fuel IH]; intros s fs todo S L F v V Hs Hf;
    cbn [match_loop].
  - destruct todo; [|simpl in Hf; lia]. change (last_id []) with NIL. rewrite Z.eqb_refl, andb_false_r.
    by exists fs, [], S, L, F, v, V.
  - destruct ((0 <? _) && _) eqn:Hc; [|by exists fs, todo, S, L, F, v, V].
    apply andb_true_iff in Hc as [Hpos%Z.ltb_lt Hnil%negb_true_iff%Z.eqb_neq].
    destruct (last todo) as [[i maker]|] eqn:Hl; [|by apply last_None in Hl as ->].
    apply last_Some in Hl as [todo' ->]. rewrite last_id_snoc in *.
    rewrite length_app in Hf. simpl in Hf.
    pose proof (sc_market _ _ _ _ _ _ _ _ Hs) as Hm.
    destruct (sc_order _ _ _ _ _ _ _ _ Hs) as (visited & HA & _).
    rewrite (get_ask_inv _ _ _ _ _ _ i maker Hm)
      by (rewrite HA; apply elem_of_app; left; apply elem_of_app; right; left).
    cbn [mbind result_bind].
    assert (∀ s1 S1 L1 F1, market_inv (ms_market s1) S1 A B L1 F1 →
      next_maker_index (ms_market s1) i = Ok (last_id todo')) as Hnext.
    { intros s1 S1 L1 F1' Hm1. unfold next_maker_index. pose proof (mi_asks _ _ _ _ _ _ Hm1) as Ha.
      rewrite HA, <- app_assoc in Ha. by apply next_tree_inv in Ha. }
    apply returns_bind. eapply returns_mono; [by apply (match_maker_returns _ _ _ _ _ _ _ _ _ _ Hs)|].
    intros [| |s'] _ Hst.
    + rewrite (Hnext _ _ _ _ Hm). cbn [mbind result_bind].
      eapply IH; [by eapply scan_skip|lia].
    + by exists fs, (todo' ++ [(i, maker)]), S, L, F, v, V.
    + destruct Hst as (fs' & S' & L' & F' & v' & V' & Hs').
      rewrite (Hnext _ _ _ _ (sc_market _ _ _ _ _ _ _ _ Hs')). cbn [mbind result_bind].
      eapply IH; [done|lia].
Qed.

(** The scan of [match_order] on a market and a vault. *)
Lemma match_order_returns F0 :
  market_inv m0 S0 A B L0 F0 → sequences_below (mf_matched_loan_sequence (mk_fixed m0)) L0 →
  vault_inv v0 V0 D O F1 F2 →
  returns (match_order m0 args (Some v0)) (λ '(m', vo, r),
    ∃ s fs todo S L F v V, scan_inv s fs todo S L F v V
      ∧ m' = ms_market s ∧ vo = ms_vault s
      ∧ r = mkMatchResult (ms_remaining_principal s) (ms_remaining_collateral s)
              (ms_total_filled s) (ms_num_fills s) Drop).
Proof.
  intros Hm Hb Hv. unfold match_order. apply returns_bind.
  rewrite (mi_asks_best _ _ _ _ _ _ Hm). eapply returns_mono.
  - eapply (match_loop_returns _ _ [] A S0 L0 F0 v0 V0).
    + destruct Hcollateral. split; cbn [ms_market ms_vault ms_remaining_principal
        ms_remaining_collateral ms_total_filled ms_num_fills fills_principal fills_collateral foldr];
        try done; try lia.
      * by rewrite app_nil_r.
      * apply header_kept_refl.
      * apply seats_kept_refl.
      * apply vaults_kept_refl.
      * exists []. split; [by rewrite app_nil_r|constructor].
    + pose proof (tree_inv_fuel _ _ _ (mi_asks _ _ _ _ _ _ Hm)). lia.
  - intros s _ (fs & todo & S & L & F & v & V & Hs). by exists s, fs, todo, S, L, F, v, V.
Qed.
End match_order.

(** ** Properties of [match_order] *)

(** The states [match_order] is called in: a well-formed market and vault whose asks
    and taker have seats, and an order of a positive size. *)
Record match_ready (args : MatchArgs) (m0 : Market) (v0 : Vault) (S0 : list (Z * ClaimedSeat))
    (A B : list (Z * RestingOrder)) (L0 : list (Z * MatchedLoan)) (F0 : list Z)
    (V0 : list (Z * SubVault)) (D : list (Z * SubVaultDepositorSeat))
    (O : list (Z * SubVaultOrderRef)) (F1 F2 : list Z) : Prop := {
  my_market : market_inv m0 S0 A B L0 F0;
  my_below : sequences_below (mf_matched_loan_sequence (mk_fixed m0)) L0;
  my_vault : vault_inv v0 V0 D O F1 F2;
  my_principal : 0 < ma_principal_atoms args < 2 ^ 64;
  my_collateral : in_u U64 (ma_collateral_atoms args);
  my_taker : ma_taker_seat_index args ∈ S0.*1;
  my_makers : ∀ e, e ∈ A → ro_trader_seat_index e.2 ∈ S0.*1;
  my_encumbered : ∀ e, e ∈ V0 → 0 <= sv_encumbered_in_orders_atoms e.2 }.

Lemma match_ready_returns args m0 v0 S0 A B L0 F0 V0 D O F1 F2 :
  match_ready args m0 v0 S0 A B L0 F0 V0 D O F1 F2 →
  returns (match_order m0 args (Some v0)) (λ '(m', vo, r),
    ∃ s fs todo S L F v V, scan_inv args m0 S0 A B L0 V0 D O F1 F2 v0 s fs todo S L F v V
      ∧ m' = ms_market s ∧ vo = ms_vault s
      ∧ r = mkMatchResult (ms_remaining_principal s) (ms_remaining_collateral s)
              (ms_total_filled s) (ms_num_fills s) Drop).
Proof. intros []. by eapply match_order_returns. Qed.

(** A market with a borrower's seat, a sub-vault's seat, the sub-vault's ask at 800 bps
    and two free blocks; a vault with the sub-vault, which has 1000 atoms. *)
Definition sample_sub_vault : SubVault :=
  sub_vault_new_empty 1 77 8000 2592000 <| sv_total_principal_atoms := 1000 |>
    <| sv_total_assets_atoms := 1000 |> <| sv_liquidation_ltv_bps := 9000 |>.
Definition sample_match_vault : Vault :=
  mkVault (global_vault_new_empty 1 2 3 4 5 6 7 <| gv_sub_vaults_root_index := 0 |>)
    (<[0 := VB_sub_vault (new_node Black sample_sub_vault)]> ∅).
Definition sample_ask : RestingOrder :=
  new_primary 160 0 Ask PostOnly 800 2592000 (umax U64) 0 0 0 0 fp48_ZERO.
Definition sample_match_seats : list (Z * ClaimedSeat) :=
  [(0, claimed_seat_new_empty 500 OWNER_KIND_USER 0);
   (160, claimed_seat_new_empty 5 OWNER_KIND_SUB_VAULT 1)].
Definition sample_match_market : Market :=
  mkMarket (sample_header <| mf_num_bytes_allocated := 800 |> <| mf_claimed_seats_root_index := 0 |>
      <| mf_asks_root_index := 320 |> <| mf_asks_best_index := 320 |>
      <| mf_free_list_head_index := 480 |>
      <| mf_fee_config := FeeConfig_default <| fc_origination_bps := 50 |> |>)
    (<[0 := MB_seat (mkRBNode NIL 160 NIL Black 0 (claimed_seat_new_empty 500 OWNER_KIND_USER 0))]>
    (<[160 := MB_seat (mkRBNode NIL NIL 0 Red 0 (claimed_seat_new_empty 5 OWNER_KIND_SUB_VAULT 1))]>
    (<[320 := MB_order (new_node Black sample_ask)]>
    (<[480 := MB_free (mkFreeListNode 640)]> (<[640 := MB_free (mkFreeListNode NIL)]> ∅))))).
Definition sample_match_args : MatchArgs :=
  mkMatchArgs 0 900 86400 1500 3000000 ImmediateOrCancel 1000 100 fp48_ONE fp48_ONE fp48_ONE 0 0.

Lemma sample_match_ready : match_ready sample_match_args sample_match_market sample_match_vault
  sample_match_seats [(320, sample_ask)] [] [] [480; 640] [(0, sample_sub_vault)] [] [] [] [].
Proof.
  split.
  - apply check_market_inv. vm_compute. repeat split.
  - intros e He. by apply not_elem_of_nil in He.
  - apply check_vault_inv. vm_compute. repeat split.
  - vm_compute. split; congruence.
  - vm_compute. split; congruence.
  - left.
  - intros e He%list_elem_of_singleton. subst e. right. left.
  - intros e He%list_elem_of_singleton. subst e. vm_compute. congruence.
Defined.

(** C12: the fills of [match_order].  On a well-formed market and vault the scan never
    panics or loops.  When it succeeds, the market is again well-formed with the same
    asks, bids and seat balances; its loans are the old ones followed by one per fill,
    numbered consecutively.  The asks filled appear in price-time order, each at most
    once, and every fill passed every gate: the ask was live, not the taker's own, within
    the taker's limit and floor and long enough; its sub-vault was live, not the taker's
    curator's, and had the principal idle; the borrower's rate is its bid or the ask plus
    the fee floor, whichever is more; and the collateral of the loan covers what the
    sub-vault's LTV cap, less the borrower's buffer, requires at the oracle prices. *)
Theorem match_order_fills (args : MatchArgs) (m0 : Market) (v0 : Vault)
    (S0 : list (Z * ClaimedSeat)) (A B : list (Z * RestingOrder)) (L0 : list (Z * MatchedLoan))
    (F0 : list Z) (V0 : list (Z * SubVault)) (D : list (Z * SubVaultDepositorSeat))
    (O : list (Z * SubVaultOrderRef)) (F1 F2 : list Z)
    (Hready : match_ready args m0 v0 S0 A B L0 F0 V0 D O F1 F2) :
  returns (match_order m0 args (Some v0)) (λ '(m', _, _), ∃ fs S L F,
    market_inv m' S A B L F ∧ seats_kept S0 S
    ∧ L.*2 = L0.*2 ++ (fi_loan <$> fs)
    ∧ ml_sequence ∘ fi_loan <$> fs
        = (λ k, mf_matched_loan_sequence (mk_fixed m0) + Z.of_nat k) <$> seq 0 (length fs)
    ∧ header_kept (mk_fixed m0) (mk_fixed m') (Z.of_nat (length fs))
    ∧ (fi_ask <$> fs) `sublist_of` reverse A
    ∧ Forall (fill_ok args (mk_fixed m0) S0 V0) fs).
Proof.
  eapply returns_mono; [by eapply match_ready_returns|].
  intros [[m' vo] r] _ (s & fs & todo & S & L & F & v & V & [] & -> & _ & _).
  exists fs, S, L, F. split_and!; try done. destruct sc_order0 as (visited & -> & Hsub).
  rewrite reverse_app. by apply sublist_inserts_r.
Qed.

Lemma match_order_fills_witness :
  is_Ok (match_order sample_match_market sample_match_args (Some sample_match_vault)) = true
  ∧ returns (match_order sample_match_market sample_match_args (Some sample_match_vault))
      (λ '(m', _, _), ∃ fs S L F, market_inv m' S [(320, sample_ask)] [] L F
         ∧ seats_kept sample_match_seats S ∧ L.*2 = fi_loan <$> fs).
Proof.
  split; [vm_compute; reflexivity|]. eapply returns_mono.
  - exact (match_order_fills _ _ _ _ _ _ _ _ _ _ _ _ _ sample_match_ready).
  - intros [[m' vo] r] _ (fs & S & L & F & H1 & H2 & H3 & _). exists fs, S, L, F.
    split; [exact H1|split; [exact H2|exact H3]].
Defined.

(** C11: nothing is lost or made in a scan.  When [match_order] succeeds, the principal
    left and the principal of the loans minted add up to the order's, exactly, and so do
    the collateral left and the collateral locked in the loans; nothing goes negative;
    what is left keeps at least its proportional share of the collateral; and the totals
    reported are the sums over the loans.  A scan that fills the order leaves no
    collateral behind, and one that fills nothing leaves the market untouched. *)
Theorem match_order_conserves (args : MatchArgs) (m0 : Market) (v0 : Vault)
    (S0 : list (Z * ClaimedSeat)) (A B : list (Z * RestingOrder)) (L0 : list (Z * MatchedLoan))
    (F0 : list Z) (V0 : list (Z * SubVault)) (D : list (Z * SubVaultDepositorSeat))
    (O : list (Z * SubVaultOrderRef)) (F1 F2 : list Z)
    (Hready : match_ready args m0 v0 S0 A B L0 F0 V0 D O F1 F2) :
  returns (match_order m0 args (Some v0)) (λ '(m', _, r), ∃ fs S L F,
    market_inv m' S A B L F ∧ L.*2 = L0.*2 ++ (fi_loan <$> fs)
    ∧ mr_remaining_principal r + fills_principal fs = ma_principal_atoms args
    ∧ mr_remaining_collateral r + fills_collateral fs = ma_collateral_atoms args
    ∧ 0 <= mr_remaining_principal r ∧ 0 <= mr_remaining_collateral r
    ∧ mr_remaining_principal r * ma_collateral_atoms args
        <= mr_remaining_collateral r * ma_principal_atoms args
    ∧ (mr_remaining_principal r = 0 → mr_remaining_collateral r = 0)
    ∧ mr_total_filled_principal r = fills_principal fs
    ∧ mr_num_fills r = Z.min (umax U32) (Z.of_nat (length fs))
    ∧ (fs = [] → m' = m0)).
Proof.
  eapply returns_mono; [by eapply match_ready_returns|].
  intros [[m' vo] r] _ (s & fs & todo & S & L & F & v & V & [] & -> & _ & ->).
  exists fs, S, L, F. destruct sc_range0. split_and!; try done. intros Hn. by destruct (sc_idle0 Hn).
Qed.

Lemma match_order_conserves_witness :
  match match_order sample_match_market sample_match_args (Some sample_match_vault) with
  | Ok (_, _, r) => mr_total_filled_principal r = 999
      ∧ ∃ fs, mr_remaining_principal r + fills_principal fs = 1500
      ∧ mr_remaining_collateral r + fills_collateral fs = 3000000
  | Err _ => False
  end.
Proof.
  pose proof (match_order_conserves _ _ _ _ _ _ _ _ _ _ _ _ _ sample_match_ready) as H.
  destruct (match_order sample_match_market sample_match_args (Some sample_match_vault))
    as [[[m' vo] r]|e] eqn:E; [|vm_compute in E; discriminate E].
  destruct H as (fs & S & L & F & _ & _ & H1 & H2 & _). split.
  - vm_compute in E. injection E as _ _ <-. reflexivity.
  - exists fs. split; [exact H1|exact H2].
Defined.

(** C13: the vault backs every fill.  When [match_order] succeeds the vault is again
    well-formed, with the same depositor seats, order references and free blocks; each
    sub-vault is as before or has only its encumbrance and its open loans raised; one
    that was filled stays within its principal, with the rounding reserve to spare; and
    the encumbrance of the vault grows by exactly the principal filled. *)
Theorem match_order_reserves (args : MatchArgs) (m0 : Market) (v0 : Vault)
    (S0 : list (Z * ClaimedSeat)) (A B : list (Z * RestingOrder)) (L0 : list (Z * MatchedLoan))
    (F0 : list Z) (V0 : list (Z * SubVault)) (D : list (Z * SubVaultDepositorSeat))
    (O : list (Z * SubVaultOrderRef)) (F1 F2 : list Z)
    (Hready : match_ready args m0 v0 S0 A B L0 F0 V0 D O F1 F2) :
  returns (match_order m0 args (Some v0)) (λ '(_, vo, r), ∃ v V,
    vo = Some v ∧ vault_inv v V D O F1 F2 ∧ vaults_kept V0 V
    ∧ total_encumbered V = total_encumbered V0 + mr_total_filled_principal r).
Proof.
  eapply returns_mono; [by eapply match_ready_returns|].
  intros [[m' vo] r] _ (s & fs & todo & S & L & F & v & V & [] & _ & -> & ->).
  exists v, V. split_and!; try done. cbn [mr_total_filled_principal]. by rewrite sc_filled0.
Qed.

Lemma match_order_reserves_witness :
  match match_order sample_match_market sample_match_args (Some sample_match_vault) with
  | Ok (_, Some v, _) => ∃ V, vault_inv v V [] [] [] [] ∧ vaults_kept [(0, sample_sub_vault)] V
      ∧ total_encumbered V = 999
  | _ => False
  end.
Proof.
  pose proof (match_order_reserves _ _ _ _ _ _ _ _ _ _ _ _ _ sample_match_ready) as H.
  destruct (match_order sample_match_market sample_match_args (Some sample_match_vault))
    as [[[m' vo] r]|e] eqn:E; [|vm_compute in E; discriminate E].
  destruct H as (v & V & -> & H1 & H2 & H3). exists V. split; [exact H1|split; [exact H2|]].
  rewrite H3. vm_compute in E. injection E as _ _ <-. reflexivity.
Defined.
