(* ===== verification/PlacementSpec.v ===== *)
(** * What placing a borrower's bid promises

    [match_borrower_bid] locks the collateral, scans the asks and disposes of what
    is left: nothing, a loan at the variable rate, a resting bid, or a release.  The
    theorem accounts for every atom of principal and of collateral in each case. *)
From Stdlib Require Import Sorting.Sorted.
From stdpp Require Import base numbers list option gmap.
From S2P Require Import Prelude FixedPoint Loan Ltv SubVault Hypertree.
From S2P Require Import HypertreeFrame HypertreeSpec HypertreeOrder Market.
From S2P Require Import MarketSpec VaultTrees VaultSpec Matching MatchingSpec.
Local Open Scope Z_scope.

(** ** The steps of a placement *)

Lemma atoms_to_shares_safe atoms snapshot :
  returns (atoms_to_shares_at_snapshot atoms snapshot) (λ _, True).
Proof. unfold atoms_to_shares_at_snapshot. safe_walk. Qed.
#[export] Hint Resolve atoms_to_shares_safe : safe.

Lemma encumber_seat_returns side p c s :
  returns (encumber_seat side p c s) (λ s', same_key s' s).
Proof.
  apply returns_safe; [|intros s' H; apply encumber_seat_Ok in H; destruct side;
    destruct H as [_ ->]; by destruct s].
  destruct side; unfold encumber_seat, update_balance; safe_walk.
Qed.

Lemma unencumber_seat_Ok p c s s' : unencumber_seat Bid p c s = Ok s' →
  c <= cs_collateral_encumbered_shares s
  ∧ s' = s <| cs_collateral_encumbered_shares := cs_collateral_encumbered_shares s - c |>
           <| cs_collateral_withdrawable_shares := cs_collateral_withdrawable_shares s + c |>.
Proof. simpl. unfold update_balance. simpl. intros H. inv_ok. subst. split; [simpl in *; lia|done]. Qed.

Lemma unencumber_seat_returns p c s : returns (unencumber_seat Bid p c s) (λ s', same_key s' s).
Proof.
  apply returns_safe; [|intros s' [_ ->]%unencumber_seat_Ok; by destruct s].
  unfold unencumber_seat, update_balance. safe_walk.
Qed.

(** Replacing the same seat on both sides. *)
Lemma seats_kept_set_both S1 S2 i w u : seats_kept S1 S2 → counts_only w u →
  seats_kept (set_entry i w S1) (set_entry i u S2).
Proof.
  intros HR Hw. apply Forall2_fmap. eapply Forall2_impl; [exact HR|].
  intros [j a] [k b] [Hk Hab]. simpl in *. subst k. by case_decide.
Qed.

Lemma set_entry_twice {V} i (w x : V) E : set_entry i w (set_entry i x E) = set_entry i w E.
Proof.
  unfold set_entry. rewrite <- list_fmap_compose. apply list_fmap_ext. intros _ [j v] _. simpl.
  case_decide; simpl; by case_decide.
Qed.

Lemma take_order_sequence_returns m S A B L F : market_inv m S A B L F →
  returns (take_order_sequence m) (λ '(m', q), q = mf_order_sequence_number (mk_fixed m)
    ∧ market_inv m' S A B L F
    ∧ mk_fixed m' = mk_fixed m <| mf_order_sequence_number := q + 1 |>).
Proof.
  intros Hm. unfold take_order_sequence. apply returns_bind, returns_ok_or; [discriminate|].
  intros q [-> _]%checked_add_Some. split_and!; [done| |done]. by apply (market_inv_fixed m).
Qed.

(** Resting a bid on a freshly allocated block. *)
Lemma rest_bid_returns m S A B L F bid : market_inv m S A B L F → on_side Bid bid →
  returns ('(m, i) ← get_free_address m;
           _ ← require (negb (i =? NIL)) AccountDataTooSmall;
           rest_order m i bid) (λ m', ∃ i F' B1 B2, F = i :: F' ∧ B = B1 ++ B2
    ∧ market_inv m' S A (B1 ++ (i, bid) :: B2) L F'
    ∧ (∀ e, e ∈ B1 → resting_order_cmp e.2 bid = Lt)
    ∧ mf_order_sequence_number (mk_fixed m') = mf_order_sequence_number (mk_fixed m)).
Proof.
  intros Hm Hs. destruct F as [|i F].
  { rewrite (get_free_nil _ _ _ _ _ Hm). cbn [mbind result_bind]. rewrite Z.eqb_refl. discriminate. }
  destruct (get_free_spare _ _ _ _ _ _ _ Hm) as (h & m1 & Hm1 & -> & Hi1 & Hsp).
  destruct (insert_bid_inv _ _ _ _ _ _ _ bid Hi1 Hsp Hs) as (t & B1 & B2 & Hins & HB & Hi2 & Hlt & _).
  cbn [mbind result_bind]. rewrite (proj2 (Z.eqb_neq _ _) (sp_nil _ _ _ _ _ _ _ Hsp)).
  cbn [negb require mbind result_bind]. unfold rest_order. rewrite Hs. cbn [Side_as_u8].
  rewrite Hins. cbn. exists i, F, B1, B2. split_and!; try done. by subst m1.
Qed.

(** ** The contract *)

Section placement.
Context (args : PlaceOrderArgs) (m : Market) (v : Vault) (S : list (Z * ClaimedSeat)).
Context (A B : list (Z * RestingOrder)) (L : list (Z * MatchedLoan)) (F : list Z).
Context (V : list (Z * SubVault)) (D : list (Z * SubVaultDepositorSeat)).
Context (O : list (Z * SubVaultOrderRef)) (F1 F2 : list Z) (seat : ClaimedSeat).

Local Abbreviation taker := (pa_taker_seat_index args).
Local Abbreviation snapshot := (pa_share_price_snapshot_fp48 args).
Local Abbreviation margs :=
  (match_args_of args (fc_protocol_fee_bps_floor (mf_fee_config (mk_fixed m)))).

Record place_ready : Prop := {
  pr_market : market_inv m S A B L F;
  pr_below : sequences_below (mf_matched_loan_sequence (mk_fixed m)) L;
  pr_vault : vault_inv v V D O F1 F2;
  pr_principal : pa_principal_atoms args < 2 ^ 64;
  pr_collateral : in_u U64 (pa_collateral_atoms args);
  pr_taker : (taker, seat) ∈ S;
  pr_makers : ∀ e, e ∈ A → ro_trader_seat_index e.2 ∈ S.*1;
  pr_encumbered : ∀ e, e ∈ V → 0 <= sv_encumbered_in_orders_atoms e.2 }.

(** The taker's seat with [n] more collateral shares locked. *)
Definition lock_collateral (n : Z) (s : ClaimedSeat) : ClaimedSeat :=
  s <| cs_collateral_withdrawable_shares := cs_collateral_withdrawable_shares s - n |>
    <| cs_collateral_encumbered_shares := cs_collateral_encumbered_shares s + n |>.

(** The bid a residual rests as. *)
Definition residual_bid (r : MatchResult) (sequence : Z) : RestingOrder :=
  new_primary taker sequence Bid Limit (pa_rate_bps args) (pa_term_seconds args)
    (mr_remaining_principal r) (mr_remaining_collateral r) (pa_last_valid_unix_ts args) 0
    (pa_ltv_buffer_bps args) snapshot.

(** What became of the residual: the loans and bids it adds, and the shares released. *)
Inductive residual (r : PlaceOrderResult) (n : Z)
    : list MatchedLoan → list (Z * RestingOrder) → Z → Prop :=
  | residual_filled :
      mr_remaining_principal (po_match_result r) = 0 →
      mr_remaining_collateral (po_match_result r) = 0 → po_rested r = false →
      residual r n [] B 0
  | residual_dropped released :
      0 < mr_remaining_principal (po_match_result r) →
      pa_residual_mode args = RESIDUAL_MODE_DROP → po_rested r = false →
      atoms_to_shares_at_snapshot (mr_remaining_collateral (po_match_result r)) snapshot = Ok released →
      residual r n [] B released
  | residual_rested i B1 B2 :
      0 < mr_remaining_principal (po_match_result r) →
      pa_residual_mode args = RESIDUAL_MODE_REST → po_rested r = true →
      B = B1 ++ B2 →
      residual r n [] (B1 ++ (i, residual_bid (po_match_result r) (po_sequence r)) :: B2) 0
  | residual_borrowed loan required :
      0 < mr_remaining_principal (po_match_result r) →
      pa_residual_mode args ≠ RESIDUAL_MODE_REST → pa_residual_mode args ≠ RESIDUAL_MODE_DROP →
      po_rested r = false →
      ml_principal_atoms loan = mr_remaining_principal (po_match_result r) →
      ml_collateral_atoms loan = mr_remaining_collateral (po_match_result r) →
      ml_loan_type loan = 1 → ml_borrower_seat_index loan = taker →
      ml_sequence loan = n → po_p2pool_loan_sequence r = n →
      get_required_quote_collateral_to_back_debt (ml_principal_atoms loan)
        (pa_debt_oracle_price_fp48 args) (pa_collateral_oracle_price_fp48 args)
        (pa_debt_liability_weight_init_fp48 args) (pa_collateral_asset_weight_init_fp48 args)
        (mf_debt_mint_decimals (mk_fixed m)) (mf_collateral_mint_decimals (mk_fixed m))
        = Ok required → required <= ml_collateral_atoms loan →
      residual r n [loan] B 0.

(** The outcome of a placement. *)
Definition placed (m' : Market) (vo : option Vault) (r : PlaceOrderResult) : Prop :=
  ∃ fs extra B' S' L' F' v' V' locked released,
    market_inv m' S' A B' L' F' ∧ vo = Some v' ∧ vault_inv v' V' D O F1 F2 ∧ vaults_kept V V'
    ∧ total_encumbered V' = total_encumbered V + fills_principal fs
    ∧ po_sequence r = mf_order_sequence_number (mk_fixed m)
    ∧ mf_order_sequence_number (mk_fixed m') = mf_order_sequence_number (mk_fixed m) + 1
    ∧ mr_remaining_principal (po_match_result r) + fills_principal fs = pa_principal_atoms args
    ∧ mr_remaining_collateral (po_match_result r) + fills_collateral fs = pa_collateral_atoms args
    ∧ Forall (fill_ok margs (mk_fixed m) S V) fs
    ∧ (fi_ask <$> fs) `sublist_of` reverse A
    ∧ L'.*2 = L.*2 ++ (fi_loan <$> fs) ++ extra
    ∧ residual r (mf_matched_loan_sequence (mk_fixed m) + Z.of_nat (length fs)) extra B' released
    ∧ atoms_to_shares_at_snapshot (pa_collateral_atoms args) snapshot = Ok locked
    ∧ locked <= cs_collateral_withdrawable_shares seat
    ∧ seats_kept (set_entry taker (lock_collateral (locked - released) seat) S) S'.

Lemma lock_collateral_key n s : same_key (lock_collateral n s) s.
Proof. by destruct s. Qed.

(** Locking the taker's collateral does not change what a fill's gates say. *)
Lemma fill_ok_locked f0 f n k :
  f0 = mk_fixed m <| mf_order_sequence_number := k |> → (taker, seat) ∈ S →
  fill_ok margs f0 (set_entry taker (lock_collateral n seat) S) V f →
  fill_ok margs (mk_fixed m) S V f.
Proof.
  intros -> Ht [? ? ? ? Hself Hlender ? ? ? Hcur]. split; try done.
  - destruct Hlender as (s & [[Heq _]|[_ Hs]]%set_entry_elem_inv & Hk).
    + by destruct Hself.
    + by exists s.
  - destruct Hcur as (s & [[_ ->]|[Hne _]]%set_entry_elem_inv & Hc); [|done].
    exists seat. split; [done|]. by destruct seat.
Qed.

(** Releasing what is left of the locked collateral. *)
Lemma unencumber_returns m1 S1 B1 L1 G n p c : market_inv m1 S1 A B1 L1 G →
  (taker, seat) ∈ S → seats_kept (set_entry taker (lock_collateral n seat) S) S1 →
  returns (unencumber_atoms m1 taker Bid p c snapshot) (λ m', ∃ released S',
    atoms_to_shares_at_snapshot c snapshot = Ok released
    ∧ market_inv m' S' A B1 L1 G ∧ mk_fixed m' = mk_fixed m1
    ∧ seats_kept (set_entry taker (lock_collateral (n - released) seat) S) S').
Proof.
  intros Hm1 Ht HS. unfold unencumber_atoms.
  apply returns_bind, returns_safe; [auto with safe|]. intros ps _.
  apply returns_bind, returns_safe; [auto with safe|]. intros cs Hcs.
  destruct (seats_kept_elem _ _ _ _ HS (set_entry_elem _ (lock_collateral n seat) _ _ Ht))
    as (s1 & Hs1 & Hc1).
  eapply returns_mono; [apply (modify_seat_returns _ _ _ _ _ _ _ s1 _ Hm1 Hs1), unencumber_seat_returns|].
  intros m' _ (s' & Hs' & _ & Hm' & Hfix). exists cs, (set_entry taker s' S1).
  split_and!; [done|done|done|].
  rewrite <- (set_entry_twice taker _ (lock_collateral n seat)). apply seats_kept_set_both; [done|].
  apply unencumber_seat_Ok in Hs' as [_ ->]. unfold counts_only, lock_collateral in *.
  rewrite Hc1. simpl. f_equal; lia.
Qed.

(** The variable-rate loan of a residual. *)
Lemma p2pool_residual_returns m1 S1 B1 L1 G r X : market_inv m1 S1 A B1 L1 G →
  sequences_below (mf_matched_loan_sequence (mk_fixed m1)) L1 → seats_kept X S1 → taker ∈ X.*1 →
  returns (p2pool_residual m1 args r) (λ '(m', i, q), ∃ loan required S' G',
    market_inv m' S' A B1 (L1 ++ [(i, loan)]) G' ∧ seats_kept X S'
    ∧ q = mf_matched_loan_sequence (mk_fixed m1) ∧ ml_sequence loan = q
    ∧ ml_principal_atoms loan = mr_remaining_principal r
    ∧ ml_collateral_atoms loan = mr_remaining_collateral r
    ∧ ml_loan_type loan = 1 ∧ ml_borrower_seat_index loan = taker
    ∧ get_required_quote_collateral_to_back_debt (ml_principal_atoms loan)
        (pa_debt_oracle_price_fp48 args) (pa_collateral_oracle_price_fp48 args)
        (pa_debt_liability_weight_init_fp48 args) (pa_collateral_asset_weight_init_fp48 args)
        (mf_debt_mint_decimals (mk_fixed m1)) (mf_collateral_mint_decimals (mk_fixed m1))
        = Ok required
    ∧ required <= ml_collateral_atoms loan
    ∧ mf_order_sequence_number (mk_fixed m') = mf_order_sequence_number (mk_fixed m1)).
Proof.
  intros Hm1 Hb HS Ht. unfold p2pool_residual.
  apply returns_bind, returns_safe; [auto with safe|]. intros required Hreq.
  apply returns_bind, returns_require; [discriminate|]. intros Hle%Z.leb_le.
  apply returns_bind. eapply returns_mono;
    [by apply (bump_returns X A B1 m1 S1 L1 G taker _ Hm1 HS Ht), bump_open_borrow_returns|].
  intros m2 _ (S2 & Hm2 & HS2 & Hf2).
  apply returns_bind, returns_safe; [auto with safe|]. intros origin _. cbv zeta.
  set (node := {| ml_sequence := _ |}).
  apply returns_bind. eapply returns_mono;
    [apply (mint_returns _ _ _ _ _ _ node Hm2); [by rewrite Hf2|done]|].
  intros [m' i] _ (G' & -> & Hm' & _ & h & rt & Hf'). cbn [fst snd] in *.
  rewrite Hf2. exists node, required, S2, G'. split_and!; try done; rewrite ?Hf', ?Hf2; try done.
  subst node. cbn [ml_sequence]. by rewrite Hf2.
Qed.

(** Reading the outcome off the scan and the residual. *)
Lemma placed_intro s fs todo S1 L1 G v1 V1 m2 locked q m' r extra B' S' L' G' released :
  scan_inv margs m2 (set_entry taker (lock_collateral locked seat) S) A B L V D O F1 F2 v
    s fs todo S1 L1 G v1 V1 →
  mk_fixed m2 = mk_fixed m <| mf_order_sequence_number := q + 1 |> →
  q = mf_order_sequence_number (mk_fixed m) → place_ready →
  atoms_to_shares_at_snapshot (pa_collateral_atoms args) snapshot = Ok locked →
  locked <= cs_collateral_withdrawable_shares seat →
  mr_remaining_principal (po_match_result r) = ms_remaining_principal s →
  mr_remaining_collateral (po_match_result r) = ms_remaining_collateral s →
  market_inv m' S' A B' L' G' → L'.*2 = L1.*2 ++ extra →
  mf_order_sequence_number (mk_fixed m') = q + 1 → po_sequence r = q →
  residual r (mf_matched_loan_sequence (mk_fixed m) + Z.of_nat (length fs)) extra B' released →
  seats_kept (set_entry taker (lock_collateral (locked - released) seat) S) S' →
  placed m' (ms_vault s) r.
Proof.
  intros [] Hf2 -> Hready Hlocked Hle Hp Hc Hm' HL Hseq Hr Hres HS.
  exists fs, extra, B', S', L', G', v1, V1, locked, released. rewrite Hp, Hc.
  split_and!; try done.
  - eapply Forall_impl; [exact sc_fills|]. intros f Hf.
    exact (fill_ok_locked _ f locked _ Hf2 (pr_taker Hready) Hf).
  - destruct sc_order as (visited & -> & Hsub). rewrite reverse_app. by apply sublist_inserts_r.
  - by rewrite HL, sc_loans, app_assoc.
Qed.

(** Disposing of what the scan left. *)
Lemma residual_returns s fs todo S1 L1 G v1 V1 m2 locked q :
  scan_inv margs m2 (set_entry taker (lock_collateral locked seat) S) A B L V D O F1 F2 v
    s fs todo S1 L1 G v1 V1 →
  mk_fixed m2 = mk_fixed m <| mf_order_sequence_number := q + 1 |> →
  q = mf_order_sequence_number (mk_fixed m) → place_ready →
  atoms_to_shares_at_snapshot (pa_collateral_atoms args) snapshot = Ok locked →
  locked <= cs_collateral_withdrawable_shares seat →
  let r := mkMatchResult (ms_remaining_principal s) (ms_remaining_collateral s)
             (ms_total_filled s) (ms_num_fills s)
             (residual_action_of (pa_residual_mode args) (ms_remaining_principal s)) in
  returns (if 0 <? mr_remaining_principal r then
    match mr_residual_action r with
    | P2PoolBorrow =>
        '(m, index, sequence) ← p2pool_residual (ms_market s) args r;
        mret (m, ms_vault s, mkPlaceOrderResult q r index sequence false)
    | Rest =>
        m ← rest_residual (ms_market s) args r q;
        mret (m, ms_vault s, mkPlaceOrderResult q r NIL 0 true)
    | Drop =>
        m ← unencumber_atoms (ms_market s) taker Bid (mr_remaining_principal r)
              (mr_remaining_collateral r) snapshot;
        mret (m, ms_vault s, mkPlaceOrderResult q r NIL 0 false)
    end
  else Ok (ms_market s, ms_vault s, mkPlaceOrderResult q r NIL 0 false))
  (λ '(m', vo, r), placed m' vo r).
Proof.
  intros Hs Hf2 Hq Hready Hlocked Hle. cbv zeta. pose proof (pr_taker Hready) as Ht.
  pose proof (sc_header _ _ _ _ _ _ _ _ _ _ _ _ _ _ _ _ _ _ _ _ Hs) as (h & rt & Hfix).
  pose proof (sc_market _ _ _ _ _ _ _ _ _ _ _ _ _ _ _ _ _ _ _ _ Hs) as Hm.
  pose proof (sc_seats _ _ _ _ _ _ _ _ _ _ _ _ _ _ _ _ _ _ _ _ Hs) as HS.
  assert (mf_order_sequence_number (mk_fixed (ms_market s)) = q + 1) as Hos by (by rewrite Hfix, Hf2).
  assert (mf_matched_loan_sequence (mk_fixed (ms_market s))
    = mf_matched_loan_sequence (mk_fixed m) + Z.of_nat (length fs)) as Hls by (by rewrite Hfix, Hf2).
  assert (locked = locked - 0) as Hl0 by lia.
  cbn [mr_remaining_principal mr_residual_action]. destruct (Z.ltb_spec 0 (ms_remaining_principal s)) as [Hpos|H0].
  2:{ assert (ms_remaining_principal s = 0) as Hz.
      { destruct (sc_range _ _ _ _ _ _ _ _ _ _ _ _ _ _ _ _ _ _ _ _ Hs). lia. }
      eapply (placed_intro _ _ _ _ _ _ _ _ _ _ _ _ _ []); try done; [by rewrite app_nil_r| |].
      - by apply residual_filled; [| apply (sc_exhausted _ _ _ _ _ _ _ _ _ _ _ _ _ _ _ _ _ _ _ _ Hs)|].
      - by rewrite <- Hl0. }
  unfold residual_action_of. rewrite (proj2 (Z.eqb_neq _ _)) by lia.
  destruct (Z.eqb_spec (pa_residual_mode args) RESIDUAL_MODE_REST) as [Hrest|Hrest];
    [|destruct (Z.eqb_spec (pa_residual_mode args) RESIDUAL_MODE_DROP) as [Hdrop|Hdrop]].
  - unfold rest_residual. apply returns_bind.
    eapply returns_mono; [by apply (rest_bid_returns _ _ _ _ _ _ _ Hm)|].
    intros m' _ (i & G' & B1 & B2 & -> & HB & Hm' & _ & Hos').
    eapply (placed_intro _ _ _ _ _ _ _ _ _ _ _ _ _ []); try done; [by rewrite app_nil_r|congruence| |].
    + by apply residual_rested.
    + by rewrite <- Hl0.
  - apply returns_bind. eapply returns_mono; [by apply (unencumber_returns _ _ _ _ _ _ _ _ Hm Ht HS)|].
    intros m' _ (released & S' & Hrel & Hm' & Hfm' & HS').
    eapply (placed_intro _ _ _ _ _ _ _ _ _ _ _ _ _ []); try done; [by rewrite app_nil_r|congruence|].
    by apply residual_dropped.
  - apply returns_bind. eapply returns_mono.
    { apply (p2pool_residual_returns _ _ _ _ _ _ _ Hm
        (sc_below _ _ _ _ _ _ _ _ _ _ _ _ _ _ _ _ _ _ _ _ Hs) HS).
      rewrite set_entry_fst. apply list_elem_of_fmap. by exists (taker, seat). }
    intros [[m' i] n] _ (loan & required & S' & G' & Hm' & HS' & -> & Hn & Hp & Hc & Hty & Hb & Hreq & Hle' & Hos').
    eapply (placed_intro _ _ _ _ _ _ _ _ _ _ _ _ _ [loan]); try done; [by rewrite fmap_app|congruence| |].
    + rewrite Hfix, Hf2 in Hreq. eapply residual_borrowed; try done; cbn [po_p2pool_loan_sequence]; congruence.
    + by rewrite <- Hl0.
Qed.

(** The whole instruction body. *)
Lemma match_borrower_bid_returns : place_ready →
  returns (match_borrower_bid m args (Some v)) (λ '(m', vo, r), placed m' vo r).
Proof.
  intros Hready. pose proof Hready as [Hm Hbelow Hv Hprin Hcoll Ht Hmk Henc].
  unfold match_borrower_bid.
  apply returns_bind, returns_require; [discriminate|]. intros Hp%Z.leb_le.
  apply returns_bind, returns_require; [discriminate|]. intros _.
  apply returns_bind, returns_require; [discriminate|]. intros _.
  apply returns_bind, returns_safe; [auto with safe|]. intros ps _.
  apply returns_bind, returns_safe; [auto with safe|]. intros locked Hlocked.
  apply returns_bind. eapply returns_mono;
    [apply (modify_seat_returns _ _ _ _ _ _ _ seat _ Hm Ht), encumber_seat_returns|].
  intros m1 _ (s1 & Hs1 & _ & Hm1 & Hf1). apply encumber_seat_Ok in Hs1 as [Hle ->].
  apply returns_bind. eapply returns_mono; [by eapply take_order_sequence_returns|].
  intros [m2 q] _ (Hq & Hm2 & Hf2). rewrite Hf1 in *.
  fold (lock_collateral locked seat) in Hm1, Hm2.
  assert (mf_fee_config (mk_fixed m2) = mf_fee_config (mk_fixed m)) as -> by (by rewrite Hf2).
  apply returns_bind. eapply returns_mono.
  - apply (match_order_returns margs m2 (set_entry taker (lock_collateral locked seat) S) A B L V D O F1 F2 v)
      with F; try done; rewrite ?set_entry_fst; try done.
    + simpl. unfold MIN_PRINCIPAL_ATOMS in Hp. lia.
    + apply list_elem_of_fmap. by exists (taker, seat).
    + by rewrite Hf2.
  - intros [[m' vo] r] _ (s & fs & todo & S1 & L1 & G & v1 & V1 & Hs & -> & -> & ->).
    by eapply residual_returns.
Qed.
End placement.

(** ** Properties *)

(** The borrower of the sample market with collateral to spend, and its bid in each
    residual mode. *)
Definition sample_borrower : ClaimedSeat :=
  claimed_seat_new_empty 500 OWNER_KIND_USER 0
    <| cs_collateral_withdrawable_shares := 4000000 * SCALE |>.
Definition sample_place_market : Market :=
  sample_match_market <| mk_dynamic ::=
    <[0 := MB_seat (mkRBNode NIL 160 NIL Black 0 sample_borrower)]> |>.
Definition sample_place_args (mode : Z) : PlaceOrderArgs :=
  mkPlaceOrderArgs 0 900 86400 1500 3000000 mode 0 1000 fp48_ONE fp48_ONE fp48_ONE fp48_ONE
    (from_raw (SCALE / 2)) 0 0.
Definition sample_place_seats : list (Z * ClaimedSeat) :=
  [(0, sample_borrower); (160, claimed_seat_new_empty 5 OWNER_KIND_SUB_VAULT 1)].

Lemma sample_place_ready mode : place_ready (sample_place_args mode) sample_place_market
  sample_match_vault sample_place_seats [(320, sample_ask)] [] [] [480; 640]
  [(0, sample_sub_vault)] [] [] [] [] sample_borrower.
Proof.
  split.
  - apply check_market_inv. vm_compute. repeat split.
  - intros e He. by apply not_elem_of_nil in He.
  - apply check_vault_inv. vm_compute. repeat split.
  - vm_compute. reflexivity.
  - vm_compute. split; congruence.
  - left.
  - intros e He%list_elem_of_singleton. subst e. right. left.
  - intros e He%list_elem_of_singleton. subst e. vm_compute. congruence.
Defined.

(** C10: placing a borrower's bid.  On a well-formed market and vault
    [match_borrower_bid] never panics or loops, and when it succeeds both are
    well-formed again and everything is accounted for ([placed]).  The principal of the
    fills and the residual add up to the order, and so does the collateral.  The
    collateral is locked in the taker's seat, less the shares released, and no other
    balance of any seat moves.  Every fill passed every gate of the scan and is backed by
    the vault.  The residual is nothing, in which case no collateral is left either; or
    it is dropped and its collateral released; or it rests as one bid for exactly the
    atoms left; or it becomes one variable-rate loan for them, whose collateral meets the
    margin requirement.  Nothing else is added to the loans or to the book, and the order
    takes exactly one sequence number. *)
Theorem match_borrower_bid_accounts (args : PlaceOrderArgs) (m : Market) (v : Vault)
    (S : list (Z * ClaimedSeat)) (A B : list (Z * RestingOrder)) (L : list (Z * MatchedLoan))
    (F : list Z) (V : list (Z * SubVault)) (D : list (Z * SubVaultDepositorSeat))
    (O : list (Z * SubVaultOrderRef)) (F1 F2 : list Z) (seat : ClaimedSeat)
    (Hready : place_ready args m v S A B L F V D O F1 F2 seat) :
  returns (match_borrower_bid m args (Some v))
    (λ '(m', vo, r), placed args m S A B L V D O F1 F2 seat m' vo r).
Proof. by eapply match_borrower_bid_returns. Qed.

Lemma match_borrower_bid_accounts_witness :
  let outcome mode := match_borrower_bid sample_place_market (sample_place_args mode)
                        (Some sample_match_vault) in
  let ok mode := is_Ok (outcome mode) = true
    ∧ returns (outcome mode) (λ '(m', vo, r), placed (sample_place_args mode) sample_place_market
        sample_place_seats [(320, sample_ask)] [] [] [(0, sample_sub_vault)] [] [] [] []
        sample_borrower m' vo r) in
  ok RESIDUAL_MODE_P2POOL_FALLBACK ∧ ok RESIDUAL_MODE_REST ∧ ok RESIDUAL_MODE_DROP.
Proof.
  cbv zeta. split; [|split]; (split; [vm_compute; reflexivity|]).
  - exact (match_borrower_bid_accounts _ _ _ _ _ _ _ _ _ _ _ _ _ _
      (sample_place_ready RESIDUAL_MODE_P2POOL_FALLBACK)).
  - exact (match_borrower_bid_accounts _ _ _ _ _ _ _ _ _ _ _ _ _ _
      (sample_place_ready RESIDUAL_MODE_REST)).
  - exact (match_borrower_bid_accounts _ _ _ _ _ _ _ _ _ _ _ _ _ _
      (sample_place_ready RESIDUAL_MODE_DROP)).
Defined.
