(* ===== verification/BidsSpec.v ===== *)
(** * What the take of resting bids promises

    [match_resting_bids] is the other side of the matching engine: an ask of a sub-vault,
    newly placed or cranked, walks the bids of the book from the best down, prunes those
    that have expired and fills those that it may.  The theorem reads the book, the queue,
    the seats and the vault after it off the list of its visits. *)
From Stdlib Require Import Sorting.Sorted.
From stdpp Require Import base numbers list option gmap.
From S2P Require Import Prelude FixedPoint Loan Ltv SubVault Hypertree.
From S2P Require Import HypertreeFrame HypertreeSpec HypertreeOrder HypertreeRemove Market.
From S2P Require Import MarketSpec VaultTrees VaultSpec Matching MatchingSpec PlacementSpec.
Local Open Scope Z_scope.

(** ** Removing and changing one bid *)

Section bids.
Implicit Types (m : Market) (S : list (Z * ClaimedSeat)) (A B : list (Z * RestingOrder)).
Implicit Types (L : list (Z * MatchedLoan)) (F : list Z) (i : Z) (o : RestingOrder).

Lemma bid_side m S A B L F i o : market_inv m S A B L F → (i, o) ∈ B → on_side Bid o.
Proof.
  intros Hm Hi. pose proof (get_bid_inv _ _ _ _ _ _ _ _ Hm Hi) as Hg.
  destruct (bid_block Hm i) as (n & Hn & Hs); [apply list_elem_of_fmap; by exists (i, o)|].
  unfold get_order, read_value in Hg. assert (region_get (mk_dynamic m) i = Ok n) as E by (by apply region_get_Ok).
  rewrite E in Hg. by injection Hg as <-.
Qed.

Lemma remove_bid_inv m S A B1 B2 L F i o : market_inv m S A (B1 ++ (i, o) :: B2) L F →
  ∃ m', remove_order_from_tree_and_free m i = Ok m' ∧ market_inv m' S A (B1 ++ B2) L (i :: F)
    ∧ mf_matched_loan_sequence (mk_fixed m') = mf_matched_loan_sequence (mk_fixed m).
Proof.
  intros Hm. assert ((i, o) ∈ B1 ++ (i, o) :: B2) as Hi by (apply elem_of_app; right; left).
  pose proof (bid_side _ _ _ _ _ _ _ _ Hm Hi) as Hs. pose proof (mi_bids _ _ _ _ _ _ Hm) as Hbids.
  unfold remove_order_from_tree_and_free. rewrite (get_bid_inv _ _ _ _ _ _ _ _ Hm Hi).
  cbn [mbind result_bind]. rewrite Hs. cbn [Side_as_u8 Z.eqb Pos.eqb mbind result_bind].
  destruct (remove_tree_inv _ _ _ _ _ _ Hbids) as (t & -> & Hinv & Hout & Hdom & Hmx).
  destruct (tree_inv_block _ _ _ _ _ Hbids Hi) as (HiN & n & Hn & _). simpl in Hn.
  assert (is_Some (t_data t !! i)) as [b Hb].
  { apply elem_of_dom. rewrite Hdom. apply elem_of_dom. simpl. by rewrite Hn. }
  unfold release_address, free_list_add, region_set. simpl. rewrite Hb. simpl.
  eexists. split; [done|]. split; [|done].
  assert (i ∈ (B1 ++ (i, o) :: B2).*1) as HiB by (apply list_elem_of_fmap; by exists (i, o)).
  pose proof (tree_inv_nodup _ _ _ Hbids) as Hnd.
  assert (i ∉ (B1 ++ B2).*1) as Hi'.
  { rewrite fmap_app in Hnd |- *. simpl in Hnd. rewrite <- Permutation_middle in Hnd.
    by apply NoDup_cons in Hnd as [? _]. }
  assert (∀ c j, j ∉ (B1 ++ (i, o) :: B2).*1 → <[i := c]> (t_data t) !! j = mk_dynamic m !! j) as Ho.
  { intros c j Hj. rewrite lookup_insert_ne by congruence. by apply Hout. }
  assert (∀ j, j ∈ S.*1 ∨ j ∈ A.*1 ∨ j ∈ L.*1 ∨ j ∈ F → j ∉ (B1 ++ (i, o) :: B2).*1) as Hd.
  { clear Hi Hi' HiB. intros j Hj Hin. destruct Hj as [Hj|[Hj|[Hj|Hj]]]; block_clash. }
  destruct Hm as [Hms Hma _ Hml Hab Hbb Hmf Hmn Hmd]. split; simpl; try done.
  - eapply tree_inv_outside'; [exact Hms|done|done|apply Ho|auto].
  - eapply tree_inv_outside'; [exact Hma|done|done|apply Ho|auto].
  - apply (tree_inv_outside' _ [i] t); [exact Hinv|done|done| |].
    + intros j Hj. apply lookup_insert_ne. set_solver.
    + intros j Hj ->%list_elem_of_singleton. done.
  - eapply tree_inv_outside'; [exact Hml|done|done|apply Ho|auto].
  - by apply Hmx.
  - split_and!; [done|done|]. eexists. split; [apply lookup_insert_eq|].
    eapply free_chain_outside; [exact Hmf|apply Ho|auto].
  - apply NoDup_cons. split; [|done]. intros HF. by apply (Hd i); auto.
  - intros j Hj. apply Hmd. destruct (decide (i = j)) as [<-|Hne]; [by rewrite Hn|].
    rewrite lookup_insert_ne in Hj by done. apply elem_of_dom. simpl in Hdom. rewrite <- Hdom.
    by apply elem_of_dom.
Qed.

(** A change that keeps the place of a bid in the book. *)
Lemma modify_bid_returns m S A B L F i o f (Q : RestingOrder → Prop) :
  market_inv m S A B L F → (i, o) ∈ B →
  returns (f o) (λ o', Q o' ∧ ro_side o' = ro_side o ∧ ro_rate_bps o' = ro_rate_bps o
    ∧ ro_sequence_number o' = ro_sequence_number o) →
  returns (modify_order m i f) (λ m', ∃ o', Q o' ∧ market_inv m' S A (set_entry i o' B) L F
    ∧ mk_fixed m' = mk_fixed m).
Proof.
  intros Hm Hi Hf. pose proof (bid_side _ _ _ _ _ _ _ _ Hm Hi) as Hs.
  destruct (tree_inv_block _ _ _ _ _ (mi_bids _ _ _ _ _ _ Hm) Hi) as (HiN & n & Hn & Hv). simpl in Hn.
  unfold modify_order. destruct (f o) as [o'|e] eqn:E.
  - destruct Hf as (HQ & K1 & K2 & K3).
    destruct (tree_inv_modify_value _ _ _ _ _ o' f (mi_bids _ _ _ _ _ _ Hm) Hi E)
      as (d & Hd & Ht & _ & Ho); [by unfold on_side; rewrite K1| |].
    { intros y _. simpl. unfold resting_order_cmp. by rewrite K1, K2, K3. }
    simpl in Hd. rewrite Hd. cbn [mbind result_bind]. apply returns_Ok. exists o'.
    split; [done|split; [|done]].
    assert (i ∈ B.*1) as HiB by (apply list_elem_of_fmap; by exists (i, o)).
    assert (i ∉ S.*1 ∧ i ∉ A.*1 ∧ i ∉ L.*1 ∧ i ∉ F) as (HS & HA & HL & HF).
    { split_and!; intros Hx; clear Hi; block_clash. }
    pose proof (modify_value_frame (V:=RestingOrder) (λ _, False) _ i f d Hd) as Hfr.
    apply frame_dom in Hfr. simpl in Ho.
    destruct Hm as [Hms Hma Hmb Hml Hab Hbb Hmf Hmn Hmd]. split; simpl; try done.
    + eapply tree_inv_outside'; [exact Hms|done|done|exact Ho|set_solver].
    + eapply tree_inv_outside'; [exact Hma|done|done|exact Ho|set_solver].
    + eapply tree_inv_outside'; [exact Hml|done|done|exact Ho|set_solver].
    + by rewrite last_id_set_entry.
    + eapply free_chain_outside; [exact Hmf|exact Ho|set_solver].
    + intros j Hj. apply Hmd. apply elem_of_dom. rewrite <- Hfr. by apply elem_of_dom.
  - unfold modify_value. assert (region_get (mk_dynamic m) i = Ok n) as -> by (by apply region_get_Ok).
    cbn [mbind result_bind]. by rewrite Hv, E.
Qed.
End bids.

(** Removing an entry from a listing, by its block. *)
Section listings.
Context {V : Type}.
Implicit Types (E : list (Z * V)) (i : Z) (v : V).

Definition without i E : list (Z * V) := filter (λ e, e.1 ≠ i) E.

Lemma without_absent i E : i ∉ E.*1 → without i E = E.
Proof.
  induction E as [|[j v] E IH]; [done|]. cbn [fmap list_fmap fst]. intros [Hj Hi]%not_elem_of_cons.
  unfold without. rewrite filter_cons_True by (simpl; congruence). f_equal. by apply IH.
Qed.

Lemma split_apart E1 i v E2 : NoDup (E1 ++ (i, v) :: E2).*1 → i ∉ E1.*1 ∧ i ∉ E2.*1.
Proof.
  rewrite fmap_app. cbn [fmap list_fmap fst]. rewrite <- Permutation_middle.
  intros [H _]%NoDup_cons. by rewrite not_elem_of_app in H.
Qed.

Lemma without_split E1 i v E2 : NoDup (E1 ++ (i, v) :: E2).*1 →
  without i (E1 ++ (i, v) :: E2) = E1 ++ E2.
Proof.
  intros [H1 H2]%split_apart. unfold without. rewrite filter_app, filter_cons_False by (simpl; auto).
  fold (without i E1) (without i E2). by rewrite !without_absent.
Qed.
End listings.

(** ** Seats *)

(** Seats that may have changed but for their keys. *)
Definition seats_keyed (S0 S : list (Z * ClaimedSeat)) : Prop :=
  Forall2 (λ e0 e, e.1 = e0.1 ∧ same_key e.2 e0.2) S0 S.

Lemma same_key_trans a b c : same_key a b → same_key b c → same_key a c.
Proof. unfold same_key. intros (-> & -> & ->) (-> & -> & ->). done. Qed.

Lemma seats_keyed_refl S : seats_keyed S S.
Proof. induction S as [|e S IH]; by constructor. Qed.

Lemma seats_keyed_elem S0 S i s0 : seats_keyed S0 S → (i, s0) ∈ S0 →
  ∃ s, (i, s) ∈ S ∧ same_key s s0.
Proof.
  intros HR. induction HR as [|[j a] [k b] S0 S [Hk Hab] HR IH]; [by intros ?%not_elem_of_nil|].
  simpl in *. subst k. intros [[= -> ->]|Hi]%elem_of_cons.
  - exists b. split; [left|done].
  - destruct (IH Hi) as (s & Hs & Hc). exists s. split; [by right|done].
Qed.

Lemma keyed_seat m S0 S A B L F i : market_inv m S A B L F → seats_keyed S0 S → i ∈ S0.*1 →
  ∃ s0 s, (i, s0) ∈ S0 ∧ (i, s) ∈ S ∧ same_key s s0 ∧ get_seat m i = Ok s.
Proof.
  intros Hm HS ([j s0] & -> & Hj)%list_elem_of_fmap.
  destruct (seats_keyed_elem _ _ _ _ HS Hj) as (s & Hi & Hc). exists s0, s.
  split_and!; try done. by apply (get_seat_inv _ _ _ _ _ _ _ _ Hm).
Qed.

Lemma modify_keyed_returns m S0 S A B L F i f : market_inv m S A B L F → seats_keyed S0 S →
  i ∈ S0.*1 → (∀ s, returns (f s) (λ s', same_key s' s)) →
  returns (modify_seat m i f) (λ m', ∃ S', market_inv m' S' A B L F ∧ seats_keyed S0 S'
    ∧ mk_fixed m' = mk_fixed m).
Proof.
  intros Hm HS Hi Hf. destruct (keyed_seat _ _ _ _ _ _ _ _ Hm HS Hi) as (s0 & s & Hs0 & Hs & Hk & _).
  eapply returns_mono; [by apply (modify_seat_returns _ _ _ _ _ _ i s f Hm Hs)|].
  intros m' _ (s' & _ & Hk' & Hm' & Hfix). exists (set_entry i s' S). split_and!; [done| |done].
  eapply set_entry_Forall2; [exact HS|apply (tree_inv_nodup _ _ _ (mi_seats _ _ _ _ _ _ Hm))|exact Hs|].
  intros [j a] [Hj Ha]. split; [done|]. by eapply same_key_trans.
Qed.

(** The release of a bid's collateral. *)
Lemma unencumber_keyed_returns m S0 S A B L F i p c snapshot : market_inv m S A B L F →
  seats_keyed S0 S → i ∈ S0.*1 →
  returns (unencumber_atoms m i Bid p c snapshot) (λ m', ∃ S', market_inv m' S' A B L F
    ∧ seats_keyed S0 S' ∧ mk_fixed m' = mk_fixed m).
Proof.
  intros Hm HS Hi. unfold unencumber_atoms.
  apply returns_bind, returns_safe; [auto with safe|]. intros x _.
  apply returns_bind, returns_safe; [auto with safe|]. intros y _.
  eapply modify_keyed_returns; [exact Hm|exact HS|exact Hi|]. intros s. apply unencumber_seat_returns.
Qed.

(** ** The visits of a take *)

(** One fill: the bid, the sub-vault as it stood, the loan minted. *)
Record BidFill := mkBidFill {
  bf_bid : Z * RestingOrder;
  bf_sub_vault : SubVault;
  bf_loan : MatchedLoan }.

Inductive BidVisit :=
  | Pruned (e : Z * RestingOrder)
  | Taken (f : BidFill).

Definition visited_bid (x : BidVisit) : Z * RestingOrder :=
  match x with Pruned e => e | Taken f => bf_bid f end.

(** A bid after a fill of a part of it. *)
Definition bid_rest (f : BidFill) : RestingOrder :=
  (bf_bid f).2 <| ro_principal_atoms := ro_principal_atoms (bf_bid f).2 - ml_principal_atoms (bf_loan f) |>
               <| ro_collateral_atoms := ro_collateral_atoms (bf_bid f).2 - ml_collateral_atoms (bf_loan f) |>.

(** What a visit does to the bids: a bid that has expired or is filled leaves, one that is
    filled in part stays where it is. *)
Definition visit_book (B : list (Z * RestingOrder)) (x : BidVisit) : list (Z * RestingOrder) :=
  match x with
  | Pruned e => without e.1 B
  | Taken f =>
      if ml_principal_atoms (bf_loan f) =? ro_principal_atoms (bf_bid f).2
      then without (bf_bid f).1 B else set_entry (bf_bid f).1 (bid_rest f) B
  end.

Definition visit_loans (x : BidVisit) : list MatchedLoan :=
  match x with Pruned _ => [] | Taken f => [bf_loan f] end.
Definition taken_loans (xs : list BidVisit) : list MatchedLoan := xs ≫= visit_loans.
Definition loans_principal (l : list MatchedLoan) : Z := foldr (λ n t, ml_principal_atoms n + t) 0 l.

Lemma taken_loans_snoc xs x : taken_loans (xs ++ [x]) = taken_loans xs ++ visit_loans x.
Proof. unfold taken_loans. rewrite bind_app. cbn [mbind list_bind]. by rewrite app_nil_r. Qed.
Lemma loans_principal_app l l' : loans_principal (l ++ l') = loans_principal l + loans_principal l'.
Proof. induction l as [|n l IH]; simpl in *; [done|]. rewrite IH. lia. Qed.

Section take.
Context (args : MatchRestingBidsArgs) (m0 : Market) (v0 : Vault).
Context (S0 : list (Z * ClaimedSeat)) (A B0 : list (Z * RestingOrder)).
Context (L0 : list (Z * MatchedLoan)) (F0 : list Z) (V0 : list (Z * SubVault)).
Context (D : list (Z * SubVaultDepositorSeat)) (O : list (Z * SubVaultOrderRef)) (F1 F2 : list Z).

(** A well-formed market and vault, in which the ask and the bidders have seats. *)
Record bids_ready : Prop := {
  br_market : market_inv m0 S0 A B0 L0 F0;
  br_below : sequences_below (mf_matched_loan_sequence (mk_fixed m0)) L0;
  br_vault : vault_inv v0 V0 D O F1 F2;
  br_ask : ba_ask_seat_index args ∈ S0.*1;
  br_bidders : ∀ e, e ∈ B0 → ro_trader_seat_index e.2 ∈ S0.*1;
  br_sizes : ∀ e, e ∈ B0 → 0 < ro_principal_atoms e.2 < 2 ^ 64 ∧ in_u U64 (ro_collateral_atoms e.2);
  br_encumbered : ∀ e, e ∈ V0 → 0 <= sv_encumbered_in_orders_atoms e.2;
  br_max : in_u U32 (ba_max_fills args) }.

(** What every fill satisfies: the gates of the take, and the terms of the loan. *)
Record bid_fill_ok (f : BidFill) : Prop := {
  bo_live : order_is_expired (bf_bid f).2 (ba_now_unix_ts args) = false;
  bo_limit : ba_ask_rate_bps args <= ro_rate_bps (bf_bid f).2;
  bo_term : ro_term_seconds (bf_bid f).2 <= ba_ask_term_seconds args;
  bo_not_self : ro_trader_seat_index (bf_bid f).2 ≠ ba_ask_seat_index args;
  bo_curator : ∃ seat, (ro_trader_seat_index (bf_bid f).2, seat) ∈ S0
    ∧ cs_owner seat ≠ ba_ask_curator args;
  bo_vault : ∃ j p0, (j, p0) ∈ V0 ∧ reserved p0 (bf_sub_vault f);
  bo_sub_vault : sv_sub_vault_id (bf_sub_vault f) = ba_ask_sub_vault_id args
    ∧ sv_is_sunset (bf_sub_vault f) = 0;
  bo_amount : ml_principal_atoms (bf_loan f)
      = Z.min (ro_principal_atoms (bf_bid f).2) (sub_vault_idle (bf_sub_vault f))
    ∧ 0 < ml_principal_atoms (bf_loan f);
  bo_collateral : ml_collateral_atoms (bf_loan f)
      = if ml_principal_atoms (bf_loan f) =? ro_principal_atoms (bf_bid f).2
        then ro_collateral_atoms (bf_bid f).2
        else ro_collateral_atoms (bf_bid f).2 * ml_principal_atoms (bf_loan f)
               / ro_principal_atoms (bf_bid f).2;
  bo_covered : ∃ required, required_collateral_at_ltv_cap (ml_principal_atoms (bf_loan f))
      (ba_debt_oracle_price_fp48 args) (ba_collateral_oracle_price_fp48 args)
      (ml_origination_ltv_bps (bf_loan f)) (ba_debt_mint_decimals args)
      (ba_collateral_mint_decimals args) = Ok required
    ∧ required <= ml_collateral_atoms (bf_loan f);
  bo_ltv : ml_origination_ltv_bps (bf_loan f)
      = effective_origination_cap_bps (ba_sub_vault_max_ltv_bps args) (ro_ltv_buffer_bps (bf_bid f).2)
    ∧ ml_liquidation_ltv_bps (bf_loan f) = ba_sub_vault_liquidation_ltv_bps args;
  bo_rate : ml_lender_rate_bps (bf_loan f) = ba_ask_rate_bps args
    ∧ ml_borrower_rate_bps (bf_loan f)
      = Z.max (ro_rate_bps (bf_bid f).2) (ba_ask_rate_bps args + ba_fee_floor_bps args);
  bo_origination : mul_div_u64 (ml_principal_atoms (bf_loan f)) (ba_origination_bps args)
      BPS_PER_UNIT false = Ok (ml_origination_atoms (bf_loan f));
  bo_parties : ml_lender_seat_index (bf_loan f) = ba_ask_seat_index args
    ∧ ml_borrower_seat_index (bf_loan f) = ro_trader_seat_index (bf_bid f).2
    ∧ ml_term_seconds (bf_loan f) = ro_term_seconds (bf_bid f).2
    ∧ ml_borrower_collateral_share_price_snapshot_fp48 (bf_loan f)
      = ro_share_price_snapshot (bf_bid f).2 }.

Definition visit_ok (x : BidVisit) : Prop :=
  match x with
  | Pruned e => order_is_expired e.2 (ba_now_unix_ts args) = true
  | Taken f => bid_fill_ok f
  end.

(** The state after the visits [xs]; [todo] are the bids not yet visited, best last. *)
Record take_inv (s : BidsState) (xs : list BidVisit) (todo : list (Z * RestingOrder))
    (S : list (Z * ClaimedSeat)) (B : list (Z * RestingOrder)) (L : list (Z * MatchedLoan))
    (F : list Z) (V : list (Z * SubVault)) : Prop := {
  ti_market : market_inv (bs_market s) S A B L F;
  ti_vault : vault_inv (bs_vault s) V D O F1 F2;
  ti_book : B = foldl visit_book B0 xs;
  ti_todo : ∃ behind, B = todo ++ behind;
  ti_order : ∃ visited, B0 = todo ++ visited ∧ (visited_bid <$> xs) `sublist_of` reverse visited;
  ti_loans : L.*2 = L0.*2 ++ taken_loans xs;
  ti_below : sequences_below (mf_matched_loan_sequence (mk_fixed (bs_market s))) L;
  ti_sequence : mf_matched_loan_sequence (mk_fixed (bs_market s))
    = mf_matched_loan_sequence (mk_fixed m0) + Z.of_nat (length (taken_loans xs));
  ti_numbers : ml_sequence <$> taken_loans xs
    = (λ k, mf_matched_loan_sequence (mk_fixed m0) + Z.of_nat k) <$> seq 0 (length (taken_loans xs));
  ti_seats : seats_keyed S0 S;
  ti_sub_vaults : vaults_kept V0 V;
  ti_encumbered : total_encumbered V = total_encumbered V0 + loans_principal (taken_loans xs);
  ti_filled : bs_total_filled_principal s = loans_principal (taken_loans xs);
  ti_count : bs_num_fills s = Z.of_nat (length (taken_loans xs)) ∧ bs_num_fills s <= ba_max_fills args;
  ti_visits : Forall visit_ok xs }.

Context (Hready : bids_ready).

Lemma take_skip s xs todo e S B L F V :
  take_inv s xs (todo ++ [e]) S B L F V → take_inv s xs todo S B L F V.
Proof.
  intros []. destruct ti_todo0 as (behind & HB). destruct ti_order0 as (visited & HB0 & Hsub).
  split; try done.
  - exists (e :: behind). by rewrite HB, <- app_assoc.
  - exists (e :: visited). split; [by rewrite HB0, <- app_assoc|].
    rewrite reverse_cons. by apply sublist_inserts_r.
Qed.

(** The next bid, in the book as it is and as it was. *)
Lemma take_bid s xs todo i bid S B L F V : take_inv s xs (todo ++ [(i, bid)]) S B L F V →
  (i, bid) ∈ B0 ∧ ∃ behind, B = todo ++ (i, bid) :: behind.
Proof.
  intros [? ? ? (behind & HB) (visited & HB0 & _)]. split.
  - rewrite HB0. apply elem_of_app. left. apply elem_of_app. right. left.
  - exists behind. by rewrite HB, <- app_assoc.
Qed.

Lemma take_order xs todo i bid x : visited_bid x = (i, bid) →
  (∃ visited, B0 = (todo ++ [(i, bid)]) ++ visited ∧ (visited_bid <$> xs) `sublist_of` reverse visited) →
  ∃ visited, B0 = todo ++ visited ∧ (visited_bid <$> xs ++ [x]) `sublist_of` reverse visited.
Proof.
  intros Hx (visited & HB & Hsub). exists ((i, bid) :: visited). split; [by rewrite HB, <- app_assoc|].
  rewrite reverse_cons, fmap_app. cbn [fmap list_fmap]. rewrite Hx. by apply sublist_app.
Qed.

Lemma take_book_nodup s xs todo S B L F V : take_inv s xs todo S B L F V → NoDup B.*1.
Proof. intros H. apply (tree_inv_nodup _ _ _ (mi_bids _ _ _ _ _ _ (ti_market _ _ _ _ _ _ _ _ H))). Qed.

Lemma prune_returns s xs todo i bid S B L F V : take_inv s xs (todo ++ [(i, bid)]) S B L F V →
  order_is_expired bid (ba_now_unix_ts args) = true →
  returns (prune_bid s i bid) (λ s', bs_num_fills s' = bs_num_fills s
    ∧ ∃ S' B' F', take_inv s' (xs ++ [Pruned (i, bid)]) todo S' B' L F' V).
Proof.
  intros Hs Hexp. destruct (take_bid _ _ _ _ _ _ _ _ _ _ Hs) as (HiB0 & behind & HB).
  pose proof (take_book_nodup _ _ _ _ _ _ _ _ Hs) as Hnd.
  pose proof (br_bidders Hready _ HiB0) as Hseat. pose proof Hs as [].
  unfold prune_bid. apply returns_bind. eapply returns_mono;
    [by apply (unencumber_keyed_returns _ _ _ _ _ _ _ _ _ _ _ ti_market0 ti_seats0 Hseat)|].
  intros m1 _ (S1 & Hm1 & HS1 & Hf1). rewrite HB in Hm1, Hnd.
  destruct (remove_bid_inv _ _ _ _ _ _ _ _ _ Hm1) as (m2 & -> & Hm2 & Hseq).
  cbn [mbind result_bind]. apply returns_Ok. split; [done|].
  exists S1, (todo ++ behind), (i :: F). split; cbn [bs_market bs_vault bs_total_filled_principal bs_num_fills];
    rewrite ?taken_loans_snoc, ?app_nil_r; try done.
  - rewrite foldl_app, <- ti_book0, HB. cbn [foldl visit_book fst]. by rewrite without_split.
  - by exists behind.
  - by apply take_order with i bid.
  - simpl. by rewrite Hseq, Hf1.
  - simpl. by rewrite Hseq, Hf1.
  - apply Forall_app. split; [done|]. by constructor.
Qed.

(** The sub-vault the ask lends, when it has capacity. *)
Lemma take_idle s xs todo S B L F V j p : take_inv s xs todo S B L F V → (j, p) ∈ V →
  0 <= sv_encumbered_in_orders_atoms p ∧ ∃ p0, (j, p0) ∈ V0 ∧ reserved p0 p.
Proof.
  intros Hs Hp. destruct (vaults_kept_elem _ _ _ _ (ti_sub_vaults _ _ _ _ _ _ _ _ Hs) Hp) as (p0 & Hp0 & Hr).
  split; [|by exists p0]. destruct Hr as (x & k & Hx & -> & _).
  pose proof (br_encumbered Hready _ Hp0). simpl in *. lia.
Qed.

(** The bid after a fill: gone when it is filled whole, smaller otherwise. *)
Lemma settle_bid_returns m S A1 B1 B2 L F i bid fill c : let B := B1 ++ (i, bid) :: B2 in
  market_inv m S A1 B L F → 0 <= fill <= ro_principal_atoms bid →
  returns (if fill =? ro_principal_atoms bid then remove_order_from_tree_and_free m i
           else modify_order m i (shrink_bid fill c))
    (λ m', ∃ F' B', market_inv m' S A1 B' L F'
       ∧ mf_matched_loan_sequence (mk_fixed m') = mf_matched_loan_sequence (mk_fixed m)
       ∧ B' = (if fill =? ro_principal_atoms bid then without i B
               else set_entry i (bid <| ro_principal_atoms := ro_principal_atoms bid - fill |>
                                     <| ro_collateral_atoms := ro_collateral_atoms bid - c |>) B)
       ∧ ∃ behind, B' = B1 ++ behind).
Proof.
  intros B Hm Hfill. pose proof (tree_inv_nodup _ _ _ (mi_bids _ _ _ _ _ _ Hm)) as Hnd.
  destruct (Z.eqb_spec fill (ro_principal_atoms bid)) as [_|Hne].
  - destruct (remove_bid_inv _ _ _ _ _ _ _ _ _ Hm) as (m' & -> & Hm' & Hseq).
    apply returns_Ok. exists (i :: F), (B1 ++ B2).
    split_and!; [done|done|unfold B; by rewrite (without_split _ _ _ _ Hnd)|by exists B2].
  - eapply returns_mono; [eapply (modify_bid_returns _ _ _ _ _ _ i bid _
      (λ o, o = bid <| ro_principal_atoms := ro_principal_atoms bid - fill |>
                    <| ro_collateral_atoms := ro_collateral_atoms bid - c |>) Hm)|].
    + apply elem_of_app. right. left.
    + unfold shrink_bid, order_reduce. apply returns_bind, returns_bind, returns_ok_or; [discriminate|].
      intros p [-> _]%checked_sub_Some. apply returns_Ok, returns_bind, returns_ok_or; [discriminate|].
      intros q [-> _]%checked_sub_Some. by apply returns_Ok.
    + intros m' _ (o & -> & Hm' & Hfix). exists F. eexists. split_and!; [exact Hm'|by rewrite Hfix|done|].
      unfold B. rewrite set_entry_split by exact Hnd. by eexists.
Qed.

Lemma fill_bid_returns s xs todo i bid S B L F V j p fill c eff :
  take_inv s xs (todo ++ [(i, bid)]) S B L F V → bs_num_fills s < ba_max_fills args →
  lookup_sub_vault (bs_vault s) (ba_ask_sub_vault_id args) = Ok j → j ≠ NIL → (j, p) ∈ V →
  0 < fill → fill = Z.min (ro_principal_atoms bid) (sub_vault_idle p) →
  (∀ loan, ml_principal_atoms loan = fill → ml_collateral_atoms loan = c →
     ml_origination_ltv_bps loan = eff →
     ml_liquidation_ltv_bps loan = ba_sub_vault_liquidation_ltv_bps args →
     ml_lender_rate_bps loan = ba_ask_rate_bps args →
     ml_borrower_rate_bps loan = Z.max (ro_rate_bps bid) (ba_ask_rate_bps args + ba_fee_floor_bps args) →
     mul_div_u64 fill (ba_origination_bps args) BPS_PER_UNIT false = Ok (ml_origination_atoms loan) →
     ml_lender_seat_index loan = ba_ask_seat_index args →
     ml_borrower_seat_index loan = ro_trader_seat_index bid →
     ml_term_seconds loan = ro_term_seconds bid →
     ml_borrower_collateral_share_price_snapshot_fp48 loan = ro_share_price_snapshot bid →
     bid_fill_ok (mkBidFill (i, bid) p loan)) →
  returns (fill_bid args s i bid fill c eff) (λ s',
    ∃ xs' S' B' L' F' V', take_inv s' xs' todo S' B' L' F' V').
Proof.
  intros Hs Hmax Hj Hn Hp Hpos Hfill Hok.
  destruct (take_bid _ _ _ _ _ _ _ _ _ _ Hs) as (HiB0 & behind & HB).
  destruct (take_idle _ _ _ _ _ _ _ _ _ _ Hs Hp) as [Hep _].
  destruct (sub_vault_idle_le p Hep) as [Hi0 Hidle].
  pose proof (br_bidders Hready _ HiB0) as Hseat. pose proof (br_max Hready) as Hmx.
  pose proof Hs as []. unfold fill_bid. apply returns_bind.
  eapply returns_mono; [by apply (reserve_fill_inv _ V D O F1 F2 _ j p)|].
  intros v' _ [Hv' _]. apply returns_bind.
  eapply returns_mono; [apply floored_borrower_rate_returns|]. intros rate _ [-> Hrate].
  apply returns_bind, returns_safe; [auto with safe|]. intros origin Hx. cbv zeta.
  match goal with |- context [mint_matched_loan _ ?n] => set (loan := n) end.
  specialize (Hok loan eq_refl eq_refl eq_refl eq_refl eq_refl eq_refl Hx eq_refl eq_refl eq_refl eq_refl).
  apply returns_bind. eapply returns_mono;
    [by apply (mint_returns _ S A B L F loan ti_market0 ti_below0)|].
  intros [m1 li] _ (F' & -> & Hm1 & Hseq & h & r & Hf1). cbn [fst snd] in *.
  apply returns_bind. eapply returns_mono;
    [apply (modify_keyed_returns _ _ _ _ _ _ _ _ _ Hm1 ti_seats0 Hseat);
     intros x; eapply returns_mono; [apply bump_open_borrow_returns|by intros ? _ [_ ?]]|].
  intros m2 _ (S2 & Hm2 & HS2 & Hf2). apply returns_bind. eapply returns_mono;
    [apply (modify_keyed_returns _ _ _ _ _ _ _ _ _ Hm2 HS2 (br_ask Hready));
     intros x; eapply returns_mono; [apply bump_open_lend_returns|by intros ? _ [_ ?]]|].
  intros m3 _ (S3 & Hm3 & HS3 & Hf3). apply returns_bind. rewrite HB in Hm3.
  eapply returns_mono; [apply (settle_bid_returns _ _ _ _ _ _ _ _ _ _ c Hm3); lia|].
  intros m4 _ (F4 & B4 & Hm4 & Hf4 & HB4 & Hbehind). rewrite <- HB in HB4.
  apply returns_bind, returns_ok_or; [discriminate|]. intros total [-> _]%checked_add_Some.
  apply returns_Ok.
  exists (xs ++ [Taken (mkBidFill (i, bid) p loan)]), S3, B4, (L ++ [(li, loan)]), F4,
    (set_entry j (filled p fill) V).
  assert (mf_matched_loan_sequence (mk_fixed m4) = mf_matched_loan_sequence (mk_fixed (bs_market s)) + 1) as Hfix.
  { rewrite Hf4, Hf3, Hf2, Hf1. done. }
  pose proof (tree_inv_nodup _ _ _ (vi_sub_vaults _ _ _ _ _ _ ti_vault0)) as HndV.
  split; cbn [bs_market bs_vault bs_total_filled_principal bs_num_fills];
    rewrite ?taken_loans_snoc, ?loans_principal_app, ?length_app; cbn [visit_loans bf_loan length]; try done.
  - rewrite foldl_app, <- ti_book0. exact HB4.
  - by apply take_order with i bid.
  - by rewrite fmap_app, ti_loans0, <- app_assoc.
  - intros e [He|He%list_elem_of_singleton]%elem_of_app; rewrite Hfix; simpl; [|subst e; simpl; lia].
    specialize (ti_below0 _ He). lia.
  - rewrite Hfix, ti_sequence0. lia.
  - rewrite seq_app, !fmap_app, ti_numbers0. f_equal. simpl. by rewrite ti_sequence0.
  - apply vaults_kept_fill; try done; lia.
  - rewrite (total_encumbered_set _ _ p) by done. unfold filled. simpl. lia.
  - simpl. lia.
  - destruct ti_count0 as [Hc _]. rewrite Hc in *. zlia.
  - apply Forall_app. split; [done|]. by constructor.
Qed.

(** The body of the walk on one bid. *)
Lemma match_bid_returns s xs todo i bid S B L F V :
  take_inv s xs (todo ++ [(i, bid)]) S B L F V → bs_num_fills s < ba_max_fills args →
  returns (match_bid args s i bid) (λ st,
    match st with
    | Filled s' => ∃ xs' S' B' L' F' V', take_inv s' xs' todo S' B' L' F' V'
    | _ => True
    end).
Proof.
  intros Hs Hmax. destruct (take_bid _ _ _ _ _ _ _ _ _ _ Hs) as (HiB0 & _).
  pose proof (br_bidders Hready _ HiB0) as Hseat. simpl in Hseat.
  destruct (br_sizes Hready _ HiB0) as (Hprin & Hcoll). simpl in Hprin, Hcoll. unfold match_bid.
  destruct (order_is_expired bid _) eqn:Hexp.
  { apply returns_fmap. eapply returns_mono; [by apply (prune_returns _ _ _ _ _ _ _ _ _ _ Hs)|].
    intros s' _ (_ & S' & B' & F' & Hs'). by eexists _, S', B', L, F', V. }
  destruct (Z.eqb_spec (ro_trader_seat_index bid) (ba_ask_seat_index args)) as [|Hself]; [exact I|].
  destruct (keyed_seat _ _ _ _ _ _ _ _ (ti_market _ _ _ _ _ _ _ _ Hs) (ti_seats _ _ _ _ _ _ _ _ Hs) Hseat)
    as (s0 & seat & Hs0 & _ & Hk & ->). cbn [mbind result_bind].
  destruct (Z.eqb_spec (cs_owner seat) (ba_ask_curator args)) as [|Hcur]; [exact I|].
  destruct (Z.ltb_spec (ro_rate_bps bid) (ba_ask_rate_bps args)) as [|Hlimit]; [exact I|].
  destruct (Z.ltb_spec (ba_ask_term_seconds args) (ro_term_seconds bid)) as [|Hterm]; [exact I|].
  destruct (read_ask_capacity_inv _ _ _ _ _ _ (ba_ask_sub_vault_id args)
    (ti_vault _ _ _ _ _ _ _ _ Hs)) as (cap & -> & Hcap). cbn [mbind result_bind].
  destruct (Z.eqb_spec (ac_idle cap) 0) as [|Hidle]; [exact I|].
  destruct (Hcap Hidle) as (j & p & Hj & Hn & Hp & Hid & Hsun & ->). cbn [ac_idle capacity_of] in *.
  destruct (take_idle _ _ _ _ _ _ _ _ _ _ Hs Hp) as [Hep (p0 & Hp0 & Hr)].
  destruct (sub_vault_idle_le p Hep) as [Hi0 _]. cbv zeta.
  set (fill := Z.min _ _). assert (0 < fill <= ro_principal_atoms bid) as Hfill by lia.
  apply returns_bind. eapply returns_mono with (Q := λ c, c = if fill =? ro_principal_atoms bid
    then ro_collateral_atoms bid else ro_collateral_atoms bid * fill / ro_principal_atoms bid).
  { destruct (fill =? ro_principal_atoms bid); [by apply returns_Ok|].
    apply returns_safe; [auto with safe|]. intros c Hc.
    by apply mul_div_u64_Ok in Hc as (_ & -> & _); [|zlia..]. }
  intros c _ Hc. apply returns_bind, returns_safe; [auto with safe|]. intros required Hreq.
  destruct (Z.ltb_spec c required) as [|Hcov]; [exact I|].
  apply returns_fmap. eapply (fill_bid_returns _ _ _ _ _ _ _ _ _ _ _ _ _ _ _ Hs Hmax Hj Hn Hp);
    [lia|done|].
  intros loan K1 K2 K3 K4 K5 K6 K7 K8 K9 K10 K11.
  split; cbn [bf_bid bf_sub_vault bf_loan fst snd]; rewrite ?K1, ?K2, ?K3; try done.
  - exists s0. split; [done|]. by destruct Hk as (_ & <- & _).
  - by exists j, p0.
  - by split; [|lia].
  - by exists required.
Qed.

(** The walk from the next bid on. *)
Lemma bids_loop_returns fuel s xs todo S B L F V :
  take_inv s xs todo S B L F V → (length todo <= fuel)%nat →
  returns (bids_loop fuel args s (last_id todo)) (λ s',
    ∃ xs' todo' S' B' L' F' V', take_inv s' xs' todo' S' B' L' F' V').
Proof.
  revert s xs todo S B L F V. induction fuel as [|fuel IH]; intros s xs todo S B L F V Hs Hf;
    cbn [bids_loop].
  - destruct todo; [|simpl in Hf; lia]. change (last_id []) with NIL. rewrite Z.eqb_refl.
    by exists xs, [], S, B, L, F, V.
  - destruct (negb _ && _) eqn:Hc; [|by exists xs, todo, S, B, L, F, V].
    apply andb_true_iff in Hc as [Hnil%negb_true_iff%Z.eqb_neq Hmax%Z.ltb_lt].
    destruct (last todo) as [[i bid]|] eqn:Hl; [|by apply last_None in Hl as ->].
    apply last_Some in Hl as [todo' ->]. rewrite last_id_snoc in *.
    rewrite length_app in Hf. simpl in Hf.
    pose proof (ti_market _ _ _ _ _ _ _ _ Hs) as Hm.
    destruct (take_bid _ _ _ _ _ _ _ _ _ _ Hs) as (_ & behind & HB). rewrite HB in Hm.
    rewrite (get_bid_inv _ _ _ _ _ _ i bid Hm) by (apply elem_of_app; right; left).
    cbn [mbind result_bind].
    rewrite (next_tree_inv _ _ _ _ _ _ (mi_bids _ _ _ _ _ _ Hm)). cbn [mbind result_bind].
    apply returns_bind. eapply returns_mono; [by apply (match_bid_returns _ _ _ _ _ _ _ _ _ _ Hs)|].
    intros [| |s'] _ Hst.
    + eapply IH; [by eapply take_skip|lia].
    + by exists xs, (todo' ++ [(i, bid)]), S, B, L, F, V.
    + destruct Hst as (xs' & S' & B' & L' & F' & V' & Hs'). eapply IH; [done|lia].
Qed.

(** The whole walk. *)
Lemma match_resting_bids_returns : returns (match_resting_bids m0 args v0) (λ s,
  ∃ xs todo S B L F V, take_inv s xs todo S B L F V).
Proof.
  pose proof (br_market Hready) as Hm.
  unfold match_resting_bids. rewrite (mi_bids_best _ _ _ _ _ _ Hm).
  apply (bids_loop_returns _ _ [] B0 S0 B0 L0 F0 V0).
  - pose proof Hready as [].
    split; cbn [bs_market bs_vault bs_total_filled_principal bs_num_fills taken_loans mbind list_bind
      loans_principal foldr length]; try done; try lia.
    + exists []. by rewrite app_nil_r.
    + exists []. split; [by rewrite app_nil_r|constructor].
    + by rewrite app_nil_r.
    + apply seats_keyed_refl.
    + apply vaults_kept_refl.
    + split; [done|]. apply br_max0.
  - pose proof (tree_inv_fuel _ _ _ (mi_bids _ _ _ _ _ _ Hm)). lia.
Qed.

(** A bid that was visited was in the book. *)
Lemma visited_in_book s xs todo S B L F V x : take_inv s xs todo S B L F V → x ∈ xs → visited_bid x ∈ B0.
Proof.
  intros Hs Hx. destruct (ti_order _ _ _ _ _ _ _ _ Hs) as (visited & -> & Hsub).
  apply elem_of_app. right. apply elem_of_reverse. eapply elem_of_sublist;
    [|exact Hsub]. apply list_elem_of_fmap. by exists x.
Qed.
End take.

(** ** The contract *)

(** A market with a borrower's seat, a sub-vault's seat, the borrower's bid for 1500 atoms
    at 900 bps and, below it, one at 700 bps that has expired. *)
Definition sample_bid : RestingOrder :=
  new_primary 0 0 Bid Limit 900 86400 1500 3000000 0 0 0 fp48_ONE.
Definition sample_stale_bid : RestingOrder :=
  new_primary 0 1 Bid Limit 700 86400 100 200000 10 0 0 fp48_ONE.
Definition sample_bidder : ClaimedSeat :=
  claimed_seat_new_empty 500 OWNER_KIND_USER 0
    <| cs_collateral_encumbered_shares := 3200000 * SCALE |>.
Definition sample_bid_seats : list (Z * ClaimedSeat) :=
  [(0, sample_bidder); (160, claimed_seat_new_empty 5 OWNER_KIND_SUB_VAULT 1)].
Definition sample_bid_market : Market :=
  mkMarket (sample_header <| mf_num_bytes_allocated := 800 |> <| mf_claimed_seats_root_index := 0 |>
      <| mf_bids_root_index := 320 |> <| mf_bids_best_index := 320 |>
      <| mf_free_list_head_index := 640 |>)
    (<[0 := MB_seat (mkRBNode NIL 160 NIL Black 0 sample_bidder)]>
    (<[160 := MB_seat (mkRBNode NIL NIL 0 Red 0 (claimed_seat_new_empty 5 OWNER_KIND_SUB_VAULT 1))]>
    (<[320 := MB_order (mkRBNode 480 NIL NIL Black 0 sample_bid)]>
    (<[480 := MB_order (mkRBNode NIL NIL 320 Red 0 sample_stale_bid)]>
    (<[640 := MB_free (mkFreeListNode NIL)]> ∅))))).
Definition sample_bids_args : MatchRestingBidsArgs :=
  mkRestingBidsArgs 160 1 800 2592000 0 8000 9000 77 100 50 1000 fp48_ONE fp48_ONE fp48_ONE 0 0 8.

Lemma sample_bids_ready : bids_ready sample_bids_args sample_bid_market sample_match_vault
  sample_bid_seats [] [(480, sample_stale_bid); (320, sample_bid)] [] [640]
  [(0, sample_sub_vault)] [] [] [] [].
Proof.
  split.
  - apply check_market_inv. vm_compute. repeat split.
  - intros e He. by apply not_elem_of_nil in He.
  - apply check_vault_inv. vm_compute. repeat split.
  - right. left.
  - intros e [->|He%list_elem_of_singleton]%elem_of_cons; [left|]. subst e. left.
  - intros e [->|He%list_elem_of_singleton]%elem_of_cons; [vm_compute; repeat split; congruence|].
    subst e. vm_compute. repeat split; congruence.
  - intros e He%list_elem_of_singleton. subst e. vm_compute. congruence.
  - vm_compute. split; congruence.
Qed.

(** C14: the take of resting bids.  On a well-formed market and vault the walk never panics
    or loops.  When it succeeds it has visited some of the bids, in price-time order and each
    at most once: those it pruned had expired, and those it filled passed every gate - live,
    not the ask's own and not the curator's, at the ask's rate or above, no longer than its
    term, within what the sub-vault has idle, and with collateral that covers the sub-vault's
    LTV cap at the oracle prices.  The market is again well-formed: its book is the old one
    less the bids that were pruned or filled whole, with the bid filled in part smaller by
    exactly what the loan takes and in its place; its loans are the old ones followed by one
    per fill, numbered consecutively; and the sub-vault's encumbrance has grown by the
    principal filled, which the walk reports, within the number of fills allowed. *)
Theorem match_resting_bids_fills (args : MatchRestingBidsArgs) (m0 : Market) (v0 : Vault)
    (S0 : list (Z * ClaimedSeat)) (A B0 : list (Z * RestingOrder)) (L0 : list (Z * MatchedLoan))
    (F0 : list Z) (V0 : list (Z * SubVault)) (D : list (Z * SubVaultDepositorSeat))
    (O : list (Z * SubVaultOrderRef)) (F1 F2 : list Z)
    (Hready : bids_ready args m0 v0 S0 A B0 L0 F0 V0 D O F1 F2) :
  returns (match_resting_bids m0 args v0) (λ s, ∃ xs S L F V,
    market_inv (bs_market s) S A (foldl visit_book B0 xs) L F
    ∧ vault_inv (bs_vault s) V D O F1 F2
    ∧ (visited_bid <$> xs) `sublist_of` reverse B0
    ∧ Forall (visit_ok args S0 V0) xs
    ∧ L.*2 = L0.*2 ++ taken_loans xs
    ∧ ml_sequence <$> taken_loans xs
        = (λ k, mf_matched_loan_sequence (mk_fixed m0) + Z.of_nat k) <$> seq 0 (length (taken_loans xs))
    ∧ seats_keyed S0 S ∧ vaults_kept V0 V
    ∧ bs_total_filled_principal s = loans_principal (taken_loans xs)
    ∧ total_encumbered V = total_encumbered V0 + bs_total_filled_principal s
    ∧ bs_num_fills s = Z.of_nat (length (taken_loans xs)) ∧ bs_num_fills s <= ba_max_fills args).
Proof.
  eapply returns_mono; [by eapply match_resting_bids_returns|].
  intros s _ (xs & todo & S & B & L & F & V & []). exists xs, S, L, F, V. subst B.
  destruct ti_count0. rewrite ti_filled0 in *. split_and!; try done.
  destruct ti_order0 as (visited & -> & Hsub). rewrite reverse_app. by apply sublist_inserts_r.
Qed.

Lemma match_resting_bids_fills_witness :
  (λ s, (bs_total_filled_principal s, bs_num_fills s, bs_num_pruned s)) <$>
    match_resting_bids sample_bid_market sample_bids_args sample_match_vault = Ok (999, 1, 1)
  ∧ returns (match_resting_bids sample_bid_market sample_bids_args sample_match_vault)
      (λ s, ∃ xs S L F, market_inv (bs_market s) S []
          (foldl visit_book [(480, sample_stale_bid); (320, sample_bid)] xs) L F
        ∧ L.*2 = taken_loans xs ∧ seats_keyed sample_bid_seats S).
Proof.
  split; [vm_compute; reflexivity|]. eapply returns_mono.
  - exact (match_resting_bids_fills _ _ _ _ _ _ _ _ _ _ _ _ _ sample_bids_ready).
  - intros s _ (xs & S & L & F & V & Hm & _ & _ & _ & HL & _ & HS & _).
    by exists xs, S, L, F.
Defined.
