(* ===== verification/RefinanceSpec.v ===== *)
(** * What the refinancing of a variable-rate loan promises

    [match_p2pool_residual_against_asks] walks the asks for a loan that marginfi has funded
    so far: each fill replaces a part of the loan by a fixed one from a sub-vault, backed
    by the same part of its collateral.  [refinance_inv] is the invariant of the walk;
    the seats, the headers and the vaults are described as for [match_order]. *)
From stdpp Require Import base numbers list option gmap.
From S2P Require Import Prelude FixedPoint Loan Ltv SubVault Hypertree.
From S2P Require Import HypertreeFrame HypertreeSpec HypertreeOrder Market.
From S2P Require Import MarketSpec VaultTrees VaultSpec Matching MatchingSpec.
Local Open Scope Z_scope.

(** The part of the collateral that goes with a part of the principal. *)
Definition refinance_share (args : MatchP2PoolRefinanceArgs) (principal : Z) : Z :=
  ra_loan_collateral_atoms args * principal / ra_principal_cap_atoms args.

Definition cross_of (f : Fill) : P2PoolRefinanceCross :=
  mkCross (sv_sub_vault_id (fi_sub_vault f)) (ro_rate_bps (fi_ask f).2)
    (ml_principal_atoms (fi_loan f)).

(** What every fill satisfies: the gates of the walk, and the terms of the loan. *)
Record refinance_ok (args : MatchP2PoolRefinanceArgs) (S0 : list (Z * ClaimedSeat))
    (V0 : list (Z * SubVault)) (f : Fill) : Prop := {
  re_live : order_is_expired (fi_ask f).2 (ra_now_unix_ts args) = false;
  re_floor : ra_ask_floor_rate_bps args <= ro_rate_bps (fi_ask f).2;
  re_limit : ro_rate_bps (fi_ask f).2 <= ra_max_acceptable_rate_bps args;
  re_term : ra_term_remaining_seconds args <= ro_term_seconds (fi_ask f).2;
  re_not_self : ro_trader_seat_index (fi_ask f).2 ≠ ra_borrower_seat_index args;
  re_lender : ∃ seat, (ro_trader_seat_index (fi_ask f).2, seat) ∈ S0
    ∧ cs_owner_kind seat = OWNER_KIND_SUB_VAULT
    ∧ cs_sub_vault_id seat = sv_sub_vault_id (fi_sub_vault f);
  re_vault : ∃ j p0, (j, p0) ∈ V0 ∧ reserved p0 (fi_sub_vault f);
  re_sunset : sv_is_sunset (fi_sub_vault f) = 0;
  re_curator : ∃ seat, (ra_borrower_seat_index args, seat) ∈ S0
    ∧ sv_curator (fi_sub_vault f) ≠ cs_owner seat;
  re_idle : 0 < ml_principal_atoms (fi_loan f) <= sub_vault_idle (fi_sub_vault f);
  re_collateral : ml_collateral_atoms (fi_loan f) = refinance_share args (ml_principal_atoms (fi_loan f));
  re_covered : ∃ required, required_collateral_at_ltv_cap (ml_principal_atoms (fi_loan f))
      (ra_debt_oracle_price_fp48 args) (ra_collateral_oracle_price_fp48 args)
      (ml_origination_ltv_bps (fi_loan f)) (ra_debt_mint_decimals args)
      (ra_collateral_mint_decimals args) = Ok required
    ∧ required <= ml_collateral_atoms (fi_loan f);
  re_ltv : ml_origination_ltv_bps (fi_loan f)
      = effective_origination_cap_bps (sv_max_ltv_bps (fi_sub_vault f)) (ra_ltv_buffer_bps args)
    ∧ ml_liquidation_ltv_bps (fi_loan f) = sv_liquidation_ltv_bps (fi_sub_vault f);
  re_rate : ml_lender_rate_bps (fi_loan f) = ro_rate_bps (fi_ask f).2
    ∧ ml_borrower_rate_bps (fi_loan f)
      = Z.max (ra_max_acceptable_rate_bps args) (ro_rate_bps (fi_ask f).2 + ra_fee_floor_bps args);
  re_parties : ml_lender_seat_index (fi_loan f) = ro_trader_seat_index (fi_ask f).2
    ∧ ml_borrower_seat_index (fi_loan f) = ra_borrower_seat_index args
    ∧ ml_term_seconds (fi_loan f) = ra_term_remaining_seconds args
    ∧ ml_origination_atoms (fi_loan f) = 0
    ∧ ml_flags (fi_loan f) = Z.lor MATCHED_LOAN_FLAG_VAULT_PRESETTLED MATCHED_LOAN_FLAG_VAULT_LENDER }.

Section refinance.
Context (args : MatchP2PoolRefinanceArgs) (m0 : Market) (v0 : Vault).
Context (S0 : list (Z * ClaimedSeat)) (A B : list (Z * RestingOrder)) (L0 : list (Z * MatchedLoan)).
Context (F0 : list Z) (V0 : list (Z * SubVault)) (D : list (Z * SubVaultDepositorSeat)).
Context (O : list (Z * SubVaultOrderRef)) (F1 F2 : list Z).

(** A well-formed market and vault whose asks and borrower have seats, and a loan to refinance. *)
Record refinance_ready : Prop := {
  rr_market : market_inv m0 S0 A B L0 F0;
  rr_below : sequences_below (mf_matched_loan_sequence (mk_fixed m0)) L0;
  rr_vault : vault_inv v0 V0 D O F1 F2;
  rr_principal : 0 < ra_principal_cap_atoms args < 2 ^ 64;
  rr_collateral : in_u U64 (ra_loan_collateral_atoms args);
  rr_borrower : ra_borrower_seat_index args ∈ S0.*1;
  rr_makers : ∀ e, e ∈ A → ro_trader_seat_index e.2 ∈ S0.*1;
  rr_encumbered : ∀ e, e ∈ V0 → 0 <= sv_encumbered_in_orders_atoms e.2 }.

(** The state after the fills [fs]; [todo] are the asks not yet visited, best last. *)
Record refinance_inv (s : RefinanceState) (fs : list Fill) (todo : list (Z * RestingOrder))
    (S : list (Z * ClaimedSeat)) (L : list (Z * MatchedLoan)) (F : list Z) (v : Vault)
    (V : list (Z * SubVault)) : Prop := {
  ri_vault : rs_vault s = Some v;
  ri_market : market_inv (rs_market s) S A B L F;
  ri_vault_inv : vault_inv v V D O F1 F2;
  ri_loans : L.*2 = L0.*2 ++ (fi_loan <$> fs);
  ri_below : sequences_below (mf_matched_loan_sequence (mk_fixed (rs_market s))) L;
  ri_header : header_kept (mk_fixed m0) (mk_fixed (rs_market s)) (Z.of_nat (length fs));
  ri_sequences : ml_sequence ∘ fi_loan <$> fs
    = (λ k, mf_matched_loan_sequence (mk_fixed m0) + Z.of_nat k) <$> seq 0 (length fs);
  ri_seats : seats_kept S0 S;
  ri_sub_vaults : vaults_kept V0 V;
  ri_encumbered : total_encumbered V = total_encumbered V0 + fills_principal fs;
  ri_principal : rs_remaining_principal s + fills_principal fs = ra_principal_cap_atoms args;
  ri_remaining : 0 <= rs_remaining_principal s;
  ri_filled : rs_total_filled_principal s = fills_principal fs;
  ri_collateral : rs_total_filled_collateral s = fills_collateral fs;
  ri_count : rs_num_fills s = Z.min (umax U32) (Z.of_nat (length fs));
  ri_crosses : rs_crosses s = cross_of <$> fs;
  ri_fills : Forall (refinance_ok args S0 V0) fs;
  ri_order : ∃ visited, A = todo ++ visited ∧ (fi_ask <$> fs) `sublist_of` reverse visited }.

Context (Hready : refinance_ready).

Lemma refinance_ask s fs todo i maker S L F v V :
  refinance_inv s fs (todo ++ [(i, maker)]) S L F v V → (i, maker) ∈ A.
Proof.
  intros Hs. destruct (ri_order _ _ _ _ _ _ _ _ Hs) as (vis & -> & _).
  apply elem_of_app. left. apply elem_of_app. right. left.
Qed.

Lemma refinance_seat s fs todo S L F v V i : refinance_inv s fs todo S L F v V → i ∈ S0.*1 →
  ∃ seat0 seat, (i, seat0) ∈ S0 ∧ counts_only seat0 seat ∧ get_seat (rs_market s) i = Ok seat.
Proof.
  intros Hs ([j s0] & -> & Hj)%list_elem_of_fmap.
  destruct (seats_kept_elem _ _ _ _ (ri_seats _ _ _ _ _ _ _ _ Hs) Hj) as (seat & Hi & Hc).
  exists s0, seat. split_and!; try done. simpl.
  by apply (get_seat_inv _ _ _ _ _ _ _ _ (ri_market _ _ _ _ _ _ _ _ Hs)).
Qed.

Lemma refinance_skip s fs todo e S L F v V :
  refinance_inv s fs (todo ++ [e]) S L F v V → refinance_inv s fs todo S L F v V.
Proof.
  intros []. split; try done. destruct ri_order0 as (visited & HA & Hsub).
  exists (e :: visited). split; [by rewrite HA, <- app_assoc|].
  rewrite reverse_cons. by apply sublist_inserts_r.
Qed.

Lemma refinance_remaining s fs todo S L F v V : refinance_inv s fs todo S L F v V →
  rs_remaining_principal s <= ra_principal_cap_atoms args.
Proof.
  intros []. assert (0 <= fills_principal fs); [|lia]. clear -ri_fills0.
  induction ri_fills0 as [|f fs Hf _ IH]; simpl; [lia|]. pose proof (re_idle _ _ _ _ Hf). lia.
Qed.

Lemma refinance_share_Ok principal c : 0 <= principal <= ra_principal_cap_atoms args →
  mul_div_u64 (ra_loan_collateral_atoms args) principal (ra_principal_cap_atoms args) false = Ok c →
  c = refinance_share args principal.
Proof.
  intros Hp Hc. destruct Hready. apply mul_div_u64_Ok in Hc as (_ & -> & _); [done|done|zlia..].
Qed.

(** The terms of the loan that [refinance_fill] mints. *)
Definition refinance_terms (maker : RestingOrder) (cap : AskCapacity) (matched collateral : Z)
    (n : MatchedLoan) : Prop :=
  ml_principal_atoms n = matched ∧ ml_collateral_atoms n = collateral
  ∧ ml_origination_ltv_bps n = effective_origination_cap_bps (ac_max_ltv_bps cap) (ra_ltv_buffer_bps args)
  ∧ ml_liquidation_ltv_bps n = ac_liquidation_ltv_bps cap
  ∧ ml_lender_rate_bps n = ro_rate_bps maker
  ∧ ml_borrower_rate_bps n = Z.max (ra_max_acceptable_rate_bps args) (ro_rate_bps maker + ra_fee_floor_bps args)
  ∧ ml_lender_seat_index n = ro_trader_seat_index maker
  ∧ ml_borrower_seat_index n = ra_borrower_seat_index args
  ∧ ml_term_seconds n = ra_term_remaining_seconds args
  ∧ ml_origination_atoms n = 0
  ∧ ml_flags n = Z.lor MATCHED_LOAN_FLAG_VAULT_PRESETTLED MATCHED_LOAN_FLAG_VAULT_LENDER.

(** The tail of the body. *)
Lemma refinance_fill_returns s fs todo i maker S L F v V j p matched :
  refinance_inv s fs (todo ++ [(i, maker)]) S L F v V →
  lookup_sub_vault v (sv_sub_vault_id p) = Ok j → j ≠ NIL → (j, p) ∈ V →
  0 < matched <= Z.min (rs_remaining_principal s) (sub_vault_idle p) →
  (∀ n, refinance_terms maker (capacity_of p) matched (refinance_share args matched) n →
     refinance_ok args S0 V0 (mkFill (i, maker) p n)) →
  returns (refinance_fill args s v maker (sv_sub_vault_id p) (capacity_of p) matched) (λ s',
    ∃ fs' S' L' F' v' V', refinance_inv s' fs' todo S' L' F' v' V').
Proof.
  intros Hs Hj Hn Hp Hmatched Hok. pose proof (refinance_ask _ _ _ _ _ _ _ _ _ _ Hs) as Hask.
  pose proof Hready as []. pose proof Hs as [].
  assert (0 <= sv_encumbered_in_orders_atoms p) as Hep.
  { destruct (vaults_kept_elem _ _ _ _ ri_sub_vaults0 Hp) as (p0 & Hp0 & x & k & Hx & -> & _). simpl.
    specialize (rr_encumbered0 _ Hp0). simpl in *. lia. }
  destruct (sub_vault_idle_le p Hep) as [Hi0 Hidle].
  pose proof (refinance_remaining _ _ _ _ _ _ _ _ Hs) as Hcap.
  unfold refinance_fill. apply returns_bind.
  eapply returns_mono; [by apply (reserve_fill_inv v V D O F1 F2 _ j p)|].
  intros v' _ [Hv' _]. apply returns_bind, returns_safe; [auto with safe|].
  intros coll Hc. apply refinance_share_Ok in Hc as ->; [|lia].
  apply returns_bind. eapply returns_mono; [apply floored_borrower_rate_returns|].
  intros rate _ [-> _]. cbv zeta.
  match goal with |- context [mint_matched_loan _ ?n] => set (loan := n) end.
  specialize (Hok loan ltac:(split_and!; reflexivity)).
  apply returns_bind. eapply returns_mono;
    [by apply (mint_returns _ S A B L F loan ri_market0 ri_below0)|].
  intros [m1 li] _ (F' & -> & Hm1 & Hseq & h & r & Hf1). cbn [fst snd] in *.
  apply returns_bind. eapply returns_mono;
    [by apply (bump_returns S0 A B m1 S _ F' _ _ Hm1 ri_seats0 (rr_makers0 _ Hask) bump_open_lend_returns)|].
  intros m2 _ (S2 & Hm2 & HS2 & Hf2).
  apply returns_bind, returns_ok_or; [discriminate|]. intros rp [-> _]%checked_sub_Some.
  apply returns_bind, returns_ok_or; [discriminate|]. intros total [-> _]%checked_add_Some.
  apply returns_bind, returns_ok_or; [discriminate|]. intros totalc [-> _]%checked_add_Some.
  apply returns_Ok.
  exists (fs ++ [mkFill (i, maker) p loan]), S2, (L ++ [(li, loan)]), F', v', (set_entry j (filled p matched) V).
  pose proof (tree_inv_nodup _ _ _ (vi_sub_vaults _ _ _ _ _ _ ri_vault_inv0)) as HndV.
  assert (mk_fixed m2 = mk_fixed (rs_market s) <| mf_free_list_head_index := h |>
      <| mf_matched_loans_root_index := r |> <| mf_matched_loan_sequence :=
        mf_matched_loan_sequence (mk_fixed (rs_market s)) + 1 |>) as Hfix by congruence.
  pose proof (header_kept_seq _ _ _ ri_header0) as Hseq0.
  split; cbn [rs_market rs_vault rs_remaining_principal rs_total_filled_principal
    rs_total_filled_collateral rs_num_fills rs_crosses];
    rewrite ?length_app, ?fills_principal_snoc, ?fills_collateral_snoc;
    cbn [length fi_loan ml_principal_atoms ml_collateral_atoms loan]; try done.
  - by rewrite !fmap_app, ri_loans0, <- app_assoc.
  - intros e [He|He%list_elem_of_singleton]%elem_of_app; rewrite Hfix; simpl; [|subst e; simpl; lia].
    specialize (ri_below0 _ He). lia.
  - rewrite Nat2Z.inj_add. by eapply header_kept_mint.
  - apply scan_sequences; [done|]. simpl. by rewrite Hseq0.
  - apply vaults_kept_fill; try done; lia.
  - rewrite (total_encumbered_set _ _ p) by done. unfold filled. simpl. lia.
  - lia.
  - lia.
  - lia.
  - by rewrite ri_collateral0.
  - rewrite ri_count0. zlia.
  - by rewrite fmap_app, ri_crosses0.
  - apply Forall_app. split; [done|]. by constructor.
  - destruct ri_order0 as (visited & HA & Hsub). by eapply scan_order_fill.
Qed.

(** The body of the walk on one ask. *)
Lemma refinance_maker_returns s fs todo i maker S L F v V :
  refinance_inv s fs (todo ++ [(i, maker)]) S L F v V → 0 < rs_remaining_principal s →
  returns (refinance_maker args s maker) (λ st,
    match st with
    | Filled s' => ∃ fs' S' L' F' v' V', refinance_inv s' fs' todo S' L' F' v' V'
    | _ => True
    end).
Proof.
  intros Hs Hpos. pose proof (refinance_ask _ _ _ _ _ _ _ _ _ _ Hs) as Hin. pose proof Hready as [].
  destruct (refinance_seat _ _ _ _ _ _ _ _ _ Hs (rr_makers0 _ Hin)) as (l0 & lender & Hl0 & Hlc & Hl).
  destruct (refinance_seat _ _ _ _ _ _ _ _ _ Hs rr_borrower0) as (t0 & borrower & Ht0 & Htc & Ht).
  simpl in Hl, Hl0. unfold refinance_maker.
  destruct (order_is_expired maker _) eqn:Hexp; [exact I|].
  destruct (Z.ltb_spec (ro_rate_bps maker) (ra_ask_floor_rate_bps args)) as [|Hfloor];
    [rewrite Hl; exact I|].
  destruct (Z.eqb_spec (ro_trader_seat_index maker) (ra_borrower_seat_index args)) as [|Hself]; [exact I|].
  destruct (Z.ltb_spec (ra_max_acceptable_rate_bps args) (ro_rate_bps maker)) as [|Hlimit]; [exact I|].
  destruct (Z.ltb_spec (ro_term_seconds maker) (ra_term_remaining_seconds args)) as [|Hterm]; [exact I|].
  rewrite Hl. cbn [mbind result_bind]. apply returns_bind, returns_require; [discriminate|].
  intros Hkind%Z.eqb_eq. rewrite (ri_vault _ _ _ _ _ _ _ _ Hs).
  destruct (read_ask_capacity_inv _ _ _ _ _ _ (cs_sub_vault_id lender)
    (ri_vault_inv _ _ _ _ _ _ _ _ Hs)) as (cap & -> & Hcap). cbn [mbind result_bind].
  destruct (Z.eqb_spec (ac_idle cap) 0) as [|Hidle]; [exact I|].
  destruct (Hcap Hidle) as (j & p & Hj & Hn & Hp & Hid & Hsun & ->).
  rewrite Ht. cbn [mbind result_bind].
  destruct (Z.eqb_spec (ac_curator (capacity_of p)) (cs_owner borrower)) as [|Hcur]; [exact I|].
  cbn [ac_idle capacity_of] in Hidle |- *. cbv zeta.
  set (matched := Z.min _ _).
  assert (0 < matched) as Hmp by (unfold matched, sub_vault_idle, saturating_sub in *; lia).
  pose proof (refinance_remaining _ _ _ _ _ _ _ _ Hs) as Hle.
  apply returns_bind, returns_safe; [auto with safe|]. intros coll Hc.
  apply refinance_share_Ok in Hc as ->; [|lia].
  apply returns_bind, returns_safe; [auto with safe|]. intros required Hreq.
  destruct (Z.ltb_spec (refinance_share args matched) required) as [|Hcov]; [exact I|].
  apply returns_fmap. rewrite <- Hid. eapply (refinance_fill_returns _ _ _ _ _ _ _ _ _ _ _ _ _ Hs);
    rewrite ?Hid; try done.
  intros n (K1 & K2 & K3 & K4 & K5 & K6 & K7 & K8 & K9 & K10 & K11).
  rewrite (counts_only_owner _ _ Htc) in Hcur.
  split; cbn [fi_ask fi_sub_vault fi_loan fst snd]; rewrite ?K1, ?K2, ?K3; try done.
  - exists l0. rewrite Hid. destruct (counts_only_key _ _ Hlc) as (Hk & _ & Hsv).
    by rewrite <- Hk, <- Hsv.
  - destruct (vaults_kept_elem _ _ _ _ (ri_sub_vaults _ _ _ _ _ _ _ _ Hs) Hp) as (p0 & Hp0 & Hr).
    by exists j, p0.
  - by exists t0.
  - lia.
  - by exists required.
Qed.

(** The walk from the next ask on. *)
Lemma refinance_loop_returns fuel s fs todo S L F v V :
  refinance_inv s fs todo S L F v V → (length todo <= fuel)%nat →
  returns (refinance_loop fuel args s (last_id todo)) (λ s',
    ∃ fs' todo' S' L' F' v' V', refinance_inv s' fs' todo' S' L' F' v' V').
Proof.
  revert s fs todo S L F v V. induction fuel as [|fuel IH]; intros s fs todo S L F v V Hs Hf;
    cbn [refinance_loop].
  - destruct todo; [|simpl in Hf; lia]. change (last_id []) with NIL. rewrite Z.eqb_refl, andb_false_r.
    by exists fs, [], S, L, F, v, V.
  - destruct ((0 <? _) && _) eqn:Hc; [|by exists fs, todo, S, L, F, v, V].
    apply andb_true_iff in Hc as [Hpos%Z.ltb_lt Hnil%negb_true_iff%Z.eqb_neq].
    destruct (last todo) as [[i maker]|] eqn:Hl; [|by apply last_None in Hl as ->].
    apply last_Some in Hl as [todo' ->]. rewrite last_id_snoc in *.
    rewrite length_app in Hf. simpl in Hf.
    pose proof (ri_market _ _ _ _ _ _ _ _ Hs) as Hm.
    rewrite (get_ask_inv _ _ _ _ _ _ i maker Hm (refinance_ask _ _ _ _ _ _ _ _ _ _ Hs)).
    cbn [mbind result_bind]. destruct (ri_order _ _ _ _ _ _ _ _ Hs) as (visited & HA & _).
    assert (∀ s1 S1 L1 F1, market_inv (rs_market s1) S1 A B L1 F1 →
      next_maker_index (rs_market s1) i = Ok (last_id todo')) as Hnext.
    { intros s1 S1 L1 F1' Hm1. unfold next_maker_index. pose proof (mi_asks _ _ _ _ _ _ Hm1) as Ha.
      rewrite HA, <- app_assoc in Ha. by apply next_tree_inv in Ha. }
    apply returns_bind. eapply returns_mono; [by apply (refinance_maker_returns _ _ _ _ _ _ _ _ _ _ Hs)|].
    intros [| |s'] _ Hst.
    + rewrite (Hnext _ _ _ _ Hm). cbn [mbind result_bind]. eapply IH; [by eapply refinance_skip|lia].
    + by exists fs, (todo' ++ [(i, maker)]), S, L, F, v, V.
    + destruct Hst as (fs' & S' & L' & F' & v' & V' & Hs').
      rewrite (Hnext _ _ _ _ (ri_market _ _ _ _ _ _ _ _ Hs')). cbn [mbind result_bind].
      eapply IH; [done|lia].
Qed.

(** The fills take of the collateral at most their share of it. *)
Lemma refinance_collateral_le fs : Forall (refinance_ok args S0 V0) fs →
  0 <= fills_collateral fs
  ∧ ra_principal_cap_atoms args * fills_collateral fs <= ra_loan_collateral_atoms args * fills_principal fs.
Proof.
  pose proof (rr_principal Hready) as [Hc0 _]. pose proof (rr_collateral Hready) as [HC0 _].
  induction 1 as [|f fs Hf _ [IH0 IH]]; simpl; [lia|].
  pose proof (re_idle _ _ _ _ Hf) as [Hi _]. rewrite (re_collateral _ _ _ _ Hf).
  unfold refinance_share.
  set (P := ra_principal_cap_atoms args) in *. set (C := ra_loan_collateral_atoms args) in *.
  set (x := ml_principal_atoms (fi_loan f)) in *.
  assert (0 <= C * x / P) by (apply Z.div_pos; nia).
  assert (P * (C * x / P) <= C * x) by (apply Z.mul_div_le; lia). split; [lia|nia].
Qed.

(** The whole walk. *)
Lemma match_p2pool_returns : returns (match_p2pool_residual_against_asks m0 args (Some v0)) (λ s,
  ∃ fs todo S L F v V, refinance_inv s fs todo S L F v V).
Proof.
  pose proof (rr_market Hready) as Hm.
  unfold match_p2pool_residual_against_asks. rewrite (mi_asks_best _ _ _ _ _ _ Hm).
  apply (refinance_loop_returns _ _ [] A S0 L0 F0 v0 V0).
  - pose proof Hready as []. split; cbn [rs_market rs_vault rs_remaining_principal
      rs_total_filled_principal rs_total_filled_collateral rs_num_fills rs_crosses fills_principal
      fills_collateral foldr]; try done; try lia.
    + by rewrite app_nil_r.
    + apply header_kept_refl.
    + apply seats_kept_refl.
    + apply vaults_kept_refl.
    + exists []. split; [by rewrite app_nil_r|constructor].
  - pose proof (tree_inv_fuel _ _ _ (mi_asks _ _ _ _ _ _ Hm)). lia.
Qed.

(** A fill is a part of the loan. *)
Lemma refinance_fill_le s fs todo S L F v V f : refinance_inv s fs todo S L F v V → f ∈ fs →
  0 < ml_principal_atoms (fi_loan f) <= ra_principal_cap_atoms args.
Proof.
  intros [] Hf. assert (0 <= fills_principal fs ∧ ∀ g, g ∈ fs →
    0 < ml_principal_atoms (fi_loan g) <= fills_principal fs) as [_ H].
  { clear -ri_fills0. induction ri_fills0 as [|g fs Hg _ [IH0 IH]]; simpl.
    - split; [done|]. by intros g ?%not_elem_of_nil.
    - pose proof (re_idle _ _ _ _ Hg). split; [lia|].
      intros h [->|Hh]%elem_of_cons; [lia|]. specialize (IH _ Hh). lia. }
  specialize (H f Hf). lia.
Qed.
End refinance.

(** ** The contract *)

(** A loan of 600 atoms backed by 1800000, refinanced on the market of the ask scan. *)
Definition sample_refinance_args : MatchP2PoolRefinanceArgs :=
  mkRefinanceArgs 0 600 1800000 fp48_ONE 86400 900 100 1000 fp48_ONE fp48_ONE 0 0 0 0.

Lemma sample_refinance_ready : refinance_ready sample_refinance_args sample_match_market
  sample_match_vault sample_match_seats [(320, sample_ask)] [] [] [480; 640]
  [(0, sample_sub_vault)] [] [] [] [].
Proof.
  destruct sample_match_ready. split; try done; vm_compute; split; congruence.
Qed.

(** C15: the refinancing of a variable-rate loan.  On a well-formed market and vault the walk
    of the asks never panics or loops.  When it succeeds it has filled some of the asks, in
    price-time order and each at most once, and every fill passed every gate: the ask was
    live, not the borrower's own or its curator's, at a rate the borrower accepts and long
    enough; its sub-vault was live and had the principal idle; and the share of the
    collateral that goes with the fill covers the sub-vault's LTV cap at the oracle prices.
    The market is again well-formed with the same book; its loans are the old ones followed
    by one per fill, numbered consecutively and marked as settled already.  The crosses it
    reports are the fills, one by one; together they take no more than the loan and, of its
    collateral, no more than in proportion; the sub-vaults have reserved exactly what was
    filled, and none beyond its principal. *)
Theorem refinance_fills (args : MatchP2PoolRefinanceArgs) (m0 : Market) (v0 : Vault)
    (S0 : list (Z * ClaimedSeat)) (A B : list (Z * RestingOrder)) (L0 : list (Z * MatchedLoan))
    (F0 : list Z) (V0 : list (Z * SubVault)) (D : list (Z * SubVaultDepositorSeat))
    (O : list (Z * SubVaultOrderRef)) (F1 F2 : list Z)
    (Hready : refinance_ready args m0 v0 S0 A B L0 F0 V0 D O F1 F2) :
  returns (match_p2pool_residual_against_asks m0 args (Some v0)) (λ s, ∃ fs S L F v V,
    market_inv (rs_market s) S A B L F ∧ rs_vault s = Some v ∧ vault_inv v V D O F1 F2
    ∧ (fi_ask <$> fs) `sublist_of` reverse A
    ∧ Forall (refinance_ok args S0 V0) fs
    ∧ L.*2 = L0.*2 ++ (fi_loan <$> fs)
    ∧ ml_sequence ∘ fi_loan <$> fs
        = (λ k, mf_matched_loan_sequence (mk_fixed m0) + Z.of_nat k) <$> seq 0 (length fs)
    ∧ seats_kept S0 S ∧ vaults_kept V0 V
    ∧ rs_crosses s = cross_of <$> fs
    ∧ rs_total_filled_principal s = fills_principal fs
    ∧ rs_total_filled_collateral s = fills_collateral fs
    ∧ rs_remaining_principal s + rs_total_filled_principal s = ra_principal_cap_atoms args
    ∧ 0 <= rs_remaining_principal s
    ∧ ra_principal_cap_atoms args * rs_total_filled_collateral s
        <= ra_loan_collateral_atoms args * rs_total_filled_principal s
    ∧ total_encumbered V = total_encumbered V0 + rs_total_filled_principal s).
Proof.
  eapply returns_mono; [by eapply match_p2pool_returns|].
  intros s _ (fs & todo & S & L & F & v & V & []). exists fs, S, L, F, v, V.
  rewrite ri_filled0, ri_collateral0.
  destruct (refinance_collateral_le _ _ _ _ _ _ _ _ _ _ _ _ _ Hready _ ri_fills0).
  split_and!; try done. destruct ri_order0 as (visited & -> & Hsub).
  rewrite reverse_app. by apply sublist_inserts_r.
Qed.

Lemma refinance_fills_witness :
  (λ s, (rs_total_filled_principal s, rs_total_filled_collateral s, rs_num_fills s)) <$>
    match_p2pool_residual_against_asks sample_match_market sample_refinance_args
      (Some sample_match_vault) = Ok (600, 1800000, 1)
  ∧ returns (match_p2pool_residual_against_asks sample_match_market sample_refinance_args
      (Some sample_match_vault))
      (λ s, ∃ fs S L F, market_inv (rs_market s) S [(320, sample_ask)] [] L F
        ∧ L.*2 = fi_loan <$> fs ∧ rs_crosses s = cross_of <$> fs).
Proof.
  split; [vm_compute; reflexivity|]. eapply returns_mono.
  - exact (refinance_fills _ _ _ _ _ _ _ _ _ _ _ _ _ sample_refinance_ready).
  - intros s _ (fs & S & L & F & v & V & Hm & _ & _ & _ & _ & HL & _ & _ & _ & HX & _).
    by exists fs, S, L, F.
Defined.
