(* ===== verification/UserAccount.v ===== *)
(** * The user account ([state/user_account.rs])

    The index a wallet keeps of its positions: its header and a dynamic region of
    160-byte blocks that holds four trees (vault positions, market positions, open
    loans, resting bids) on one free list, with the operations that keep them, and
    the growth by one block of [validation/user_account.rs]. *)
From stdpp Require Import base numbers list option gmap.
From S2P Require Import Prelude FixedPoint Loan Hypertree Market.
Local Open Scope Z_scope.

Definition USER_ACCOUNT_FIXED_DISCRIMINANT : Z := 0x7964656C74615553.
Definition USER_ACCOUNT_BLOCK_SIZE : Z := MARKET_BLOCK_SIZE.

(** ** Data *)

Record UserAccountFixed := mkUserAccountFixed {
  ua_discriminator : Z;
  ua_owner : Pubkey;
  ua_vault_positions_root_index : Z;
  ua_market_positions_root_index : Z;
  ua_open_loans_root_index : Z;
  ua_free_list_head_index : Z;
  ua_num_bytes_allocated : Z;
  ua_vault_position_count : Z;
  ua_market_position_count : Z;
  ua_open_loan_count : Z;
  ua_bump : Z;
  ua_version : Z;
  ua_open_orders_root_index : Z;
  ua_user_order_count : Z }.

#[export] Instance eta_UserAccountFixed : Eta UserAccountFixed := λ u,
  mkUserAccountFixed (ua_discriminator u) (ua_owner u) (ua_vault_positions_root_index u)
    (ua_market_positions_root_index u) (ua_open_loans_root_index u) (ua_free_list_head_index u)
    (ua_num_bytes_allocated u) (ua_vault_position_count u) (ua_market_position_count u)
    (ua_open_loan_count u) (ua_bump u) (ua_version u) (ua_open_orders_root_index u)
    (ua_user_order_count u).

Definition user_account_new_empty (owner : Pubkey) (bump : Z) : UserAccountFixed :=
  mkUserAccountFixed USER_ACCOUNT_FIXED_DISCRIMINANT owner NIL NIL NIL NIL 0 0 0 0 bump
    ACCOUNT_LAYOUT_VERSION NIL 0.

Definition user_has_free_block (u : UserAccountFixed) : bool :=
  negb (ua_free_list_head_index u =? NIL).

Definition user_verify_discriminant (u : UserAccountFixed) : result unit :=
  require (ua_discriminator u =? USER_ACCOUNT_FIXED_DISCRIMINANT) InvalidAccountData.
Definition user_verify_version (u : UserAccountFixed) : result unit :=
  require (ua_version u =? ACCOUNT_LAYOUT_VERSION) InvalidAccountData.

Record VaultPosition := mkVaultPosition {
  vp_vault : Pubkey;
  vp_sub_vault_id : Z;
  vp_shares : Z;
  vp_snapshot_supply_yield_index_scaled : Z;
  vp_snapshot_delta_yield_index_scaled : Z;
  vp_last_updated_unix : Z }.

#[export] Instance eta_VaultPosition : Eta VaultPosition := λ p,
  mkVaultPosition (vp_vault p) (vp_sub_vault_id p) (vp_shares p)
    (vp_snapshot_supply_yield_index_scaled p) (vp_snapshot_delta_yield_index_scaled p)
    (vp_last_updated_unix p).

Definition vault_position_new_empty (vault : Pubkey) (sub_vault_id : Z) : VaultPosition :=
  mkVaultPosition vault sub_vault_id 0 0 0 0.

Definition vault_position_cmp (a b : VaultPosition) : comparison :=
  match vp_vault a ?= vp_vault b with
  | Eq => vp_sub_vault_id a ?= vp_sub_vault_id b
  | ord => ord
  end.

Record MarketPosition := mkMarketPosition {
  mp_market : Pubkey;
  mp_seat_index_in_market : Z;
  mp_debt_withdrawable_shares : Z;
  mp_debt_encumbered_shares : Z;
  mp_collateral_withdrawable_shares : Z;
  mp_collateral_encumbered_shares : Z }.

#[export] Instance eta_MarketPosition : Eta MarketPosition := λ p,
  mkMarketPosition (mp_market p) (mp_seat_index_in_market p) (mp_debt_withdrawable_shares p)
    (mp_debt_encumbered_shares p) (mp_collateral_withdrawable_shares p)
    (mp_collateral_encumbered_shares p).

Definition market_position_new_empty (market : Pubkey) (seat_index : Z) : MarketPosition :=
  mkMarketPosition market seat_index 0 0 0 0.

Definition market_position_cmp (a b : MarketPosition) : comparison := mp_market a ?= mp_market b.

Definition sync_from_seat (seat : ClaimedSeat) (p : MarketPosition) : MarketPosition :=
  p <| mp_debt_withdrawable_shares := cs_debt_withdrawable_shares seat |>
    <| mp_debt_encumbered_shares := cs_debt_encumbered_shares seat |>
    <| mp_collateral_withdrawable_shares := cs_collateral_withdrawable_shares seat |>
    <| mp_collateral_encumbered_shares := cs_collateral_encumbered_shares seat |>.

Inductive LoanRole := Role_Borrower | Role_Lender.
Definition LoanRole_as_u8 (r : LoanRole) : Z :=
  match r with Role_Borrower => 0 | Role_Lender => 1 end.

Inductive CounterpartyKind := Kind_UserWallet | Kind_GlobalVault.
Definition CounterpartyKind_as_u8 (k : CounterpartyKind) : Z :=
  match k with Kind_UserWallet => 0 | Kind_GlobalVault => 1 end.

Record UserLoanRef := mkUserLoanRef {
  ul_loan : Pubkey;
  ul_market : Pubkey;
  ul_principal_atoms : Z;
  ul_started_at_unix : Z;
  ul_matures_at_unix : Z;
  ul_rate_bps : Z;
  ul_role : Z;
  ul_counterparty_kind : Z;
  ul_counterparty_sub_vault_id : Z }.

Definition user_loan_ref_cmp (a b : UserLoanRef) : comparison := ul_loan a ?= ul_loan b.

Definition user_loan_ref_probe (loan : Pubkey) : UserLoanRef :=
  mkUserLoanRef loan Pubkey_default 0 0 0 0 0 0 0.

Record UserOrderRef := mkUserOrderRef {
  uo_market : Pubkey;
  uo_order_sequence : Z;
  uo_principal_atoms : Z;
  uo_placed_at_unix : Z;
  uo_term_seconds : Z;
  uo_rate_bps : Z;
  uo_side : Z }.

Definition user_order_ref_probe (market : Pubkey) (order_sequence : Z) : UserOrderRef :=
  mkUserOrderRef market order_sequence 0 0 0 0 0.

Definition user_order_ref_cmp (a b : UserOrderRef) : comparison :=
  match uo_market a ?= uo_market b with
  | Eq => uo_order_sequence a ?= uo_order_sequence b
  | ord => ord
  end.

#[export] Instance payload_VaultPosition : Payload VaultPosition :=
  {| payload_cmp := vault_position_cmp;
     payload_eqb a b := (vp_vault a =? vp_vault b) && (vp_sub_vault_id a =? vp_sub_vault_id b) |}.
#[export] Instance payload_MarketPosition : Payload MarketPosition :=
  {| payload_cmp := market_position_cmp; payload_eqb a b := mp_market a =? mp_market b |}.
#[export] Instance payload_UserLoanRef : Payload UserLoanRef :=
  {| payload_cmp := user_loan_ref_cmp; payload_eqb a b := ul_loan a =? ul_loan b |}.
#[export] Instance payload_UserOrderRef : Payload UserOrderRef :=
  {| payload_cmp := user_order_ref_cmp;
     payload_eqb a b := (uo_market a =? uo_market b) && (uo_order_sequence a =? uo_order_sequence b) |}.

(** ** The account *)

Inductive UserBlock :=
  | UB_free (n : FreeListNode)
  | UB_vault (n : RBNode VaultPosition)
  | UB_market (n : RBNode MarketPosition)
  | UB_loan (n : RBNode UserLoanRef)
  | UB_order (n : RBNode UserOrderRef).

#[export] Instance user_block_free : BlockOf UserBlock FreeListNode.
Proof.
  refine {| to_block := UB_free; of_block b := match b with UB_free n => Some n | _ => None end |};
    [done|]. intros [] ? [=]; congruence.
Defined.
#[export] Instance user_block_vault : BlockOf UserBlock (RBNode VaultPosition).
Proof.
  refine {| to_block := UB_vault; of_block b := match b with UB_vault n => Some n | _ => None end |};
    [done|]. intros [] ? [=]; congruence.
Defined.
#[export] Instance user_block_market : BlockOf UserBlock (RBNode MarketPosition).
Proof.
  refine {| to_block := UB_market;
            of_block b := match b with UB_market n => Some n | _ => None end |};
    [done|]. intros [] ? [=]; congruence.
Defined.
#[export] Instance user_block_loan : BlockOf UserBlock (RBNode UserLoanRef).
Proof.
  refine {| to_block := UB_loan; of_block b := match b with UB_loan n => Some n | _ => None end |};
    [done|]. intros [] ? [=]; congruence.
Defined.
#[export] Instance user_block_order : BlockOf UserBlock (RBNode UserOrderRef).
Proof.
  refine {| to_block := UB_order; of_block b := match b with UB_order n => Some n | _ => None end |};
    [done|]. intros [] ? [=]; congruence.
Defined.

Record UserAccount := mkUserAccount { us_fixed : UserAccountFixed; us_dynamic : Region UserBlock }.

#[export] Instance eta_UserAccount : Eta UserAccount := λ u,
  mkUserAccount (us_fixed u) (us_dynamic u).

Definition vault_position_tree (u : UserAccount) : Tree UserBlock :=
  mkTree (us_dynamic u) (ua_vault_positions_root_index (us_fixed u)) NIL.
Definition market_position_tree (u : UserAccount) : Tree UserBlock :=
  mkTree (us_dynamic u) (ua_market_positions_root_index (us_fixed u)) NIL.
Definition open_loan_tree (u : UserAccount) : Tree UserBlock :=
  mkTree (us_dynamic u) (ua_open_loans_root_index (us_fixed u)) NIL.
Definition user_order_tree (u : UserAccount) : Tree UserBlock :=
  mkTree (us_dynamic u) (ua_open_orders_root_index (us_fixed u)) NIL.

Definition put_vault_positions (u : UserAccount) (t : Tree UserBlock) : UserAccount :=
  mkUserAccount (us_fixed u <| ua_vault_positions_root_index := t_root t |>) (t_data t).
Definition put_market_positions (u : UserAccount) (t : Tree UserBlock) : UserAccount :=
  mkUserAccount (us_fixed u <| ua_market_positions_root_index := t_root t |>) (t_data t).
Definition put_open_loans (u : UserAccount) (t : Tree UserBlock) : UserAccount :=
  mkUserAccount (us_fixed u <| ua_open_loans_root_index := t_root t |>) (t_data t).
Definition put_user_orders (u : UserAccount) (t : Tree UserBlock) : UserAccount :=
  mkUserAccount (us_fixed u <| ua_open_orders_root_index := t_root t |>) (t_data t).

(** ** Allocation *)

Definition get_free_user_address (u : UserAccount) : result (UserAccount * Z) :=
  '(d, head, index) ← free_list_remove (us_dynamic u) (ua_free_list_head_index (us_fixed u));
  mret (mkUserAccount (us_fixed u <| ua_free_list_head_index := head |>) d, index).

Definition release_user_address (u : UserAccount) (index : Z) : result UserAccount :=
  '(d, head) ← free_list_add (us_dynamic u) (ua_free_list_head_index (us_fixed u)) index;
  mret (mkUserAccount (us_fixed u <| ua_free_list_head_index := head |>) d).

(** [user_account_expand]; the caller has grown the region with a zeroed block. *)
Definition user_account_expand (u : UserAccount) : result UserAccount :=
  '(d, head) ← free_list_add (us_dynamic u) (ua_free_list_head_index (us_fixed u))
                 (ua_num_bytes_allocated (us_fixed u));
  bytes ← ok_or (checked_add U32 (ua_num_bytes_allocated (us_fixed u)) USER_ACCOUNT_BLOCK_SIZE)
            ArithmeticOverflow;
  mret (mkUserAccount (us_fixed u <| ua_num_bytes_allocated := bytes |>
                                  <| ua_free_list_head_index := head |>) d).

(** [expand_user_account] ([validation/user_account.rs]) after the rent transfer. *)
Definition expand_user_account (u : UserAccount) : result UserAccount :=
  user_account_expand
    (u <| us_dynamic ::= λ d,
       <[ua_num_bytes_allocated (us_fixed u) := UB_free (mkFreeListNode 0)]> d |>).

(** ** Operations

    The [debug_assert]s on the counts are absent from a release build. *)

Definition lookup_market_position (u : UserAccount) (market : Pubkey) (seat_index : Z) : result Z :=
  lookup_index (V:=MarketPosition) (market_position_tree u)
    (market_position_new_empty market seat_index).

Definition upsert_market_position (u : UserAccount) (market : Pubkey) (seat_index_in_market : Z)
    : result (UserAccount * Z) :=
  existing_idx ← lookup_market_position u market seat_index_in_market;
  if negb (existing_idx =? NIL) then Ok (u, existing_idx) else
  '(u, order_index) ← get_free_user_address u;
  _ ← require (negb (order_index =? NIL)) AccountDataTooSmall;
  t ← insert (market_position_tree u) order_index
        (market_position_new_empty market seat_index_in_market);
  let u := put_market_positions u t in
  count ← ok_or (checked_add U16 (ua_market_position_count (us_fixed u)) 1) ArithmeticOverflow;
  mret (u <| us_fixed ::= λ f, f <| ua_market_position_count := count |> |>, order_index).

(** [write_market_position_from_seat]. *)
Definition write_market_position_from_seat (u : UserAccount) (index : Z) (seat : ClaimedSeat)
    : result UserAccount :=
  d ← modify_value (us_dynamic u) index (λ p, Ok (sync_from_seat seat p));
  mret (u <| us_dynamic := d |>).

Definition lookup_vault_position (u : UserAccount) (vault : Pubkey) (sub_vault_id : Z) : result Z :=
  lookup_index (V:=VaultPosition) (vault_position_tree u)
    (vault_position_new_empty vault sub_vault_id).

Definition upsert_vault_position (u : UserAccount) (vault : Pubkey) (sub_vault_id : Z)
    : result (UserAccount * Z) :=
  existing_idx ← lookup_vault_position u vault sub_vault_id;
  if negb (existing_idx =? NIL) then Ok (u, existing_idx) else
  '(u, order_index) ← get_free_user_address u;
  _ ← require (negb (order_index =? NIL)) AccountDataTooSmall;
  t ← insert (vault_position_tree u) order_index (vault_position_new_empty vault sub_vault_id);
  let u := put_vault_positions u t in
  count ← ok_or (checked_add U16 (ua_vault_position_count (us_fixed u)) 1) ArithmeticOverflow;
  mret (u <| us_fixed ::= λ f, f <| ua_vault_position_count := count |> |>, order_index).

Definition modify_vault_position (u : UserAccount) (index : Z)
    (f : VaultPosition → result VaultPosition) : result UserAccount :=
  d ← modify_value (us_dynamic u) index f; mret (u <| us_dynamic := d |>).

Definition remove_vault_position (u : UserAccount) (vault : Pubkey) (sub_vault_id : Z)
    : result (UserAccount * Z) :=
  idx ← lookup_vault_position u vault sub_vault_id;
  if idx =? NIL then Ok (u, NIL) else
  t ← remove_by_index (V:=VaultPosition) (vault_position_tree u) idx;
  let u := put_vault_positions u t in
  count ← ok_or (checked_sub (ua_vault_position_count (us_fixed u)) 1) ArithmeticOverflow;
  let u := u <| us_fixed ::= λ f, f <| ua_vault_position_count := count |> |> in
  u ← release_user_address u idx;
  mret (u, idx).

Definition lookup_open_loan (u : UserAccount) (loan_pda : Pubkey) : result Z :=
  lookup_index (V:=UserLoanRef) (open_loan_tree u) (user_loan_ref_probe loan_pda).

Definition insert_open_loan (u : UserAccount) (loan_pda market : Pubkey) (role : LoanRole)
    (counterparty_kind : CounterpartyKind)
    (counterparty_sub_vault_id principal_atoms rate_bps started_at_unix matures_at_unix : Z)
    : result (UserAccount * Z) :=
  existing_idx ← lookup_open_loan u loan_pda;
  if negb (existing_idx =? NIL) then Ok (u, existing_idx) else
  '(u, order_index) ← get_free_user_address u;
  _ ← require (negb (order_index =? NIL)) AccountDataTooSmall;
  t ← insert (open_loan_tree u) order_index
    (mkUserLoanRef loan_pda market principal_atoms started_at_unix matures_at_unix rate_bps
       (LoanRole_as_u8 role) (CounterpartyKind_as_u8 counterparty_kind) counterparty_sub_vault_id);
  let u := put_open_loans u t in
  count ← ok_or (checked_add U32 (ua_open_loan_count (us_fixed u)) 1) ArithmeticOverflow;
  mret (u <| us_fixed ::= λ f, f <| ua_open_loan_count := count |> |>, order_index).

Definition remove_open_loan (u : UserAccount) (loan_pda : Pubkey) : result (UserAccount * Z) :=
  idx ← lookup_open_loan u loan_pda;
  if idx =? NIL then Ok (u, NIL) else
  t ← remove_by_index (V:=UserLoanRef) (open_loan_tree u) idx;
  let u := put_open_loans u t in
  count ← ok_or (checked_sub (ua_open_loan_count (us_fixed u)) 1) ArithmeticOverflow;
  let u := u <| us_fixed ::= λ f, f <| ua_open_loan_count := count |> |> in
  u ← release_user_address u idx;
  mret (u, idx).

Definition lookup_user_order (u : UserAccount) (market : Pubkey) (order_sequence : Z) : result Z :=
  lookup_index (V:=UserOrderRef) (user_order_tree u) (user_order_ref_probe market order_sequence).

Definition insert_user_order (u : UserAccount) (market : Pubkey)
    (order_sequence side rate_bps term_seconds principal_atoms placed_at_unix : Z)
    : result (UserAccount * Z) :=
  existing_idx ← lookup_user_order u market order_sequence;
  if negb (existing_idx =? NIL) then Ok (u, existing_idx) else
  '(u, order_index) ← get_free_user_address u;
  _ ← require (negb (order_index =? NIL)) AccountDataTooSmall;
  t ← insert (user_order_tree u) order_index
    (mkUserOrderRef market order_sequence principal_atoms placed_at_unix term_seconds rate_bps side);
  let u := put_user_orders u t in
  count ← ok_or (checked_add U32 (ua_user_order_count (us_fixed u)) 1) ArithmeticOverflow;
  mret (u <| us_fixed ::= λ f, f <| ua_user_order_count := count |> |>, order_index).

Definition remove_user_order (u : UserAccount) (market : Pubkey) (order_sequence : Z)
    : result (UserAccount * Z) :=
  idx ← lookup_user_order u market order_sequence;
  if idx =? NIL then Ok (u, NIL) else
  t ← remove_by_index (V:=UserOrderRef) (user_order_tree u) idx;
  let u := put_user_orders u t in
  count ← ok_or (checked_sub (ua_user_order_count (us_fixed u)) 1) ArithmeticOverflow;
  let u := u <| us_fixed ::= λ f, f <| ua_user_order_count := count |> |> in
  u ← release_user_address u idx;
  mret (u, idx).

(** [sync_signer_market_position] ([processor/shared.rs]): mirrors the signer's seat
    into its market position; a signer without a seat changes nothing. *)
Definition sync_signer_market_position (m : Market) (market_key : Pubkey) (u : UserAccount)
    (signer : Pubkey) : result UserAccount :=
  idx ← lookup_seat_index m (claimed_seat_new_empty signer 0 0);
  if idx =? NIL then Ok u else
  seat ← get_seat m idx;
  '(u, mp_idx) ← upsert_market_position u market_key idx;
  write_market_position_from_seat u mp_idx seat.
