(* ===== verification/Runtime.v ===== *)
(** * Accounts the program does not own, and the calls that move them

    A handler sees the accounts of its transaction.  The program's own accounts
    (market, vault, loan, user account) are typed records; everything else (banks,
    marginfi accounts, token accounts, oracles) is raw data in a ledger indexed by
    key, so that two references to one key alias, as they do on chain.  The marginfi
    and token programs are not in this repository: they are the parameters
    [invoke_signed] and [invoke_token] of the sections that call them. *)
From stdpp Require Import base numbers list option gmap.
From S2P Require Import Prelude FixedPoint Loan Marginfi Ltv Oracles.
Local Open Scope Z_scope.

Abbreviation Ledger := (gmap Z AccountInfo).

(** An account of the transaction; a missing one is an index past the slice. *)
Definition account (l : Ledger) (k : Pubkey) : result AccountInfo := ok_or (l !! k) Panic.

Fixpoint accounts_of (l : Ledger) (ks : list Pubkey) : result (list AccountInfo) :=
  match ks with
  | [] => Ok []
  | k :: ks => a ← account l k; rest ← accounts_of l ks; mret (a :: rest)
  end.

(** The runtime writes the accounts of a call back, by position. *)
Fixpoint write_back (l : Ledger) (ks : list Pubkey) (accs : list AccountInfo) : Ledger :=
  match ks, accs with
  | k :: ks, a :: accs => write_back (<[k := a]> l) ks accs
  | _, _ => l
  end.

(** A call on the accounts [ks] of the transaction. *)
Definition on_accounts {A} (f : list AccountInfo → result (A * list AccountInfo))
    (l : Ledger) (ks : list Pubkey) : result (A * Ledger) :=
  accs ← accounts_of l ks;
  '(a, accs') ← f accs;
  mret (a, write_back l ks accs').

(** [u64::from_le_bytes(data[64..72])]: a handler's own read of a token balance. *)
Definition raw_token_balance (a : AccountInfo) : result Z :=
  bs ← slice (ai_data a) 64 8; mret (from_le_bytes bs).

(** The two instructions of the token programs the handlers build. *)
Inductive TokenIx :=
  | TransferIx (amount : Z)
  | TransferCheckedIx (amount decimals : Z).

(** A mint as the handlers use it: its key and its decimals. *)
Record MintInfo := mkMintInfo { mint_key : Pubkey; mint_decimals : Z }.

Section Calls.
  Variable invoke_signed : MarginfiIx → list AccountInfo → result (list AccountInfo).
  Variable invoke_token : TokenIx → list AccountInfo → result (list AccountInfo).

Definition call_deposit (l : Ledger) (ks : list Pubkey) (amount : Z) : result (Z * Ledger) :=
  on_accounts (λ accs, adapter_deposit invoke_signed accs amount) l ks.

Definition call_withdraw (l : Ledger) (ks : list Pubkey) (shares : Z) : result (Z * Z * Ledger) :=
  on_accounts (λ accs, adapter_withdraw invoke_signed accs shares) l ks.

Definition call_borrow (l : Ledger) (ks : list Pubkey) (amount : Z) : result (Z * Ledger) :=
  on_accounts (λ accs, adapter_borrow invoke_signed accs amount) l ks.

Definition call_repay_atoms (l : Ledger) (ks : list Pubkey) (amount : Z) : result (Z * Ledger) :=
  on_accounts (λ accs, repay_atoms invoke_signed accs amount) l ks.

Definition call_repay_atoms_full (l : Ledger) (ks : list Pubkey) (amount : Z)
    : result (Z * Ledger) :=
  on_accounts (λ accs, repay_atoms_full invoke_signed accs amount) l ks.

Definition call_withdraw_atoms_full (l : Ledger) (ks : list Pubkey) (amount : Z)
    : result (Z * Ledger) :=
  on_accounts (λ accs, withdraw_atoms_full invoke_signed accs amount) l ks.

(** [transfer_user_to_vault], [transfer_signed] and their inlined copies: a checked
    transfer under Token-2022, a plain one under the legacy program. *)
Definition transfer_tokens (l : Ledger) (token_program src : Pubkey) (mint : MintInfo)
    (dst authority : Pubkey) (amount : Z) : result Ledger :=
  snd <$>
    (if token_program =? SPL_TOKEN_2022_ID then
       on_accounts (λ accs, accs' ← invoke_token (TransferCheckedIx amount (mint_decimals mint)) accs;
                            mret (tt, accs'))
         l [src; mint_key mint; dst; authority; token_program]
     else
       on_accounts (λ accs, accs' ← invoke_token (TransferIx amount) accs; mret (tt, accs'))
         l [src; dst; authority; token_program]).
End Calls.
