(* ===== verification/LoanClose.v ===== *)
(** * What a loan does to its sub-vault and its seats

    The bookkeeping that the handlers of the loan life cycle share
    ([processor/process_matched_loan.rs], [repay.rs], [settle_matured_loan.rs],
    [liquidate_loan.rs], [convert_p2pool_to_fixed.rs]): funding a loan from a
    sub-vault, closing it out again, crediting the lender's seat and releasing the
    borrower's. *)
From stdpp Require Import base numbers list option gmap.
From S2P Require Import Prelude FixedPoint Loan Marginfi Hypertree SubVault Market.
From S2P Require Import VaultTrees UserAccount Runtime.
Local Open Scope Z_scope.

(** The program's accounts in one transaction, and the ledger of the others.  A
    closed loan account is [None]; the vault is optional in the account list. *)
Record World := mkWorld {
  wd_market : Market;
  wd_vault : option Vault;
  wd_loan : option LoanFixed;
  wd_user : UserAccount;
  wd_ledger : Ledger }.

#[export] Instance eta_World : Eta World := λ w,
  mkWorld (wd_market w) (wd_vault w) (wd_loan w) (wd_user w) (wd_ledger w).

Definition the_loan (w : World) : result LoanFixed := ok_or (wd_loan w) Panic.

(** [close_account_and_refund], [close_p2pool_loan_pda]: the loan account is zeroed
    and its rent returned. *)
Definition close_loan (w : World) : World := w <| wd_loan := None |>.

(** ** The sub-vault of a loan *)

(** The lookup and the update of a sub-vault by id. *)
Definition on_sub_vault (v : Vault) (sub_vault_id : Z) (f : SubVault → result SubVault)
    : result Vault :=
  idx ← lookup_sub_vault v sub_vault_id;
  _ ← require (negb (idx =? NIL)) SubVaultNotFound;
  modify_sub_vault v idx f.

(** A loan's contribution to the weighted rates: gross, and net of the curator. *)
Definition weighted_delta (principal rate_bps : Z) : result Z :=
  ok_or (checked_mul U128 principal rate_bps) MathOverflow.

Definition net_weighted_delta (gross curator_fee_bps : Z) : result Z :=
  share ← panic_sub BPS_PER_UNIT curator_fee_bps;
  mul_div gross share BPS_PER_UNIT false.

(** The encumbered atoms of a fill become deployed principal. *)
Definition deploy_loan (principal rate_bps curator_fee_bps : Z) (s : SubVault) : result SubVault :=
  deployed ← ok_or (checked_add U64 (sv_deployed_principal_atoms s) principal) ArithmeticOverflow;
  gross ← weighted_delta principal rate_bps;
  w ← ok_or (checked_add U128 (sv_total_weighted_rate_bps s) gross) ArithmeticOverflow;
  net ← net_weighted_delta gross curator_fee_bps;
  n ← ok_or (checked_add U128 (sv_total_weighted_net_rate_bps s) net) ArithmeticOverflow;
  e ← ok_or (checked_sub (sv_encumbered_in_orders_atoms s) principal) ArithmeticOverflow;
  mret (s <| sv_deployed_principal_atoms := deployed |>
          <| sv_total_weighted_rate_bps := w |>
          <| sv_total_weighted_net_rate_bps := n |>
          <| sv_encumbered_in_orders_atoms := e |>).

(** The sub-vault half of [do_vault_settle]: accrue, deploy, write off the atoms
    withdrawn beyond the principal. *)
Definition fund_loan (principal rate_bps curator_fee_bps surplus now : Z) (share_value : Fp48)
    (s : SubVault) : result SubVault :=
  s ← accrue_sub_vault s now share_value;
  s ← deploy_loan principal rate_bps curator_fee_bps s;
  if 0 <? surplus then
    p ← ok_or (checked_sub (sv_total_principal_atoms s) surplus) ArithmeticOverflow;
    a ← ok_or (checked_sub (sv_total_assets_atoms s) surplus) ArithmeticOverflow;
    mret (restore_assets_principal_invariant
            (s <| sv_total_principal_atoms := p |> <| sv_total_assets_atoms := a |>))
  else Ok s.

(** What a loan is worth to its sub-vault when it closes. *)
Record CloseOut := mkCloseOut {
  co_principal : Z;
  co_lender_rate_bps : Z;
  co_curator_fee_bps : Z;
  co_started_at : Z;
  co_lender_claimable : Z;
  co_curator_fee_atoms : Z }.

Definition close_out_of (l : LoanFixed) : CloseOut :=
  mkCloseOut (principal_debt_atoms l) (loan_lender_rate_bps l) (curator_fee_bps_snapshot l)
    (started_at_unix l) (lender_claimable_atoms l) (accumulated_curator_fee_atoms l).

(** The realised result replaces the estimate that the accruals had booked: the
    principal moves by [claimable - principal], the assets by that less the estimate. *)
Definition reconcile (c : CloseOut) (net now : Z) (s : SubVault) : result SubVault :=
  let lifetime := Z.max (saturating_sub_i 64 now (co_started_at c)) 0 in
  denom ← ok_or (checked_mul U128 BPS_PER_UNIT SECONDS_PER_YEAR) MathOverflow;
  estimated ← mul_div net lifetime denom false;
  let realized := co_lender_claimable c - co_principal c in
  p ← (if 0 <=? realized
       then ok_or (checked_add U64 (sv_total_principal_atoms s) (as_u U64 realized))
              ArithmeticOverflow
       else Ok (saturating_sub (sv_total_principal_atoms s) (as_u U64 (- realized))));
  assets_delta ← panic_sub_i 128 realized (as_i 128 estimated);
  a ← (if 0 <=? assets_delta
       then ok_or (checked_add U64 (sv_total_assets_atoms s) (as_u U64 assets_delta))
              ArithmeticOverflow
       else opp ← panic_sub_i 128 0 assets_delta;
            Ok (saturating_sub (sv_total_assets_atoms s) (as_u U64 opp)));
  mret (restore_assets_principal_invariant
          (s <| sv_total_principal_atoms := p |> <| sv_total_assets_atoms := a |>)).

(** The sub-vault half of a full close. *)
Definition close_out_sub_vault (c : CloseOut) (now : Z) (share_value : Fp48) (s : SubVault)
    : result SubVault :=
  s ← accrue_sub_vault s now share_value;
  gross ← weighted_delta (co_principal c) (co_lender_rate_bps c);
  w ← ok_or (checked_sub (sv_total_weighted_rate_bps s) gross) ArithmeticOverflow;
  net ← net_weighted_delta gross (co_curator_fee_bps c);
  n ← ok_or (checked_sub (sv_total_weighted_net_rate_bps s) net) ArithmeticOverflow;
  d ← ok_or (checked_sub (sv_deployed_principal_atoms s) (co_principal c)) ArithmeticOverflow;
  o ← ok_or (checked_sub (sv_open_loans_count s) 1) ArithmeticOverflow;
  s ← reconcile c net now
        (s <| sv_total_weighted_rate_bps := w |> <| sv_total_weighted_net_rate_bps := n |>
           <| sv_deployed_principal_atoms := d |> <| sv_open_loans_count := o |>);
  p ← ok_or (checked_add U64 (sv_pending_claim_atoms s) (co_lender_claimable c)) ArithmeticOverflow;
  let s := s <| sv_pending_claim_atoms := p |> in
  if 0 <? co_curator_fee_atoms c then
    f ← ok_or (checked_add U64 (sv_accumulated_curator_fee_atoms s) (co_curator_fee_atoms c))
          ArithmeticOverflow;
    mret (s <| sv_accumulated_curator_fee_atoms := f |>)
  else Ok s.

(** The vault account of a close-out: it must be in the account list. *)
Definition close_out_vault (w : World) (sub_vault_id : Z) (debt_bank : AccountInfo)
    (c : CloseOut) (now : Z) : result World :=
  v ← ok_or (wd_vault w) IncorrectAccount;
  v ← on_sub_vault v sub_vault_id (λ s,
        share_value ← read_bank_share_value debt_bank;
        close_out_sub_vault c now share_value s);
  mret (w <| wd_vault := Some v |>).

(** ** The seats of a loan *)

(** The shares of a repayment that belong to the protocol, once the loan closes. *)
Definition protocol_fee_shares_of (debt_bank : AccountInfo) (did_full_repay : bool) (fee_atoms : Z)
    : result Z :=
  if did_full_repay && (0 <? fee_atoms) then amount_to_asset_shares [debt_bank] fee_atoms
  else Ok 0.

Definition add_debt_shares (shares : Z) (s : ClaimedSeat) : result ClaimedSeat :=
  if 0 <? shares then
    x ← ok_or (checked_add U128 (cs_debt_withdrawable_shares s) shares) ArithmeticOverflow;
    mret (s <| cs_debt_withdrawable_shares := x |>)
  else Ok s.

(** The protocol's shares go to the market, the rest of the deposit to the lender's
    seat; a full close retires the open lend. *)
Definition credit_lender (m : Market) (lender_seat_index protocol_fee_shares credited_shares : Z)
    (did_full_repay : bool) : result Market :=
  m ← (if 0 <? protocol_fee_shares then
         x ← ok_or (checked_add U128 (mf_accumulated_protocol_fee_shares (mk_fixed m))
                      protocol_fee_shares) ArithmeticOverflow;
         mret (m <| mk_fixed ::= λ f, f <| mf_accumulated_protocol_fee_shares := x |> |>)
       else Ok m);
  _ ← require (negb (lender_seat_index =? NIL)) InvalidArgument;
  modify_seat m lender_seat_index (λ s,
    s ← add_debt_shares (saturating_sub credited_shares protocol_fee_shares) s;
    if did_full_repay then drop_open_lend s else Ok s).

Definition drop_open_borrow (s : ClaimedSeat) : result ClaimedSeat :=
  Ok (s <| cs_open_borrow_count ::= λ n, saturating_sub n 1 |>).

(** The borrower's seat when a repayment closes the loan. *)
Definition release_borrower (m : Market) (borrower_seat_index collateral_atoms : Z)
    (snapshot : Fp48) : result Market :=
  m ← (if 0 <? collateral_atoms then
         shares ← atoms_to_shares_at_snapshot collateral_atoms snapshot;
         release_loan_collateral m borrower_seat_index shares shares
       else Ok m);
  modify_seat m borrower_seat_index drop_open_borrow.

(** ** A variable-rate repayment, attributed to one loan *)

(** The shares the loan still carries after marginfi burned some of the account's,
    whether that clears the loan (a residual of at most one atom does), and the debt
    they are worth. *)
Definition attribute_repayment (debt_bank : AccountInfo) (loan_shares pre_account post_account : Z)
    : result (Z * bool * Z) :=
  let burned := saturating_sub pre_account post_account in
  let post := saturating_sub loan_shares burned in
  floor_atoms ← liability_shares_to_atoms_floor [debt_bank] post;
  let did_full := floor_atoms <=? 1 in
  atoms ← (if did_full then Ok 0 else Ltv.liability_shares_to_atoms_ceil debt_bank post);
  mret (post, did_full, atoms).
