(* ===== verification/Repay.v ===== *)
(** * Repayment by the borrower ([processor/repay.rs])

    The two paths of [process_repay]: a variable-rate loan pays marginfi and is
    attributed the shares that call burned; a fixed loan pays into the lender's
    integration account, retires its own debt, and closes out its sub-vault, its
    seats and its account when nothing is left. *)
From stdpp Require Import base numbers list option gmap.
From S2P Require Import Prelude FixedPoint Loan Marginfi RateCalc Ltv Hypertree.
From S2P Require Import SubVault Market VaultTrees UserAccount Runtime LoanClose.
Local Open Scope Z_scope.

Record RepayParams := mkRepayParams {
  rp_repay_atoms : Z;
  rp_full_repay : bool;
  rp_borrower_seat_index_hint : option Z }.

(** The accounts [RepayContext::load] hands over, by key. *)
Record RepayContext := mkRepayContext {
  rc_payer : Pubkey;
  rc_market : Pubkey;
  rc_loan : Pubkey;
  rc_borrower_token : Pubkey;
  rc_vault : Pubkey;
  rc_token_program : Pubkey;
  rc_debt_mint : MintInfo;
  rc_marginfi_group : Pubkey;
  rc_marginfi_account : Pubkey;
  rc_debt_bank : Pubkey;
  rc_liquidity_vault : Pubkey;
  rc_borrower_marginfi_account : Pubkey;
  rc_market_signer : Pubkey;
  rc_marginfi_program : Pubkey }.

Definition ACCRUE_SAFETY_ATOMS : Z := 1.

(** The amount a borrower pays: everything, or what it asks, at most everything. *)
Definition size_repayment (params : RepayParams) (outstanding : Z) : result Z :=
  if rp_full_repay params then Ok outstanding else
  _ ← require (0 <? rp_repay_atoms params) InvalidArgument;
  _ ← require (rp_repay_atoms params <=? outstanding) InvalidArgument;
  mret (rp_repay_atoms params).

(** [drop_open_loan_ref]. *)
Definition drop_open_loan_ref (w : World) (loan_key : Pubkey) : result World :=
  '(u, _) ← remove_open_loan (wd_user w) loan_key;
  mret (w <| wd_user := u |>).

Definition sync_position (w : World) (market_key signer : Pubkey) : result World :=
  u ← sync_signer_market_position (wd_market w) market_key (wd_user w) signer;
  mret (w <| wd_user := u |>).

Section Repay.
  Variable invoke_signed : MarginfiIx → list AccountInfo → result (list AccountInfo).
  Variable invoke_token : TokenIx → list AccountInfo → result (list AccountInfo).
  Variable ctx : RepayContext.
  Variable now : Z.

(** The accounts of the marginfi call on [marginfi_account]. *)
Definition repay_call_accounts (marginfi_account : Pubkey) : list Pubkey :=
  [rc_marginfi_group ctx; marginfi_account; rc_market_signer ctx; rc_debt_bank ctx;
   rc_vault ctx; rc_liquidity_vault ctx; rc_token_program ctx; rc_marginfi_program ctx].

Definition pay_from_borrower (l : Ledger) (amount : Z) : result Ledger :=
  transfer_tokens invoke_token l (rc_token_program ctx) (rc_borrower_token ctx)
    (rc_debt_mint ctx) (rc_vault ctx) (rc_payer ctx) amount.

(** The body of a variable-rate loan after the payment. *)
Definition p2pool_repaid (l : LoanFixed) (shares outstanding : Z) (did_full_repay : bool)
    : LoanFixed :=
  let l := l <| outstanding_debt_atoms := outstanding |>
             <| borrower_marginfi_borrow_shares := shares |>
             <| last_accrued_unix := now |> in
  if did_full_repay
  then l <| loan_state_byte := LoanState_as_u8 LoanState_Repaid |> else l.

Definition repay_p2pool (params : RepayParams) (w : World) (loan : LoanFixed) : result World :=
  let loan_shares := borrower_marginfi_borrow_shares loan in
  _ ← require (0 <? loan_shares) InvalidArgument;
  borrower_mfi ← account (wd_ledger w) (rc_borrower_marginfi_account ctx);
  account_shares_pre ← read_borrower_liability_shares borrower_mfi (rc_debt_bank ctx);
  _ ← require (0 <? account_shares_pre) InvalidArgument;
  let this_loan_shares := Z.min loan_shares account_shares_pre in
  let this_loan_is_account := this_loan_shares =? account_shares_pre in
  bank ← account (wd_ledger w) (rc_debt_bank ctx);
  group ← account (wd_ledger w) (rc_marginfi_group ctx);
  predicted_lsv ← calc_projected_liability_share_value_fp48 bank group now;
  loan_live_atoms ← liability_shares_to_atoms_ceil_at_lsv this_loan_shares predicted_lsv;
  _ ← require (0 <? loan_live_atoms) InvalidArgument;
  repay_atoms ← size_repayment params loan_live_atoms;
  let use_repay_all := rp_full_repay params && this_loan_is_account in
  funded_atoms ← (if use_repay_all
                  then ok_or (checked_add U64 repay_atoms ACCRUE_SAFETY_ATOMS) ArithmeticOverflow
                  else Ok repay_atoms);
  ledger ← pay_from_borrower (wd_ledger w) funded_atoms;
  '(_, ledger) ←
    (if use_repay_all
     then call_repay_atoms_full invoke_signed ledger
            (repay_call_accounts (rc_borrower_marginfi_account ctx)) funded_atoms
     else call_repay_atoms invoke_signed ledger
            (repay_call_accounts (rc_borrower_marginfi_account ctx)) funded_atoms);
  borrower_mfi ← account ledger (rc_borrower_marginfi_account ctx);
  account_shares_post ← read_borrower_liability_shares borrower_mfi (rc_debt_bank ctx);
  bank ← account ledger (rc_debt_bank ctx);
  '(shares_post, did_full_repay, outstanding) ←
    attribute_repayment bank this_loan_shares account_shares_pre account_shares_post;
  let loan' := p2pool_repaid loan (if did_full_repay : bool then 0 else shares_post)
                 outstanding did_full_repay in
  w ← sync_position (w <| wd_loan := Some loan' |> <| wd_ledger := ledger |>)
        (rc_market ctx) (rc_payer ctx);
  if did_full_repay : bool then
    m ← release_borrower (wd_market w) (loan_borrower_seat_index loan)
          (loan_collateral_atoms loan) (borrower_collateral_share_price_snapshot_fp48 loan);
    w ← drop_open_loan_ref (w <| wd_market := m |>) (rc_loan ctx);
    mret (close_loan w)
  else Ok w.

(** The loan after a fixed repayment: the resolution, and the state once nothing is
    left. *)
Definition fixed_repaid (l : LoanFixed) (repay_atoms : Z) : result (LoanFixed * bool) :=
  '(l, _) ← apply_partial_resolution l repay_atoms;
  let full := outstanding_debt_atoms l =? 0 in
  mret (if full then l <| loan_state_byte := LoanState_as_u8 LoanState_Repaid |> else l, full).

Definition repay_fixed (params : RepayParams) (w : World) (loan : LoanFixed) : result World :=
  let outstanding_pre := outstanding_debt_atoms loan in
  repay_atoms ← size_repayment params outstanding_pre;
  ledger ← pay_from_borrower (wd_ledger w) repay_atoms;
  '(credited_shares, ledger) ←
    call_deposit invoke_signed ledger (repay_call_accounts (rc_marginfi_account ctx)) repay_atoms;
  '(loan', did_full_repay) ← fixed_repaid loan repay_atoms;
  bank ← account ledger (rc_debt_bank ctx);
  protocol_fee_shares ←
    protocol_fee_shares_of bank did_full_repay (accumulated_protocol_fee_atoms loan);
  m ← credit_lender (wd_market w) (loan_lender_seat_index loan) protocol_fee_shares
        credited_shares did_full_repay;
  m ← (if did_full_repay : bool
       then release_borrower m (loan_borrower_seat_index loan) (loan_collateral_atoms loan)
              (borrower_collateral_share_price_snapshot_fp48 loan)
       else Ok m);
  let w := w <| wd_market := m |> <| wd_loan := Some loan' |> <| wd_ledger := ledger |> in
  w ← (if did_full_repay : bool
       then close_out_vault w (loan_lender_sub_vault_id loan) bank (close_out_of loan) now
       else Ok w);
  w ← sync_position w (rc_market ctx) (rc_payer ctx);
  if did_full_repay : bool then
    w ← drop_open_loan_ref w (rc_loan ctx);
    mret (close_loan w)
  else Ok w.

Definition process_repay (params : RepayParams) (w : World) : result World :=
  loan ← the_loan w;
  _ ← require (negb (loan_state_byte loan =? LoanState_as_u8 LoanState_Repaid)) InvalidArgument;
  loan ← accrue_loan loan now;
  ty ← loan_type loan;
  seat ← get_seat (wd_market w) (loan_borrower_seat_index loan);
  _ ← require (cs_owner seat =? rc_payer ctx) OrderNotOwnedBySigner;
  match ty with
  | LoanType_P2Pool => repay_p2pool params w loan
  | LoanType_Fixed => repay_fixed params w loan
  end.
End Repay.
