(* ===== verification/Keeper.v ===== *)
(** * Settlement and liquidation by a keeper

    [processor/settle_matured_loan.rs], [liquidate_loan.rs] and [check_liquidatable.rs]:
    the triggers, the size of the payment, the split of the collateral, the marginfi
    calls, the loan's body, the seats, and the close-out the two handlers share. *)
From stdpp Require Import base numbers list option gmap.
From S2P Require Import Prelude FixedPoint Loan Marginfi Oracles Ltv Hypertree.
From S2P Require Import SubVault Market VaultTrees UserAccount Runtime LoanClose.
Local Open Scope Z_scope.

Definition MIN_PARTIAL_REPAY_FLOOR_ATOMS : Z := 1000.

(** The accounts [SettleMaturedLoanContext::load] hands over, by key. *)
Record KeeperContext := mkKeeperContext {
  kc_payer : Pubkey;
  kc_market : Pubkey;
  kc_loan : Pubkey;
  kc_liquidator_debt_token : Pubkey;
  kc_liquidator_collateral_token : Pubkey;
  kc_market_debt_vault : Pubkey;
  kc_market_collateral_vault : Pubkey;
  kc_market_signer : Pubkey;
  kc_lender_marginfi_account : Pubkey;
  kc_borrower_marginfi_account : Pubkey;
  kc_debt_bank : Pubkey;
  kc_collateral_bank : Pubkey;
  kc_debt_liquidity_vault : Pubkey;
  kc_collateral_liquidity_vault : Pubkey;
  kc_collateral_bank_lva : Pubkey;
  kc_debt_oracles : list Pubkey;
  kc_collateral_oracles : list Pubkey;
  kc_debt_mint : MintInfo;
  kc_collateral_mint : MintInfo;
  kc_token_program : Pubkey;
  kc_marginfi_group : Pubkey;
  kc_marginfi_program : Pubkey }.

(** The instruction data: empty for a full payment, or a little-endian maximum. *)
Definition parse_repay_max (data : list Z) : result Z :=
  _ ← require ((length data =? 0)%nat || (8 <=? length data)%nat) InvalidArgument;
  if (8 <=? length data)%nat then bs ← slice data 0 8; mret (from_le_bytes bs) else Ok 0.

(** The payment a keeper makes: all of it, or at least [max(1%, 1000 atoms)]. *)
Definition size_keeper_repay (repay_atoms_max outstanding : Z) : result Z :=
  let actual := if repay_atoms_max =? 0 then outstanding else Z.min repay_atoms_max outstanding in
  _ ← require (0 <? actual) InvalidArgument;
  if actual =? outstanding then Ok actual else
  _ ← require (MIN_PARTIAL_REPAY_FLOOR_ATOMS <=? outstanding) InvalidArgument;
  _ ← require (Z.max (outstanding / 100) MIN_PARTIAL_REPAY_FLOOR_ATOMS <=? actual) InvalidArgument;
  mret actual.

(** ** [compute_collateral_split] *)

Record CollateralSplit := mkCollateralSplit {
  liquidator_seizes_atoms : Z;
  surplus_atoms : Z;
  bad_debt_gap_atoms : Z;
  bonus_atoms : Z }.

Definition compute_collateral_split (debt_value_in_collateral_atoms collateral_atoms bonus_bps : Z)
    : result CollateralSplit :=
  _ ← require (bonus_bps <=? MAX_LIQUIDATION_KEEPER_BPS) InvalidArgument;
  bonus ← mul_div_u64 debt_value_in_collateral_atoms bonus_bps 10000 false;
  let total_seize_target := saturating_add U64 debt_value_in_collateral_atoms bonus in
  let seizes := Z.min collateral_atoms total_seize_target in
  mret (mkCollateralSplit seizes (saturating_sub collateral_atoms seizes)
          (saturating_sub total_seize_target collateral_atoms) bonus).

(** ** The body of the loan *)

(** The protocol's cut of a keeper's payment on a fixed loan. *)
Definition liquidation_protocol_atoms (ty : LoanType) (protocol_bps actual_repay_atoms : Z)
    : result Z :=
  if bool_decide (ty = LoanType_Fixed) && (0 <? protocol_bps)
  then mul_div_u64 actual_repay_atoms protocol_bps 10000 false else Ok 0.

(** It moves from the lender's claim to the protocol's bucket. *)
Definition move_protocol_fee (fee_atoms : Z) (l : LoanFixed) : result LoanFixed :=
  if 0 <? fee_atoms then
    let fee := Z.min fee_atoms (lender_claimable_atoms l) in
    c ← ok_or (checked_sub (lender_claimable_atoms l) fee) ArithmeticOverflow;
    p ← ok_or (checked_add U64 (accumulated_protocol_fee_atoms l) fee) ArithmeticOverflow;
    mret (l <| lender_claimable_atoms := c |> <| accumulated_protocol_fee_atoms := p |>)
  else Ok l.

(** A liquidation that leaves bad debt returns the curator's fee to the lender. *)
Definition clawback_curator_fee (bad_debt_gap : Z) (l : LoanFixed) : result LoanFixed :=
  if (0 <? bad_debt_gap) && (0 <? accumulated_curator_fee_atoms l) then
    c ← ok_or (checked_add U64 (lender_claimable_atoms l) (accumulated_curator_fee_atoms l))
          ArithmeticOverflow;
    mret (l <| accumulated_curator_fee_atoms := 0 |> <| lender_claimable_atoms := c |>)
  else Ok l.

Definition take_collateral (did_full_repay : bool) (collateral withdrawn : Z) (l : LoanFixed)
    : LoanFixed :=
  if did_full_repay
  then l <| loan_collateral_atoms := 0 |> <| loan_state_byte := LoanState_as_u8 LoanState_Repaid |>
  else l <| loan_collateral_atoms := saturating_sub collateral withdrawn |>.

(** The fixed arm: [bad_debt_gap] is zero in a settlement. *)
Definition resolve_fixed (actual_repay_atoms protocol_atoms bad_debt_gap collateral withdrawn : Z)
    (did_full_repay : bool) (l : LoanFixed) : result LoanFixed :=
  '(l, _) ← apply_partial_resolution l actual_repay_atoms;
  l ← move_protocol_fee protocol_atoms l;
  l ← clawback_curator_fee bad_debt_gap l;
  let l := take_collateral did_full_repay collateral withdrawn l in
  _ ← assert_loan_conservation l;
  mret l.

(** The variable-rate arm. *)
Definition resolve_p2pool (shares outstanding collateral withdrawn : Z) (did_full_repay : bool)
    (l : LoanFixed) : LoanFixed :=
  take_collateral did_full_repay collateral withdrawn
    (l <| borrower_marginfi_borrow_shares := shares |>
       <| outstanding_debt_atoms := if did_full_repay then 0 else outstanding |>).

(** ** The two handlers *)

Section Keeper.
  Variable invoke_signed : MarginfiIx → list AccountInfo → result (list AccountInfo).
  Variable invoke_token : TokenIx → list AccountInfo → result (list AccountInfo).
  Variable parse_stake_state : list Z → option StakeState.
  Variable ctx : KeeperContext.
  Variable now : Z.

Definition fee_config_of (w : World) : FeeConfig := mf_fee_config (mk_fixed (wd_market w)).

(** Both handlers open a live loan and accrue it. *)
Definition open_and_accrue (w : World) : result LoanFixed :=
  loan ← the_loan w;
  _ ← require (negb (loan_state_byte loan =? LoanState_as_u8 LoanState_Repaid)) InvalidArgument;
  accrue_loan loan now.

Definition live_outstanding (w : World) (loan : LoanFixed) : result Z :=
  borrower_mfi ← account (wd_ledger w) (kc_borrower_marginfi_account ctx);
  bank ← account (wd_ledger w) (kc_debt_bank ctx);
  loan_live_outstanding_atoms loan borrower_mfi bank.

(** The LTV gate on the accounts of the transaction. *)
Definition ltv_gate (w : World) (loan : LoanFixed) (ty : LoanType) (outstanding : Z) : result unit :=
  debt_bank ← account (wd_ledger w) (kc_debt_bank ctx);
  collateral_bank ← account (wd_ledger w) (kc_collateral_bank ctx);
  debt_oracles ← accounts_of (wd_ledger w) (kc_debt_bank ctx :: kc_debt_oracles ctx);
  collateral_oracles ← accounts_of (wd_ledger w)
                         (kc_collateral_bank ctx :: kc_collateral_oracles ctx);
  assert_ltv_breach parse_stake_state now ty (loan_liquidation_ltv_bps loan) outstanding
    (loan_collateral_atoms loan) debt_bank debt_oracles collateral_bank collateral_oracles
    (mf_debt_mint_decimals (mk_fixed (wd_market w)))
    (mf_collateral_mint_decimals (mk_fixed (wd_market w))).

Definition keeper_call_accounts (marginfi_account : Pubkey) : list Pubkey :=
  [kc_marginfi_group ctx; marginfi_account; kc_market_signer ctx; kc_debt_bank ctx;
   kc_market_debt_vault ctx; kc_debt_liquidity_vault ctx; kc_token_program ctx;
   kc_marginfi_program ctx].

Definition collateral_call_accounts (ty : LoanType) : list Pubkey :=
  [kc_marginfi_group ctx; kc_borrower_marginfi_account ctx; kc_market_signer ctx;
   kc_collateral_bank ctx; kc_market_collateral_vault ctx; kc_collateral_bank_lva ctx;
   kc_collateral_liquidity_vault ctx; kc_token_program ctx; kc_marginfi_program ctx;
   kc_collateral_bank ctx] ++ kc_collateral_oracles ctx
  ++ (match ty with
      | LoanType_P2Pool => kc_debt_bank ctx :: kc_debt_oracles ctx
      | LoanType_Fixed => []
      end).

Definition check_keeper_balance (l : Ledger) (amount : Z) : result unit :=
  balance_info ← account l (kc_liquidator_debt_token ctx);
  balance ← raw_token_balance balance_info;
  require (amount <=? balance) LiquidatorPaymentInsufficient.

Definition pay_from_keeper (l : Ledger) (amount : Z) : result Ledger :=
  transfer_tokens invoke_token l (kc_token_program ctx) (kc_liquidator_debt_token ctx)
    (kc_debt_mint ctx) (kc_market_debt_vault ctx) (kc_payer ctx) amount.

(** What the payment did: the shares credited on a fixed loan, the shares and debt a
    variable-rate loan still carries, and whether the loan is cleared. *)
Record Payment := mkPayment {
  pm_credited_shares : Z;
  pm_loan_shares : Z;
  pm_outstanding : Z;
  pm_full : bool }.

(** The marginfi call on the payment; [repay_all_amount] is what [repay_all] passes. *)
Definition apply_payment (l : Ledger) (loan : LoanFixed) (ty : LoanType)
    (actual repay_all_amount : Z) (is_full : bool) : result (Payment * Ledger) :=
  match ty with
  | LoanType_Fixed =>
      '(credited, l) ← call_deposit invoke_signed l
                         (keeper_call_accounts (kc_lender_marginfi_account ctx)) actual;
      mret (mkPayment credited 0 0 is_full, l)
  | LoanType_P2Pool =>
      let pre_loan := borrower_marginfi_borrow_shares loan in
      mfi ← account l (kc_borrower_marginfi_account ctx);
      pre_account ← read_borrower_liability_shares mfi (kc_debt_bank ctx);
      let ks := keeper_call_accounts (kc_borrower_marginfi_account ctx) in
      '(_, l) ← (if is_full && (pre_loan =? pre_account)
                 then call_repay_atoms_full invoke_signed l ks repay_all_amount
                 else call_repay_atoms invoke_signed l ks actual);
      mfi ← account l (kc_borrower_marginfi_account ctx);
      post_account ← read_borrower_liability_shares mfi (kc_debt_bank ctx);
      bank ← account l (kc_debt_bank ctx);
      '(shares, full, outstanding) ← attribute_repayment bank pre_loan pre_account post_account;
      mret (mkPayment 0 shares outstanding full, l)
  end.

(** [amount_to_asset_shares] of the atoms, the withdrawal, the transfer to the keeper. *)
Definition seize_collateral (l : Ledger) (ty : LoanType) (atoms : Z) : result (Z * Ledger) :=
  bank ← account l (kc_collateral_bank ctx);
  shares ← amount_to_asset_shares [bank] atoms;
  '(withdrawn, _, l) ← call_withdraw invoke_signed l (collateral_call_accounts ty) shares;
  l ← transfer_tokens invoke_token l (kc_token_program ctx) (kc_market_collateral_vault ctx)
        (kc_collateral_mint ctx) (kc_liquidator_collateral_token ctx) (kc_market_signer ctx)
        withdrawn;
  mret (withdrawn, l).

(** The close-out both handlers end with: a fixed loan whose deposit was credited pays
    its lender, and its sub-vault when it is cleared; a cleared loan is closed. *)
Definition keeper_close_out (w : World) (loan : LoanFixed) (ty : LoanType) (pm : Payment)
    : result World :=
  w ← (if bool_decide (ty = LoanType_Fixed) && (0 <? pm_credited_shares pm) then
         bank ← account (wd_ledger w) (kc_debt_bank ctx);
         fee_shares ← protocol_fee_shares_of bank (pm_full pm)
                        (accumulated_protocol_fee_atoms loan);
         m ← credit_lender (wd_market w) (loan_lender_seat_index loan) fee_shares
               (pm_credited_shares pm) (pm_full pm);
         let w := w <| wd_market := m |> in
         if pm_full pm
         then close_out_vault w (loan_lender_sub_vault_id loan) bank (close_out_of loan) now
         else Ok w
       else Ok w);
  mret (if pm_full pm then close_loan w else w).

(** *** [process_settle_matured_loan] *)

(** The borrower's seat: only what was withdrawn is released. *)
Definition settle_borrower_seat (m : Market) (loan : LoanFixed) (withdrawn : Z)
    (did_full_repay : bool) : result Market :=
  if 0 <? withdrawn then
    shares ← atoms_to_shares_at_snapshot withdrawn
               (borrower_collateral_share_price_snapshot_fp48 loan);
    modify_seat m (loan_borrower_seat_index loan) (λ s,
      let s := s <| cs_collateral_encumbered_shares ::= λ e, saturating_sub e shares |> in
      if did_full_repay then drop_open_borrow s else Ok s)
  else Ok m.

(** What a variable-rate full settlement stages for [repay_all], and the refund of
    what marginfi left. *)
Definition staged_atoms_of (ty : LoanType) (is_full : bool) (actual : Z) : Z :=
  if bool_decide (ty = LoanType_P2Pool) && is_full
  then saturating_add U64 (saturating_add U64 actual (actual / 50)) 64 else actual.

Definition refund_staging (l : Ledger) (ty : LoanType) (pre_stage : Z) : result Ledger :=
  match ty with
  | LoanType_Fixed => Ok l
  | LoanType_P2Pool =>
      vault ← account l (kc_market_debt_vault ctx);
      vault_now ← raw_token_balance vault;
      let remainder := saturating_sub vault_now pre_stage in
      if 0 <? remainder then
        transfer_tokens invoke_token l (kc_token_program ctx) (kc_market_debt_vault ctx)
          (kc_debt_mint ctx) (kc_liquidator_debt_token ctx) (kc_market_signer ctx) remainder
      else Ok l
  end.

Definition process_settle_matured_loan (data : list Z) (w : World) : result World :=
  repay_atoms_max ← parse_repay_max data;
  loan ← open_and_accrue w;
  ty ← loan_type loan;
  _ ← assert_past_grace_period loan (fc_grace_period_seconds (fee_config_of w)) now;
  outstanding ← live_outstanding w loan;
  _ ← require (0 <? outstanding) InvalidArgument;
  actual ← size_keeper_repay repay_atoms_max outstanding;
  let is_full := actual =? outstanding in
  let collateral := loan_collateral_atoms loan in
  seized ← (if is_full then Ok collateral else mul_div_u64 collateral actual outstanding false);
  let staged := staged_atoms_of ty is_full actual in
  _ ← check_keeper_balance (wd_ledger w) staged;
  vault ← account (wd_ledger w) (kc_market_debt_vault ctx);
  pre_stage ← raw_token_balance vault;
  ledger ← pay_from_keeper (wd_ledger w) staged;
  '(pm, ledger) ← apply_payment ledger loan ty actual staged is_full;
  ledger ← refund_staging ledger ty pre_stage;
  '(withdrawn, ledger) ←
    (if 0 <? seized then seize_collateral ledger ty seized else Ok (0, ledger));
  m ← settle_borrower_seat (wd_market w) loan withdrawn (pm_full pm);
  protocol_atoms ← liquidation_protocol_atoms ty
                     (fc_liquidation_protocol_bps (fee_config_of w)) actual;
  loan' ← (match ty with
           | LoanType_P2Pool => Ok (resolve_p2pool (pm_loan_shares pm) (pm_outstanding pm)
                                      collateral withdrawn (pm_full pm) loan)
           | LoanType_Fixed => resolve_fixed actual protocol_atoms 0 collateral withdrawn
                                 (pm_full pm) loan
           end);
  keeper_close_out
    (w <| wd_market := m |> <| wd_loan := Some loan' |> <| wd_ledger := ledger |>) loan' ty pm.

(** *** [process_liquidate_loan] *)

(** The borrower's seat: a full liquidation releases the whole collateral and credits
    what was not seized. *)
Definition liquidate_borrower_seat (m : Market) (loan : LoanFixed) (withdrawn : Z)
    (did_full_repay : bool) : result Market :=
  let snapshot := borrower_collateral_share_price_snapshot_fp48 loan in
  let surplus := if did_full_repay then saturating_sub (loan_collateral_atoms loan) withdrawn
                 else 0 in
  surplus_shares ← (if 0 <? surplus then atoms_to_shares_at_snapshot surplus snapshot else Ok 0);
  modify_seat m (loan_borrower_seat_index loan) (λ s,
    release ← atoms_to_shares_at_snapshot
                (if did_full_repay then loan_collateral_atoms loan else withdrawn) snapshot;
    let s := s <| cs_collateral_encumbered_shares ::= λ e, saturating_sub e release |> in
    s ← (if 0 <? surplus_shares then
           x ← ok_or (checked_add U128 (cs_collateral_withdrawable_shares s) surplus_shares)
                 ArithmeticOverflow;
           mret (s <| cs_collateral_withdrawable_shares := x |>)
         else Ok s);
    if did_full_repay then drop_open_borrow s else Ok s).

(** The price of the payment in collateral, and its split. *)
Definition liquidation_split (w : World) (loan : LoanFixed) (actual : Z) : result CollateralSplit :=
  debt_oracles ← accounts_of (wd_ledger w) (kc_debt_bank ctx :: kc_debt_oracles ctx);
  debt_raw ← read_oracle_price parse_stake_state now debt_oracles;
  collateral_oracles ← accounts_of (wd_ledger w)
                         (kc_collateral_bank ctx :: kc_collateral_oracles ctx);
  collateral_raw ← read_oracle_price parse_stake_state now collateral_oracles;
  value ← get_required_quote_collateral_to_back_debt actual (from_raw debt_raw)
            (from_raw collateral_raw) fp48_ONE fp48_ONE
            (mf_debt_mint_decimals (mk_fixed (wd_market w)))
            (mf_collateral_mint_decimals (mk_fixed (wd_market w)));
  compute_collateral_split value (loan_collateral_atoms loan)
    (fc_liquidation_keeper_bps (fee_config_of w)).

Definition process_liquidate_loan (data : list Z) (w : World) : result World :=
  repay_atoms_max ← parse_repay_max data;
  loan ← open_and_accrue w;
  ty ← loan_type loan;
  outstanding ← live_outstanding w loan;
  _ ← ltv_gate w loan ty outstanding;
  actual ← size_keeper_repay repay_atoms_max outstanding;
  let is_full := actual =? outstanding in
  split ← liquidation_split w loan actual;
  let collateral := loan_collateral_atoms loan in
  _ ← check_keeper_balance (wd_ledger w) actual;
  ledger ← pay_from_keeper (wd_ledger w) actual;
  '(pm, ledger) ← apply_payment ledger loan ty actual actual is_full;
  '(withdrawn, ledger) ← seize_collateral ledger ty (liquidator_seizes_atoms split);
  m ← liquidate_borrower_seat (wd_market w) loan withdrawn (pm_full pm);
  protocol_atoms ← liquidation_protocol_atoms ty
                     (fc_liquidation_protocol_bps (fee_config_of w)) actual;
  loan' ← (match ty with
           | LoanType_P2Pool => Ok (resolve_p2pool (pm_loan_shares pm) (pm_outstanding pm)
                                      collateral withdrawn (pm_full pm) loan)
           | LoanType_Fixed => resolve_fixed actual protocol_atoms (bad_debt_gap_atoms split)
                                 collateral withdrawn (pm_full pm) loan
           end);
  keeper_close_out
    (w <| wd_market := m |> <| wd_loan := Some loan' |> <| wd_ledger := ledger |>) loan' ty pm.

(** *** [check_liquidatable.rs] *)

Definition process_check_ltv_liquidatable (w : World) : result unit :=
  loan ← open_and_accrue w;
  outstanding ← live_outstanding w loan;
  ty ← loan_type loan;
  ltv_gate w loan ty outstanding.

Definition process_check_maturity_liquidatable (w : World) : result unit :=
  loan ← open_and_accrue w;
  _ ← assert_past_grace_period loan (fc_grace_period_seconds (fee_config_of w)) now;
  outstanding ← live_outstanding w loan;
  require (0 <? outstanding) InvalidArgument.
End Keeper.
