(* ===== verification/Promotion.v ===== *)
(** * Promotion of a matched loan ([processor/process_matched_loan.rs])

    The queue node of a fill becomes a loan account: the seats are re-verified, the
    sub-vault that lends funds the market's lender account through marginfi
    ([do_vault_settle]), the borrower is credited the net principal and the protocol
    its origination fee, and the node leaves the queue. *)
From stdpp Require Import base numbers list option gmap.
From S2P Require Import Prelude FixedPoint Loan Marginfi Ltv Hypertree SubVault.
From S2P Require Import Market VaultTrees UserAccount Runtime LoanClose.
Local Open Scope Z_scope.

(** [VaultSettleAccounts], by key. *)
Record SettleAccounts := mkSettleAccounts {
  sa_vault : Pubkey;
  sa_global_vault_signer : Pubkey;
  sa_global_vault_staging : Pubkey;
  sa_global_vault_integration_account : Pubkey;
  sa_market_debt_vault : Pubkey;
  sa_market_lender_integration_account : Pubkey;
  sa_market_signer : Pubkey;
  sa_liquidity_vault : Pubkey;
  sa_bank_liquidity_vault_authority : Pubkey;
  sa_bank_oracle : Pubkey;
  sa_mint : MintInfo;
  sa_token_program : Pubkey;
  sa_marginfi_group : Pubkey;
  sa_marginfi_program : Pubkey }.

Record PromotionContext := mkPromotionContext {
  pc_payer : Pubkey;
  pc_market : Pubkey;
  pc_loan_bump : Z;
  pc_debt_bank : Pubkey;
  pc_vault_settle : option SettleAccounts }.

Definition has_flag (flags flag : Z) : bool := negb (Z.land flags flag =? 0).

Definition matched_loan_probe (sequence : Z) : MatchedLoan :=
  mkMatchedLoan sequence 0 0 0 0 0 0 0 0 0 0 0 0 0 0 0 fp48_ZERO fp48_ZERO.

(** The loader's lookup of the queue node. *)
Definition find_queue_node (m : Market) (sequence : Z) : result (MatchedLoan * Z) :=
  idx ← lookup_index (V:=MatchedLoan) (matched_loan_tree m) (matched_loan_probe sequence);
  _ ← require (negb (idx =? NIL)) MatchedLoanNotFound;
  node ← get_matched_loan m idx;
  mret (node, idx).

(** The seats the node names, re-verified against the seat tree: who lends. *)
Definition verify_node_seats (m : Market) (node : MatchedLoan) : result (Z * Z * Pubkey) :=
  _ ← verify_live_seat m (ml_borrower_seat_index node) OWNER_KIND_USER;
  let vault_lender := has_flag (ml_flags node) MATCHED_LOAN_FLAG_VAULT_LENDER in
  if ml_lender_seat_index node =? NIL then
    _ ← require (negb vault_lender) IncorrectAccount;
    mret (0, 0, Pubkey_default)
  else
    _ ← require vault_lender IncorrectAccount;
    seat ← verify_live_seat m (ml_lender_seat_index node) OWNER_KIND_SUB_VAULT;
    mret (OWNER_KIND_SUB_VAULT, cs_sub_vault_id seat, cs_owner seat).

(** The loan account a node becomes, stamps included. *)
Definition promoted_loan (ctx : PromotionContext) (node : MatchedLoan) (ty : LoanType)
    (net_principal lender_kind lender_sub_vault_id : Z) (lender_global_vault : Pubkey)
    (started_at curator_fee_bps : Z) : LoanFixed :=
  new_from_matched_loan_with_lender (pc_market ctx) (ml_sequence node) (pc_loan_bump ctx)
    (pc_payer ctx) (ml_lender_seat_index node) (ml_borrower_seat_index node)
    (ml_principal_atoms node) net_principal (ml_collateral_atoms node)
    (ml_borrower_rate_bps node) (ml_lender_rate_bps node) (ml_term_seconds node) started_at
    (ml_flags node) ty (ml_borrower_marginfi_borrow_shares node) lender_kind lender_sub_vault_id
    lender_global_vault curator_fee_bps (ml_lender_debt_share_price_snapshot_fp48 node)
    (ml_borrower_collateral_share_price_snapshot_fp48 node)
  <| loan_origination_ltv_bps := ml_origination_ltv_bps node |>
  <| loan_liquidation_ltv_bps := ml_liquidation_ltv_bps node |>.

(** The node leaves the queue and its block returns to the free list. *)
Definition retire_node (m : Market) (index : Z) : result Market :=
  t ← remove_by_index (V:=MatchedLoan) (matched_loan_tree m) index;
  release_address (put_matched_loans m t) index.

Section Promotion.
  Variable invoke_signed : MarginfiIx → list AccountInfo → result (list AccountInfo).
  Variable invoke_token : TokenIx → list AccountInfo → result (list AccountInfo).
  Variable ctx : PromotionContext.
  Variable now : Z.

Definition settle_withdraw_accounts (s : SettleAccounts) : list Pubkey :=
  [sa_marginfi_group s; sa_global_vault_integration_account s; sa_global_vault_signer s;
   pc_debt_bank ctx; sa_global_vault_staging s; sa_bank_liquidity_vault_authority s;
   sa_liquidity_vault s; sa_token_program s; sa_marginfi_program s; pc_debt_bank ctx;
   sa_bank_oracle s].

Definition settle_deposit_accounts (s : SettleAccounts) : list Pubkey :=
  [sa_marginfi_group s; sa_market_lender_integration_account s; sa_market_signer s;
   pc_debt_bank ctx; sa_market_debt_vault s; sa_liquidity_vault s; sa_token_program s;
   sa_marginfi_program s].

(** The marginfi withdrawal that covers [principal + 1], or the whole balance when
    that is all there is; never less than the principal. *)
Definition withdraw_principal (s : SettleAccounts) (principal_atoms : Z) (l : Ledger)
    : result (Z * Ledger) :=
  cover ← ok_or (checked_add U64 principal_atoms 1) ArithmeticOverflow;
  integration ← account l (sa_global_vault_integration_account s);
  shares_pre ← read_asset_shares_u128 integration (pc_debt_bank ctx);
  bank ← account l (pc_debt_bank ctx);
  atoms_pre ← shares_to_amount [bank] shares_pre;
  _ ← require (principal_atoms <=? atoms_pre) InvalidArgument;
  '(actual, l) ←
    (if atoms_pre <=? cover then
       call_withdraw_atoms_full invoke_signed l (settle_withdraw_accounts s) atoms_pre
     else
       expected_shares ← amount_to_asset_shares_ceil [bank] cover;
       '(actual, _, l) ← call_withdraw invoke_signed l (settle_withdraw_accounts s) expected_shares;
       mret (actual, l));
  _ ← require (principal_atoms <=? actual) ArithmeticOverflow;
  mret (actual, l).

Definition do_vault_settle (principal_atoms : Z) (s : SettleAccounts)
    (lender_rate_bps curator_fee_bps sub_vault_id : Z) (w : World) : result World :=
  if principal_atoms =? 0 then Ok w else
  '(actual, l) ← withdraw_principal s principal_atoms (wd_ledger w);
  let surplus := saturating_sub actual principal_atoms in
  l ← transfer_tokens invoke_token l (sa_token_program s) (sa_global_vault_staging s) (sa_mint s)
        (sa_market_debt_vault s) (sa_global_vault_signer s) principal_atoms;
  '(_, l) ← call_deposit invoke_signed l (settle_deposit_accounts s) principal_atoms;
  bank ← account l (pc_debt_bank ctx);
  v ← ok_or (wd_vault w) Panic;
  v ← on_sub_vault v sub_vault_id (λ sv,
        share_value ← read_bank_share_value bank;
        fund_loan principal_atoms lender_rate_bps curator_fee_bps surplus now share_value sv);
  mret (w <| wd_vault := Some v |> <| wd_ledger := l |>).

Definition process_primary_promotion (sequence : Z) (w : World) : result World :=
  '(node, node_index) ← find_queue_node (wd_market w) sequence;
  _ ← require (bool_decide (wd_loan w = None)) InvalidAccountData;
  ty ← LoanType_from_u8 (ml_loan_type node);
  let presettled := has_flag (ml_flags node) MATCHED_LOAN_FLAG_VAULT_PRESETTLED in
  net_principal ← ok_or (checked_sub (ml_principal_atoms node) (ml_origination_atoms node))
                    InvalidArgument;
  _ ← require (0 <? net_principal) InvalidArgument;
  '(lender_kind, lender_sub_vault_id, lender_global_vault) ←
    verify_node_seats (wd_market w) node;
  let vault_lender := lender_kind =? OWNER_KIND_SUB_VAULT in
  let curator_fee_bps := if vault_lender then ml_curator_fee_bps_snapshot node else 0 in
  let loan := promoted_loan ctx node ty net_principal lender_kind lender_sub_vault_id
                lender_global_vault (if presettled then ml_matched_at_unix node else now)
                curator_fee_bps in
  let fixed := bool_decide (ty = LoanType_Fixed) in
  bank ← account (wd_ledger w) (pc_debt_bank ctx);
  credited_shares ← (if fixed && negb presettled
                     then amount_to_asset_shares [bank] net_principal else Ok 0);
  origination_shares ← (if fixed && (0 <? ml_origination_atoms node)
                        then amount_to_asset_shares [bank] (ml_origination_atoms node) else Ok 0);
  let w := w <| wd_loan := Some loan |> in
  w ← (if vault_lender && fixed && negb presettled then
         settle ← ok_or (pc_vault_settle ctx) IncorrectAccount;
         do_vault_settle (ml_principal_atoms node) settle (ml_lender_rate_bps node)
           curator_fee_bps lender_sub_vault_id w
       else Ok w);
  m ← (if fixed && (0 <? credited_shares)
       then deposit_to_seat (wd_market w) (ml_borrower_seat_index node) credited_shares true
       else Ok (wd_market w));
  fees ← ok_or (checked_add U128 (mf_accumulated_protocol_fee_shares (mk_fixed m))
                  origination_shares) ArithmeticOverflow;
  m ← retire_node (m <| mk_fixed ::= λ f, f <| mf_accumulated_protocol_fee_shares := fees |> |>)
        node_index;
  mret (w <| wd_market := m |>).
End Promotion.
