(* ===== verification/Deposits.v ===== *)
(** * Deposits and withdrawals

    A trader's collateral and borrowed funds on its market seat
    ([processor/deposit.rs], [withdraw.rs]), and a lender's shares of a sub-vault
    ([global_vault_deposit.rs], [global_vault_withdraw.rs]). *)
From stdpp Require Import base numbers list option gmap.
From S2P Require Import Prelude FixedPoint Loan Marginfi Hypertree SubVault Market.
From S2P Require Import VaultTrees UserAccount Runtime LoanClose.
Local Open Scope Z_scope.

(** [TokenAccountInfo::get_balance_atoms]. *)
Definition get_balance_atoms (a : AccountInfo) : result Z :=
  if (length (ai_data a) <? 72)%nat then Err InvalidAccountData else raw_token_balance a.

Section Traders.
  Variable invoke_signed : MarginfiIx → list AccountInfo → result (list AccountInfo).
  Variable invoke_token : TokenIx → list AccountInfo → result (list AccountInfo).

(** The accounts [DepositContext] and [WithdrawContext] share, by key; [is_debt] is
    what the loader derived from the token account's mint. *)
Record SeatContext := mkSeatContext {
  sc_payer : Pubkey;
  sc_market : Pubkey;
  sc_trader_token : Pubkey;
  sc_vault : Pubkey;
  sc_token_program : Pubkey;
  sc_mint : MintInfo;
  sc_is_debt : bool;
  sc_marginfi_group : Pubkey;
  sc_marginfi_account : Pubkey;
  sc_bank : Pubkey;
  sc_liquidity_vault : Pubkey;
  sc_market_signer : Pubkey;
  sc_marginfi_program : Pubkey;
  sc_bank_liquidity_vault_authority : Pubkey;
  sc_debt_bank : Pubkey;
  sc_collateral_bank : Pubkey;
  sc_debt_oracles : list Pubkey;
  sc_collateral_oracles : list Pubkey }.

Definition process_deposit (ctx : SeatContext) (amount_atoms : Z) (trader_index_hint : option Z)
    (w : World) : result World :=
  _ ← require (0 <? amount_atoms) InvalidDepositAccounts;
  _ ← require (negb (sc_is_debt ctx)) InvalidDepositAccounts;
  vault ← account (wd_ledger w) (sc_vault ctx);
  before ← get_balance_atoms vault;
  l ← transfer_tokens invoke_token (wd_ledger w) (sc_token_program ctx) (sc_trader_token ctx)
        (sc_mint ctx) (sc_vault ctx) (sc_payer ctx) amount_atoms;
  vault ← account l (sc_vault ctx);
  after ← get_balance_atoms vault;
  received ← ok_or (checked_sub after before) ArithmeticOverflow;
  _ ← require (0 <? received) InvalidDepositAccounts;
  '(credited_shares, l) ← call_deposit invoke_signed l
    [sc_marginfi_group ctx; sc_marginfi_account ctx; sc_market_signer ctx; sc_bank ctx;
     sc_vault ctx; sc_liquidity_vault ctx; sc_token_program ctx; sc_marginfi_program ctx] received;
  seat_index ← get_seat_index_with_hint (wd_market w) (sc_payer ctx) trader_index_hint;
  m ← deposit_to_seat (wd_market w) seat_index credited_shares (sc_is_debt ctx);
  u ← sync_signer_market_position m (sc_market ctx) (wd_user w) (sc_payer ctx);
  mret (w <| wd_market := m |> <| wd_user := u |> <| wd_ledger := l |>).

(** [build_active_bank_oracle_pairs]: the remaining accounts marginfi's health check
    wants, in the order of the account's balances. *)
Fixpoint active_bank_oracle_pairs (ctx : SeatContext) (balances : list Balance)
    : result (list Pubkey) :=
  match balances with
  | [] => Ok []
  | b :: rest =>
      if negb (balance_is_active b) then active_bank_oracle_pairs ctx rest else
      pair ← (if balance_bank_pk b =? sc_debt_bank ctx
              then Ok (sc_debt_bank ctx :: sc_debt_oracles ctx)
              else if balance_bank_pk b =? sc_collateral_bank ctx
              then Ok (sc_collateral_bank ctx :: sc_collateral_oracles ctx)
              else Err IncorrectAccount);
      pairs ← active_bank_oracle_pairs ctx rest;
      mret (pair ++ pairs)
  end.

(** The shares a withdrawal asks marginfi for, and those it burns on the seat. *)
Definition size_withdrawal (bank : AccountInfo) (withdraw_all : bool)
    (amount_atoms seat_shares marginfi_shares : Z) : result (Z * Z) :=
  raw ← (if withdraw_all then Ok seat_shares
         else req ← amount_to_asset_shares [bank] amount_atoms;
              _ ← require (req <=? seat_shares) InsufficientWithdrawableBalance;
              mret req);
  let expected := Z.min raw marginfi_shares in
  _ ← require (0 <? expected) InsufficientWithdrawableBalance;
  mret (expected, if withdraw_all then seat_shares else expected).

Definition process_withdraw (ctx : SeatContext) (amount_atoms : Z) (trader_index_hint : option Z)
    (withdraw_all : bool) (w : World) : result World :=
  _ ← (if withdraw_all then Ok tt else require (0 <? amount_atoms) InvalidWithdrawAccounts);
  let m := wd_market w in
  seat_index ← get_seat_index_with_hint m (sc_payer ctx) trader_index_hint;
  seat_shares ← withdrawable_shares_for_seat m seat_index (sc_is_debt ctx);
  bank ← account (wd_ledger w) (sc_bank ctx);
  mfi ← account (wd_ledger w) (sc_marginfi_account ctx);
  marginfi_shares ← read_asset_shares_u128 mfi (sc_bank ctx);
  '(expected_shares, burn_shares) ←
    size_withdrawal bank withdraw_all amount_atoms seat_shares marginfi_shares;
  expected_atoms ← shares_to_amount [bank] expected_shares;
  m ← withdraw_from_seat m seat_index burn_shares (sc_is_debt ctx);
  balances ← map_err (marginfi_account_try_from_account_data (ai_data mfi)) IncorrectAccount;
  pairs ← active_bank_oracle_pairs ctx balances;
  '(actual_atoms, _, l) ← call_withdraw invoke_signed (wd_ledger w)
    ([sc_marginfi_group ctx; sc_marginfi_account ctx; sc_market_signer ctx; sc_bank ctx;
      sc_vault ctx; sc_bank_liquidity_vault_authority ctx; sc_liquidity_vault ctx;
      sc_token_program ctx; sc_marginfi_program ctx] ++ pairs) expected_shares;
  l ← transfer_tokens invoke_token l (sc_token_program ctx) (sc_vault ctx) (sc_mint ctx)
        (sc_trader_token ctx) (sc_market_signer ctx) (Z.min actual_atoms expected_atoms);
  u ← sync_signer_market_position m (sc_market ctx) (wd_user w) (sc_payer ctx);
  mret (w <| wd_market := m |> <| wd_user := u |> <| wd_ledger := l |>).
End Traders.

(** ** Shares of a sub-vault *)

(** A private sub-vault serves its owner only. *)
Definition check_private (payer : Pubkey) (s : SubVault) : result unit :=
  require (negb (sv_kind s =? SUB_VAULT_KIND_PRIVATE) || (sv_curator s =? payer))
    VaultCuratorRequired.

(** The shares minted for [atoms], pro rata to the assets, and the sub-vault after. *)
Definition mint_shares (atoms : Z) (s : SubVault) : result (SubVault * Z) :=
  '(s, shares) ←
    (if sv_total_shares s =? 0 then Ok (s <| sv_total_assets_atoms := 0 |>, atoms)
     else _ ← require (negb (sv_total_assets_atoms s =? 0)) InvalidArgument;
          shares ← mul_div atoms (sv_total_shares s) (sv_total_assets_atoms s) false;
          mret (s, shares));
  _ ← require (0 <? shares) InvalidArgument;
  t ← ok_or (checked_add U128 (sv_total_shares s) shares) ArithmeticOverflow;
  p ← ok_or (checked_add U64 (sv_total_principal_atoms s) atoms) ArithmeticOverflow;
  a ← ok_or (checked_add U64 (sv_total_assets_atoms s) atoms) ArithmeticOverflow;
  mret (s <| sv_total_shares := t |> <| sv_total_principal_atoms := p |>
          <| sv_total_assets_atoms := a |>, shares).

(** The update of the sub-vault by a deposit: gates, accrual, mint. *)
Definition deposit_into_sub_vault (payer : Pubkey) (bank : AccountInfo) (now atoms : Z)
    (s : SubVault) : result (SubVault * Z) :=
  _ ← check_private payer s;
  _ ← require (sv_is_sunset s =? 0) SubVaultSunset;
  share_value ← read_bank_share_value bank;
  s ← accrue_sub_vault s now share_value;
  mint_shares atoms s.

(** What burning [shares] pays: their part of the realised principal, gated by the
    sub-vault's idle atoms and the vault's marginfi balance. *)
Definition burn_shares (shares mfi_atoms : Z) (s : SubVault) : result (SubVault * Z) :=
  decrement_u128 ← mul_div shares (sv_total_principal_atoms s) (sv_total_shares s) false;
  principal_decrement ← ok_or (try_from U64 decrement_u128) MathOverflow;
  _ ← require ((0 <? principal_decrement) || (sv_total_assets_atoms s =? 0)) InvalidArgument;
  let burns_last_share := sv_total_shares s =? shares in
  let atoms_out := if burns_last_share then Z.min principal_decrement mfi_atoms
                   else principal_decrement in
  let idle := saturating_sub
                (saturating_sub (sv_total_principal_atoms s) (sv_deployed_principal_atoms s))
                (sv_encumbered_in_orders_atoms s) in
  _ ← require (atoms_out <=? idle) VaultInsufficientIdleAtoms;
  _ ← require (atoms_out <=? mfi_atoms) VaultInsufficientIdleAtoms;
  _ ← (if burns_last_share
       then require ((sv_deployed_principal_atoms s =? 0)
                     && (sv_encumbered_in_orders_atoms s =? 0)) VaultInsufficientIdleAtoms
       else Ok tt);
  t ← ok_or (checked_sub (sv_total_shares s) shares) ArithmeticOverflow;
  a ← ok_or (checked_sub (sv_total_assets_atoms s) atoms_out) ArithmeticOverflow;
  p ← ok_or (checked_sub (sv_total_principal_atoms s) atoms_out) ArithmeticOverflow;
  mret (s <| sv_total_shares := t |> <| sv_total_assets_atoms := a |>
          <| sv_total_principal_atoms := p |>, atoms_out).

Definition withdraw_from_sub_vault (payer : Pubkey) (bank : AccountInfo) (now shares mfi_atoms : Z)
    (s : SubVault) : result (SubVault * Z) :=
  _ ← check_private payer s;
  share_value ← read_bank_share_value bank;
  s ← accrue_sub_vault s now share_value;
  burn_shares shares mfi_atoms s.

(** A lookup and an update of a sub-vault that also returns a value. *)
Definition on_sub_vault_with {A} (v : Vault) (sub_vault_id : Z)
    (f : SubVault → result (SubVault * A)) : result (Vault * A) :=
  idx ← lookup_sub_vault v sub_vault_id;
  _ ← require (negb (idx =? NIL)) SubVaultNotFound;
  s ← get_sub_vault v idx;
  '(s, x) ← f s;
  v ← modify_sub_vault v idx (λ _, Ok s);
  mret (v, x).

Definition modify_depositor_seat (v : Vault) (idx : Z)
    (f : SubVaultDepositorSeat → result SubVaultDepositorSeat) : result Vault :=
  d ← modify_value (vt_dynamic v) idx f; mret (v <| vt_dynamic := d |>).

Definition get_depositor_seat (v : Vault) (idx : Z) : result SubVaultDepositorSeat :=
  read_value (vt_dynamic v) idx.

(** The growth by one node block when none is free, after the rent transfer. *)
Definition expand_vault_if_needed (v : Vault) : result Vault :=
  if has_free_node_block (vt_fixed v) then Ok v else
  vault_expand_node_block
    (v <| vt_dynamic ::= λ d, <[gv_num_bytes_allocated (vt_fixed v) := VB_free (mkFreeListNode 0)]> d |>).

(** The depositor's seat and vault position after a deposit. *)
Definition credit_depositor_seat (shares : Z) (s : SubVault) (now : Z) (seat : SubVaultDepositorSeat)
    : result SubVaultDepositorSeat :=
  x ← ok_or (checked_add U128 (ds_shares seat) shares) ArithmeticOverflow;
  mret (seat <| ds_shares := x |>
             <| ds_snapshot_supply_yield_index_scaled := sv_cumulative_supply_yield_index_scaled s |>
             <| ds_snapshot_delta_yield_index_scaled := sv_cumulative_delta_yield_index_scaled s |>
             <| ds_last_updated_unix := now |>).

Definition credit_vault_position (shares now : Z) (p : VaultPosition) : result VaultPosition :=
  x ← ok_or (checked_add U128 (vp_shares p) shares) ArithmeticOverflow;
  mret (p <| vp_shares := x |> <| vp_last_updated_unix := now |>).

Definition debit_depositor_seat (shares now : Z) (seat : SubVaultDepositorSeat)
    : result SubVaultDepositorSeat :=
  x ← ok_or (checked_sub (ds_shares seat) shares) ArithmeticOverflow;
  mret (seat <| ds_shares := x |> <| ds_last_updated_unix := now |>).

Definition debit_vault_position (shares now : Z) (p : VaultPosition) : result VaultPosition :=
  x ← ok_or (checked_sub (vp_shares p) shares) ArithmeticOverflow;
  mret (p <| vp_shares := x |> <| vp_last_updated_unix := now |>).

Section Lenders.
  Variable invoke_signed : MarginfiIx → list AccountInfo → result (list AccountInfo).
  Variable invoke_token : TokenIx → list AccountInfo → result (list AccountInfo).

Record VaultContext := mkVaultContext {
  vc_payer : Pubkey;
  vc_vault : Pubkey;
  vc_mint : MintInfo;
  vc_global_vault_signer : Pubkey;
  vc_global_vault_staging : Pubkey;
  vc_depositor_token : Pubkey;
  vc_token_program : Pubkey;
  vc_marginfi_group : Pubkey;
  vc_integration_account : Pubkey;
  vc_lending_pool : Pubkey;
  vc_lending_pool_oracle : Pubkey;
  vc_liquidity_vault : Pubkey;
  vc_bank_liquidity_vault_authority : Pubkey;
  vc_marginfi_program : Pubkey }.

  Variable ctx : VaultContext.
  Variable now : Z.

Definition vault_deposit_accounts : list Pubkey :=
  [vc_marginfi_group ctx; vc_integration_account ctx; vc_global_vault_signer ctx;
   vc_lending_pool ctx; vc_global_vault_staging ctx; vc_liquidity_vault ctx;
   vc_token_program ctx; vc_marginfi_program ctx].

Definition vault_withdraw_accounts : list Pubkey :=
  [vc_marginfi_group ctx; vc_integration_account ctx; vc_global_vault_signer ctx;
   vc_lending_pool ctx; vc_global_vault_staging ctx; vc_bank_liquidity_vault_authority ctx;
   vc_liquidity_vault ctx; vc_token_program ctx; vc_marginfi_program ctx; vc_lending_pool ctx;
   vc_lending_pool_oracle ctx].

(** The atoms marginfi acknowledges for a deposit of the payer's tokens. *)
Definition take_deposit (amount_atoms : Z) (l : Ledger) : result (Z * Ledger) :=
  staging ← account l (vc_global_vault_staging ctx);
  before ← get_balance_atoms staging;
  l ← transfer_tokens invoke_token l (vc_token_program ctx) (vc_depositor_token ctx) (vc_mint ctx)
        (vc_global_vault_staging ctx) (vc_payer ctx) amount_atoms;
  staging ← account l (vc_global_vault_staging ctx);
  after ← get_balance_atoms staging;
  received ← ok_or (checked_sub after before) ArithmeticOverflow;
  _ ← require (0 <? received) InvalidArgument;
  '(credited_shares, l) ← call_deposit invoke_signed l vault_deposit_accounts received;
  bank ← account l (vc_lending_pool ctx);
  credited_atoms ← shares_to_amount [bank] credited_shares;
  _ ← require (0 <? credited_atoms) InvalidArgument;
  mret (credited_atoms, l).

Definition process_global_vault_deposit (amount_atoms sub_vault_id : Z)
    (v : Vault) (u : UserAccount) (l : Ledger) : result (Vault * UserAccount * Ledger) :=
  _ ← require (0 <? amount_atoms) InvalidArgument;
  '(credited_atoms, l) ← take_deposit amount_atoms l;
  v ← expand_vault_if_needed v;
  bank ← account l (vc_lending_pool ctx);
  '(v, (s, shares)) ← on_sub_vault_with v sub_vault_id (λ s,
    '(s, shares) ← deposit_into_sub_vault (vc_payer ctx) bank now credited_atoms s;
    mret (s, (s, shares)));
  '(v, seat_idx) ← upsert_sub_vault_depositor_seat v (vc_payer ctx) sub_vault_id;
  v ← modify_depositor_seat v seat_idx (credit_depositor_seat shares s now);
  '(u, pos_idx) ← upsert_vault_position u (vc_vault ctx) sub_vault_id;
  u ← modify_vault_position u pos_idx (credit_vault_position shares now);
  mret (v, u, l).

(** The marginfi withdrawal of a payout: what is paid, and what comes back over. *)
Definition pay_out (atoms_out : Z) (l : Ledger) : result (Z * Z * Ledger) :=
  if 0 <? atoms_out then
    bank ← account l (vc_lending_pool ctx);
    expected_shares ← amount_to_asset_shares [bank] atoms_out;
    '(actual, _, l) ← call_withdraw invoke_signed l vault_withdraw_accounts expected_shares;
    let payout := Z.min actual atoms_out in
    mret (payout, saturating_sub actual payout, l)
  else Ok (0, 0, l).

(** The last share leaves no dust in the sub-vault. *)
Definition clear_dust (v : Vault) (sub_vault_id new_total_shares : Z) : result Vault :=
  if new_total_shares =? 0 then
    idx ← lookup_sub_vault v sub_vault_id;
    if negb (idx =? NIL) then
      modify_sub_vault v idx (λ s,
        Ok (s <| sv_total_assets_atoms := 0 |> <| sv_total_principal_atoms := 0 |>))
    else Ok v
  else Ok v.

Definition process_global_vault_withdraw (shares_to_burn sub_vault_id : Z)
    (v : Vault) (u : UserAccount) (l : Ledger) : result (Vault * UserAccount * Ledger) :=
  _ ← require (0 <? shares_to_burn) InvalidArgument;
  seat_idx ← lookup_depositor_seat v (vc_payer ctx) sub_vault_id;
  _ ← require (negb (seat_idx =? NIL)) InvalidArgument;
  seat ← get_depositor_seat v seat_idx;
  _ ← require (shares_to_burn <=? ds_shares seat) InvalidArgument;
  position_idx ← lookup_vault_position u (vc_vault ctx) sub_vault_id;
  '(v, (new_total_shares, atoms_out)) ← on_sub_vault_with v sub_vault_id (λ s,
    integration ← account l (vc_integration_account ctx);
    mfi_asset_shares ← read_asset_shares_u128 integration (vc_lending_pool ctx);
    bank ← account l (vc_lending_pool ctx);
    mfi_atoms ← shares_to_amount [bank] mfi_asset_shares;
    '(s, atoms_out) ← withdraw_from_sub_vault (vc_payer ctx) bank now shares_to_burn mfi_atoms s;
    mret (s, (sv_total_shares s, atoms_out)));
  '(payout, surplus, l) ← pay_out atoms_out l;
  v ← clear_dust v sub_vault_id new_total_shares;
  l ← (if 0 <? payout
       then transfer_tokens invoke_token l (vc_token_program ctx) (vc_global_vault_staging ctx)
              (vc_mint ctx) (vc_depositor_token ctx) (vc_global_vault_signer ctx) payout
       else Ok l);
  l ← (if 0 <? surplus
       then snd <$> call_deposit invoke_signed l vault_deposit_accounts surplus
       else Ok l);
  seat_idx ← lookup_depositor_seat v (vc_payer ctx) sub_vault_id;
  _ ← require (negb (seat_idx =? NIL)) InvalidArgument;
  v ← modify_depositor_seat v seat_idx (debit_depositor_seat shares_to_burn now);
  seat ← get_depositor_seat v seat_idx;
  let zeroed := ds_shares seat =? 0 in
  v ← (if zeroed then fst <$> remove_sub_vault_depositor_seat v (vc_payer ctx) sub_vault_id
       else Ok v);
  u ← (if negb (position_idx =? NIL) then
         u ← modify_vault_position u position_idx (debit_vault_position shares_to_burn now);
         if zeroed then fst <$> remove_vault_position u (vc_vault ctx) sub_vault_id else Ok u
       else Ok u);
  mret (v, u, l).
End Lenders.
