(* ===== verification/Claims.v ===== *)
(** * Sweeps and fee claims

    [processor/claim_repayment_for_sub_vault.rs]: the lender's shares on a market seat
    become atoms of its sub-vault again; [claim_curator_fee.rs] and
    [protocol_fee_claim.rs]: the two accrued fees are paid out. *)
From stdpp Require Import base numbers list option gmap.
From S2P Require Import Prelude FixedPoint Loan Marginfi Hypertree SubVault Market.
From S2P Require Import VaultTrees UserAccount Runtime LoanClose.
Local Open Scope Z_scope.

Section Claims.
  Variable invoke_signed : MarginfiIx → list AccountInfo → result (list AccountInfo).
  Variable invoke_token : TokenIx → list AccountInfo → result (list AccountInfo).

(** ** [process_claim_repayment_for_sub_vault] *)

Record ClaimContext := mkClaimContext {
  cc_global_vault : Pubkey;
  cc_global_vault_signer : Pubkey;
  cc_global_vault_staging : Pubkey;
  cc_global_vault_integration_account : Pubkey;
  cc_market_debt_vault : Pubkey;
  cc_market_signer : Pubkey;
  cc_lender_marginfi_account : Pubkey;
  cc_debt_bank : Pubkey;
  cc_debt_liquidity_vault : Pubkey;
  cc_debt_bank_lva : Pubkey;
  cc_debt_oracles : list Pubkey;
  cc_debt_mint : MintInfo;
  cc_token_program : Pubkey;
  cc_marginfi_group : Pubkey;
  cc_marginfi_program : Pubkey }.

(** The seat keeps what marginfi did not burn; dust that burns nothing is forfeited. *)
Definition swept_seat (actual_atoms shares_burned : Z) (s : ClaimedSeat) : result ClaimedSeat :=
  Ok (s <| cs_debt_withdrawable_shares ::= λ x,
             if (actual_atoms =? 0) && (shares_burned =? 0) then 0
             else saturating_sub x shares_burned |>).

(** The sub-vault is told that the atoms arrived. *)
Definition sweep_pending (actual_atoms : Z) (s : SubVault) : SubVault :=
  s <| sv_pending_claim_atoms ::= λ x, saturating_sub x actual_atoms |>.

Definition process_claim_repayment_for_sub_vault (ctx : ClaimContext) (sub_vault_id : Z)
    (w : World) : result World :=
  let m := wd_market w in
  seat_index ← lookup_seat_index m
    (claimed_seat_new_empty (cc_global_vault ctx) OWNER_KIND_SUB_VAULT sub_vault_id);
  _ ← require (negb (seat_index =? NIL)) IncorrectAccount;
  seat ← get_seat m seat_index;
  let pending_shares := cs_debt_withdrawable_shares seat in
  if pending_shares =? 0 then Ok w else
  '(actual_atoms, shares_burned, l) ← call_withdraw invoke_signed (wd_ledger w)
    ([cc_marginfi_group ctx; cc_lender_marginfi_account ctx; cc_market_signer ctx;
      cc_debt_bank ctx; cc_market_debt_vault ctx; cc_debt_bank_lva ctx;
      cc_debt_liquidity_vault ctx; cc_token_program ctx; cc_marginfi_program ctx;
      cc_debt_bank ctx] ++ cc_debt_oracles ctx) pending_shares;
  if actual_atoms =? 0 then
    m ← modify_seat m seat_index (swept_seat actual_atoms shares_burned);
    mret (w <| wd_market := m |> <| wd_ledger := l |>)
  else
  l ← transfer_tokens invoke_token l (cc_token_program ctx) (cc_market_debt_vault ctx)
        (cc_debt_mint ctx) (cc_global_vault_staging ctx) (cc_market_signer ctx) actual_atoms;
  '(_, l) ← call_deposit invoke_signed l
    [cc_marginfi_group ctx; cc_global_vault_integration_account ctx; cc_global_vault_signer ctx;
     cc_debt_bank ctx; cc_global_vault_staging ctx; cc_debt_liquidity_vault ctx;
     cc_token_program ctx; cc_marginfi_program ctx] actual_atoms;
  m ← modify_seat m seat_index (swept_seat actual_atoms shares_burned);
  v ← ok_or (wd_vault w) Panic;
  v ← on_sub_vault v sub_vault_id (λ s, Ok (sweep_pending actual_atoms s));
  mret (w <| wd_market := m |> <| wd_vault := Some v |> <| wd_ledger := l |>).

(** ** [process_claim_curator_fee] *)

Record CuratorContext := mkCuratorContext {
  qc_payer : Pubkey;
  qc_global_vault_signer : Pubkey;
  qc_global_vault_staging : Pubkey;
  qc_global_vault_integration_account : Pubkey;
  qc_curator_token : Pubkey;
  qc_debt_bank : Pubkey;
  qc_liquidity_vault : Pubkey;
  qc_bank_liquidity_vault_authority : Pubkey;
  qc_bank_oracle : Pubkey;
  qc_mint : MintInfo;
  qc_token_program : Pubkey;
  qc_marginfi_program : Pubkey;
  qc_marginfi_group : Pubkey }.

(** A payout never exceeds the fee; what marginfi paid over goes back to it. *)
Definition split_payout (actual_atoms fee_atoms : Z) : Z * Z :=
  let payout := Z.min actual_atoms fee_atoms in (payout, saturating_sub actual_atoms payout).

Definition process_claim_curator_fee (ctx : CuratorContext) (sub_vault_id : Z)
    (v : Vault) (l : Ledger) : result (Vault * Ledger) :=
  idx ← lookup_sub_vault v sub_vault_id;
  _ ← require (negb (idx =? NIL)) SubVaultNotFound;
  s ← get_sub_vault v idx;
  _ ← require (qc_payer ctx =? sv_curator s) VaultCuratorRequired;
  let fee_atoms := sv_accumulated_curator_fee_atoms s in
  if fee_atoms =? 0 then Ok (v, l) else
  bank ← account l (qc_debt_bank ctx);
  withdraw_shares ← amount_to_asset_shares [bank] fee_atoms;
  '(actual_atoms, _, l) ← call_withdraw invoke_signed l
    [qc_marginfi_group ctx; qc_global_vault_integration_account ctx; qc_global_vault_signer ctx;
     qc_debt_bank ctx; qc_global_vault_staging ctx; qc_bank_liquidity_vault_authority ctx;
     qc_liquidity_vault ctx; qc_token_program ctx; qc_marginfi_program ctx; qc_debt_bank ctx;
     qc_bank_oracle ctx] withdraw_shares;
  let '(payout_atoms, surplus_atoms) := split_payout actual_atoms fee_atoms in
  l ← transfer_tokens invoke_token l (qc_token_program ctx) (qc_global_vault_staging ctx)
        (qc_mint ctx) (qc_curator_token ctx) (qc_global_vault_signer ctx) payout_atoms;
  l ← (if 0 <? surplus_atoms then
         snd <$> call_deposit invoke_signed l
           [qc_marginfi_group ctx; qc_global_vault_integration_account ctx;
            qc_global_vault_signer ctx; qc_debt_bank ctx; qc_global_vault_staging ctx;
            qc_liquidity_vault ctx; qc_token_program ctx; qc_marginfi_program ctx] surplus_atoms
       else Ok l);
  v ← modify_sub_vault v idx (λ s,
        Ok (s <| sv_accumulated_curator_fee_atoms ::= λ x, saturating_sub x payout_atoms |>));
  mret (v, l).

(** ** [process_protocol_fee_claim] *)

Record ProtocolFeeContext := mkProtocolFeeContext {
  pf_admin_debt_token : Pubkey;
  pf_market_debt_vault : Pubkey;
  pf_market_signer : Pubkey;
  pf_lender_marginfi_account : Pubkey;
  pf_debt_bank : Pubkey;
  pf_debt_liquidity_vault : Pubkey;
  pf_debt_bank_lva : Pubkey;
  pf_debt_oracles : list Pubkey;
  pf_debt_mint : MintInfo;
  pf_token_program : Pubkey;
  pf_marginfi_group : Pubkey;
  pf_marginfi_program : Pubkey }.

Definition process_protocol_fee_claim (ctx : ProtocolFeeContext) (m : Market) (l : Ledger)
    : result (Market * Ledger) :=
  let fee_shares := mf_accumulated_protocol_fee_shares (mk_fixed m) in
  let m := m <| mk_fixed ::= λ f, f <| mf_accumulated_protocol_fee_shares := 0 |> |> in
  if fee_shares =? 0 then Ok (m, l) else
  bank ← account l (pf_debt_bank ctx);
  fee_atoms ← shares_to_amount [bank] fee_shares;
  '(actual_atoms, _, l) ← call_withdraw invoke_signed l
    ([pf_marginfi_group ctx; pf_lender_marginfi_account ctx; pf_market_signer ctx;
      pf_debt_bank ctx; pf_market_debt_vault ctx; pf_debt_bank_lva ctx;
      pf_debt_liquidity_vault ctx; pf_token_program ctx; pf_marginfi_program ctx;
      pf_debt_bank ctx] ++ pf_debt_oracles ctx) fee_shares;
  let '(payout_atoms, surplus_atoms) := split_payout actual_atoms fee_atoms in
  l ← transfer_tokens invoke_token l (pf_token_program ctx) (pf_market_debt_vault ctx)
        (pf_debt_mint ctx) (pf_admin_debt_token ctx) (pf_market_signer ctx) payout_atoms;
  l ← (if 0 <? surplus_atoms then
         snd <$> call_deposit invoke_signed l
           [pf_marginfi_group ctx; pf_lender_marginfi_account ctx; pf_market_signer ctx;
            pf_debt_bank ctx; pf_market_debt_vault ctx; pf_debt_liquidity_vault ctx;
            pf_token_program ctx; pf_marginfi_program ctx] surplus_atoms
       else Ok l);
  mret (m, l).
End Claims.
