(* ===== verification/Convert.v ===== *)
(** * Refinancing a variable-rate loan ([processor/convert_p2pool_to_fixed.rs])

    The borrower crosses resting vault asks for the whole live debt, the vault funds
    the repayment of marginfi, and the variable-rate loan closes, or keeps the residual
    that marginfi's rounding left. *)
From stdpp Require Import base numbers list option gmap.
From S2P Require Import Prelude FixedPoint Loan Marginfi RateCalc Oracles Ltv.
From S2P Require Import Hypertree SubVault Market VaultTrees Matching UserAccount.
From S2P Require Import Runtime LoanClose Repay.
Local Open Scope Z_scope.

(** [count_resting_asks] ([processor/shared.rs]): the tree is opened without its
    maximum. *)
Definition count_resting_asks (m : Market) : result Z :=
  l ← iter_indices (V:=RestingOrder)
        (mkTree (mk_dynamic m) (mf_asks_root_index (mk_fixed m)) NIL);
  mret (Z.of_nat (length l)).

Record ConvertContext := mkConvertContext {
  xc_payer : Pubkey;
  xc_borrower_marginfi_account : Pubkey;
  xc_debt_bank : Pubkey;
  xc_debt_liquidity_vault : Pubkey;
  xc_debt_bank_lva : Pubkey;
  xc_debt_oracles : list Pubkey;
  xc_collateral_bank : Pubkey;
  xc_collateral_oracles : list Pubkey;
  xc_market_debt_vault : Pubkey;
  xc_market_signer : Pubkey;
  xc_token_program : Pubkey;
  xc_marginfi_group : Pubkey;
  xc_marginfi_program : Pubkey;
  xc_global_vault_integration_account : Pubkey;
  xc_global_vault_signer : Pubkey }.

Section Convert.
  Variable invoke_signed : MarginfiIx → list AccountInfo → result (list AccountInfo).
  Variable parse_stake_state : list Z → option StakeState.
  Variable ctx : ConvertContext.
  Variable now : Z.

(** The live debt of the loan at the share value marginfi will use: the shares it
    accounts for, those of the account, and the atoms. *)
Definition live_debt (l : Ledger) (loan : LoanFixed) : result (Z * Z * Z) :=
  mfi ← account l (xc_borrower_marginfi_account ctx);
  pre_account_shares ← read_borrower_liability_shares mfi (xc_debt_bank ctx);
  let this_loan_shares := Z.min (borrower_marginfi_borrow_shares loan) pre_account_shares in
  bank ← account l (xc_debt_bank ctx);
  group ← account l (xc_marginfi_group ctx);
  predicted_lsv ← calc_projected_liability_share_value_fp48 bank group now;
  live ← liability_shares_to_atoms_ceil_at_lsv this_loan_shares predicted_lsv;
  mret (this_loan_shares, pre_account_shares, live).

(** The prices of the refinance, and the check that the loan is healthy at marginfi's
    initial weights. *)
Definition refinance_prices (l : Ledger) (m : Market) (live_outstanding collateral : Z)
    : result (Fp48 * Fp48) :=
  debt_oracles ← accounts_of l (xc_debt_bank ctx :: xc_debt_oracles ctx);
  debt_raw ← read_oracle_price parse_stake_state now debt_oracles;
  collateral_oracles ← accounts_of l (xc_collateral_bank ctx :: xc_collateral_oracles ctx);
  collateral_raw ← read_oracle_price parse_stake_state now collateral_oracles;
  debt_bank ← account l (xc_debt_bank ctx);
  debt_weights ← init_weight [debt_bank];
  collateral_bank ← account l (xc_collateral_bank ctx);
  collateral_weights ← init_weight [collateral_bank];
  required ← get_required_quote_collateral_to_back_debt live_outstanding (from_raw debt_raw)
    (from_raw collateral_raw) (from_raw (snd debt_weights)) (from_raw (fst collateral_weights))
    (mf_debt_mint_decimals (mk_fixed m)) (mf_collateral_mint_decimals (mk_fixed m));
  _ ← require (required <=? collateral) CollateralBelowMatchLTV;
  mret (from_raw debt_raw, from_raw collateral_raw).

(** The vault pays for the debt, and the payment goes to marginfi: the account's shares
    after it. *)
Definition repay_from_vault (this_loan_shares pre_account_shares live_outstanding : Z) (l : Ledger)
    : result (Z * Ledger) :=
  let this_loan_is_account := this_loan_shares =? pre_account_shares in
  atoms_to_fund ← (if this_loan_is_account
                   then ok_or (checked_add U64 live_outstanding ACCRUE_SAFETY_ATOMS)
                          ArithmeticOverflow
                   else Ok live_outstanding);
  bank ← account l (xc_debt_bank ctx);
  withdraw_shares ← amount_to_asset_shares_ceil [bank] atoms_to_fund;
  '(funded_atoms, _, l) ← call_withdraw invoke_signed l
    ([xc_marginfi_group ctx; xc_global_vault_integration_account ctx; xc_global_vault_signer ctx;
      xc_debt_bank ctx; xc_market_debt_vault ctx; xc_debt_bank_lva ctx;
      xc_debt_liquidity_vault ctx; xc_token_program ctx; xc_marginfi_program ctx;
      xc_debt_bank ctx] ++ xc_debt_oracles ctx) withdraw_shares;
  _ ← require (live_outstanding <=? funded_atoms) InvalidArgument;
  let ks := [xc_marginfi_group ctx; xc_borrower_marginfi_account ctx; xc_market_signer ctx;
             xc_debt_bank ctx; xc_market_debt_vault ctx; xc_debt_liquidity_vault ctx;
             xc_token_program ctx; xc_marginfi_program ctx] in
  '(_, l) ← (if this_loan_is_account
             then call_repay_atoms_full invoke_signed l ks atoms_to_fund
             else call_repay_atoms invoke_signed l ks live_outstanding);
  mfi ← account l (xc_borrower_marginfi_account ctx);
  post ← read_borrower_liability_shares mfi (xc_debt_bank ctx);
  mret (post, l).

Definition add_open_borrows (n : Z) (s : ClaimedSeat) : result ClaimedSeat :=
  c ← ok_or (checked_add U32 (cs_open_borrow_count s) n) ArithmeticOverflow;
  mret (s <| cs_open_borrow_count := c |>).

(** The borrower's seat after a full conversion: the variable-rate borrow is retired
    and the collateral no new loan carries is released. *)
Definition release_converted (m : Market) (loan : LoanFixed) (total_filled_collateral : Z)
    : result Market :=
  m ← modify_seat m (loan_borrower_seat_index loan) drop_open_borrow;
  let unfilled := saturating_sub (loan_collateral_atoms loan) total_filled_collateral in
  if 0 <? unfilled then
    shares ← atoms_to_shares_at_snapshot unfilled
               (borrower_collateral_share_price_snapshot_fp48 loan);
    release_loan_collateral m (loan_borrower_seat_index loan) shares shares
  else Ok m.

(** The loan that keeps marginfi's residual. *)
Definition residual_loan (loan : LoanFixed) (filled_principal filled_collateral shares outstanding : Z)
    : result LoanFixed :=
  c ← ok_or (checked_sub (loan_collateral_atoms loan) filled_collateral) ArithmeticOverflow;
  mret (loan <| principal_debt_atoms := saturating_sub (principal_debt_atoms loan) filled_principal |>
             <| outstanding_debt_atoms := outstanding |>
             <| loan_collateral_atoms := c |>
             <| borrower_marginfi_borrow_shares := shares |>
             <| last_accrued_unix := now |>
             <| loan_state_byte := LoanState_as_u8 LoanState_Active |>).

(** The sub-vaults crossed: each accrues, then deploys what it filled at its own fee. *)
Fixpoint deploy_crosses (v : Vault) (bank : AccountInfo) (crosses : list P2PoolRefinanceCross)
    : result Vault :=
  match crosses with
  | [] => Ok v
  | c :: rest =>
      v ← on_sub_vault v (cr_lender_sub_vault_id c) (λ s,
        share_value ← read_bank_share_value bank;
        s ← accrue_sub_vault s now share_value;
        deploy_loan (cr_filled_principal_atoms c) (cr_lender_rate_bps c)
          (sv_curator_fee_bps s) s);
      deploy_crosses v bank rest
  end.

Definition process_convert_p2pool_to_fixed (max_acceptable_rate_bps ltv_buffer_bps : Z) (w : World)
    : result World :=
  _ ← require (ltv_buffer_bps <=? 10000) InvalidArgument;
  bank ← account (wd_ledger w) (xc_debt_bank ctx);
  group ← account (wd_ledger w) (xc_marginfi_group ctx);
  ask_floor ← current_lending_apr_bps_ceil bank group;
  loan ← the_loan w;
  _ ← require (0 <? loan_collateral_atoms loan) InvalidArgument;
  seat ← get_seat (wd_market w) (loan_borrower_seat_index loan);
  _ ← require (cs_owner seat =? xc_payer ctx) OrderNotOwnedBySigner;
  _ ← require (now <? matures_at_unix loan) TermNotCompatible;
  remaining ← panic_sub_i 64 (matures_at_unix loan) now;
  let term_remaining := default (umax U32) (try_from U32 (Z.max remaining 0)) in
  '(this_loan_shares, pre_account_shares, live) ← live_debt (wd_ledger w) loan;
  _ ← require (0 <? live) InvalidArgument;
  '(debt_price, collateral_price) ←
    refinance_prices (wd_ledger w) (wd_market w) live (loan_collateral_atoms loan);
  ask_count ← count_resting_asks (wd_market w);
  m ← expand_market_to_free_blocks (wd_market w) (ask_count + 1);
  r ← match_p2pool_residual_against_asks m
    (mkRefinanceArgs (loan_borrower_seat_index loan) live (loan_collateral_atoms loan)
       (borrower_collateral_share_price_snapshot_fp48 loan) term_remaining
       max_acceptable_rate_bps (fc_protocol_fee_bps_floor (mf_fee_config (mk_fixed m))) now
       debt_price collateral_price (mf_debt_mint_decimals (mk_fixed m))
       (mf_collateral_mint_decimals (mk_fixed m)) ask_floor ltv_buffer_bps) (wd_vault w);
  _ ← require (0 <? rs_total_filled_principal r) InvalidArgument;
  _ ← require (rs_total_filled_principal r =? live) InvalidArgument;
  '(post_account, l) ← repay_from_vault this_loan_shares pre_account_shares live (wd_ledger w);
  bank ← account l (xc_debt_bank ctx);
  '(post_loan_shares, did_full_conversion, outstanding) ←
    attribute_repayment bank this_loan_shares pre_account_shares post_account;
  m ← modify_seat (rs_market r) (loan_borrower_seat_index loan)
        (add_open_borrows (rs_num_fills r));
  '(m, loan') ←
    (if did_full_conversion : bool then
       m ← release_converted m loan (rs_total_filled_collateral r); mret (m, None)
     else
       loan' ← residual_loan loan (rs_total_filled_principal r) (rs_total_filled_collateral r)
                 post_loan_shares outstanding;
       mret (m, Some loan'));
  v ← ok_or (rs_vault r) Panic;
  v ← deploy_crosses v bank (rs_crosses r);
  mret (w <| wd_market := m |> <| wd_vault := Some v |> <| wd_loan := loan' |>
          <| wd_ledger := l |>).
End Convert.
