(* ===== verification/Admin.v ===== *)
(** * Administration

    The global configuration ([state/global_config.rs]), the gates every context loader
    opens with ([validation/loaders.rs]: the typed account, the pauses, the role of the
    signer), and the handlers that create and administer markets, vaults and sub-vaults.

    A handler here is its loader's gates followed by its body, on the typed accounts of
    the transaction; [payer] is the key of the signer. *)
From stdpp Require Import base numbers list option gmap.
From S2P Require Import Prelude FixedPoint Loan Marginfi Hypertree SubVault Market.
From S2P Require Import VaultTrees UserAccount Runtime LoanClose Deposits.
Local Open Scope Z_scope.

(** ** The global configuration *)

Definition GLOBAL_CONFIG_DISCRIMINANT : Z := 0x7964656C74614763.

Record GlobalConfig := mkGlobalConfig {
  gc_discriminator : Z;
  gc_protocol_admin : Pubkey;
  gc_pending_protocol_admin : Pubkey;
  gc_is_paused : Z }.

#[export] Instance eta_GlobalConfig : Eta GlobalConfig := λ g,
  mkGlobalConfig (gc_discriminator g) (gc_protocol_admin g) (gc_pending_protocol_admin g)
    (gc_is_paused g).

Definition global_config_verify_discriminant (g : GlobalConfig) : result unit :=
  require (gc_discriminator g =? GLOBAL_CONFIG_DISCRIMINANT) InvalidAccountData.

(** [GlobalConfig::new_empty]. *)
Definition global_config_new_empty (protocol_admin : Pubkey) : GlobalConfig :=
  mkGlobalConfig GLOBAL_CONFIG_DISCRIMINANT protocol_admin Pubkey_default 0.

(** ** The gates of the loaders *)

(** [YdeltaAccountInfo::new] on each header: the discriminant, then the version. *)
Definition open_market (m : Market) : result Market :=
  _ ← market_verify_discriminant (mk_fixed m);
  _ ← market_verify_version (mk_fixed m);
  mret m.
Definition open_vault (v : Vault) : result Vault :=
  _ ← vault_verify_discriminant (vt_fixed v);
  _ ← vault_verify_version (vt_fixed v);
  mret v.

Definition require_market_not_paused (m : Market) : result unit :=
  require (mf_is_paused (mk_fixed m) =? 0) MarketPaused.
Definition require_vault_not_paused (v : Vault) : result unit :=
  require (gv_is_paused (vt_fixed v) =? 0) VaultPaused.
Definition require_global_not_paused (g : GlobalConfig) : result unit :=
  require (gc_is_paused g =? 0) GlobalPaused.

Definition require_vault_mint_matches_market (v : Vault) (m : Market) : result unit :=
  _ ← require (gv_lending_pool (vt_fixed v) =? mf_debt_lending_pool (mk_fixed m)) VaultWrongMint;
  require (gv_mint (vt_fixed v) =? mf_debt_mint (mk_fixed m)) VaultWrongMint.

Definition load_global_config_no_pause (g : GlobalConfig) : result GlobalConfig :=
  _ ← global_config_verify_discriminant g; mret g.
Definition load_global_config (g : GlobalConfig) : result GlobalConfig :=
  g ← load_global_config_no_pause g;
  _ ← require_global_not_paused g;
  mret g.

(** The contexts with a vault: the admin's, paused or not, and the curator's. *)
Definition load_vault_admin (g : GlobalConfig) (payer : Pubkey) (v : Vault) : result Vault :=
  _ ← load_global_config_no_pause g;
  v ← open_vault v;
  _ ← require (payer =? gv_global_vault_admin (vt_fixed v)) VaultAdminRequired;
  mret v.

Definition load_remove_sub_vault (g : GlobalConfig) (payer : Pubkey) (v : Vault) : result Vault :=
  _ ← load_global_config g;
  v ← open_vault v;
  _ ← require_vault_not_paused v;
  _ ← require (payer =? gv_global_vault_admin (vt_fixed v)) VaultAdminRequired;
  mret v.

Definition load_sub_vault_mutation (g : GlobalConfig) (v : Vault) : result Vault :=
  _ ← load_global_config g;
  v ← open_vault v;
  _ ← require_vault_not_paused v;
  mret v.

Definition load_create_pool_sub_vault (g : GlobalConfig) (payer : Pubkey) (v : Vault)
    : result Vault :=
  g ← load_global_config g;
  v ← open_vault v;
  _ ← require_vault_not_paused v;
  _ ← require (payer =? gc_protocol_admin g) ProtocolAdminRequired;
  mret v.

(** ** The fee configuration *)

Definition MAX_GRACE_PERIOD_SECONDS : Z := 90 * 86400.

Record SetFeeConfigParams := mkSetFeeConfigParams {
  fp_protocol_fee_bps_floor : option Z;
  fp_origination_bps : option Z;
  fp_curator_split_bps : option Z;
  fp_liquidation_keeper_bps : option Z;
  fp_liquidation_protocol_bps : option Z;
  fp_grace_period_seconds : option Z }.

(** A bound on an override that is given. *)
Definition check_at_most (cap : Z) (value : option Z) : result unit :=
  match value with
  | Some v => require (v <=? cap) InvalidFeeConfig
  | None => Ok tt
  end.
Definition check_bps (value : option Z) : result unit := check_at_most 10000 value.

Definition validate_fee_config_overrides (p : SetFeeConfigParams) : result unit :=
  _ ← check_bps (fp_protocol_fee_bps_floor p);
  _ ← check_bps (fp_origination_bps p);
  _ ← check_bps (fp_curator_split_bps p);
  _ ← check_bps (fp_liquidation_keeper_bps p);
  _ ← check_bps (fp_liquidation_protocol_bps p);
  _ ← check_at_most MAX_LIQUIDATION_KEEPER_BPS (fp_liquidation_keeper_bps p);
  check_at_most MAX_GRACE_PERIOD_SECONDS (fp_grace_period_seconds p).

Definition apply_fee_config_overrides (p : SetFeeConfigParams) (t : FeeConfig) : FeeConfig :=
  mkFeeConfig (default (fc_protocol_fee_bps_floor t) (fp_protocol_fee_bps_floor p))
    (default (fc_origination_bps t) (fp_origination_bps p))
    (default (fc_curator_split_bps t) (fp_curator_split_bps p))
    (default (fc_liquidation_keeper_bps t) (fp_liquidation_keeper_bps p))
    (default (fc_liquidation_protocol_bps t) (fp_liquidation_protocol_bps p))
    (default (fc_grace_period_seconds t) (fp_grace_period_seconds p)).

Definition process_set_fee_config (g : GlobalConfig) (payer : Pubkey) (p : SetFeeConfigParams)
    (m : Market) : result Market :=
  _ ← load_global_config g;
  m ← open_market m;
  _ ← require (payer =? mf_admin (mk_fixed m)) MarketAdminRequired;
  _ ← validate_fee_config_overrides p;
  mret (m <| mk_fixed ::= λ f, f <| mf_fee_config ::= apply_fee_config_overrides p |> |>).

(** ** Pauses *)

Definition pause_flag (paused : Z) : Z := if negb (paused =? 0) then 1 else 0.

Definition process_set_market_pause (g : GlobalConfig) (payer : Pubkey) (paused : Z) (m : Market)
    : result Market :=
  _ ← load_global_config_no_pause g;
  m ← open_market m;
  _ ← require (mf_admin (mk_fixed m) =? payer) MarketAdminRequired;
  mret (m <| mk_fixed ::= λ f, f <| mf_is_paused := pause_flag paused |> |>).

Definition process_set_vault_pause (g : GlobalConfig) (payer : Pubkey) (paused : Z) (v : Vault)
    : result Vault :=
  _ ← load_global_config_no_pause g;
  v ← open_vault v;
  _ ← require (gv_global_vault_admin (vt_fixed v) =? payer) VaultAdminRequired;
  mret (v <| vt_fixed ::= λ f, f <| gv_is_paused := pause_flag paused |> |>).

Definition process_set_global_pause (payer : Pubkey) (paused : Z) (g : GlobalConfig)
    : result GlobalConfig :=
  g ← load_global_config_no_pause g;
  _ ← require (gc_protocol_admin g =? payer) ProtocolAdminRequired;
  mret (g <| gc_is_paused := pause_flag paused |>).

(** ** Two-step transfers of a role *)

Definition process_transfer_protocol_admin (payer new_admin : Pubkey) (g : GlobalConfig)
    : result GlobalConfig :=
  g ← load_global_config_no_pause g;
  _ ← require (gc_protocol_admin g =? payer) ProtocolAdminRequired;
  mret (g <| gc_pending_protocol_admin := new_admin |>).

Definition process_accept_protocol_admin (payer : Pubkey) (g : GlobalConfig)
    : result GlobalConfig :=
  g ← load_global_config_no_pause g;
  _ ← require (gc_pending_protocol_admin g =? payer) PendingAdminMismatch;
  _ ← require (negb (gc_pending_protocol_admin g =? Pubkey_default)) PendingAdminMismatch;
  mret (g <| gc_protocol_admin := gc_pending_protocol_admin g |>
          <| gc_pending_protocol_admin := Pubkey_default |>).

Definition process_transfer_market_admin (g : GlobalConfig) (payer new_admin : Pubkey) (m : Market)
    : result Market :=
  _ ← load_global_config_no_pause g;
  m ← open_market m;
  _ ← require (mf_admin (mk_fixed m) =? payer) MarketAdminRequired;
  mret (m <| mk_fixed ::= λ f, f <| mf_pending_admin := new_admin |> |>).

Definition process_accept_market_admin (g : GlobalConfig) (payer : Pubkey) (m : Market)
    : result Market :=
  _ ← load_global_config_no_pause g;
  m ← open_market m;
  let f := mk_fixed m in
  _ ← require (mf_pending_admin f =? payer) PendingAdminMismatch;
  _ ← require (negb (mf_pending_admin f =? Pubkey_default)) PendingAdminMismatch;
  mret (m <| mk_fixed := f <| mf_admin := mf_pending_admin f |>
                           <| mf_pending_admin := Pubkey_default |> |>).

Definition process_transfer_global_vault_admin (g : GlobalConfig) (payer new_admin : Pubkey)
    (v : Vault) : result Vault :=
  _ ← load_global_config_no_pause g;
  v ← open_vault v;
  _ ← require (gv_global_vault_admin (vt_fixed v) =? payer) VaultAdminRequired;
  mret (v <| vt_fixed ::= λ f, f <| gv_pending_global_vault_admin := new_admin |> |>).

Definition process_accept_global_vault_admin (g : GlobalConfig) (payer : Pubkey) (v : Vault)
    : result Vault :=
  _ ← load_global_config_no_pause g;
  v ← open_vault v;
  let f := vt_fixed v in
  _ ← require (gv_pending_global_vault_admin f =? payer) PendingAdminMismatch;
  _ ← require (negb (gv_pending_global_vault_admin f =? Pubkey_default)) PendingAdminMismatch;
  mret (v <| vt_fixed := f <| gv_global_vault_admin := gv_pending_global_vault_admin f |>
                           <| gv_pending_global_vault_admin := Pubkey_default |> |>).

Definition process_transfer_curator (g : GlobalConfig) (payer : Pubkey) (sub_vault_id : Z)
    (new_curator : Pubkey) (v : Vault) : result Vault :=
  _ ← load_global_config_no_pause g;
  v ← open_vault v;
  on_sub_vault v sub_vault_id (λ s,
    _ ← require (sv_curator s =? payer) VaultCuratorRequired;
    mret (s <| sv_pending_curator := new_curator |>)).

Definition process_accept_curator (g : GlobalConfig) (payer : Pubkey) (sub_vault_id : Z)
    (v : Vault) : result Vault :=
  _ ← load_global_config_no_pause g;
  v ← open_vault v;
  on_sub_vault v sub_vault_id (λ s,
    _ ← require (sv_pending_curator s =? payer) PendingAdminMismatch;
    _ ← require (negb (sv_pending_curator s =? Pubkey_default)) PendingAdminMismatch;
    mret (s <| sv_curator := sv_pending_curator s |> <| sv_pending_curator := Pubkey_default |>)).

(** ** Sub-vaults *)

Definition MAX_CURATOR_FEE_BPS : Z := 2000.
Definition MIN_LIQ_GAP_BPS : Z := 200.

Definition validate_sub_vault_risk_params (max_ltv_bps liquidation_ltv_bps max_term_seconds : Z)
    : result unit :=
  _ ← require ((0 <? max_ltv_bps) && (max_ltv_bps <? 10000)) SubVaultLtvOutOfRange;
  _ ← require (liquidation_ltv_bps <=? 10000) SubVaultLtvOutOfRange;
  _ ← require (saturating_add U16 max_ltv_bps MIN_LIQ_GAP_BPS <=? liquidation_ltv_bps)
        SubVaultLtvOutOfRange;
  require (0 <? max_term_seconds) SubVaultTermInvalid.

(** What a new sub-vault starts from. *)
Record NewSubVault := mkNewSubVault {
  nv_kind : Z;
  nv_curator : Pubkey;
  nv_spread_bps : Z;
  nv_max_ltv_bps : Z;
  nv_liquidation_ltv_bps : Z;
  nv_max_term_seconds : Z;
  nv_curator_fee_bps : Z }.

Definition new_sub_vault (id : Z) (n : NewSubVault) : SubVault :=
  sub_vault_new_empty id (nv_curator n) (nv_max_ltv_bps n) (nv_max_term_seconds n)
    <| sv_kind := nv_kind n |>
    <| sv_spread_bps := nv_spread_bps n |>
    <| sv_liquidation_ltv_bps := nv_liquidation_ltv_bps n |>
    <| sv_curator_fee_bps := nv_curator_fee_bps n |>.

(** The growth of the vault by one sub-vault block. *)
Definition expand_sub_vaults_if_needed (v : Vault) : result Vault :=
  if has_free_sub_vault_block (vt_fixed v) then Ok v else
  vault_expand_sub_vault_block
    (v <| vt_dynamic ::= λ d, <[gv_num_bytes_allocated (vt_fixed v) := VB_free (mkFreeListNode 0)]> d |>).

Definition append_sub_vault (n : NewSubVault) (v : Vault) : result Vault :=
  v ← expand_sub_vaults_if_needed v;
  let assigned_sub_vault_id := gv_next_sub_vault_id (vt_fixed v) in
  next ← ok_or (checked_add U16 assigned_sub_vault_id 1) SubVaultIdExists;
  let v := v <| vt_fixed ::= λ f, f <| gv_next_sub_vault_id := next |> |> in
  '(v, order_index) ← get_free_sub_vault_address v;
  _ ← require (negb (order_index =? NIL)) AccountDataTooSmall;
  t ← insert (sub_vault_tree v) order_index (new_sub_vault assigned_sub_vault_id n);
  let v := put_sub_vaults v t in
  count ← ok_or (checked_add U16 (gv_sub_vault_count (vt_fixed v)) 1) ArithmeticOverflow;
  mret (v <| vt_fixed ::= λ f, f <| gv_sub_vault_count := count |> |>).

Definition process_create_pool_sub_vault (g : GlobalConfig) (payer curator : Pubkey)
    (spread_bps max_ltv_bps liquidation_ltv_bps max_term_seconds curator_fee_bps : Z) (v : Vault)
    : result Vault :=
  v ← load_create_pool_sub_vault g payer v;
  _ ← validate_sub_vault_risk_params max_ltv_bps liquidation_ltv_bps max_term_seconds;
  _ ← require (curator_fee_bps <=? MAX_CURATOR_FEE_BPS) InvalidArgument;
  _ ← require (negb (curator =? Pubkey_default)) InvalidArgument;
  append_sub_vault (mkNewSubVault SUB_VAULT_KIND_POOL curator spread_bps max_ltv_bps
    liquidation_ltv_bps max_term_seconds curator_fee_bps) v.

Definition process_create_private_sub_vault (g : GlobalConfig) (payer : Pubkey)
    (spread_bps max_ltv_bps liquidation_ltv_bps max_term_seconds : Z) (v : Vault) : result Vault :=
  v ← load_sub_vault_mutation g v;
  _ ← validate_sub_vault_risk_params max_ltv_bps liquidation_ltv_bps max_term_seconds;
  append_sub_vault (mkNewSubVault SUB_VAULT_KIND_PRIVATE payer spread_bps max_ltv_bps
    liquidation_ltv_bps max_term_seconds 0) v.

Record UpdateSubVaultParams := mkUpdateSubVaultParams {
  up_new_max_ltv_bps : option Z;
  up_new_liquidation_ltv_bps : option Z;
  up_new_max_term_seconds : option Z;
  up_new_spread_bps : option Z }.

(** The update of one sub-vault: the resulting triple is validated, not the overrides. *)
Definition update_sub_vault (payer : Pubkey) (p : UpdateSubVaultParams) (s : SubVault)
    : result SubVault :=
  _ ← require (sv_curator s =? payer) VaultCuratorRequired;
  _ ← require (sv_is_sunset s =? 0) SubVaultSunset;
  let next_max_ltv := default (sv_max_ltv_bps s) (up_new_max_ltv_bps p) in
  let next_liq_ltv := default (sv_liquidation_ltv_bps s) (up_new_liquidation_ltv_bps p) in
  let next_term := default (sv_max_term_seconds s) (up_new_max_term_seconds p) in
  _ ← validate_sub_vault_risk_params next_max_ltv next_liq_ltv next_term;
  mret (s <| sv_max_ltv_bps := next_max_ltv |>
          <| sv_liquidation_ltv_bps := next_liq_ltv |>
          <| sv_max_term_seconds := next_term |>
          <| sv_spread_bps := default (sv_spread_bps s) (up_new_spread_bps p) |>).

Definition process_update_sub_vault (g : GlobalConfig) (payer : Pubkey) (sub_vault_id : Z)
    (p : UpdateSubVaultParams) (v : Vault) : result Vault :=
  v ← load_sub_vault_mutation g v;
  on_sub_vault v sub_vault_id (update_sub_vault payer p).

Definition process_sunset_sub_vault (g : GlobalConfig) (payer : Pubkey) (sub_vault_id : Z)
    (v : Vault) : result Vault :=
  v ← load_vault_admin g payer v;
  on_sub_vault v sub_vault_id (λ s, mret (s <| sv_is_sunset := 1 |>)).

Definition process_resume_sub_vault (g : GlobalConfig) (payer : Pubkey) (sub_vault_id : Z)
    (v : Vault) : result Vault :=
  v ← load_vault_admin g payer v;
  on_sub_vault v sub_vault_id (λ s, mret (s <| sv_is_sunset := 0 |>)).

Definition process_remove_sub_vault (g : GlobalConfig) (payer : Pubkey) (sub_vault_id : Z)
    (v : Vault) : result Vault :=
  v ← load_remove_sub_vault g payer v;
  idx ← lookup_sub_vault v sub_vault_id;
  _ ← require (negb (idx =? NIL)) SubVaultNotFound;
  s ← get_sub_vault v idx;
  _ ← require (negb (sv_is_sunset s =? 0)) SubVaultNotSunset;
  '(v, freed) ← remove_sub_vault v sub_vault_id;
  _ ← require (negb (freed =? NIL)) SubVaultNotFound;
  mret v.

(** ** Creation of the accounts *)

(** The extensions of a Token-2022 mint that the handlers name. *)
Inductive ExtensionType :=
  | MetadataPointer | MintCloseAuthority | TransferFeeConfig | TransferFeeAmount
  | TransferHook | TransferHookAccount | ConfidentialTransferMint
  | ConfidentialTransferAccount | PermanentDelegate | OtherExtension.

(** A mint account as the creation handlers see it; [mi_extensions] is what the token
    library unpacks from its data, or its error. *)
Record MintAccount := mkMintAccount {
  mi_key : Pubkey;
  mi_decimals : Z;
  mi_owner : Pubkey;
  mi_extensions : result (list ExtensionType) }.

Definition supported_extension (e : ExtensionType) : bool :=
  match e with MetadataPointer => true | _ => false end.

Definition assert_supported_mint_extensions (mint : MintAccount) : result unit :=
  if negb (mi_owner mint =? SPL_TOKEN_2022_ID) then Ok tt else
  exts ← mi_extensions mint;
  require (forallb supported_extension exts) Token2022UnsupportedExtension.

(** The keys and bumps the loader of [CreateMarket] derives or reads. *)
Record CreateMarketKeys := mkCreateMarketKeys {
  ck_market : Pubkey;
  ck_lender_marginfi_account : Pubkey;
  ck_lender_bump : Z;
  ck_borrower_marginfi_account : Pubkey;
  ck_borrower_bump : Z;
  ck_debt_bank : Pubkey;
  ck_collateral_bank : Pubkey;
  ck_marginfi_group : Pubkey;
  ck_market_signer : Pubkey;
  ck_market_signer_bump : Z }.

Section Create.
  (** The program-derived addresses of the runtime. *)
  Variable get_vault_address : Pubkey → Pubkey → Pubkey * Z.

(** The header [process_create_market] writes. *)
Definition created_market_header (payer : Pubkey) (k : CreateMarketKeys)
    (debt_mint collateral_mint : MintAccount) (p : SetFeeConfigParams) : MarketFixed :=
  market_new_empty get_vault_address (mi_key debt_mint) (mi_decimals debt_mint)
      (mi_key collateral_mint) (mi_decimals collateral_mint) (ck_market k)
    <| mf_admin := payer |>
    <| mf_lender_integration_account := ck_lender_marginfi_account k |>
    <| mf_lender_integration_account_bump := ck_lender_bump k |>
    <| mf_borrower_integration_account := ck_borrower_marginfi_account k |>
    <| mf_borrower_integration_account_bump := ck_borrower_bump k |>
    <| mf_debt_lending_pool := ck_debt_bank k |>
    <| mf_collateral_lending_pool := ck_collateral_bank k |>
    <| mf_marginfi_group := ck_marginfi_group k |>
    <| mf_market_signer := ck_market_signer k |>
    <| mf_market_signer_bump := ck_market_signer_bump k |>
    <| mf_fee_config ::= apply_fee_config_overrides p |>.

Definition process_create_market (g : GlobalConfig) (payer : Pubkey) (k : CreateMarketKeys)
    (debt_mint collateral_mint : MintAccount) (p : SetFeeConfigParams) : result Market :=
  _ ← validate_fee_config_overrides p;
  g ← load_global_config g;
  _ ← require (payer =? gc_protocol_admin g) ProtocolAdminRequired;
  _ ← require (negb (mi_key debt_mint =? mi_key collateral_mint)) InvalidMarketParameters;
  _ ← assert_supported_mint_extensions debt_mint;
  _ ← assert_supported_mint_extensions collateral_mint;
  expand_market (mkMarket (created_market_header payer k debt_mint collateral_mint p) ∅).
End Create.

(** [process_create_vault]; the staging and integration accounts are created by the
    system, token and marginfi programs. *)
Definition process_create_vault (g : GlobalConfig) (payer : Pubkey) (mint : MintAccount)
    (marginfi_group integration_account global_vault_signer lending_pool : Pubkey)
    (signer_bump : Z) : result Vault :=
  _ ← load_global_config g;
  _ ← assert_supported_mint_extensions mint;
  mret (mkVault (global_vault_new_empty (mi_key mint) payer marginfi_group integration_account
                   global_vault_signer signer_bump lending_pool) ∅).

(** The part of [CreateGlobalConfigContext::load] that reads the program-data account of
    the upgradeable loader: the signer must be the upgrade authority. *)
Definition check_upgrade_authority (payer expected_program_data loader_id : Pubkey)
    (program_data : AccountInfo) : result unit :=
  _ ← require (ai_key program_data =? expected_program_data) IncorrectAccount;
  _ ← require (ai_owner program_data =? loader_id) IncorrectAccount;
  let data := ai_data program_data in
  _ ← require (45 <=? length data)%nat IncorrectAccount;
  tag_bytes ← slice data 0 4;
  _ ← require (from_le_bytes tag_bytes =? 3) IncorrectAccount;
  auth_tag ← byte_at data 12;
  _ ← require (auth_tag =? 1) ProtocolAdminRequired;
  upgrade_authority ← key_at data 13;
  require (payer =? upgrade_authority) ProtocolAdminRequired.

(** [process_create_global_config]; [existing] is the account's data before it. *)
Definition process_create_global_config (payer expected_program_data loader_id : Pubkey)
    (program_data : AccountInfo) (config_key expected_config : Pubkey) (existing : list Z)
    : result GlobalConfig :=
  _ ← check_upgrade_authority payer expected_program_data loader_id program_data;
  _ ← require (config_key =? expected_config) IncorrectAccount;
  _ ← require (length existing =? 0)%nat InvalidArgument;
  mret (global_config_new_empty payer).
