(* ===== verification/Orders.v ===== *)
(** * The handlers of the order book

    Seats ([processor/claim_seat.rs], [sync_market_position.rs]), the borrower's bids
    ([place_order.rs], [cancel_order.rs], [update_order.rs]), the sub-vaults' asks
    ([place_order_for_sub_vault.rs], [update_order_for_sub_vault.rs],
    [cancel_order_for_sub_vault.rs], [admin_cancel_sub_vault_order.rs]) and the crank
    that crosses the two at rest ([match_crank.rs]). *)
From stdpp Require Import base numbers list option gmap.
From S2P Require Import Prelude FixedPoint Loan Marginfi RateCalc Oracles Ltv.
From S2P Require Import Hypertree SubVault Market VaultTrees Matching UserAccount.
From S2P Require Import Runtime LoanClose Repay Deposits Convert.
Local Open Scope Z_scope.

(** ** Seats *)

Definition process_claim_seat (market_key payer : Pubkey) (w : World) : result World :=
  m ← expand_market_if_needed (wd_market w);
  m ← claim_seat m payer OWNER_KIND_USER;
  seat_index ← lookup_seat_index m (claimed_seat_new_empty payer OWNER_KIND_USER 0);
  '(u, _) ← upsert_market_position (wd_user w) market_key seat_index;
  mret (w <| wd_market := m |> <| wd_user := u |>).

Definition process_sync_market_position (market_key owner : Pubkey) (w : World) : result World :=
  u ← sync_signer_market_position (wd_market w) market_key (wd_user w) owner;
  mret (w <| wd_user := u |>).

(** ** Prices, as the order handlers read them *)

(** The keys [PlaceOrderContext], [PlaceOrderForSubVaultContext] and [MatchCrankContext]
    share. *)
Record BookContext := mkBookContext {
  bc_payer : Pubkey;
  bc_market : Pubkey;
  bc_marginfi_group : Pubkey;
  bc_debt_bank : Pubkey;
  bc_collateral_bank : Pubkey;
  bc_debt_oracles : list Pubkey;
  bc_collateral_oracles : list Pubkey }.

Section Book.
  Variable parse_stake_state : list Z → option StakeState.
  Variable now : Z.

Definition oracle_price_of (l : Ledger) (bank : Pubkey) (oracles : list Pubkey) : result Fp48 :=
  args ← accounts_of l (bank :: oracles);
  raw ← read_oracle_price parse_stake_state now args;
  mret (from_raw raw).

(** The bank's asset share value, read directly. *)
Definition bank_asset_share_value (l : Ledger) (bank : Pubkey) : result Fp48 :=
  a ← account l bank;
  view ← map_err (bank_try_from_account_data (ai_data a)) IncorrectAccount;
  asv ← wrapped_i80f48_to_u128 (asset_share_value view);
  mret (from_raw asv).

Definition lending_floor (l : Ledger) (bank group : Pubkey) : result Z :=
  b ← account l bank;
  g ← account l group;
  current_lending_apr_bps_ceil b g.

(** ** [PlaceOrder] *)

Record PlaceOrderParams := mkPlaceOrderParams {
  pp_seat_index_hint : option Z;
  pp_residual_mode : Z;
  pp_last_valid_unix_ts : Z;
  pp_rate_bps : Z;
  pp_term_seconds : Z;
  pp_principal_atoms : Z;
  pp_collateral_atoms : Z;
  pp_ltv_buffer_bps : Z }.

(** The accounts only [PlaceOrderContext] has, for the marginfi fallback. *)
Record FallbackAccounts := mkFallbackAccounts {
  fb_borrower_marginfi_account : Pubkey;
  fb_lender_marginfi_account : Pubkey;
  fb_market_debt_vault : Pubkey;
  fb_market_signer : Pubkey;
  fb_marginfi_program : Pubkey;
  fb_debt_liquidity_vault : Pubkey;
  fb_debt_bank_liquidity_vault_authority : Pubkey;
  fb_token_program : Pubkey }.

Definition read_debt_bank_liability_shares (a : AccountInfo) (debt_bank : Pubkey) : result Z :=
  mfi ← map_err (marginfi_account_try_from_account_data (ai_data a)) IncorrectAccount;
  match find_balance mfi debt_bank with
  | Some b => wrapped_i80f48_to_u128 (balance_liability_shares b)
  | None => Ok 0
  end.

Definition read_debt_bank_asset_shares (a : AccountInfo) (debt_bank : Pubkey) : result Z :=
  mfi ← map_err (marginfi_account_try_from_account_data (ai_data a)) IncorrectAccount;
  match find_balance mfi debt_bank with
  | Some b => wrapped_i80f48_to_u128 (balance_asset_shares b)
  | None => Ok 0
  end.

Section Fallback.
  Variable invoke_signed : MarginfiIx → list AccountInfo → result (list AccountInfo).

(** A raw [invoke_signed] on accounts of the transaction. *)
Definition call_marginfi (ix : MarginfiIx) (l : Ledger) (ks : list Pubkey) : result Ledger :=
  snd <$> on_accounts (λ accs, accs' ← invoke_signed ix accs; mret (tt, accs')) l ks.

(** The marginfi borrow of the residual and its deposit for the borrower: the liability
    shares opened and the asset shares credited. *)
Definition fund_fallback (ctx : BookContext) (fb : FallbackAccounts) (pre_liability residual : Z)
    (l : Ledger) : result (Z * Z * Ledger) :=
  l ← call_marginfi (BorrowIx residual) l
    ([bc_marginfi_group ctx; fb_borrower_marginfi_account fb; fb_market_signer fb;
      bc_debt_bank ctx; fb_market_debt_vault fb; fb_debt_bank_liquidity_vault_authority fb;
      fb_debt_liquidity_vault fb; fb_token_program fb; bc_collateral_bank ctx]
     ++ bc_collateral_oracles ctx ++ bc_debt_oracles ctx ++ [fb_marginfi_program fb]);
  borrower ← account l (fb_borrower_marginfi_account fb);
  post_liability ← read_debt_bank_liability_shares borrower (bc_debt_bank ctx);
  opened ← ok_or (checked_sub post_liability pre_liability) IncorrectAccount;
  lender ← account l (fb_lender_marginfi_account fb);
  pre_asset ← read_debt_bank_asset_shares lender (bc_debt_bank ctx);
  l ← call_marginfi (DepositIx residual None) l
    [bc_marginfi_group ctx; fb_lender_marginfi_account fb; fb_market_signer fb;
     bc_debt_bank ctx; fb_market_debt_vault fb; fb_debt_liquidity_vault fb;
     fb_token_program fb; fb_marginfi_program fb];
  lender ← account l (fb_lender_marginfi_account fb);
  post_asset ← read_debt_bank_asset_shares lender (bc_debt_bank ctx);
  credited ← ok_or (checked_sub post_asset pre_asset) IncorrectAccount;
  mret (opened, credited, l).

(** The market after the fallback: the proceeds on the seat, the shares on the node. *)
Definition record_fallback (m : Market) (payer : Pubkey) (hint : option Z)
    (node_index opened credited : Z) : result Market :=
  m ← (if 0 <? credited then
         seat_index ← get_seat_index_with_hint m payer hint;
         deposit_to_seat m seat_index credited true
       else Ok m);
  d ← modify_value (V:=MatchedLoan) (mk_dynamic m) node_index
        (λ n, mret (n <| ml_borrower_marginfi_borrow_shares := opened |>));
  mret (m <| mk_dynamic := d |>).

(** The residual that rests, in the borrower's list of open orders. *)
Definition track_rested_bid (u : UserAccount) (market_key : Pubkey) (p : PlaceOrderParams)
    (r : PlaceOrderResult) : result UserAccount :=
  u ← (if user_has_free_block (us_fixed u) then Ok u else expand_user_account u);
  fst <$> insert_user_order u market_key (po_sequence r) (Side_as_u8 Bid) (pp_rate_bps p)
            (pp_term_seconds p) (mr_remaining_principal (po_match_result r)) now.

(** What the handler reads for [match_borrower_bid]; the taker's seat is looked up last. *)
Definition place_order_args (ctx : BookContext) (p : PlaceOrderParams) (l : Ledger)
    : result (Z → PlaceOrderArgs) :=
  snapshot ← bank_asset_share_value l (bc_collateral_bank ctx);
  debt_price ← oracle_price_of l (bc_debt_bank ctx) (bc_debt_oracles ctx);
  collateral_price ← oracle_price_of l (bc_collateral_bank ctx) (bc_collateral_oracles ctx);
  debt_bank ← account l (bc_debt_bank ctx);
  debt_weights ← init_weight [debt_bank];
  collateral_bank ← account l (bc_collateral_bank ctx);
  collateral_weights ← init_weight [collateral_bank];
  floor ← lending_floor l (bc_debt_bank ctx) (bc_marginfi_group ctx);
  _ ← require (pp_ltv_buffer_bps p <=? 10000) InvalidArgument;
  mret (λ seat_index, mkPlaceOrderArgs seat_index (pp_rate_bps p) (pp_term_seconds p) (pp_principal_atoms p)
    (pp_collateral_atoms p) (pp_residual_mode p) (pp_last_valid_unix_ts p) now snapshot
    debt_price collateral_price (from_raw (snd debt_weights))
    (from_raw (fst collateral_weights)) floor (pp_ltv_buffer_bps p)).

Definition process_place_order (ctx : BookContext) (fb : FallbackAccounts) (p : PlaceOrderParams)
    (w : World) : result World :=
  m ← expand_market_if_needed (wd_market w);
  args ← place_order_args ctx p (wd_ledger w);
  borrower ← account (wd_ledger w) (fb_borrower_marginfi_account fb);
  pre_liability ← read_debt_bank_liability_shares borrower (bc_debt_bank ctx);
  ask_count ← count_resting_asks m;
  m ← expand_market_to_free_blocks m (ask_count + 1);
  seat_index ← get_seat_index_with_hint m (bc_payer ctx) (pp_seat_index_hint p);
  '(m, vault, r) ← match_borrower_bid m (args seat_index) (wd_vault w);
  let residual := mr_remaining_principal (po_match_result r) in
  '(m, l) ← (if negb (po_p2pool_loan_index r =? NIL) && (0 <? residual) then
               '(opened, credited, l) ← fund_fallback ctx fb pre_liability residual (wd_ledger w);
               m ← record_fallback m (bc_payer ctx) (pp_seat_index_hint p)
                     (po_p2pool_loan_index r) opened credited;
               mret (m, l)
             else Ok (m, wd_ledger w));
  u ← (if po_rested r then track_rested_bid (wd_user w) (bc_market ctx) p r else Ok (wd_user w));
  u ← sync_signer_market_position m (bc_market ctx) u (bc_payer ctx);
  mret (w <| wd_market := m |> <| wd_vault := vault |> <| wd_user := u |> <| wd_ledger := l |>).
End Fallback.

(** ** The borrower's resting bids *)

(** The signer's bid of that sequence: its seat, its block, the order. *)
Definition find_own_bid (m : Market) (payer : Pubkey) (hint : option Z) (sequence : Z)
    : result (Z * Z * RestingOrder) :=
  seat_index ← get_seat_index_with_hint m payer hint;
  order_index ← lookup_order_by_seq m seat_index sequence None;
  order ← get_order m order_index;
  _ ← require (ro_side order =? Side_as_u8 Bid) IncorrectAccount;
  mret (seat_index, order_index, order).

Definition process_cancel_order (market_key payer : Pubkey) (order_sequence : Z)
    (seat_index_hint : option Z) (w : World) : result World :=
  '(seat_index, order_index, _) ← find_own_bid (wd_market w) payer seat_index_hint order_sequence;
  m ← cancel_order_by_index (wd_market w) seat_index order_index;
  '(u, _) ← remove_user_order (wd_user w) market_key order_sequence;
  u ← sync_signer_market_position m market_key u payer;
  mret (w <| wd_market := m |> <| wd_user := u |>).

Record UpdateOrderParams := mkUpdateOrderParams {
  uo_order_sequence : Z;
  uo_seat_index_hint : option Z;
  uo_new_rate_bps : Z;
  uo_new_term_seconds : Z;
  uo_new_last_valid_unix_ts : Z;
  uo_new_ltv_buffer_bps : Z }.

Definition process_update_order (market_key payer : Pubkey) (p : UpdateOrderParams) (w : World)
    : result World :=
  _ ← require (uo_new_ltv_buffer_bps p <=? 10000) InvalidArgument;
  '(seat_index, order_index, order) ←
    find_own_bid (wd_market w) payer (uo_seat_index_hint p) (uo_order_sequence p);
  '(m, new_sequence) ← update_user_bid (wd_market w) seat_index order_index (uo_new_rate_bps p)
    (uo_new_term_seconds p) (uo_new_last_valid_unix_ts p) (uo_new_ltv_buffer_bps p) now;
  '(u, _) ← remove_user_order (wd_user w) market_key (uo_order_sequence p);
  '(u, _) ← insert_user_order u market_key new_sequence (Side_as_u8 Bid) (uo_new_rate_bps p)
              (uo_new_term_seconds p) (ro_principal_atoms order) now;
  u ← sync_signer_market_position m market_key u payer;
  mret (w <| wd_market := m |> <| wd_user := u |>).

(** ** The take of an ask on the resting bids *)

(** The ask's terms and its sub-vault's policy. *)
Record AskTerms := mkAskTerms {
  at_seat_index : Z;
  at_sub_vault_id : Z;
  at_rate_bps : Z;
  at_term_seconds : Z;
  at_curator_fee_bps : Z;
  at_curator : Pubkey;
  at_max_ltv_bps : Z;
  at_liquidation_ltv_bps : Z }.

#[export] Instance eta_AskTerms : Eta AskTerms := λ a,
  mkAskTerms (at_seat_index a) (at_sub_vault_id a) (at_rate_bps a) (at_term_seconds a)
    (at_curator_fee_bps a) (at_curator a) (at_max_ltv_bps a) (at_liquidation_ltv_bps a).

(** [take_resting_bids]: the market, the vault and the number of fills. *)
Definition take_resting_bids (ctx : BookContext) (l : Ledger) (a : AskTerms) (max_fills : Z)
    (m : Market) (v : Vault) : result (Market * Vault * Z) :=
  let fixed := mk_fixed m in
  bids_count ← count_resting_bids m;
  if bids_count =? 0 then Ok (m, v, 0) else
  m ← expand_market_to_free_blocks m bids_count;
  debt_price ← oracle_price_of l (bc_debt_bank ctx) (bc_debt_oracles ctx);
  collateral_price ← oracle_price_of l (bc_collateral_bank ctx) (bc_collateral_oracles ctx);
  snapshot ← bank_asset_share_value l (bc_debt_bank ctx);
  s ← match_resting_bids m
    {| ba_ask_seat_index := at_seat_index a;
       ba_ask_sub_vault_id := at_sub_vault_id a;
       ba_ask_rate_bps := at_rate_bps a;
       ba_ask_term_seconds := at_term_seconds a;
       ba_ask_curator_fee_bps := at_curator_fee_bps a;
       ba_sub_vault_max_ltv_bps := at_max_ltv_bps a;
       ba_sub_vault_liquidation_ltv_bps := at_liquidation_ltv_bps a;
       ba_ask_curator := at_curator a;
       ba_fee_floor_bps := fc_protocol_fee_bps_floor (mf_fee_config fixed);
       ba_origination_bps := fc_origination_bps (mf_fee_config fixed);
       ba_now_unix_ts := now;
       ba_lender_debt_share_price_snapshot_fp48 := snapshot;
       ba_debt_oracle_price_fp48 := debt_price;
       ba_collateral_oracle_price_fp48 := collateral_price;
       ba_debt_mint_decimals := mf_debt_mint_decimals fixed;
       ba_collateral_mint_decimals := mf_collateral_mint_decimals fixed;
       ba_max_fills := max_fills |} v;
  mret (bs_market s, bs_vault s, bs_num_fills s).

(** ** The sub-vaults' asks *)

(** A sub-vault and its key, read for an order. *)
Definition sub_vault_of (v : Vault) (sub_vault_id : Z) : result SubVault :=
  idx ← lookup_sub_vault v sub_vault_id;
  _ ← require (negb (idx =? NIL)) SubVaultNotFound;
  get_sub_vault v idx.

(** The sequence of the sub-vault's resting ask in this market. *)
Definition order_ref_sequence (v : Vault) (market_key : Pubkey) (sub_vault_id : Z) : result Z :=
  idx ← lookup_order_ref v market_key sub_vault_id;
  _ ← require (negb (idx =? NIL)) InvalidArgument;
  r ← read_value (V:=SubVaultOrderRef) (vt_dynamic v) idx;
  mret (or_order_sequence_in_market r).

(** The stored rate of an ask: the live lending rate plus the sub-vault's spread. *)
Definition ask_rate (ctx : BookContext) (l : Ledger) (s : SubVault) : result Z :=
  apr ← lending_floor l (bc_debt_bank ctx) (bc_marginfi_group ctx);
  ok_or (checked_add U16 apr (sv_spread_bps s)) MathOverflow.

Definition ask_terms (seat_index rate : Z) (curator : Pubkey) (s : SubVault) : AskTerms :=
  mkAskTerms seat_index (sv_sub_vault_id s) rate (sv_max_term_seconds s) (sv_curator_fee_bps s)
    curator (sv_max_ltv_bps s) (sv_liquidation_ltv_bps s).

(** The gates of a curator's order. *)
Definition check_curator_order (curator : Pubkey) (s : SubVault) : result unit :=
  _ ← require (sv_is_sunset s =? 0) SubVaultSunset;
  require (curator =? sv_curator s) VaultCuratorRequired.

(** The sub-vault's seat in the market, claimed on first use. *)
Definition sub_vault_seat (m : Market) (vault_key : Pubkey) (sub_vault_id : Z)
    : result (Market * Z) :=
  existing ← lookup_sub_vault_seat_index m vault_key sub_vault_id;
  if negb (existing =? NIL) then
    m ← expand_market_to_free_blocks m 1; mret (m, existing)
  else
    m ← expand_market_to_free_blocks m 2;
    m ← claim_seat_with_sub_vault m vault_key OWNER_KIND_SUB_VAULT sub_vault_id;
    seat_index ← lookup_sub_vault_seat_index m vault_key sub_vault_id;
    _ ← require (negb (seat_index =? NIL)) IncorrectAccount;
    mret (m, seat_index).

(** The vault's reference to the ask, in a block grown when none is free. *)
Definition record_order_ref (v : Vault) (market_key : Pubkey) (sub_vault_id rate term sequence : Z)
    : result Vault :=
  v ← expand_vault_if_needed v;
  fst <$> insert_sub_vault_order_ref v market_key sub_vault_id (Side_as_u8 Ask) rate term
            sequence now.

Definition process_place_order_for_sub_vault (ctx : BookContext) (vault_key curator : Pubkey)
    (sub_vault_id flags : Z) (l : Ledger) (m : Market) (v : Vault) : result (Market * Vault) :=
  s ← sub_vault_of v sub_vault_id;
  _ ← check_curator_order curator s;
  rate ← ask_rate ctx l s;
  let term := sv_max_term_seconds s in
  '(m, seat_index) ← sub_vault_seat m vault_key sub_vault_id;
  '(m, sequence) ← rest_vault_ask m (mkRestVaultAskArgs seat_index rate term flags now);
  seat_index ← lookup_sub_vault_seat_index m vault_key sub_vault_id;
  '(m, v, _) ← take_resting_bids ctx l
    (ask_terms seat_index rate curator s <| at_sub_vault_id := sub_vault_id |>) (umax U32) m v;
  v ← record_order_ref v (bc_market ctx) sub_vault_id rate term sequence;
  mret (m, v).

Definition process_update_order_for_sub_vault (ctx : BookContext) (vault_key curator : Pubkey)
    (sub_vault_id flags : Z) (l : Ledger) (m : Market) (v : Vault) : result (Market * Vault) :=
  s ← sub_vault_of v sub_vault_id;
  _ ← check_curator_order curator s;
  old_sequence ← order_ref_sequence v (bc_market ctx) sub_vault_id;
  rate ← ask_rate ctx l s;
  let term := sv_max_term_seconds s in
  seat_index ← lookup_sub_vault_seat_index m vault_key sub_vault_id;
  _ ← require (negb (seat_index =? NIL)) IncorrectAccount;
  m ← expand_market_if_needed m;
  order_index ← lookup_order_by_seq m seat_index old_sequence None;
  m ← cancel_order_by_index m seat_index order_index;
  '(m, sequence) ← rest_vault_ask m (mkRestVaultAskArgs seat_index rate term flags now);
  '(v, _) ← remove_sub_vault_order_ref v (bc_market ctx) sub_vault_id;
  v ← record_order_ref v (bc_market ctx) sub_vault_id rate term sequence;
  '(m, v, _) ← take_resting_bids ctx l
    (ask_terms seat_index rate curator s <| at_sub_vault_id := sub_vault_id |>) (umax U32) m v;
  mret (m, v).

(** The removal of a sub-vault's ask from both accounts, behind the caller's gate. *)
Definition cancel_sub_vault_ask (gate : SubVault → result unit) (vault_key market_key : Pubkey)
    (sub_vault_id : Z) (m : Market) (v : Vault) : result (Market * Vault) :=
  s ← sub_vault_of v sub_vault_id;
  _ ← gate s;
  sequence ← order_ref_sequence v market_key sub_vault_id;
  seat_index ← lookup_sub_vault_seat_index m vault_key sub_vault_id;
  _ ← require (negb (seat_index =? NIL)) IncorrectAccount;
  order_index ← lookup_order_by_seq m seat_index sequence None;
  m ← cancel_order_by_index m seat_index order_index;
  '(v, removed) ← remove_sub_vault_order_ref v market_key sub_vault_id;
  _ ← require (negb (removed =? NIL)) InvalidArgument;
  mret (m, v).

Definition process_cancel_order_for_sub_vault (vault_key market_key curator : Pubkey)
    (sub_vault_id : Z) (m : Market) (v : Vault) : result (Market * Vault) :=
  cancel_sub_vault_ask (λ s, require (curator =? sv_curator s) VaultCuratorRequired)
    vault_key market_key sub_vault_id m v.

Definition process_admin_cancel_sub_vault_order (vault_key market_key : Pubkey)
    (sub_vault_id : Z) (m : Market) (v : Vault) : result (Market * Vault) :=
  cancel_sub_vault_ask (λ s, require (negb (sv_is_sunset s =? 0)) SubVaultNotSunset)
    vault_key market_key sub_vault_id m v.

(** ** [MatchCrank] *)

(** A resting ask as the crank snapshots it. *)
Record AskSnapshot := mkAskSnapshot {
  as_seat_index : Z;
  as_sub_vault_id : Z;
  as_rate_bps : Z;
  as_term_seconds : Z }.

Fixpoint snapshot_asks (m : Market) (indices : list Z) : result (list AskSnapshot) :=
  match indices with
  | [] => Ok []
  | i :: rest =>
      o ← get_order m i;
      seat ← get_seat m (ro_trader_seat_index o);
      asks ← snapshot_asks m rest;
      mret (mkAskSnapshot (ro_trader_seat_index o) (cs_sub_vault_id seat) (ro_rate_bps o)
              (ro_term_seconds o) :: asks)
  end.

(** One ask of the walk: the market, the vault and the fills it made. *)
Definition crank_ask (ctx : BookContext) (l : Ledger) (floor_bps budget : Z) (a : AskSnapshot)
    (m : Market) (v : Vault) : result (Market * Vault * Z) :=
  if as_rate_bps a <? floor_bps then Ok (m, v, 0) else
  idx ← lookup_sub_vault v (as_sub_vault_id a);
  if idx =? NIL then Ok (m, v, 0) else
  s ← get_sub_vault v idx;
  take_resting_bids ctx l
    (mkAskTerms (as_seat_index a) (as_sub_vault_id a) (as_rate_bps a) (as_term_seconds a)
       (sv_curator_fee_bps s) (sv_curator s) (sv_max_ltv_bps s) (sv_liquidation_ltv_bps s))
    budget m v.

Fixpoint crank_walk (ctx : BookContext) (l : Ledger) (floor_bps budget total : Z)
    (asks : list AskSnapshot) (m : Market) (v : Vault) : result (Market * Vault * Z) :=
  match asks with
  | [] => Ok (m, v, total)
  | a :: rest =>
      if budget =? 0 then Ok (m, v, total) else
      '(m, v, fills) ← crank_ask ctx l floor_bps budget a m v;
      crank_walk ctx l floor_bps (saturating_sub budget fills) (saturating_add U32 total fills)
        rest m v
  end.

Definition process_match_crank (ctx : BookContext) (max_fills : Z) (l : Ledger) (m : Market)
    (v : Vault) : result (Market * Vault * Z) :=
  floor_bps ← lending_floor l (bc_debt_bank ctx) (bc_marginfi_group ctx);
  indices ← iter_indices (V:=RestingOrder) (asks_tree m);
  asks ← snapshot_asks m indices;
  crank_walk ctx l floor_bps (Z.max max_fills 1) 0 asks m v.
End Book.
