(* ===== verification/HypertreeValues.v ===== *)
(** * No tree operation changes a payload

    A property of the blocks of a region that looks at payloads only, and holds of free
    blocks, survives every operation of [Hypertree]: allocation, release, insertion of a
    payload that has it, and removal.  Unlike the contracts of [HypertreeOrder] this
    asks nothing of the shape of the tree. *)
From stdpp Require Import base numbers list option gmap.
From S2P Require Import Prelude Hypertree.
Local Open Scope Z_scope.

(** Every allocated block satisfies [P]. *)
Definition blocks_ok {B} (P : B → Prop) (d : Region B) : Prop := map_Forall (λ _ b, P b) d.

Section blocks.
Context {B A : Type} `{BlockOf B A} (P : B → Prop).
Implicit Types (d : Region B) (i : Z) (a : A).

Lemma blocks_ok_insert d i b : blocks_ok P d → P b → blocks_ok P (<[i := b]> d).
Proof. intros Hd Hb. by apply map_Forall_insert_2. Qed.

Lemma region_get_ok d i : blocks_ok P d → ensures (region_get d i) (λ a, P (to_block a)).
Proof.
  intros Hd a Ha. unfold region_get in Ha. apply ok_or_Ok, bind_Some in Ha as (b & Hb & Ha).
  rewrite <- (to_of_block _ _ Ha). by apply (Hd i).
Qed.

Lemma region_set_ok d i a : blocks_ok P d → P (to_block a) → ensures (region_set d i a) (blocks_ok P).
Proof.
  intros Hd Ha d'. unfold region_set. destruct (d !! i); intros [= <-]. by apply blocks_ok_insert.
Qed.
End blocks.

(** ** What every change of a link keeps

    [G]: a property of the region that does not depend on the links and colours of the
    tree's nodes. *)
Section frames.
Context {B V : Type} `{BlockOf B (RBNode V)} `{Payload V} (G : Region B → Prop).

Hypothesis relink_kept : ∀ (d : Region B) i (n n' : RBNode V),
  region_get d i = Ok n → rb_value n' = rb_value n → G d → G (<[i := to_block n']> d).

Local Notation tree_ok t := (G (t_data t)).
Implicit Types (t : Tree B) (i : Z) (d : Region B).

Lemma modify_node_ok t i (f : RBNode V → RBNode V) : (∀ n, rb_value (f n) = rb_value n) →
  tree_ok t → ensures (modify_node t i f) (λ t', tree_ok t').
Proof.
  intros Hf Ht. unfold modify_node, get_node. apply ensures_bind. intros n Hn.
  unfold region_set. destruct (t_data t !! i); [|done]. simpl. apply ensures_Ok.
  by apply (relink_kept _ _ n).
Qed.

Lemma set_color_ok t i c : tree_ok t → ensures (set_color (V:=V) t i c) (λ t', tree_ok t').
Proof. intros Ht. unfold set_color. ensure_step; [by apply ensures_Ok|by apply modify_node_ok]. Qed.
Lemma set_parent_index_ok t i p : tree_ok t →
  ensures (set_parent_index (V:=V) t i p) (λ t', tree_ok t').
Proof. intros Ht. unfold set_parent_index. ensure_step; [by apply ensures_Ok|by apply modify_node_ok]. Qed.
Lemma set_left_index_ok t i p : tree_ok t →
  ensures (set_left_index (V:=V) t i p) (λ t', tree_ok t').
Proof. intros Ht. unfold set_left_index. ensure_step; [by apply ensures_Ok|by apply modify_node_ok]. Qed.
Lemma set_right_index_ok t i p : tree_ok t →
  ensures (set_right_index (V:=V) t i p) (λ t', tree_ok t').
Proof. intros Ht. unfold set_right_index. ensure_step; [by apply ensures_Ok|by apply modify_node_ok]. Qed.
Local Hint Resolve modify_node_ok set_color_ok set_parent_index_ok set_left_index_ok
  set_right_index_ok : ensures.

Lemma relink_grandparent_ok t g p gg : tree_ok t →
  ensures (relink_grandparent (V:=V) t g p gg) (λ t', tree_ok t').
Proof. intros Ht. unfold relink_grandparent. by ensure_walk. Qed.
Local Hint Resolve relink_grandparent_ok : ensures.

Lemma rotate_left_ok t i : tree_ok t → ensures (rotate_left (V:=V) t i) (λ t', tree_ok t').
Proof. intros Ht. unfold rotate_left. ensure_walk; done. Qed.
Lemma rotate_right_ok t i : tree_ok t → ensures (rotate_right (V:=V) t i) (λ t', tree_ok t').
Proof. intros Ht. unfold rotate_right. ensure_walk; done. Qed.
Local Hint Resolve rotate_left_ok rotate_right_ok : ensures.

Lemma insert_fix_ok t i : tree_ok t → ensures (insert_fix (V:=V) t i) (λ '(t', _), tree_ok t').
Proof. intros Ht. unfold insert_fix. ensure_walk; done. Qed.
Local Hint Resolve insert_fix_ok : ensures.

Lemma insert_fix_loop_ok fuel t i : tree_ok t →
  ensures (insert_fix_loop (V:=V) fuel t i) (λ t', tree_ok t').
Proof.
  revert t i. induction fuel as [|fuel IH]; intros t i Ht; cbn [insert_fix_loop]; [by ensure_walk|].
  apply ensures_bind. eapply ensures_mono; [by apply insert_fix_ok|]. intros [t' next] Ht'.
  ensure_step; [by apply ensures_Ok|by apply IH].
Qed.

(** Where a node with the payload of [n] may be written without losing [G]. *)
Definition writable (v : V) (i : Z) : Prop :=
  ∀ d n, G d → rb_value n = v → G (<[i := to_block n]> d).

Lemma region_set_keeps d i n : writable (rb_value n) i → G d → ensures (region_set d i n) G.
Proof. intros Hi Hd d'. unfold region_set. destruct (d !! i); intros [= <-]. by apply Hi. Qed.

Lemma insert_node_no_fix_ok t n i : tree_ok t → writable (rb_value n) i →
  ensures (insert_node_no_fix t n i) (λ t', tree_ok t').
Proof.
  intros Ht Hn. unfold insert_node_no_fix. do 5 ensure_step.
  apply ensures_mono with (λ t', tree_ok t').
  - destruct (payload_cmp _ _); auto with ensures.
  - intros t' Ht'. ensure_step. eapply ensures_mono; [by apply region_set_keeps|].
    intros d Hd. by apply ensures_Ok.
Qed.

(** Insertion of a payload where it may be written. *)
Lemma insert_keeps t i v : tree_ok t → writable v i → ensures (insert t i v) (λ t', tree_ok t').
Proof.
  intros Ht Hv. unfold insert. ensure_step; [|ensure_step].
  - ensure_step. eapply ensures_mono; [by apply region_set_keeps|]. intros d Hd.
    by apply ensures_Ok.
  - apply ensures_mono with (λ t', tree_ok t'); [by ensure_walk|]. intros t1 Ht1. ensure_step.
    eapply ensures_mono; [apply insert_node_no_fix_ok; [done|exact Hv]|].
    intros t2 Ht2. by apply insert_fix_loop_ok.
Qed.

Local Hint Extern 2 (G (t_data (if ?b then _ else _))) => destruct b : ensures.

Lemma swap_node_with_successor_ok t i j : tree_ok t →
  ensures (swap_node_with_successor (V:=V) t i j) (λ t', tree_ok t').
Proof. intros Ht. unfold swap_node_with_successor. ensure_walk; done. Qed.
Lemma update_parent_child_ok t i : tree_ok t →
  ensures (update_parent_child (V:=V) t i) (λ t', tree_ok t').
Proof. intros Ht. unfold update_parent_child. ensure_walk; done. Qed.
Lemma remove_fix_ok t c p : tree_ok t → ensures (remove_fix (V:=V) t c p) (λ '(t', _), tree_ok t').
Proof. intros Ht. unfold remove_fix. ensure_walk; done. Qed.
Lemma remove_fix_loop_ok fuel t c p : tree_ok t →
  ensures (remove_fix_loop (V:=V) fuel t c p) (λ t', tree_ok t').
Proof.
  revert t c p. induction fuel as [|fuel IH]; intros t c p Ht; cbn [remove_fix_loop];
    [by ensure_walk|].
  apply ensures_bind. eapply ensures_mono; [by apply remove_fix_ok|]. intros [t' [c' p']] Ht'.
  ensure_step; [by apply ensures_Ok|by apply IH].
Qed.
Local Hint Resolve swap_node_with_successor_ok update_parent_child_ok remove_fix_loop_ok : ensures.

(** Removal. *)
Lemma remove_by_index_keeps t i : tree_ok t →
  ensures (remove_by_index (V:=V) t i) (λ t', tree_ok t').
Proof. intros Ht. unfold remove_by_index. ensure_walk; done. Qed.
End frames.

Section values.
Context {B V : Type} `{BlockOf B (RBNode V)} `{Payload V} (P : B → Prop).

(** [P] does not look at links or colours. *)
Hypothesis payload_only : ∀ n n' : RBNode V,
  rb_value n' = rb_value n → P (to_block n) → P (to_block n').

Local Notation tree_ok t := (blocks_ok P (t_data t)).
Implicit Types (t : Tree B) (i : Z) (d : Region B).

Lemma modify_value_ok d i (f : V → result V) : blocks_ok P d →
  (∀ n, P (to_block n) → ensures (f (rb_value n)) (λ v, P (to_block (n <| rb_value := v |>)))) →
  ensures (modify_value d i f) (blocks_ok P).
Proof.
  intros Hd Hf. unfold modify_value. apply ensures_bind.
  eapply ensures_mono; [by apply region_get_ok|]. intros n Hn. apply ensures_bind.
  eapply ensures_mono; [by apply Hf|]. intros v Hv. by apply region_set_ok.
Qed.

(** The payload of a well-formed block, whatever its links. *)
Lemma read_value_ok d i : blocks_ok P d →
  ensures (read_value d i) (λ v, P (to_block (new_node Black v))).
Proof.
  intros Hd. unfold read_value. apply ensures_fmap. eapply ensures_mono; [by apply region_get_ok|].
  intros n. by apply payload_only.
Qed.

Lemma relink_blocks_ok d i (n n' : RBNode V) :
  region_get d i = Ok n → rb_value n' = rb_value n → blocks_ok P d →
  blocks_ok P (<[i := to_block n']> d).
Proof.
  intros Hn Hv Hd. apply blocks_ok_insert; [done|]. apply (payload_only n); [done|].
  by apply (region_get_ok P d i Hd).
Qed.

(** Insertion of a payload that satisfies the property; removal. *)
Lemma insert_ok t i v : tree_ok t → P (to_block (new_node Black v)) →
  ensures (insert t i v) (λ t', tree_ok t').
Proof.
  intros Ht Hv. apply (insert_keeps _ relink_blocks_ok); [done|]. intros d n Hd Hn.
  apply blocks_ok_insert; [done|]. by apply (payload_only (new_node Black v)).
Qed.

Lemma remove_by_index_ok t i : tree_ok t →
  ensures (remove_by_index (V:=V) t i) (λ t', tree_ok t').
Proof. apply (remove_by_index_keeps _ relink_blocks_ok). Qed.
End values.

(** ** The free list *)

Section free.
Context {B : Type} `{BlockOf B FreeListNode} (P : B → Prop).
Hypothesis free_ok : ∀ n, P (to_block n).

Lemma free_list_add_ok d head i : blocks_ok P d →
  ensures (free_list_add d head i) (λ '(d', _), blocks_ok P d').
Proof.
  intros Hd. unfold free_list_add. ensure_step. eapply ensures_mono; [by apply region_set_ok|].
  intros d' Hd'. by apply ensures_Ok.
Qed.

Lemma free_list_remove_ok d head : blocks_ok P d →
  ensures (free_list_remove d head) (λ '(d', _, _), blocks_ok P d').
Proof.
  intros Hd. unfold free_list_remove. ensure_step; [by apply ensures_Ok|]. do 3 ensure_step. eapply ensures_mono; [by apply region_set_ok|].
  intros d' Hd'. by apply ensures_Ok.
Qed.
End free.
