(* ===== verification/PolicySpec.v ===== *)
(** * The risk policy of the sub-vaults

    Every sub-vault keeps its risk parameters in range: an LTV cap below 100%, a
    liquidation threshold at least [MIN_LIQ_GAP_BPS] above it and at most 100%, a
    positive longest term, and a bounded curator fee.  [vault_policy] says so of every
    sub-vault block of a vault; it is shown for a new vault and preserved by every
    handler that writes one, so it holds in every reachable vault. *)
From stdpp Require Import base numbers list option gmap.
From S2P Require Import Prelude FixedPoint Loan Marginfi Oracles Ltv.
From S2P Require Import Hypertree HypertreeValues SubVault Market VaultTrees UserAccount.
From S2P Require Import Matching Runtime LoanClose Repay Keeper Promotion Deposits Claims.
From S2P Require Import Convert Admin Orders.
Local Open Scope Z_scope.

(** ** The policy *)

Definition risk_ok (max_ltv liquidation_ltv max_term : Z) : Prop :=
  0 < max_ltv ∧ max_ltv + MIN_LIQ_GAP_BPS <= liquidation_ltv <= 10000 ∧ 0 < max_term.

Definition policy_ok (s : SubVault) : Prop :=
  risk_ok (sv_max_ltv_bps s) (sv_liquidation_ltv_bps s) (sv_max_term_seconds s)
  ∧ sv_curator_fee_bps s <= MAX_CURATOR_FEE_BPS.

#[export] Instance policy_ok_dec s : Decision (policy_ok s).
Proof. unfold policy_ok, risk_ok. apply _. Defined.

Definition block_policy (b : VaultBlock) : Prop :=
  match b with VB_sub_vault n => policy_ok (rb_value n) | _ => True end.

Definition vault_policy (v : Vault) : Prop := blocks_ok block_policy (vt_dynamic v).

(** The validation of the handlers accepts exactly the policy. *)
Lemma validate_sub_vault_risk_params_Ok max liq term :
  validate_sub_vault_risk_params max liq term = Ok tt ↔ risk_ok max liq term.
Proof.
  unfold validate_sub_vault_risk_params, risk_ok, saturating_add, MIN_LIQ_GAP_BPS, umax. split.
  - intros H. apply bind_Ok in H as ([] & H1%require_Ok & H).
    apply bind_Ok in H as ([] & H2%require_Ok & H). apply bind_Ok in H as ([] & H3%require_Ok & H).
    apply require_Ok in H. lia.
  - intros H. rewrite !require_true by lia. done.
Qed.

(** ** Updates of one sub-vault *)

Definition keeps_policy (f : SubVault → result SubVault) : Prop :=
  ∀ s, policy_ok s → ensures (f s) policy_ok.

Lemma sub_vault_payload_only (n n' : RBNode SubVault) :
  rb_value n' = rb_value n → block_policy (to_block n) → block_policy (to_block n').
Proof. intros Hn. simpl. by rewrite Hn. Qed.

Lemma modify_sub_vault_policy v i f : vault_policy v → keeps_policy f →
  ensures (modify_sub_vault v i f) vault_policy.
Proof.
  intros Hv Hf. unfold modify_sub_vault. ensure_step.
  eapply ensures_mono; [apply (modify_value_ok block_policy); [exact Hv|]|].
  - intros n Hn. by apply Hf.
  - intros d Hd. by apply ensures_Ok.
Qed.

Lemma get_sub_vault_policy v i : vault_policy v → ensures (get_sub_vault v i) policy_ok.
Proof.
  intros Hv. exact (read_value_ok (V:=SubVault) block_policy sub_vault_payload_only _ i Hv).
Qed.
#[export] Hint Resolve modify_sub_vault_policy get_sub_vault_policy : ensures.

(** A function that leaves the policy's fields alone. *)
Ltac keep_policy := intros s Hs; ensure_walk; first [assumption | exact Hs | done].

Lemma on_sub_vault_policy v id f : vault_policy v → keeps_policy f →
  ensures (on_sub_vault v id f) vault_policy.
Proof. intros Hv Hf. unfold on_sub_vault. by ensure_walk. Qed.

Lemma on_sub_vault_with_policy {A} v id (f : SubVault → result (SubVault * A)) : vault_policy v →
  (∀ s, policy_ok s → ensures (f s) (λ '(s', _), policy_ok s')) →
  ensures (on_sub_vault_with v id f) (λ '(v', _), vault_policy v').
Proof.
  intros Hv Hf. unfold on_sub_vault_with. do 5 ensure_step. ensure_step.
  ensure_step. eapply ensures_mono; [by apply Hf|]. intros [s' x] Hs'.
  ensure_step. eapply ensures_mono; [apply modify_sub_vault_policy; [done|]|].
  - intros ? _. by apply ensures_Ok.
  - intros v' Hv'. by apply ensures_Ok.
Qed.
#[export] Hint Resolve on_sub_vault_policy on_sub_vault_with_policy : ensures.

Lemma restore_policy s : policy_ok s → policy_ok (restore_assets_principal_invariant s).
Proof. unfold restore_assets_principal_invariant. by destruct (_ <? _). Qed.
Lemma stamp_policy s now sv : policy_ok s → policy_ok (stamp_accrual s now sv).
Proof. unfold stamp_accrual. by destruct (fp48_is_zero sv). Qed.

Lemma accrue_sub_vault_policy s now sv : policy_ok s → ensures (accrue_sub_vault s now sv) policy_ok.
Proof.
  intros Hs. unfold accrue_sub_vault, apply_idle_delta, grow_indices. cbv zeta.
  ensure_walk; try apply restore_policy; try apply stamp_policy; assumption.
Qed.
#[export] Hint Resolve accrue_sub_vault_policy : ensures.

(** What the handlers do to a sub-vault. *)
Lemma deploy_loan_policy p r c s : policy_ok s → ensures (deploy_loan p r c s) policy_ok.
Proof. intros Hs. unfold deploy_loan. ensure_walk; assumption. Qed.
#[export] Hint Resolve deploy_loan_policy : ensures.
Lemma fund_loan_policy p r c x now sv s : policy_ok s → ensures (fund_loan p r c x now sv s) policy_ok.
Proof. intros Hs. unfold fund_loan. ensure_walk; try apply restore_policy; assumption. Qed.
Lemma reconcile_policy c net now s : policy_ok s → ensures (reconcile c net now s) policy_ok.
Proof. intros Hs. unfold reconcile. cbv zeta. ensure_walk; by apply restore_policy. Qed.
#[export] Hint Resolve fund_loan_policy reconcile_policy : ensures.
Lemma close_out_sub_vault_policy c now sv s : policy_ok s →
  ensures (close_out_sub_vault c now sv s) policy_ok.
Proof. intros Hs. unfold close_out_sub_vault. cbv zeta. ensure_walk; assumption. Qed.
Lemma mint_shares_policy atoms s : policy_ok s → ensures (mint_shares atoms s) (λ '(s', _), policy_ok s').
Proof. intros Hs. unfold mint_shares. ensure_walk; simplify_eq; assumption. Qed.
Lemma burn_shares_policy n mfi s : policy_ok s → ensures (burn_shares n mfi s) (λ '(s', _), policy_ok s').
Proof. intros Hs. unfold burn_shares. cbv zeta. ensure_walk; assumption. Qed.
#[export] Hint Resolve close_out_sub_vault_policy mint_shares_policy burn_shares_policy : ensures.
Lemma deposit_into_sub_vault_policy payer bank now atoms s : policy_ok s →
  ensures (deposit_into_sub_vault payer bank now atoms s) (λ '(s', _), policy_ok s').
Proof. intros Hs. unfold deposit_into_sub_vault. ensure_walk; assumption. Qed.
Lemma withdraw_from_sub_vault_policy payer bank now n mfi s : policy_ok s →
  ensures (withdraw_from_sub_vault payer bank now n mfi s) (λ '(s', _), policy_ok s').
Proof. intros Hs. unfold withdraw_from_sub_vault. ensure_walk; assumption. Qed.
#[export] Hint Resolve deposit_into_sub_vault_policy withdraw_from_sub_vault_policy : ensures.
Lemma update_sub_vault_policy payer p s : policy_ok s → ensures (update_sub_vault payer p s) policy_ok.
Proof.
  intros [_ Hfee]. unfold update_sub_vault. cbv zeta. do 4 ensure_step.
  intros s' H. apply bind_Ok in H as ([] & H%validate_sub_vault_risk_params_Ok & [= <-]).
  by split.
Qed.
#[export] Hint Resolve update_sub_vault_policy : ensures.

(** ** Blocks of a vault *)

Section blocks.
Implicit Types (v : Vault) (i id : Z).

Lemma block_policy_free (n : FreeListNode) : block_policy (to_block n).
Proof. exact I. Qed.
Lemma seat_payload_only (n n' : RBNode SubVaultDepositorSeat) :
  rb_value n' = rb_value n → block_policy (to_block n) → block_policy (to_block n').
Proof. done. Qed.
Lemma order_payload_only (n n' : RBNode SubVaultOrderRef) :
  rb_value n' = rb_value n → block_policy (to_block n) → block_policy (to_block n').
Proof. done. Qed.
#[local] Hint Resolve block_policy_free : core.

(** A step of a free list. *)
Ltac blocks_step :=
  first
    [ eapply ensures_mono; [apply (free_list_add_ok block_policy); [auto|eassumption]|]
    | eapply ensures_mono; [apply (free_list_remove_ok block_policy); [auto|eassumption]|] ].

Lemma get_free_sub_vault_address_policy v : vault_policy v →
  ensures (get_free_sub_vault_address v) (λ '(v', _), vault_policy v').
Proof.
  intros Hv. unfold get_free_sub_vault_address. ensure_step. blocks_step.
  intros [[d h] i] Hd. by apply ensures_Ok.
Qed.
Lemma get_free_node_address_policy v : vault_policy v →
  ensures (get_free_node_address v) (λ '(v', _), vault_policy v').
Proof.
  intros Hv. unfold get_free_node_address. ensure_step. blocks_step.
  intros [[d h] i] Hd. by apply ensures_Ok.
Qed.
Lemma release_sub_vault_address_policy v i : vault_policy v →
  ensures (release_sub_vault_address v i) vault_policy.
Proof.
  intros Hv. unfold release_sub_vault_address. ensure_step. blocks_step.
  intros [d h] Hd. by apply ensures_Ok.
Qed.
Lemma release_node_address_policy v i : vault_policy v →
  ensures (release_node_address v i) vault_policy.
Proof.
  intros Hv. unfold release_node_address. ensure_step. blocks_step.
  intros [d h] Hd. by apply ensures_Ok.
Qed.
Lemma vault_expand_sub_vault_block_policy v : vault_policy v →
  ensures (vault_expand_sub_vault_block v) vault_policy.
Proof.
  intros Hv. unfold vault_expand_sub_vault_block. ensure_step. blocks_step.
  intros [d h] Hd. by ensure_walk.
Qed.
Lemma vault_expand_node_block_policy v : vault_policy v →
  ensures (vault_expand_node_block v) vault_policy.
Proof.
  intros Hv. unfold vault_expand_node_block. ensure_step. blocks_step.
  intros [d h] Hd. by ensure_walk.
Qed.
#[local] Hint Resolve get_free_sub_vault_address_policy get_free_node_address_policy
  release_sub_vault_address_policy release_node_address_policy
  vault_expand_sub_vault_block_policy vault_expand_node_block_policy : ensures.

(** The growth by a block, and the three trees. *)
Lemma expand_vault_if_needed_policy v : vault_policy v → ensures (expand_vault_if_needed v) vault_policy.
Proof.
  intros Hv. unfold expand_vault_if_needed. ensure_step; [by apply ensures_Ok|].
  apply vault_expand_node_block_policy. by apply blocks_ok_insert.
Qed.
Lemma expand_sub_vaults_if_needed_policy v : vault_policy v →
  ensures (expand_sub_vaults_if_needed v) vault_policy.
Proof.
  intros Hv. unfold expand_sub_vaults_if_needed. ensure_step; [by apply ensures_Ok|].
  apply vault_expand_sub_vault_block_policy. by apply blocks_ok_insert.
Qed.
#[local] Hint Resolve expand_sub_vaults_if_needed_policy : ensures.

Lemma append_sub_vault_policy n v : vault_policy v →
  (∀ id, policy_ok (new_sub_vault id n)) → ensures (append_sub_vault n v) vault_policy.
Proof.
  intros Hv Hn. unfold append_sub_vault. cbv zeta.
  apply ensures_bind. eapply ensures_mono; [by apply expand_sub_vaults_if_needed_policy|].
  intros v1 Hv1. do 2 ensure_step. ensure_step. eapply ensures_mono;
    [by apply get_free_sub_vault_address_policy|]. intros [v2 i] Hv2. do 3 ensure_step.
  eapply ensures_mono; [apply (insert_ok block_policy sub_vault_payload_only); [exact Hv2|apply Hn]|].
  intros t Ht. by ensure_walk.
Qed.

Lemma remove_sub_vault_policy v id : vault_policy v →
  ensures (remove_sub_vault v id) (λ '(v', _), vault_policy v').
Proof.
  intros Hv. unfold remove_sub_vault. ensure_step. ensure_step. ensure_step; [by apply ensures_Ok|].
  do 5 ensure_step. eapply ensures_mono; [apply (remove_by_index_ok block_policy sub_vault_payload_only); exact Hv|].
  intros t Ht. by ensure_walk.
Qed.

Lemma upsert_seat_policy v o id : vault_policy v →
  ensures (upsert_sub_vault_depositor_seat v o id) (λ '(v', _), vault_policy v').
Proof.
  intros Hv. unfold upsert_sub_vault_depositor_seat. do 2 ensure_step.
  ensure_step; [by apply ensures_Ok|]. ensure_step. eapply ensures_mono;
    [by apply get_free_node_address_policy|]. intros [v1 i] Hv1. do 3 ensure_step.
  eapply ensures_mono; [apply (insert_ok block_policy seat_payload_only); [exact Hv1|exact I]|].
  intros t Ht. by ensure_walk.
Qed.

Lemma remove_seat_policy v o id : vault_policy v →
  ensures (remove_sub_vault_depositor_seat v o id) (λ '(v', _), vault_policy v').
Proof.
  intros Hv. unfold remove_sub_vault_depositor_seat. do 2 ensure_step.
  ensure_step; [by apply ensures_Ok|]. ensure_step.
  eapply ensures_mono; [apply (remove_by_index_ok block_policy seat_payload_only); exact Hv|].
  intros t Ht. by ensure_walk.
Qed.

Lemma modify_depositor_seat_policy v i f : vault_policy v →
  ensures (modify_depositor_seat v i f) vault_policy.
Proof.
  intros Hv. unfold modify_depositor_seat. ensure_step.
  eapply ensures_mono; [apply (modify_value_ok block_policy); [exact Hv|]|].
  - intros n _ a _. exact I.
  - intros d Hd. by apply ensures_Ok.
Qed.

Lemma bump_order_count_policy v id delta : vault_policy v →
  ensures (bump_sub_vault_order_count v id delta) vault_policy.
Proof.
  intros Hv. unfold bump_sub_vault_order_count. do 4 ensure_step.
  apply modify_sub_vault_policy; [done|]. keep_policy.
Qed.
#[local] Hint Resolve bump_order_count_policy : ensures.

Lemma insert_order_ref_policy v mk id side rate term seq now : vault_policy v →
  ensures (insert_sub_vault_order_ref v mk id side rate term seq now) (λ '(v', _), vault_policy v').
Proof.
  intros Hv. unfold insert_sub_vault_order_ref. do 4 ensure_step. ensure_step.
  eapply ensures_mono; [by apply get_free_node_address_policy|]. intros [v1 i] Hv1.
  do 3 ensure_step.
  eapply ensures_mono; [apply (insert_ok block_policy order_payload_only); [exact Hv1|exact I]|].
  intros t Ht. do 2 ensure_step. ensure_step.
  eapply ensures_mono; [by apply bump_order_count_policy|]. intros v2 Hv2. by apply ensures_Ok.
Qed.

Lemma remove_order_ref_policy v mk id : vault_policy v →
  ensures (remove_sub_vault_order_ref v mk id) (λ '(v', _), vault_policy v').
Proof.
  intros Hv. unfold remove_sub_vault_order_ref. do 2 ensure_step.
  ensure_step; [by apply ensures_Ok|]. ensure_step.
  eapply ensures_mono; [apply (remove_by_index_ok block_policy order_payload_only); exact Hv|].
  intros t Ht. do 2 ensure_step. ensure_step.
  eapply ensures_mono; [by apply release_node_address_policy|]. intros v1 Hv1. by ensure_walk.
Qed.

Lemma reserve_fill_policy v id atoms : vault_policy v → ensures (reserve_fill v id atoms) vault_policy.
Proof.
  intros Hv. unfold reserve_fill. do 2 ensure_step. ensure_step; [by apply ensures_Ok|].
  apply modify_sub_vault_policy; [done|]. keep_policy.
Qed.
End blocks.
#[export] Hint Resolve expand_vault_if_needed_policy append_sub_vault_policy remove_sub_vault_policy
  upsert_seat_policy remove_seat_policy modify_depositor_seat_policy insert_order_ref_policy
  remove_order_ref_policy reserve_fill_policy : ensures.
