(* ===== verification/StampSpec.v ===== *)
(** * The stamps of the loans

    A fixed loan is stamped with the origination cap and the liquidation threshold of
    the sub-vault that funds it, and with the curator's fee.  [market_policy] says that
    the stamps of every node of the queue of matched loans are those of a policy, and
    that no resting order has a negative buffer; [loan_policy] says it of a loan
    account.  The engines, the promotion and the close-outs keep both. *)
From stdpp Require Import base numbers list option gmap.
From S2P Require Import Prelude FixedPoint Loan Marginfi Oracles Ltv.
From S2P Require Import Hypertree HypertreeValues SubVault Market VaultTrees UserAccount.
From S2P Require Import Matching Runtime LoanClose Repay Keeper Promotion Deposits Claims.
From S2P Require Import Convert Admin Orders PolicySpec.
Local Open Scope Z_scope.

(** ** The stamps *)

Definition stamps_ok (origination_ltv liquidation_ltv : Z) : Prop :=
  origination_ltv + MIN_LIQ_GAP_BPS <= liquidation_ltv <= 10000 ∧ 0 < liquidation_ltv.

Definition node_policy (n : MatchedLoan) : Prop :=
  (ml_loan_type n = LoanType_as_u8 LoanType_Fixed →
     stamps_ok (ml_origination_ltv_bps n) (ml_liquidation_ltv_bps n))
  ∧ ml_curator_fee_bps_snapshot n <= MAX_CURATOR_FEE_BPS.

Definition loan_policy (l : LoanFixed) : Prop :=
  (loan_type_byte l = LoanType_as_u8 LoanType_Fixed →
     stamps_ok (loan_origination_ltv_bps l) (loan_liquidation_ltv_bps l))
  ∧ curator_fee_bps_snapshot l <= MAX_CURATOR_FEE_BPS.

Definition market_block_policy (b : MarketBlock) : Prop :=
  match b with
  | MB_loan n => node_policy (rb_value n)
  | MB_order n => 0 <= ro_ltv_buffer_bps (rb_value n)
  | _ => True
  end.

Definition market_policy (m : Market) : Prop := blocks_ok market_block_policy (mk_dynamic m).

(** The stamps of a fill on a sub-vault in policy. *)
Lemma stamps_of_policy max liq term buffer : risk_ok max liq term → 0 <= buffer →
  stamps_ok (effective_origination_cap_bps max buffer) liq.
Proof.
  unfold risk_ok, stamps_ok, effective_origination_cap_bps, saturating_sub, MIN_LIQ_GAP_BPS. lia.
Qed.

Lemma seat_block_payload_only (n n' : RBNode ClaimedSeat) :
  rb_value n' = rb_value n → market_block_policy (to_block n) → market_block_policy (to_block n').
Proof. done. Qed.
Lemma order_block_payload_only (n n' : RBNode RestingOrder) :
  rb_value n' = rb_value n → market_block_policy (to_block n) → market_block_policy (to_block n').
Proof. intros Hn. simpl. by rewrite Hn. Qed.
Lemma loan_block_payload_only (n n' : RBNode MatchedLoan) :
  rb_value n' = rb_value n → market_block_policy (to_block n) → market_block_policy (to_block n').
Proof. intros Hn. simpl. by rewrite Hn. Qed.
Lemma market_free_ok (n : FreeListNode) : market_block_policy (to_block n).
Proof. exact I. Qed.

(** ** The operations of a market *)

Section market.
Implicit Types (m : Market) (i : Z).

Lemma modify_seat_policy m i f : market_policy m → ensures (modify_seat m i f) market_policy.
Proof.
  intros Hm. unfold modify_seat. ensure_step.
  eapply ensures_mono; [apply (modify_value_ok market_block_policy); [exact Hm|]|].
  - by intros n _ a _.
  - intros d Hd. by apply ensures_Ok.
Qed.

Lemma get_order_policy m i : market_policy m → ensures (get_order m i) (λ o, 0 <= ro_ltv_buffer_bps o).
Proof.
  intros Hm. exact (read_value_ok (V:=RestingOrder) _ order_block_payload_only _ i Hm).
Qed.
Lemma get_matched_loan_policy m i : market_policy m → ensures (get_matched_loan m i) node_policy.
Proof.
  intros Hm. exact (read_value_ok (V:=MatchedLoan) _ loan_block_payload_only _ i Hm).
Qed.

Lemma modify_order_policy m i f : market_policy m →
  (∀ o, 0 <= ro_ltv_buffer_bps o → ensures (f o) (λ o', 0 <= ro_ltv_buffer_bps o')) →
  ensures (modify_order m i f) market_policy.
Proof.
  intros Hm Hf. unfold modify_order. ensure_step.
  eapply ensures_mono; [apply (modify_value_ok market_block_policy); [exact Hm|]|].
  - intros n Hn. by apply Hf.
  - intros d Hd. by apply ensures_Ok.
Qed.

Lemma get_free_address_policy m : market_policy m →
  ensures (get_free_address m) (λ '(m', _), market_policy m').
Proof.
  intros Hm. unfold get_free_address. ensure_step.
  eapply ensures_mono; [by apply (free_list_remove_ok market_block_policy)|].
  intros [[d h] i] Hd. by apply ensures_Ok.
Qed.
Lemma release_address_policy m i : market_policy m → ensures (release_address m i) market_policy.
Proof.
  intros Hm. unfold release_address. ensure_step.
  eapply ensures_mono; [by apply (free_list_add_ok market_block_policy)|].
  intros [d h] Hd. by apply ensures_Ok.
Qed.

Lemma expand_market_policy m : market_policy m → ensures (expand_market m) market_policy.
Proof.
  intros Hm. unfold expand_market, market_expand. ensure_step.
  eapply ensures_mono; [apply (free_list_add_ok market_block_policy); [done|]|].
  - by apply blocks_ok_insert.
  - intros [d h] Hd. by ensure_walk.
Qed.
End market.
#[export] Hint Resolve modify_seat_policy get_order_policy get_matched_loan_policy
  get_free_address_policy release_address_policy expand_market_policy : ensures.

Section market2.
Implicit Types (m : Market) (i : Z).

Lemma expand_market_if_needed_policy m : market_policy m →
  ensures (expand_market_if_needed m) market_policy.
Proof. intros Hm. unfold expand_market_if_needed. ensure_walk; assumption. Qed.

Lemma expand_market_to_free_blocks_policy m n : market_policy m →
  ensures (expand_market_to_free_blocks m n) market_policy.
Proof.
  unfold expand_market_to_free_blocks. generalize (Z.to_nat n). intros fuel. revert m.
  induction fuel as [|fuel IH]; intros m Hm; cbn [expand_market_loop]; ensure_walk; try assumption.
Qed.

Lemma claim_seat_with_sub_vault_policy m o k id : market_policy m →
  ensures (claim_seat_with_sub_vault m o k id) market_policy.
Proof.
  intros Hm. unfold claim_seat_with_sub_vault. do 2 ensure_step. ensure_step; [ensure_step|].
  ensure_step. eapply ensures_mono; [by apply get_free_address_policy|]. intros [m1 i] Hm1.
  do 3 ensure_step. eapply ensures_mono;
    [apply (insert_ok market_block_policy seat_block_payload_only); [exact Hm1|exact I]|].
  intros t Ht. by ensure_walk.
Qed.

Lemma rest_order_policy m i o : market_policy m → 0 <= ro_ltv_buffer_bps o →
  ensures (rest_order m i o) market_policy.
Proof.
  intros Hm Ho. unfold rest_order. ensure_step; ensure_step;
    (eapply ensures_mono;
      [apply (insert_ok market_block_policy order_block_payload_only); [exact Hm|exact Ho]|];
     intros t Ht; by apply ensures_Ok).
Qed.

Lemma remove_order_policy m i : market_policy m →
  ensures (remove_order_from_tree_and_free m i) market_policy.
Proof.
  intros Hm. unfold remove_order_from_tree_and_free. do 3 ensure_step.
  apply ensures_mono with market_policy.
  - ensure_step; ensure_step;
      (eapply ensures_mono;
        [apply (remove_by_index_ok market_block_policy order_block_payload_only); exact Hm|];
       intros t Ht; by apply ensures_Ok).
  - intros m1 Hm1. by apply release_address_policy.
Qed.

Lemma mint_matched_loan_policy m n : market_policy m → node_policy n →
  ensures (mint_matched_loan m n) (λ '(m', _), market_policy m').
Proof.
  intros Hm Hn. unfold mint_matched_loan. ensure_step.
  eapply ensures_mono; [by apply get_free_address_policy|]. intros [m1 i] Hm1. do 3 ensure_step.
  eapply ensures_mono;
    [apply (insert_ok market_block_policy loan_block_payload_only); [exact Hm1|exact Hn]|].
  intros t Ht. by ensure_walk.
Qed.

Lemma retire_node_policy m i : market_policy m → ensures (retire_node m i) market_policy.
Proof.
  intros Hm. unfold retire_node. ensure_step.
  eapply ensures_mono;
    [apply (remove_by_index_ok market_block_policy loan_block_payload_only); exact Hm|].
  intros t Ht. by apply release_address_policy.
Qed.

Lemma take_order_sequence_policy m : market_policy m →
  ensures (take_order_sequence m) (λ '(m', _), market_policy m').
Proof. intros Hm. unfold take_order_sequence. by ensure_walk. Qed.
End market2.
#[export] Hint Resolve expand_market_if_needed_policy expand_market_to_free_blocks_policy
  claim_seat_with_sub_vault_policy rest_order_policy remove_order_policy mint_matched_loan_policy
  retire_node_policy take_order_sequence_policy : ensures.

(** ** The engines *)

(** The terms read for a fill are a policy's, or there is nothing to lend. *)
Definition capacity_policy (cap : AskCapacity) : Prop :=
  (ac_idle cap =? 0) = false →
  risk_ok (ac_max_ltv_bps cap) (ac_liquidation_ltv_bps cap) (ac_max_term_seconds cap)
  ∧ ac_curator_fee_bps cap <= MAX_CURATOR_FEE_BPS.

Lemma read_ask_capacity_policy v id : vault_policy v →
  ensures (read_ask_capacity v id) capacity_policy.
Proof. intros Hv. unfold read_ask_capacity. ensure_walk; try done. intros _. assumption. Qed.
#[export] Hint Resolve read_ask_capacity_policy : ensures.

Definition optional {A} (P : A → Prop) (o : option A) : Prop :=
  match o with Some a => P a | None => True end.

(** What a scan carries. *)
Definition scan_policy (m : Market) (vo : option Vault) : Prop :=
  market_policy m ∧ optional vault_policy vo.

Definition step_policy {S} (Q : S → Prop) (st : ScanStep S) : Prop :=
  match st with Filled s => Q s | _ => True end.

(** A loop over makers, one step of which keeps [Q]. *)
Ltac scan_loop IH :=
  ensure_walk; try assumption;
  repeat match goal with st : ScanStep _ |- _ => destruct st end;
  ensure_walk; try assumption; by apply IH.

Section match_order.
Context (args : MatchArgs) (Hbuffer : 0 <= ma_ltv_buffer_bps args).
Notation state_policy := (λ s, scan_policy (ms_market s) (ms_vault s)).

Lemma fill_ask_policy s v maker id cap matched coll : state_policy s → vault_policy v →
  capacity_policy cap → (ac_idle cap =? 0) = false →
  ensures (fill_ask args s v maker id cap
      (effective_origination_cap_bps (ac_max_ltv_bps cap) (ma_ltv_buffer_bps args)) matched coll)
    state_policy.
Proof.
  intros [Hm _] Hv Hcap Hidle. destruct (Hcap Hidle) as [Hrisk Hfee].
  assert (∀ n seq o c r, node_policy (matched_loan_of args maker cap (effective_origination_cap_bps
    (ac_max_ltv_bps cap) (ma_ltv_buffer_bps args)) seq n o c r)) as Hn.
  { intros. split; [|done]. intros _. by eapply stamps_of_policy. }
  unfold fill_ask. cbv zeta. ensure_walk. by split.
Qed.
#[local] Hint Resolve fill_ask_policy : ensures.

Lemma match_maker_policy s maker : state_policy s →
  ensures (match_maker args s maker) (step_policy state_policy).
Proof.
  intros Hs. pose proof Hs as [_ Hv]. unfold match_maker. cbv zeta.
  destruct (ms_vault s) as [v|] eqn:Hvo; simpl in Hv; ensure_walk; done.
Qed.
#[local] Hint Resolve match_maker_policy : ensures.

Lemma match_loop_policy fuel s current : state_policy s →
  ensures (match_loop fuel args s current) state_policy.
Proof.
  revert s current. induction fuel as [|fuel IH]; intros s current Hs; cbn [match_loop].
  - by ensure_walk.
  - ensure_walk; done.
Qed.

Lemma match_order_policy m vo : scan_policy m vo →
  ensures (match_order m args vo) (λ '(m', vo', _), scan_policy m' vo').
Proof.
  intros Hs. unfold match_order. ensure_step. eapply ensures_mono; [by apply match_loop_policy|].
  intros s Hs'. by apply ensures_Ok.
Qed.
End match_order.
#[export] Hint Resolve match_order_policy : ensures.

Section place.
Context (args : PlaceOrderArgs) (Hbuffer : 0 <= pa_ltv_buffer_bps args).

Lemma p2pool_residual_policy m r : market_policy m →
  ensures (p2pool_residual m args r) (λ '(m', _, _), market_policy m').
Proof.
  intros Hm. assert (∀ n, ml_loan_type n = 1 → ml_curator_fee_bps_snapshot n = 0 → node_policy n) as Hn.
  { intros n Ht Hc. split; [by rewrite Ht|by rewrite Hc]. }
  unfold p2pool_residual. cbv zeta. by ensure_walk.
Qed.

Lemma rest_residual_policy m r seq : market_policy m →
  ensures (rest_residual m args r seq) market_policy.
Proof.
  intros Hm. unfold rest_residual. ensure_step. eapply ensures_mono; [by apply get_free_address_policy|].
  intros [m1 i] Hm1. do 2 ensure_step. by apply rest_order_policy.
Qed.

Lemma unencumber_atoms_policy m i side p c snap : market_policy m →
  ensures (unencumber_atoms m i side p c snap) market_policy.
Proof. intros Hm. unfold unencumber_atoms, unencumber_for_order. by ensure_walk. Qed.
#[local] Hint Resolve p2pool_residual_policy rest_residual_policy unencumber_atoms_policy : ensures.

Lemma match_borrower_bid_policy m vo : scan_policy m vo →
  ensures (match_borrower_bid m args vo) (λ '(m', vo', _), scan_policy m' vo').
Proof.
  intros [Hm Hv]. unfold match_borrower_bid, encumber_for_order. cbv zeta. do 10 ensure_step.
  ensure_step. eapply ensures_mono; [by apply modify_seat_policy|]. intros m1 Hm1. ensure_step.
  eapply ensures_mono; [by apply take_order_sequence_policy|]. intros [m2 q] Hm2. ensure_step.
  eapply ensures_mono; [by apply match_order_policy|]. intros [[m3 vo3] r] [Hm3 Hv3].
  ensure_walk; by split.
Qed.
End place.
#[export] Hint Resolve unencumber_atoms_policy match_borrower_bid_policy : ensures.

Section orders.
Implicit Types (m : Market) (i : Z).

Lemma cancel_order_by_index_policy m seat i : market_policy m →
  ensures (cancel_order_by_index m seat i) market_policy.
Proof. intros Hm. unfold cancel_order_by_index. by ensure_walk. Qed.

Lemma update_user_bid_policy m seat i rate term valid buffer now : market_policy m → 0 <= buffer →
  ensures (update_user_bid m seat i rate term valid buffer now) (λ '(m', _), market_policy m').
Proof.
  intros Hm Hb. unfold update_user_bid. cbv zeta. do 11 ensure_step.
  eapply ensures_mono;
    [apply (remove_by_index_ok market_block_policy order_block_payload_only); exact Hm|].
  intros t Ht. ensure_step. eapply ensures_mono; [by apply take_order_sequence_policy|].
  intros [m1 q] Hm1. ensure_step. eapply ensures_mono; [by apply rest_order_policy|].
  intros m2 Hm2. by apply ensures_Ok.
Qed.

Lemma rest_vault_ask_policy m args : market_policy m →
  ensures (rest_vault_ask m args) (λ '(m', _), market_policy m').
Proof.
  intros Hm. unfold rest_vault_ask. do 3 ensure_step.
  eapply ensures_mono; [by apply modify_seat_policy|]. intros m1 Hm1. ensure_step.
  eapply ensures_mono; [by apply take_order_sequence_policy|]. intros [m2 q] Hm2. ensure_step.
  eapply ensures_mono; [by apply get_free_address_policy|]. intros [m3 i] Hm3. do 3 ensure_step.
  eapply ensures_mono; [by apply rest_order_policy|]. intros m4 Hm4. by apply ensures_Ok.
Qed.
End orders.
#[export] Hint Resolve cancel_order_by_index_policy update_user_bid_policy rest_vault_ask_policy
  : ensures.

Section refinance.
Context (args : MatchP2PoolRefinanceArgs) (Hbuffer : 0 <= ra_ltv_buffer_bps args).
Notation state_policy := (λ s, scan_policy (rs_market s) (rs_vault s)).

Lemma refinance_fill_policy s v maker id cap matched : state_policy s → vault_policy v →
  capacity_policy cap → (ac_idle cap =? 0) = false →
  ensures (refinance_fill args s v maker id cap matched) state_policy.
Proof.
  intros [Hm _] Hv Hcap Hidle. destruct (Hcap Hidle) as [Hrisk Hfee].
  assert (∀ n, ml_origination_ltv_bps n = effective_origination_cap_bps (ac_max_ltv_bps cap)
      (ra_ltv_buffer_bps args) → ml_liquidation_ltv_bps n = ac_liquidation_ltv_bps cap →
    ml_curator_fee_bps_snapshot n = ac_curator_fee_bps cap → node_policy n) as Hn.
  { intros n E1 E2 E3. unfold node_policy. rewrite E1, E2, E3. split; [|done]. intros _.
    by eapply stamps_of_policy. }
  unfold refinance_fill. cbv zeta. ensure_walk. by split.
Qed.
#[local] Hint Resolve refinance_fill_policy : ensures.

Lemma refinance_maker_policy s maker : state_policy s →
  ensures (refinance_maker args s maker) (step_policy state_policy).
Proof.
  intros Hs. pose proof Hs as [_ Hv]. unfold refinance_maker. cbv zeta.
  destruct (rs_vault s) as [v|] eqn:Hvo; simpl in Hv; ensure_walk; done.
Qed.
#[local] Hint Resolve refinance_maker_policy : ensures.

Lemma refinance_loop_policy fuel s current : state_policy s →
  ensures (refinance_loop fuel args s current) state_policy.
Proof.
  revert s current. induction fuel as [|fuel IH]; intros s current Hs; cbn [refinance_loop].
  - by ensure_walk.
  - ensure_walk; done.
Qed.

Lemma match_p2pool_residual_policy m vo : scan_policy m vo →
  ensures (match_p2pool_residual_against_asks m args vo) state_policy.
Proof. intros Hs. unfold match_p2pool_residual_against_asks. by apply refinance_loop_policy. Qed.
End refinance.
#[export] Hint Resolve match_p2pool_residual_policy : ensures.

(** ** The take of resting bids *)

Definition terms_policy (max liq curator_fee : Z) : Prop :=
  (∃ term, risk_ok max liq term) ∧ curator_fee <= MAX_CURATOR_FEE_BPS.

Section resting_bids.
Context (args : MatchRestingBidsArgs).
Context (Hterms : terms_policy (ba_sub_vault_max_ltv_bps args)
  (ba_sub_vault_liquidation_ltv_bps args) (ba_ask_curator_fee_bps args)).
Notation state_policy := (λ s, scan_policy (bs_market s) (Some (bs_vault s))).

Lemma prune_bid_policy s current bid : state_policy s →
  ensures (prune_bid s current bid) state_policy.
Proof. intros [Hm Hv]. unfold prune_bid. ensure_walk. by split. Qed.

Lemma shrink_bid_policy fill c o : 0 <= ro_ltv_buffer_bps o →
  ensures (shrink_bid fill c o) (λ o', 0 <= ro_ltv_buffer_bps o').
Proof. intros Ho. unfold shrink_bid, order_reduce. ensure_walk. exact Ho. Qed.
#[local] Hint Resolve prune_bid_policy shrink_bid_policy modify_order_policy : ensures.

Lemma fill_bid_policy s current bid fill c : state_policy s → 0 <= ro_ltv_buffer_bps bid →
  ensures (fill_bid args s current bid fill c (effective_origination_cap_bps
    (ba_sub_vault_max_ltv_bps args) (ro_ltv_buffer_bps bid))) state_policy.
Proof.
  intros [Hm Hv] Hb. simpl in Hv. destruct Hterms as [[term Hrisk] Hfee].
  assert (∀ n, ml_origination_ltv_bps n = effective_origination_cap_bps
      (ba_sub_vault_max_ltv_bps args) (ro_ltv_buffer_bps bid) →
    ml_liquidation_ltv_bps n = ba_sub_vault_liquidation_ltv_bps args →
    ml_curator_fee_bps_snapshot n = ba_ask_curator_fee_bps args → node_policy n) as Hn.
  { intros n E1 E2 E3. unfold node_policy. rewrite E1, E2, E3. split; [|done]. intros _.
    by eapply stamps_of_policy. }
  unfold fill_bid. cbv zeta. ensure_walk; by split.
Qed.
#[local] Hint Resolve fill_bid_policy : ensures.

Lemma match_bid_policy s current bid : state_policy s → 0 <= ro_ltv_buffer_bps bid →
  ensures (match_bid args s current bid) (step_policy state_policy).
Proof. intros Hs Hb. pose proof Hs as [_ Hv]. unfold match_bid. cbv zeta. ensure_walk; done. Qed.
#[local] Hint Resolve match_bid_policy : ensures.

Lemma bids_loop_policy fuel s current : state_policy s →
  ensures (bids_loop fuel args s current) state_policy.
Proof.
  revert s current. induction fuel as [|fuel IH]; intros s current Hs; cbn [bids_loop].
  - by ensure_walk.
  - pose proof Hs as [Hm _]. ensure_walk; done.
Qed.

Lemma match_resting_bids_policy m v : market_policy m → vault_policy v →
  ensures (match_resting_bids m args v) state_policy.
Proof. intros Hm Hv. unfold match_resting_bids. by apply bids_loop_policy. Qed.
End resting_bids.
#[export] Hint Resolve match_resting_bids_policy : ensures.

(** ** Loans *)

Section loans.
Implicit Types (l : LoanFixed).

Lemma accrue_loan_policy l now : loan_policy l → ensures (accrue_loan l now) loan_policy.
Proof. intros Hl. unfold accrue_loan. cbv zeta. ensure_walk; assumption. Qed.

Lemma apply_partial_resolution_policy l n : loan_policy l →
  ensures (apply_partial_resolution l n) (λ '(l', _), loan_policy l').
Proof. intros Hl. unfold apply_partial_resolution. cbv zeta. ensure_walk; assumption. Qed.
#[local] Hint Resolve apply_partial_resolution_policy : ensures.

Lemma fixed_repaid_policy l n : loan_policy l → ensures (fixed_repaid l n) (λ '(l', _), loan_policy l').
Proof.
  intros Hl. unfold fixed_repaid. cbv zeta. ensure_walk. by destruct (_ =? 0).
Qed.

Lemma p2pool_repaid_policy now l s o f : loan_policy l → loan_policy (p2pool_repaid now l s o f).
Proof. intros Hl. unfold p2pool_repaid. by destruct f. Qed.

Lemma take_collateral_policy f c w l : loan_policy l → loan_policy (take_collateral f c w l).
Proof. intros Hl. unfold take_collateral. by destruct f. Qed.

Lemma resolve_fixed_policy a p g c w f l : loan_policy l →
  ensures (resolve_fixed a p g c w f l) loan_policy.
Proof.
  intros Hl. unfold resolve_fixed, move_protocol_fee, clawback_curator_fee. cbv zeta.
  apply ensures_bind. eapply ensures_mono; [by apply apply_partial_resolution_policy|].
  intros [l1 ?] Hl1. apply ensures_bind. apply ensures_mono with loan_policy; [by ensure_walk|].
  intros l2 Hl2. apply ensures_bind. apply ensures_mono with loan_policy; [by ensure_walk|].
  intros l3 Hl3. ensure_walk. by apply take_collateral_policy.
Qed.

Lemma resolve_p2pool_policy s o c w f l : loan_policy l → loan_policy (resolve_p2pool s o c w f l).
Proof. intros Hl. unfold resolve_p2pool. by apply take_collateral_policy. Qed.

Lemma residual_loan_policy now l p c s o : loan_policy l →
  ensures (residual_loan now l p c s o) loan_policy.
Proof. intros Hl. unfold residual_loan. by ensure_walk. Qed.

Lemma promoted_loan_policy ctx n ty net k id gv t fee : node_policy n →
  LoanType_from_u8 (ml_loan_type n) = Ok ty → fee <= MAX_CURATOR_FEE_BPS →
  loan_policy (promoted_loan ctx n ty net k id gv t fee).
Proof.
  intros [Hn _] Hty Hfee. split; [|done]. simpl. intros Ht. apply Hn. unfold LoanType_from_u8 in Hty.
  destruct (Z.eqb_spec (ml_loan_type n) 0) as [|_]; [done|].
  destruct (_ =? 1); [by injection Hty as <-|done].
Qed.
End loans.
#[export] Hint Resolve accrue_loan_policy fixed_repaid_policy p2pool_repaid_policy
  resolve_fixed_policy resolve_p2pool_policy residual_loan_policy : ensures.
