(* ===== verification/Program.v ===== *)
(** * The program: its instructions, and a transaction

    [lib.rs] dispatches on the first byte of the instruction data, a tag of
    [program/instruction.rs]; a handler's loader ([validation/loaders.rs]) opens the
    program's accounts before the handler runs.  The gates below are what the loaders
    ask of the program's own accounts: the discriminants, the pauses, the signer's role,
    and that the loan, the market and the vault belong together.  [step] is one
    transaction on the accounts of the whole chain. *)
From stdpp Require Import base numbers list option gmap relations.
From S2P Require Import Prelude FixedPoint Loan Marginfi Oracles Hypertree SubVault.
From S2P Require Import Market VaultTrees Matching UserAccount Runtime LoanClose Repay.
From S2P Require Import Keeper Promotion Deposits Claims Convert Admin Orders.
Local Open Scope Z_scope.

(** ** The instruction tags *)

Inductive YdeltaInstruction :=
  | CreateMarket | ClaimSeat | Deposit | Withdraw | PlaceOrder | ProcessMatchedLoan | Repay
  | SyncMarketPosition | CreateVault | CreatePoolSubVault | GlobalVaultDeposit
  | GlobalVaultWithdraw | PlaceOrderForSubVault | CancelOrderForSubVault
  | UpdateOrderForSubVault | ClaimCuratorFee | SettleMaturedLoan | LiquidateLoan
  | SetFeeConfig | ProtocolFeeClaim | ClaimRepaymentForSubVault | TransferMarketAdmin
  | AcceptMarketAdmin | TransferGlobalVaultAdmin | AcceptGlobalVaultAdmin | TransferCurator
  | AcceptCurator | SetMarketPause | CreateGlobalConfig | TransferProtocolAdmin
  | AcceptProtocolAdmin | SetGlobalPause | UpdateSubVault | ConvertP2PoolToFixed
  | CheckLtvLiquidatable | CheckMaturityLiquidatable | SetVaultPause | RemoveSubVault
  | SunsetSubVault | ResumeSubVault | AdminCancelSubVaultOrder | CreatePrivateSubVault
  | CancelOrder | MatchCrank | UpdateOrder.

#[export] Instance YdeltaInstruction_eq_dec : EqDecision YdeltaInstruction.
Proof. solve_decision. Defined.

Definition YdeltaInstruction_as_u8 (i : YdeltaInstruction) : Z :=
  match i with
  | CreateMarket => 0 | ClaimSeat => 1 | Deposit => 2 | Withdraw => 3 | PlaceOrder => 4
  | ProcessMatchedLoan => 5 | Repay => 6 | SyncMarketPosition => 7 | CreateVault => 8
  | CreatePoolSubVault => 9 | GlobalVaultDeposit => 10 | GlobalVaultWithdraw => 11
  | PlaceOrderForSubVault => 12 | CancelOrderForSubVault => 13 | UpdateOrderForSubVault => 14
  | ClaimCuratorFee => 15 | SettleMaturedLoan => 16 | LiquidateLoan => 17 | SetFeeConfig => 18
  | ProtocolFeeClaim => 19 | ClaimRepaymentForSubVault => 20 | TransferMarketAdmin => 21
  | AcceptMarketAdmin => 22 | TransferGlobalVaultAdmin => 23 | AcceptGlobalVaultAdmin => 24
  | TransferCurator => 25 | AcceptCurator => 26 | SetMarketPause => 27
  | CreateGlobalConfig => 28 | TransferProtocolAdmin => 29 | AcceptProtocolAdmin => 30
  | SetGlobalPause => 31 | UpdateSubVault => 32 | ConvertP2PoolToFixed => 33
  | CheckLtvLiquidatable => 34 | CheckMaturityLiquidatable => 35 | SetVaultPause => 36
  | RemoveSubVault => 37 | SunsetSubVault => 38 | ResumeSubVault => 39
  | AdminCancelSubVaultOrder => 40 | CreatePrivateSubVault => 41 | CancelOrder => 42
  | MatchCrank => 43 | UpdateOrder => 44
  end.

(** The derived [TryFromPrimitive]. *)
Definition YdeltaInstruction_try_from (tag : Z) : option YdeltaInstruction :=
  [CreateMarket; ClaimSeat; Deposit; Withdraw; PlaceOrder; ProcessMatchedLoan; Repay;
   SyncMarketPosition; CreateVault; CreatePoolSubVault; GlobalVaultDeposit;
   GlobalVaultWithdraw; PlaceOrderForSubVault; CancelOrderForSubVault; UpdateOrderForSubVault;
   ClaimCuratorFee; SettleMaturedLoan; LiquidateLoan; SetFeeConfig; ProtocolFeeClaim;
   ClaimRepaymentForSubVault; TransferMarketAdmin; AcceptMarketAdmin;
   TransferGlobalVaultAdmin; AcceptGlobalVaultAdmin; TransferCurator; AcceptCurator;
   SetMarketPause; CreateGlobalConfig; TransferProtocolAdmin; AcceptProtocolAdmin;
   SetGlobalPause; UpdateSubVault; ConvertP2PoolToFixed; CheckLtvLiquidatable;
   CheckMaturityLiquidatable; SetVaultPause; RemoveSubVault; SunsetSubVault; ResumeSubVault;
   AdminCancelSubVaultOrder; CreatePrivateSubVault; CancelOrder; MatchCrank; UpdateOrder]
  !! Z.to_nat tag.

(** The head of [process_instruction]: the instruction and the rest of its data. *)
Definition decode_instruction (program_id id : Pubkey) (instruction_data : list Z)
    : result (YdeltaInstruction * list Z) :=
  _ ← require (program_id =? id) IncorrectProgramId;
  match instruction_data with
  | [] => Err InvalidInstructionData
  | tag :: data =>
      i ← ok_or (YdeltaInstruction_try_from tag) InvalidInstructionData;
      mret (i, data)
  end.

(** ** The gates of the loaders *)

(** The keys under which a transaction names the program's accounts. *)
Record TxKeys := mkTxKeys { tk_market : Pubkey; tk_vault : Pubkey; tk_loan : Pubkey }.

Definition the_vault (w : World) : result Vault := ok_or (wd_vault w) Panic.

Definition market_gate (g : GlobalConfig) (m : Market) : result unit :=
  _ ← load_global_config g;
  m ← open_market m;
  require_market_not_paused m.

Definition vault_gate (v : Vault) : result unit := v ← open_vault v; require_vault_not_paused v.

(** The addresses the runtime derives: a loan from its market and sequence, a vault from
    its bank. *)
Record Pdas := mkPdas {
  loan_pda : Pubkey → Z → Pubkey;
  global_vault_pda : Pubkey → Pubkey }.

Section Gates.
  Variable pdas : Pdas.

(** The loan is at its derived address and of this market. *)
Definition loan_gate (k : TxKeys) (l : LoanFixed) : result unit :=
  _ ← loan_verify_discriminant l;
  _ ← loan_verify_version l;
  _ ← require (tk_loan k =? loan_pda pdas (tk_market k) (matched_loan_sequence l))
        IncorrectAccount;
  require (loan_market l =? tk_market k) IncorrectAccount.

(** A fixed loan brings its lender's vault. *)
Definition lender_vault_gate (k : TxKeys) (w : World) (l : LoanFixed) : result unit :=
  ty ← loan_type l;
  match ty with
  | LoanType_Fixed =>
      v ← the_vault w;
      _ ← vault_gate v;
      require (tk_vault k =? loan_lender_global_vault l) IncorrectAccount
  | LoanType_P2Pool => Ok tt
  end.

(** [PlaceOrderContext]: the vault is optional. *)
Definition place_gate (k : TxKeys) (g : GlobalConfig) (w : World) : result unit :=
  _ ← market_gate g (wd_market w);
  match wd_vault w with
  | Some v =>
      v ← open_vault v;
      _ ← require (tk_vault k =? global_vault_pda pdas (mf_debt_lending_pool (mk_fixed (wd_market w))))
            IncorrectAccount;
      require_vault_not_paused v
  | None => Ok tt
  end.

(** [PlaceOrderForSubVaultContext], [CancelOrderForSubVaultContext] and
    [MatchCrankContext]. *)
Definition book_gate (g : GlobalConfig) (w : World) : result unit :=
  _ ← load_global_config g;
  v ← the_vault w;
  _ ← vault_gate v;
  m ← open_market (wd_market w);
  _ ← require_market_not_paused m;
  require_vault_mint_matches_market v m.

(** [AdminCancelSubVaultOrderContext]: no pause stops it. *)
Definition admin_cancel_gate (g : GlobalConfig) (payer : Pubkey) (w : World) : result unit :=
  _ ← load_global_config_no_pause g;
  v ← the_vault w;
  v ← open_vault v;
  m ← open_market (wd_market w);
  _ ← require (payer =? gv_global_vault_admin (vt_fixed v)) VaultAdminRequired;
  require_vault_mint_matches_market v m.

(** [ProcessMatchedLoanContext]: the node is in the queue, the loan account is at its
    derived address and empty, and a vault that still has to pay comes with the accounts
    of its settlement; any other transaction has them ignored. *)
Definition settles_vault (m : Market) (node : MatchedLoan) : result bool :=
  if (ml_lender_seat_index node =? NIL)
     || has_flag (ml_flags node) MATCHED_LOAN_FLAG_VAULT_PRESETTLED then Ok false else
  seat ← get_seat m (ml_lender_seat_index node);
  mret (cs_owner_kind seat =? OWNER_KIND_SUB_VAULT).

Definition vault_settle_gate (k : TxKeys) (debt_bank : Pubkey) (settle : SettleAccounts) (w : World)
    : result unit :=
  v ← the_vault w;
  v ← open_vault v;
  _ ← require_vault_not_paused v;
  _ ← require (tk_vault k =? global_vault_pda pdas debt_bank) IncorrectAccount;
  _ ← require (gv_mint (vt_fixed v) =? mint_key (sa_mint settle)) VaultWrongMint;
  require (gv_lending_pool (vt_fixed v) =? debt_bank) IncorrectAccount.

Definition promotion_gate (k : TxKeys) (g : GlobalConfig) (ctx : PromotionContext) (sequence : Z)
    (w : World) : result PromotionContext :=
  _ ← market_gate g (wd_market w);
  _ ← require (pc_debt_bank ctx =? mf_debt_lending_pool (mk_fixed (wd_market w))) IncorrectAccount;
  '(node, _) ← find_queue_node (wd_market w) sequence;
  _ ← require (tk_loan k =? loan_pda pdas (tk_market k) sequence) IncorrectAccount;
  _ ← require (bool_decide (wd_loan w = None)) InvalidAccountData;
  settles ← settles_vault (wd_market w) node;
  if (settles : bool) then
    settle ← ok_or (pc_vault_settle ctx) NotEnoughAccountKeys;
    _ ← vault_settle_gate k (pc_debt_bank ctx) settle w;
    mret (mkPromotionContext (pc_payer ctx) (tk_market k) (pc_loan_bump ctx) (pc_debt_bank ctx)
            (Some settle))
  else mret (mkPromotionContext (pc_payer ctx) (tk_market k) (pc_loan_bump ctx)
               (pc_debt_bank ctx) None).

(** [RepayContext], and [SettleMaturedLoanContext] for the two keeper handlers. *)
Definition repay_gate (k : TxKeys) (g : GlobalConfig) (w : World) : result unit :=
  _ ← market_gate g (wd_market w);
  l ← the_loan w;
  _ ← loan_gate k l;
  lender_vault_gate k w l.

Definition keeper_gate (k : TxKeys) (g : GlobalConfig) (w : World) : result unit :=
  _ ← market_gate g (wd_market w);
  l ← the_loan w;
  _ ← loan_gate k l;
  ty ← loan_type l;
  _ ← require (negb (bool_decide (ty = LoanType_Fixed)) || (0 <? outstanding_debt_atoms l))
        InvalidArgument;
  lender_vault_gate k w l.

(** [CheckLtvLiquidatableContext] and [CheckMaturityLiquidatableContext]. *)
Definition check_gate (k : TxKeys) (g : GlobalConfig) (w : World) : result unit :=
  _ ← market_gate g (wd_market w);
  l ← the_loan w;
  loan_gate k l.

(** [ProtocolFeeClaimContext]. *)
Definition protocol_fee_gate (g : GlobalConfig) (payer : Pubkey) (w : World) : result unit :=
  _ ← market_gate g (wd_market w);
  require (payer =? gc_protocol_admin g) ProtocolAdminRequired.

(** [ClaimRepaymentForSubVaultContext]. *)
Definition claim_repayment_gate (g : GlobalConfig) (w : World) : result unit :=
  _ ← market_gate g (wd_market w);
  v ← the_vault w;
  _ ← vault_gate v;
  let f := mk_fixed (wd_market w) in
  _ ← require (gv_mint (vt_fixed v) =? mf_debt_mint f) VaultWrongMint;
  _ ← require (gv_lending_pool (vt_fixed v) =? mf_debt_lending_pool f) IncorrectAccount;
  require (gv_integration_pool (vt_fixed v) =? mf_marginfi_group f) IncorrectAccount.

(** [ConvertP2PoolToFixedContext]. *)
Definition convert_gate (k : TxKeys) (g : GlobalConfig) (w : World) : result unit :=
  _ ← market_gate g (wd_market w);
  l ← the_loan w;
  _ ← loan_verify_discriminant l;
  _ ← loan_verify_version l;
  _ ← require (loan_market l =? tk_market k) IncorrectAccount;
  _ ← require (loan_type_byte l =? LoanType_as_u8 LoanType_P2Pool) InvalidArgument;
  _ ← require (loan_state_byte l =? LoanState_as_u8 LoanState_Active) InvalidArgument;
  _ ← require (tk_loan k =? loan_pda pdas (tk_market k) (matched_loan_sequence l))
        IncorrectAccount;
  v ← the_vault w;
  _ ← vault_gate v;
  let debt_lending_pool := mf_debt_lending_pool (mk_fixed (wd_market w)) in
  _ ← require (tk_vault k =? global_vault_pda pdas debt_lending_pool) IncorrectAccount;
  require (gv_lending_pool (vt_fixed v) =? debt_lending_pool) IncorrectAccount.
End Gates.

(** ** The handlers behind their gates *)

(** The instructions on the accounts of one market, with their decoded data. *)
Inductive MarketIx :=
  | IxClaimSeat (payer : Pubkey)
  | IxDeposit (ctx : SeatContext) (amount_atoms : Z) (hint : option Z)
  | IxWithdraw (ctx : SeatContext) (amount_atoms : Z) (hint : option Z) (withdraw_all : bool)
  | IxPlaceOrder (ctx : BookContext) (fb : FallbackAccounts) (p : PlaceOrderParams)
  | IxCancelOrder (payer : Pubkey) (order_sequence : Z) (hint : option Z)
  | IxUpdateOrder (payer : Pubkey) (p : UpdateOrderParams)
  | IxSyncMarketPosition (owner : Pubkey)
  | IxProcessMatchedLoan (ctx : PromotionContext) (sequence : Z)
  | IxRepay (ctx : RepayContext) (p : RepayParams)
  | IxSettleMaturedLoan (ctx : KeeperContext) (data : list Z)
  | IxLiquidateLoan (ctx : KeeperContext) (data : list Z)
  | IxCheckLtvLiquidatable (ctx : KeeperContext)
  | IxCheckMaturityLiquidatable (ctx : KeeperContext)
  | IxConvertP2PoolToFixed (ctx : ConvertContext) (max_rate_bps ltv_buffer_bps : Z)
  | IxPlaceOrderForSubVault (ctx : BookContext) (curator : Pubkey) (sub_vault_id flags : Z)
  | IxUpdateOrderForSubVault (ctx : BookContext) (curator : Pubkey) (sub_vault_id flags : Z)
  | IxCancelOrderForSubVault (curator : Pubkey) (sub_vault_id : Z)
  | IxAdminCancelSubVaultOrder (payer : Pubkey) (sub_vault_id : Z)
  | IxMatchCrank (ctx : BookContext) (max_fills : Z)
  | IxClaimRepaymentForSubVault (ctx : ClaimContext) (sub_vault_id : Z)
  | IxProtocolFeeClaim (payer : Pubkey) (ctx : ProtocolFeeContext)
  | IxSetFeeConfig (payer : Pubkey) (p : SetFeeConfigParams)
  | IxTransferMarketAdmin (payer new_admin : Pubkey)
  | IxAcceptMarketAdmin (payer : Pubkey)
  | IxSetMarketPause (payer : Pubkey) (paused : Z).

(** The instructions on a vault alone. *)
Inductive VaultIx :=
  | IxCreatePoolSubVault (payer curator : Pubkey)
      (spread_bps max_ltv_bps liquidation_ltv_bps max_term_seconds curator_fee_bps : Z)
  | IxCreatePrivateSubVault (payer : Pubkey)
      (spread_bps max_ltv_bps liquidation_ltv_bps max_term_seconds : Z)
  | IxUpdateSubVault (payer : Pubkey) (sub_vault_id : Z) (p : UpdateSubVaultParams)
  | IxSunsetSubVault (payer : Pubkey) (sub_vault_id : Z)
  | IxResumeSubVault (payer : Pubkey) (sub_vault_id : Z)
  | IxRemoveSubVault (payer : Pubkey) (sub_vault_id : Z)
  | IxGlobalVaultDeposit (ctx : VaultContext) (amount_atoms sub_vault_id : Z)
  | IxGlobalVaultWithdraw (ctx : VaultContext) (shares sub_vault_id : Z)
  | IxClaimCuratorFee (ctx : CuratorContext) (sub_vault_id : Z)
  | IxTransferGlobalVaultAdmin (payer new_admin : Pubkey)
  | IxAcceptGlobalVaultAdmin (payer : Pubkey)
  | IxTransferCurator (payer : Pubkey) (sub_vault_id : Z) (new_curator : Pubkey)
  | IxAcceptCurator (payer : Pubkey) (sub_vault_id : Z)
  | IxSetVaultPause (payer : Pubkey) (paused : Z).

(** The instructions on the global configuration. *)
Inductive ConfigIx :=
  | IxTransferProtocolAdmin (payer new_admin : Pubkey)
  | IxAcceptProtocolAdmin (payer : Pubkey)
  | IxSetGlobalPause (payer : Pubkey) (paused : Z).

Definition on_market (w : World) (f : Market → result Market) : result World :=
  m ← f (wd_market w); mret (w <| wd_market := m |>).

Definition on_book (w : World) (f : Market → Vault → result (Market * Vault)) : result World :=
  v ← the_vault w;
  '(m, v) ← f (wd_market w) v;
  mret (w <| wd_market := m |> <| wd_vault := Some v |>).

Section Dispatch.
  Variable invoke_signed : MarginfiIx → list AccountInfo → result (list AccountInfo).
  Variable invoke_token : TokenIx → list AccountInfo → result (list AccountInfo).
  Variable parse_stake_state : list Z → option StakeState.
  Variable pdas : Pdas.
  Variable now : Z.

Definition process_market_ix (k : TxKeys) (g : GlobalConfig) (i : MarketIx) (w : World)
    : result World :=
  match i with
  | IxClaimSeat payer =>
      _ ← market_gate g (wd_market w); process_claim_seat (tk_market k) payer w
  | IxDeposit ctx amount hint =>
      _ ← market_gate g (wd_market w); process_deposit invoke_signed invoke_token ctx amount hint w
  | IxWithdraw ctx amount hint withdraw_all =>
      _ ← market_gate g (wd_market w);
      process_withdraw invoke_signed invoke_token ctx amount hint withdraw_all w
  | IxPlaceOrder ctx fb p =>
      _ ← place_gate pdas k g w;
      process_place_order parse_stake_state now invoke_signed ctx fb p w
  | IxCancelOrder payer sequence hint =>
      _ ← market_gate g (wd_market w); process_cancel_order (tk_market k) payer sequence hint w
  | IxUpdateOrder payer p =>
      _ ← market_gate g (wd_market w); process_update_order now (tk_market k) payer p w
  | IxSyncMarketPosition owner =>
      _ ← load_global_config g;
      _ ← open_market (wd_market w);
      process_sync_market_position (tk_market k) owner w
  | IxProcessMatchedLoan ctx sequence =>
      ctx ← promotion_gate pdas k g ctx sequence w;
      process_primary_promotion invoke_signed invoke_token ctx now sequence w
  | IxRepay ctx p =>
      _ ← repay_gate pdas k g w; process_repay invoke_signed invoke_token ctx now p w
  | IxSettleMaturedLoan ctx data =>
      _ ← keeper_gate pdas k g w; process_settle_matured_loan invoke_signed invoke_token ctx now data w
  | IxLiquidateLoan ctx data =>
      _ ← keeper_gate pdas k g w;
      process_liquidate_loan invoke_signed invoke_token parse_stake_state ctx now data w
  | IxCheckLtvLiquidatable ctx =>
      _ ← check_gate pdas k g w;
      _ ← process_check_ltv_liquidatable parse_stake_state ctx now w; mret w
  | IxCheckMaturityLiquidatable ctx =>
      _ ← check_gate pdas k g w;
      _ ← process_check_maturity_liquidatable ctx now w; mret w
  | IxConvertP2PoolToFixed ctx max_rate buffer =>
      _ ← convert_gate pdas k g w;
      process_convert_p2pool_to_fixed invoke_signed parse_stake_state ctx now max_rate buffer w
  | IxPlaceOrderForSubVault ctx curator id flags =>
      _ ← book_gate g w;
      on_book w (process_place_order_for_sub_vault parse_stake_state now ctx (tk_vault k) curator
                   id flags (wd_ledger w))
  | IxUpdateOrderForSubVault ctx curator id flags =>
      _ ← book_gate g w;
      on_book w (process_update_order_for_sub_vault parse_stake_state now ctx (tk_vault k) curator
                   id flags (wd_ledger w))
  | IxCancelOrderForSubVault curator id =>
      _ ← book_gate g w;
      on_book w (process_cancel_order_for_sub_vault (tk_vault k) (tk_market k) curator id)
  | IxAdminCancelSubVaultOrder payer id =>
      _ ← admin_cancel_gate g payer w;
      on_book w (process_admin_cancel_sub_vault_order (tk_vault k) (tk_market k) id)
  | IxMatchCrank ctx max_fills =>
      _ ← book_gate g w;
      on_book w (λ m v,
        '(m, v, _) ← process_match_crank parse_stake_state now ctx max_fills (wd_ledger w) m v;
        mret (m, v))
  | IxClaimRepaymentForSubVault ctx id =>
      _ ← claim_repayment_gate g w;
      process_claim_repayment_for_sub_vault invoke_signed invoke_token ctx id w
  | IxProtocolFeeClaim payer ctx =>
      _ ← protocol_fee_gate g payer w;
      '(m, l) ← process_protocol_fee_claim invoke_signed invoke_token ctx (wd_market w)
                  (wd_ledger w);
      mret (w <| wd_market := m |> <| wd_ledger := l |>)
  | IxSetFeeConfig payer p => on_market w (process_set_fee_config g payer p)
  | IxTransferMarketAdmin payer new_admin =>
      on_market w (process_transfer_market_admin g payer new_admin)
  | IxAcceptMarketAdmin payer => on_market w (process_accept_market_admin g payer)
  | IxSetMarketPause payer paused => on_market w (process_set_market_pause g payer paused)
  end.

(** The deposits, the withdrawals and the curator's claim share one gate. *)
Definition vault_service_gate (g : GlobalConfig) (v : Vault) : result unit :=
  _ ← load_global_config g; vault_gate v.

Definition process_vault_ix (g : GlobalConfig) (i : VaultIx) (v : Vault) (u : UserAccount)
    (l : Ledger) : result Vault :=
  match i with
  | IxCreatePoolSubVault payer curator spread max liq term fee =>
      process_create_pool_sub_vault g payer curator spread max liq term fee v
  | IxCreatePrivateSubVault payer spread max liq term =>
      process_create_private_sub_vault g payer spread max liq term v
  | IxUpdateSubVault payer id p => process_update_sub_vault g payer id p v
  | IxSunsetSubVault payer id => process_sunset_sub_vault g payer id v
  | IxResumeSubVault payer id => process_resume_sub_vault g payer id v
  | IxRemoveSubVault payer id => process_remove_sub_vault g payer id v
  | IxGlobalVaultDeposit ctx amount id =>
      _ ← vault_service_gate g v;
      '(v, _, _) ← process_global_vault_deposit invoke_signed invoke_token ctx now amount id v u l;
      mret v
  | IxGlobalVaultWithdraw ctx shares id =>
      _ ← vault_service_gate g v;
      '(v, _, _) ← process_global_vault_withdraw invoke_signed invoke_token ctx now shares id v u l;
      mret v
  | IxClaimCuratorFee ctx id =>
      _ ← vault_service_gate g v;
      '(v, _) ← process_claim_curator_fee invoke_signed invoke_token ctx id v l;
      mret v
  | IxTransferGlobalVaultAdmin payer new_admin =>
      process_transfer_global_vault_admin g payer new_admin v
  | IxAcceptGlobalVaultAdmin payer => process_accept_global_vault_admin g payer v
  | IxTransferCurator payer id new_curator => process_transfer_curator g payer id new_curator v
  | IxAcceptCurator payer id => process_accept_curator g payer id v
  | IxSetVaultPause payer paused => process_set_vault_pause g payer paused v
  end.
End Dispatch.

Definition process_config_ix (i : ConfigIx) (g : GlobalConfig) : result GlobalConfig :=
  match i with
  | IxTransferProtocolAdmin payer new_admin => process_transfer_protocol_admin payer new_admin g
  | IxAcceptProtocolAdmin payer => process_accept_protocol_admin payer g
  | IxSetGlobalPause payer paused => process_set_global_pause payer paused g
  end.

(** ** The chain *)

(** The program's accounts, by key. *)
Record System := mkSystem {
  sy_config : option GlobalConfig;
  sy_markets : gmap Pubkey Market;
  sy_vaults : gmap Pubkey Vault;
  sy_loans : gmap Pubkey LoanFixed }.

#[export] Instance eta_System : Eta System := λ s,
  mkSystem (sy_config s) (sy_markets s) (sy_vaults s) (sy_loans s).

Definition initial_system : System := mkSystem None ∅ ∅ ∅.

(** The accounts a transaction names: the market, the vault if it brings one, and the
    loan account if there is one at its address; its user account and the accounts of
    other programs are whatever they are. *)
Definition open_world (s : System) (k : TxKeys) (with_vault : bool) (u : UserAccount) (l : Ledger)
    : option World :=
  m ← sy_markets s !! tk_market k;
  vault ← (if with_vault then v ← sy_vaults s !! tk_vault k; Some (Some v) else Some None);
  Some (mkWorld m vault (sy_loans s !! tk_loan k) u l).

(** Writing them back: a loan account that was closed is gone, one that was promoted is
    there. *)
Definition close_world (s : System) (k : TxKeys) (w : World) : System :=
  mkSystem (sy_config s) (<[tk_market k := wd_market w]> (sy_markets s))
    (match wd_vault w with Some v => <[tk_vault k := v]> (sy_vaults s) | None => sy_vaults s end)
    (match wd_loan w with
     | Some x => <[tk_loan k := x]> (sy_loans s)
     | None => delete (tk_loan k) (sy_loans s)
     end).

(** The parameters the program does not define: the calls into the marginfi and token
    programs, the stake-state decoder, the derived addresses. *)
Record Env := mkEnv {
  env_invoke_signed : MarginfiIx → list AccountInfo → result (list AccountInfo);
  env_invoke_token : TokenIx → list AccountInfo → result (list AccountInfo);
  env_parse_stake_state : list Z → option StakeState;
  env_vault_address : Pubkey → Pubkey → Pubkey * Z;
  env_pdas : Pdas }.

(** The instruction data that reach a handler as [u16], and the collateral as [u64]. *)
Definition decoded (i : MarketIx) : Prop :=
  match i with
  | IxPlaceOrder _ _ p => in_u U16 (pp_ltv_buffer_bps p) ∧ in_u U64 (pp_collateral_atoms p)
  | IxUpdateOrder _ p => in_u U16 (uo_new_ltv_buffer_bps p)
  | IxConvertP2PoolToFixed _ _ buffer => in_u U16 buffer
  | _ => True
  end.

(** The seat hint of an instruction, if it has one, does not imitate a seat.  Placing an
    order resolves its hint after the account has grown, and again after matching. *)
Definition honest_ix (i : MarketIx) (m : Market) : Prop :=
  match i with
  | IxDeposit ctx _ hint | IxWithdraw ctx _ hint _ => honest_hint m (sc_payer ctx) hint
  | IxCancelOrder payer _ hint => honest_hint m payer hint
  | IxUpdateOrder payer p => honest_hint m payer (uo_seat_index_hint p)
  | IxPlaceOrder _ _ p => plain_hint m (pp_seat_index_hint p)
  | _ => True
  end.

(** One successful transaction whose market instruction is [allowed] on the market it
    loads; the clock is an [i64]. *)
Inductive step_if (allowed : MarketIx → Market → Prop) (env : Env) (s : System) : System → Prop :=
  | step_market_ix k with_vault u l now g i w w' :
      sy_config s = Some g → in_i 64 now → decoded i →
      open_world s k with_vault u l = Some w →
      process_market_ix (env_invoke_signed env) (env_invoke_token env) (env_parse_stake_state env)
        (env_pdas env) now k g i w = Ok w' →
      allowed i (wd_market w) →
      step_if allowed env s (close_world s k w')
  | step_vault_ix key u l now g i v v' :
      sy_config s = Some g → in_i 64 now → sy_vaults s !! key = Some v →
      process_vault_ix (env_invoke_signed env) (env_invoke_token env) now g i v u l = Ok v' →
      step_if allowed env s (s <| sy_vaults := <[key := v']> (sy_vaults s) |>)
  | step_config_ix g i g' :
      sy_config s = Some g → process_config_ix i g = Ok g' →
      step_if allowed env s (s <| sy_config := Some g' |>)
  | step_create_market g payer keys debt_mint collateral_mint p m :
      sy_config s = Some g → sy_markets s !! ck_market keys = None →
      process_create_market (env_vault_address env) g payer keys debt_mint collateral_mint p = Ok m →
      step_if allowed env s (s <| sy_markets := <[ck_market keys := m]> (sy_markets s) |>)
  | step_create_vault key g payer mint group account signer pool bump v :
      sy_config s = Some g → sy_vaults s !! key = None →
      process_create_vault g payer mint group account signer pool bump = Ok v →
      step_if allowed env s (s <| sy_vaults := <[key := v]> (sy_vaults s) |>)
  | step_create_global_config payer data_key loader data key expected existing g :
      sy_config s = None →
      process_create_global_config payer data_key loader data key expected existing = Ok g →
      step_if allowed env s (s <| sy_config := Some g |>).

Arguments step_market_ix {allowed} env s k with_vault u l now g i w w' _ _ _ _ _ _.
Arguments step_vault_ix {allowed} env s key u l now g i v v' _ _ _ _.
Arguments step_config_ix {allowed} env s g i g' _ _.
Arguments step_create_market {allowed} env s g payer keys debt_mint collateral_mint p m _ _ _.
Arguments step_create_vault {allowed} env s key g payer mint group account signer pool bump v _ _ _.
Arguments step_create_global_config {allowed} env s payer data_key loader data key expected existing
  g _ _.

(** Any transaction.  After a hint that imitates a seat the model stops where the program
    goes on, so what is proved of [reachable] is proved of the runs without one. *)
Definition step : Env → System → System → Prop := step_if (λ _ _, True).
Definition reachable (env : Env) : System → Prop := rtc (step env) initial_system.

(** The runs in which no hint imitates a seat, and the model and the program agree. *)
Definition honest_step : Env → System → System → Prop := step_if honest_ix.
Definition honestly_reachable (env : Env) : System → Prop := rtc (honest_step env) initial_system.

Lemma honest_step_step env s s' : honest_step env s s' → step env s s'.
Proof.
  intros []; [by eapply step_market_ix|by eapply step_vault_ix|by eapply step_config_ix|..];
    [by eapply step_create_market|by eapply step_create_vault|by eapply step_create_global_config].
Qed.

Lemma honestly_reachable_reachable env s : honestly_reachable env s → reachable env s.
Proof. apply rtc_subrel. intros ? ?. apply honest_step_step. Qed.
