(* ===== verification/SystemSpec.v ===== *)
(** * What every transaction keeps

    [system_policy]: every sub-vault of every vault, every queue node and resting order of
    every market and every loan account are in policy.  It holds of the empty chain and
    each transaction of [Program] keeps it, whatever the other programs do: the calls
    into marginfi and the token programs, the oracles and the clock are arbitrary. *)
From stdpp Require Import base numbers list option gmap relations.
From S2P Require Import Prelude FixedPoint Loan Marginfi Oracles Ltv.
From S2P Require Import Hypertree HypertreeValues SubVault Market VaultTrees UserAccount.
From S2P Require Import Matching Runtime LoanClose Repay Keeper Promotion Deposits Claims.
From S2P Require Import Convert Admin Orders PolicySpec StampSpec Program.
From S2P Require Import HypertreeFrame HypertreeSpec HypertreeOrder MarketSpec VaultSpec MatchingSpec.
Local Open Scope Z_scope.

(** ** Worlds *)

Definition world_policy (w : World) : Prop :=
  market_policy (wd_market w) ∧ optional vault_policy (wd_vault w)
  ∧ optional loan_policy (wd_loan w).

(** Rewriting the parts of a world. *)
Lemma world_policy_intro w m vo lo u l :
  market_policy m → optional vault_policy vo → optional loan_policy lo →
  world_policy (w <| wd_market := m |> <| wd_vault := vo |> <| wd_loan := lo |> <| wd_user := u |>
                  <| wd_ledger := l |>).
Proof. by split. Qed.

Lemma ensures_optional {A} (P : A → Prop) (o : option A) e : optional P o → ensures (ok_or o e) P.
Proof. intros Ho a H%ok_or_Ok. by subst o. Qed.
#[local] Hint Resolve ensures_optional : ensures.
#[local] Hint Extern 1 (keeps_policy _) =>
  (let H := fresh in intros ? H; solve [ensure_walk; first [assumption|exact H]]) : ensures.

Section trading.
Context (invoke_signed : MarginfiIx → list AccountInfo → result (list AccountInfo)).
Context (invoke_token : TokenIx → list AccountInfo → result (list AccountInfo)).
Context (parse : list Z → option StakeState) (now : Z).
Implicit Types (w : World) (m : Market) (v : Vault).

(** A handler that writes a market and a vault. *)
Definition book_policy (f : Market → Vault → result (Market * Vault)) : Prop :=
  ∀ m v, market_policy m → vault_policy v →
    ensures (f m v) (λ '(m', v'), market_policy m' ∧ vault_policy v').

Lemma take_resting_bids_policy ctx l a n m v : market_policy m → vault_policy v →
  terms_policy (at_max_ltv_bps a) (at_liquidation_ltv_bps a) (at_curator_fee_bps a) →
  ensures (take_resting_bids parse now ctx l a n m v)
    (λ '(m', v', _), market_policy m' ∧ vault_policy v').
Proof.
  intros Hm Hv Ha. unfold take_resting_bids. cbv zeta. do 2 ensure_step.
  ensure_step; [by apply ensures_Ok|]. ensure_step.
  eapply ensures_mono; [by apply expand_market_to_free_blocks_policy|]. intros m1 Hm1.
  do 7 ensure_step. eapply ensures_mono; [by apply match_resting_bids_policy|].
  intros s [Hs1 Hs2]. apply ensures_Ok. by split.
Qed.

Lemma sub_vault_of_policy v id : vault_policy v → ensures (sub_vault_of v id) policy_ok.
Proof. intros Hv. unfold sub_vault_of. by ensure_walk. Qed.

Lemma policy_terms s : policy_ok s →
  terms_policy (sv_max_ltv_bps s) (sv_liquidation_ltv_bps s) (sv_curator_fee_bps s).
Proof. intros [Hr Hf]. split; [by eexists|done]. Qed.

Lemma sub_vault_seat_policy m k id : market_policy m →
  ensures (sub_vault_seat m k id) (λ '(m', _), market_policy m').
Proof. intros Hm. unfold sub_vault_seat. ensure_walk; assumption. Qed.

Lemma record_order_ref_policy v mk id rate term seq : vault_policy v →
  ensures (record_order_ref now v mk id rate term seq) vault_policy.
Proof.
  intros Hv. unfold record_order_ref. ensure_step.
  eapply ensures_mono; [by apply expand_vault_if_needed_policy|]. intros v1 Hv1. ensure_step.
  eapply ensures_mono; [by apply insert_order_ref_policy|]. by intros [v2 i].
Qed.
Hint Resolve sub_vault_of_policy sub_vault_seat_policy record_order_ref_policy : ensures.

Lemma place_for_sub_vault_policy ctx k c id fl l :
  book_policy (process_place_order_for_sub_vault parse now ctx k c id fl l).
Proof.
  intros m v Hm Hv. unfold process_place_order_for_sub_vault. cbv zeta. ensure_step.
  eapply ensures_mono; [by apply sub_vault_of_policy|]. intros s Hs. do 5 ensure_step.
  eapply ensures_mono; [by apply sub_vault_seat_policy|]. intros [m1 i] Hm1. ensure_step.
  eapply ensures_mono; [by apply rest_vault_ask_policy|]. intros [m2 q] Hm2. do 3 ensure_step.
  eapply ensures_mono; [apply take_resting_bids_policy; [done|done|by apply policy_terms]|].
  intros [[m3 v3] n] [Hm3 Hv3]. ensure_walk. by split.
Qed.

Lemma update_for_sub_vault_policy ctx k c id fl l :
  book_policy (process_update_order_for_sub_vault parse now ctx k c id fl l).
Proof.
  intros m v Hm Hv. unfold process_update_order_for_sub_vault. cbv zeta. ensure_step.
  eapply ensures_mono; [by apply sub_vault_of_policy|]. intros s Hs. do 11 ensure_step.
  eapply ensures_mono; [by apply expand_market_if_needed_policy|]. intros m1 Hm1. do 3 ensure_step.
  eapply ensures_mono; [by apply cancel_order_by_index_policy|]. intros m2 Hm2. ensure_step.
  eapply ensures_mono; [by apply rest_vault_ask_policy|]. intros [m3 q] Hm3. ensure_step.
  eapply ensures_mono; [by apply remove_order_ref_policy|]. intros [v1 i] Hv1. ensure_step.
  eapply ensures_mono; [by apply record_order_ref_policy|]. intros v2 Hv2. ensure_step.
  eapply ensures_mono; [apply take_resting_bids_policy; [done|done|by apply policy_terms]|].
  intros [[m4 v4] n] [Hm4 Hv4]. by apply ensures_Ok.
Qed.

Lemma cancel_sub_vault_ask_policy gate k mk id : book_policy (cancel_sub_vault_ask gate k mk id).
Proof. intros m v Hm Hv. unfold cancel_sub_vault_ask. ensure_walk. by split. Qed.

Lemma crank_walk_policy ctx l floor budget total asks m v : market_policy m → vault_policy v →
  ensures (crank_walk parse now ctx l floor budget total asks m v)
    (λ '(m', v', _), market_policy m' ∧ vault_policy v').
Proof.
  revert budget total m v. induction asks as [|a asks IH]; intros budget total m v Hm Hv;
    cbn [crank_walk]; [by apply ensures_Ok|]. ensure_step; [by apply ensures_Ok|]. ensure_step.
  apply ensures_mono with (λ '(m', v', _), market_policy m' ∧ vault_policy v').
  - unfold crank_ask. ensure_step; [by apply ensures_Ok|]. do 2 ensure_step.
    ensure_step; [by apply ensures_Ok|]. ensure_step.
    eapply ensures_mono; [by apply get_sub_vault_policy|]. intros s Hs.
    apply take_resting_bids_policy; [done|done|by apply policy_terms].
  - intros [[m1 v1] n] [Hm1 Hv1]. by apply IH.
Qed.

Lemma match_crank_policy ctx n l m v : market_policy m → vault_policy v →
  ensures (process_match_crank parse now ctx n l m v)
    (λ '(m', v', _), market_policy m' ∧ vault_policy v').
Proof.
  intros Hm Hv. unfold process_match_crank. do 6 ensure_step. by apply crank_walk_policy.
Qed.
End trading.

(** ** The handlers, one by one *)

Section handlers.
Context (invoke_signed : MarginfiIx → list AccountInfo → result (list AccountInfo)).
Context (invoke_token : TokenIx → list AccountInfo → result (list AccountInfo)).
Context (parse : list Z → option StakeState) (now : Z).
Implicit Types (w : World) (m : Market) (v : Vault).

Definition keeps_world (f : World → result World) : Prop :=
  ∀ w, world_policy w → ensures (f w) world_policy.

(** Closes the goals a walk leaves: the parts of the world are in policy. *)
Ltac world_done := first [assumption | split; [|split]; simpl; first [assumption | done]].

Lemma claim_seat_keeps k payer : keeps_world (process_claim_seat k payer).
Proof.
  intros w (Hm & Hv & Hl). unfold process_claim_seat, claim_seat. ensure_walk. world_done.
Qed.

Lemma deposit_to_seat_policy m i n d : market_policy m → ensures (deposit_to_seat m i n d) market_policy.
Proof. apply modify_seat_policy. Qed.
Lemma withdraw_from_seat_policy m i n d : market_policy m →
  ensures (withdraw_from_seat m i n d) market_policy.
Proof. apply modify_seat_policy. Qed.
Hint Resolve deposit_to_seat_policy withdraw_from_seat_policy : ensures.

Lemma deposit_keeps ctx n h : keeps_world (process_deposit invoke_signed invoke_token ctx n h).
Proof. intros w (Hm & Hv & Hl). unfold process_deposit. cbv zeta. ensure_walk. world_done. Qed.

Lemma withdraw_keeps ctx n h a : keeps_world (process_withdraw invoke_signed invoke_token ctx n h a).
Proof. intros w (Hm & Hv & Hl). unfold process_withdraw. cbv zeta. ensure_walk; world_done. Qed.

Lemma record_fallback_policy m payer h i o c : market_policy m →
  ensures (record_fallback m payer h i o c) market_policy.
Proof.
  intros Hm. unfold record_fallback. ensure_step. apply ensures_mono with market_policy.
  - ensure_walk; assumption.
  - intros m1 Hm1. ensure_step. eapply ensures_mono;
      [apply (modify_value_ok (V:=MatchedLoan) market_block_policy); [exact Hm1|]|].
    + intros n Hn. apply ensures_Ok. exact Hn.
    + intros d Hd. by apply ensures_Ok.
Qed.
Hint Resolve record_fallback_policy : ensures.

Lemma place_order_args_buffer ctx p l :
  ensures (place_order_args parse now ctx p l) (λ f, ∀ i, pa_ltv_buffer_bps (f i) = pp_ltv_buffer_bps p).
Proof. unfold place_order_args. by ensure_walk. Qed.

Lemma place_order_keeps ctx fb p : in_u U16 (pp_ltv_buffer_bps p) →
  keeps_world (process_place_order parse now invoke_signed ctx fb p).
Proof.
  intros Hb w (Hm & Hv & Hl). unfold process_place_order. cbv zeta. ensure_step.
  eapply ensures_mono; [by apply expand_market_if_needed_policy|]. intros m1 Hm1. ensure_step.
  eapply ensures_mono; [apply place_order_args_buffer|]. intros f Hf. do 7 ensure_step.
  eapply ensures_mono; [by apply expand_market_to_free_blocks_policy|]. intros m2 Hm2.
  do 3 ensure_step. eapply ensures_mono.
  - apply match_borrower_bid_policy; [rewrite Hf; apply Hb|by split].
  - intros [[m3 v3] r] [Hm3 Hv3]. ensure_step.
    apply ensures_mono with (λ '(m', _), market_policy m'); [ensure_walk; assumption|].
    intros [m4 l4] Hm4. ensure_walk; world_done.
Qed.

Lemma cancel_order_keeps k payer q h : keeps_world (process_cancel_order k payer q h).
Proof. intros w (Hm & Hv & Hl). unfold process_cancel_order. ensure_walk. world_done. Qed.

Lemma update_order_keeps k payer p : in_u U16 (uo_new_ltv_buffer_bps p) →
  keeps_world (process_update_order now k payer p).
Proof.
  intros [Hb _] w (Hm & Hv & Hl). unfold process_update_order. ensure_walk. world_done.
Qed.

Lemma sync_keeps k o : keeps_world (process_sync_market_position k o).
Proof. intros w (Hm & Hv & Hl). unfold process_sync_market_position. ensure_walk. world_done. Qed.

(** The life cycle of a loan. *)
Lemma find_queue_node_policy m q : market_policy m →
  ensures (find_queue_node m q) (λ '(n, _), node_policy n).
Proof. intros Hm. unfold find_queue_node. by ensure_walk. Qed.

Lemma do_vault_settle_keeps ctx p a r c id : keeps_world
  (do_vault_settle invoke_signed invoke_token ctx now p a r c id).
Proof.
  intros w Hw. pose proof Hw as (Hm & Hv & Hl). unfold do_vault_settle. cbv zeta.
  ensure_walk; world_done.
Qed.

Lemma promotion_keeps ctx q :
  keeps_world (process_primary_promotion invoke_signed invoke_token ctx now q).
Proof.
  intros w (Hm & Hv & Hl). unfold process_primary_promotion. cbv zeta. ensure_step.
  eapply ensures_mono; [by apply find_queue_node_policy|]. intros [n i] Hn. forget. ensure_step.
  intros ty Hty. do 2 forget. do 4 forget.
  match goal with |- context [promoted_loan ?a ?b ?c ?d ?e ?f ?g ?h ?k] =>
    assert (loan_policy (promoted_loan a b c d e f g h k)) as Hloan end.
  { apply promoted_loan_policy; [done|done|]. destruct Hn as [_ Hn]. by destruct (_ =? _). }
  apply ensures_bind. apply ensures_mono with world_policy.
  - ensure_step; [|by apply ensures_Ok]. forget. by apply do_vault_settle_keeps.
  - intros w' (Hm' & Hv' & Hl'). ensure_walk; world_done.
Qed.

(** Closing out a loan. *)
Lemma credit_lender_policy m i f c full : market_policy m →
  ensures (credit_lender m i f c full) market_policy.
Proof.
  intros Hm. unfold credit_lender. apply ensures_bind, ensures_mono with market_policy.
  - ensure_walk; assumption.
  - intros m1 Hm1. by ensure_walk.
Qed.
Lemma release_borrower_policy m i n snap : market_policy m →
  ensures (release_borrower m i n snap) market_policy.
Proof.
  intros Hm. unfold release_borrower, release_loan_collateral.
  apply ensures_bind, ensures_mono with market_policy; [ensure_walk; assumption|].
  intros m1 Hm1. by ensure_walk.
Qed.
Hint Resolve credit_lender_policy release_borrower_policy : ensures.

Lemma close_out_vault_keeps id bank c : keeps_world (λ w, close_out_vault w id bank c now).
Proof. intros w (Hm & Hv & Hl). unfold close_out_vault. ensure_walk. world_done. Qed.

Lemma sync_position_keeps k o : keeps_world (λ w, sync_position w k o).
Proof. intros w (Hm & Hv & Hl). unfold sync_position. ensure_walk. world_done. Qed.
Lemma drop_open_loan_ref_keeps k : keeps_world (λ w, drop_open_loan_ref w k).
Proof. intros w (Hm & Hv & Hl). unfold drop_open_loan_ref. ensure_walk. world_done. Qed.
Lemma close_loan_policy w : world_policy w → world_policy (close_loan w).
Proof. by intros (? & ? & ?). Qed.

Lemma repay_p2pool_keeps ctx p w loan : world_policy w → loan_policy loan →
  ensures (repay_p2pool invoke_signed invoke_token ctx now p w loan) world_policy.
Proof.
  intros (Hm & Hv & Hl) Hloan. unfold repay_p2pool. cbv zeta. do 17 forget. apply ensures_bind. eapply ensures_mono.
  { apply sync_position_keeps. split; [done|split; [done|]]. by apply p2pool_repaid_policy. }
  intros w1 Hw1. pose proof Hw1 as (Hm1 & Hv1 & Hl1). ensure_step; [|by apply ensures_Ok].
  apply ensures_bind. eapply ensures_mono; [by apply release_borrower_policy|]. intros m2 Hm2.
  apply ensures_bind. eapply ensures_mono; [apply drop_open_loan_ref_keeps; by world_done|].
  intros w2 Hw2. apply ensures_Ok. by apply close_loan_policy.
Qed.

Lemma repay_fixed_keeps ctx p w loan : world_policy w → loan_policy loan →
  ensures (repay_fixed invoke_signed invoke_token ctx now p w loan) world_policy.
Proof.
  intros (Hm & Hv & Hl) Hloan. unfold repay_fixed. cbv zeta. do 3 forget. apply ensures_bind.
  eapply ensures_mono; [by apply fixed_repaid_policy|]. intros [loan' full] Hloan'. do 2 forget.
  apply ensures_bind. eapply ensures_mono; [by apply credit_lender_policy|]. intros m1 Hm1.
  apply ensures_bind, ensures_mono with market_policy; [ensure_walk; assumption|]. intros m2 Hm2.
  apply ensures_bind, ensures_mono with world_policy.
  { ensure_step; [apply close_out_vault_keeps|apply ensures_Ok]; world_done. }
  intros w1 Hw1. apply ensures_bind. eapply ensures_mono; [by apply sync_position_keeps|].
  intros w2 Hw2. ensure_step; [|by apply ensures_Ok]. apply ensures_bind.
  eapply ensures_mono; [by apply drop_open_loan_ref_keeps|]. intros w3 Hw3. apply ensures_Ok.
  by apply close_loan_policy.
Qed.

Lemma the_loan_policy w : world_policy w → ensures (the_loan w) loan_policy.
Proof. intros (_ & _ & Hl). by apply ensures_optional. Qed.

Lemma repay_keeps ctx p : keeps_world (process_repay invoke_signed invoke_token ctx now p).
Proof.
  intros w Hw. unfold process_repay. apply ensures_bind.
  eapply ensures_mono; [by apply the_loan_policy|]. intros l Hl. forget. apply ensures_bind.
  eapply ensures_mono; [by apply accrue_loan_policy|]. intros l' Hl'. do 3 forget.
  ensure_step; [by apply repay_fixed_keeps|by apply repay_p2pool_keeps].
Qed.

Lemma keeper_close_out_keeps ctx w loan ty pm : world_policy w →
  ensures (keeper_close_out ctx now w loan ty pm) world_policy.
Proof.
  intros Hw. pose proof Hw as (Hm & Hv & Hl). unfold keeper_close_out. cbv zeta.
  apply ensures_bind, ensures_mono with world_policy.
  - ensure_step; [|by apply ensures_Ok]. do 2 forget. apply ensures_bind.
    eapply ensures_mono; [by apply credit_lender_policy|]. intros m1 Hm1.
    ensure_step; [apply close_out_vault_keeps|apply ensures_Ok]; world_done.
  - intros w1 Hw1. apply ensures_Ok. destruct (pm_full pm); [by apply close_loan_policy|done].
Qed.

Lemma open_and_accrue_policy w : world_policy w → ensures (open_and_accrue now w) loan_policy.
Proof.
  intros Hw. unfold open_and_accrue. apply ensures_bind.
  eapply ensures_mono; [by apply the_loan_policy|]. intros l Hl. forget. by apply accrue_loan_policy.
Qed.

Lemma settle_borrower_seat_policy m l n f : market_policy m →
  ensures (settle_borrower_seat m l n f) market_policy.
Proof. intros Hm. unfold settle_borrower_seat. ensure_walk; assumption. Qed.
Lemma liquidate_borrower_seat_policy m l n f : market_policy m →
  ensures (liquidate_borrower_seat m l n f) market_policy.
Proof. intros Hm. unfold liquidate_borrower_seat. ensure_walk; assumption. Qed.

(** The loan after a keeper's payment. *)
Lemma keeper_resolved_policy (ty : LoanType) a p g c x pm l : loan_policy l →
  ensures (match ty with
           | LoanType_P2Pool => Ok (resolve_p2pool (pm_loan_shares pm) (pm_outstanding pm) c x
                                      (pm_full pm) l)
           | LoanType_Fixed => resolve_fixed a p g c x (pm_full pm) l
           end) loan_policy.
Proof.
  intros Hl. destruct ty; [by apply resolve_fixed_policy|]. apply ensures_Ok.
  by apply resolve_p2pool_policy.
Qed.

Lemma settle_keeps ctx data :
  keeps_world (process_settle_matured_loan invoke_signed invoke_token ctx now data).
Proof.
  intros w Hw. pose proof Hw as (Hm & Hv & _). unfold process_settle_matured_loan. cbv zeta. forget.
  apply ensures_bind. eapply ensures_mono; [by apply open_and_accrue_policy|]. intros l Hl.
  do 13 forget. apply ensures_bind. eapply ensures_mono; [by apply settle_borrower_seat_policy|].
  intros m1 Hm1. forget. apply ensures_bind.
  eapply ensures_mono; [by apply keeper_resolved_policy|]. intros l' Hl'.
  apply keeper_close_out_keeps. by split.
Qed.

Lemma liquidate_keeps ctx data :
  keeps_world (process_liquidate_loan invoke_signed invoke_token parse ctx now data).
Proof.
  intros w Hw. pose proof Hw as (Hm & Hv & _). unfold process_liquidate_loan. cbv zeta. forget.
  apply ensures_bind. eapply ensures_mono; [by apply open_and_accrue_policy|]. intros l Hl.
  do 9 forget. apply ensures_bind. eapply ensures_mono; [by apply liquidate_borrower_seat_policy|].
  intros m1 Hm1. forget. apply ensures_bind.
  eapply ensures_mono; [by apply keeper_resolved_policy|]. intros l' Hl'.
  apply keeper_close_out_keeps. by split.
Qed.

Lemma deploy_crosses_policy bank cs v : vault_policy v →
  ensures (deploy_crosses now v bank cs) vault_policy.
Proof.
  revert v. induction cs as [|c cs IH]; intros v Hv; cbn [deploy_crosses]; [by apply ensures_Ok|].
  apply ensures_bind. eapply ensures_mono; [apply on_sub_vault_policy; [done|]|].
  - intros s Hs. by ensure_walk.
  - intros v' Hv'. by apply IH.
Qed.

Lemma convert_keeps ctx rate buffer : in_u U16 buffer →
  keeps_world (process_convert_p2pool_to_fixed invoke_signed parse ctx now rate buffer).
Proof.
  intros [Hb _] w Hw. pose proof Hw as (Hm & Hv & _). unfold process_convert_p2pool_to_fixed. cbv zeta.
  do 4 forget. apply ensures_bind. eapply ensures_mono; [by apply the_loan_policy|]. intros l Hl.
  do 9 forget. apply ensures_bind.
  eapply ensures_mono; [by apply expand_market_to_free_blocks_policy|]. intros m1 Hm1.
  apply ensures_bind. eapply ensures_mono; [apply match_p2pool_residual_policy; [done|by split]|].
  intros r [Hr1 Hr2]. do 5 forget. apply ensures_bind.
  eapply ensures_mono; [by apply modify_seat_policy|]. intros m2 Hm2. apply ensures_bind.
  apply ensures_mono with (λ '(m', lo), market_policy m' ∧ optional loan_policy lo).
  - unfold release_converted, release_loan_collateral. ensure_walk; by split.
  - intros [m3 lo] [Hm3 Hlo]. apply ensures_bind.
    eapply ensures_mono; [by apply ensures_optional|]. intros v Hv'. apply ensures_bind.
    eapply ensures_mono; [by apply deploy_crosses_policy|]. intros v' Hv''. by apply ensures_Ok.
Qed.

(** Claims. *)
Lemma claim_repayment_keeps ctx id :
  keeps_world (process_claim_repayment_for_sub_vault invoke_signed invoke_token ctx id).
Proof.
  intros w Hw. pose proof Hw as (Hm & Hv & Hl). unfold process_claim_repayment_for_sub_vault.
  cbv zeta. ensure_walk; world_done.
Qed.

Lemma protocol_fee_policy ctx m l : market_policy m →
  ensures (process_protocol_fee_claim invoke_signed invoke_token ctx m l)
    (λ '(m', _), market_policy m').
Proof. intros Hm. unfold process_protocol_fee_claim. cbv zeta. ensure_walk; assumption. Qed.

Lemma claim_curator_fee_policy ctx id v l : vault_policy v →
  ensures (process_claim_curator_fee invoke_signed invoke_token ctx id v l)
    (λ '(v', _), vault_policy v').
Proof. intros Hv. unfold process_claim_curator_fee. cbv zeta. ensure_walk; assumption. Qed.
End handlers.

(** ** Vault instructions *)

Section vaults.
Context (invoke_signed : MarginfiIx → list AccountInfo → result (list AccountInfo)).
Context (invoke_token : TokenIx → list AccountInfo → result (list AccountInfo)).
Context (now : Z).
Implicit Types (v : Vault) (g : GlobalConfig).

(** Every gate of a vault hands the vault over unchanged. *)
Lemma open_vault_policy v : vault_policy v → ensures (open_vault v) vault_policy.
Proof. intros Hv. unfold open_vault. by ensure_walk. Qed.
Hint Resolve open_vault_policy : ensures.
Lemma load_vault_admin_policy g p v : vault_policy v → ensures (load_vault_admin g p v) vault_policy.
Proof. intros Hv. unfold load_vault_admin. by ensure_walk. Qed.
Lemma load_remove_policy g p v : vault_policy v → ensures (load_remove_sub_vault g p v) vault_policy.
Proof. intros Hv. unfold load_remove_sub_vault. by ensure_walk. Qed.
Lemma load_mutation_policy g v : vault_policy v → ensures (load_sub_vault_mutation g v) vault_policy.
Proof. intros Hv. unfold load_sub_vault_mutation. by ensure_walk. Qed.
Lemma load_create_pool_policy g p v : vault_policy v →
  ensures (load_create_pool_sub_vault g p v) vault_policy.
Proof. intros Hv. unfold load_create_pool_sub_vault. by ensure_walk. Qed.
Hint Resolve load_vault_admin_policy load_remove_policy load_mutation_policy
  load_create_pool_policy : ensures.

Lemma create_pool_policy g p c sp max liq term fee v : vault_policy v →
  ensures (process_create_pool_sub_vault g p c sp max liq term fee v) vault_policy.
Proof.
  intros Hv. unfold process_create_pool_sub_vault. apply ensures_bind.
  eapply ensures_mono; [by apply load_create_pool_policy|]. intros v1 Hv1.
  apply ensures_bind. intros [] Hrisk%validate_sub_vault_risk_params_Ok.
  apply ensures_bind. intros [] Hfee%require_Ok%Z.leb_le. forget.
  by apply append_sub_vault_policy.
Qed.

Lemma create_private_policy g p sp max liq term v : vault_policy v →
  ensures (process_create_private_sub_vault g p sp max liq term v) vault_policy.
Proof.
  intros Hv. unfold process_create_private_sub_vault. apply ensures_bind.
  eapply ensures_mono; [by apply load_mutation_policy|]. intros v1 Hv1.
  apply ensures_bind. intros [] Hrisk%validate_sub_vault_risk_params_Ok.
  by apply append_sub_vault_policy.
Qed.

Lemma vault_deposit_policy ctx n id v u l : vault_policy v →
  ensures (process_global_vault_deposit invoke_signed invoke_token ctx now n id v u l)
    (λ '(v', _, _), vault_policy v').
Proof.
  intros Hv. unfold process_global_vault_deposit. do 2 forget. apply ensures_bind.
  eapply ensures_mono; [by apply expand_vault_if_needed_policy|]. intros v1 Hv1. forget.
  apply ensures_bind. eapply ensures_mono.
  { apply on_sub_vault_with_policy; [done|]. intros s Hs. ensure_walk; done. }
  intros [v2 [s n2]] Hv2. by ensure_walk.
Qed.

Lemma clear_dust_policy v id n : vault_policy v → ensures (clear_dust v id n) vault_policy.
Proof. intros Hv. unfold clear_dust. ensure_walk; assumption. Qed.
Hint Resolve clear_dust_policy : ensures.

Lemma vault_withdraw_policy ctx n id v u l : vault_policy v →
  ensures (process_global_vault_withdraw invoke_signed invoke_token ctx now n id v u l)
    (λ '(v', _, _), vault_policy v').
Proof.
  intros Hv. unfold process_global_vault_withdraw. cbv zeta. do 6 forget. apply ensures_bind.
  eapply ensures_mono.
  { apply on_sub_vault_with_policy; [done|]. intros s Hs. ensure_walk; done. }
  intros [v2 [s n2]] Hv2. ensure_walk; try assumption;
    match goal with H : (let (_, _) := ?p in _) |- _ => by destruct p end.
Qed.

Hint Resolve create_pool_policy create_private_policy : ensures.
Lemma process_vault_ix_policy g i v u l : vault_policy v →
  ensures (process_vault_ix invoke_signed invoke_token now g i v u l) vault_policy.
Proof.
  intros Hv. destruct i; simpl; auto with ensures.
  - unfold process_update_sub_vault. ensure_walk; assumption.
  - unfold process_sunset_sub_vault. ensure_walk; assumption.
  - unfold process_resume_sub_vault. ensure_walk; assumption.
  - unfold process_remove_sub_vault. ensure_walk; assumption.
  - forget. apply ensures_bind. eapply ensures_mono; [by apply vault_deposit_policy|].
    intros [[v1 u1] l1] Hv1. by apply ensures_Ok.
  - forget. apply ensures_bind. eapply ensures_mono; [by apply vault_withdraw_policy|].
    intros [[v1 u1] l1] Hv1. by apply ensures_Ok.
  - forget. apply ensures_bind. eapply ensures_mono; [by apply claim_curator_fee_policy|].
    intros [v1 l1] Hv1. by apply ensures_Ok.
  - unfold process_transfer_global_vault_admin. ensure_walk; assumption.
  - unfold process_accept_global_vault_admin. cbv zeta. ensure_walk; assumption.
  - unfold process_transfer_curator. ensure_walk; assumption.
  - unfold process_accept_curator. ensure_walk; assumption.
  - unfold process_set_vault_pause. ensure_walk; assumption.
Qed.
End vaults.

(** ** Transactions *)

Definition system_policy (s : System) : Prop :=
  map_Forall (λ _ m, market_policy m) (sy_markets s)
  ∧ map_Forall (λ _ v, vault_policy v) (sy_vaults s)
  ∧ map_Forall (λ _ l, loan_policy l) (sy_loans s).

Section transactions.
Context (invoke_signed : MarginfiIx → list AccountInfo → result (list AccountInfo)).
Context (invoke_token : TokenIx → list AccountInfo → result (list AccountInfo)).
Context (parse : list Z → option StakeState) (pdas : Pdas) (now : Z).

Lemma on_market_keeps w f : world_policy w →
  (∀ m, market_policy m → ensures (f m) market_policy) → ensures (on_market w f) world_policy.
Proof.
  intros (Hm & Hv & Hl) Hf. unfold on_market. apply ensures_bind.
  eapply ensures_mono; [by apply Hf|]. intros m' Hm'. by apply ensures_Ok.
Qed.

Lemma on_book_keeps w f : world_policy w → book_policy f → ensures (on_book w f) world_policy.
Proof.
  intros (Hm & Hv & Hl) Hf. unfold on_book, the_vault. apply ensures_bind.
  eapply ensures_mono; [by apply ensures_optional|]. intros v Hv'. apply ensures_bind.
  eapply ensures_mono; [by apply Hf|]. intros [m' v'] [Hm' Hv'']. by apply ensures_Ok.
Qed.

Lemma process_market_ix_keeps k g i w : decoded i → world_policy w →
  ensures (process_market_ix invoke_signed invoke_token parse pdas now k g i w) world_policy.
Proof.
  intros Hi Hw. destruct i; simpl in Hi |- *;
    try (apply on_market_keeps; [exact Hw|]; intros m Hm;
         unfold process_set_fee_config, process_transfer_market_admin, process_accept_market_admin,
           process_set_market_pause, open_market; cbv zeta; ensure_walk; assumption);
    forget.
  - by apply claim_seat_keeps.
  - by apply deposit_keeps.
  - by apply withdraw_keeps.
  - destruct Hi. by apply place_order_keeps.
  - by apply cancel_order_keeps.
  - by apply update_order_keeps.
  - forget. by apply sync_keeps.
  - by apply promotion_keeps.
  - by apply repay_keeps.
  - by apply settle_keeps.
  - by apply liquidate_keeps.
  - forget. by apply ensures_Ok.
  - forget. by apply ensures_Ok.
  - by apply convert_keeps.
  - apply on_book_keeps; [done|]. apply place_for_sub_vault_policy.
  - apply on_book_keeps; [done|]. apply update_for_sub_vault_policy.
  - apply on_book_keeps; [done|]. apply cancel_sub_vault_ask_policy.
  - apply on_book_keeps; [done|]. apply cancel_sub_vault_ask_policy.
  - apply on_book_keeps; [done|]. intros m v Hm Hv. apply ensures_bind.
    eapply ensures_mono; [by apply match_crank_policy|]. intros [[m' v'] n] Hmv.
    by apply ensures_Ok.
  - by apply claim_repayment_keeps.
  - destruct Hw as (Hm & Hv & Hl). apply ensures_bind.
    eapply ensures_mono; [by apply protocol_fee_policy|]. intros [m' l'] Hm'. by apply ensures_Ok.
Qed.
End transactions.

Lemma open_world_policy s k b u l w : system_policy s → open_world s k b u l = Some w → world_policy w.
Proof.
  intros (Hm & Hv & Hl) H. unfold open_world in H.
  apply bind_Some in H as (m & Em & H). apply bind_Some in H as (vo & Evo & [= <-]).
  split; [by apply (Hm _ _ Em)|split]; simpl.
  - destruct b; [|by injection Evo as <-]. apply bind_Some in Evo as (v & Ev & [= <-]).
    by apply (Hv _ _ Ev).
  - destruct (sy_loans s !! tk_loan k) eqn:El; simpl; [by apply (Hl _ _ El)|done].
Qed.

Lemma close_world_policy s k w : system_policy s → world_policy w → system_policy (close_world s k w).
Proof.
  intros (Hm & Hv & Hl) (Hm' & Hv' & Hl'). split; [by apply map_Forall_insert_2|split]; simpl.
  - destruct (wd_vault w); [by apply map_Forall_insert_2|done].
  - destruct (wd_loan w); [by apply map_Forall_insert_2|by apply map_Forall_delete].
Qed.

Lemma process_create_market_policy addr g payer k d c p :
  ensures (process_create_market addr g payer k d c p) market_policy.
Proof.
  unfold process_create_market. do 6 forget. apply expand_market_policy. apply map_Forall_empty.
Qed.

(** One transaction. *)
Lemma step_policy_kept env s s' : step env s s' → system_policy s → system_policy s'.
Proof.
  intros Hs Hp. pose proof Hp as (Hm & Hv & Hl).
  destruct Hs as [k b u l now g i w w' _ _ Hi Ho Hr|key u l now g i v v' _ _ Ho Hr|g i g' _ _
    |g payer k d c p m _ _ Hr|key g payer mint a b c d e v _ _ Hr|].
  - apply close_world_policy; [done|].
    apply (process_market_ix_keeps _ _ _ _ _ _ _ _ _ Hi (open_world_policy _ _ _ _ _ _ Hp Ho) _ Hr).
  - split; [done|split; [|done]]. apply map_Forall_insert_2; [|done].
    apply (process_vault_ix_policy _ _ _ _ _ _ _ _ (Hv _ _ Ho) _ Hr).
  - done.
  - split; [|done]. apply map_Forall_insert_2; [|done]. apply (process_create_market_policy _ _ _ _ _ _ _ _ Hr).
  - split; [done|split; [|done]]. apply map_Forall_insert_2; [|done].
    revert v Hr. change (ensures (process_create_vault g payer mint a b c d e) vault_policy).
    unfold process_create_vault. do 2 forget. apply ensures_Ok. apply map_Forall_empty.
  - done.
Qed.

Lemma initial_policy : system_policy initial_system.
Proof. split; [|split]; apply map_Forall_empty. Qed.

(** What every transaction keeps holds in every reachable state. *)
Lemma reachable_invariant (I : System → Prop) env s :
  I initial_system → (∀ s1 s2, step env s1 s2 → I s1 → I s2) → reachable env s → I s.
Proof.
  intros H0 Hs Hr. unfold reachable in Hr. revert H0.
  induction Hr as [|s s1 s2 Hstep _ IH]; intros H0; [done|]. by apply IH, (Hs s).
Qed.

(** ** Origination *)

(** The sub-vaults of a reachable vault, read off its tree, are in policy. *)
Lemma tree_policy v V D O F G j p : vault_policy v → vault_inv v V D O F G → (j, p) ∈ V → policy_ok p.
Proof.
  intros Hp Hv Hj.
  destruct (tree_inv_block _ _ _ _ _ (vi_sub_vaults _ _ _ _ _ _ Hv) Hj) as (_ & n & Hn & <-).
  exact (Hp j _ Hn).
Qed.
