(* ===== verification/RiskSpec.v ===== *)
(** * Risk, across the whole program

    The two promises the risk parameters make to lenders and borrowers: they are in
    range in every state the program can reach, so every fixed loan carries a usable
    liquidation threshold above its origination cap; and therefore no loan can be
    liquidated at the prices it was matched at. *)
From stdpp Require Import base numbers list option gmap relations.
From S2P Require Import Prelude FixedPoint Loan Marginfi Oracles Ltv.
From S2P Require Import Hypertree HypertreeValues SubVault Market VaultTrees UserAccount.
From S2P Require Import Matching Runtime LoanClose Repay Keeper Promotion Deposits Claims.
From S2P Require Import Convert Admin Orders PolicySpec StampSpec Program SystemSpec.
From S2P Require Import HypertreeFrame HypertreeSpec HypertreeOrder MarketSpec VaultSpec.
From S2P Require Import MatchingSpec BidsSpec RefinanceSpec.
Local Open Scope Z_scope.

(** ** Lemmas *)

Lemma fills_principal_bound args fixed S0 V0 fs f :
  Forall (fill_ok args fixed S0 V0) fs → f ∈ fs →
  0 < ml_principal_atoms (fi_loan f) <= fills_principal fs.
Proof.
  intros Hfs. assert (0 <= fills_principal fs ∧ ∀ g, g ∈ fs →
    0 < ml_principal_atoms (fi_loan g) <= fills_principal fs) as [_ H]; [|apply H].
  induction Hfs as [|g fs Hg _ [IH0 IH]]; simpl.
  - split; [done|]. by intros g ?%not_elem_of_nil.
  - pose proof (fo_idle _ _ _ _ _ Hg). split; [lia|].
    intros h [->|Hh]%elem_of_cons; [lia|]. specialize (IH _ Hh). lia.
Qed.

(** A reservation does not touch the policy. *)
Lemma reserved_policy p0 p : reserved p0 p → policy_ok p0 → policy_ok p.
Proof. by intros (x & k & _ & -> & _). Qed.

(** Collateral that meets the requirement at the origination cap is not below the one
    at the liquidation threshold. *)
Lemma covered_not_breached parse now cap liq debt coll required dp cp dd cd
    dbank dargs cbank cargs :
  read_oracle_price parse now dargs = Ok dp → read_oracle_price parse now cargs = Ok cp →
  0 < dp < 2 ^ 128 ∧ 0 < cp < 2 ^ 128 → 0 < debt < 2 ^ 64 → 0 <= cap → stamps_ok cap liq →
  decimals_ok dd ∧ decimals_ok cd →
  required_collateral_at_ltv_cap debt (from_raw dp) (from_raw cp) cap dd cd = Ok required →
  required <= coll →
  assert_ltv_breach parse now LoanType_Fixed liq debt coll dbank dargs cbank cargs dd cd ≠ Ok tt.
Proof.
  intros Hdp Hcp Hpos Hdebt Hcap [Hgap Hliq] Hdec Hreq Hle Hok. unfold MIN_LIQ_GAP_BPS in Hgap.
  apply assert_ltv_breach_fixed_Ok in Hok as (_ & _ & _ & dp' & cp' & r & E1 & E2 & _ & _ & Hr & Hlt).
  rewrite Hdp in E1. rewrite Hcp in E2. injection E1 as <-. injection E2 as <-.
  assert (r <= required); [|lia].
  eapply (required_at_cap_mono debt debt liq cap dd cd r required (from_raw dp) (from_raw dp)
    (from_raw cp) (from_raw cp)); simpl; try done; lia.
Qed.

(** ** Properties *)

(** C7: the risk policy is an invariant of the whole program.  In every state the
    program can reach from an empty chain, by any sequence of its instructions and
    whatever marginfi, the token programs, the oracles and the clock do: every sub-vault
    has an LTV cap in (0, 100%), a liquidation threshold at least 2% above it and at most
    100%, a positive longest term and a curator fee of at most 20%; every fixed loan,
    queued or promoted, is stamped with a liquidation threshold at least 2% above its
    origination cap, so positive and at most 100%; and no resting order has a negative
    LTV buffer. *)
Theorem reachable_states_in_policy (env : Env) (s : System) (H : reachable env s) :
  system_policy s.
Proof.
  apply (reachable_invariant system_policy env); [apply initial_policy| |done].
  intros s1 s2. apply step_policy_kept.
Qed.

(** A chain with a configuration, a vault and a private sub-vault; no other program is
    called on the way. *)
Definition sample_env : Env :=
  mkEnv (λ _ _, Err Panic) (λ _ _, Err Panic) (λ _, None) (λ market mint, (market + mint, 255))
    (mkPdas (λ market sequence, market + sequence) (λ bank, bank)).
Definition sample_new_vault : Vault := mkVault (global_vault_new_empty 11 9 3 4 5 6 7) ∅.
Definition sample_vault_with_sub_vault : Vault :=
  match process_create_private_sub_vault (global_config_new_empty 9) 77 100 8000 9000 2592000
          sample_new_vault with
  | Ok v => v
  | Err _ => sample_new_vault
  end.
Definition sample_program_data : AccountInfo :=
  mkAccountInfo 70 80 ([3; 0; 0; 0] ++ replicate 8 0 ++ [1] ++ replicate 31 0 ++ [9]).
Definition sample_system : System :=
  mkSystem (Some (global_config_new_empty 9)) ∅ {[50 := sample_vault_with_sub_vault]} ∅.

Lemma sample_reachable env : reachable env sample_system.
Proof.
  eapply rtc_l.
  { apply (step_create_global_config _ _ 9 70 80 sample_program_data 60 60 []
      (global_config_new_empty 9)); [reflexivity|vm_compute; reflexivity]. }
  eapply rtc_l.
  { apply (step_create_vault _ _ 50 (global_config_new_empty 9) 9
      (mkMintAccount 11 6 12 (Ok [])) 3 4 5 7 6 sample_new_vault); vm_compute; reflexivity. }
  eapply rtc_l.
  { apply (step_vault_ix _ _ 50 (mkUserAccount (user_account_new_empty 77 255) ∅) ∅ 0
      (global_config_new_empty 9) (IxCreatePrivateSubVault 77 100 8000 9000 2592000)
      sample_new_vault sample_vault_with_sub_vault);
    [reflexivity|split; reflexivity || discriminate|reflexivity|vm_compute; reflexivity]. }
  vm_compute. apply rtc_refl.
Qed.

Lemma reachable_states_in_policy_witness :
  reachable sample_env sample_system
  ∧ match sub_vault_of sample_vault_with_sub_vault 1 with
    | Ok p => sv_curator p = 77 ∧ sv_liquidation_ltv_bps p = 9000
    | Err _ => False
    end
  ∧ system_policy sample_system.
Proof.
  split; [exact (sample_reachable sample_env)|]. split; [vm_compute; split; reflexivity|].
  exact (reachable_states_in_policy sample_env sample_system (sample_reachable sample_env)).
Defined.

(** ** No loan is born liquidatable *)

Section born.
Context (parse : list Z → option StakeState) (now dp cp dd cd : Z).
Context (dbank cbank : AccountInfo) (dargs cargs : list AccountInfo).

(** What a queued loan is to be when it is minted: stamped in policy, and refused by the
    liquidation gate at the prices of the two oracles. *)
Definition solvent (n : MatchedLoan) : Prop :=
  stamps_ok (ml_origination_ltv_bps n) (ml_liquidation_ltv_bps n)
  ∧ assert_ltv_breach parse now LoanType_Fixed (ml_liquidation_ltv_bps n)
      (ml_principal_atoms n) (ml_collateral_atoms n) dbank dargs cbank cargs dd cd ≠ Ok tt.

(** The queue of [m'] is the old one and, behind it, solvent loans. *)
Definition mints_solvent (L0 : list (Z * MatchedLoan)) (m' : Market) : Prop :=
  ∃ S A B L F minted, market_inv m' S A B L F ∧ L.*2 = L0.*2 ++ minted ∧ Forall solvent minted.

Context (Hdp : read_oracle_price parse now dargs = Ok dp).
Context (Hcp : read_oracle_price parse now cargs = Ok cp).
Context (Hpos : 0 < dp < 2 ^ 128 ∧ 0 < cp < 2 ^ 128).
Context (Hdec : decimals_ok dd ∧ decimals_ok cd).

(** The gate of the matching, and the stamps of a sub-vault in policy. *)
Lemma covered_solvent n p buffer : policy_ok p → 0 <= buffer →
  ml_origination_ltv_bps n = effective_origination_cap_bps (sv_max_ltv_bps p) buffer
    ∧ ml_liquidation_ltv_bps n = sv_liquidation_ltv_bps p →
  0 < ml_principal_atoms n < 2 ^ 64 →
  (∃ required, required_collateral_at_ltv_cap (ml_principal_atoms n) (from_raw dp) (from_raw cp)
      (ml_origination_ltv_bps n) dd cd = Ok required ∧ required <= ml_collateral_atoms n) →
  solvent n.
Proof.
  intros [Hrisk _] Hb [Eo El] Hn (required & Hreq & Hle).
  assert (stamps_ok (ml_origination_ltv_bps n) (ml_liquidation_ltv_bps n)) as Hst
    by (rewrite Eo, El; by eapply stamps_of_policy).
  split; [done|].
  eapply (covered_not_breached parse now (ml_origination_ltv_bps n) _ _ _ required dp cp); try done.
  rewrite Eo. unfold effective_origination_cap_bps, saturating_sub. lia.
Qed.

Lemma match_order_solvent args m0 v0 S0 A B L0 F0 V0 D O F1 F2 :
  vault_policy v0 → match_ready args m0 v0 S0 A B L0 F0 V0 D O F1 F2 →
  0 <= ma_ltv_buffer_bps args → ma_debt_oracle_price_fp48 args = from_raw dp →
  ma_collateral_oracle_price_fp48 args = from_raw cp →
  mf_debt_mint_decimals (mk_fixed m0) = dd → mf_collateral_mint_decimals (mk_fixed m0) = cd →
  returns (match_order m0 args (Some v0)) (λ '(m', _, _), mints_solvent L0 m').
Proof.
  intros Hpolicy Hready Hbuffer Ep1 Ep2 Ed1 Ed2.
  eapply returns_mono; [by eapply match_ready_returns|].
  intros [[m' vo] r] _ (st & fs & todo & S & L & F & v & V & [] & -> & _ & _).
  exists S, A, B, L, F, (fi_loan <$> fs). split; [done|split; [done|]].
  apply Forall_fmap, Forall_forall. intros f Hf.
  pose proof (fills_principal_bound _ _ _ _ _ _ sc_fills Hf) as Hprin.
  destruct sc_range as [Hr0 _]. rewrite Forall_forall in sc_fills. specialize (sc_fills _ Hf).
  destruct (fo_vault _ _ _ _ _ sc_fills) as (j & p0 & Hp0 & Hres).
  destruct (fo_covered _ _ _ _ _ sc_fills) as (required & Hreq & Hle).
  pose proof (fo_loan _ _ _ _ _ sc_fills) as Hloan.
  pose proof (my_principal _ _ _ _ _ _ _ _ _ _ _ _ _ Hready).
  rewrite Ep1, Ep2, Ed1, Ed2 in Hreq.
  eapply (covered_solvent _ (fi_sub_vault f) (ma_ltv_buffer_bps args)); [|done| |lia|by exists required].
  - eapply reserved_policy; [done|]. eapply tree_policy;
      [exact Hpolicy|apply (my_vault _ _ _ _ _ _ _ _ _ _ _ _ _ Hready)|done].
  - by rewrite Hloan.
Qed.

Lemma match_resting_bids_solvent args m0 v0 S0 A B0 L0 F0 V0 D O F1 F2 p :
  bids_ready args m0 v0 S0 A B0 L0 F0 V0 D O F1 F2 →
  (∀ e, e ∈ B0 → 0 <= ro_ltv_buffer_bps e.2) →
  policy_ok p → ba_sub_vault_max_ltv_bps args = sv_max_ltv_bps p →
  ba_sub_vault_liquidation_ltv_bps args = sv_liquidation_ltv_bps p →
  ba_debt_oracle_price_fp48 args = from_raw dp → ba_collateral_oracle_price_fp48 args = from_raw cp →
  ba_debt_mint_decimals args = dd → ba_collateral_mint_decimals args = cd →
  returns (match_resting_bids m0 args v0) (λ s, mints_solvent L0 (bs_market s)).
Proof.
  intros Hready Hbuffers Hp Em El Ep1 Ep2 Ed1 Ed2.
  eapply returns_mono; [by eapply match_resting_bids_returns|].
  intros s _ (xs & todo & S & B & L & F & V & Hs). pose proof Hs as [].
  exists S, A, B, L, F, (taken_loans xs). split; [done|split; [done|]].
  apply Forall_forall. intros n (x & Hn & Hx)%list_elem_of_bind.
  pose proof (proj1 (Forall_forall _ _) ti_visits x Hx) as Hok.
  pose proof (visited_in_book _ _ _ _ _ _ _ _ _ _ _ _ _ _ _ _ _ _ _ _ Hs Hx) as Hin.
  destruct x as [e|f]; [by apply not_elem_of_nil in Hn|]. apply list_elem_of_singleton in Hn as ->.
  simpl in Hin, Hok. destruct (bo_covered _ _ _ _ Hok) as (required & Hreq & Hle).
  destruct (br_sizes _ _ _ _ _ _ _ _ _ _ _ _ _ Hready _ Hin) as [Hsize _].
  rewrite Ep1, Ep2, Ed1, Ed2 in Hreq.
  eapply (covered_solvent _ p (ro_ltv_buffer_bps (bf_bid f).2));
    [done|by apply Hbuffers| | |by exists required].
  - rewrite <- Em, <- El. apply (bo_ltv _ _ _ _ Hok).
  - pose proof (bo_amount _ _ _ _ Hok). lia.
Qed.

Lemma refinance_solvent args m0 v0 S0 A B L0 F0 V0 D O F1 F2 :
  vault_policy v0 → refinance_ready args m0 v0 S0 A B L0 F0 V0 D O F1 F2 →
  0 <= ra_ltv_buffer_bps args → ra_debt_oracle_price_fp48 args = from_raw dp →
  ra_collateral_oracle_price_fp48 args = from_raw cp →
  ra_debt_mint_decimals args = dd → ra_collateral_mint_decimals args = cd →
  returns (match_p2pool_residual_against_asks m0 args (Some v0))
    (λ s, mints_solvent L0 (rs_market s)).
Proof.
  intros Hpolicy Hready Hbuffer Ep1 Ep2 Ed1 Ed2.
  eapply returns_mono; [by eapply match_p2pool_returns|].
  intros s _ (fs & todo & S & L & F & v & V & Hs). pose proof Hs as [].
  exists S, A, B, L, F, (fi_loan <$> fs). split; [done|split; [done|]].
  apply Forall_fmap, Forall_forall. intros f Hf.
  pose proof (proj1 (Forall_forall _ _) ri_fills f Hf) as Hok.
  destruct (re_covered _ _ _ _ Hok) as (required & Hreq & Hle).
  destruct (re_vault _ _ _ _ Hok) as (j & p0 & Hp0 & Hres).
  pose proof (refinance_fill_le _ _ _ _ _ _ _ _ _ _ _ _ _ _ _ _ _ _ _ _ Hs Hf).
  pose proof (rr_principal _ _ _ _ _ _ _ _ _ _ _ _ _ Hready).
  rewrite Ep1, Ep2, Ed1, Ed2 in Hreq.
  eapply (covered_solvent _ (fi_sub_vault f) (ra_ltv_buffer_bps args));
    [|done|apply (re_ltv _ _ _ _ Hok)|lia|by exists required].
  eapply reserved_policy; [done|]. eapply tree_policy;
    [exact Hpolicy|apply (rr_vault _ _ _ _ _ _ _ _ _ _ _ _ _ Hready)|done].
Qed.
End born.

(** C9: no loan is born liquidatable.  The program mints queued loans in three places: an
    order that takes the asks ([match_order]), an ask that takes the resting bids
    ([match_resting_bids]), and the refinancing of a variable-rate loan against the asks
    ([match_p2pool_residual_against_asks]).  On a market and a vault ready to match, with
    the sub-vaults in policy and no negative LTV buffers, as in every reachable state, and
    at oracle prices that are read, and positive: none of the three panics or loops, and
    when it succeeds, every loan it mints is stamped with a liquidation threshold at least
    2% above its origination cap, and the liquidation gate at those same prices refuses
    the loan: not one atom of what was just matched can be liquidated until the prices
    move or interest accrues. *)
Theorem no_loan_is_born_liquidatable (parse : list Z → option StakeState) (now dp cp dd cd : Z)
    (dbank cbank : AccountInfo) (dargs cargs : list AccountInfo)
    (Hdp : read_oracle_price parse now dargs = Ok dp)
    (Hcp : read_oracle_price parse now cargs = Ok cp)
    (Hpos : 0 < dp < 2 ^ 128 ∧ 0 < cp < 2 ^ 128)
    (Hdec : decimals_ok dd ∧ decimals_ok cd) :
  let mints := mints_solvent parse now dd cd dbank cbank dargs cargs in
  (∀ args m0 v0 S0 A B L0 F0 V0 D O F1 F2,
    vault_policy v0 → match_ready args m0 v0 S0 A B L0 F0 V0 D O F1 F2 →
    0 <= ma_ltv_buffer_bps args → ma_debt_oracle_price_fp48 args = from_raw dp →
    ma_collateral_oracle_price_fp48 args = from_raw cp →
    mf_debt_mint_decimals (mk_fixed m0) = dd → mf_collateral_mint_decimals (mk_fixed m0) = cd →
    returns (match_order m0 args (Some v0)) (λ '(m', _, _), mints L0 m'))
  ∧ (∀ args m0 v0 S0 A B0 L0 F0 V0 D O F1 F2 p,
    bids_ready args m0 v0 S0 A B0 L0 F0 V0 D O F1 F2 →
    (∀ e, e ∈ B0 → 0 <= ro_ltv_buffer_bps e.2) →
    policy_ok p → ba_sub_vault_max_ltv_bps args = sv_max_ltv_bps p →
    ba_sub_vault_liquidation_ltv_bps args = sv_liquidation_ltv_bps p →
    ba_debt_oracle_price_fp48 args = from_raw dp →
    ba_collateral_oracle_price_fp48 args = from_raw cp →
    ba_debt_mint_decimals args = dd → ba_collateral_mint_decimals args = cd →
    returns (match_resting_bids m0 args v0) (λ s, mints L0 (bs_market s)))
  ∧ (∀ args m0 v0 S0 A B L0 F0 V0 D O F1 F2,
    vault_policy v0 → refinance_ready args m0 v0 S0 A B L0 F0 V0 D O F1 F2 →
    0 <= ra_ltv_buffer_bps args → ra_debt_oracle_price_fp48 args = from_raw dp →
    ra_collateral_oracle_price_fp48 args = from_raw cp →
    ra_debt_mint_decimals args = dd → ra_collateral_mint_decimals args = cd →
    returns (match_p2pool_residual_against_asks m0 args (Some v0))
      (λ s, mints L0 (rs_market s))).
Proof.
  intros mints. split_and!.
  - intros. by eapply match_order_solvent.
  - intros. by eapply match_resting_bids_solvent.
  - intros. by eapply refinance_solvent.
Qed.

(** The same order as in [MatchingSpec], priced by two oracles. *)
Definition priced_match_args : MatchArgs :=
  mkMatchArgs 0 900 86400 1500 3000000 ImmediateOrCancel 1050 100 fp48_ONE
    (from_raw (15025 * SCALE / 100)) (from_raw (15025 * SCALE / 100)) 0 0.

(** The take of [BidsSpec] and the refinancing of [RefinanceSpec], at the same prices. *)
Definition priced_bids_args : MatchRestingBidsArgs :=
  mkRestingBidsArgs 160 1 800 2592000 0 8000 9000 77 100 50 1050 fp48_ONE
    (from_raw (15025 * SCALE / 100)) (from_raw (15025 * SCALE / 100)) 6 6 8.
Definition priced_refinance_args : MatchP2PoolRefinanceArgs :=
  mkRefinanceArgs 0 600 1800000 fp48_ONE 86400 900 100 1050
    (from_raw (15025 * SCALE / 100)) (from_raw (15025 * SCALE / 100)) 6 6 0 0.

Lemma no_loan_is_born_liquidatable_witness :
  let oracle := [sample_oracle_bank; sample_pyth_account 1000] in
  let mints := mints_solvent (λ _, None) 1050 6 6 sample_oracle_bank sample_oracle_bank oracle oracle in
  match match_order sample_match_market priced_match_args (Some sample_match_vault),
        match_resting_bids sample_bid_market priced_bids_args sample_match_vault,
        match_p2pool_residual_against_asks sample_match_market priced_refinance_args
          (Some sample_match_vault) with
  | Ok (m1, _, r1), Ok s2, Ok s3 =>
      (mr_total_filled_principal r1 = 999 ∧ mints [] m1)
      ∧ (bs_total_filled_principal s2 = 999 ∧ mints [] (bs_market s2))
      ∧ (rs_total_filled_principal s3 = 600 ∧ mints [] (rs_market s3))
  | _, _, _ => False
  end.
Proof.
  intros oracle mints.
  destruct (no_loan_is_born_liquidatable (λ _, None) 1050 (15025 * SCALE / 100) (15025 * SCALE / 100)
    6 6 sample_oracle_bank sample_oracle_bank oracle oracle) as (H1 & H2 & H3);
    [vm_compute; reflexivity|vm_compute; reflexivity|vm_compute; intuition congruence
    |split; vm_compute; intuition congruence|].
  assert (match_ready priced_match_args sample_match_market sample_match_vault
    sample_match_seats [(320, sample_ask)] [] [] [480; 640] [(0, sample_sub_vault)] [] [] [] [])
    as R1 by (destruct sample_match_ready; split; assumption).
  assert (bids_ready priced_bids_args sample_bid_market sample_match_vault sample_bid_seats []
    [(480, sample_stale_bid); (320, sample_bid)] [] [640] [(0, sample_sub_vault)] [] [] [] [])
    as R2 by (destruct sample_bids_ready; split; assumption).
  assert (refinance_ready priced_refinance_args sample_match_market sample_match_vault
    sample_match_seats [(320, sample_ask)] [] [] [480; 640] [(0, sample_sub_vault)] [] [] [] [])
    as R3 by (destruct sample_refinance_ready; split; assumption).
  assert (policy_ok sample_sub_vault) as Hp by (apply (bool_decide_unpack _); vm_compute; exact I).
  assert (vault_policy sample_match_vault) as Hv
    by (apply map_Forall_insert_2; [exact Hp|apply map_Forall_empty]).
  specialize (H1 _ _ _ _ _ _ _ _ _ _ _ _ _ Hv R1). specialize (H3 _ _ _ _ _ _ _ _ _ _ _ _ _ Hv R3).
  specialize (H2 _ _ _ _ _ _ _ _ _ _ _ _ _ sample_sub_vault R2).
  specialize (H1 (Z.le_refl 0) eq_refl eq_refl eq_refl eq_refl).
  specialize (H3 (Z.le_refl 0) eq_refl eq_refl eq_refl eq_refl).
  assert (∀ e, e ∈ [(480, sample_stale_bid); (320, sample_bid)] → 0 <= ro_ltv_buffer_bps e.2) as Hb.
  { intros e [->|He%list_elem_of_singleton]%elem_of_cons; [|subst e]; exact (Z.le_refl 0). }
  specialize (H2 Hb Hp eq_refl eq_refl eq_refl eq_refl eq_refl eq_refl).
  clear Hb Hp Hv R1 R2 R3.
  destruct (match_order sample_match_market priced_match_args (Some sample_match_vault))
    as [[[m1 v1] r1]|e] eqn:E1; [|vm_compute in E1; discriminate E1].
  destruct (match_resting_bids sample_bid_market priced_bids_args sample_match_vault)
    as [s2|e] eqn:E2; [|vm_compute in E2; discriminate E2].
  destruct (match_p2pool_residual_against_asks sample_match_market priced_refinance_args
    (Some sample_match_vault)) as [s3|e] eqn:E3; [|vm_compute in E3; discriminate E3].
  split; [|split]; (split; [|first [exact H1|exact H2|exact H3]]).
  - vm_compute in E1. injection E1 as _ _ <-. reflexivity.
  - vm_compute in E2. injection E2 as <-. reflexivity.
  - vm_compute in E3. injection E3 as <-. reflexivity.
Defined.
