(* ===== verification/ProgramSpec.v ===== *)
(** * What the dispatch guarantees

    The instruction byte decodes to the instruction it encodes and to nothing else; the
    protocol admin changes hands only by a nomination and an acceptance; and while the
    program is paused no transaction moves a token or touches a loan, yet its admin can
    always unpause it. *)
From stdpp Require Import base numbers list option gmap relations.
From S2P Require Import Prelude FixedPoint Loan Marginfi Oracles Hypertree SubVault.
From S2P Require Import Market VaultTrees Matching UserAccount Runtime LoanClose Repay.
From S2P Require Import Keeper Promotion Deposits Claims Convert Admin Orders Program.
Local Open Scope Z_scope.

(** ** Decoding *)

Lemma try_from_as_u8 i : YdeltaInstruction_try_from (YdeltaInstruction_as_u8 i) = Some i.
Proof. by destruct i. Qed.

(** The table lists each instruction at its own tag. *)
Lemma tag_of_instruction tag i :
  0 <= tag → YdeltaInstruction_try_from tag = Some i → tag = YdeltaInstruction_as_u8 i.
Proof.
  intros Htag H. rewrite <- (Z2Nat.id tag) by done. revert H. unfold YdeltaInstruction_try_from.
  generalize (Z.to_nat tag) as n. clear.
  intros n H. assert (n < 45)%nat as Hn by (by apply lookup_lt_Some in H).
  do 45 (destruct n as [|n]; [by injection H as <-|]). lia.
Qed.

(** ** The protocol admin *)

(** A sequence of successful instructions on the configuration. *)
Fixpoint run_config (ixs : list ConfigIx) (g : GlobalConfig) : result GlobalConfig :=
  match ixs with
  | [] => Ok g
  | i :: ixs => g ← process_config_ix i g; run_config ixs g
  end.

(** Nominations by whoever is admin are the only writes of the pending admin, and its
    acceptance by itself the only write of the admin. *)
Lemma config_ix_roles i g g' : process_config_ix i g = Ok g' →
  match i with
  | IxTransferProtocolAdmin payer new_admin =>
      payer = gc_protocol_admin g ∧ gc_protocol_admin g' = gc_protocol_admin g
      ∧ gc_pending_protocol_admin g' = new_admin
  | IxAcceptProtocolAdmin payer =>
      payer = gc_pending_protocol_admin g ∧ payer ≠ Pubkey_default
      ∧ gc_protocol_admin g' = payer ∧ gc_pending_protocol_admin g' = Pubkey_default
  | IxSetGlobalPause payer _ =>
      payer = gc_protocol_admin g ∧ gc_protocol_admin g' = gc_protocol_admin g
      ∧ gc_pending_protocol_admin g' = gc_pending_protocol_admin g
  end.
Proof.
  destruct i; simpl; unfold process_transfer_protocol_admin, process_accept_protocol_admin,
    process_set_global_pause, load_global_config_no_pause; intros H; inv_ok; subst; simpl; repeat split; lia.
Qed.

Lemma run_config_app ixs1 ixs2 g :
  run_config (ixs1 ++ ixs2) g = (g ← run_config ixs1 g; run_config ixs2 g).
Proof.
  revert g. induction ixs1 as [|i ixs1 IH]; intros g; [done|]. simpl.
  destruct (process_config_ix i g) as [g1|e]; [apply IH|done].
Qed.

(** A pending admin was nominated, by the admin of that moment. *)
Lemma pending_was_nominated ixs g g' : run_config ixs g = Ok g' →
  gc_pending_protocol_admin g = Pubkey_default →
  gc_pending_protocol_admin g' ≠ Pubkey_default →
  ∃ ixs1 ixs2 g1, ixs = ixs1 ++ IxTransferProtocolAdmin (gc_protocol_admin g1)
                              (gc_pending_protocol_admin g') :: ixs2
    ∧ run_config ixs1 g = Ok g1 ∧ gc_protocol_admin g1 = gc_protocol_admin g'.
Proof.
  revert g'. induction ixs as [|i ixs IH] using rev_ind; intros g' Hr H0 Hp.
  { injection Hr as <-. done. }
  rewrite run_config_app in Hr. apply bind_Ok in Hr as (g1 & H1 & Hr). simpl in Hr.
  apply bind_Ok in Hr as (g2 & Hi & [= ->]). pose proof (config_ix_roles _ _ _ Hi) as Hroles.
  destruct i.
  - destruct Hroles as (-> & Ha & ->). exists ixs, [], g1. by rewrite Ha.
  - destruct Hroles as (_ & _ & _ & Hd). congruence.
  - destruct Hroles as (_ & Ha & Hq). rewrite Hq in Hp.
    destruct (IH _ H1 H0 Hp) as (ixs1 & ixs2 & g3 & -> & H3 & Ea).
    eexists ixs1, (ixs2 ++ [_]), g3. rewrite <- app_assoc, Ha, Hq. done.
Qed.

(** ** Pauses *)

(** What a global pause lets through: administration, which moves no tokens. *)
Definition market_exempt (i : MarketIx) : bool :=
  match i with
  | IxAdminCancelSubVaultOrder _ _ | IxTransferMarketAdmin _ _ | IxAcceptMarketAdmin _
  | IxSetMarketPause _ _ => true
  | _ => false
  end.

Definition vault_exempt (i : VaultIx) : bool :=
  match i with
  | IxSunsetSubVault _ _ | IxResumeSubVault _ _ | IxTransferGlobalVaultAdmin _ _
  | IxAcceptGlobalVaultAdmin _ | IxTransferCurator _ _ _ | IxAcceptCurator _ _
  | IxSetVaultPause _ _ => true
  | _ => false
  end.

(** A computation that cannot succeed. *)
Definition blocked {A} (r : result A) : Prop := ∀ a, r ≠ Ok a.

Lemma blocked_bind {A B} (r : result A) (f : A → result B) : blocked r → blocked (r ≫= f).
Proof. intros Hr b H. apply bind_Ok in H as (a & Ha & _). by apply Hr in Ha. Qed.
Lemma blocked_bind_r {A B} (r : result A) (f : A → result B) :
  (∀ a, blocked (f a)) → blocked (r ≫= f).
Proof. intros Hf b H. apply bind_Ok in H as (a & _ & Ha). by apply Hf in Ha. Qed.

Section frozen.
Context (invoke_signed : MarginfiIx → list AccountInfo → result (list AccountInfo)).
Context (invoke_token : TokenIx → list AccountInfo → result (list AccountInfo)).
Context (parse : list Z → option StakeState) (pdas : Pdas) (now : Z).
Context (g : GlobalConfig) (Hp : gc_is_paused g ≠ 0).

Lemma paused_config : blocked (load_global_config g).
Proof.
  intros g' H. unfold load_global_config, load_global_config_no_pause,
    require_global_not_paused in H. inv_ok. subst. lia.
Qed.


(** Every gate but the administrative one opens with the configuration. *)
Lemma paused_market_gate m : blocked (market_gate g m).
Proof. apply blocked_bind, paused_config. Qed.

Lemma paused_gates pdas' k w ctx q :
  blocked (place_gate pdas' k g w) ∧ blocked (book_gate g w)
  ∧ blocked (promotion_gate pdas' k g ctx q w) ∧ blocked (repay_gate pdas' k g w)
  ∧ blocked (keeper_gate pdas' k g w) ∧ blocked (check_gate pdas' k g w)
  ∧ blocked (claim_repayment_gate g w) ∧ blocked (convert_gate pdas' k g w).
Proof.
  repeat split; apply blocked_bind; first [apply paused_market_gate | apply paused_config].
Qed.

Lemma paused_fee_gate payer w : blocked (protocol_fee_gate g payer w).
Proof. apply blocked_bind, paused_market_gate. Qed.

Lemma paused_market_ix k i w w' :
  process_market_ix invoke_signed invoke_token parse pdas now k g i w = Ok w' →
  market_exempt i = true ∧ wd_loan w' = wd_loan w ∧ wd_user w' = wd_user w
  ∧ wd_ledger w' = wd_ledger w.
Proof.
  intros H. destruct i as [| | | | | | |ctx q| | | | | | | | | | | | | | | | |];
    try (exfalso; revert w' H; lazymatch goal with |- ∀ w', ?r = Ok w' → _ => change (blocked r) end;
         first [ apply blocked_bind, blocked_bind, paused_config
               | apply blocked_bind; first [apply paused_config | apply paused_market_gate | apply paused_fee_gate
                   | apply (paused_gates pdas k w (mkPromotionContext 0 0 0 0 None) 0)
                   | apply (paused_gates pdas k w ctx q)] ]; done);
    simpl in H; unfold on_book, on_market in H; inv_ok; by subst.
Qed.

Lemma paused_vault_ix i v u l v' :
  process_vault_ix invoke_signed invoke_token now g i v u l = Ok v' → vault_exempt i = true.
Proof.
  intros H. destruct i; try done; exfalso; revert v' H;
    lazymatch goal with |- ∀ w', ?r = Ok w' → _ => change (blocked r) end;
    repeat first [apply paused_config | apply blocked_bind].
Qed.
End frozen.

(** Writing back a transaction that left the loan alone leaves the loans alone. *)
Lemma close_world_loans s k b u l w w' :
  open_world s k b u l = Some w → wd_loan w' = wd_loan w → sy_loans (close_world s k w') = sy_loans s.
Proof.
  intros Ho El. unfold open_world in Ho. apply bind_Some in Ho as (m & _ & Ho).
  apply bind_Some in Ho as (vo & _ & [= <-]). simpl in *. rewrite El.
  destruct (sy_loans s !! tk_loan k) eqn:E; [by apply insert_id|by apply delete_id].
Qed.

(** ** Properties *)

(** The instruction data decode to an instruction exactly when they were sent to this
    program and start with the tag of that instruction, the rest being its parameters;
    a wrong program, empty data and an unknown tag are refused with their own errors, and
    nothing panics. *)
Theorem decode_instruction_exact (program_id id : Pubkey) (bytes : list Z)
    (Hbytes : Forall (in_u U8) bytes) :
  match decode_instruction program_id id bytes with
  | Ok (i, data) => program_id = id ∧ bytes = YdeltaInstruction_as_u8 i :: data
  | Err e =>
      e = (if program_id =? id then InvalidInstructionData else IncorrectProgramId)
      ∧ ¬ ∃ i data, program_id = id ∧ bytes = YdeltaInstruction_as_u8 i :: data
  end.
Proof.
  unfold decode_instruction. destruct (Z.eqb_spec program_id id) as [->|Hne]; simpl;
    [|by split; [|intros (? & ? & ? & ?)]].
  destruct bytes as [|tag data]; [by split; [|intros (? & ? & ? & ?)]|].
  apply Forall_cons in Hbytes as [[Htag _] _].
  destruct (YdeltaInstruction_try_from tag) as [i|] eqn:E; simpl.
  - split; [done|]. f_equal. by apply tag_of_instruction.
  - split; [done|]. intros (i & d & _ & [= -> _]). by rewrite try_from_as_u8 in E.
Qed.

Lemma decode_instruction_exact_witness :
  decode_instruction 5 5 [17; 1; 2] = Ok (LiquidateLoan, [1; 2])
  ∧ decode_instruction 5 5 [45] = Err InvalidInstructionData
  ∧ 5 = 5 ∧ [17; 1; 2] = YdeltaInstruction_as_u8 LiquidateLoan :: [1; 2].
Proof.
  split; [reflexivity|split; [reflexivity|]].
  apply (decode_instruction_exact 5 5 [17; 1; 2]). repeat (constructor; [vm_compute; intuition congruence|]).
  constructor.
Defined.

(** C21: the protocol admin changes hands only by a nomination and an acceptance.  If a
    sequence of successful instructions on the configuration, from one with no nominee,
    ends with another admin, then somewhere in it the admin of that moment signed a
    nomination of some key, and later that very key signed an acceptance and became
    admin, the nomination still standing; the pause never moves the role. *)
Theorem protocol_admin_handover (ixs : list ConfigIx) (g g' : GlobalConfig)
    (Hrun : run_config ixs g = Ok g') (Hpending : gc_pending_protocol_admin g = Pubkey_default)
    (Hchanged : gc_protocol_admin g' ≠ gc_protocol_admin g) :
  ∃ ixs1 ixs2 ixs3 g1 g2,
    ixs = ixs1 ++ IxTransferProtocolAdmin (gc_protocol_admin g1) (gc_protocol_admin g') :: ixs2
               ++ IxAcceptProtocolAdmin (gc_protocol_admin g') :: ixs3
    ∧ run_config ixs1 g = Ok g1
    ∧ run_config (ixs1 ++ IxTransferProtocolAdmin (gc_protocol_admin g1) (gc_protocol_admin g')
                            :: ixs2) g = Ok g2
    ∧ gc_protocol_admin g2 = gc_protocol_admin g1
    ∧ gc_pending_protocol_admin g2 = gc_protocol_admin g'.
Proof.
  revert g' Hrun Hchanged. induction ixs as [|i ixs IH] using rev_ind; intros g' Hrun Hchanged.
  { by injection Hrun as <-. }
  rewrite run_config_app in Hrun. apply bind_Ok in Hrun as (g3 & H3 & Hrun).
  apply bind_Ok in Hrun as (g4 & Hi & [= ->]).
  pose proof (config_ix_roles _ _ _ Hi) as Hroles.
  assert (gc_protocol_admin g' = gc_protocol_admin g3 → ∃ ixs1 ixs2 ixs3 g1 g2,
    ixs ++ [i] = ixs1 ++ IxTransferProtocolAdmin (gc_protocol_admin g1) (gc_protocol_admin g')
               :: ixs2 ++ IxAcceptProtocolAdmin (gc_protocol_admin g') :: ixs3
    ∧ run_config ixs1 g = Ok g1
    ∧ run_config (ixs1 ++ IxTransferProtocolAdmin (gc_protocol_admin g1) (gc_protocol_admin g')
                            :: ixs2) g = Ok g2
    ∧ gc_protocol_admin g2 = gc_protocol_admin g1
    ∧ gc_pending_protocol_admin g2 = gc_protocol_admin g') as Hkeep.
  { intros E. rewrite E in Hchanged |- *.
    destruct (IH _ H3 Hchanged) as (a & b & c & g1 & g2 & -> & ? & ? & ? & ?).
    exists a, b, (c ++ [i]), g1, g2. by rewrite <- !app_assoc, <- !app_comm_cons, <- app_assoc. }
  destruct i; [apply Hkeep, Hroles| |apply Hkeep, Hroles].
  destruct Hroles as (-> & Hne & Ea & _). rewrite Ea in *.
  destruct (pending_was_nominated _ _ _ H3 Hpending Hne) as (a & b & g1 & -> & H1 & E).
  exists a, b, [], g1, g3. split; [by rewrite <- app_assoc|by split_and!].
Qed.

Lemma protocol_admin_handover_witness :
  let g := global_config_new_empty 9 in
  let ixs := [IxSetGlobalPause 9 1; IxTransferProtocolAdmin 9 7; IxAcceptProtocolAdmin 7] in
  match run_config ixs g with
  | Ok g' => gc_protocol_admin g' = 7 ∧ gc_is_paused g' = 1 ∧ ∃ ixs1 ixs2 ixs3 g1 g2,
      ixs = ixs1 ++ IxTransferProtocolAdmin (gc_protocol_admin g1) 7 :: ixs2
                 ++ IxAcceptProtocolAdmin 7 :: ixs3
      ∧ run_config ixs1 g = Ok g1
      ∧ run_config (ixs1 ++ IxTransferProtocolAdmin (gc_protocol_admin g1) 7 :: ixs2) g = Ok g2
      ∧ gc_protocol_admin g2 = gc_protocol_admin g1 ∧ gc_pending_protocol_admin g2 = 7
  | Err _ => False
  end.
Proof.
  cbv zeta. split; [reflexivity|split; [reflexivity|]].
  apply (protocol_admin_handover [IxSetGlobalPause 9 1; IxTransferProtocolAdmin 9 7;
    IxAcceptProtocolAdmin 7] (global_config_new_empty 9)
    (mkGlobalConfig GLOBAL_CONFIG_DISCRIMINANT 7 0 1)); [reflexivity|reflexivity|discriminate].
Defined.

(** C20: while the program is paused nothing moves.  Whatever the other programs do, a
    transaction that succeeds under the global pause is one of a few administrative
    ones (the admin's cancellation of a sub-vault order, transfers of roles, sunsets
    and pauses): it changes no account of another program, writes no user account, and
    opens, changes and closes no loan, so that the loans of the chain are what they were.  And the
    pause is never final: the protocol admin can lift it, after which the
    configuration loads again. *)
Theorem paused_program_frozen (env : Env) (s s' : System) (g : GlobalConfig)
    (Hg : sy_config s = Some g) (Hpaused : gc_is_paused g ≠ 0) :
  (∀ now k i w w',
     process_market_ix (env_invoke_signed env) (env_invoke_token env) (env_parse_stake_state env)
       (env_pdas env) now k g i w = Ok w' →
     market_exempt i = true ∧ wd_loan w' = wd_loan w ∧ wd_user w' = wd_user w
     ∧ wd_ledger w' = wd_ledger w)
  ∧ (∀ now i v u l v',
       process_vault_ix (env_invoke_signed env) (env_invoke_token env) now g i v u l = Ok v' →
       vault_exempt i = true)
  ∧ (step env s s' → sy_loans s' = sy_loans s)
  ∧ (load_global_config_no_pause g = Ok g →
     ∃ g', process_config_ix (IxSetGlobalPause (gc_protocol_admin g) 0) g = Ok g'
       ∧ load_global_config g' = Ok g' ∧ step env s (s <| sy_config := Some g' |>)).
Proof.
  split; [intros *; by apply paused_market_ix|]. split; [intros *; by apply paused_vault_ix|]. split.
  - intros H. destruct H as [k b u l now g0 i w w' Hg0 _ _ Ho Hr| | | | |]; try done.
    rewrite Hg in Hg0. injection Hg0 as <-. eapply close_world_loans; [exact Ho|].
    by apply (paused_market_ix _ _ _ _ _ _ Hpaused) in Hr as (_ & ? & _).
  - intros Hl. exists (g <| gc_is_paused := 0 |>).
    assert (process_config_ix (IxSetGlobalPause (gc_protocol_admin g) 0) g
            = Ok (g <| gc_is_paused := 0 |>)) as Hun.
    { simpl. unfold process_set_global_pause. rewrite Hl. simpl. by rewrite Z.eqb_refl. }
    split; [exact Hun|split].
    + unfold load_global_config, load_global_config_no_pause in *. simpl.
      apply bind_Ok in Hl as ([] & Hd & _). unfold global_config_verify_discriminant in *. simpl.
      by rewrite Hd.
    + by eapply step_config_ix.
Qed.

Lemma paused_program_frozen_witness :
  let g := mkGlobalConfig GLOBAL_CONFIG_DISCRIMINANT 9 0 1 in
  let env := mkEnv (λ _ _, Err Panic) (λ _ _, Err Panic) (λ _, None) (λ _ _, (0, 0))
               (mkPdas (λ market sequence, market + sequence) (λ bank, bank)) in
  let s := mkSystem (Some g) ∅ ∅ {[7 := sample_loan]} in
  gc_is_paused g ≠ 0 ∧ step env s (s <| sy_config := Some (g <| gc_protocol_admin := 9 |>
                                                             <| gc_is_paused := 0 |>) |>)
  ∧ ∃ g', process_config_ix (IxSetGlobalPause 9 0) g = Ok g' ∧ load_global_config g' = Ok g'.
Proof.
  cbv zeta. split; [discriminate|].
  destruct (paused_program_frozen (mkEnv (λ _ _, Err Panic) (λ _ _, Err Panic) (λ _, None)
      (λ _ _, (0, 0)) (mkPdas (λ market sequence, market + sequence) (λ bank, bank)))
    (mkSystem (Some (mkGlobalConfig GLOBAL_CONFIG_DISCRIMINANT 9 0 1)) ∅ ∅ {[7 := sample_loan]})
    (mkSystem None ∅ ∅ ∅) (mkGlobalConfig GLOBAL_CONFIG_DISCRIMINANT 9 0 1))
    as (_ & _ & _ & Hun); [reflexivity|discriminate|].
  destruct Hun as (g' & Hg' & Hl & Hs); [reflexivity|].
  split; [|by exists g']. injection Hg' as <-. exact Hs.
Defined.
