(* ===== verification/LoanLife.v ===== *)
(** * The life of a fixed-rate loan

    [loan_step] is what one accepted payment does to the loan account, by its borrower
    ([repay.rs]) or by a keeper ([settle_matured_loan.rs], [liquidate_loan.rs]); the
    handlers refine it.  Over any sequence of payments the ledger of the loan adds up:
    what was paid and what is still owed is the debt it started with plus simple interest,
    nobody touches its terms, and it closes exactly when nothing is owed. *)
From stdpp Require Import base numbers list option gmap.
From S2P Require Import Prelude FixedPoint Loan Marginfi Oracles Ltv Hypertree SubVault.
From S2P Require Import Market VaultTrees Matching UserAccount Runtime LoanClose Repay.
From S2P Require Import Keeper Promotion Deposits Claims Convert Admin Orders Program.
From S2P Require Import HypertreeFrame HypertreeSpec HypertreeOrder MarketSpec VaultSpec MatchingSpec.
Local Open Scope Z_scope.

(** ** One payment *)

Definition not_repaid (l : LoanFixed) : Prop :=
  loan_state_byte l ≠ LoanState_as_u8 LoanState_Repaid.

Inductive loan_step (l : LoanFixed) : Z → LoanFixed → Prop :=
  | borrower_pays now params l1 paid l' full :
      now < 2 ^ 63 → not_repaid l → accrue_loan l now = Ok l1 →
      size_repayment params (outstanding_debt_atoms l1) = Ok paid →
      fixed_repaid l1 paid = Ok (l', full) →
      loan_step l paid l'
  | keeper_pays now repay_atoms_max protocol_bps bad_debt_gap withdrawn l1 paid fee l' :
      now < 2 ^ 63 → not_repaid l → accrue_loan l now = Ok l1 →
      size_keeper_repay repay_atoms_max (outstanding_debt_atoms l1) = Ok paid →
      liquidation_protocol_atoms LoanType_Fixed protocol_bps paid = Ok fee → 0 <= withdrawn →
      resolve_fixed paid fee bad_debt_gap (loan_collateral_atoms l1) withdrawn
        (paid =? outstanding_debt_atoms l1) l1 = Ok l' →
      loan_step l paid l'.

(** A loan account over its payments, with their total. *)
Inductive loan_life (l0 : LoanFixed) : Z → LoanFixed → Prop :=
  | life_start : loan_life l0 0 l0
  | life_step total l paid l' :
      loan_life l0 total l → loan_step l paid l' → loan_life l0 (total + paid) l'.

(** ** The invariant *)

(** A loan account with its ledger erased: the terms it was promoted with. *)
Definition terms (l : LoanFixed) : LoanFixed :=
  l <| outstanding_debt_atoms := 0 |> <| lender_claimable_atoms := 0 |>
    <| loan_collateral_atoms := 0 |> <| accumulated_protocol_fee_atoms := 0 |>
    <| accumulated_curator_fee_atoms := 0 |> <| last_accrued_unix := 0 |>
    <| loan_state_byte := 0 |> <| principal_retired_atoms := 0 |>
    <| cumulative_lender_gross_interest_atoms := 0 |>.

(** The interest a borrower owes from the start of the loan to [t]. *)
Definition interest_at (l : LoanFixed) (t : Z) : Z := lender_gross_at l t + spread_at l t.

(** A live fixed loan. *)
Record live_loan (l : LoanFixed) : Prop := {
  ll_wf : loan_wf l;
  ll_conserved : loan_conserved l;
  ll_fixed : loan_type_byte l = LoanType_as_u8 LoanType_Fixed;
  ll_active : not_repaid l;
  ll_owed : 0 < outstanding_debt_atoms l;
  ll_collateral : 0 <= loan_collateral_atoms l }.

Record life_inv (l0 : LoanFixed) (total : Z) (l : LoanFixed) : Prop := {
  li_wf : loan_wf l;
  li_conserved : loan_conserved l;
  li_terms : terms l = terms l0;
  li_debt : outstanding_debt_atoms l + total
    = outstanding_debt_atoms l0
      + (interest_at l0 (last_accrued_unix l) - interest_at l0 (last_accrued_unix l0));
  li_retired : principal_retired_atoms l = principal_retired_atoms l0 + total;
  li_time : last_accrued_unix l0 <= last_accrued_unix l;
  li_collateral : 0 <= loan_collateral_atoms l <= loan_collateral_atoms l0;
  li_closed : outstanding_debt_atoms l = 0 ↔ ¬ not_repaid l }.

Lemma terms_interest l l0 t : terms l = terms l0 → interest_at l t = interest_at l0 t.
Proof.
  intros H. change (interest_at l t) with (interest_at (terms l) t). by rewrite H.
Qed.
Lemma terms_type l l0 : terms l = terms l0 → loan_type_byte l = loan_type_byte l0.
Proof. intros H. by injection H. Qed.

Lemma life_inv_start l0 : live_loan l0 → life_inv l0 0 l0.
Proof.
  intros []. split; try done; try lia. split; [lia|]. intros H. by destruct H.
Qed.

(** Accrual moves the debt along the interest, and nothing else the invariant sees. *)
Lemma life_inv_accrue l0 total l now l1 :
  life_inv l0 total l → loan_type_byte l0 = LoanType_as_u8 LoanType_Fixed → not_repaid l →
  now < 2 ^ 63 → accrue_loan l now = Ok l1 →
  life_inv l0 total l1 ∧ not_repaid l1 ∧ 0 < outstanding_debt_atoms l1
  ∧ loan_collateral_atoms l1 = loan_collateral_atoms l.
Proof.
  intros Hi Hty Hact Hnow H. pose proof Hi as [].
  assert (0 < outstanding_debt_atoms l) as Hout.
  { assert (outstanding_debt_atoms l ≠ 0) by tauto. destruct li_wf0. zlia. }
  destruct (accrue_loan_Ok_inv l now l1 li_wf0 Hnow H)
    as [[-> ->]|[(Hlt & Hna & ->)|(Hlt & Ha & Hfit & ->)]]; [done|..].
  - destruct Hna. split; [lia|split; [done|]]. by rewrite (terms_type _ _ li_terms0), Hty.
  - pose proof (accrued_mono l now li_wf0 ltac:(lia)) as (? & ? & ? & ?).
    split; [|by split; [|simpl in *; split; [lia|]]].
    split; try done.
    + apply loan_wf_accrued; (done || lia).
    + unfold loan_conserved in *. simpl. lia.
    + simpl. pose proof (terms_interest _ _ now li_terms0) as E1.
      pose proof (terms_interest _ _ (last_accrued_unix l) li_terms0) as E2.
      rewrite <- E1. rewrite <- E2 in li_debt0. unfold interest_at in *. lia.
    + simpl. lia.
    + simpl in *. split; [lia|]. intros Hn. by destruct Hn.
Qed.

(** A step that resolves [paid] atoms and may close the loan. *)
Lemma life_inv_resolved l0 total l paid l' :
  life_inv l0 total l → not_repaid l → 0 < paid <= outstanding_debt_atoms l →
  assert_loan_conservation l = Ok tt →
  loan_wf l' → loan_conserved l' → terms l' = terms l →
  outstanding_debt_atoms l' = outstanding_debt_atoms l - paid →
  principal_retired_atoms l' = principal_retired_atoms l + paid →
  last_accrued_unix l' = last_accrued_unix l →
  0 <= loan_collateral_atoms l' <= loan_collateral_atoms l →
  (outstanding_debt_atoms l' = 0 ↔ ¬ not_repaid l') →
  life_inv l0 (total + paid) l'.
Proof.
  intros [] Hact Hp Hc Hwf Hcon Ht Ho Hr Hl Hcol Hst.
  split; try done; try lia; [by rewrite Ht|rewrite Ho, Hl; lia].
Qed.

(** The bookkeeping of the two arms on a resolved loan. *)
Lemma resolved_facts l0 total l paid :
  life_inv l0 total l → not_repaid l → 0 < paid <= outstanding_debt_atoms l →
  assert_loan_conservation l = Ok tt →
  loan_wf (resolved l paid) ∧ loan_conserved (resolved l paid).
Proof.
  intros [] _ Hp Hc. split; [|by apply resolved_conserved].
  apply assert_loan_conservation_Ok in Hc as (_ & Ho & _).
  destruct li_wf0. split; simpl; try done; zlia.
Qed.

Lemma life_inv_repaid l0 total l paid l' full :
  life_inv l0 total l → not_repaid l → fixed_repaid l paid = Ok (l', full) →
  life_inv l0 (total + paid) l' ∧ full = (paid =? outstanding_debt_atoms l).
Proof.
  intros Hi Hact H. unfold fixed_repaid in H. apply bind_Ok in H as ([l1 pt] & H1 & H).
  apply apply_partial_resolution_inv in H1 as (Hr & Hc & -> & _).
  pose proof (resolved_facts _ _ _ _ Hi Hact Hr Hc) as [Hwf Hcon]. injection H as <- <-.
  pose proof (li_collateral _ _ _ Hi).
  split; [|simpl; destruct (Z.eqb_spec (outstanding_debt_atoms l - paid) 0),
             (Z.eqb_spec paid (outstanding_debt_atoms l)); lia].
  simpl. destruct (Z.eqb_spec (outstanding_debt_atoms l - paid) 0).
  - eapply (life_inv_resolved l0 total l paid); try done; simpl; try lia; [by destruct Hwf; split|].
    split; [|done]. intros _ Hn. by apply Hn.
  - eapply (life_inv_resolved l0 total l paid); try done; simpl; try lia.
Qed.

Lemma move_protocol_fee_facts l fee l' :
  loan_wf l → loan_conserved l → 0 <= fee → move_protocol_fee fee l = Ok l' →
  loan_wf l' ∧ loan_conserved l' ∧ terms l' = terms l
  ∧ outstanding_debt_atoms l' = outstanding_debt_atoms l
  ∧ principal_retired_atoms l' = principal_retired_atoms l
  ∧ last_accrued_unix l' = last_accrued_unix l
  ∧ loan_collateral_atoms l' = loan_collateral_atoms l
  ∧ loan_state_byte l' = loan_state_byte l.
Proof.
  intros Hwf Hc Hfee H. unfold move_protocol_fee in H.
  destruct (0 <? fee); [|by injection H as <-]. inv_ok. subst l'. destruct Hwf.
  unfold loan_conserved in *. split; [split; simpl; try done; zlia|]. simpl. split_and!; done || lia.
Qed.

Lemma clawback_facts l gap l' :
  loan_wf l → loan_conserved l → clawback_curator_fee gap l = Ok l' →
  loan_wf l' ∧ loan_conserved l' ∧ terms l' = terms l
  ∧ outstanding_debt_atoms l' = outstanding_debt_atoms l
  ∧ principal_retired_atoms l' = principal_retired_atoms l
  ∧ last_accrued_unix l' = last_accrued_unix l
  ∧ loan_collateral_atoms l' = loan_collateral_atoms l
  ∧ loan_state_byte l' = loan_state_byte l.
Proof.
  intros Hwf Hc H. unfold clawback_curator_fee in H.
  destruct (_ && _); [|by injection H as <-]. inv_ok. subst l'. destruct Hwf.
  unfold loan_conserved in *. split; [split; simpl; try done; zlia|]. simpl. split_and!; done || lia.
Qed.

(** Taking collateral moves it down, and closes the loan on a full payment. *)
Lemma take_collateral_facts full c w l :
  loan_wf l → loan_conserved l →
  loan_wf (take_collateral full c w l) ∧ loan_conserved (take_collateral full c w l)
  ∧ terms (take_collateral full c w l) = terms l
  ∧ outstanding_debt_atoms (take_collateral full c w l) = outstanding_debt_atoms l
  ∧ principal_retired_atoms (take_collateral full c w l) = principal_retired_atoms l
  ∧ last_accrued_unix (take_collateral full c w l) = last_accrued_unix l
  ∧ loan_collateral_atoms (take_collateral full c w l) = (if full then 0 else saturating_sub c w)
  ∧ loan_state_byte (take_collateral full c w l)
    = (if full then LoanState_as_u8 LoanState_Repaid else loan_state_byte l).
Proof. intros [] Hc. unfold take_collateral. destruct full; split_and!; done || by split. Qed.

Lemma life_inv_kept l0 total l paid fee gap withdrawn l' :
  life_inv l0 total l → not_repaid l → 0 <= fee → 0 <= withdrawn →
  resolve_fixed paid fee gap (loan_collateral_atoms l) withdrawn
    (paid =? outstanding_debt_atoms l) l = Ok l' →
  life_inv l0 (total + paid) l'.
Proof.
  intros Hi Hact Hfee Hw H. unfold resolve_fixed in H. apply bind_Ok in H as ([l1 pt] & H1 & H).
  apply apply_partial_resolution_inv in H1 as (Hr & Hc & -> & _).
  pose proof (resolved_facts _ _ _ _ Hi Hact Hr Hc) as [Hwf Hcon].
  apply bind_Ok in H as (l2 & H2 & H). apply bind_Ok in H as (l3 & H3 & H).
  apply bind_Ok in H as ([] & _ & [= <-]).
  apply move_protocol_fee_facts in H2 as (Hwf2 & Hc2 & Ht2 & Ho2 & Hr2 & Hl2 & Hk2 & Hs2); try done.
  apply clawback_facts in H3 as (Hwf3 & Hc3 & Ht3 & Ho3 & Hr3 & Hl3 & Hk3 & Hs3); try done.
  set (full := paid =? outstanding_debt_atoms l) in *.
  destruct (take_collateral_facts full (loan_collateral_atoms l) withdrawn l3 Hwf3 Hc3)
    as (Hwf4 & Hc4 & Ht4 & Ho4 & Hr4 & Hl4 & Hk4 & Hs4).
  pose proof (li_collateral _ _ _ Hi).
  eapply (life_inv_resolved l0 total l paid); try done.
  - by rewrite Ht4, Ht3, Ht2.
  - by rewrite Ho4, Ho3, Ho2.
  - by rewrite Hr4, Hr3, Hr2.
  - by rewrite Hl4, Hl3, Hl2.
  - rewrite Hk4. unfold saturating_sub. destruct full; lia.
  - unfold not_repaid. rewrite Ho4, Ho3, Ho2, Hs4, Hs3, Hs2. simpl. subst full.
    destruct (Z.eqb_spec paid (outstanding_debt_atoms l)); [split; [tauto|lia]|].
    split; [lia|]. intros Hn. by destruct Hn.
Qed.

Lemma mul_div_u64_range a b c ceil q : mul_div_u64 a b c ceil = Ok q → in_u U64 q.
Proof.
  unfold mul_div_u64. intros H. apply bind_Ok in H as (x & Hx & H). apply mul_div_range in Hx.
  inv_ok. destruct Hx. subst. split; lia.
Qed.

Lemma liquidation_protocol_nonneg ty bps a fee :
  liquidation_protocol_atoms ty bps a = Ok fee → 0 <= fee.
Proof.
  unfold liquidation_protocol_atoms. destruct (_ && _); [|by intros [= <-]].
  intros H. apply mul_div_u64_range in H. by destruct H.
Qed.

Lemma loan_step_inv l0 total l paid l' :
  life_inv l0 total l → loan_type_byte l0 = LoanType_as_u8 LoanType_Fixed →
  loan_step l paid l' → life_inv l0 (total + paid) l'.
Proof.
  intros Hi Hty Hs. destruct Hs as [now p l1 paid l' full Hnow Hact Ha _ H
    |now mx bps gap w l1 paid fee l' Hnow Hact Ha _ Hfee Hw H];
    destruct (life_inv_accrue _ _ _ _ _ Hi Hty Hact Hnow Ha) as (Hi1 & Hact1 & _ & _).
  - by eapply (life_inv_repaid _ _ _ _ _ full) in H as [? _].
  - apply (life_inv_kept _ _ l1 paid fee gap w); try done. by eapply liquidation_protocol_nonneg.
Qed.

Lemma loan_life_inv l0 total l : live_loan l0 → loan_life l0 total l → life_inv l0 total l.
Proof.
  intros H0 Hl. induction Hl as [|total l paid l' _ IH Hs]; [by apply life_inv_start|].
  eapply loan_step_inv; [done|by destruct H0|done].
Qed.

(** ** The handlers *)

Section handlers.
Context (invoke_signed : MarginfiIx → list AccountInfo → result (list AccountInfo)).
Context (invoke_token : TokenIx → list AccountInfo → result (list AccountInfo)).
Context (parse : list Z → option StakeState) (now : Z).
Implicit Types (w : World).

Lemma accrue_loan_type l t : ensures (accrue_loan l t) (λ l1, loan_type_byte l1 = loan_type_byte l).
Proof. unfold accrue_loan. cbv zeta. ensure_walk; done. Qed.
Lemma accrue_loan_collateral l t : ensures (accrue_loan l t) (λ l1, loan_collateral_atoms l1 = loan_collateral_atoms l).
Proof. unfold accrue_loan. cbv zeta. ensure_walk; done. Qed.

Lemma fixed_loan_type l : loan_type_byte l = LoanType_as_u8 LoanType_Fixed → loan_type l = Ok LoanType_Fixed.
Proof. unfold loan_type. by intros ->. Qed.

(** What a payment on a fixed loan leaves in the loan account: nothing once it is
    cleared. *)
Definition loan_left (l : LoanFixed) : option LoanFixed :=
  if outstanding_debt_atoms l =? 0 then None else Some l.

Definition same_loan w w' : Prop := wd_loan w' = wd_loan w.

Lemma sync_position_loan w k o : ensures (sync_position w k o) (same_loan w).
Proof. unfold sync_position. by ensure_walk. Qed.
Lemma drop_open_loan_ref_loan w k : ensures (drop_open_loan_ref w k) (same_loan w).
Proof. unfold drop_open_loan_ref. by ensure_walk. Qed.
Lemma close_out_vault_loan w id bank c : ensures (close_out_vault w id bank c now) (same_loan w).
Proof. unfold close_out_vault. by ensure_walk. Qed.

Lemma repay_fixed_loan ctx p w loan : ensures (repay_fixed invoke_signed invoke_token ctx now p w loan)
  (λ w', ∃ paid ledger l' full,
    size_repayment p (outstanding_debt_atoms loan) = Ok paid
    ∧ pay_from_borrower invoke_token ctx (wd_ledger w) paid = Ok ledger
    ∧ fixed_repaid loan paid = Ok (l', full) ∧ wd_loan w' = loan_left l').
Proof.
  unfold repay_fixed. cbv zeta. apply ensures_bind. intros paid Hpaid.
  apply ensures_bind. intros ledger Hledger. apply ensures_bind. intros [shares ledger'] _.
  apply ensures_bind. intros [l' full] Hl'. do 4 (apply ensures_bind; intros ? _).
  apply ensures_bind, ensures_mono with (λ w1, wd_loan w1 = Some l').
  { destruct full; [|by apply ensures_Ok]. eapply ensures_mono; [apply close_out_vault_loan|].
    intros w1 Hw1. exact Hw1. }
  intros w1 Hw1. apply ensures_bind. eapply ensures_mono; [apply sync_position_loan|].
  intros w2 Hw2. unfold same_loan in Hw2. rewrite Hw1 in Hw2.
  assert (full = (outstanding_debt_atoms l' =? 0)) as Hfull.
  { unfold fixed_repaid in Hl'. apply bind_Ok in Hl' as ([l1 ?] & _ & [= <- <-]).
    by destruct (outstanding_debt_atoms l1 =? 0) eqn:E; simpl; rewrite E. }
  destruct full.
  - apply ensures_bind. eapply ensures_mono; [apply drop_open_loan_ref_loan|]. intros w3 _.
    apply ensures_Ok. exists paid, ledger, l', true. unfold loan_left. rewrite <- Hfull. done.
  - apply ensures_Ok. exists paid, ledger, l', false. unfold loan_left. rewrite <- Hfull. done.
Qed.

(** The three payments on a fixed loan, with the transfer that made each of them. *)
Definition paid_by w (pay : Ledger → Z → result Ledger) (l : LoanFixed) w' : Prop :=
  ∃ paid ledger l', pay (wd_ledger w) paid = Ok ledger ∧ loan_step l paid l'
    ∧ wd_loan w' = loan_left l'.

Lemma process_repay_step ctx p w l :
  now < 2 ^ 63 → wd_loan w = Some l → loan_type_byte l = LoanType_as_u8 LoanType_Fixed →
  ensures (process_repay invoke_signed invoke_token ctx now p w)
    (paid_by w (pay_from_borrower invoke_token ctx) l).
Proof.
  intros Hnow Hl Hty. unfold process_repay, the_loan. rewrite Hl. simpl.
  apply ensures_bind. intros [] Hact%require_Ok%negb_true_iff%Z.eqb_neq.
  apply ensures_bind. intros l1 H1. pose proof (accrue_loan_type _ _ _ H1) as E. simpl in E.
  rewrite Hty in E. rewrite fixed_loan_type by done. simpl.
  do 2 (apply ensures_bind; intros ? _). eapply ensures_mono; [apply repay_fixed_loan|].
  intros w' (paid & ledger & l' & full & Hs & Hp & Hf & Hw). exists paid, ledger, l'.
  split; [done|split; [|done]]. by eapply borrower_pays.
Qed.

Lemma keeper_close_out_loan ctx w loan ty pm :
  ensures (keeper_close_out ctx now w loan ty pm)
    (λ w', wd_loan w' = if pm_full pm then None else wd_loan w).
Proof.
  unfold keeper_close_out. cbv zeta. apply ensures_bind, ensures_mono with (same_loan w).
  - ensure_step; [|by apply ensures_Ok]. do 3 (apply ensures_bind; intros ? _).
    ensure_step; [|by apply ensures_Ok]. eapply ensures_mono; [apply close_out_vault_loan|]. done.
  - intros w1 Hw1. apply ensures_Ok. by destruct (pm_full pm).
Qed.

Lemma adapter_withdraw_nonneg accs shares :
  ensures (adapter_withdraw invoke_signed accs shares) (λ '(withdrawn, _, _), 0 <= withdrawn).
Proof. unfold adapter_withdraw. cbv zeta. ensure_walk. unfold saturating_sub. lia. Qed.

Lemma seize_collateral_nonneg ctx l ty a :
  ensures (seize_collateral invoke_signed invoke_token ctx l ty a) (λ '(withdrawn, _), 0 <= withdrawn).
Proof.
  unfold seize_collateral. do 2 (apply ensures_bind; intros ? _). apply ensures_bind.
  apply ensures_mono with (λ '(withdrawn, _, _), 0 <= withdrawn).
  - unfold call_withdraw, on_accounts. apply ensures_bind; intros ? _. apply ensures_bind.
    eapply ensures_mono; [apply adapter_withdraw_nonneg|]. intros [[? ?] ?] H. by apply ensures_Ok.
  - intros [[? ?] ?] H. apply ensures_bind; intros ? _. by apply ensures_Ok.
Qed.

Lemma apply_payment_full ctx l loan actual all full :
  ensures (apply_payment invoke_signed ctx l loan LoanType_Fixed actual all full)
    (λ '(pm, _), pm_full pm = full).
Proof. unfold apply_payment. cbv zeta. apply ensures_bind. intros [? ?] _. by apply ensures_Ok. Qed.

(** The tail of the two keeper handlers on a fixed loan. *)
Lemma keeper_step l l1 paid bps fee gap withdrawn mx l' full :
  now < 2 ^ 63 → not_repaid l → accrue_loan l now = Ok l1 →
  size_keeper_repay mx (outstanding_debt_atoms l1) = Ok paid →
  liquidation_protocol_atoms LoanType_Fixed bps paid = Ok fee → 0 <= withdrawn →
  full = (paid =? outstanding_debt_atoms l1) →
  resolve_fixed paid fee gap (loan_collateral_atoms l1) withdrawn full l1 = Ok l' →
  loan_step l paid l' ∧ (if full then None else Some l') = loan_left l'.
Proof.
  intros Hnow Hact Ha Hs Hfee Hw -> H. split; [by eapply keeper_pays|].
  unfold resolve_fixed in H. apply bind_Ok in H as ([l2 ?] & H2 & H).
  apply apply_partial_resolution_inv in H2 as (_ & _ & -> & _).
  apply bind_Ok in H as (l3 & H3 & H). apply bind_Ok in H as (l4 & H4 & H).
  apply bind_Ok in H as (_ & _ & [= <-]).
  assert (outstanding_debt_atoms l4 = outstanding_debt_atoms l1 - paid) as E.
  { unfold move_protocol_fee in H3. unfold clawback_curator_fee in H4.
    destruct (0 <? fee); destruct (_ && _) in H4; inv_ok; by subst. }
  unfold loan_left, take_collateral.
  destruct (Z.eqb_spec paid (outstanding_debt_atoms l1)); simpl; rewrite E;
    destruct (Z.eqb_spec (outstanding_debt_atoms l1 - paid) 0); (done || lia).
Qed.

Lemma open_and_accrue_step w l :
  wd_loan w = Some l → loan_type_byte l = LoanType_as_u8 LoanType_Fixed →
  ensures (open_and_accrue now w) (λ l1, not_repaid l ∧ accrue_loan l now = Ok l1
    ∧ loan_type l1 = Ok LoanType_Fixed).
Proof.
  intros Hl Hty. unfold open_and_accrue, the_loan. rewrite Hl. simpl.
  apply ensures_bind. intros [] Hact%require_Ok%negb_true_iff%Z.eqb_neq. intros l1 H1.
  split; [done|split; [done|]]. apply fixed_loan_type. by rewrite (accrue_loan_type _ _ _ H1).
Qed.

Lemma settle_step ctx data w l :
  now < 2 ^ 63 → wd_loan w = Some l → loan_type_byte l = LoanType_as_u8 LoanType_Fixed →
  ensures (process_settle_matured_loan invoke_signed invoke_token ctx now data w)
    (paid_by w (pay_from_keeper invoke_token ctx) l).
Proof.
  intros Hnow Hl Hty. unfold process_settle_matured_loan. cbv zeta. apply ensures_bind; intros mx _.
  apply ensures_bind. eapply ensures_mono; [by apply open_and_accrue_step|].
  intros l1 (Hact & Ha & Hty1). rewrite Hty1. simpl. apply ensures_bind; intros [] _.
  apply ensures_bind. intros out Hout. unfold live_outstanding, loan_live_outstanding_atoms in Hout.
  rewrite Hty1 in Hout. apply bind_Ok in Hout as (? & _ & Hout).
  apply bind_Ok in Hout as (? & _ & [= <-]). apply ensures_bind; intros [] _.
  apply ensures_bind. intros paid Hpaid. do 4 (apply ensures_bind; intros ? _).
  apply ensures_bind. intros ledger Hledger. apply ensures_bind.
  eapply ensures_mono; [apply (apply_payment_full ctx _ l1 _ 0)|]. intros [pm ledger1] Hpm.
  apply ensures_bind, ensures_mono with (λ '(withdrawn, _), 0 <= withdrawn).
  { ensure_step; [apply seize_collateral_nonneg|by apply ensures_Ok]. }
  intros [withdrawn ledger2] Hw. apply ensures_bind; intros m _. apply ensures_bind. intros fee Hfee.
  apply ensures_bind. intros l' Hl'. eapply ensures_mono; [apply keeper_close_out_loan|].
  intros w' Hw'. simpl in Hw'. rewrite Hpm in Hw', Hl'.
  destruct (keeper_step l l1 paid _ fee 0 withdrawn mx l' _ Hnow Hact Ha Hpaid Hfee Hw eq_refl Hl')
    as [Hstep Hleft].
  exists paid, ledger, l'. rewrite Hw'. done.
Qed.

Lemma keeper_close_out_ledger ctx w loan ty pm :
  ensures (keeper_close_out ctx now w loan ty pm) (λ w', wd_ledger w' = wd_ledger w).
Proof.
  unfold keeper_close_out. cbv zeta.
  apply ensures_bind, ensures_mono with (λ w', wd_ledger w' = wd_ledger w).
  - ensure_step; [|by apply ensures_Ok]. do 3 (apply ensures_bind; intros ? _).
    ensure_step; [|by apply ensures_Ok]. unfold close_out_vault. by ensure_walk.
  - intros w1 Hw1. apply ensures_Ok. by destruct (pm_full pm).
Qed.

(** The collateral a fixed loan keeps after a keeper's payment. *)
Lemma resolve_fixed_collateral paid fee gap collateral withdrawn full l :
  ensures (resolve_fixed paid fee gap collateral withdrawn full l) (λ l',
    loan_collateral_atoms l' = if full then 0 else saturating_sub collateral withdrawn).
Proof.
  unfold resolve_fixed. apply ensures_bind; intros [l1 ?] _. do 2 (apply ensures_bind; intros ? _).
  cbv zeta. apply ensures_bind; intros ? _. apply ensures_Ok. unfold take_collateral. by destruct full.
Qed.

(** A liquidation, step by step. *)
Lemma liquidate_trace ctx data w l :
  now < 2 ^ 63 → wd_loan w = Some l → loan_type_byte l = LoanType_as_u8 LoanType_Fixed →
  ensures (process_liquidate_loan invoke_signed invoke_token parse ctx now data w) (λ w',
    ∃ mx l1 paid split ledger pm ledger1 withdrawn m l',
      accrue_loan l now = Ok l1
      ∧ ltv_gate parse ctx now w l1 LoanType_Fixed (outstanding_debt_atoms l1) = Ok tt
      ∧ size_keeper_repay mx (outstanding_debt_atoms l1) = Ok paid
      ∧ liquidation_split parse ctx now w l1 paid = Ok split
      ∧ check_keeper_balance ctx (wd_ledger w) paid = Ok tt
      ∧ pay_from_keeper invoke_token ctx (wd_ledger w) paid = Ok ledger
      ∧ (let full := paid =? outstanding_debt_atoms l1 in
         apply_payment invoke_signed ctx ledger l1 LoanType_Fixed paid paid full = Ok (pm, ledger1)
         ∧ seize_collateral invoke_signed invoke_token ctx ledger1 LoanType_Fixed
             (liquidator_seizes_atoms split) = Ok (withdrawn, wd_ledger w')
         ∧ liquidate_borrower_seat (wd_market w) l1 withdrawn full = Ok m
         ∧ loan_collateral_atoms l' = (if full then 0
             else saturating_sub (loan_collateral_atoms l1) withdrawn))
      ∧ loan_step l paid l' ∧ wd_loan w' = loan_left l').
Proof.
  intros Hnow Hl Hty. unfold process_liquidate_loan. cbv zeta. apply ensures_bind; intros mx _.
  apply ensures_bind. eapply ensures_mono; [by apply open_and_accrue_step|].
  intros l1 (Hact & Ha & Hty1). rewrite Hty1. simpl.
  apply ensures_bind. intros out Hout. unfold live_outstanding, loan_live_outstanding_atoms in Hout.
  rewrite Hty1 in Hout. apply bind_Ok in Hout as (? & _ & Hout).
  apply bind_Ok in Hout as (? & _ & [= <-]). apply ensures_bind; intros [] Hgate.
  apply ensures_bind. intros paid Hpaid. apply ensures_bind. intros split Hsplit.
  apply ensures_bind; intros [] Hbal. apply ensures_bind. intros ledger Hledger.
  apply ensures_bind. intros [pm ledger1] Happly.
  pose proof (apply_payment_full ctx _ l1 _ 0 _ _ Happly) as Hpm. simpl in Hpm.
  apply ensures_bind. intros [withdrawn ledger2] Hseize.
  pose proof (seize_collateral_nonneg _ _ _ _ _ Hseize) as Hw. simpl in Hw.
  apply ensures_bind. intros m Hm. apply ensures_bind. intros fee Hfee.
  apply ensures_bind. intros l' Hl'. intros w' Hclose.
  pose proof (keeper_close_out_loan _ _ _ _ _ _ Hclose) as Hw'.
  pose proof (keeper_close_out_ledger _ _ _ _ _ _ Hclose) as Hled.
  pose proof (resolve_fixed_collateral _ _ _ _ _ _ _ _ Hl') as Hcol.
  simpl in Hw', Hled. rewrite Hpm in Hw', Hl', Hm, Hcol.
  destruct (keeper_step l l1 paid _ fee _ withdrawn mx l' _ Hnow Hact Ha Hpaid Hfee Hw eq_refl Hl')
    as [Hstep Hleft].
  exists mx, l1, paid, split, ledger, pm, ledger1, withdrawn, m, l'. rewrite Hw', Hled.
  by split_and!.
Qed.

Lemma liquidate_step ctx data w l :
  now < 2 ^ 63 → wd_loan w = Some l → loan_type_byte l = LoanType_as_u8 LoanType_Fixed →
  ensures (process_liquidate_loan invoke_signed invoke_token parse ctx now data w)
    (paid_by w (pay_from_keeper invoke_token ctx) l).
Proof.
  intros Hnow Hl Hty. eapply ensures_mono; [by apply liquidate_trace|].
  intros w' (mx & l1 & paid & split & ledger & pm & ledger1 & wd & m & l' & H). exists paid, ledger, l'.
  by destruct H as (_ & _ & _ & _ & _ & ? & _ & ? & ?).
Qed.
End handlers.

(** ** Transactions *)

(** The payments on a fixed loan, as the transaction names them. *)
Definition is_payment (i : MarketIx) : bool :=
  match i with
  | IxRepay _ _ | IxSettleMaturedLoan _ _ | IxLiquidateLoan _ _ => true
  | _ => false
  end.

Section transactions.
Context (invoke_signed : MarginfiIx → list AccountInfo → result (list AccountInfo)).
Context (invoke_token : TokenIx → list AccountInfo → result (list AccountInfo)).
Context (parse : list Z → option StakeState) (pdas : Pdas) (now : Z).

(** A promotion needs an empty loan account, a refinancing a variable-rate loan. *)
Lemma promotion_gate_empty k g ctx q w :
  ensures (promotion_gate pdas k g ctx q w) (λ _, wd_loan w = None).
Proof.
  unfold promotion_gate. do 2 (apply ensures_bind; intros ? _). apply ensures_bind; intros [node i] _.
  apply ensures_bind; intros ? _. apply ensures_bind; intros [] H%require_Ok%bool_decide_eq_true.
  by intros ? _.
Qed.

Lemma convert_gate_p2pool k g w l : wd_loan w = Some l →
  ensures (convert_gate pdas k g w) (λ _, loan_type_byte l = LoanType_as_u8 LoanType_P2Pool).
Proof.
  intros Hl. unfold convert_gate, the_loan. rewrite Hl. apply ensures_bind; intros ? _. simpl.
  do 3 (apply ensures_bind; intros ? _). apply ensures_bind; intros [] H%require_Ok%Z.eqb_eq.
  by intros ? _.
Qed.

(** Nothing else touches a fixed loan. *)
Lemma other_ix_loan k g i w l : is_payment i = false → wd_loan w = Some l →
  loan_type_byte l = LoanType_as_u8 LoanType_Fixed →
  ensures (process_market_ix invoke_signed invoke_token parse pdas now k g i w) (same_loan w).
Proof.
  intros Hi Hl Hty. destruct i; try discriminate Hi; simpl;
    lazymatch goal with
    | |- ensures (promotion_gate _ _ _ _ _ _ ≫= _) _ =>
        apply ensures_bind; eapply ensures_mono; [apply promotion_gate_empty|];
        intros ? H; congruence
    | |- ensures (convert_gate _ _ _ _ ≫= _) _ =>
        apply ensures_bind; eapply ensures_mono; [by apply convert_gate_p2pool|];
        intros ? H; by rewrite H in Hty
    | |- _ => idtac
    end.
  all: try (unfold on_book, on_market; ensure_walk; done).
  all: apply ensures_bind; intros ? _;
    unfold process_claim_seat, process_deposit, process_withdraw, process_place_order,
      process_cancel_order, process_update_order, process_sync_market_position,
      process_claim_repayment_for_sub_vault; cbv zeta; ensure_walk.
  all: done.
Qed.

(** A payment through its gate. *)
Lemma payment_ix_loan k g i w l : is_payment i = true → now < 2 ^ 63 → wd_loan w = Some l →
  loan_type_byte l = LoanType_as_u8 LoanType_Fixed →
  ensures (process_market_ix invoke_signed invoke_token parse pdas now k g i w)
    (λ w', ∃ pay, paid_by w pay l w').
Proof.
  intros Hi Hnow Hl Hty. destruct i; try discriminate Hi; simpl; apply ensures_bind; intros ? _.
  - eapply ensures_mono; [by apply process_repay_step|]. intros w' H. eauto.
  - eapply ensures_mono; [by apply settle_step|]. intros w' H. eauto.
  - eapply ensures_mono; [by apply liquidate_step|]. intros w' H. eauto.
Qed.
End transactions.

(** One transaction of the chain, seen from one loan account. *)
Lemma step_loan env s s' key l :
  step env s s' → sy_loans s !! key = Some l →
  loan_type_byte l = LoanType_as_u8 LoanType_Fixed →
  sy_loans s' !! key = Some l
  ∨ ∃ paid l', loan_step l paid l' ∧ sy_loans s' !! key = loan_left l'.
Proof.
  intros Hs Hkey Hty.
  destruct Hs as [k b u led now g i w w' _ [_ Hnow] _ Ho Hr| | | | |]; try (by left).
  unfold open_world in Ho. apply bind_Some in Ho as (m & _ & Ho).
  apply bind_Some in Ho as (vo & _ & [= Ew]).
  destruct (decide (key = tk_loan k)) as [->|Hne].
  - assert (sy_loans (close_world s k w') !! tk_loan k = wd_loan w') as Hw.
    { simpl. destruct (wd_loan w'); [apply lookup_insert_eq|apply lookup_delete_eq]. }
    assert (wd_loan w = Some l) as Hw0 by (by rewrite <- Ew).
    destruct (is_payment i) eqn:Hi.
    + right. destruct (payment_ix_loan _ _ _ _ _ _ _ _ _ _ Hi Hnow Hw0 Hty _ Hr)
        as (pay & paid & ledger & l' & _ & Hstep & Hl'). exists paid, l'. by rewrite Hw, Hl'.
    + left. pose proof (other_ix_loan _ _ _ _ _ _ _ _ _ _ Hi Hw0 Hty _ Hr) as Hsame.
      rewrite Hw, Hsame. exact Hw0.
  - left. simpl. destruct (wd_loan w'); [by rewrite lookup_insert_ne|by rewrite lookup_delete_ne].
Qed.

(** ** Properties *)

(** C17: the ledger of a fixed loan adds up over its whole life.  Take a live loan and any
    sequence of accepted payments by its borrower and by keepers, at any times: at the
    end it is well-formed and its claims equal its debt plus what was retired; what is
    still owed plus what was paid is the debt it had plus the simple interest since, at
    its own rates on its principal; the retired counter rose by what was paid; its terms
    (parties, rates, dates, stamps, snapshots) are untouched; its collateral never grew;
    and it is closed exactly when nothing is owed. *)
Theorem loan_life_accounting (l0 l : LoanFixed) (total : Z)
    (Hlive : live_loan l0) (Hlife : loan_life l0 total l) :
  loan_wf l ∧ loan_conserved l ∧ terms l = terms l0
  ∧ outstanding_debt_atoms l + total
    = outstanding_debt_atoms l0
      + (interest_at l0 (last_accrued_unix l) - interest_at l0 (last_accrued_unix l0))
  ∧ principal_retired_atoms l = principal_retired_atoms l0 + total
  ∧ 0 <= loan_collateral_atoms l <= loan_collateral_atoms l0
  ∧ (outstanding_debt_atoms l = 0 ↔ loan_state_byte l = LoanState_as_u8 LoanState_Repaid).
Proof.
  destruct (loan_life_inv _ _ _ Hlive Hlife). split_and!; try done; try lia.
  rewrite li_closed0. unfold not_repaid. split; [|tauto].
  destruct (decide (loan_state_byte l = LoanState_as_u8 LoanState_Repaid)); tauto.
Qed.

Lemma sample_live : live_loan sample_loan.
Proof. split; [apply (bool_decide_unpack _); vm_compute; exact I|reflexivity..|discriminate|reflexivity|discriminate]. Qed.

(** The sample loan is repaid in part by its borrower, then cleared by a keeper. *)
Lemma loan_life_accounting_witness :
  ∃ l, loan_life sample_loan 1009862 l ∧ outstanding_debt_atoms l = 0
    ∧ 1009862 = 1000000 + (interest_at sample_loan 1702592000 - interest_at sample_loan 1700000000).
Proof.
  eexists. eassert (loan_life sample_loan (0 + 400000 + 609862) _) as Hlife.
  { eapply life_step; [eapply life_step; [apply life_start|]|].
    - eapply (borrower_pays _ 1701000000 (mkRepayParams 400000 false None));
        [reflexivity|discriminate|vm_compute; reflexivity|vm_compute; reflexivity|vm_compute; reflexivity].
    - eapply (keeper_pays _ 1702592000 0 0 0 0);
        [reflexivity|discriminate|vm_compute; reflexivity|vm_compute; reflexivity
        |vm_compute; reflexivity|discriminate|vm_compute; reflexivity]. }
  pose proof (loan_life_accounting _ _ _ sample_live Hlife) as (_ & _ & _ & Hdebt & _).
  split; [exact Hlife|split; [reflexivity|]]. exact Hdebt.
Defined.

(** C16: on the whole chain a fixed loan changes only by payments.  From any state with
    a live fixed loan in some account, run any transactions whatever the other programs,
    the oracles and the clock do: the account has lived through payments of the borrower
    and of keepers only, and it holds the loan they left, or that loan was cleared and
    closed. *)
Theorem chain_loans_only_pay (env : Env) (s s' : System) (key : Pubkey) (l0 : LoanFixed)
    (Hkey : sy_loans s !! key = Some l0) (Hlive : live_loan l0) (Hrun : rtc (step env) s s') :
  ∃ total l, loan_life l0 total l
    ∧ (sy_loans s' !! key = Some l ∨ outstanding_debt_atoms l = 0).
Proof.
  revert s' Hrun. refine (rtc_ind_r _ _ _ _); [exists 0, l0; split; [constructor|by left]|].
  intros s1 s2 _ Hs (total & l & Hlife & [Hl|Hl]); [|exists total, l; by split; [|right]].
  assert (loan_type_byte l = LoanType_as_u8 LoanType_Fixed) as Hty.
  { rewrite (terms_type _ _ (li_terms _ _ _ (loan_life_inv _ _ _ Hlive Hlife))). by destruct Hlive. }
  destruct (step_loan _ _ _ _ _ Hs Hl Hty) as [Hl2|(paid & l' & Hstep & Hl2)].
  - exists total, l. by split; [|left].
  - exists (total + paid), l'. split; [by eapply life_step|]. unfold loan_left in Hl2.
    destruct (Z.eqb_spec (outstanding_debt_atoms l') 0); [by right|by left].
Qed.

(** A chain with one market, one vault and one loan, whose marginfi credits what is
    deposited; its borrower repays 400000 atoms a week into the loan. *)
Definition crediting_marginfi (ix : MarginfiIx) (accounts : list AccountInfo)
    : result (list AccountInfo) :=
  match ix with
  | DepositIx amount _ =>
      Ok (<[1%nat := sample_marginfi_account 5 ((700 + amount) * SCALE) 0]> accounts)
  | _ => Ok accounts
  end.
Definition repay_env : Env :=
  mkEnv crediting_marginfi (λ _ accounts, Ok accounts) (λ _, None) (λ _ _, (0, 0))
    (mkPdas (λ market sequence, market + sequence) (λ bank, bank)).
Definition repayable_loan : LoanFixed :=
  new_from_matched_loan_with_lender 7 1 255 9 160 0 1000000 1000000 5000000 1200 1000
    2592000 1700000000 1 LoanType_Fixed 0 OWNER_KIND_SUB_VAULT 1 11 1000 fp48_ONE fp48_ONE.
Definition repay_context : RepayContext :=
  mkRepayContext 500 7 8 30 31 SPL_TOKEN_ID (mkMintInfo 32 6) 33 21 5 34 35 36 MARGINFI_ID.
Definition repay_ledger : Ledger :=
  <[21 := sample_marginfi_account 5 (700 * SCALE) 0]> (<[5 := sample_bank 5 SCALE SCALE]>
  (<[MARGINFI_ID := mkAccountInfo MARGINFI_ID 0 []]>
  (list_to_map ((λ k, (k, mkAccountInfo k 1 []))
                <$> [30; 31; 32; 33; 34; 35; 36; 500; SPL_TOKEN_ID])))).
Definition repay_user : UserAccount :=
  match expand_user_account (mkUserAccount (user_account_new_empty 500 255) ∅) with
  | Ok u => u
  | Err _ => mkUserAccount (user_account_new_empty 500 255) ∅
  end.
Definition repay_system : System :=
  mkSystem (Some (global_config_new_empty 9)) {[7 := sample_match_market]}
    {[11 := sample_match_vault]} {[8 := repayable_loan]}.
Definition repaid_world : result World :=
  match open_world repay_system (mkTxKeys 7 11 8) true repay_user repay_ledger with
  | Some w => process_market_ix (env_invoke_signed repay_env) (env_invoke_token repay_env)
      (env_parse_stake_state repay_env) (env_pdas repay_env) 1700604800 (mkTxKeys 7 11 8)
      (global_config_new_empty 9) (IxRepay repay_context (mkRepayParams 400000 false None)) w
  | None => Err Panic
  end.

Lemma chain_loans_only_pay_witness :
  match repaid_world with
  | Ok w =>
      let s := close_world repay_system (mkTxKeys 7 11 8) w in
      outstanding_debt_atoms <$> sy_loans s !! 8 = Some 602300
      ∧ ∃ total l, loan_life repayable_loan total l
          ∧ (sy_loans s !! 8 = Some l ∨ outstanding_debt_atoms l = 0)
  | Err _ => False
  end.
Proof.
  destruct repaid_world as [w|e] eqn:E; [|vm_compute in E; discriminate E].
  split; [vm_compute in E; injection E as <-; vm_compute; reflexivity|].
  apply (chain_loans_only_pay repay_env repay_system); [reflexivity| |].
  - split; [apply (bool_decide_unpack _); vm_compute; exact I|reflexivity..|discriminate|reflexivity|discriminate].
  - apply rtc_once. unfold repaid_world in E.
    destruct (open_world repay_system (mkTxKeys 7 11 8) true repay_user repay_ledger) as [w0|] eqn:Ew;
      [|discriminate E].
    eapply (step_market_ix repay_env repay_system (mkTxKeys 7 11 8) true repay_user repay_ledger
      1700604800 _ (IxRepay repay_context (mkRepayParams 400000 false None)) w0);
      [reflexivity|split; reflexivity || discriminate|exact I|exact Ew|exact E|exact I].
Defined.
