(* ===== verification/KeeperSpec.v ===== *)
(** * What keepers may do

    A liquidation is justified by the oracles and bounded by the loan's own stamp, by what
    the keeper paid and by the collateral; the split of the collateral conserves it; a
    payment that a keeper may make is never dust; and the bookkeeping accepts a full
    payment unless the debt is dust against its fees. *)
From stdpp Require Import base numbers list option gmap.
From S2P Require Import Prelude FixedPoint Loan Marginfi Oracles Ltv Hypertree SubVault.
From S2P Require Import Market VaultTrees Matching UserAccount Runtime LoanClose Repay.
From S2P Require Import Keeper Promotion Deposits Claims Convert Admin Orders Program.
From S2P Require Import HypertreeFrame HypertreeSpec HypertreeOrder MarketSpec VaultSpec MatchingSpec.
From S2P Require Import LoanLife.
Local Open Scope Z_scope.

(** ** The size of a payment *)

Lemma size_keeper_repay_spec mx out paid :
  0 <= mx → 0 < out →
  size_keeper_repay mx out = Ok paid ↔
    paid = (if mx =? 0 then out else Z.min mx out)
    ∧ (paid = out ∨ MIN_PARTIAL_REPAY_FLOOR_ATOMS <= out
                    ∧ Z.max (out / 100) MIN_PARTIAL_REPAY_FLOOR_ATOMS <= paid).
Proof.
  intros Hm Ho. unfold size_keeper_repay. cbv zeta.
  set (a := if mx =? 0 then out else Z.min mx out).
  assert (0 < a) as Ha by (subst a; destruct (Z.eqb_spec mx 0); lia).
  rewrite (proj2 (Z.ltb_lt _ _)) by done. simpl. destruct (Z.eqb_spec a out) as [E|E].
  - split; [intros [= <-]; tauto|]. by intros [-> _].
  - split.
    + intros H. inv_ok. subst. split; [done|]. right. lia.
    + intros [-> [?|[H1 H2]]]; [done|]. rewrite (proj2 (Z.leb_le _ _)) by done. simpl.
      by rewrite (proj2 (Z.leb_le _ _)) by done.
Qed.

(** Payments by keepers at one moment, each sized on what the last one left. *)
Fixpoint keeper_payments (maxes : list Z) (out : Z) : result (list Z * Z) :=
  match maxes with
  | [] => Ok ([], out)
  | mx :: maxes =>
      paid ← size_keeper_repay mx out;
      '(rest, remaining) ← keeper_payments maxes (out - paid);
      mret (paid :: rest, remaining)
  end.

Lemma size_keeper_repay_zero m : size_keeper_repay m 0 = Err InvalidArgument.
Proof.
  unfold size_keeper_repay. cbv zeta.
  by rewrite (proj2 (Z.ltb_ge _ _)) by (destruct (Z.eqb_spec m 0); lia).
Qed.

Lemma keeper_payments_facts maxes out pays remaining :
  Forall (λ m, 0 <= m) maxes → 0 <= out → keeper_payments maxes out = Ok (pays, remaining) →
  0 <= remaining ∧ foldr Z.add 0 pays + remaining = out
  ∧ (pays = [] ∨ MIN_PARTIAL_REPAY_FLOOR_ATOMS * (Z.of_nat (length pays) - 1) < out)
  ∧ Forall (λ p, 0 < p) pays
  ∧ (0 < remaining → Forall (λ p, MIN_PARTIAL_REPAY_FLOOR_ATOMS <= p) pays).
Proof.
  intros Hm. revert out pays. induction Hm as [|mx maxes Hmx _ IH]; intros out pays Ho H.
  { injection H as <- <-. split_and!; try done. by left. }
  simpl in H. destruct (Z.eq_dec out 0) as [->|Hne].
  { rewrite size_keeper_repay_zero in H. discriminate H. }
  apply bind_Ok in H as (paid & Hp & H). apply bind_Ok in H as ([rest rem] & Hr & [= <- <-]).
  apply size_keeper_repay_spec in Hp as [Hpaid Hp]; [|done|lia].
  assert (0 < paid <= out) as Hle.
  { destruct (Z.eqb_spec mx 0); [lia|]. subst paid. lia. }
  destruct (IH (out - paid) rest ltac:(lia) Hr) as (H1 & H2 & H3 & H4 & H5).
  unfold MIN_PARTIAL_REPAY_FLOOR_ATOMS in *. simpl.
  split_and!; [done|lia| |constructor; [lia|done]|].
  - right. destruct H3 as [->|H3]; [simpl; lia|]. destruct Hp as [->|[_ Hp]]; [|lia].
    assert (rest = []) as ->; [|simpl; lia]. destruct rest as [|p rest]; [done|].
    exfalso. rewrite Z.sub_diag in *. simpl in H2, H3. apply Forall_cons in H4 as [Hp0 H4].
    assert (0 <= foldr Z.add 0 rest) by (clear -H4; induction H4; simpl; lia). lia.
  - intros Hrem. constructor; [|by apply H5]. destruct Hp as [->|[_ Hp]]; [|lia].
    exfalso. assert (0 <= foldr Z.add 0 rest) by (clear -H4; induction H4; simpl; lia). lia.
Qed.

(** ** The split of the collateral *)

Lemma compute_collateral_split_Ok v c b s :
  in_u U64 v → in_u U64 c → in_u U16 b →
  compute_collateral_split v c b = Ok s ↔
    b <= MAX_LIQUIDATION_KEEPER_BPS
    ∧ s = (let bonus := v * b / 10000 in
           let target := Z.min (umax U64) (v + bonus) in
           mkCollateralSplit (Z.min c target) (c - Z.min c target) (Z.max 0 (target - c)) bonus).
Proof.
  intros Hv Hc Hb. unfold compute_collateral_split. cbv zeta.
  destruct (Z.leb_spec b MAX_LIQUIDATION_KEEPER_BPS) as [Hle|Hgt]; simpl; [|split; [done|lia]].
  unfold MAX_LIQUIDATION_KEEPER_BPS in *.
  assert (mul_div_u64 v b 10000 false = Ok (v * b / 10000)) as ->.
  { apply mul_div_u64_Ok; [done|eapply in_u_mono; [|exact Hb]; done|done|]. split; [done|split; [done|]].
    apply Z.div_lt_upper_bound; [done|]. zlia || (unfold_ints; nia). }
  simpl. unfold saturating_add, saturating_sub.
  assert (Z.max 0 (c - Z.min c (Z.min (umax U64) (v + v * b / 10000)))
          = c - Z.min c (Z.min (umax U64) (v + v * b / 10000))) as -> by lia.
  split; [intros [= <-]; done|by intros [_ ->]].
Qed.

(** ** Clearing a loan *)

(** What a full payment needs: the two fee remainders, each rounded up to an atom, fit
    into the debt. *)
Lemma full_resolution l :
  loan_wf l → assert_loan_conservation l = Ok tt → 0 < outstanding_debt_atoms l →
  2 * (outstanding_debt_atoms l + principal_retired_atoms l)
    <= outstanding_debt_atoms l * lender_claimable_atoms l →
  ∃ p, apply_partial_resolution l (outstanding_debt_atoms l)
       = Ok (resolved l (outstanding_debt_atoms l), p).
Proof.
  intros Hwf Hc Ho Hdust. rewrite apply_partial_resolution_eq by (done || lia).
  apply assert_loan_conservation_Ok in Hc as (Hc & Hs & _).
  rewrite resolution_portions_full by done. unfold loan_conserved in Hc.
  pose proof Hwf as []. unfold in_u in *.
  set (out := outstanding_debt_atoms l) in *. set (r := principal_retired_atoms l) in *.
  set (p := accumulated_protocol_fee_atoms l) in *. set (c := accumulated_curator_fee_atoms l) in *.
  assert (∀ f, 0 <= f → f * out + (out + r) > (out + r) * (f - f * r / (out + r))) as Hdue.
  { intros f Hf. pose proof (Z.mod_pos_bound (f * r) (out + r) ltac:(lia)).
    pose proof (Z.div_mod (f * r) (out + r) ltac:(lia)). nia. }
  pose proof (Hdue p ltac:(lia)). pose proof (Hdue c ltac:(lia)).
  rewrite (proj2 (Z.leb_le _ _)); [by eexists|]. nia.
Qed.

Lemma fixed_repaid_full l p :
  apply_partial_resolution l (outstanding_debt_atoms l)
    = Ok (resolved l (outstanding_debt_atoms l), p) →
  ∃ l', fixed_repaid l (outstanding_debt_atoms l) = Ok (l', true) ∧ loan_left l' = None.
Proof.
  intros Hp. unfold fixed_repaid. rewrite Hp. simpl. rewrite Z.sub_diag. simpl.
  eexists. split; [reflexivity|]. unfold loan_left. simpl. rewrite ?Z.sub_diag; done.
Qed.

(** The keeper's bookkeeping never blocks a full payment. *)
Lemma resolve_fixed_full l fee gap c w :
  loan_wf l → assert_loan_conservation l = Ok tt → 0 <= fee → 0 < outstanding_debt_atoms l →
  2 * (outstanding_debt_atoms l + principal_retired_atoms l)
    <= outstanding_debt_atoms l * lender_claimable_atoms l →
  ∃ l', resolve_fixed (outstanding_debt_atoms l) fee gap c w true l = Ok l' ∧ loan_left l' = None.
Proof.
  intros Hwf Hc Hfee Ho Hdust. destruct (full_resolution l Hwf Hc Ho Hdust) as [p Hp].
  apply assert_loan_conservation_Ok in Hc as (Hc & Hs & _). unfold loan_conserved in Hc.
  destruct Hwf. unfold in_u in *. unfold resolve_fixed. rewrite Hp. simpl.
  assert (∃ l1, move_protocol_fee fee (resolved l (outstanding_debt_atoms l)) = Ok l1
    ∧ loan_conserved l1 ∧ outstanding_debt_atoms l1 = 0 ∧ 0 <= lender_claimable_atoms l1
    ∧ 0 <= accumulated_protocol_fee_atoms l1 ∧ 0 <= accumulated_curator_fee_atoms l1
    ∧ principal_retired_atoms l1 = outstanding_debt_atoms l + principal_retired_atoms l)
    as (l1 & -> & Hc1 & Ho1 & Hl1 & Hp1 & Hq1 & Hr1).
  { unfold move_protocol_fee, loan_conserved. destruct (0 <? fee) eqn:E.
    - simpl. rewrite sub_ok by lia. simpl. rewrite add_ok by lia. simpl.
      eexists. split; [reflexivity|]. simpl. split_and!; lia.
    - eexists. split; [reflexivity|]. simpl. split_and!; lia. }
  simpl. unfold loan_conserved in Hc1.
  assert (∃ l2, clawback_curator_fee gap l1 = Ok l2
    ∧ loan_conserved l2 ∧ outstanding_debt_atoms l2 = 0 ∧ 0 <= lender_claimable_atoms l2
    ∧ 0 <= accumulated_protocol_fee_atoms l2 ∧ 0 <= accumulated_curator_fee_atoms l2
    ∧ principal_retired_atoms l2 = outstanding_debt_atoms l + principal_retired_atoms l)
    as (l2 & -> & Hc2 & Ho2 & Hl2 & Hp2 & Hq2 & Hr2).
  { unfold clawback_curator_fee, loan_conserved. destruct (_ && _) eqn:E.
    - rewrite add_ok by lia. simpl. eexists. split; [reflexivity|]. simpl. split_and!; lia.
    - eexists. split; [reflexivity|]. simpl. split_and!; lia. }
  simpl. unfold loan_conserved in Hc2. eexists. rewrite (proj2 (assert_loan_conservation_Ok _)).
  - simpl. split; [reflexivity|]. unfold loan_left. simpl. by rewrite Ho2.
  - unfold loan_conserved. simpl. rewrite Ho2, Hr2. split_and!; lia.
Qed.

(** ** Properties *)

(** The bookkeeping accepts a full payment.  At a later time at which the interest fits
    and the debt is not dust against the fees (the lender's claim times the debt is at
    least twice the loan's total claim), the borrower's request to repay everything and a
    keeper's payment without a limit both come to the whole debt, and the ledger updates
    of both close the loan, whatever fee, gap and collateral the keeper's handler computes.
    (The gates, the pauses and the calls of the handlers are not part of this.) *)
Theorem full_payment_books (l : LoanFixed) (now : Z) (Hlive : live_loan l)
    (Hnow : last_accrued_unix l < now < 2 ^ 63) (Hfits : accrual_fits (accrued l now) = true)
    (Htotal : outstanding_debt_atoms (accrued l now) + principal_retired_atoms l < 2 ^ 64)
    (Hdust : 2 * (outstanding_debt_atoms (accrued l now) + principal_retired_atoms l)
             <= outstanding_debt_atoms (accrued l now) * lender_claimable_atoms (accrued l now)) :
  let out := outstanding_debt_atoms (accrued l now) in
  accrue_loan l now = Ok (accrued l now)
  ∧ (∀ atoms, size_repayment (mkRepayParams atoms true None) out = Ok out)
  ∧ size_keeper_repay 0 out = Ok out
  ∧ (∃ l', fixed_repaid (accrued l now) out = Ok (l', true) ∧ loan_step l out l' ∧ loan_left l' = None)
  ∧ ∀ bps fee gap collateral withdrawn,
      liquidation_protocol_atoms LoanType_Fixed bps out = Ok fee →
      ∃ l', resolve_fixed out fee gap collateral withdrawn true (accrued l now) = Ok l'
            ∧ loan_left l' = None.
Proof.
  intros out. pose proof Hlive as [].
  assert (accruing l) as Ha by (split_and!; [lia|done|by rewrite ll_fixed]).
  assert (loan_wf (accrued l now)) as Hwf by (apply loan_wf_accrued; (done || lia)).
  pose proof (accrued_mono l now ll_wf ltac:(lia)) as (Hm & _).
  assert (accrue_loan l now = Ok (accrued l now)) as Hacc by (by rewrite accrue_loan_eq, Hfits).
  assert (assert_loan_conservation (accrued l now) = Ok tt) as Hc.
  { apply assert_loan_conservation_Ok. unfold loan_conserved in *. destruct Hwf. unfold in_u in *.
    simpl in *. split_and!; lia. }
  assert (0 < out) as Hout by (subst out; lia). fold out in Hm, Htotal, Hdust.
  assert (∀ atoms, size_repayment (mkRepayParams atoms true None) out = Ok out) as Hsize by done.
  assert (size_keeper_repay 0 out = Ok out) as Hkeep by (apply size_keeper_repay_spec; [done..|auto]).
  split; [done|split; [done|split; [done|split]]].
  - destruct (full_resolution (accrued l now) Hwf Hc Hout Hdust) as [p Hp].
    assert (∃ l', fixed_repaid (accrued l now) out = Ok (l', true) ∧ loan_left l' = None)

      as (l' & Hl' & Hleft) by (by eapply fixed_repaid_full).
    exists l'. split; [done|split; [|done]].
    by eapply (borrower_pays l now (mkRepayParams 0 true None)); [lia|..].
  - intros bps fee gap c w Hfee. apply resolve_fixed_full; try done.
    by eapply liquidation_protocol_nonneg.
Qed.

Lemma full_payment_books_witness :
  ∃ l', fixed_repaid (accrued sample_loan 1702592000) 1009862 = Ok (l', true)
        ∧ loan_step sample_loan 1009862 l' ∧ loan_left l' = None.
Proof.
  refine (proj1 (proj2 (proj2 (proj2 (full_payment_books sample_loan 1702592000 sample_live _ _ _ _)))));
    [split; reflexivity|vm_compute; reflexivity|vm_compute; reflexivity|vm_compute; discriminate].
Defined.

(** Keepers cannot drag out a loan.  Any sequence of accepted keeper payments on a
    debt of [out] atoms, at one moment, adds up to what it retired; every payment that
    left some debt was at least 1000 atoms, so there are at most [out / 1000 + 1] of
    them; and once nothing is left no payment is accepted. *)
Theorem keeper_payments_terminate (maxes pays : list Z) (out remaining : Z)
    (Hmaxes : Forall (λ m, 0 <= m) maxes) (Hout : 0 < out)
    (H : keeper_payments maxes out = Ok (pays, remaining)) :
  0 <= remaining ∧ foldr Z.add 0 pays + remaining = out
  ∧ MIN_PARTIAL_REPAY_FLOOR_ATOMS * (Z.of_nat (length pays) - 1) < out
  ∧ Forall (λ p, 0 < p) pays ∧ (0 < remaining → Forall (λ p, MIN_PARTIAL_REPAY_FLOOR_ATOMS <= p) pays)
  ∧ ∀ m, size_keeper_repay m 0 = Err InvalidArgument.
Proof.
  destruct (keeper_payments_facts maxes out pays remaining) as (H1 & H2 & H3 & H4 & H5);
    [done|lia|done|].
  split_and!; try done; [destruct H3; [subst; unfold MIN_PARTIAL_REPAY_FLOOR_ATOMS; simpl; lia|lia]|apply size_keeper_repay_zero].
Qed.

Lemma keeper_payments_terminate_witness :
  keeper_payments [100000; 50000; 0] 1000000 = Ok ([100000; 50000; 850000], 0)
  ∧ MIN_PARTIAL_REPAY_FLOOR_ATOMS * (3 - 1) < 1000000.
Proof.
  split; [vm_compute; reflexivity|].
  refine (proj1 (proj2 (proj2 (keeper_payments_terminate [100000; 50000; 0]
    [100000; 50000; 850000] 1000000 0 _ _ _)))); [repeat constructor; discriminate|reflexivity|].
  vm_compute. reflexivity.
Defined.

(** The liquidation split conserves the collateral.  It fails exactly when the bonus
    exceeds 50%; otherwise what the keeper seizes and what is left add up to the
    collateral, the keeper's target is the payment's value plus the bonus on it, at most
    half as much again, there is bad debt exactly as far as the collateral falls short of
    the target, and never both bad debt and collateral left. *)
Theorem collateral_split_conserves (value collateral bonus_bps : Z)
    (Hvalue : in_u U64 value) (Hcollateral : in_u U64 collateral) (Hbonus : in_u U16 bonus_bps) :
  match compute_collateral_split value collateral bonus_bps with
  | Ok s =>
      bonus_bps <= MAX_LIQUIDATION_KEEPER_BPS
      ∧ liquidator_seizes_atoms s + surplus_atoms s = collateral
      ∧ 0 <= liquidator_seizes_atoms s ∧ 0 <= surplus_atoms s
      ∧ bonus_atoms s = value * bonus_bps / 10000 ∧ 0 <= 2 * bonus_atoms s <= value
      ∧ liquidator_seizes_atoms s + bad_debt_gap_atoms s
        = Z.min (umax U64) (value + bonus_atoms s)
      ∧ (bad_debt_gap_atoms s = 0 ∨ surplus_atoms s = 0)
  | Err e => MAX_LIQUIDATION_KEEPER_BPS < bonus_bps ∧ e = InvalidArgument
  end.
Proof.
  destruct (Z.le_gt_cases bonus_bps MAX_LIQUIDATION_KEEPER_BPS) as [Hle|Hgt].
  - rewrite (proj2 (compute_collateral_split_Ok value collateral bonus_bps _ Hvalue Hcollateral Hbonus)
      (conj Hle eq_refl)). simpl. unfold MAX_LIQUIDATION_KEEPER_BPS in *.
    assert (0 <= value * bonus_bps / 10000) by (apply Z.div_pos; unfold in_u in *; nia).
    assert (2 * (value * bonus_bps / 10000) <= value).
    { pose proof (Z.mul_div_le (value * bonus_bps) 10000 ltac:(lia)). unfold in_u in *. nia. }
    unfold in_u in *. split_and!; try lia. unfold umax. zlia.
  - unfold compute_collateral_split. by rewrite (proj2 (Z.leb_gt _ _)) by done.
Qed.

Lemma collateral_split_conserves_witness :
  match compute_collateral_split 400000 410000 500 with
  | Ok s => liquidator_seizes_atoms s = 410000 ∧ bad_debt_gap_atoms s = 10000
      ∧ liquidator_seizes_atoms s + surplus_atoms s = 410000
  | Err _ => False
  end.
Proof.
  pose proof (collateral_split_conserves 400000 410000 500 ltac:(vm_compute; intuition congruence)
    ltac:(vm_compute; intuition congruence) ltac:(vm_compute; intuition congruence)) as H.
  destruct (compute_collateral_split 400000 410000 500) as [s|e] eqn:E;
    [|vm_compute in E; discriminate E].
  split; [|split]; [vm_compute in E; injection E as <-; reflexivity..|apply H].
Defined.

(** ** What a seizure transfers *)

Lemma account_at_Ok accounts i a : account_at accounts i = Ok a ↔ accounts !! i = Some a.
Proof. unfold account_at. apply ok_or_Ok. Qed.

Lemma accounts_of_lookup l ks accounts i k : accounts_of l ks = Ok accounts → ks !! i = Some k →
  ∃ a, account l k = Ok a ∧ accounts !! i = Some a.
Proof.
  revert i accounts. induction ks as [|k' ks IH]; intros i accounts H Hi; [done|].
  apply bind_Ok in H as (a & Ha & H). apply bind_Ok in H as (rest & Hrest & [= <-]).
  destruct i as [|i]; simpl in Hi |- *; [injection Hi as ->; eauto|by eapply IH].
Qed.

(** Shares bought with some atoms are worth no more than these. *)
Lemma shares_worth_at_most bank view asv atoms shares q expected : in_u U64 atoms →
  amount_to_asset_shares [bank] atoms = Ok shares → borrow_bank (ai_data bank) = Ok view →
  wrapped_i80f48_to_u128 (asset_share_value view) = Ok asv → mul_scale shares asv = Ok q →
  to_u64_or_overflow (from_scaled_floor q) = Ok expected → expected <= atoms.
Proof.
  intros Ha Hs Hview Hasv Hq Hexpected.
  assert (shares_to_amount [bank] shares = Ok expected) as Hback.
  { unfold shares_to_amount, first_account in *. cbn [head ok_or mbind result_bind] in *.
    unfold amount_to_asset_shares, first_account in Hs. cbn [head ok_or mbind result_bind] in Hs.
    destruct (assert_marginfi_owned bank) as [[]|]; [|done]. cbn [mbind result_bind] in *.
    rewrite Hview. cbn [mbind result_bind]. rewrite Hasv. cbn [mbind result_bind].
    rewrite Hq. cbn [mbind result_bind]. exact Hexpected. }
  by destruct (asset_shares_round_trip _ _ _ _ Ha Hs Hback).
Qed.

(** The adapter lets one atom pass beyond what the shares are worth, whatever marginfi did. *)
Lemma adapter_withdraw_within invoke_signed accounts bank atoms shares : in_u U64 atoms →
  accounts !! 3%nat = Some bank → amount_to_asset_shares [bank] atoms = Ok shares →
  ensures (adapter_withdraw invoke_signed accounts shares)
    (λ '(withdrawn, _, _), 0 <= withdrawn <= atoms + 1).
Proof.
  intros Ha Hbank Hs. unfold adapter_withdraw. cbv zeta. do 2 forget.
  apply ensures_bind. intros bank' Hb%account_at_Ok. rewrite Hbank in Hb. injection Hb as <-.
  forget. apply ensures_bind. intros view Hview. apply ensures_bind. intros asv Hasv.
  apply ensures_bind. intros q Hq. apply ensures_bind. intros expected Hexpected.
  pose proof (shares_worth_at_most _ _ _ _ _ _ _ Ha Hs Hview Hasv Hq Hexpected) as Hle.
  do 5 forget. apply ensures_bind. intros [] Hdelta. do 2 forget. apply ensures_Ok.
  unfold check_atom_delta in Hdelta.
  match type of Hdelta with context [1 <? Z.abs ?x] => destruct (Z.ltb_spec 1 (Z.abs x)) end;
    [done|]. unfold saturating_sub in *. lia.
Qed.

Lemma seize_collateral_within invoke_signed invoke_token ctx l ty atoms : in_u U64 atoms →
  ensures (seize_collateral invoke_signed invoke_token ctx l ty atoms)
    (λ '(withdrawn, _), 0 <= withdrawn <= atoms + 1).
Proof.
  intros Ha r Hr. unfold seize_collateral in Hr. apply bind_Ok in Hr as (bank & Hbank & Hr).
  apply bind_Ok in Hr as (shares & Hs & Hr). apply bind_Ok in Hr as ([[w s'] l1] & Hw & Hr).
  apply bind_Ok in Hr as (l2 & _ & [= <-]).
  unfold call_withdraw, on_accounts in Hw. apply bind_Ok in Hw as (accs & Haccs & Hw).
  apply bind_Ok in Hw as ([[w' s''] accs'] & Hw & [= <- _ _]).
  destruct (accounts_of_lookup _ _ _ 3 (kc_collateral_bank ctx) Haccs eq_refl) as (bank' & Hb & Hi).
  rewrite Hbank in Hb. injection Hb as <-.
  exact (adapter_withdraw_within _ _ _ _ _ Ha Hi Hs _ Hw).
Qed.

(** What the conversions of prices return is never negative. *)
Lemma from_scaled_ceil_nonneg x n : in_u U128 x → from_scaled_ceil x = Ok n → 0 <= n.
Proof.
  intros Hx H. rewrite from_scaled_ceil_spec in H by done. injection H as <-. unfold ceil_div.
  pose proof (Z.div_pos x SCALE ltac:(apply Hx) ltac:(done)). destruct (_ =? 0); lia.
Qed.

Lemma required_collateral_nonneg d dp cp lw aw dd cd :
  ensures (get_required_quote_collateral_to_back_debt d dp cp lw aw dd cd) (λ n, 0 <= n).
Proof.
  unfold get_required_quote_collateral_to_back_debt. cbv zeta. ensure_step; [by apply ensures_Ok|].
  do 4 forget. apply ensures_bind, ensures_mono with (in_u U128).
  - ensure_step; forget; intros n Hn; by eapply mul_div_range.
  - intros x Hx. apply ensures_bind. intros n Hn. pose proof (from_scaled_ceil_nonneg _ _ Hx Hn).
    ensure_step; by apply ensures_Ok.
Qed.

Lemma split_takes value n bonus : 0 <= value → ensures (compute_collateral_split value n bonus)
  (λ s, liquidator_seizes_atoms s <= n ∧ (0 <= n → 0 <= liquidator_seizes_atoms s)).
Proof.
  intros Hv. unfold compute_collateral_split. forget. apply ensures_bind. intros b Hb.
  apply mul_div_u64_range in Hb. apply ensures_Ok. simpl. unfold saturating_add, umax, in_u in *. lia.
Qed.

(** ** A liquidation *)

(** A payment is the debt or a part of it that is not dust. *)
Lemma size_keeper_repay_bounds mx out paid :
  size_keeper_repay mx out = Ok paid →
  0 < paid <= out ∧ (paid = out ∨ Z.max (out / 100) MIN_PARTIAL_REPAY_FLOOR_ATOMS <= paid).
Proof.
  unfold size_keeper_repay. cbv zeta. intros H. inv_ok.
  destruct (Z.eqb_spec (if mx =? 0 then out else Z.min mx out) out) as [E|E].
  - injection H as <-. rewrite E in *. split; [lia|by left].
  - inv_ok. subst paid. destruct (Z.eqb_spec mx 0); [done|]. split; [lia|right; lia].
Qed.

(** The gate, on the accounts of the transaction. *)
Lemma ltv_gate_fixed_Ok parse ctx now w l out :
  ltv_gate parse ctx now w l LoanType_Fixed out = Ok tt →
  0 < out ∧ 0 < loan_collateral_atoms l ∧ 0 < loan_liquidation_ltv_bps l
  ∧ ∃ dargs cargs dp cp required,
    accounts_of (wd_ledger w) (kc_debt_bank ctx :: kc_debt_oracles ctx) = Ok dargs
    ∧ accounts_of (wd_ledger w) (kc_collateral_bank ctx :: kc_collateral_oracles ctx) = Ok cargs
    ∧ read_oracle_price parse now dargs = Ok dp ∧ read_oracle_price parse now cargs = Ok cp
    ∧ required_collateral_at_ltv_cap out (from_raw dp) (from_raw cp) (loan_liquidation_ltv_bps l)
        (mf_debt_mint_decimals (mk_fixed (wd_market w)))
        (mf_collateral_mint_decimals (mk_fixed (wd_market w))) = Ok required
    ∧ loan_collateral_atoms l < required.
Proof.
  intros H. unfold ltv_gate in H. apply bind_Ok in H as (dbank & _ & H).
  apply bind_Ok in H as (cbank & _ & H). apply bind_Ok in H as (dargs & Hd & H).
  apply bind_Ok in H as (cargs & Hc & H). apply assert_ltv_breach_fixed_Ok in H.
  destruct H as (Ho & Hcol & Hstamp & dp & cp & required & Hdp & Hcp & _ & _ & Hreq & Hlt).
  split_and!; try done. by exists dargs, cargs, dp, cp, required.
Qed.

(** The target of a liquidation: the payment's value at the prices of the two oracles and
    the keeper's bonus on it, as far as the collateral goes. *)
Lemma liquidation_split_Ok parse ctx now w l paid split dargs cargs dp cp :
  accounts_of (wd_ledger w) (kc_debt_bank ctx :: kc_debt_oracles ctx) = Ok dargs →
  accounts_of (wd_ledger w) (kc_collateral_bank ctx :: kc_collateral_oracles ctx) = Ok cargs →
  read_oracle_price parse now dargs = Ok dp → read_oracle_price parse now cargs = Ok cp →
  liquidation_split parse ctx now w l paid = Ok split →
  ∃ value bonus,
    get_required_quote_collateral_to_back_debt paid (from_raw dp) (from_raw cp) fp48_ONE fp48_ONE
      (mf_debt_mint_decimals (mk_fixed (wd_market w)))
      (mf_collateral_mint_decimals (mk_fixed (wd_market w))) = Ok value
    ∧ mul_div_u64 value (fc_liquidation_keeper_bps (fee_config_of w)) 10000 false = Ok bonus
    ∧ liquidator_seizes_atoms split
      = Z.min (loan_collateral_atoms l) (saturating_add U64 value bonus)
    ∧ (0 <= loan_collateral_atoms l → 0 <= liquidator_seizes_atoms split).
Proof.
  intros Hd Hc Hdp Hcp H. unfold liquidation_split in H.
  rewrite Hd, Hc in H. cbn [mbind result_bind] in H.
  rewrite Hdp in H. cbn [mbind result_bind] in H. rewrite Hcp in H. cbn [mbind result_bind] in H.
  apply bind_Ok in H as (value & Hv & H).
  pose proof (required_collateral_nonneg _ _ _ _ _ _ _ _ Hv) as H0. simpl in H0.
  pose proof (split_takes _ _ _ H0 _ H) as [_ Hs].
  unfold compute_collateral_split in H. apply bind_Ok in H as ([] & _ & H).
  apply bind_Ok in H as (bonus & Hb & [= <-]). by exists value, bonus.
Qed.


(** A loan of one million atoms against 1,050,000 at equal prices, past its 90% stamp:
    a keeper pays 400,000 and takes them with a 5% bonus. *)
Definition lending_marginfi (ix : MarginfiIx) (accounts : list AccountInfo)
    : result (list AccountInfo) :=
  match ix with
  | DepositIx amount _ =>
      Ok (<[1%nat := sample_marginfi_account 5 ((700 + amount) * SCALE) 0]> accounts)
  | WithdrawIx amount _ => Ok (<[4%nat := sample_token_account (1000 + amount)]> accounts)
  | _ => Ok accounts
  end.
Definition underwater_loan : LoanFixed :=
  repayable_loan <| loan_collateral_atoms := 1050000 |> <| loan_liquidation_ltv_bps := 9000 |>.
Definition keeper_context : KeeperContext :=
  mkKeeperContext 600 7 8 40 41 42 43 36 21 23 5 6 45 46 47 [31] [31] (mkMintInfo 32 6)
    (mkMintInfo 48 6) SPL_TOKEN_ID 33 MARGINFI_ID.
Definition keeper_ledger : Ledger :=
  list_to_map ([(21, sample_marginfi_account 5 (700 * SCALE) 0);
    (23, sample_marginfi_account 6 (1050000 * SCALE) 0); (5, sample_oracle_bank);
    (6, sample_oracle_bank <| ai_key := 6 |>); (31, sample_pyth_account 1700000000);
    (40, sample_token_account 2000000); (42, sample_token_account 0);
    (43, sample_token_account 1000); (MARGINFI_ID, mkAccountInfo MARGINFI_ID 0 [])]
    ++ ((λ k, (k, mkAccountInfo k 1 [])) <$> [32; 33; 36; 41; 45; 46; 47; 48; 600; SPL_TOKEN_ID])).
Definition keeper_market : Market :=
  sample_match_market <| mk_fixed ::= λ f,
    f <| mf_fee_config := FeeConfig_default <| fc_liquidation_keeper_bps := 500 |>
                                            <| fc_liquidation_protocol_bps := 100 |> |> |>.
Definition keeper_world : World :=
  mkWorld keeper_market (Some sample_match_vault) (Some underwater_loan) repay_user keeper_ledger.

