(* ===== verification/SubVaultSpec.v ===== *)
(** * What a sub-vault owes its lenders

    Shares are minted and burned without diluting anyone ([Deposits]); a loan that is
    funded and closed leaves the weighted rates, the deployed principal and the counts of
    its sub-vault as they were ([LoanClose]); and two places where the atoms that await a
    claim are forgotten. *)
From stdpp Require Import base numbers list option gmap.
From S2P Require Import Prelude FixedPoint Loan Marginfi Hypertree SubVault Market.
From S2P Require Import VaultTrees Matching UserAccount Runtime LoanClose Repay Deposits Claims.
Local Open Scope Z_scope.

(** ** Shares *)

(** The fields that mint and burn read, in their types. *)
Record shares_wf (s : SubVault) : Prop := {
  sh_shares : in_u U128 (sv_total_shares s);
  sh_assets : in_u U64 (sv_total_assets_atoms s);
  sh_principal : 0 <= sv_total_principal_atoms s <= sv_total_assets_atoms s;
  sh_empty : sv_total_shares s = 0 → sv_total_principal_atoms s = 0 }.

(** The assets the minted shares are priced at. *)
Definition priced_assets (s : SubVault) : Z :=
  if sv_total_shares s =? 0 then 0 else sv_total_assets_atoms s.

Lemma mint_shares_Ok s atoms s' n :
  shares_wf s → in_u U64 atoms → mint_shares atoms s = Ok (s', n) →
  0 < n ∧ n = (if sv_total_shares s =? 0 then atoms
               else atoms * sv_total_shares s / sv_total_assets_atoms s)
  ∧ s' = s <| sv_total_shares ::= λ t, t + n |>
           <| sv_total_principal_atoms ::= λ p, p + atoms |>
           <| sv_total_assets_atoms := priced_assets s + atoms |>
  ∧ sv_total_shares s + n < 2 ^ 128 ∧ priced_assets s + atoms < 2 ^ 64.
Proof.
  intros [] Ha H. unfold mint_shares, priced_assets in *.
  destruct (Z.eqb_spec (sv_total_shares s) 0) as [E|E]; simpl in H.
  - inv_ok. subst. split_and!; try done; lia.
  - apply bind_Ok in H as ([s1 n1] & H1 & H).
    apply bind_Ok in H1 as ([] & Hz%require_Ok%negb_true_iff%Z.eqb_neq & H1).
    apply bind_Ok in H1 as (q & Hq & [= <- <-]).
    apply mul_div_floor_Ok in Hq as (_ & -> & _);
      [|eapply in_u_mono; [|exact Ha]; done|done|eapply in_u_mono; [|exact sh_assets0]; done].
    inv_ok. subst. split_and!; try done; lia.
Qed.

Lemma burn_shares_Ok s n mfi s' out :
  shares_wf s → in_u U128 n → 0 <= mfi → burn_shares n mfi s = Ok (s', out) →
  sv_total_shares s ≠ 0 ∧ n <= sv_total_shares s
  ∧ 0 <= out <= n * sv_total_principal_atoms s / sv_total_shares s ∧ out <= mfi
  ∧ (n ≠ sv_total_shares s → out = n * sv_total_principal_atoms s / sv_total_shares s)
  ∧ s' = s <| sv_total_shares ::= λ t, t - n |>
           <| sv_total_assets_atoms ::= λ a, a - out |>
           <| sv_total_principal_atoms ::= λ p, p - out |>
  ∧ out <= sv_total_principal_atoms s.
Proof.
  intros [] Hn Hm H. unfold burn_shares in H. cbv zeta in H.
  assert (in_u U128 (sv_total_principal_atoms s)) as Hp by zlia.
  apply bind_Ok in H as (q & Hq & H). apply mul_div_floor_Ok in Hq as (Hne & -> & _); [|done..].
  set (q := n * sv_total_principal_atoms s / sv_total_shares s) in *.
  assert (0 <= q) by (apply Z.div_pos; unfold in_u in *; nia).
  destruct (Z.eqb_spec (sv_total_shares s) n) as [E|E]; inv_ok; subst; split_and!; try done; try lia.
Qed.

(** ** The weights of the loans *)

(** What an accrual leaves alone: the weighted rates, the deployed and encumbered atoms,
    the pending claims, the open loans and the curator's fee. *)
Definition flows (s : SubVault) : Z * Z * Z * Z * Z * Z * Z :=
  (sv_total_weighted_rate_bps s, sv_total_weighted_net_rate_bps s, sv_deployed_principal_atoms s,
   sv_encumbered_in_orders_atoms s, sv_pending_claim_atoms s, sv_open_loans_count s,
   sv_accumulated_curator_fee_atoms s).

Lemma restore_flows s : flows (restore_assets_principal_invariant s) = flows s.
Proof. unfold restore_assets_principal_invariant. by destruct (_ <? _). Qed.
Lemma stamp_flows s now v : flows (stamp_accrual s now v) = flows s.
Proof. unfold stamp_accrual. cbv zeta. by destruct (fp48_is_zero v). Qed.
Lemma apply_idle_delta_flows s d : ensures (apply_idle_delta s d) (λ s', flows s' = flows s).
Proof. unfold apply_idle_delta. by ensure_walk. Qed.
Lemma grow_indices_flows s d y : ensures (grow_indices s d y) (λ s', flows s' = flows s).
Proof.
  unfold grow_indices. ensure_step; [|by apply ensures_Ok].
  apply ensures_bind, ensures_mono with (λ s', flows s' = flows s); [by ensure_walk|].
  intros s1 H1. by ensure_walk.
Qed.

Lemma accrue_sub_vault_flows s now v : ensures (accrue_sub_vault s now v) (λ s', flows s' = flows s).
Proof.
  unfold accrue_sub_vault. ensure_step; [by apply ensures_Ok|].
  ensure_step; [apply ensures_Ok, stamp_flows|]. do 6 (apply ensures_bind; intros ? _).
  apply ensures_bind. eapply ensures_mono; [apply apply_idle_delta_flows|]. intros s1 H1.
  ensure_step; [apply ensures_Err|]. apply ensures_bind; intros ? _. cbv zeta.
  apply ensures_bind. eapply ensures_mono; [apply grow_indices_flows|]. intros s2 H2.
  apply ensures_Ok. rewrite restore_flows, stamp_flows, H2. exact H1.
Qed.

Lemma mint_shares_flows atoms s : ensures (mint_shares atoms s) (λ '(s', _), flows s' = flows s).
Proof.
  unfold mint_shares. apply ensures_bind, ensures_mono with (λ '(s', _), flows s' = flows s).
  - ensure_walk; done.
  - intros [s1 n] H1. by ensure_walk.
Qed.
Lemma burn_shares_flows n mfi s : ensures (burn_shares n mfi s) (λ '(s', _), flows s' = flows s).
Proof. unfold burn_shares. cbv zeta. by ensure_walk. Qed.

Lemma fund_loan_flows principal rate fee surplus now v s :
  ensures (fund_loan principal rate fee surplus now v s) (λ s', ∃ net,
    net_weighted_delta (principal * rate) fee = Ok net
    ∧ flows s' = (sv_total_weighted_rate_bps s + principal * rate,
        sv_total_weighted_net_rate_bps s + net, sv_deployed_principal_atoms s + principal,
        sv_encumbered_in_orders_atoms s - principal, sv_pending_claim_atoms s,
        sv_open_loans_count s, sv_accumulated_curator_fee_atoms s)).
Proof.
  unfold fund_loan. apply ensures_bind. eapply ensures_mono; [apply accrue_sub_vault_flows|].
  intros s1 H1. apply ensures_bind. intros s2 H2. unfold deploy_loan, weighted_delta in H2.
  inv_ok. subst. unfold flows in H1. injection H1 as <- <- <- <- <- <- <-.
  ensure_step.
  - apply ensures_bind; intros ? _. apply ensures_bind; intros ? _. apply ensures_Ok.
    rewrite restore_flows. by eexists.
  - apply ensures_Ok. by eexists.
Qed.

Lemma reconcile_flows c net now s : ensures (reconcile c net now s) (λ s', flows s' = flows s).
Proof.
  unfold reconcile. cbv zeta. do 5 (apply ensures_bind; intros ? _). apply ensures_Ok.
  by rewrite restore_flows.
Qed.

Lemma close_out_flows c now v s : in_u U64 (co_lender_claimable c) → 0 <= co_curator_fee_atoms c →
  ensures (close_out_sub_vault c now v s) (λ s', ∃ net,
    net_weighted_delta (co_principal c * co_lender_rate_bps c) (co_curator_fee_bps c) = Ok net
    ∧ flows s' = (sv_total_weighted_rate_bps s - co_principal c * co_lender_rate_bps c,
        sv_total_weighted_net_rate_bps s - net, sv_deployed_principal_atoms s - co_principal c,
        sv_encumbered_in_orders_atoms s, sv_pending_claim_atoms s + co_lender_claimable c,
        sv_open_loans_count s - 1, sv_accumulated_curator_fee_atoms s + co_curator_fee_atoms c)).
Proof.
  intros Hc Hf. unfold close_out_sub_vault. apply ensures_bind.
  eapply ensures_mono; [apply accrue_sub_vault_flows|]. intros s1 H1.
  unfold flows in H1. injection H1 as <- <- <- <- <- <- <-.
  apply ensures_bind. intros gross Hg. unfold weighted_delta in Hg.
  apply ensures_bind. intros w Hw. apply ensures_bind. intros net Hnet.
  apply ensures_bind. intros n Hn. apply ensures_bind. intros d Hd.
  apply ensures_bind. intros o Ho. inv_ok. subst.
  apply ensures_bind. eapply ensures_mono; [apply reconcile_flows|]. intros s2 H2.
  unfold flows in H2. simpl in H2. injection H2 as E1 E2 E3 E4 E5 E6 E7.
  apply ensures_bind. intros p Hp. inv_ok. subst.
  ensure_step.
  - apply ensures_bind. intros f Hf'. inv_ok. subst. apply ensures_Ok. exists net. split; [done|].
    unfold flows. simpl. by rewrite E1, E2, E3, E4, E5, E6, E7.
  - apply ensures_Ok. exists net. split; [done|]. unfold flows. simpl.
    rewrite E1, E2, E3, E4, E5, E6, E7. do 2 f_equal. lia.
Qed.

(** ** Properties *)

(** C38: shares are fair.  Minting for a deposit gives shares in proportion to the assets,
    rounded down, so that the assets per share of everyone else never fall; burning pays
    the burned part of the principal, rounded down and never more than the vault holds at
    marginfi, so that neither the principal nor the assets per share of those who stay
    fall; and a deposit burned at once never returns more than was deposited. *)
Theorem shares_fair (s s1 s2 : SubVault) (atoms shares mfi out : Z) (Hwf : shares_wf s)
    (Hatoms : in_u U64 atoms) (Hmfi : 0 <= mfi)
    (Hmint : mint_shares atoms s = Ok (s1, shares))
    (Hburn : burn_shares shares mfi s1 = Ok (s2, out)) :
  0 < shares ∧ sv_total_shares s1 = sv_total_shares s + shares
  ∧ sv_total_principal_atoms s1 = sv_total_principal_atoms s + atoms
  ∧ priced_assets s * sv_total_shares s1 <= sv_total_assets_atoms s1 * sv_total_shares s
  ∧ sv_total_shares s2 = sv_total_shares s
  ∧ sv_total_principal_atoms s1 * sv_total_shares s2 <= sv_total_principal_atoms s2 * sv_total_shares s1
  ∧ sv_total_assets_atoms s1 * sv_total_shares s2 <= sv_total_assets_atoms s2 * sv_total_shares s1
  ∧ 0 <= out <= mfi ∧ out <= atoms.
Proof.
  pose proof (mint_shares_Ok _ _ _ _ Hwf Hatoms Hmint) as (Hn & En & Es1 & Ht & Ha).
  pose proof Hwf as [].
  assert (shares_wf s1) as Hwf1.
  { rewrite Es1. unfold priced_assets in *. unfold in_u in *. split; simpl; unfold in_u;
      destruct (Z.eqb_spec (sv_total_shares s) 0) as [E|E]; try pose proof (sh_empty0 E); lia. }
  assert (in_u U128 shares) as Hsh by (unfold in_u in *; lia).
  pose proof (burn_shares_Ok _ _ _ _ _ Hwf1 Hsh Hmfi Hburn) as (Hne & Hle & Hout & Hm & _ & Es2 & Hp).
  rewrite Es2. simpl. rewrite Es1 in *. simpl in *. unfold priced_assets in *. unfold in_u in *.
  set (T := sv_total_shares s) in *. set (P := sv_total_principal_atoms s) in *.
  set (A := sv_total_assets_atoms s) in *.
  pose proof (Z.mul_div_le (shares * (P + atoms)) (T + shares) ltac:(lia)) as Hq.
  assert (out * (T + shares) <= shares * (P + atoms)) as Hb by nia.
  destruct (Z.eqb_spec T 0) as [E|E].
  - rewrite E in *. subst shares. rewrite (sh_empty0 ltac:(lia)) in *. split_and!; try lia; nia.
  - assert (0 < A).
    { destruct (Z.eq_dec A 0) as [HA|]; [|lia]. rewrite HA in En. rewrite Zdiv_0_r in En. lia. }
    pose proof (Z.mul_div_le (atoms * T) A ltac:(lia)). rewrite <- En in *.
    split_and!; first [lia | nia].
Qed.

Definition sample_lender_vault : SubVault :=
  sub_vault_new_empty 1 77 8000 2592000 <| sv_total_shares := 900 |>
    <| sv_total_principal_atoms := 1000 |> <| sv_total_assets_atoms := 1070 |>.

Lemma shares_fair_witness :
  match mint_shares 500 sample_lender_vault with
  | Ok (s1, shares) =>
      shares = 420
      ∧ match burn_shares shares 100000 s1 with
        | Ok (s2, out) => out = 477 ∧ out <= 500 ∧ sv_total_shares s2 = 900
        | Err _ => False
        end
  | Err _ => False
  end.
Proof.
  destruct (mint_shares 500 sample_lender_vault) as [[s1 shares]|e] eqn:E1;
    [|vm_compute in E1; discriminate E1].
  destruct (burn_shares shares 100000 s1) as [[s2 out]|e] eqn:E2;
    [|vm_compute in E1; injection E1 as <- <-; vm_compute in E2; discriminate E2].
  destruct (shares_fair sample_lender_vault s1 s2 500 shares 100000 out)
    as (_ & _ & _ & _ & Ht & _ & _ & _ & Hout);
    [split; vm_compute; intuition congruence|vm_compute; intuition congruence|lia|exact E1|exact E2|].
  vm_compute in E1. injection E1 as <- <-. vm_compute in E2. injection E2 as <- <-.
  split; [reflexivity|split; [reflexivity|split; [exact Hout|exact Ht]]].
Defined.

(** C39: a loan leaves its sub-vault as it found it.  Fund a loan, let any accruals,
    deposits and withdrawals happen, and close the loan out: the gross and net weighted
    rates and the deployed principal are exactly what they were, the encumbered atoms have
    been released, one open loan is gone, the lender's claim awaits its sweep and the
    curator's fee is booked. *)
Theorem loan_round_trip (s s1 s2 s3 : SubVault) (principal rate fee surplus t0 t1 : Z)
    (v0 v1 : Fp48) (started claimable curator_fee : Z)
    (Hc : in_u U64 claimable) (Hf : 0 <= curator_fee)
    (Hfund : fund_loan principal rate fee surplus t0 v0 s = Ok s1)
    (Hbetween : flows s2 = flows s1)
    (Hclose : close_out_sub_vault (mkCloseOut principal rate fee started claimable curator_fee)
                t1 v1 s2 = Ok s3) :
  (∀ now v, ensures (accrue_sub_vault s1 now v) (λ s', flows s' = flows s1))
  ∧ (∀ atoms, ensures (mint_shares atoms s1) (λ '(s', _), flows s' = flows s1))
  ∧ (∀ n mfi, ensures (burn_shares n mfi s1) (λ '(s', _), flows s' = flows s1))
  ∧ flows s3 = (sv_total_weighted_rate_bps s, sv_total_weighted_net_rate_bps s,
      sv_deployed_principal_atoms s, sv_encumbered_in_orders_atoms s - principal,
      sv_pending_claim_atoms s + claimable, sv_open_loans_count s - 1,
      sv_accumulated_curator_fee_atoms s + curator_fee).
Proof.
  split; [intros; apply accrue_sub_vault_flows|split; [intros; apply mint_shares_flows|]].
  split; [intros; apply burn_shares_flows|].
  apply fund_loan_flows in Hfund as (net & Hnet & H1).
  apply close_out_flows in Hclose as (net' & Hnet' & H3); [|done..]. simpl in *.
  rewrite Hnet in Hnet'. injection Hnet' as <-. rewrite <- Hbetween in H1.
  unfold flows in H1, H3 |- *. injection H1 as E1 E2 E3 E4 E5 E6 E7.
  rewrite H3, E1, E2, E3, E4, E5, E6, E7. repeat f_equal; lia.
Qed.

(** A million atoms lent at 10% with a 10% curator fee, closed a month later. *)
Definition sample_funding_vault : SubVault :=
  sub_vault_new_empty 1 77 8000 2592000 <| sv_total_shares := 5000000 |>
    <| sv_total_principal_atoms := 5000000 |> <| sv_total_assets_atoms := 5000000 |>
    <| sv_encumbered_in_orders_atoms := 1000000 |> <| sv_open_loans_count := 1 |>
    <| sv_last_accrue_unix := 1700000000 |> <| sv_last_supply_share_value_fp48 := fp48_ONE |>.

Lemma loan_round_trip_witness :
  match fund_loan 1000000 1000 1000 0 1700000000 fp48_ONE sample_funding_vault with
  | Ok s1 =>
      match accrue_sub_vault s1 1701000000 (from_raw (SCALE + SCALE / 1000)) with
      | Ok s2 =>
          match close_out_sub_vault (mkCloseOut 1000000 1000 1000 1700000000 1007397 821)
                  1702592000 (from_raw (SCALE + SCALE / 500)) s2 with
          | Ok s3 => flows s3 = (0, 0, 0, 0, 1007397, 0, 821)
                     ∧ sv_total_principal_atoms s3 = 5015395
          | Err _ => False
          end
      | Err _ => False
      end
  | Err _ => False
  end.
Proof.
  destruct (fund_loan _ _ _ _ _ _ _) as [s1|e] eqn:E1; [|vm_compute in E1; discriminate E1].
  destruct (accrue_sub_vault s1 _ _) as [s2|e] eqn:E2;
    [|vm_compute in E1; injection E1 as <-; vm_compute in E2; discriminate E2].
  destruct (close_out_sub_vault _ _ _ s2) as [s3|e] eqn:E3;
    [|vm_compute in E1; injection E1 as <-; vm_compute in E2; injection E2 as <-;
      vm_compute in E3; discriminate E3].
  split.
  - refine (proj2 (proj2 (proj2 (loan_round_trip sample_funding_vault s1 s2 s3 1000000 1000 1000 0
      1700000000 1702592000 fp48_ONE (from_raw (SCALE + SCALE / 500)) 1700000000 1007397 821
      _ _ E1 _ E3)))); [vm_compute; intuition congruence|lia|].
    vm_compute in E1. injection E1 as <-. vm_compute in E2. injection E2 as <-. reflexivity.
  - vm_compute in E1. injection E1 as <-. vm_compute in E2. injection E2 as <-.
    vm_compute in E3. injection E3 as <-. reflexivity.
Defined.

(** One lender with 1000 shares and 1000 atoms, 400 of them lent to one loan at 10%. *)
Definition lent_vault : SubVault :=
  sub_vault_new_empty 1 77 8000 2592000 <| sv_total_shares := 1000 |>
    <| sv_total_principal_atoms := 1000 |> <| sv_total_assets_atoms := 1000 |>
    <| sv_deployed_principal_atoms := 400 |> <| sv_total_weighted_rate_bps := 400000 |>
    <| sv_total_weighted_net_rate_bps := 400000 |> <| sv_open_loans_count := 1 |>
    <| sv_last_accrue_unix := 1700000000 |> <| sv_last_supply_share_value_fp48 := fp48_ONE |>.

(** C40: swept claims can stay pending and lock a sub-vault.  The borrower repays 300 of
    its 400 atoms and the crank sweeps them, which lowers a pending counter that is still
    zero; the rest is repaid, the close-out books the whole claim of 400 as pending, and
    the last 100 are swept: every atom has arrived, but 300 stay pending.  The lender
    withdraws 800 of its 1000 atoms, which the gate allows since it does not look at the
    pending atoms; from then on every accrual fails with [ArithmeticOverflow], so that
    its last 200 shares can neither be withdrawn nor joined by another deposit. *)
Theorem stranded_claims_lock_sub_vault :
  sub_vault_wf lent_vault
  ∧ ∃ closed left,
    close_out_sub_vault (mkCloseOut 400 1000 0 1700000000 400 0) 1700000000 fp48_ONE
      (sweep_pending 300 lent_vault) = Ok closed
    ∧ burn_shares 800 1000 (sweep_pending 100 closed) = Ok (left, 800)
    ∧ sv_total_shares left = 200 ∧ sv_pending_claim_atoms left = 300
    ∧ sv_deployed_principal_atoms left = 0 ∧ sv_open_loans_count left = 0
    ∧ ∀ now, 1700000000 < now < 2 ^ 63 →
        (∀ v, accrue_sub_vault left now v = Err ArithmeticOverflow)
        ∧ (∀ payer bank n mfi r, withdraw_from_sub_vault payer bank now n mfi left ≠ Ok r)
        ∧ (∀ payer bank atoms r, deposit_into_sub_vault payer bank now atoms left ≠ Ok r).
Proof.
  split; [apply (bool_decide_unpack _); vm_compute; exact I|].
  destruct (close_out_sub_vault _ _ _ _) as [closed|e] eqn:E1; [|vm_compute in E1; discriminate E1].
  vm_compute in E1. injection E1 as <-. eexists _, _. split; [reflexivity|].
  split; [vm_compute; reflexivity|]. do 4 (split; [reflexivity|]). intros now Hnow.
  match goal with |- (∀ v, accrue_sub_vault ?s now v = _) ∧ _ =>
    assert (∀ v, accrue_sub_vault s now v = Err ArithmeticOverflow) as Hacc end.
  { intros v. unfold accrue_sub_vault. cbn [sv_last_accrue_unix].
    rewrite (proj2 (Z.leb_gt now 1700000000)) by lia. cbn [sv_total_principal_atoms].
    change (200 =? 0) with false. cbn iota.
    rewrite (proj2 (checked_sub_i_Some 64 now 1700000000 (now - 1700000000))) by (split; [done|zlia]).
    cbn [mbind option_bind]. rewrite (proj2 (Z.leb_le 0 (now - 1700000000))) by lia. reflexivity. }
  split; [exact Hacc|split].
  - intros payer bank n mfi r H. unfold withdraw_from_sub_vault in H.
    apply bind_Ok in H as (? & _ & H). apply bind_Ok in H as (v & _ & H). by rewrite Hacc in H.
  - intros payer bank atoms r H. unfold deposit_into_sub_vault in H.
    apply bind_Ok in H as (? & _ & H). apply bind_Ok in H as (? & _ & H).
    apply bind_Ok in H as (v & _ & H). by rewrite Hacc in H.
Qed.
