(* ===== verification/Accounts.v ===== *)
(** * The accounts of a transaction ([programs/ydelta/src/validation/])

    A transaction hands the program a list of accounts that its sender chose freely.
    This file models one such account, the addresses the runtime derives ([pdas.rs],
    [token_checkers.rs] and the [_pda] functions of [state/]), and the typed wrappers
    that prove what an account is: [solana_checkers.rs], [token_checkers.rs],
    [marginfi_checkers.rs], [ydelta_checker.rs] and [user_account.rs].

    The derivation itself and the layouts of the token programs are not part of the
    repository: they are the fields of [Host]. *)
From stdpp Require Import base numbers list option gmap strings.
From S2P Require Import Prelude FixedPoint Loan Marginfi Oracles Hypertree SubVault.
From S2P Require Import Market VaultTrees UserAccount Runtime Admin.
Local Open Scope Z_scope.

Definition YDELTA_ID : Pubkey :=
  0xf79a567576cfd567db59e7ae200a54bb14c6f4b572e75e288e0c405b3a384740.
Definition SYSTEM_PROGRAM_ID : Pubkey := 0.
Definition BPF_LOADER_UPGRADEABLE_ID : Pubkey :=
  0x2a8f6914e88a1b0e210153ef763ae2b00c2b93d16c124d2c0537a1004800000.

(** ** One account *)

(** What an account holds: the program's own accounts are given decoded, everything else
    is bytes.  Bytes that carry the header of one of the program's accounts are given
    decoded, never as [Bytes]. *)
Inductive Content :=
  | Bytes (data : list Z)
  | MarketData (m : Market)
  | VaultData (v : Vault)
  | LoanData (l : LoanFixed)
  | UserData (u : UserAccount)
  | ConfigData (g : GlobalConfig).

Record TxAccount := mkTxAccount {
  tx_key : Pubkey;
  tx_owner : Pubkey;
  tx_lamports : Z;
  tx_is_signer : bool;
  tx_is_writable : bool;
  tx_content : Content }.

#[export] Instance eta_TxAccount : Eta TxAccount := λ a,
  mkTxAccount (tx_key a) (tx_owner a) (tx_lamports a) (tx_is_signer a) (tx_is_writable a)
    (tx_content a).

Definition MARKET_FIXED_SIZE : Z := 512.
Definition GLOBAL_VAULT_FIXED_SIZE : Z := 320.
Definition LOAN_FIXED_SIZE : Z := 288.
Definition USER_ACCOUNT_FIXED_SIZE : Z := 128.
Definition GLOBAL_CONFIG_SIZE : Z := 128.

Definition user_dynamic_len (u : UserAccount) : Z :=
  USER_ACCOUNT_BLOCK_SIZE * Z.of_nat (size (us_dynamic u)).

(** The length of the data: the header and what has been allocated behind it. *)
Definition data_len (c : Content) : Z :=
  match c with
  | Bytes d => Z.of_nat (length d)
  | MarketData m => MARKET_FIXED_SIZE + mf_num_bytes_allocated (mk_fixed m)
  | VaultData v => GLOBAL_VAULT_FIXED_SIZE + gv_num_bytes_allocated (vt_fixed v)
  | LoanData _ => LOAN_FIXED_SIZE
  | UserData u => USER_ACCOUNT_FIXED_SIZE + user_dynamic_len u
  | ConfigData _ => GLOBAL_CONFIG_SIZE
  end.
(** Every account of the program has at least a header. *)
Definition data_is_empty (c : Content) : bool :=
  match c with Bytes [] => true | _ => false end.

(** The bytes of an account of another program; the program's own accounts never pass for
    one, since their first eight bytes are a discriminant of this program. *)
Definition raw_data (a : TxAccount) : result (list Z) :=
  match tx_content a with Bytes d => Ok d | _ => Err InvalidAccountData end.

(** The account as the calls into other programs see it. *)
Definition foreign_info (a : TxAccount) : result AccountInfo :=
  d ← raw_data a; mret (mkAccountInfo (tx_key a) (tx_owner a) d).

(** ** What the host provides *)

(** A mint and a token account as the token programs unpack them. *)
Record MintState := mkMintState { ms_is_initialized : bool; ms_decimals : Z }.
Inductive TokenState := TokenUninitialized | TokenInitialized | TokenFrozen.
#[export] Instance TokenState_eq_dec : EqDecision TokenState.
Proof. solve_decision. Defined.
Record TokenAccount := mkTokenAccount {
  ta_mint : Pubkey;
  ta_owner : Pubkey;
  ta_state : TokenState }.

(** [Pubkey::find_program_address] on the concatenation of the seeds it hashes, and
    [StateWithExtensions::unpack] of the token library; [create_account] is the funding,
    allocation and assignment of an empty account by the system program. *)
Record Host := mkHost {
  find_program_address : list Z → Pubkey → Pubkey * Z;
  check_spl_token_program_account : Pubkey → result unit;
  unpack_mint : list Z → result MintState;
  mint_extensions : list Z → result (list ExtensionType);
  unpack_token_account : list Z → result TokenAccount;
  create_account : Pubkey → TxAccount → result unit }.

(** The 32 bytes of a key, the eight little-endian bytes of a [u64], an ASCII literal. *)
Definition key_bytes (k : Pubkey) : list Z := map (λ i, k / 256 ^ (31 - i) mod 256) (seqZ 0 32).
Definition u64_le_bytes (n : Z) : list Z := map (λ i, n / 256 ^ i mod 256) (seqZ 0 8).
Fixpoint seed (s : string) : list Z :=
  match s with
  | EmptyString => []
  | String a s => Z.of_N (Ascii.N_of_ascii a) :: seed s
  end.

(** ** Derived addresses *)

(** The seeds of each kind of derived address. *)
Inductive Seeds :=
  | MarketSignerSeeds (market : Pubkey)
  | LenderIntegrationSeeds (market : Pubkey)
  | BorrowerIntegrationSeeds (market : Pubkey)
  | MarketVaultSeeds (market mint : Pubkey)
  | GlobalVaultSeeds (bank : Pubkey)
  | GlobalVaultSignerSeeds (vault : Pubkey)
  | GlobalVaultIntegrationSeeds (vault : Pubkey)
  | GlobalVaultStagingSeeds (vault : Pubkey)
  | LoanSeeds (market : Pubkey) (sequence : Z)
  | UserAccountSeeds (owner : Pubkey)
  | GlobalConfigSeeds.

Definition seed_bytes (s : Seeds) : list Z :=
  match s with
  | MarketSignerSeeds market => seed "market_signer" ++ key_bytes market
  | LenderIntegrationSeeds market => seed "marginfi_account" ++ key_bytes market
  | BorrowerIntegrationSeeds market => seed "borrower_marginfi_account" ++ key_bytes market
  | MarketVaultSeeds market mint => seed "vault" ++ key_bytes market ++ key_bytes mint
  | GlobalVaultSeeds bank => seed "vault" ++ key_bytes bank
  | GlobalVaultSignerSeeds vault => seed "global_vault_signer" ++ key_bytes vault
  | GlobalVaultIntegrationSeeds vault => seed "vault_integration" ++ key_bytes vault
  | GlobalVaultStagingSeeds vault => seed "global_vault_staging" ++ key_bytes vault
  | LoanSeeds market sequence => seed "loan" ++ key_bytes market ++ u64_le_bytes sequence
  | UserAccountSeeds owner => seed "user" ++ key_bytes owner
  | GlobalConfigSeeds => seed "global_config"
  end.

Section Host.
  Variable h : Host.

Definition program_address (s : Seeds) : Pubkey * Z :=
  find_program_address h (seed_bytes s) YDELTA_ID.

Definition get_market_signer_address (market : Pubkey) := program_address (MarketSignerSeeds market).
Definition get_lender_integration_account_address (market : Pubkey) :=
  program_address (LenderIntegrationSeeds market).
Definition get_borrower_integration_account_address (market : Pubkey) :=
  program_address (BorrowerIntegrationSeeds market).
Definition get_vault_address (market mint : Pubkey) :=
  program_address (MarketVaultSeeds market mint).
Definition global_vault_pda (bank : Pubkey) := program_address (GlobalVaultSeeds bank).
Definition global_vault_signer_pda (vault : Pubkey) := program_address (GlobalVaultSignerSeeds vault).
Definition global_vault_integration_account_pda (vault : Pubkey) :=
  program_address (GlobalVaultIntegrationSeeds vault).
Definition global_vault_staging_pda (vault : Pubkey) :=
  program_address (GlobalVaultStagingSeeds vault).
Definition loan_pda (market : Pubkey) (sequence : Z) := program_address (LoanSeeds market sequence).
Definition user_account_pda (owner : Pubkey) := program_address (UserAccountSeeds owner).
Definition global_config_pda := program_address GlobalConfigSeeds.

(** The authority of a bank's liquidity vault, an address of the marginfi program. *)
Definition liquidity_vault_authority (bank marginfi_program : Pubkey) : Pubkey :=
  fst (find_program_address h (seed "liquidity_vault_auth" ++ key_bytes bank) marginfi_program).
Definition expected_program_data : Pubkey :=
  fst (find_program_address h (key_bytes YDELTA_ID) BPF_LOADER_UPGRADEABLE_ID).
End Host.

(** ** Programs and signers ([solana_checkers.rs]) *)

Definition Program_new (a : TxAccount) (expected_program_id : Pubkey) : result Pubkey :=
  _ ← require (tx_key a =? expected_program_id) IncorrectProgramId; mret (tx_key a).

Definition TokenProgram_new (a : TxAccount) : result Pubkey :=
  _ ← require ((tx_key a =? SPL_TOKEN_ID) || (tx_key a =? SPL_TOKEN_2022_ID)) IncorrectProgramId;
  mret (tx_key a).

Definition Signer_new (a : TxAccount) : result Pubkey :=
  _ ← require (tx_is_signer a) MissingRequiredSignature; mret (tx_key a).

Definition Signer_new_payer (a : TxAccount) : result Pubkey :=
  _ ← require (tx_is_writable a) InvalidInstructionData;
  _ ← require (tx_is_signer a) MissingRequiredSignature;
  mret (tx_key a).

Definition EmptyAccount_new (a : TxAccount) : result Pubkey :=
  _ ← require (data_is_empty (tx_content a)) InvalidAccountData;
  _ ← require (tx_owner a =? SYSTEM_PROGRAM_ID) IllegalOwner;
  mret (tx_key a).

(** ** The program's own accounts ([ydelta_checker.rs]) *)

(** The trait of the headers; [content_of] reads the bytes as this type. *)
Class YdeltaAccount (T : Type) := {
  content_of : Content → option T;
  account_size : Z;
  verify_discriminant : T → result unit;
  verify_version : T → result unit }.

#[export] Instance ydelta_market : YdeltaAccount Market := {|
  content_of c := match c with MarketData m => Some m | _ => None end;
  account_size := MARKET_FIXED_SIZE;
  verify_discriminant m := market_verify_discriminant (mk_fixed m);
  verify_version m := market_verify_version (mk_fixed m) |}.
#[export] Instance ydelta_vault : YdeltaAccount Vault := {|
  content_of c := match c with VaultData v => Some v | _ => None end;
  account_size := GLOBAL_VAULT_FIXED_SIZE;
  verify_discriminant v := vault_verify_discriminant (vt_fixed v);
  verify_version v := vault_verify_version (vt_fixed v) |}.
#[export] Instance ydelta_loan : YdeltaAccount LoanFixed := {|
  content_of c := match c with LoanData l => Some l | _ => None end;
  account_size := LOAN_FIXED_SIZE;
  verify_discriminant := loan_verify_discriminant;
  verify_version := loan_verify_version |}.
#[export] Instance ydelta_user : YdeltaAccount UserAccount := {|
  content_of c := match c with UserData u => Some u | _ => None end;
  account_size := USER_ACCOUNT_FIXED_SIZE;
  verify_discriminant u := user_verify_discriminant (us_fixed u);
  verify_version u := user_verify_version (us_fixed u) |}.
#[export] Instance ydelta_config : YdeltaAccount GlobalConfig := {|
  content_of c := match c with ConfigData g => Some g | _ => None end;
  account_size := GLOBAL_CONFIG_SIZE;
  verify_discriminant := global_config_verify_discriminant;
  verify_version _ := Ok tt |}.

(** A typed account: where it is and what it holds. *)
Record YdeltaAccountInfo (T : Type) := mkInfo { yi_key : Pubkey; yi_value : T }.
Arguments mkInfo {T}.
Arguments yi_key {T}.
Arguments yi_value {T}.

Definition verify_owned_by_ydelta (owner : Pubkey) : result unit :=
  require (owner =? YDELTA_ID) IllegalOwner.

(** [YdeltaAccountInfo::new]; the bytes of another type have another discriminant. *)
Definition YdeltaAccountInfo_new (T : Type) `{YdeltaAccount T} (a : TxAccount)
    : result (YdeltaAccountInfo T) :=
  _ ← verify_owned_by_ydelta (tx_owner a);
  _ ← require (account_size <=? data_len (tx_content a)) AccountDataTooSmall;
  header ← ok_or (content_of (tx_content a)) InvalidAccountData;
  _ ← verify_discriminant header;
  _ ← verify_version header;
  mret (mkInfo (tx_key a) header).

Definition verify_uninitialized (size : Z) (c : Content) : result unit :=
  _ ← require (size =? data_len c) InvalidAccountData;
  match c with
  | Bytes d => require (forallb (λ b, b =? 0) d) InvalidAccountData
  | _ => Err InvalidAccountData
  end.

Definition YdeltaAccountInfo_new_init (size : Z) (a : TxAccount) : result Pubkey :=
  _ ← verify_owned_by_ydelta (tx_owner a);
  _ ← verify_uninitialized size (tx_content a);
  mret (tx_key a).

(** ** Tokens ([token_checkers.rs]) *)

Section Token.
  Variable h : Host.

Definition is_token_owner (owner : Pubkey) : bool :=
  (owner =? SPL_TOKEN_ID) || (owner =? SPL_TOKEN_2022_ID).

Definition MintAccountInfo_new (a : TxAccount) : result MintInfo :=
  _ ← check_spl_token_program_account h (tx_owner a);
  d ← raw_data a;
  mint ← unpack_mint h d;
  _ ← require (ms_is_initialized mint) InvalidAccountData;
  mret (mkMintInfo (tx_key a) (ms_decimals mint)).

(** The mint of [CreateMarket] and [CreateVault], whose extensions the handler reads. *)
Definition mint_account (a : TxAccount) (m : MintInfo) : MintAccount :=
  mkMintAccount (mint_key m) (mint_decimals m) (tx_owner a)
    (d ← raw_data a; mint_extensions h d).

Definition TokenAccountInfo_new (a : TxAccount) (mint : Pubkey) : result Pubkey :=
  _ ← require (is_token_owner (tx_owner a)) IllegalOwner;
  d ← raw_data a;
  t ← unpack_token_account h d;
  _ ← require (bool_decide (ta_state t = TokenInitialized)) InvalidAccountData;
  _ ← require (ta_mint t =? mint) InvalidAccountData;
  mret (tx_key a).

Definition TokenAccountInfo_new_with_owner (a : TxAccount) (mint owner : Pubkey) : result Pubkey :=
  key ← TokenAccountInfo_new a mint;
  d ← raw_data a;
  t ← unpack_token_account h d;
  _ ← require (ta_owner t =? owner) IllegalOwner;
  mret key.

Definition TokenAccountInfo_new_with_owner_and_key (a : TxAccount) (mint owner key : Pubkey)
    : result Pubkey :=
  _ ← require (tx_key a =? key) InvalidInstructionData;
  TokenAccountInfo_new_with_owner a mint owner.
End Token.

(** ** marginfi ([marginfi_checkers.rs]) *)

Definition MARGINFI_GROUP_DISCRIMINATOR : list Z := [182; 23; 173; 240; 151; 206; 182; 67].
Definition MAX_ORACLE_KEYS : nat := 5.

Definition assert_discriminator (discriminator data : list Z) : result unit :=
  if (length data <? ANCHOR_HEADER_LEN)%nat then Err AccountTooSmall else
  disc ← slice data 0 ANCHOR_HEADER_LEN;
  if negb (bool_decide (disc = discriminator)) then Err InvalidDiscriminator else Ok tt.
Definition assert_is_marginfi_account : list Z → result unit :=
  assert_discriminator MARGINFI_ACCOUNT_DISCRIMINATOR.
Definition assert_is_marginfi_group : list Z → result unit :=
  assert_discriminator MARGINFI_GROUP_DISCRIMINATOR.

Definition MarginfiGroupInfo_new (a : TxAccount) (marginfi_program_id : Pubkey) : result Pubkey :=
  _ ← require (tx_owner a =? marginfi_program_id) IncorrectAccount;
  _ ← map_err (d ← raw_data a; assert_is_marginfi_group d) IncorrectAccount;
  mret (tx_key a).

(** The bank an account's data decodes to. *)
Definition bank_view (a : TxAccount) : result Bank :=
  map_err (d ← raw_data a; bank_try_from_account_data d) IncorrectAccount.

Definition MarginfiBankInfo_new (a : TxAccount) (marginfi_program_id : Pubkey) : result Pubkey :=
  _ ← require (tx_owner a =? marginfi_program_id) IncorrectAccount;
  _ ← bank_view a;
  mret (tx_key a).

Definition MarginfiBankInfo_new_with_expected_group (a : TxAccount)
    (marginfi_program_id expected_group : Pubkey) : result Pubkey :=
  _ ← require (tx_owner a =? marginfi_program_id) IncorrectAccount;
  bank ← bank_view a;
  _ ← require (bank_group bank =? expected_group) IncorrectAccount;
  mret (tx_key a).

Definition MarginfiAccountInfo_new (a : TxAccount) (marginfi_program_id : Pubkey) : result Pubkey :=
  _ ← require (tx_owner a =? marginfi_program_id) IncorrectAccount;
  _ ← map_err (d ← raw_data a; assert_is_marginfi_account d) IncorrectAccount;
  mret (tx_key a).

(** The group and the authority of a marginfi account, its first two keys. *)
Definition marginfi_account_keys (data : list Z) : result (Pubkey * Pubkey) :=
  _ ← marginfi_account_try_from_account_data data;
  group ← key_at data ANCHOR_HEADER_LEN;
  authority ← key_at data (ANCHOR_HEADER_LEN + 32);
  mret (group, authority).

Definition check_expected (expected : option Pubkey) (actual : Pubkey) : result unit :=
  match expected with
  | Some k => require (actual =? k) IncorrectAccount
  | None => Ok tt
  end.

Definition assert_fields (a : TxAccount) (expected_authority expected_group : option Pubkey)
    : result unit :=
  '(group, authority) ← map_err (d ← raw_data a; marginfi_account_keys d) IncorrectAccount;
  _ ← check_expected expected_authority authority;
  check_expected expected_group group.

Definition MarginfiAccountInfo_new_with_expected_authority (a : TxAccount)
    (marginfi_program_id expected_authority : Pubkey) : result Pubkey :=
  key ← MarginfiAccountInfo_new a marginfi_program_id;
  _ ← assert_fields a (Some expected_authority) None;
  mret key.
Definition MarginfiAccountInfo_new_with_expected_group (a : TxAccount)
    (marginfi_program_id expected_group : Pubkey) : result Pubkey :=
  key ← MarginfiAccountInfo_new a marginfi_program_id;
  _ ← assert_fields a None (Some expected_group);
  mret key.
Definition MarginfiAccountInfo_new_with_expected_authority_and_group (a : TxAccount)
    (marginfi_program_id expected_authority expected_group : Pubkey) : result Pubkey :=
  key ← MarginfiAccountInfo_new a marginfi_program_id;
  _ ← assert_fields a (Some expected_authority) (Some expected_group);
  mret key.

Definition MarginfiProgram_new (a : TxAccount) : result Pubkey :=
  _ ← require (tx_key a =? MARGINFI_ID) IncorrectAccount; mret (tx_key a).

(** [OracleSetup::is_fixed_price] and [BankConfigView::expected_oracle_account_count]. *)
Definition is_fixed_price (setup : OracleSetup) : bool :=
  match setup with
  | Setup_Fixed | Setup_FixedKamino | Setup_FixedDrift | Setup_FixedJuplend => true
  | _ => false
  end.
Definition cfg_expected_oracle_account_count (raw : list Z) : result nat :=
  setup ← cfg_oracle_setup_raw raw;
  mret (match OracleSetup_from_u8 setup with
        | Some s => if bool_decide (s = Setup_None) || is_fixed_price s then 0%nat
                    else if bool_decide (s = Setup_StakedWithPythPush) then 3%nat else 1%nat
        | None => 1%nat
        end).
Definition cfg_primary_oracle (raw : list Z) : result Pubkey := cfg_oracle_key raw 0.

Definition config_view (a : TxAccount) : result (list Z) :=
  map_err (d ← raw_data a; config_try_from_account_data d) IncorrectAccount.

(** ** The account iterator

    A loader walks the account list from the front.  [Load A] threads what is left of it. *)
Definition Load (A : Type) : Type := list TxAccount → result (A * list TxAccount).

#[export] Instance load_ret : MRet Load := λ A a accs, Ok (a, accs).
#[export] Instance load_bind : MBind Load := λ A B f m accs, '(a, rest) ← m accs; f a rest.

Definition lift {A} (r : result A) : Load A := λ accs, a ← r; Ok (a, accs).
Definition check (test : bool) (e : ProgramError) : Load unit := lift (require test e).

(** [next_account_info], and [account_iter.next()]. *)
Definition next_account_info : Load TxAccount := λ accs,
  match accs with a :: rest => Ok (a, rest) | [] => Err NotEnoughAccountKeys end.
Definition next_account : Load (option TxAccount) := λ accs,
  match accs with a :: rest => Ok (Some a, rest) | [] => Ok (None, []) end.

(** [MarginfiOracleAis::load]: as many oracles as the bank asks for, each the one the bank
    names. *)
Fixpoint load_oracle_keys (cfg : list Z) (i n : nat) : Load (list Pubkey) :=
  match n with
  | O => mret []
  | S n =>
      a ← next_account_info;
      key ← lift (cfg_oracle_key cfg i);
      _ ← check (tx_key a =? key) IncorrectAccount;
      keys ← load_oracle_keys cfg (S i) n;
      mret (tx_key a :: keys)
  end.

Definition MarginfiOracleAis_load (bank : TxAccount) : Load (list Pubkey) :=
  cfg ← lift (config_view bank);
  count ← lift (cfg_expected_oracle_account_count cfg);
  _ ← check (0 <? count)%nat IncorrectAccount;
  _ ← check (count <=? MAX_ORACLE_KEYS)%nat IncorrectAccount;
  load_oracle_keys cfg 0 count.

(** ** The signer's user account ([user_account.rs]) *)

Definition user_account_in_range (u : UserAccount) : bool :=
  let in_range idx := (idx =? NIL) || (idx <? user_dynamic_len u) in
  let f := us_fixed u in
  in_range (ua_vault_positions_root_index f) && in_range (ua_market_positions_root_index f)
  && in_range (ua_open_loans_root_index f) && in_range (ua_free_list_head_index f)
  && (ua_num_bytes_allocated f <=? user_dynamic_len u).

Section UserAccount.
  Variable h : Host.

(** [ensure_user_account_for_signer]: the account, initialised if it was empty, with a free
    block. *)
Definition ensure_user_account_for_signer (signer : Pubkey) (a : TxAccount) : result TxAccount :=
  let '(expected_pda, bump) := user_account_pda h signer in
  _ ← require (tx_key a =? expected_pda) IncorrectAccount;
  a ← (if data_is_empty (tx_content a) then
         _ ← create_account h signer a;
         mret (a <| tx_owner := YDELTA_ID |>
                 <| tx_content := UserData (mkUserAccount (user_account_new_empty signer bump) ∅) |>)
       else Ok a);
  typed ← YdeltaAccountInfo_new UserAccount a;
  let u := yi_value typed in
  _ ← require (user_account_in_range u) IncorrectAccount;
  u ← (if user_has_free_block (us_fixed u) then Ok u else expand_user_account u);
  mret (a <| tx_content := UserData u |>).

(** The list holds the same account wherever its key appears. *)
Definition refresh (new a : TxAccount) : TxAccount :=
  if tx_key a =? tx_key new then
    a <| tx_owner := tx_owner new |> <| tx_content := tx_content new |>
  else a.

Definition touch_user_account (signer : Pubkey) (user_account_ai : TxAccount) : Load UserAccount :=
  λ rest,
    a ← ensure_user_account_for_signer signer user_account_ai;
    match tx_content a with
    | UserData u => Ok (u, map (refresh a) rest)
    | _ => Err Panic
    end.

(** The two accounts most loaders of a signer's instruction end with. *)
Definition load_user_account (signer : Pubkey) : Load UserAccount :=
  user_account_ai ← next_account_info;
  system_program_ai ← next_account_info;
  _ ← lift (Program_new system_program_ai SYSTEM_PROGRAM_ID);
  touch_user_account signer user_account_ai.
End UserAccount.
