(* ===== verification/Loaders.v ===== *)
(** * The account loaders ([programs/ydelta/src/validation/loaders.rs])

    Every handler gets its accounts from one [load] function, which walks the list the
    sender supplied in a fixed order and checks each account.  A loader here is a [Load] of
    the context record its handler takes, together with the program's own accounts it
    opened ([Opened]).

    The checks read as in the source; the runs of lookups and checks that several loaders
    repeat are shared ([market_head], [liquidity_vault_of], ...). *)
From stdpp Require Import base numbers list option gmap strings.
From S2P Require Import Prelude FixedPoint Loan Marginfi Oracles Hypertree SubVault.
From S2P Require Import Market VaultTrees Matching UserAccount Runtime LoanClose Repay.
From S2P Require Import Keeper Promotion Deposits Claims Convert Admin Orders Program Accounts.
Local Open Scope Z_scope.

(** The program's own accounts a loader opened, besides the configuration: the keys of the
    market, the vault and the loan (the null key where there is none), whether there is a
    vault, and the signer's user account. *)
Record Opened := mkOpened {
  op_keys : TxKeys;
  op_with_vault : bool;
  op_user : UserAccount }.

(** A handler without a user account does not read it. *)
Definition no_user : UserAccount := mkUserAccount (user_account_new_empty Pubkey_default 0) ∅.

Definition opened_market (market : Pubkey) (u : UserAccount) : Opened :=
  mkOpened (mkTxKeys market Pubkey_default Pubkey_default) false u.
Definition opened_book (market vault : Pubkey) : Opened :=
  mkOpened (mkTxKeys market vault Pubkey_default) true no_user.

Section Loaders.
  Variable h : Host.

(** ** Shared steps *)

Definition next_payer : Load Pubkey := a ← next_account_info; lift (Signer_new_payer a).
Definition next_signer : Load Pubkey := a ← next_account_info; lift (Signer_new a).
Definition next_system_program : Load Pubkey :=
  a ← next_account_info; lift (Program_new a SYSTEM_PROGRAM_ID).
Definition next_token_program : Load Pubkey := a ← next_account_info; lift (TokenProgram_new a).
Definition next_marginfi_program : Load Pubkey :=
  a ← next_account_info; lift (MarginfiProgram_new a).
Definition next_mint : Load MintInfo := a ← next_account_info; lift (MintAccountInfo_new h a).
Definition next_ydelta (T : Type) `{YdeltaAccount T} : Load (YdeltaAccountInfo T) :=
  a ← next_account_info; lift (YdeltaAccountInfo_new T a).

(** [load_global_config_no_pause] and [load_global_config] on the iterator. *)
Definition next_global_config_no_pause : Load GlobalConfig :=
  ai ← next_account_info;
  _ ← check (tx_key ai =? fst (global_config_pda h)) IncorrectAccount;
  g ← lift (YdeltaAccountInfo_new GlobalConfig ai);
  mret (yi_value g).
Definition next_global_config : Load GlobalConfig :=
  g ← next_global_config_no_pause;
  _ ← lift (require_global_not_paused g);
  mret g.

(** A market or a vault that is not paused. *)
Definition next_market : Load (YdeltaAccountInfo Market) :=
  market ← next_ydelta Market;
  _ ← lift (require_market_not_paused (yi_value market));
  mret market.
Definition next_vault : Load (YdeltaAccountInfo Vault) :=
  vault ← next_ydelta Vault;
  _ ← lift (require_vault_not_paused (yi_value vault));
  mret vault.

(** The first three accounts of the market instructions, and of the vault instructions. *)
Definition market_head : Load (Pubkey * GlobalConfig * YdeltaAccountInfo Market) :=
  payer ← next_payer;
  g ← next_global_config;
  market ← next_market;
  mret (payer, g, market).
Definition vault_head : Load (Pubkey * GlobalConfig * YdeltaAccountInfo Vault) :=
  payer ← next_payer;
  g ← next_global_config;
  vault ← next_vault;
  mret (payer, g, vault).

(** The account a bank names as its liquidity vault, its authority, its first oracle. *)
Definition check_liquidity_vault (bank liquidity_vault : TxAccount) : result unit :=
  b ← bank_view bank;
  require (tx_key liquidity_vault =? bank_liquidity_vault b) IncorrectAccount.
Definition check_liquidity_vault_authority (bank lva : TxAccount) (marginfi_program : Pubkey)
    : result unit :=
  require (tx_key lva =? liquidity_vault_authority h (tx_key bank) marginfi_program)
    IncorrectAccount.
Definition check_primary_oracle (bank oracle : TxAccount) : result unit :=
  cfg ← config_view bank;
  key ← cfg_primary_oracle cfg;
  require (tx_key oracle =? key) IncorrectAccount.

Definition check_key (a : TxAccount) (expected : Pubkey) : result unit :=
  require (tx_key a =? expected) IncorrectAccount.

(** The marginfi group of a market or vault. *)
Definition check_group (group : TxAccount) (marginfi_program expected : Pubkey) : result Pubkey :=
  key ← MarginfiGroupInfo_new group marginfi_program;
  _ ← check_key group expected;
  mret key.

(** ** Seats: [ClaimSeatContext], [DepositContext], [WithdrawContext] *)

Definition load_claim_seat : Load (Pubkey * Opened) :=
  '(payer, _, market) ← market_head;
  system_program_ai ← next_account_info;
  _ ← lift (Program_new system_program_ai SYSTEM_PROGRAM_ID);
  user_account_ai ← next_account_info;
  u ← touch_user_account h payer user_account_ai;
  mret (payer, opened_market (yi_key market) u).

(** The side of the market the trader's token account is of: its mint, and whether it is
    the debt side. *)
Definition infer_side (f : MarketFixed) (token : TxAccount) (mismatch : ProgramError)
    : result (Pubkey * bool) :=
  _ ← require (is_token_owner (tx_owner token)) IllegalOwner;
  d ← raw_data token;
  _ ← require (32 <=? length d)%nat mismatch;
  mint ← key_at d 0;
  if mint =? mf_debt_mint f then Ok (mf_debt_mint f, true)
  else if mint =? mf_collateral_mint f then Ok (mf_collateral_mint f, false)
  else Err mismatch.

(** The market's token account of a side, and the marginfi account its atoms go to. *)
Definition market_vault_of (market : YdeltaAccountInfo Market) (vault : TxAccount) (mint : Pubkey)
    : result Pubkey :=
  TokenAccountInfo_new_with_owner_and_key h vault mint
    (mf_market_signer (mk_fixed (yi_value market)))
    (fst (get_vault_address h (yi_key market) mint)).
Definition integration_account_of (f : MarketFixed) (is_debt : bool) : Pubkey :=
  if is_debt then mf_lender_integration_account f else mf_borrower_integration_account f.

(** An integration account of a market: its authority is the market signer. *)
Definition market_integration_account (f : MarketFixed) (a : TxAccount) (marginfi_program : Pubkey)
    : result Pubkey :=
  MarginfiAccountInfo_new_with_expected_authority_and_group a marginfi_program
    (mf_market_signer f) (mf_marginfi_group f).
Definition market_bank (f : MarketFixed) (a : TxAccount) (marginfi_program : Pubkey)
    : result Pubkey :=
  MarginfiBankInfo_new_with_expected_group a marginfi_program (mf_marginfi_group f).

Definition load_deposit : Load (SeatContext * Opened) :=
  '(payer, _, market) ← market_head;
  let f := mk_fixed (yi_value market) in
  token_account_info ← next_account_info;
  '(mint_key, is_debt) ← lift (infer_side f token_account_info InvalidDepositAccounts);
  trader_token ← lift (TokenAccountInfo_new_with_owner h token_account_info mint_key payer);
  vault_ai ← next_account_info;
  vault ← lift (market_vault_of market vault_ai mint_key);
  token_program ← next_token_program;
  mint ← next_mint;
  group_ai ← next_account_info;
  mfi_acct_ai ← next_account_info;
  bank_ai ← next_account_info;
  liquidity_vault_ai ← next_account_info;
  market_signer_ai ← next_account_info;
  marginfi_program ← next_marginfi_program;
  marginfi_group ← lift (check_group group_ai marginfi_program (mf_marginfi_group f));
  marginfi_account ← lift (market_integration_account f mfi_acct_ai marginfi_program);
  bank ← lift (market_bank f bank_ai marginfi_program);
  _ ← lift (check_key mfi_acct_ai (integration_account_of f is_debt));
  _ ← lift (check_key bank_ai (if is_debt then mf_debt_lending_pool f
                               else mf_collateral_lending_pool f));
  _ ← lift (check_key market_signer_ai (mf_market_signer f));
  _ ← lift (check_liquidity_vault bank_ai liquidity_vault_ai);
  liquidity_vault ← lift (TokenAccountInfo_new h liquidity_vault_ai mint_key);
  u ← load_user_account h payer;
  mret (mkSeatContext payer (yi_key market) trader_token vault token_program mint is_debt
          marginfi_group marginfi_account bank liquidity_vault (tx_key market_signer_ai)
          marginfi_program Pubkey_default Pubkey_default Pubkey_default [] [],
        opened_market (yi_key market) u).

(** The accounts of a withdrawal behind the mint, in their order. *)
Record WithdrawAis := mkWithdrawAis {
  wa_group : TxAccount;
  wa_mfi_acct : TxAccount;
  wa_debt_bank : TxAccount;
  wa_collateral_bank : TxAccount;
  wa_liquidity_vault : TxAccount;
  wa_lva : TxAccount;
  wa_debt_oracles : list Pubkey;
  wa_collateral_oracles : list Pubkey;
  wa_market_signer : TxAccount;
  wa_marginfi_program : Pubkey }.

Definition load_withdraw_ais : Load WithdrawAis :=
  group_ai ← next_account_info;
  mfi_acct_ai ← next_account_info;
  debt_bank_ai ← next_account_info;
  collateral_bank_ai ← next_account_info;
  liquidity_vault_ai ← next_account_info;
  lva_ai ← next_account_info;
  debt_oracles ← MarginfiOracleAis_load debt_bank_ai;
  collateral_oracles ← MarginfiOracleAis_load collateral_bank_ai;
  market_signer_ai ← next_account_info;
  marginfi_program ← next_marginfi_program;
  mret (mkWithdrawAis group_ai mfi_acct_ai debt_bank_ai collateral_bank_ai liquidity_vault_ai
          lva_ai debt_oracles collateral_oracles market_signer_ai marginfi_program).

(** The checks on them; both banks are checked, whatever the side. *)
Definition check_withdraw_ais (f : MarketFixed) (is_debt : bool) (mint_key : Pubkey)
    (w : WithdrawAis) : result unit :=
  let p := wa_marginfi_program w in
  _ ← check_group (wa_group w) p (mf_marginfi_group f);
  _ ← market_integration_account f (wa_mfi_acct w) p;
  _ ← market_bank f (wa_debt_bank w) p;
  _ ← market_bank f (wa_collateral_bank w) p;
  _ ← check_key (wa_mfi_acct w) (integration_account_of f is_debt);
  _ ← check_key (wa_debt_bank w) (mf_debt_lending_pool f);
  _ ← check_key (wa_collateral_bank w) (mf_collateral_lending_pool f);
  _ ← check_key (wa_market_signer w) (mf_market_signer f);
  let bank := if is_debt then wa_debt_bank w else wa_collateral_bank w in
  _ ← check_liquidity_vault bank (wa_liquidity_vault w);
  _ ← TokenAccountInfo_new h (wa_liquidity_vault w) mint_key;
  check_liquidity_vault_authority bank (wa_lva w) p.

Definition load_withdraw : Load (SeatContext * Opened) :=
  '(payer, _, market) ← market_head;
  let f := mk_fixed (yi_value market) in
  token_account_info ← next_account_info;
  '(mint_key, is_debt) ← lift (infer_side f token_account_info InvalidWithdrawAccounts);
  trader_token ← lift (TokenAccountInfo_new_with_owner h token_account_info mint_key payer);
  vault_ai ← next_account_info;
  vault ← lift (market_vault_of market vault_ai mint_key);
  token_program ← next_token_program;
  mint ← next_mint;
  w ← load_withdraw_ais;
  _ ← lift (check_withdraw_ais f is_debt mint_key w);
  u ← load_user_account h payer;
  mret (mkSeatContext payer (yi_key market) trader_token vault token_program mint is_debt
          (tx_key (wa_group w)) (tx_key (wa_mfi_acct w))
          (tx_key (if is_debt then wa_debt_bank w else wa_collateral_bank w))
          (tx_key (wa_liquidity_vault w)) (tx_key (wa_market_signer w)) (wa_marginfi_program w)
          (tx_key (wa_lva w)) (tx_key (wa_debt_bank w)) (tx_key (wa_collateral_bank w))
          (wa_debt_oracles w) (wa_collateral_oracles w),
        opened_market (yi_key market) u).

(** ** Orders: [PlaceOrderContext], [CancelOrderContext] *)

(** The first half of a placement: the accounts up to the token program. *)
Record PlaceAis := mkPlaceAis {
  pa_group : TxAccount;
  pa_mfi_acct : TxAccount;
  pa_debt_bank : TxAccount;
  pa_collateral_bank : TxAccount;
  pa_debt_oracles : list Pubkey;
  pa_collateral_oracles : list Pubkey;
  pa_market_signer : TxAccount;
  pa_marginfi_program : Pubkey;
  pa_debt_liquidity_vault : TxAccount;
  pa_debt_bank_lva : TxAccount;
  pa_borrower_debt_token : TxAccount;
  pa_token_program : Pubkey }.

Definition load_place_ais : Load PlaceAis :=
  group_ai ← next_account_info;
  mfi_acct_ai ← next_account_info;
  debt_bank_ai ← next_account_info;
  collateral_bank_ai ← next_account_info;
  debt_oracles ← MarginfiOracleAis_load debt_bank_ai;
  collateral_oracles ← MarginfiOracleAis_load collateral_bank_ai;
  market_signer_ai ← next_account_info;
  marginfi_program ← next_marginfi_program;
  debt_liquidity_vault_ai ← next_account_info;
  lva_ai ← next_account_info;
  borrower_debt_token_ai ← next_account_info;
  token_program ← next_token_program;
  mret (mkPlaceAis group_ai mfi_acct_ai debt_bank_ai collateral_bank_ai debt_oracles
          collateral_oracles market_signer_ai marginfi_program debt_liquidity_vault_ai lva_ai
          borrower_debt_token_ai token_program).

Definition check_place_ais (f : MarketFixed) (payer : Pubkey) (a : PlaceAis) : result unit :=
  let p := pa_marginfi_program a in
  _ ← check_group (pa_group a) p (mf_marginfi_group f);
  _ ← market_integration_account f (pa_mfi_acct a) p;
  _ ← market_bank f (pa_debt_bank a) p;
  _ ← market_bank f (pa_collateral_bank a) p;
  _ ← check_key (pa_mfi_acct a) (mf_borrower_integration_account f);
  _ ← check_key (pa_debt_bank a) (mf_debt_lending_pool f);
  _ ← check_key (pa_collateral_bank a) (mf_collateral_lending_pool f);
  _ ← check_key (pa_market_signer a) (mf_market_signer f);
  _ ← check_liquidity_vault (pa_debt_bank a) (pa_debt_liquidity_vault a);
  _ ← TokenAccountInfo_new h (pa_debt_liquidity_vault a) (mf_debt_mint f);
  _ ← check_liquidity_vault_authority (pa_debt_bank a) (pa_debt_bank_lva a) p;
  _ ← TokenAccountInfo_new_with_owner h (pa_borrower_debt_token a) (mf_debt_mint f) payer;
  mret tt.

(** The optional vault: an empty account stands for none. *)
Definition optional_vault (debt_lending_pool : Pubkey) : Load (option Pubkey) :=
  next ← next_account;
  match next with
  | None => mret None
  | Some ai =>
      if data_is_empty (tx_content ai) then mret None else
      vault ← lift (YdeltaAccountInfo_new Vault ai);
      _ ← lift (check_key ai (fst (global_vault_pda h debt_lending_pool)));
      _ ← lift (require_vault_not_paused (yi_value vault));
      mret (Some (tx_key ai))
  end.

Definition load_place_order : Load (BookContext * FallbackAccounts * Opened) :=
  '(payer, _, market) ← market_head;
  _ ← next_system_program;
  let f := mk_fixed (yi_value market) in
  a ← load_place_ais;
  _ ← lift (check_place_ais f payer a);
  u ← load_user_account h payer;
  lender_mfi_acct_ai ← next_account_info;
  lender ← lift (market_integration_account f lender_mfi_acct_ai (pa_marginfi_program a));
  _ ← lift (check_key lender_mfi_acct_ai (mf_lender_integration_account f));
  market_debt_vault_ai ← next_account_info;
  _ ← lift (check_key market_debt_vault_ai (mf_debt_vault f));
  market_debt_vault ← lift (TokenAccountInfo_new h market_debt_vault_ai (mf_debt_mint f));
  vault ← optional_vault (mf_debt_lending_pool f);
  mret (mkBookContext payer (yi_key market) (tx_key (pa_group a)) (tx_key (pa_debt_bank a))
          (tx_key (pa_collateral_bank a)) (pa_debt_oracles a) (pa_collateral_oracles a),
        mkFallbackAccounts (tx_key (pa_mfi_acct a)) lender market_debt_vault
          (tx_key (pa_market_signer a)) (pa_marginfi_program a) (tx_key (pa_debt_liquidity_vault a))
          (tx_key (pa_debt_bank_lva a)) (pa_token_program a),
        mkOpened (mkTxKeys (yi_key market) (default Pubkey_default vault) Pubkey_default)
          (bool_decide (is_Some vault)) u).

(** [CancelOrderContext], which an update uses too: the user account must exist. *)
Definition load_cancel_order : Load (Pubkey * Opened) :=
  '(payer, _, market) ← market_head;
  user_account_ai ← next_account_info;
  _ ← lift (check_key user_account_ai (fst (user_account_pda h payer)));
  u ← lift (YdeltaAccountInfo_new UserAccount user_account_ai);
  mret (payer, opened_market (yi_key market) (yi_value u)).

(** The list [process_sync_market_position] reads itself: no pause of the market stops it. *)
Definition load_sync_market_position : Load (Pubkey * Opened) :=
  _ ← next_payer;
  _ ← next_global_config;
  owner_user_account_ai ← next_account_info;
  market_ai ← next_account_info;
  owner_ai ← next_account_info;
  market ← lift (YdeltaAccountInfo_new Market market_ai);
  _ ← lift (check_key owner_user_account_ai (fst (user_account_pda h (tx_key owner_ai))));
  _ ← check (0 <? tx_lamports owner_user_account_ai) IncorrectAccount;
  u ← lift (YdeltaAccountInfo_new UserAccount owner_user_account_ai);
  mret (tx_key owner_ai, opened_market (yi_key market) (yi_value u)).

(** ** Promotion: [ProcessMatchedLoanContext] *)

(** The fourteen accounts of [load_vault_settle_accounts]. *)
Record SettleAis := mkSettleAis {
  se_vault : TxAccount;
  se_vault_signer : TxAccount;
  se_vault_staging : TxAccount;
  se_vault_integration : TxAccount;
  se_market_debt_vault : TxAccount;
  se_market_lender_integration : TxAccount;
  se_market_signer : TxAccount;
  se_liquidity_vault : TxAccount;
  se_lva : TxAccount;
  se_bank_oracle : TxAccount;
  se_mint : TxAccount;
  se_token_program : TxAccount;
  se_marginfi_group : TxAccount;
  se_marginfi_program : TxAccount }.

Definition load_settle_ais : Load SettleAis :=
  vault_ai ← next_account_info;
  vault_signer_ai ← next_account_info;
  vault_staging_ai ← next_account_info;
  vault_integration_ai ← next_account_info;
  market_debt_vault_ai ← next_account_info;
  market_lender_integration_ai ← next_account_info;
  market_signer_ai ← next_account_info;
  liquidity_vault_ai ← next_account_info;
  lva_ai ← next_account_info;
  bank_oracle_ai ← next_account_info;
  mint_ai ← next_account_info;
  token_program_ai ← next_account_info;
  marginfi_group_ai ← next_account_info;
  marginfi_program_ai ← next_account_info;
  mret (mkSettleAis vault_ai vault_signer_ai vault_staging_ai vault_integration_ai
          market_debt_vault_ai market_lender_integration_ai market_signer_ai liquidity_vault_ai
          lva_ai bank_oracle_ai mint_ai token_program_ai marginfi_group_ai marginfi_program_ai).

(** The three accounts a vault signs for are derived from its key. *)
Definition check_vault_pdas (vault_key : Pubkey) (signer staging integration : TxAccount)
    : result unit :=
  _ ← check_key signer (fst (global_vault_signer_pda h vault_key));
  _ ← check_key staging (fst (global_vault_staging_pda h vault_key));
  check_key integration (fst (global_vault_integration_account_pda h vault_key)).

(** The vault is the bank's, of the mint, and the market's accounts are derived. *)
Definition check_settle_keys (market_key : Pubkey) (debt_bank : TxAccount) (a : SettleAis)
    : result (MintInfo * Pubkey) :=
  vault ← YdeltaAccountInfo_new Vault (se_vault a);
  _ ← require_vault_not_paused (yi_value vault);
  let vault_key := tx_key (se_vault a) in
  _ ← check_vault_pdas vault_key (se_vault_signer a) (se_vault_staging a) (se_vault_integration a);
  let mint_key := tx_key (se_mint a) in
  mint ← MintAccountInfo_new h (se_mint a);
  _ ← require (vault_key =? fst (global_vault_pda h (tx_key debt_bank))) IncorrectAccount;
  let vfixed := vt_fixed (yi_value vault) in
  _ ← require (gv_mint vfixed =? mint_key) VaultWrongMint;
  _ ← require (gv_lending_pool vfixed =? tx_key debt_bank) IncorrectAccount;
  _ ← check_key (se_market_debt_vault a) (fst (get_vault_address h market_key mint_key));
  _ ← check_key (se_market_signer a) (fst (get_market_signer_address h market_key));
  _ ← check_key (se_market_lender_integration a)
        (fst (get_lender_integration_account_address h market_key));
  mret (mint, gv_integration_pool vfixed).

(** The accounts of marginfi and of the token programs. *)
Definition check_settle_accounts (market_key : Pubkey) (debt_bank : TxAccount)
    (marginfi_program_id group : Pubkey) (a : SettleAis) : result unit :=
  let mint_key := tx_key (se_mint a) in
  let vault_key := tx_key (se_vault a) in
  let market_signer := fst (get_market_signer_address h market_key) in
  _ ← check_liquidity_vault debt_bank (se_liquidity_vault a);
  _ ← check_primary_oracle debt_bank (se_bank_oracle a);
  _ ← check_liquidity_vault_authority debt_bank (se_lva a) marginfi_program_id;
  _ ← TokenProgram_new (se_token_program a);
  _ ← TokenAccountInfo_new_with_owner_and_key h (se_vault_staging a) mint_key
        (fst (global_vault_signer_pda h vault_key)) (fst (global_vault_staging_pda h vault_key));
  _ ← TokenAccountInfo_new_with_owner_and_key h (se_market_debt_vault a) mint_key market_signer
        (fst (get_vault_address h market_key mint_key));
  _ ← TokenAccountInfo_new h (se_liquidity_vault a) mint_key;
  _ ← MarginfiAccountInfo_new_with_expected_authority_and_group (se_vault_integration a)
        marginfi_program_id (tx_key (se_vault_signer a)) group;
  _ ← MarginfiAccountInfo_new_with_expected_authority_and_group (se_market_lender_integration a)
        marginfi_program_id market_signer group;
  _ ← check_key (se_marginfi_program a) marginfi_program_id;
  _ ← MarginfiProgram_new (se_marginfi_program a);
  _ ← check_group (se_marginfi_group a) marginfi_program_id group;
  mret tt.

Definition load_vault_settle_accounts (market_key : Pubkey) (debt_bank : TxAccount)
    (marginfi_program_id : Pubkey) : Load SettleAccounts :=
  a ← load_settle_ais;
  '(mint, group) ← lift (check_settle_keys market_key debt_bank a);
  _ ← lift (check_settle_accounts market_key debt_bank marginfi_program_id group a);
  mret (mkSettleAccounts (tx_key (se_vault a)) (tx_key (se_vault_signer a))
          (tx_key (se_vault_staging a)) (tx_key (se_vault_integration a))
          (tx_key (se_market_debt_vault a)) (tx_key (se_market_lender_integration a))
          (tx_key (se_market_signer a)) (tx_key (se_liquidity_vault a)) (tx_key (se_lva a))
          (tx_key (se_bank_oracle a)) mint (tx_key (se_token_program a))
          (tx_key (se_marginfi_group a)) (tx_key (se_marginfi_program a))).

(** The accounts in front of the queue node. *)
Definition load_promotion_head : Load (Pubkey * YdeltaAccountInfo Market * TxAccount * TxAccount) :=
  '(payer, _, market) ← market_head;
  loan_ai ← next_account_info;
  debt_bank_ai ← next_account_info;
  marginfi_program_ai ← next_account_info;
  _ ← next_system_program;
  _ ← lift (check_key marginfi_program_ai MARGINFI_ID);
  let f := mk_fixed (yi_value market) in
  _ ← lift (check_key debt_bank_ai (mf_debt_lending_pool f));
  _ ← lift (market_bank f debt_bank_ai (tx_key marginfi_program_ai));
  mret (payer, market, loan_ai, debt_bank_ai).

Definition load_process_matched_loan (sequence : Z) : Load (PromotionContext * Opened) :=
  '(payer, market, loan_ai, debt_bank_ai) ← load_promotion_head;
  '(queue_node, _) ← lift (find_queue_node (yi_value market) sequence);
  let '(expected_loan, bump) := loan_pda h (yi_key market) sequence in
  _ ← lift (check_key loan_ai expected_loan);
  loan ← lift (EmptyAccount_new loan_ai);
  settles ← lift (settles_vault (yi_value market) queue_node);
  if (settles : bool) then
    settle ← load_vault_settle_accounts (yi_key market) debt_bank_ai MARGINFI_ID;
    mret (mkPromotionContext payer (yi_key market) bump (tx_key debt_bank_ai) (Some settle),
          mkOpened (mkTxKeys (yi_key market) (sa_vault settle) loan) true no_user)
  else
    mret (mkPromotionContext payer (yi_key market) bump (tx_key debt_bank_ai) None,
          mkOpened (mkTxKeys (yi_key market) Pubkey_default loan) false no_user).

(** ** Loans: [RepayContext], [SettleMaturedLoanContext] *)

(** The loan is at the address derived from its market and sequence, and of this market. *)
Definition check_loan (market_key : Pubkey) (loan : YdeltaAccountInfo LoanFixed) : result unit :=
  let l := yi_value loan in
  _ ← require (yi_key loan =? fst (loan_pda h market_key (matched_loan_sequence l))) IncorrectAccount;
  require (loan_market l =? market_key) IncorrectAccount.

(** A fixed loan brings its lender's vault last; any other omits it. *)
Definition load_lender_vault (loan : LoanFixed) : Load (option Pubkey) :=
  ty ← lift (loan_type loan);
  match ty with
  | LoanType_Fixed =>
      gv ← next_vault;
      _ ← check (yi_key gv =? loan_lender_global_vault loan) IncorrectAccount;
      mret (Some (yi_key gv))
  | LoanType_P2Pool => mret None
  end.

Definition opened_loan (market loan : Pubkey) (vault : option Pubkey) (u : UserAccount) : Opened :=
  mkOpened (mkTxKeys market (default Pubkey_default vault) loan) (bool_decide (is_Some vault)) u.

(** The marginfi side of a repayment. *)
Record RepayAis := mkRepayAis {
  ra_group : TxAccount;
  ra_mfi_acct : TxAccount;
  ra_debt_bank : TxAccount;
  ra_liquidity_vault : TxAccount;
  ra_collateral_bank : TxAccount;
  ra_borrower_mfi : TxAccount;
  ra_market_signer : TxAccount;
  ra_marginfi_program : Pubkey }.

Definition load_repay_ais : Load RepayAis :=
  group_ai ← next_account_info;
  mfi_acct_ai ← next_account_info;
  debt_bank_ai ← next_account_info;
  liquidity_vault_ai ← next_account_info;
  collateral_bank_ai ← next_account_info;
  borrower_mfi_ai ← next_account_info;
  market_signer_ai ← next_account_info;
  marginfi_program ← next_marginfi_program;
  mret (mkRepayAis group_ai mfi_acct_ai debt_bank_ai liquidity_vault_ai collateral_bank_ai
          borrower_mfi_ai market_signer_ai marginfi_program).

Definition check_repay_ais (f : MarketFixed) (a : RepayAis) : result unit :=
  let p := ra_marginfi_program a in
  _ ← check_group (ra_group a) p (mf_marginfi_group f);
  _ ← market_integration_account f (ra_mfi_acct a) p;
  _ ← market_bank f (ra_debt_bank a) p;
  _ ← market_bank f (ra_collateral_bank a) p;
  _ ← market_integration_account f (ra_borrower_mfi a) p;
  _ ← check_key (ra_borrower_mfi a) (mf_borrower_integration_account f);
  _ ← check_key (ra_mfi_acct a) (mf_lender_integration_account f);
  _ ← check_key (ra_debt_bank a) (mf_debt_lending_pool f);
  _ ← check_key (ra_collateral_bank a) (mf_collateral_lending_pool f);
  _ ← check_key (ra_market_signer a) (mf_market_signer f);
  _ ← check_liquidity_vault (ra_debt_bank a) (ra_liquidity_vault a);
  _ ← TokenAccountInfo_new h (ra_liquidity_vault a) (mf_debt_mint f);
  mret tt.

Definition load_repay : Load (RepayContext * Opened) :=
  '(payer, _, market) ← market_head;
  loan ← next_ydelta LoanFixed;
  _ ← lift (check_loan (yi_key market) loan);
  let f := mk_fixed (yi_value market) in
  borrower_token_ai ← next_account_info;
  borrower_token ← lift (TokenAccountInfo_new_with_owner h borrower_token_ai (mf_debt_mint f) payer);
  vault_ai ← next_account_info;
  vault ← lift (market_vault_of market vault_ai (mf_debt_mint f));
  token_program ← next_token_program;
  debt_mint ← next_mint;
  a ← load_repay_ais;
  _ ← lift (check_repay_ais f a);
  u ← load_user_account h payer;
  cranker_refund_ai ← next_account_info;
  _ ← lift (check_key cranker_refund_ai (loan_created_by (yi_value loan)));
  global_vault ← load_lender_vault (yi_value loan);
  mret (mkRepayContext payer (yi_key market) (yi_key loan) borrower_token vault token_program
          debt_mint (tx_key (ra_group a)) (tx_key (ra_mfi_acct a)) (tx_key (ra_debt_bank a))
          (tx_key (ra_liquidity_vault a)) (tx_key (ra_borrower_mfi a)) (tx_key (ra_market_signer a))
          (ra_marginfi_program a),
        opened_loan (yi_key market) (yi_key loan) global_vault u).

(** The accounts of a keeper, all taken before the first check. *)
Record KeeperAis := mkKeeperAis {
  ka_debt_token : TxAccount;
  ka_collateral_token : TxAccount;
  ka_market_debt_vault : TxAccount;
  ka_market_collateral_vault : TxAccount;
  ka_market_signer : TxAccount;
  ka_lender_mfi : TxAccount;
  ka_borrower_mfi : TxAccount;
  ka_debt_bank : TxAccount;
  ka_collateral_bank : TxAccount;
  ka_debt_liquidity_vault : TxAccount;
  ka_collateral_liquidity_vault : TxAccount;
  ka_collateral_bank_lva : TxAccount;
  ka_debt_oracles : list Pubkey;
  ka_collateral_oracles : list Pubkey;
  ka_debt_mint : TxAccount;
  ka_collateral_mint : TxAccount;
  ka_token_program : Pubkey;
  ka_group : TxAccount;
  ka_marginfi_program : Pubkey;
  ka_cranker_refund : TxAccount }.

Definition load_keeper_ais : Load KeeperAis :=
  debt_token_ai ← next_account_info;
  collateral_token_ai ← next_account_info;
  market_debt_vault_ai ← next_account_info;
  market_collateral_vault_ai ← next_account_info;
  market_signer_ai ← next_account_info;
  lender_mfi_ai ← next_account_info;
  borrower_mfi_ai ← next_account_info;
  debt_bank_ai ← next_account_info;
  collateral_bank_ai ← next_account_info;
  debt_liquidity_vault_ai ← next_account_info;
  collateral_liquidity_vault_ai ← next_account_info;
  collateral_bank_lva_ai ← next_account_info;
  debt_oracles ← MarginfiOracleAis_load debt_bank_ai;
  collateral_oracles ← MarginfiOracleAis_load collateral_bank_ai;
  debt_mint_ai ← next_account_info;
  collateral_mint_ai ← next_account_info;
  token_program ← next_token_program;
  group_ai ← next_account_info;
  marginfi_program ← next_marginfi_program;
  cranker_refund_ai ← next_account_info;
  mret (mkKeeperAis debt_token_ai collateral_token_ai market_debt_vault_ai
          market_collateral_vault_ai market_signer_ai lender_mfi_ai borrower_mfi_ai debt_bank_ai
          collateral_bank_ai debt_liquidity_vault_ai collateral_liquidity_vault_ai
          collateral_bank_lva_ai debt_oracles collateral_oracles debt_mint_ai collateral_mint_ai
          token_program group_ai marginfi_program cranker_refund_ai).

(** The keys the market records, and the vaults derived from it. *)
Definition check_keeper_keys (market : YdeltaAccountInfo Market) (loan : LoanFixed) (a : KeeperAis)
    : result (MintInfo * MintInfo) :=
  let f := mk_fixed (yi_value market) in
  _ ← check_key (ka_debt_mint a) (mf_debt_mint f);
  _ ← check_key (ka_collateral_mint a) (mf_collateral_mint f);
  _ ← check_key (ka_debt_bank a) (mf_debt_lending_pool f);
  _ ← check_key (ka_collateral_bank a) (mf_collateral_lending_pool f);
  _ ← check_key (ka_lender_mfi a) (mf_lender_integration_account f);
  _ ← check_key (ka_borrower_mfi a) (mf_borrower_integration_account f);
  _ ← check_key (ka_market_signer a) (mf_market_signer f);
  _ ← check_key (ka_cranker_refund a) (loan_created_by loan);
  debt_mint ← MintAccountInfo_new h (ka_debt_mint a);
  collateral_mint ← MintAccountInfo_new h (ka_collateral_mint a);
  _ ← check_key (ka_market_debt_vault a) (fst (get_vault_address h (yi_key market) (mf_debt_mint f)));
  _ ← check_key (ka_market_collateral_vault a)
        (fst (get_vault_address h (yi_key market) (mf_collateral_mint f)));
  mret (debt_mint, collateral_mint).

(** The token accounts and the accounts of marginfi. *)
Definition check_keeper_accounts (market : YdeltaAccountInfo Market) (payer : Pubkey)
    (a : KeeperAis) : result unit :=
  let f := mk_fixed (yi_value market) in
  let p := ka_marginfi_program a in
  _ ← market_vault_of market (ka_market_debt_vault a) (mf_debt_mint f);
  _ ← market_vault_of market (ka_market_collateral_vault a) (mf_collateral_mint f);
  _ ← TokenAccountInfo_new_with_owner h (ka_debt_token a) (mf_debt_mint f) payer;
  _ ← TokenAccountInfo_new_with_owner h (ka_collateral_token a) (mf_collateral_mint f) payer;
  _ ← market_integration_account f (ka_lender_mfi a) p;
  _ ← market_integration_account f (ka_borrower_mfi a) p;
  _ ← market_bank f (ka_debt_bank a) p;
  _ ← market_bank f (ka_collateral_bank a) p;
  _ ← check_group (ka_group a) p (mf_marginfi_group f);
  _ ← check_liquidity_vault (ka_debt_bank a) (ka_debt_liquidity_vault a);
  _ ← check_liquidity_vault (ka_collateral_bank a) (ka_collateral_liquidity_vault a);
  _ ← TokenAccountInfo_new h (ka_debt_liquidity_vault a) (mf_debt_mint f);
  _ ← TokenAccountInfo_new h (ka_collateral_liquidity_vault a) (mf_collateral_mint f);
  check_liquidity_vault_authority (ka_collateral_bank a) (ka_collateral_bank_lva a) p.

(** A fixed loan that owes nothing has nothing to settle. *)
Definition check_still_owes (l : LoanFixed) : result unit :=
  ty ← loan_type l;
  require (negb (bool_decide (ty = LoanType_Fixed)) || (0 <? outstanding_debt_atoms l))
    InvalidArgument.

Definition load_settle_matured_loan : Load (KeeperContext * Opened) :=
  '(payer, _, market) ← market_head;
  loan ← next_ydelta LoanFixed;
  a ← load_keeper_ais;
  _ ← lift (check_loan (yi_key market) loan);
  _ ← lift (check_still_owes (yi_value loan));
  '(debt_mint, collateral_mint) ← lift (check_keeper_keys market (yi_value loan) a);
  _ ← lift (check_keeper_accounts market payer a);
  global_vault ← load_lender_vault (yi_value loan);
  mret (mkKeeperContext payer (yi_key market) (yi_key loan) (tx_key (ka_debt_token a))
          (tx_key (ka_collateral_token a)) (tx_key (ka_market_debt_vault a))
          (tx_key (ka_market_collateral_vault a)) (tx_key (ka_market_signer a))
          (tx_key (ka_lender_mfi a)) (tx_key (ka_borrower_mfi a)) (tx_key (ka_debt_bank a))
          (tx_key (ka_collateral_bank a)) (tx_key (ka_debt_liquidity_vault a))
          (tx_key (ka_collateral_liquidity_vault a)) (tx_key (ka_collateral_bank_lva a))
          (ka_debt_oracles a) (ka_collateral_oracles a) debt_mint collateral_mint
          (ka_token_program a) (tx_key (ka_group a)) (ka_marginfi_program a),
        opened_loan (yi_key market) (yi_key loan) global_vault no_user).

(** [CheckLtvLiquidatableContext] and [CheckMaturityLiquidatableContext]: the accounts a
    simulation reads; what it does not read has the null key. *)
Definition check_borrower_account (f : MarketFixed) (a : TxAccount) (marginfi_program : Pubkey)
    : result Pubkey :=
  MarginfiAccountInfo_new_with_expected_group a marginfi_program (mf_marginfi_group f).

Definition simulation_context (payer market loan borrower_mfi debt_bank collateral_bank : Pubkey)
    (debt_oracles collateral_oracles : list Pubkey) (marginfi_program : Pubkey) : KeeperContext :=
  let none := Pubkey_default in
  mkKeeperContext payer market loan none none none none none none borrower_mfi debt_bank
    collateral_bank none none none debt_oracles collateral_oracles (mkMintInfo none 0)
    (mkMintInfo none 0) none none marginfi_program.

Definition load_check_ltv_liquidatable : Load (KeeperContext * Opened) :=
  '(payer, _, market) ← market_head;
  loan ← next_ydelta LoanFixed;
  _ ← lift (check_loan (yi_key market) loan);
  let f := mk_fixed (yi_value market) in
  borrower_mfi_ai ← next_account_info;
  _ ← lift (check_key borrower_mfi_ai (mf_borrower_integration_account f));
  debt_bank_ai ← next_account_info;
  _ ← lift (check_key debt_bank_ai (mf_debt_lending_pool f));
  debt_oracles ← MarginfiOracleAis_load debt_bank_ai;
  collateral_bank_ai ← next_account_info;
  _ ← lift (check_key collateral_bank_ai (mf_collateral_lending_pool f));
  collateral_oracles ← MarginfiOracleAis_load collateral_bank_ai;
  p ← next_marginfi_program;
  borrower ← lift (check_borrower_account f borrower_mfi_ai p);
  debt_bank ← lift (market_bank f debt_bank_ai p);
  collateral_bank ← lift (market_bank f collateral_bank_ai p);
  mret (simulation_context payer (yi_key market) (yi_key loan) borrower debt_bank collateral_bank
          debt_oracles collateral_oracles p,
        opened_loan (yi_key market) (yi_key loan) None no_user).

Definition load_check_maturity_liquidatable : Load (KeeperContext * Opened) :=
  '(payer, _, market) ← market_head;
  loan ← next_ydelta LoanFixed;
  _ ← lift (check_loan (yi_key market) loan);
  let f := mk_fixed (yi_value market) in
  borrower_mfi_ai ← next_account_info;
  _ ← lift (check_key borrower_mfi_ai (mf_borrower_integration_account f));
  debt_bank_ai ← next_account_info;
  _ ← lift (check_key debt_bank_ai (mf_debt_lending_pool f));
  p ← next_marginfi_program;
  borrower ← lift (check_borrower_account f borrower_mfi_ai p);
  debt_bank ← lift (market_bank f debt_bank_ai p);
  mret (simulation_context payer (yi_key market) (yi_key loan) borrower debt_bank Pubkey_default
          [] [] p,
        opened_loan (yi_key market) (yi_key loan) None no_user).

(** ** Fees and claims *)

(** The accounts of [ProtocolFeeClaimContext] behind the market. *)
Record FeeAis := mkFeeAis {
  fa_admin_debt_token : TxAccount;
  fa_market_debt_vault : TxAccount;
  fa_market_signer : TxAccount;
  fa_lender_mfi : TxAccount;
  fa_debt_bank : TxAccount;
  fa_debt_liquidity_vault : TxAccount;
  fa_debt_bank_lva : TxAccount;
  fa_debt_oracles : list Pubkey;
  fa_debt_mint : TxAccount;
  fa_token_program : Pubkey;
  fa_group : TxAccount;
  fa_marginfi_program : Pubkey }.

Definition load_fee_ais : Load FeeAis :=
  admin_debt_token_ai ← next_account_info;
  market_debt_vault_ai ← next_account_info;
  market_signer_ai ← next_account_info;
  lender_mfi_ai ← next_account_info;
  debt_bank_ai ← next_account_info;
  debt_liquidity_vault_ai ← next_account_info;
  debt_bank_lva_ai ← next_account_info;
  debt_oracles ← MarginfiOracleAis_load debt_bank_ai;
  debt_mint_ai ← next_account_info;
  token_program ← next_token_program;
  group_ai ← next_account_info;
  marginfi_program ← next_marginfi_program;
  mret (mkFeeAis admin_debt_token_ai market_debt_vault_ai market_signer_ai lender_mfi_ai
          debt_bank_ai debt_liquidity_vault_ai debt_bank_lva_ai debt_oracles debt_mint_ai
          token_program group_ai marginfi_program).

Definition check_fee_ais (f : MarketFixed) (payer : Pubkey) (a : FeeAis) : result MintInfo :=
  let p := fa_marginfi_program a in
  _ ← check_key (fa_debt_mint a) (mf_debt_mint f);
  _ ← check_key (fa_debt_bank a) (mf_debt_lending_pool f);
  _ ← check_key (fa_lender_mfi a) (mf_lender_integration_account f);
  _ ← check_key (fa_market_signer a) (mf_market_signer f);
  _ ← check_key (fa_market_debt_vault a) (mf_debt_vault f);
  _ ← check_liquidity_vault (fa_debt_bank a) (fa_debt_liquidity_vault a);
  _ ← check_liquidity_vault_authority (fa_debt_bank a) (fa_debt_bank_lva a) p;
  _ ← TokenAccountInfo_new_with_owner h (fa_admin_debt_token a) (mf_debt_mint f) payer;
  _ ← TokenAccountInfo_new h (fa_market_debt_vault a) (mf_debt_mint f);
  _ ← TokenAccountInfo_new h (fa_debt_liquidity_vault a) (mf_debt_mint f);
  debt_mint ← MintAccountInfo_new h (fa_debt_mint a);
  _ ← market_bank f (fa_debt_bank a) p;
  _ ← market_integration_account f (fa_lender_mfi a) p;
  _ ← check_group (fa_group a) p (mf_marginfi_group f);
  mret debt_mint.

Definition load_protocol_fee_claim : Load (Pubkey * ProtocolFeeContext * Opened) :=
  '(payer, g, market) ← market_head;
  a ← load_fee_ais;
  _ ← check (payer =? gc_protocol_admin g) ProtocolAdminRequired;
  debt_mint ← lift (check_fee_ais (mk_fixed (yi_value market)) payer a);
  mret (payer,
        mkProtocolFeeContext (tx_key (fa_admin_debt_token a)) (tx_key (fa_market_debt_vault a))
          (tx_key (fa_market_signer a)) (tx_key (fa_lender_mfi a)) (tx_key (fa_debt_bank a))
          (tx_key (fa_debt_liquidity_vault a)) (tx_key (fa_debt_bank_lva a)) (fa_debt_oracles a)
          debt_mint (fa_token_program a) (tx_key (fa_group a)) (fa_marginfi_program a),
        opened_market (yi_key market) no_user).

(** [ClaimRepaymentForSubVaultContext]: the vault is the market's, and so are the accounts
    derived from both. *)
Record ClaimAis := mkClaimAis {
  ca_gv_signer : TxAccount;
  ca_gv_staging : TxAccount;
  ca_gv_integration : TxAccount;
  ca_market_debt_vault : TxAccount;
  ca_market_signer : TxAccount;
  ca_lender_mfi : TxAccount;
  ca_debt_bank : TxAccount;
  ca_debt_liquidity_vault : TxAccount;
  ca_debt_bank_lva : TxAccount;
  ca_debt_oracles : list Pubkey;
  ca_debt_mint : TxAccount;
  ca_token_program : Pubkey;
  ca_group : TxAccount;
  ca_marginfi_program : Pubkey }.

Definition check_claim_vault (f : MarketFixed) (gv : GlobalVaultFixed) : result unit :=
  _ ← require (gv_mint gv =? mf_debt_mint f) VaultWrongMint;
  _ ← require (gv_lending_pool gv =? mf_debt_lending_pool f) IncorrectAccount;
  require (gv_integration_pool gv =? mf_marginfi_group f) IncorrectAccount.

Definition load_claim_ais (market vault_key : Pubkey) (f : MarketFixed) : Load ClaimAis :=
  gv_signer_ai ← next_account_info;
  _ ← lift (check_key gv_signer_ai (fst (global_vault_signer_pda h vault_key)));
  gv_staging_ai ← next_account_info;
  _ ← lift (check_key gv_staging_ai (fst (global_vault_staging_pda h vault_key)));
  gv_integration_ai ← next_account_info;
  _ ← lift (check_key gv_integration_ai (fst (global_vault_integration_account_pda h vault_key)));
  market_debt_vault_ai ← next_account_info;
  _ ← lift (check_key market_debt_vault_ai (fst (get_vault_address h market (mf_debt_mint f))));
  market_signer_ai ← next_account_info;
  _ ← lift (check_key market_signer_ai (mf_market_signer f));
  lender_mfi_ai ← next_account_info;
  _ ← lift (check_key lender_mfi_ai (mf_lender_integration_account f));
  debt_bank_ai ← next_account_info;
  debt_liquidity_vault_ai ← next_account_info;
  debt_bank_lva_ai ← next_account_info;
  debt_oracles ← MarginfiOracleAis_load debt_bank_ai;
  debt_mint_ai ← next_account_info;
  token_program ← next_token_program;
  group_ai ← next_account_info;
  p ← next_marginfi_program;
  mret (mkClaimAis gv_signer_ai gv_staging_ai gv_integration_ai market_debt_vault_ai
          market_signer_ai lender_mfi_ai debt_bank_ai debt_liquidity_vault_ai debt_bank_lva_ai
          debt_oracles debt_mint_ai token_program group_ai p).

Definition check_claim_ais (market : YdeltaAccountInfo Market) (vault_key : Pubkey) (a : ClaimAis)
    : result MintInfo :=
  let f := mk_fixed (yi_value market) in
  let p := ca_marginfi_program a in
  _ ← check_key (ca_debt_bank a) (mf_debt_lending_pool f);
  _ ← check_key (ca_debt_mint a) (mf_debt_mint f);
  debt_mint ← MintAccountInfo_new h (ca_debt_mint a);
  _ ← market_bank f (ca_debt_bank a) p;
  _ ← market_integration_account f (ca_lender_mfi a) p;
  _ ← check_group (ca_group a) p (mf_marginfi_group f);
  _ ← check_liquidity_vault (ca_debt_bank a) (ca_debt_liquidity_vault a);
  _ ← TokenAccountInfo_new h (ca_debt_liquidity_vault a) (mf_debt_mint f);
  _ ← check_liquidity_vault_authority (ca_debt_bank a) (ca_debt_bank_lva a) p;
  _ ← market_vault_of market (ca_market_debt_vault a) (mf_debt_mint f);
  _ ← TokenAccountInfo_new_with_owner_and_key h (ca_gv_staging a) (mf_debt_mint f)
        (tx_key (ca_gv_signer a)) (fst (global_vault_staging_pda h vault_key));
  _ ← MarginfiAccountInfo_new_with_expected_authority_and_group (ca_gv_integration a) p
        (tx_key (ca_gv_signer a)) (mf_marginfi_group f);
  mret debt_mint.

Definition load_claim_repayment_for_sub_vault : Load (ClaimContext * Opened) :=
  '(_, _, market) ← market_head;
  let f := mk_fixed (yi_value market) in
  gv ← next_vault;
  _ ← lift (check_claim_vault f (vt_fixed (yi_value gv)));
  a ← load_claim_ais (yi_key market) (yi_key gv) f;
  debt_mint ← lift (check_claim_ais market (yi_key gv) a);
  mret (mkClaimContext (yi_key gv) (tx_key (ca_gv_signer a)) (tx_key (ca_gv_staging a))
          (tx_key (ca_gv_integration a)) (tx_key (ca_market_debt_vault a))
          (tx_key (ca_market_signer a)) (tx_key (ca_lender_mfi a)) (tx_key (ca_debt_bank a))
          (tx_key (ca_debt_liquidity_vault a)) (tx_key (ca_debt_bank_lva a)) (ca_debt_oracles a)
          debt_mint (ca_token_program a) (tx_key (ca_group a)) (ca_marginfi_program a),
        opened_book (yi_key market) (yi_key gv)).

(** ** Vaults: [CreateVaultContext], [GlobalVaultDepositContext], [GlobalVaultWithdrawContext],
    [ClaimCuratorFeeContext] *)

(** What [process_create_vault] takes. *)
Record CreateVaultKeys := mkCreateVaultKeys {
  cv_payer : Pubkey;
  cv_vault : Pubkey;
  cv_mint : MintAccount;
  cv_marginfi_group : Pubkey;
  cv_integration_account : Pubkey;
  cv_global_vault_signer : Pubkey;
  cv_global_vault_signer_bump : Z;
  cv_lending_pool : Pubkey }.

(** The accounts to create are derived from the bank and empty. *)
Definition check_new_vault (bank vault signer integration staging : TxAccount) : result unit :=
  _ ← check_key vault (fst (global_vault_pda h (tx_key bank)));
  _ ← check_key signer (fst (global_vault_signer_pda h (tx_key vault)));
  _ ← check_key integration (fst (global_vault_integration_account_pda h (tx_key vault)));
  _ ← check_key staging (fst (global_vault_staging_pda h (tx_key vault)));
  _ ← require (data_is_empty (tx_content vault)) IncorrectAccount;
  _ ← require (data_is_empty (tx_content integration)) IncorrectAccount;
  require (data_is_empty (tx_content staging)) IncorrectAccount.

(** A bank of a group, for a mint. *)
Definition check_bank_mint (bank group : TxAccount) (marginfi_program mint : Pubkey)
    (wrong_mint : ProgramError) : result unit :=
  _ ← MarginfiBankInfo_new_with_expected_group bank marginfi_program (tx_key group);
  b ← bank_view bank;
  require (bank_mint b =? mint) wrong_mint.

Definition load_create_vault : Load (GlobalConfig * CreateVaultKeys) :=
  payer ← next_payer;
  g ← next_global_config;
  vault_ai ← next_account_info;
  mint_ai ← next_account_info;
  mint ← lift (MintAccountInfo_new h mint_ai);
  vault_signer_ai ← next_account_info;
  integration_account_ai ← next_account_info;
  vault_staging_ai ← next_account_info;
  _ ← next_token_program;
  _ ← next_token_program;
  group_ai ← next_account_info;
  lending_pool_ai ← next_account_info;
  p ← next_marginfi_program;
  _ ← next_system_program;
  _ ← lift (check_new_vault lending_pool_ai vault_ai vault_signer_ai integration_account_ai
              vault_staging_ai);
  group ← lift (MarginfiGroupInfo_new group_ai p);
  _ ← lift (check_bank_mint lending_pool_ai group_ai p (mint_key mint) VaultWrongMint);
  mret (g, mkCreateVaultKeys payer (tx_key vault_ai) (mint_account h mint_ai mint) group
             (tx_key integration_account_ai) (tx_key vault_signer_ai)
             (snd (global_vault_signer_pda h (tx_key vault_ai))) (tx_key lending_pool_ai)).

(** What a vault of the list opens: its key, its contents and the user account. *)
Record OpenedVault := mkOpenedVault { ov_key : Pubkey; ov_vault : Vault; ov_user : UserAccount }.

(** The bank and the mint are the vault's. *)
Definition check_vault_mint (v : Vault) (mint : Pubkey) (bank : TxAccount) : result unit :=
  _ ← require (gv_mint (vt_fixed v) =? mint) VaultWrongMint;
  require (gv_lending_pool (vt_fixed v) =? tx_key bank) IncorrectAccount.

(** A depositor's accounts, in their order; a withdrawal has an oracle before the liquidity
    vault and its authority behind. *)
Record DepositorAis := mkDepositorAis {
  da_mint : MintInfo;
  da_vault_signer : TxAccount;
  da_vault_staging : TxAccount;
  da_depositor_token : TxAccount;
  da_token_program : Pubkey;
  da_group : TxAccount;
  da_integration : TxAccount;
  da_lending_pool : TxAccount;
  da_oracle : option TxAccount;
  da_liquidity_vault : TxAccount;
  da_lva : option TxAccount;
  da_marginfi_program : Pubkey;
  da_user_account : TxAccount }.

Definition next_if (b : bool) : Load (option TxAccount) :=
  if b then a ← next_account_info; mret (Some a) else mret None.

Definition load_depositor_ais (withdraws : bool) : Load DepositorAis :=
  mint ← next_mint;
  vault_signer_ai ← next_account_info;
  vault_staging_ai ← next_account_info;
  depositor_token_ai ← next_account_info;
  token_program ← next_token_program;
  group_ai ← next_account_info;
  integration_ai ← next_account_info;
  lending_pool_ai ← next_account_info;
  oracle_ai ← next_if withdraws;
  liquidity_vault_ai ← next_account_info;
  lva_ai ← next_if withdraws;
  p ← next_marginfi_program;
  user_account_ai ← next_account_info;
  _ ← next_system_program;
  mret (mkDepositorAis mint vault_signer_ai vault_staging_ai depositor_token_ai token_program
          group_ai integration_ai lending_pool_ai oracle_ai liquidity_vault_ai lva_ai p
          user_account_ai).

Definition check_depositor_ais (vault : YdeltaAccountInfo Vault) (payer : Pubkey) (a : DepositorAis)
    : result unit :=
  let gv := vt_fixed (yi_value vault) in
  let p := da_marginfi_program a in
  let mint := mint_key (da_mint a) in
  _ ← check_vault_pdas (yi_key vault) (da_vault_signer a) (da_vault_staging a) (da_integration a);
  _ ← check_vault_mint (yi_value vault) mint (da_lending_pool a);
  _ ← check_group (da_group a) p (gv_integration_pool gv);
  _ ← MarginfiAccountInfo_new_with_expected_authority_and_group (da_integration a) p
        (fst (global_vault_signer_pda h (yi_key vault))) (gv_integration_pool gv);
  _ ← MarginfiBankInfo_new_with_expected_group (da_lending_pool a) p (gv_integration_pool gv);
  _ ← TokenAccountInfo_new_with_owner_and_key h (da_vault_staging a) mint
        (tx_key (da_vault_signer a)) (fst (global_vault_staging_pda h (yi_key vault)));
  _ ← TokenAccountInfo_new_with_owner h (da_depositor_token a) mint payer;
  _ ← check_liquidity_vault (da_lending_pool a) (da_liquidity_vault a);
  _ ← (match da_oracle a with
       | Some oracle => check_primary_oracle (da_lending_pool a) oracle
       | None => Ok tt
       end);
  _ ← TokenAccountInfo_new h (da_liquidity_vault a) mint;
  match da_lva a with
  | Some lva => check_liquidity_vault_authority (da_lending_pool a) lva p
  | None => Ok tt
  end.

Definition optional_key (a : option TxAccount) : Pubkey := from_option tx_key Pubkey_default a.

Definition depositor_context (vault payer : Pubkey) (a : DepositorAis) : VaultContext :=
  mkVaultContext payer vault (da_mint a) (tx_key (da_vault_signer a)) (tx_key (da_vault_staging a))
    (tx_key (da_depositor_token a)) (da_token_program a) (tx_key (da_group a))
    (tx_key (da_integration a)) (tx_key (da_lending_pool a)) (optional_key (da_oracle a))
    (tx_key (da_liquidity_vault a)) (optional_key (da_lva a)) (da_marginfi_program a).

Definition load_depositor (withdraws : bool) : Load (VaultContext * OpenedVault) :=
  '(payer, _, vault) ← vault_head;
  a ← load_depositor_ais withdraws;
  _ ← lift (check_depositor_ais vault payer a);
  u ← touch_user_account h payer (da_user_account a);
  mret (depositor_context (yi_key vault) payer a, mkOpenedVault (yi_key vault) (yi_value vault) u).

Definition load_global_vault_deposit : Load (VaultContext * OpenedVault) := load_depositor false.
Definition load_global_vault_withdraw : Load (VaultContext * OpenedVault) := load_depositor true.

(** The accounts of a curator's claim. *)
Record CuratorAis := mkCuratorAis {
  qa_vault_signer : TxAccount;
  qa_vault_staging : TxAccount;
  qa_vault_integration : TxAccount;
  qa_curator_token : TxAccount;
  qa_debt_bank : TxAccount;
  qa_liquidity_vault : TxAccount;
  qa_lva : TxAccount;
  qa_bank_oracle : TxAccount;
  qa_mint : TxAccount;
  qa_token_program : Pubkey;
  qa_marginfi_program : Pubkey;
  qa_group : TxAccount }.

Definition load_curator_ais : Load CuratorAis :=
  vault_signer_ai ← next_account_info;
  vault_staging_ai ← next_account_info;
  vault_integration_ai ← next_account_info;
  curator_token_ai ← next_account_info;
  debt_bank_ai ← next_account_info;
  liquidity_vault_ai ← next_account_info;
  lva_ai ← next_account_info;
  bank_oracle_ai ← next_account_info;
  mint_ai ← next_account_info;
  token_program ← next_token_program;
  p ← next_marginfi_program;
  marginfi_group_ai ← next_account_info;
  _ ← lift (MarginfiGroupInfo_new marginfi_group_ai p);
  mret (mkCuratorAis vault_signer_ai vault_staging_ai vault_integration_ai curator_token_ai
          debt_bank_ai liquidity_vault_ai lva_ai bank_oracle_ai mint_ai token_program p
          marginfi_group_ai).

Definition check_curator_ais (vault : YdeltaAccountInfo Vault) (payer : Pubkey) (a : CuratorAis)
    : result MintInfo :=
  let gv := vt_fixed (yi_value vault) in
  let p := qa_marginfi_program a in
  let signer := fst (global_vault_signer_pda h (yi_key vault)) in
  _ ← check_vault_pdas (yi_key vault) (qa_vault_signer a) (qa_vault_staging a)
        (qa_vault_integration a);
  mint ← MintAccountInfo_new h (qa_mint a);
  _ ← check_vault_mint (yi_value vault) (mint_key mint) (qa_debt_bank a);
  _ ← check_key (qa_group a) (gv_integration_pool gv);
  _ ← MarginfiBankInfo_new_with_expected_group (qa_debt_bank a) p (gv_integration_pool gv);
  _ ← check_liquidity_vault (qa_debt_bank a) (qa_liquidity_vault a);
  _ ← check_primary_oracle (qa_debt_bank a) (qa_bank_oracle a);
  _ ← check_liquidity_vault_authority (qa_debt_bank a) (qa_lva a) p;
  _ ← TokenAccountInfo_new_with_owner_and_key h (qa_vault_staging a) (mint_key mint)
        (tx_key (qa_vault_signer a)) (fst (global_vault_staging_pda h (yi_key vault)));
  _ ← TokenAccountInfo_new_with_owner h (qa_curator_token a) (mint_key mint) payer;
  _ ← TokenAccountInfo_new h (qa_liquidity_vault a) (mint_key mint);
  _ ← MarginfiAccountInfo_new_with_expected_authority_and_group (qa_vault_integration a) p signer
        (gv_integration_pool gv);
  mret mint.

Definition load_claim_curator_fee : Load (CuratorContext * OpenedVault) :=
  '(payer, _, vault) ← vault_head;
  a ← load_curator_ais;
  mint ← lift (check_curator_ais vault payer a);
  mret (mkCuratorContext payer (tx_key (qa_vault_signer a)) (tx_key (qa_vault_staging a))
          (tx_key (qa_vault_integration a)) (tx_key (qa_curator_token a)) (tx_key (qa_debt_bank a))
          (tx_key (qa_liquidity_vault a)) (tx_key (qa_lva a)) (tx_key (qa_bank_oracle a)) mint
          (qa_token_program a) (qa_marginfi_program a) (tx_key (qa_group a)),
        mkOpenedVault (yi_key vault) (yi_value vault) no_user).

(** ** Resting asks: [CancelOrderForSubVaultContext], [MatchCrankContext],
    [PlaceOrderForSubVaultContext] *)

Definition load_cancel_order_for_sub_vault : Load (Pubkey * Opened) :=
  _ ← next_payer;
  curator ← next_signer;
  _ ← next_global_config;
  vault ← next_vault;
  market ← next_market;
  _ ← next_system_program;
  _ ← lift (require_vault_mint_matches_market (yi_value vault) (yi_value market));
  mret (curator, opened_book (yi_key market) (yi_key vault)).

(** The banks, the group and the oracles a matching reads. *)
Definition load_book (payer : Pubkey) (market : YdeltaAccountInfo Market) : Load BookContext :=
  let f := mk_fixed (yi_value market) in
  debt_bank_ai ← next_account_info;
  _ ← lift (check_key debt_bank_ai (mf_debt_lending_pool f));
  group_ai ← next_account_info;
  _ ← lift (check_key group_ai (mf_marginfi_group f));
  debt_bank ← lift (MarginfiBankInfo_new_with_expected_group debt_bank_ai MARGINFI_ID
                      (tx_key group_ai));
  group ← lift (MarginfiGroupInfo_new group_ai MARGINFI_ID);
  collateral_bank_ai ← next_account_info;
  _ ← lift (check_key collateral_bank_ai (mf_collateral_lending_pool f));
  collateral_bank ← lift (MarginfiBankInfo_new_with_expected_group collateral_bank_ai MARGINFI_ID
                            (tx_key group_ai));
  debt_oracles ← MarginfiOracleAis_load debt_bank_ai;
  collateral_oracles ← MarginfiOracleAis_load collateral_bank_ai;
  mret (mkBookContext payer (yi_key market) group debt_bank collateral_bank debt_oracles
          collateral_oracles).

Definition load_match_crank : Load (BookContext * Opened) :=
  payer ← next_payer;
  _ ← next_global_config;
  vault ← next_vault;
  market ← next_market;
  ctx ← load_book payer market;
  _ ← lift (require_vault_mint_matches_market (yi_value vault) (yi_value market));
  mret (ctx, opened_book (yi_key market) (yi_key vault)).

Definition load_place_order_for_sub_vault : Load (BookContext * Pubkey * Opened) :=
  fee_payer ← next_payer;
  curator ← next_signer;
  _ ← next_global_config;
  vault ← next_vault;
  market ← next_market;
  ctx ← load_book fee_payer market;
  _ ← next_system_program;
  _ ← lift (require_vault_mint_matches_market (yi_value vault) (yi_value market));
  mret (ctx, curator, opened_book (yi_key market) (yi_key vault)).

(** ** Refinance: [ConvertP2PoolToFixedContext] *)

(** The loan is an active pool loan of this market, at its address. *)
Definition check_convertible (market_key : Pubkey) (loan : YdeltaAccountInfo LoanFixed)
    : result unit :=
  let l := yi_value loan in
  _ ← require (loan_market l =? market_key) IncorrectAccount;
  _ ← require (loan_type_byte l =? LoanType_as_u8 LoanType_P2Pool) InvalidArgument;
  _ ← require (loan_state_byte l =? LoanState_as_u8 LoanState_Active) InvalidArgument;
  require (yi_key loan =? fst (loan_pda h market_key (matched_loan_sequence l))) IncorrectAccount.

(** The market's side of a refinance. *)
Record ConvertAis := mkConvertAis {
  xa_borrower_mfi : TxAccount;
  xa_debt_bank : TxAccount;
  xa_debt_liquidity_vault : TxAccount;
  xa_debt_bank_lva : TxAccount;
  xa_debt_oracles : list Pubkey;
  xa_collateral_bank : TxAccount;
  xa_collateral_oracles : list Pubkey;
  xa_market_debt_vault : TxAccount;
  xa_debt_mint : TxAccount;
  xa_market_signer : TxAccount;
  xa_token_program : Pubkey;
  xa_group : TxAccount;
  xa_marginfi_program : Pubkey }.

Definition load_convert_ais (f : MarketFixed) : Load ConvertAis :=
  borrower_mfi_ai ← next_account_info;
  _ ← lift (check_key borrower_mfi_ai (mf_borrower_integration_account f));
  debt_bank_ai ← next_account_info;
  _ ← lift (check_key debt_bank_ai (mf_debt_lending_pool f));
  debt_liquidity_vault_ai ← next_account_info;
  debt_bank_lva_ai ← next_account_info;
  debt_oracles ← MarginfiOracleAis_load debt_bank_ai;
  collateral_bank_ai ← next_account_info;
  _ ← lift (check_key collateral_bank_ai (mf_collateral_lending_pool f));
  collateral_oracles ← MarginfiOracleAis_load collateral_bank_ai;
  market_debt_vault_ai ← next_account_info;
  _ ← lift (check_key market_debt_vault_ai (mf_debt_vault f));
  debt_mint_ai ← next_account_info;
  _ ← lift (check_key debt_mint_ai (mf_debt_mint f));
  market_signer_ai ← next_account_info;
  _ ← lift (check_key market_signer_ai (mf_market_signer f));
  token_program ← next_token_program;
  group_ai ← next_account_info;
  p ← next_marginfi_program;
  mret (mkConvertAis borrower_mfi_ai debt_bank_ai debt_liquidity_vault_ai debt_bank_lva_ai
          debt_oracles collateral_bank_ai collateral_oracles market_debt_vault_ai debt_mint_ai
          market_signer_ai token_program group_ai p).

Definition check_convert_ais (f : MarketFixed) (a : ConvertAis) : result unit :=
  let p := xa_marginfi_program a in
  _ ← check_liquidity_vault (xa_debt_bank a) (xa_debt_liquidity_vault a);
  _ ← check_liquidity_vault_authority (xa_debt_bank a) (xa_debt_bank_lva a) p;
  _ ← TokenAccountInfo_new_with_owner h (xa_market_debt_vault a) (mf_debt_mint f)
        (mf_market_signer f);
  _ ← TokenAccountInfo_new h (xa_debt_liquidity_vault a) (mf_debt_mint f);
  _ ← MintAccountInfo_new h (xa_debt_mint a);
  _ ← market_bank f (xa_debt_bank a) p;
  _ ← market_bank f (xa_collateral_bank a) p;
  _ ← market_integration_account f (xa_borrower_mfi a) p;
  _ ← check_group (xa_group a) p (mf_marginfi_group f);
  mret tt.

(** The vault's side: the vault of the debt bank, its signer and integration account. *)
Definition load_convert_vault (f : MarketFixed) (marginfi_program : Pubkey)
    : Load (Pubkey * Pubkey * Pubkey) :=
  gv ← next_vault;
  _ ← check (yi_key gv =? fst (global_vault_pda h (mf_debt_lending_pool f))) IncorrectAccount;
  let vfixed := vt_fixed (yi_value gv) in
  _ ← check (gv_lending_pool vfixed =? mf_debt_lending_pool f) IncorrectAccount;
  gv_signer_ai ← next_account_info;
  let expected_signer := fst (global_vault_signer_pda h (yi_key gv)) in
  _ ← lift (check_key gv_signer_ai expected_signer);
  gv_integration_ai ← next_account_info;
  _ ← lift (check_key gv_integration_ai (gv_integration_account vfixed));
  integration ← lift (MarginfiAccountInfo_new_with_expected_authority_and_group gv_integration_ai
                        marginfi_program expected_signer (mf_marginfi_group f));
  mret (yi_key gv, tx_key gv_signer_ai, integration).

Definition load_convert_p2pool_to_fixed : Load (ConvertContext * Opened) :=
  '(payer, _, market) ← market_head;
  loan ← next_ydelta LoanFixed;
  _ ← next_system_program;
  _ ← lift (check_convertible (yi_key market) loan);
  let f := mk_fixed (yi_value market) in
  a ← load_convert_ais f;
  _ ← lift (check_convert_ais f a);
  '(gv, gv_signer, gv_integration) ← load_convert_vault f (xa_marginfi_program a);
  cranker_refund_ai ← next_account_info;
  _ ← lift (check_key cranker_refund_ai (loan_created_by (yi_value loan)));
  mret (mkConvertContext payer (tx_key (xa_borrower_mfi a)) (tx_key (xa_debt_bank a))
          (tx_key (xa_debt_liquidity_vault a)) (tx_key (xa_debt_bank_lva a)) (xa_debt_oracles a)
          (tx_key (xa_collateral_bank a)) (xa_collateral_oracles a)
          (tx_key (xa_market_debt_vault a)) (tx_key (xa_market_signer a)) (xa_token_program a)
          (tx_key (xa_group a)) (xa_marginfi_program a) gv_integration gv_signer,
        opened_loan (yi_key market) (yi_key loan) (Some gv) no_user).

(** ** Administration *)

(** The contexts of a payer, the configuration and one account; the loaders that also check
    a role or a pause do it on these typed accounts. *)
Definition load_market_role : Load (Pubkey * GlobalConfig * YdeltaAccountInfo Market) :=
  payer ← next_payer;
  g ← next_global_config_no_pause;
  market ← next_ydelta Market;
  mret (payer, g, market).
Definition load_vault_role : Load (Pubkey * GlobalConfig * YdeltaAccountInfo Vault) :=
  payer ← next_payer;
  g ← next_global_config_no_pause;
  vault ← next_ydelta Vault;
  mret (payer, g, vault).
Definition load_config_role : Load (Pubkey * GlobalConfig) :=
  payer ← next_payer;
  g ← next_global_config_no_pause;
  mret (payer, g).

Definition load_transfer_market_admin := load_market_role.
Definition load_accept_market_admin := load_market_role.
Definition load_set_market_pause := load_market_role.
Definition load_transfer_global_vault_admin := load_vault_role.
Definition load_accept_global_vault_admin := load_vault_role.
Definition load_transfer_curator := load_vault_role.
Definition load_accept_curator := load_vault_role.
Definition load_set_vault_pause := load_vault_role.
Definition load_transfer_protocol_admin := load_config_role.
Definition load_accept_protocol_admin := load_config_role.
Definition load_set_global_pause := load_config_role.

(** The list [process_set_fee_config] reads itself. *)
Definition load_set_fee_config : Load (Pubkey * GlobalConfig * YdeltaAccountInfo Market) :=
  payer ← next_payer;
  g ← next_global_config;
  market ← next_ydelta Market;
  _ ← next_system_program;
  mret (payer, g, market).

Definition load_sub_vault_mutation_ctx : Load (Pubkey * GlobalConfig * YdeltaAccountInfo Vault) :=
  '(payer, g, vault) ← vault_head;
  _ ← next_system_program;
  mret (payer, g, vault).

Definition load_create_pool_sub_vault_ctx : Load (Pubkey * GlobalConfig * YdeltaAccountInfo Vault) :=
  '(payer, g, vault) ← vault_head;
  _ ← next_system_program;
  _ ← check (payer =? gc_protocol_admin g) ProtocolAdminRequired;
  mret (payer, g, vault).

Definition check_vault_admin (payer : Pubkey) (vault : YdeltaAccountInfo Vault) : result unit :=
  require (payer =? gv_global_vault_admin (vt_fixed (yi_value vault))) VaultAdminRequired.

Definition load_remove_sub_vault_ctx : Load (Pubkey * GlobalConfig * YdeltaAccountInfo Vault) :=
  '(payer, g, vault) ← vault_head;
  _ ← lift (check_vault_admin payer vault);
  mret (payer, g, vault).

Definition load_sunset_sub_vault : Load (Pubkey * GlobalConfig * YdeltaAccountInfo Vault) :=
  '(payer, g, vault) ← load_vault_role;
  _ ← lift (check_vault_admin payer vault);
  mret (payer, g, vault).
Definition load_resume_sub_vault : Load (Pubkey * GlobalConfig * YdeltaAccountInfo Vault) :=
  '(payer, g, vault) ← load_vault_role;
  _ ← lift (check_vault_admin payer vault);
  mret (payer, g, vault).

Definition load_admin_cancel_sub_vault_order : Load (Pubkey * Opened) :=
  '(payer, _, vault) ← load_vault_role;
  market ← next_ydelta Market;
  _ ← lift (check_vault_admin payer vault);
  _ ← lift (require_vault_mint_matches_market (yi_value vault) (yi_value market));
  mret (payer, opened_book (yi_key market) (yi_key vault)).

(** ** Creation: [CreateGlobalConfigContext], [CreateMarketContext] *)

(** The payer, the configuration account and the program-data account, on which
    [check_upgrade_authority] runs. *)
Definition load_create_global_config : Load (Pubkey * TxAccount * AccountInfo) :=
  payer ← next_payer;
  global_config ← next_account_info;
  _ ← next_system_program;
  program_data_ai ← next_account_info;
  program_data ← lift (foreign_info program_data_ai);
  _ ← lift (check_upgrade_authority payer (expected_program_data h) BPF_LOADER_UPGRADEABLE_ID
              program_data);
  mret (payer, global_config, program_data).

(** The accounts of [CreateMarketContext], in their order. *)
Record CreateMarketAis := mkCreateMarketAis {
  ma_market : Pubkey;
  ma_debt_mint_ai : TxAccount;
  ma_debt_mint : MintInfo;
  ma_collateral_mint_ai : TxAccount;
  ma_collateral_mint : MintInfo;
  ma_debt_vault : Pubkey;
  ma_collateral_vault : Pubkey;
  ma_group : TxAccount;
  ma_debt_bank : TxAccount;
  ma_collateral_bank : TxAccount;
  ma_lender_mfi : TxAccount;
  ma_borrower_mfi : TxAccount;
  ma_market_signer : TxAccount;
  ma_marginfi_program : Pubkey }.

Definition load_create_market_ais : Load CreateMarketAis :=
  market_ai ← next_account_info;
  market ← lift (YdeltaAccountInfo_new_init MARKET_FIXED_SIZE market_ai);
  _ ← next_system_program;
  debt_mint_ai ← next_account_info;
  debt_mint ← lift (MintAccountInfo_new h debt_mint_ai);
  collateral_mint_ai ← next_account_info;
  collateral_mint ← lift (MintAccountInfo_new h collateral_mint_ai);
  debt_vault_ai ← next_account_info;
  debt_vault ← lift (EmptyAccount_new debt_vault_ai);
  collateral_vault_ai ← next_account_info;
  collateral_vault ← lift (EmptyAccount_new collateral_vault_ai);
  _ ← check (debt_vault =? fst (get_vault_address h market (mint_key debt_mint))) IncorrectAccount;
  _ ← check (collateral_vault =? fst (get_vault_address h market (mint_key collateral_mint)))
        IncorrectAccount;
  _ ← next_token_program;
  _ ← next_token_program;
  group_ai ← next_account_info;
  debt_bank_ai ← next_account_info;
  collateral_bank_ai ← next_account_info;
  lender_mfi_ai ← next_account_info;
  borrower_mfi_ai ← next_account_info;
  market_signer_ai ← next_account_info;
  p ← next_marginfi_program;
  mret (mkCreateMarketAis market debt_mint_ai debt_mint collateral_mint_ai collateral_mint
          debt_vault collateral_vault group_ai debt_bank_ai collateral_bank_ai lender_mfi_ai
          borrower_mfi_ai market_signer_ai p).

Definition check_create_market_ais (a : CreateMarketAis) : result CreateMarketKeys :=
  let p := ma_marginfi_program a in
  group ← MarginfiGroupInfo_new (ma_group a) p;
  debt_bank ← MarginfiBankInfo_new_with_expected_group (ma_debt_bank a) p (tx_key (ma_group a));
  collateral_bank ← MarginfiBankInfo_new_with_expected_group (ma_collateral_bank a) p
                      (tx_key (ma_group a));
  d ← bank_view (ma_debt_bank a);
  _ ← require (bank_mint d =? mint_key (ma_debt_mint a)) IncorrectAccount;
  c ← bank_view (ma_collateral_bank a);
  _ ← require (bank_mint c =? mint_key (ma_collateral_mint a)) IncorrectAccount;
  let '(lender, lender_bump) := get_lender_integration_account_address h (ma_market a) in
  _ ← check_key (ma_lender_mfi a) lender;
  let '(borrower, borrower_bump) := get_borrower_integration_account_address h (ma_market a) in
  _ ← check_key (ma_borrower_mfi a) borrower;
  let '(signer, signer_bump) := get_market_signer_address h (ma_market a) in
  _ ← check_key (ma_market_signer a) signer;
  mret (mkCreateMarketKeys (ma_market a) lender lender_bump borrower borrower_bump debt_bank
          collateral_bank group signer signer_bump).

Definition load_create_market
    : Load (Pubkey * GlobalConfig * CreateMarketKeys * MintAccount * MintAccount) :=
  payer ← next_payer;
  g ← next_global_config;
  _ ← check (payer =? gc_protocol_admin g) ProtocolAdminRequired;
  a ← load_create_market_ais;
  keys ← lift (check_create_market_ais a);
  mret (payer, g, keys, mint_account h (ma_debt_mint_ai a) (ma_debt_mint a),
        mint_account h (ma_collateral_mint_ai a) (ma_collateral_mint a)).
End Loaders.
