(* ===== verification/Execute.v ===== *)
(** * A transaction, from its account list ([lib.rs], [program/processor/])

    [Program] takes a handler's context for granted.  Here an instruction with its decoded
    parameters and the list of accounts its sender chose goes through the loader to the
    handler: [execute].  [account_info] is what the runtime hands over for a key of the
    chain. *)
From stdpp Require Import base numbers list option gmap strings.
From S2P Require Import Prelude FixedPoint Loan Marginfi Oracles Hypertree SubVault.
From S2P Require Import Market VaultTrees Matching UserAccount Runtime LoanClose Repay.
From S2P Require Import Keeper Promotion Deposits Claims Convert Admin Orders Program.
From S2P Require Import Accounts Loaders.
Local Open Scope Z_scope.

(** ** The accounts of the chain *)

Record AccountMeta := mkAccountMeta {
  am_key : Pubkey;
  am_is_signer : bool;
  am_is_writable : bool }.

(** What the chain holds besides the program's state: the user accounts, and the accounts
    of other programs. *)
Record Outside := mkOutside {
  os_users : gmap Pubkey UserAccount;
  os_lamports : Pubkey → Z;
  os_ledger : Ledger }.

Section Execute.
  Variable h : Host.

Definition account_content (s : System) (o : Outside) (k : Pubkey) : Pubkey * Content :=
  match (if k =? fst (global_config_pda h) then sy_config s else None) with
  | Some g => (YDELTA_ID, ConfigData g)
  | None =>
  match sy_markets s !! k with
  | Some m => (YDELTA_ID, MarketData m)
  | None =>
  match sy_vaults s !! k with
  | Some v => (YDELTA_ID, VaultData v)
  | None =>
  match sy_loans s !! k with
  | Some l => (YDELTA_ID, LoanData l)
  | None =>
  match os_users o !! k with
  | Some u => (YDELTA_ID, UserData u)
  | None =>
  match os_ledger o !! k with
  | Some a => (ai_owner a, Bytes (ai_data a))
  | None => (SYSTEM_PROGRAM_ID, Bytes [])
  end end end end end end.

Definition account_info (s : System) (o : Outside) (m : AccountMeta) : TxAccount :=
  let '(owner, content) := account_content s o (am_key m) in
  mkTxAccount (am_key m) owner (os_lamports o (am_key m)) (am_is_signer m) (am_is_writable m)
    content.

(** ** The instructions, with their decoded parameters *)

Inductive MarketRequest :=
  | RqClaimSeat
  | RqDeposit (amount_atoms : Z) (hint : option Z)
  | RqWithdraw (amount_atoms : Z) (hint : option Z) (withdraw_all : bool)
  | RqPlaceOrder (p : PlaceOrderParams)
  | RqCancelOrder (order_sequence : Z) (hint : option Z)
  | RqUpdateOrder (p : UpdateOrderParams)
  | RqSyncMarketPosition
  | RqProcessMatchedLoan (sequence : Z) (hint : option Z)
  | RqRepay (p : RepayParams)
  | RqSettleMaturedLoan (data : list Z)
  | RqLiquidateLoan (data : list Z)
  | RqCheckLtvLiquidatable
  | RqCheckMaturityLiquidatable
  | RqConvertP2PoolToFixed (max_rate_bps ltv_buffer_bps : Z)
  | RqPlaceOrderForSubVault (sub_vault_id flags : Z)
  | RqUpdateOrderForSubVault (sub_vault_id flags : Z)
  | RqCancelOrderForSubVault (sub_vault_id : Z)
  | RqAdminCancelSubVaultOrder (sub_vault_id : Z)
  | RqMatchCrank (max_fills : Z)
  | RqClaimRepaymentForSubVault (sub_vault_id : Z)
  | RqProtocolFeeClaim
  | RqSetFeeConfig (p : SetFeeConfigParams)
  | RqTransferMarketAdmin (new_admin : Pubkey)
  | RqAcceptMarketAdmin
  | RqSetMarketPause (paused : Z).

Inductive VaultRequest :=
  | RqCreatePoolSubVault (curator : Pubkey)
      (spread_bps max_ltv_bps liquidation_ltv_bps max_term_seconds curator_fee_bps : Z)
  | RqCreatePrivateSubVault (spread_bps max_ltv_bps liquidation_ltv_bps max_term_seconds : Z)
  | RqUpdateSubVault (sub_vault_id : Z) (p : UpdateSubVaultParams)
  | RqSunsetSubVault (sub_vault_id : Z)
  | RqResumeSubVault (sub_vault_id : Z)
  | RqRemoveSubVault (sub_vault_id : Z)
  | RqGlobalVaultDeposit (amount_atoms sub_vault_id : Z)
  | RqGlobalVaultWithdraw (shares sub_vault_id : Z)
  | RqClaimCuratorFee (sub_vault_id : Z)
  | RqTransferGlobalVaultAdmin (new_admin : Pubkey)
  | RqAcceptGlobalVaultAdmin
  | RqTransferCurator (sub_vault_id : Z) (new_curator : Pubkey)
  | RqAcceptCurator (sub_vault_id : Z)
  | RqSetVaultPause (paused : Z).

Inductive ConfigRequest :=
  | RqTransferProtocolAdmin (new_admin : Pubkey)
  | RqAcceptProtocolAdmin
  | RqSetGlobalPause (paused : Z).

Inductive Request :=
  | OnMarket (r : MarketRequest)
  | OnVault (r : VaultRequest)
  | OnConfig (r : ConfigRequest)
  | CreateMarketRequest (p : SetFeeConfigParams)
  | CreateVaultRequest
  | CreateGlobalConfigRequest.

(** ** Loading *)

(** The configuration, the handler's instruction and what the loader opened; a handler
    whose loader drops the configuration gets it from [config]. *)
Definition load_market_ix (r : MarketRequest) : Load (MarketIx * Opened) :=
  match r with
  | RqClaimSeat => '(payer, o) ← load_claim_seat h; mret (IxClaimSeat payer, o)
  | RqDeposit amount hint => '(ctx, o) ← load_deposit h; mret (IxDeposit ctx amount hint, o)
  | RqWithdraw amount hint all =>
      '(ctx, o) ← load_withdraw h; mret (IxWithdraw ctx amount hint all, o)
  | RqPlaceOrder p => '(ctx, fb, o) ← load_place_order h; mret (IxPlaceOrder ctx fb p, o)
  | RqCancelOrder sequence hint =>
      '(payer, o) ← load_cancel_order h; mret (IxCancelOrder payer sequence hint, o)
  | RqUpdateOrder p => '(payer, o) ← load_cancel_order h; mret (IxUpdateOrder payer p, o)
  | RqSyncMarketPosition =>
      '(owner, o) ← load_sync_market_position h; mret (IxSyncMarketPosition owner, o)
  | RqProcessMatchedLoan sequence _ =>
      '(ctx, o) ← load_process_matched_loan h sequence;
      mret (IxProcessMatchedLoan ctx sequence, o)
  | RqRepay p => '(ctx, o) ← load_repay h; mret (IxRepay ctx p, o)
  | RqSettleMaturedLoan data =>
      '(ctx, o) ← load_settle_matured_loan h; mret (IxSettleMaturedLoan ctx data, o)
  | RqLiquidateLoan data =>
      '(ctx, o) ← load_settle_matured_loan h; mret (IxLiquidateLoan ctx data, o)
  | RqCheckLtvLiquidatable =>
      '(ctx, o) ← load_check_ltv_liquidatable h; mret (IxCheckLtvLiquidatable ctx, o)
  | RqCheckMaturityLiquidatable =>
      '(ctx, o) ← load_check_maturity_liquidatable h; mret (IxCheckMaturityLiquidatable ctx, o)
  | RqConvertP2PoolToFixed max_rate buffer =>
      '(ctx, o) ← load_convert_p2pool_to_fixed h;
      mret (IxConvertP2PoolToFixed ctx max_rate buffer, o)
  | RqPlaceOrderForSubVault id flags =>
      '(ctx, curator, o) ← load_place_order_for_sub_vault h;
      mret (IxPlaceOrderForSubVault ctx curator id flags, o)
  | RqUpdateOrderForSubVault id flags =>
      '(ctx, curator, o) ← load_place_order_for_sub_vault h;
      mret (IxUpdateOrderForSubVault ctx curator id flags, o)
  | RqCancelOrderForSubVault id =>
      '(curator, o) ← load_cancel_order_for_sub_vault h;
      mret (IxCancelOrderForSubVault curator id, o)
  | RqAdminCancelSubVaultOrder id =>
      '(payer, o) ← load_admin_cancel_sub_vault_order h;
      mret (IxAdminCancelSubVaultOrder payer id, o)
  | RqMatchCrank max_fills => '(ctx, o) ← load_match_crank h; mret (IxMatchCrank ctx max_fills, o)
  | RqClaimRepaymentForSubVault id =>
      '(ctx, o) ← load_claim_repayment_for_sub_vault h;
      mret (IxClaimRepaymentForSubVault ctx id, o)
  | RqProtocolFeeClaim =>
      '(payer, ctx, o) ← load_protocol_fee_claim h; mret (IxProtocolFeeClaim payer ctx, o)
  | RqSetFeeConfig p =>
      '(payer, _, market) ← load_set_fee_config h;
      mret (IxSetFeeConfig payer p, opened_market (yi_key market) no_user)
  | RqTransferMarketAdmin new_admin =>
      '(payer, _, market) ← load_transfer_market_admin h;
      mret (IxTransferMarketAdmin payer new_admin, opened_market (yi_key market) no_user)
  | RqAcceptMarketAdmin =>
      '(payer, _, market) ← load_accept_market_admin h;
      mret (IxAcceptMarketAdmin payer, opened_market (yi_key market) no_user)
  | RqSetMarketPause paused =>
      '(payer, _, market) ← load_set_market_pause h;
      mret (IxSetMarketPause payer paused, opened_market (yi_key market) no_user)
  end.

Definition open_vault_only (vault : YdeltaAccountInfo Vault) : OpenedVault :=
  mkOpenedVault (yi_key vault) (yi_value vault) no_user.

Definition load_vault_ix (r : VaultRequest) : Load (VaultIx * OpenedVault) :=
  match r with
  | RqCreatePoolSubVault curator spread max liq term fee =>
      '(payer, _, v) ← load_create_pool_sub_vault_ctx h;
      mret (IxCreatePoolSubVault payer curator spread max liq term fee, open_vault_only v)
  | RqCreatePrivateSubVault spread max liq term =>
      '(payer, _, v) ← load_sub_vault_mutation_ctx h;
      mret (IxCreatePrivateSubVault payer spread max liq term, open_vault_only v)
  | RqUpdateSubVault id p =>
      '(payer, _, v) ← load_sub_vault_mutation_ctx h;
      mret (IxUpdateSubVault payer id p, open_vault_only v)
  | RqSunsetSubVault id =>
      '(payer, _, v) ← load_sunset_sub_vault h; mret (IxSunsetSubVault payer id, open_vault_only v)
  | RqResumeSubVault id =>
      '(payer, _, v) ← load_resume_sub_vault h; mret (IxResumeSubVault payer id, open_vault_only v)
  | RqRemoveSubVault id =>
      '(payer, _, v) ← load_remove_sub_vault_ctx h;
      mret (IxRemoveSubVault payer id, open_vault_only v)
  | RqGlobalVaultDeposit amount id =>
      '(ctx, o) ← load_global_vault_deposit h; mret (IxGlobalVaultDeposit ctx amount id, o)
  | RqGlobalVaultWithdraw shares id =>
      '(ctx, o) ← load_global_vault_withdraw h; mret (IxGlobalVaultWithdraw ctx shares id, o)
  | RqClaimCuratorFee id =>
      '(ctx, o) ← load_claim_curator_fee h; mret (IxClaimCuratorFee ctx id, o)
  | RqTransferGlobalVaultAdmin new_admin =>
      '(payer, _, v) ← load_transfer_global_vault_admin h;
      mret (IxTransferGlobalVaultAdmin payer new_admin, open_vault_only v)
  | RqAcceptGlobalVaultAdmin =>
      '(payer, _, v) ← load_accept_global_vault_admin h;
      mret (IxAcceptGlobalVaultAdmin payer, open_vault_only v)
  | RqTransferCurator id new_curator =>
      '(payer, _, v) ← load_transfer_curator h;
      mret (IxTransferCurator payer id new_curator, open_vault_only v)
  | RqAcceptCurator id =>
      '(payer, _, v) ← load_accept_curator h; mret (IxAcceptCurator payer id, open_vault_only v)
  | RqSetVaultPause paused =>
      '(payer, _, v) ← load_set_vault_pause h; mret (IxSetVaultPause payer paused, open_vault_only v)
  end.

Definition load_config_ix (r : ConfigRequest) : Load (ConfigIx * GlobalConfig) :=
  match r with
  | RqTransferProtocolAdmin new_admin =>
      '(payer, g) ← load_transfer_protocol_admin h; mret (IxTransferProtocolAdmin payer new_admin, g)
  | RqAcceptProtocolAdmin =>
      '(payer, g) ← load_accept_protocol_admin h; mret (IxAcceptProtocolAdmin payer, g)
  | RqSetGlobalPause paused =>
      '(payer, g) ← load_set_global_pause h; mret (IxSetGlobalPause payer paused, g)
  end.

(** ** Running *)

(** The parameters of the calls into other programs. *)
Variable invoke_signed : MarginfiIx → list AccountInfo → result (list AccountInfo).
Variable invoke_token : TokenIx → list AccountInfo → result (list AccountInfo).
Variable parse_stake_state : list Z → option StakeState.

(** The derived addresses [Program] and [Admin] take as parameters. *)
Definition host_pdas : Pdas :=
  mkPdas (λ market sequence, fst (loan_pda h market sequence)) (λ bank, fst (global_vault_pda h bank)).
Definition host_env : Env :=
  mkEnv invoke_signed invoke_token parse_stake_state (get_vault_address h) host_pdas.

(** The handlers behind their loaders, without the gates of [Program]; the handlers of
    [Admin] open with the gates of theirs. *)
Definition run_market_ix (now : Z) (k : TxKeys) (g : GlobalConfig) (i : MarketIx) (w : World)
    : result World :=
  match i with
  | IxClaimSeat payer => process_claim_seat (tk_market k) payer w
  | IxDeposit ctx amount hint => process_deposit invoke_signed invoke_token ctx amount hint w
  | IxWithdraw ctx amount hint all =>
      process_withdraw invoke_signed invoke_token ctx amount hint all w
  | IxPlaceOrder ctx fb p => process_place_order parse_stake_state now invoke_signed ctx fb p w
  | IxCancelOrder payer sequence hint =>
      process_cancel_order (tk_market k) payer sequence hint w
  | IxUpdateOrder payer p => process_update_order now (tk_market k) payer p w
  | IxSyncMarketPosition owner => process_sync_market_position (tk_market k) owner w
  | IxProcessMatchedLoan ctx sequence =>
      process_primary_promotion invoke_signed invoke_token ctx now sequence w
  | IxRepay ctx p => process_repay invoke_signed invoke_token ctx now p w
  | IxSettleMaturedLoan ctx data =>
      process_settle_matured_loan invoke_signed invoke_token ctx now data w
  | IxLiquidateLoan ctx data =>
      process_liquidate_loan invoke_signed invoke_token parse_stake_state ctx now data w
  | IxCheckLtvLiquidatable ctx =>
      _ ← process_check_ltv_liquidatable parse_stake_state ctx now w; mret w
  | IxCheckMaturityLiquidatable ctx => _ ← process_check_maturity_liquidatable ctx now w; mret w
  | IxConvertP2PoolToFixed ctx max_rate buffer =>
      process_convert_p2pool_to_fixed invoke_signed parse_stake_state ctx now max_rate buffer w
  | IxPlaceOrderForSubVault ctx curator id flags =>
      on_book w (process_place_order_for_sub_vault parse_stake_state now ctx (tk_vault k) curator
                   id flags (wd_ledger w))
  | IxUpdateOrderForSubVault ctx curator id flags =>
      on_book w (process_update_order_for_sub_vault parse_stake_state now ctx (tk_vault k) curator
                   id flags (wd_ledger w))
  | IxCancelOrderForSubVault curator id =>
      on_book w (process_cancel_order_for_sub_vault (tk_vault k) (tk_market k) curator id)
  | IxAdminCancelSubVaultOrder payer id =>
      on_book w (process_admin_cancel_sub_vault_order (tk_vault k) (tk_market k) id)
  | IxMatchCrank ctx max_fills =>
      on_book w (λ m v,
        '(m, v, _) ← process_match_crank parse_stake_state now ctx max_fills (wd_ledger w) m v;
        mret (m, v))
  | IxClaimRepaymentForSubVault ctx id =>
      process_claim_repayment_for_sub_vault invoke_signed invoke_token ctx id w
  | IxProtocolFeeClaim payer ctx =>
      '(m, l) ← process_protocol_fee_claim invoke_signed invoke_token ctx (wd_market w)
                  (wd_ledger w);
      mret (w <| wd_market := m |> <| wd_ledger := l |>)
  | IxSetFeeConfig payer p => on_market w (process_set_fee_config g payer p)
  | IxTransferMarketAdmin payer new_admin =>
      on_market w (process_transfer_market_admin g payer new_admin)
  | IxAcceptMarketAdmin payer => on_market w (process_accept_market_admin g payer)
  | IxSetMarketPause payer paused => on_market w (process_set_market_pause g payer paused)
  end.

Definition run_vault_ix (now : Z) (g : GlobalConfig) (i : VaultIx) (v : Vault) (u : UserAccount)
    (l : Ledger) : result Vault :=
  match i with
  | IxGlobalVaultDeposit ctx amount id =>
      '(v, _, _) ← process_global_vault_deposit invoke_signed invoke_token ctx now amount id v u l;
      mret v
  | IxGlobalVaultWithdraw ctx shares id =>
      '(v, _, _) ← process_global_vault_withdraw invoke_signed invoke_token ctx now shares id v u l;
      mret v
  | IxClaimCuratorFee ctx id =>
      '(v, _) ← process_claim_curator_fee invoke_signed invoke_token ctx id v l; mret v
  | i => process_vault_ix invoke_signed invoke_token now g i v u l
  end.

(** One transaction on the program's accounts.  The handlers of [Admin] read the
    configuration the chain holds, which is the one their loader opened. *)
Definition execute (s : System) (o : Outside) (now : Z) (metas : list AccountMeta) (r : Request)
    : result System :=
  let accounts := map (account_info s o) metas in
  match r with
  | OnMarket r =>
      '((i, opened), _) ← load_market_ix r accounts;
      g ← ok_or (sy_config s) Panic;
      let k := op_keys opened in
      w ← ok_or (open_world s k (op_with_vault opened) (op_user opened) (os_ledger o)) Panic;
      w ← run_market_ix now k g i w;
      mret (close_world s k w)
  | OnVault r =>
      '((i, opened), _) ← load_vault_ix r accounts;
      g ← ok_or (sy_config s) Panic;
      v ← run_vault_ix now g i (ov_vault opened) (ov_user opened) (os_ledger o);
      mret (s <| sy_vaults := <[ov_key opened := v]> (sy_vaults s) |>)
  | OnConfig r =>
      '((i, g), _) ← load_config_ix r accounts;
      g ← process_config_ix i g;
      mret (s <| sy_config := Some g |>)
  | CreateMarketRequest p =>
      '((payer, g, keys, debt_mint, collateral_mint), _) ← load_create_market h accounts;
      m ← process_create_market (get_vault_address h) g payer keys debt_mint collateral_mint p;
      mret (s <| sy_markets := <[ck_market keys := m]> (sy_markets s) |>)
  | CreateVaultRequest =>
      '((g, k), _) ← load_create_vault h accounts;
      v ← process_create_vault g (cv_payer k) (cv_mint k) (cv_marginfi_group k)
            (cv_integration_account k) (cv_global_vault_signer k) (cv_lending_pool k)
            (cv_global_vault_signer_bump k);
      mret (s <| sy_vaults := <[cv_vault k := v]> (sy_vaults s) |>)
  | CreateGlobalConfigRequest =>
      '((payer, config, program_data), _) ← load_create_global_config h accounts;
      existing ← map_err (raw_data config) InvalidArgument;
      g ← process_create_global_config payer (expected_program_data h) BPF_LOADER_UPGRADEABLE_ID
            program_data (tx_key config) (fst (global_config_pda h)) existing;
      mret (s <| sy_config := Some g |>)
  end.
End Execute.
