(* ===== verification/ExecuteSpec.v ===== *)
(** * What the loaders establish

    A program logic for loaders, [loads], and what it proves of them: a transaction on the
    accounts of the chain is a [step] of [Program], so that everything proved of the
    reachable states holds of the program from its account lists on. *)
From stdpp Require Import base numbers list option gmap strings.
From S2P Require Import Prelude FixedPoint Loan Marginfi Oracles Hypertree SubVault.
From S2P Require Import Market VaultTrees Matching UserAccount Runtime LoanClose Repay.
From S2P Require Import Keeper Promotion Deposits Claims Convert Admin Orders Program.
From S2P Require Import MarketSpec Accounts Loaders Execute.
Local Open Scope Z_scope.

(** ** A logic for loaders

    [loads P m Q]: on a list whose accounts satisfy [P], a successful [m] returns a value
    that satisfies [Q] and leaves accounts that satisfy [P]. *)
Definition loads (P : TxAccount → Prop) {A} (m : Load A) (Q : A → Prop) : Prop :=
  ∀ accs, Forall P accs → ensures (m accs) (λ '(a, rest), Q a ∧ Forall P rest).

Section logic.
Context {P : TxAccount → Prop}.

Lemma loads_ret {A} (a : A) (Q : A → Prop) : Q a → loads P (mret a) Q.
Proof. intros HQ accs HP. by apply ensures_Ok. Qed.

Lemma loads_bind {A B} (m : Load A) (f : A → Load B) (Q : B → Prop) :
  loads P m (λ a, loads P (f a) Q) → loads P (m ≫= f) Q.
Proof.
  intros Hm accs HP. apply ensures_bind. eapply ensures_mono; [by apply Hm|].
  intros [a rest] [Hf Hrest]. by apply Hf.
Qed.

Lemma loads_mono {A} (m : Load A) (Q Q' : A → Prop) :
  loads P m Q → (∀ a, Q a → Q' a) → loads P m Q'.
Proof.
  intros Hm HQ accs HP. eapply ensures_mono; [by apply Hm|]. intros [a rest] [Ha Hr].
  split; [by apply HQ|done].
Qed.

Lemma loads_lift {A} (r : result A) (Q : A → Prop) : ensures r Q → loads P (lift r) Q.
Proof.
  intros Hr accs HP. unfold lift. apply ensures_bind. eapply ensures_mono; [exact Hr|].
  intros a Ha. by apply ensures_Ok.
Qed.

Lemma loads_check (b : bool) (e : ProgramError) (Q : unit → Prop) :
  (b = true → Q tt) → loads P (check b e) Q.
Proof. intros HQ. apply loads_lift. intros [] H. apply HQ. by destruct b. Qed.

Lemma loads_next (Q : TxAccount → Prop) : (∀ a, P a → Q a) → loads P next_account_info Q.
Proof.
  intros HQ accs HP. unfold next_account_info. destruct HP as [|a rest Ha Hr].
  - apply ensures_Err.
  - apply ensures_Ok. split; [by apply HQ|done].
Qed.

Lemma loads_next_account (Q : option TxAccount → Prop) :
  (∀ a, P a → Q (Some a)) → Q None → loads P next_account Q.
Proof.
  intros HQ HN accs HP. unfold next_account. destruct HP as [|a rest Ha Hr].
  - apply ensures_Ok. by split.
  - apply ensures_Ok. split; [by apply HQ|done].
Qed.

Lemma loads_oracles cfg i n (Q : list Pubkey → Prop) :
  (∀ ks, Q ks) → loads P (load_oracle_keys cfg i n) Q.
Proof.
  revert i Q. induction n as [|n IH]; intros i Q HQ; simpl; [by apply loads_ret|].
  apply loads_bind, loads_next. intros a _. apply loads_bind, loads_lift. intros key _.
  apply loads_bind, loads_check. intros _. apply loads_bind, IH. intros ks. by apply loads_ret.
Qed.

Lemma loads_oracle_ais bank (Q : list Pubkey → Prop) :
  (∀ ks, Q ks) → loads P (MarginfiOracleAis_load bank) Q.
Proof.
  intros HQ. unfold MarginfiOracleAis_load. apply loads_bind, loads_lift. intros cfg _.
  apply loads_bind, loads_lift. intros n _. do 2 (apply loads_bind, loads_check; intros _).
  by apply loads_oracles.
Qed.
End logic.

(** ** The accounts of the chain *)

Section chain.
Context (h : Host) (s : System).

(** An account agrees with the chain: what it shows of the program is there, and bytes stand
    where the program has nothing. *)
Record on_chain (a : TxAccount) : Prop := {
  oc_market m : tx_content a = MarketData m → sy_markets s !! tx_key a = Some m;
  oc_vault v : tx_content a = VaultData v → sy_vaults s !! tx_key a = Some v;
  oc_loan l : tx_content a = LoanData l → sy_loans s !! tx_key a = Some l;
  oc_config g : tx_content a = ConfigData g → sy_config s = Some g;
  oc_bytes d : tx_content a = Bytes d →
    sy_markets s !! tx_key a = None ∧ sy_vaults s !! tx_key a = None
    ∧ sy_loans s !! tx_key a = None
    ∧ (tx_key a = fst (global_config_pda h) → sy_config s = None) }.

Lemma account_info_on_chain o metas : Forall on_chain (map (account_info h s o) metas).
Proof.
  apply Forall_map, Forall_true. intros m. unfold account_info, account_content.
  destruct (Z.eqb_spec (am_key m) (fst (global_config_pda h))) as [E|E].
  - destruct (sy_config s) eqn:Eg; [split; simpl; naive_solver|].
    repeat case_match; split; simpl; naive_solver.
  - repeat case_match; simplify_eq; split; simpl; naive_solver.
Qed.

Lemma on_chain_user a owner u : on_chain (a <| tx_owner := owner |> <| tx_content := UserData u |>).
Proof. by split; simpl. Qed.

Lemma refresh_on_chain new a u : tx_content new = UserData u → on_chain a → on_chain (refresh new a).
Proof.
  intros Hn Ha. unfold refresh. destruct (_ =? _); [|done]. rewrite Hn. apply on_chain_user.
Qed.

Lemma loads_touch_user signer ai (Q : UserAccount → Prop) :
  (∀ u, Q u) → loads on_chain (touch_user_account h signer ai) Q.
Proof.
  intros HQ accs HP. unfold touch_user_account. apply ensures_bind. intros a _.
  destruct (tx_content a) eqn:E; try apply ensures_Err. apply ensures_Ok. split; [done|].
  apply Forall_map. eapply Forall_impl; [exact HP|]. intros x Hx. by eapply refresh_on_chain.
Qed.

(** ** The program's own accounts *)

Lemma YdeltaAccountInfo_new_Ok T `{YdeltaAccount T} a i : YdeltaAccountInfo_new T a = Ok i →
  yi_key i = tx_key a ∧ content_of (tx_content a) = Some (yi_value i)
  ∧ verify_discriminant (yi_value i) = Ok tt ∧ verify_version (yi_value i) = Ok tt
  ∧ tx_owner a = YDELTA_ID.
Proof.
  intros Hi. unfold YdeltaAccountInfo_new in Hi. apply bind_Ok in Hi as ([] & Ho & Hi).
  apply bind_Ok in Hi as ([] & _ & Hi). apply bind_Ok in Hi as (x & Hx & Hi).
  apply bind_Ok in Hi as ([] & Hd & Hi). apply bind_Ok in Hi as ([] & Hv & [= <-]).
  apply require_Ok, Z.eqb_eq in Ho. simpl. destruct (content_of _); by simplify_eq/=.
Qed.

Lemma market_on_chain a i : on_chain a → YdeltaAccountInfo_new Market a = Ok i →
  sy_markets s !! yi_key i = Some (yi_value i) ∧ open_market (yi_value i) = Ok (yi_value i).
Proof.
  intros Ha (Hk & Hc & Hd & Hv & _)%YdeltaAccountInfo_new_Ok. split.
  - rewrite Hk. apply (oc_market _ Ha). destruct (tx_content a); by simplify_eq/=.
  - unfold open_market. simpl in *. by rewrite Hd, Hv.
Qed.

Lemma vault_on_chain a i : on_chain a → YdeltaAccountInfo_new Vault a = Ok i →
  sy_vaults s !! yi_key i = Some (yi_value i) ∧ open_vault (yi_value i) = Ok (yi_value i)
  ∧ yi_key i = tx_key a.
Proof.
  intros Ha (Hk & Hc & Hd & Hv & _)%YdeltaAccountInfo_new_Ok. split_and!; [| |done].
  - rewrite Hk. apply (oc_vault _ Ha). destruct (tx_content a); by simplify_eq/=.
  - unfold open_vault. simpl in *. by rewrite Hd, Hv.
Qed.

Lemma next_market_ydelta (Q : YdeltaAccountInfo Market → Prop) :
  (∀ i, sy_markets s !! yi_key i = Some (yi_value i) → open_market (yi_value i) = Ok (yi_value i) →
     Q i) → loads on_chain (next_ydelta Market) Q.
Proof.
  intros HQ. apply loads_bind, loads_next. intros a Ha. apply loads_lift. intros i Hi.
  destruct (market_on_chain _ _ Ha Hi). by apply HQ.
Qed.

Lemma next_vault_ydelta (Q : YdeltaAccountInfo Vault → Prop) :
  (∀ i, sy_vaults s !! yi_key i = Some (yi_value i) → open_vault (yi_value i) = Ok (yi_value i) →
     Q i) → loads on_chain (next_ydelta Vault) Q.
Proof.
  intros HQ. apply loads_bind, loads_next. intros a Ha. apply loads_lift. intros i Hi.
  destruct (vault_on_chain _ _ Ha Hi) as (? & ? & ?). by apply HQ.
Qed.

Lemma next_loan_ydelta (Q : YdeltaAccountInfo LoanFixed → Prop) :
  (∀ i, sy_loans s !! yi_key i = Some (yi_value i) →
     loan_verify_discriminant (yi_value i) = Ok tt → loan_verify_version (yi_value i) = Ok tt →
     Q i) → loads on_chain (next_ydelta LoanFixed) Q.
Proof.
  intros HQ. apply loads_bind, loads_next. intros a Ha. apply loads_lift. intros i Hi.
  apply YdeltaAccountInfo_new_Ok in Hi as (Hk & Hc & Hd & Hv & _). apply HQ; [|done..].
  rewrite Hk. apply (oc_loan _ Ha). destruct (tx_content a); by simplify_eq/=.
Qed.

Lemma loads_global_config_no_pause (Q : GlobalConfig → Prop) :
  (∀ g, sy_config s = Some g → load_global_config_no_pause g = Ok g → Q g) →
  loads on_chain (next_global_config_no_pause h) Q.
Proof.
  intros HQ. apply loads_bind, loads_next. intros a Ha. apply loads_bind, loads_check. intros _.
  apply loads_bind, loads_lift. intros i Hi.
  apply YdeltaAccountInfo_new_Ok in Hi as (Hk & Hc & Hd & _ & _). apply loads_ret, HQ.
  - apply (oc_config _ Ha). destruct (tx_content a); by simplify_eq/=.
  - unfold load_global_config_no_pause. simpl in Hd. by rewrite Hd.
Qed.

Lemma loads_global_config (Q : GlobalConfig → Prop) :
  (∀ g, sy_config s = Some g → load_global_config g = Ok g → Q g) →
  loads on_chain (next_global_config h) Q.
Proof.
  intros HQ. apply loads_bind, loads_global_config_no_pause. intros g Hg Hl.
  apply loads_bind, loads_lift. intros [] Hp. apply loads_ret, HQ; [done|].
  unfold load_global_config. by rewrite Hl; simpl; rewrite Hp.
Qed.

Lemma loads_next_market (Q : YdeltaAccountInfo Market → Prop) :
  (∀ i, sy_markets s !! yi_key i = Some (yi_value i) → open_market (yi_value i) = Ok (yi_value i) →
     require_market_not_paused (yi_value i) = Ok tt → Q i) → loads on_chain next_market Q.
Proof.
  intros HQ. apply loads_bind, next_market_ydelta. intros i Hi Ho.
  apply loads_bind, loads_lift. intros [] Hp. by apply loads_ret, HQ.
Qed.

Lemma loads_next_vault (Q : YdeltaAccountInfo Vault → Prop) :
  (∀ i, sy_vaults s !! yi_key i = Some (yi_value i) → open_vault (yi_value i) = Ok (yi_value i) →
     require_vault_not_paused (yi_value i) = Ok tt → Q i) → loads on_chain next_vault Q.
Proof.
  intros HQ. apply loads_bind, next_vault_ydelta. intros i Hi Ho.
  apply loads_bind, loads_lift. intros [] Hp. by apply loads_ret, HQ.
Qed.

Lemma loads_optional_vault pool (Q : option Pubkey → Prop) : Q None →
  (∀ k v, sy_vaults s !! k = Some v → open_vault v = Ok v → require_vault_not_paused v = Ok tt →
     (k =? fst (global_vault_pda h pool)) = true → Q (Some k)) →
  loads on_chain (optional_vault h pool) Q.
Proof.
  intros HN HQ. apply loads_bind, loads_next_account; [|by apply loads_ret].
  intros a Ha. destruct (data_is_empty _); [by apply loads_ret|].
  apply loads_bind, loads_lift. intros [k v] Hi.
  destruct (vault_on_chain _ _ Ha Hi) as (? & ? & Hk). simpl in *. subst k.
  apply loads_bind, loads_lift. intros [] He%require_Ok. apply loads_bind, loads_lift. intros [] Hp.
  by eapply loads_ret, HQ.
Qed.
End chain.

Ltac head_of t := lazymatch t with ?f _ => head_of f | _ => t end.

(** Walks through a loader, keeping the facts of the program's own accounts. *)
Ltac load_step :=
  match goal with
  | |- loads _ (mret _) _ => apply loads_ret; cbv beta iota
  | |- loads _ (next_ydelta Market) _ => apply next_market_ydelta; let k := fresh "k" in let v := fresh "v" in intros [k v] ? ?; cbn [yi_key yi_value] in *
  | |- loads _ (next_ydelta Vault) _ => apply next_vault_ydelta; let k := fresh "k" in let v := fresh "v" in intros [k v] ? ?; cbn [yi_key yi_value] in *
  | |- loads _ (next_ydelta LoanFixed) _ => apply next_loan_ydelta; let k := fresh "k" in let v := fresh "v" in intros [k v] ? ? ?; cbn [yi_key yi_value] in *
  | |- loads _ (next_global_config _) _ => apply loads_global_config; intros ? ? ?
  | |- loads _ (next_global_config_no_pause _) _ => apply loads_global_config_no_pause; intros ? ? ?
  | |- loads _ next_market _ => apply loads_next_market; let k := fresh "k" in let v := fresh "v" in intros [k v] ? ? ?; cbn [yi_key yi_value] in *
  | |- loads _ next_vault _ => apply loads_next_vault; let k := fresh "k" in let v := fresh "v" in intros [k v] ? ? ?; cbn [yi_key yi_value] in *
  | |- loads _ (touch_user_account _ _ _) _ => apply loads_touch_user; intros ?
  | |- loads _ (optional_vault _ _) _ => apply loads_optional_vault; [|intros ? ? ? ? ? ?]
  | |- loads _ (MarginfiOracleAis_load _) _ => apply loads_oracle_ais; intros ?
  | |- loads _ next_account_info _ => apply loads_next; intros ? ?
  | |- loads _ next_account _ => apply loads_next_account; [intros ? ?|]
  | |- loads _ (check _ _) _ => apply loads_check; intros ?
  | |- loads _ (lift _) _ => apply loads_lift; intros ? ?
  | |- loads _ (_ ≫= _) _ => apply loads_bind
  | |- loads _ (let '(_, _) := ?p in _) _ => first [is_var p; destruct p | destruct p eqn:?]
  | |- loads _ (match ?x with _ => _ end) _ => destruct x eqn:?
  | |- loads _ (if ?b then _ else _) _ => destruct b eqn:?
  | |- loads _ ?m _ => let f := head_of m in unfold f
  end.

Ltac load_walk := repeat load_step.

(** The world behind the opened keys holds the accounts that were loaded. *)
Lemma open_world_Some s k b u l w : open_world s k b u l = Some w →
  sy_markets s !! tk_market k = Some (wd_market w) ∧ wd_loan w = sy_loans s !! tk_loan k
  ∧ (if b then ∃ v, wd_vault w = Some v ∧ sy_vaults s !! tk_vault k = Some v
     else wd_vault w = None).
Proof.
  unfold open_world. destruct (sy_markets s !! tk_market k) as [m|]; [|done]. simpl.
  destruct b; simpl.
  - destruct (sy_vaults s !! tk_vault k) as [v|]; [|done]. simpl. intros [= <-]. naive_solver.
  - by intros [= <-].
Qed.

(** The data of a request that reach a handler as [u16], and the collateral as [u64]. *)
Definition decoded_request (r : MarketRequest) : Prop :=
  match r with
  | RqPlaceOrder p => in_u U16 (pp_ltv_buffer_bps p) ∧ in_u U64 (pp_collateral_atoms p)
  | RqUpdateOrder p => in_u U16 (uo_new_ltv_buffer_bps p)
  | RqConvertP2PoolToFixed _ buffer => in_u U16 buffer
  | _ => True
  end.

Section refinement.
Context (h : Host) (s : System).
Context (invoke_signed : MarginfiIx → list AccountInfo → result (list AccountInfo)).
Context (invoke_token : TokenIx → list AccountInfo → result (list AccountInfo)).
Context (parse_stake_state : list Z → option StakeState) (now : Z).

(** The gate of [Program] holds in every world behind the opened keys. *)
Definition passes (o : Opened) (gate : GlobalConfig → World → Prop) : Prop :=
  ∃ g, sy_config s = Some g ∧ ∀ l w,
    open_world s (op_keys o) (op_with_vault o) (op_user o) l = Some w → gate g w.

(** The gates, from what the loaders establish. *)
Lemma gate_loan market vault loan l x : loan_verify_discriminant l = Ok tt →
  loan_verify_version l = Ok tt → check_loan h market (mkInfo loan l) = Ok x →
  loan_gate (host_pdas h) (mkTxKeys market vault loan) l = Ok tt.
Proof. destruct x. intros H1 H2 H3. unfold loan_gate. by rewrite H1; simpl; rewrite H2. Qed.

Lemma gate_lender_vault market loan l v v' w : loan_type l = Ok LoanType_Fixed →
  wd_vault w = Some v' → open_vault v' = Ok v' → require_vault_not_paused v' = Ok tt →
  (v =? loan_lender_global_vault l) = true →
  lender_vault_gate (mkTxKeys market v loan) w l = Ok tt.
Proof.
  intros H1 H2 H3 H4 H5. unfold lender_vault_gate, the_vault, vault_gate. rewrite H1, H2. simpl.
  by rewrite H3; simpl; rewrite H4; simpl; rewrite H5.
Qed.

Lemma gate_no_vault k l w : loan_type l = Ok LoanType_P2Pool → lender_vault_gate k w l = Ok tt.
Proof. intros H. unfold lender_vault_gate. by rewrite H. Qed.

(** Opens the world behind the loaded keys. *)
Ltac open_gate :=
  eexists; split; [eassumption|]; intros ? w Hw; apply open_world_Some in Hw as (Hm & Hl & Hv);
  repeat match goal with x : unit |- _ => destruct x end;
  simpl in *; destruct_and?; simplify_eq/=;
  try match goal with H : ∃ _, _ |- _ => destruct H as (? & ? & ?); simplify_eq/= end.

(** Rewrites a gate with the checks its loader made. *)
Ltac rewrite_checks :=
  unfold place_gate, book_gate, admin_cancel_gate, protocol_fee_gate, claim_repayment_gate,
    check_gate, market_gate, vault_gate, the_vault, the_loan, check_vault_admin, check_convertible,
    check_key in *;
  simpl in *;
  repeat match goal with
  | H : require _ _ ≫= _ = Ok _ |- _ => apply bind_Ok in H as ([] & ?%require_Ok & H)
  | H : require _ _ = Ok _ |- _ => apply require_Ok in H
  end;
  repeat (match goal with
          | H : ?r = Ok _ |- context [?r] => rewrite H
          | H : ?b = true |- context [?b] => rewrite H
          | H : wd_vault ?w = _ |- context [wd_vault ?w] => rewrite H
          | H : wd_loan ?w = _ |- context [wd_loan ?w] => rewrite H
          | H : sy_loans ?x !! ?k = _ |- context [sy_loans ?x !! ?k] => rewrite H
          end; simpl).

Ltac pass_gate := load_walk; open_gate; rewrite_checks; try done.

Definition market_open (g : GlobalConfig) (w : World) : Prop := market_gate g (wd_market w) = Ok tt.

Lemma load_claim_seat_passes : loads (on_chain h s) (load_claim_seat h) (λ '(_, o), passes o market_open).
Proof. unfold market_open. pass_gate. Qed.
Lemma load_deposit_passes : loads (on_chain h s) (load_deposit h) (λ '(_, o), passes o market_open).
Proof. unfold market_open. pass_gate. Qed.
Lemma load_withdraw_passes : loads (on_chain h s) (load_withdraw h) (λ '(_, o), passes o market_open).
Proof. unfold market_open. pass_gate. Qed.
Lemma load_cancel_order_passes :
  loads (on_chain h s) (load_cancel_order h) (λ '(_, o), passes o market_open).
Proof. unfold market_open. pass_gate. Qed.

Lemma load_place_order_passes : loads (on_chain h s) (load_place_order h)
  (λ '(_, _, o), passes o (λ g w, place_gate (host_pdas h) (op_keys o) g w = Ok tt)).
Proof. pass_gate. Qed.

Lemma load_sync_passes : loads (on_chain h s) (load_sync_market_position h)
  (λ '(_, o), passes o (λ g w,
     load_global_config g = Ok g ∧ open_market (wd_market w) = Ok (wd_market w))).
Proof.
  load_walk. match goal with Ha : on_chain _ _ ?a, Hi : YdeltaAccountInfo_new Market ?a = Ok ?i |- _ =>
    destruct (market_on_chain _ _ _ _ Ha Hi); destruct i end. open_gate; split; congruence.
Qed.

Lemma load_repay_passes : loads (on_chain h s) (load_repay h)
  (λ '(_, o), passes o (λ g w, repay_gate (host_pdas h) (op_keys o) g w = Ok tt)).
Proof.
  load_walk; open_gate; unfold repay_gate; rewrite_checks; erewrite gate_loan by done; simpl.
  - by eapply gate_lender_vault.
  - by apply gate_no_vault.
Qed.

Lemma load_settle_matured_loan_passes : loads (on_chain h s) (load_settle_matured_loan h)
  (λ '(_, o), passes o (λ g w, keeper_gate (host_pdas h) (op_keys o) g w = Ok tt)).
Proof.
  load_walk; open_gate; unfold keeper_gate, check_still_owes in *; rewrite_checks;
    erewrite gate_loan by done; simpl; rewrite_checks;
    repeat match goal with H : loan_type _ = _, H' : _ = Ok _ |- _ =>
      progress (rewrite H in H'; simpl in H') end; simplify_eq/=; rewrite_checks.
  - by eapply gate_lender_vault.
  - by apply gate_no_vault.
Qed.

Lemma load_check_ltv_liquidatable_passes : loads (on_chain h s) (load_check_ltv_liquidatable h)
  (λ '(_, o), passes o (λ g w, check_gate (host_pdas h) (op_keys o) g w = Ok tt)).
Proof. load_walk; open_gate; rewrite_checks. by erewrite gate_loan. Qed.

Lemma load_check_maturity_liquidatable_passes :
  loads (on_chain h s) (load_check_maturity_liquidatable h)
    (λ '(_, o), passes o (λ g w, check_gate (host_pdas h) (op_keys o) g w = Ok tt)).
Proof. load_walk; open_gate; rewrite_checks. by erewrite gate_loan. Qed.

Lemma load_protocol_fee_claim_passes : loads (on_chain h s) (load_protocol_fee_claim h)
  (λ '(payer, _, o), passes o (λ g w, protocol_fee_gate g payer w = Ok tt)).
Proof. pass_gate. Qed.

Lemma load_claim_repayment_passes : loads (on_chain h s) (load_claim_repayment_for_sub_vault h)
  (λ '(_, o), passes o (λ g w, claim_repayment_gate g w = Ok tt)).
Proof. pass_gate. Qed.

Lemma load_cancel_order_for_sub_vault_passes :
  loads (on_chain h s) (load_cancel_order_for_sub_vault h) (λ '(_, o), passes o (λ g w, book_gate g w = Ok tt)).
Proof. pass_gate. Qed.

Lemma load_match_crank_passes :
  loads (on_chain h s) (load_match_crank h) (λ '(_, o), passes o (λ g w, book_gate g w = Ok tt)).
Proof. pass_gate. Qed.

Lemma load_place_order_for_sub_vault_passes :
  loads (on_chain h s) (load_place_order_for_sub_vault h)
    (λ '(_, _, o), passes o (λ g w, book_gate g w = Ok tt)).
Proof. pass_gate. Qed.

Lemma load_admin_cancel_passes : loads (on_chain h s) (load_admin_cancel_sub_vault_order h)
  (λ '(payer, o), passes o (λ g w, admin_cancel_gate g payer w = Ok tt)).
Proof. pass_gate. Qed.

Lemma load_convert_passes : loads (on_chain h s) (load_convert_p2pool_to_fixed h)
  (λ '(_, o), passes o (λ g w, convert_gate (host_pdas h) (op_keys o) g w = Ok tt)).
Proof.
  load_walk; open_gate; unfold convert_gate; rewrite_checks. done.
Qed.

Lemma empty_loan a x : on_chain h s a → EmptyAccount_new a = Ok x →
  x = tx_key a ∧ sy_loans s !! tx_key a = None.
Proof.
  intros Ha Hx. unfold EmptyAccount_new in Hx. apply bind_Ok in Hx as ([] & He%require_Ok & Hx).
  apply bind_Ok in Hx as ([] & _ & [= <-]). split; [done|].
  unfold data_is_empty in He. destruct (tx_content a) eqn:E; try done.
  by destruct (oc_bytes _ _ _ Ha _ E) as (_ & _ & ? & _).
Qed.

Lemma MintAccountInfo_new_Ok a m : MintAccountInfo_new h a = Ok m → mint_key m = tx_key a.
Proof.
  intros H. unfold MintAccountInfo_new in H. apply bind_Ok in H as (? & _ & H).
  apply bind_Ok in H as (? & _ & H). apply bind_Ok in H as (? & _ & H).
  by apply bind_Ok in H as (? & _ & [= <-]).
Qed.

Lemma gate_settle k a mint group bank w v :
  check_settle_keys h (tk_market k) bank a = Ok (mint, group) → on_chain h s (se_vault a) →
  tk_vault k = tx_key (se_vault a) → sy_vaults s !! tx_key (se_vault a) = Some v →
  wd_vault w = Some v → ∀ settle, sa_mint settle = mint →
  vault_settle_gate (host_pdas h) k (tx_key bank) settle w = Ok tt.
Proof.
  intros Hc Ha Hk Hs Hw settle Hsa. unfold check_settle_keys in Hc.
  apply bind_Ok in Hc as ([kv vv] & Hv & Hc). destruct (vault_on_chain _ _ _ _ Ha Hv) as (H1 & H2 & H3).
  simpl in *. subst kv. rewrite Hs in H1. injection H1 as <-. apply bind_Ok in Hc as ([] & Hp & Hc). apply bind_Ok in Hc as (? & _ & Hc).
  apply bind_Ok in Hc as (m & Hm%MintAccountInfo_new_Ok & Hc).
  apply bind_Ok in Hc as ([] & Hv1%require_Ok & Hc). apply bind_Ok in Hc as ([] & Hv2%require_Ok & Hc).
  apply bind_Ok in Hc as ([] & Hv3%require_Ok & Hc).
  do 3 apply bind_Ok in Hc as (? & _ & Hc). injection Hc as Em _.
  unfold vault_settle_gate, the_vault. rewrite Hw, Hk, Hsa, <- Em, Hm. simpl.
  by rewrite H2; simpl; rewrite Hp; simpl; rewrite Hv1; simpl; rewrite Hv2; simpl; rewrite Hv3.
Qed.

Lemma load_promotion_passes sequence : loads (on_chain h s) (load_process_matched_loan h sequence)
  (λ '(ctx, o), passes o (λ g w, promotion_gate (host_pdas h) (op_keys o) g ctx sequence w = Ok ctx)).
Proof.
  load_walk;
    match goal with Ha : on_chain _ _ ?a, He : EmptyAccount_new ?a = Ok _ |- _ =>
      destruct (empty_loan _ _ Ha He) as [-> Hn] end;
    open_gate; unfold promotion_gate; rewrite_checks;
    match goal with H : loan_pda _ _ _ = _ |- _ => rewrite H end; simpl; rewrite_checks.
  - match goal with Hc : check_settle_keys _ _ _ _ = _ |- _ =>
      by erewrite (gate_settle (mkTxKeys _ _ _) _ _ _ _ _ _ Hc) end.
  - done.
Qed.

(** The loaders of the administration: the handlers of [Admin] check the gates themselves. *)
Lemma load_market_role_passes : loads (on_chain h s) (load_market_role h)
  (λ '(_, g, market), passes (opened_market (yi_key market) no_user) (λ _ _, True)).
Proof. load_walk. by open_gate. Qed.
Lemma load_set_fee_config_passes : loads (on_chain h s) (load_set_fee_config h)
  (λ '(_, g, market), passes (opened_market (yi_key market) no_user) (λ _ _, True)).
Proof. load_walk. by open_gate. Qed.

(** ** A loaded instruction runs as behind its gate *)

Definition gated (i : MarketIx) (o : Opened) : Prop := passes o (λ g w,
  process_market_ix invoke_signed invoke_token parse_stake_state (host_pdas h) now (op_keys o) g i w
  = run_market_ix invoke_signed invoke_token parse_stake_state now (op_keys o) g i w).

Lemma passes_gated o gate i : passes o gate →
  (∀ g w, gate g w →
     process_market_ix invoke_signed invoke_token parse_stake_state (host_pdas h) now (op_keys o) g i w
     = run_market_ix invoke_signed invoke_token parse_stake_state now (op_keys o) g i w) →
  gated i o.
Proof.
  intros (g & Hg & Hp) Hi. exists g. split; [done|]. intros l w Hw. apply Hi. by eapply Hp.
Qed.

Lemma load_market_ix_gated r : decoded_request r →
  loads (on_chain h s) (load_market_ix h r) (λ '(i, o), gated i o ∧ decoded i).
Proof.
  intros Hr. destruct r; unfold load_market_ix; apply loads_bind;
    (eapply loads_mono;
       [first [apply load_claim_seat_passes | apply load_deposit_passes | apply load_withdraw_passes
              | apply load_cancel_order_passes | apply load_place_order_passes | apply load_sync_passes
              | apply load_repay_passes | apply load_settle_matured_loan_passes
              | apply load_check_ltv_liquidatable_passes | apply load_check_maturity_liquidatable_passes
              | apply load_protocol_fee_claim_passes | apply load_claim_repayment_passes
              | apply load_cancel_order_for_sub_vault_passes | apply load_match_crank_passes
              | apply load_place_order_for_sub_vault_passes | apply load_admin_cancel_passes
              | apply load_convert_passes | apply load_promotion_passes | apply load_set_fee_config_passes
              | apply load_market_role_passes]
       |intros x Hx; repeat match goal with p : _ * _ |- _ => destruct p end; apply loads_ret]);
    (split; [eapply passes_gated; [exact Hx|]|exact Hr || exact I]);
    unfold market_open; intros ? ? Hgate; simpl; destruct_and?; rewrite_checks; done.
Qed.

(** The vault a loader opens, behind the gate of the deposits if [g] is served. *)
Definition opens_vault (o : OpenedVault) : Prop :=
  sy_vaults s !! ov_key o = Some (ov_vault o) ∧ ∃ g, sy_config s = Some g.
Definition serves_vault (o : OpenedVault) : Prop :=
  sy_vaults s !! ov_key o = Some (ov_vault o)
  ∧ ∃ g, sy_config s = Some g ∧ vault_service_gate g (ov_vault o) = Ok tt.

Ltac serve_vault :=
  load_walk; split; [done|]; eexists; split; [eassumption|];
  unfold vault_service_gate; simpl; rewrite_checks; done.

Lemma load_depositor_serves b : loads (on_chain h s) (load_depositor h b) (λ '(_, o), serves_vault o).
Proof. destruct b; serve_vault. Qed.
Lemma load_claim_curator_fee_serves :
  loads (on_chain h s) (load_claim_curator_fee h) (λ '(_, o), serves_vault o).
Proof. serve_vault. Qed.

Lemma serves_opens o : serves_vault o → opens_vault o.
Proof. intros [H (g & Hg & _)]. split; [done|by exists g]. Qed.

(** The three instructions whose gate is in [Program]. *)
Definition vault_loaded (x : VaultIx * OpenedVault) : Prop :=
  opens_vault (snd x)
  ∧ match fst x with
    | IxGlobalVaultDeposit _ _ _ | IxGlobalVaultWithdraw _ _ _ | IxClaimCuratorFee _ _ =>
        serves_vault (snd x)
    | _ => True
    end.

Lemma vault_loaded_gated i o g u l : vault_loaded (i, o) → sy_config s = Some g →
  process_vault_ix invoke_signed invoke_token now g i (ov_vault o) u l
  = run_vault_ix invoke_signed invoke_token now g i (ov_vault o) u l.
Proof.
  intros [_ Hi] Hg. destruct i; try done; destruct Hi as (_ & g' & Hg' & Hs); simplify_eq/=;
    by rewrite Hs.
Qed.

Lemma load_vault_ix_loaded r : loads (on_chain h s) (load_vault_ix h r) vault_loaded.
Proof.
  unfold vault_loaded. destruct r;
    unfold load_vault_ix, load_global_vault_deposit, load_global_vault_withdraw; apply loads_bind;
    first [eapply loads_mono; [first [apply load_depositor_serves | apply load_claim_curator_fee_serves]
             |intros [c o] Ho; apply loads_ret; split; [by apply serves_opens|done]]
          |load_walk; split; [split; [done|eauto]|done]].
Qed.

Lemma load_config_ix_loaded r :
  loads (on_chain h s) (load_config_ix h r) (λ '(_, g), sy_config s = Some g).
Proof. destruct r; unfold load_config_ix; by load_walk. Qed.

(** ** Creation *)

Lemma new_market size a k : on_chain h s a → YdeltaAccountInfo_new_init size a = Ok k →
  k = tx_key a ∧ sy_markets s !! tx_key a = None.
Proof.
  intros Ha H. unfold YdeltaAccountInfo_new_init, verify_uninitialized in H.
  apply bind_Ok in H as (? & _ & H). apply bind_Ok in H as (? & H & [= <-]). split; [done|].
  apply bind_Ok in H as (? & _ & H). destruct (tx_content a) eqn:E; try done.
  by destruct (oc_bytes _ _ _ Ha _ E).
Qed.

Lemma check_create_market_Ok a keys : check_create_market_ais h a = Ok keys →
  ck_market keys = ma_market a
  ∧ (ck_lender_marginfi_account keys, ck_lender_bump keys)
    = get_lender_integration_account_address h (ma_market a)
  ∧ (ck_borrower_marginfi_account keys, ck_borrower_bump keys)
    = get_borrower_integration_account_address h (ma_market a)
  ∧ (ck_market_signer keys, ck_market_signer_bump keys) = get_market_signer_address h (ma_market a).
Proof.
  intros H. unfold check_create_market_ais in H.
  do 7 apply bind_Ok in H as (? & _ & H).
  destruct (get_lender_integration_account_address h (ma_market a)). apply bind_Ok in H as (? & _ & H).
  destruct (get_borrower_integration_account_address h (ma_market a)). apply bind_Ok in H as (? & _ & H).
  destruct (get_market_signer_address h (ma_market a)). by apply bind_Ok in H as (? & _ & [= <-]).
Qed.

Lemma load_create_market_fresh : loads (on_chain h s) (load_create_market h)
  (λ '(_, g, keys, _, _), sy_config s = Some g ∧ sy_markets s !! ck_market keys = None).
Proof.
  load_walk. split; [done|].
  match goal with Ha : on_chain _ _ ?a, Hi : YdeltaAccountInfo_new_init _ ?a = Ok _ |- _ =>
    destruct (new_market _ _ _ Ha Hi) as [-> Hn] end.
  match goal with Hc : check_create_market_ais _ _ = Ok _ |- _ =>
    destruct (check_create_market_Ok _ _ Hc) as [-> _] end. done.
Qed.

Lemma empty_vault a : on_chain h s a → data_is_empty (tx_content a) = true →
  sy_vaults s !! tx_key a = None.
Proof.
  intros Ha He. unfold data_is_empty in He. destruct (tx_content a) eqn:E; try done.
  by destruct (oc_bytes _ _ _ Ha _ E) as (_ & ? & _).
Qed.

Lemma check_new_vault_Ok bank vault signer integration staging :
  check_new_vault h bank vault signer integration staging = Ok tt →
  tx_key vault = fst (global_vault_pda h (tx_key bank))
  ∧ tx_key signer = fst (global_vault_signer_pda h (tx_key vault))
  ∧ tx_key integration = fst (global_vault_integration_account_pda h (tx_key vault))
  ∧ data_is_empty (tx_content vault) = true.
Proof.
  intros H. unfold check_new_vault, check_key in H. rewrite_checks. by split_and!; try apply Z.eqb_eq.
Qed.

Lemma load_create_vault_fresh : loads (on_chain h s) (load_create_vault h)
  (λ '(g, k), sy_config s = Some g ∧ sy_vaults s !! cv_vault k = None).
Proof.
  load_walk. split; [done|]. repeat match goal with x : unit |- _ => destruct x end.
  match goal with Hc : check_new_vault _ _ _ _ _ _ = Ok _ |- _ =>
    destruct (check_new_vault_Ok _ _ _ _ _ Hc) as (_ & _ & _ & ?) end. by apply empty_vault.
Qed.

Lemma load_create_global_config_on_chain : loads (on_chain h s) (load_create_global_config h)
  (λ '(_, config, _), on_chain h s config).
Proof. by load_walk. Qed.

(** ** The refinement *)

(** The result of a loader on accounts of the chain. *)
Lemma loads_chain {A} (m : Load A) Q o metas a rest :
  loads (on_chain h s) m Q → m (map (account_info h s o) metas) = Ok (a, rest) → Q a.
Proof. intros Hm H. by destruct (Hm _ (account_info_on_chain h s o metas) _ H). Qed.
End refinement.

Definition decoded_tx (r : Request) : Prop :=
  match r with OnMarket r => decoded_request r | _ => True end.

(** The model of a transaction is not coarser than the program's: what its loader and its
    handler accept is a step. *)
Lemma execute_step (h : Host)
    (invoke_signed : MarginfiIx → list AccountInfo → result (list AccountInfo))
    (invoke_token : TokenIx → list AccountInfo → result (list AccountInfo))
    (parse_stake_state : list Z → option StakeState)
    (s s' : System) (o : Outside) (now : Z) (metas : list AccountMeta) (r : Request)
    (Hnow : in_i 64 now) (Hr : decoded_tx r)
    (Hrun : execute h invoke_signed invoke_token parse_stake_state s o now metas r = Ok s') :
  step (host_env h invoke_signed invoke_token parse_stake_state) s s'.
Proof.
  destruct r as [r|r|r|p| |]; unfold execute in Hrun.
  - apply bind_Ok in Hrun as ([[i od] rest] & Hl & Hrun).
    destruct (loads_chain h s _ _ _ _ _ _
      (load_market_ix_gated h s invoke_signed invoke_token parse_stake_state now r Hr) Hl)
      as [(g & Hg & Hgate) Hd].
    rewrite Hg in Hrun. apply bind_Ok in Hrun as (g' & [= <-] & Hrun).
    apply bind_Ok in Hrun as (w & Hw%ok_or_Ok & Hrun). apply bind_Ok in Hrun as (w' & Hw' & [= <-]).
    eapply step_market_ix; try done. simpl. by erewrite Hgate.
  - apply bind_Ok in Hrun as ([[i od] rest] & Hl & Hrun).
    pose proof (loads_chain h s _ _ _ _ _ _ (load_vault_ix_loaded h s r) Hl) as Hv.
    destruct (proj1 Hv) as [Hs (g & Hg)]. rewrite Hg in Hrun.
    apply bind_Ok in Hrun as (g' & [= <-] & Hrun). apply bind_Ok in Hrun as (v & Hv' & [= <-]).
    eapply step_vault_ix; try done. simpl. by erewrite vault_loaded_gated.
  - apply bind_Ok in Hrun as ([[i g] rest] & Hl & Hrun).
    pose proof (loads_chain h s _ _ _ _ _ _ (load_config_ix_loaded h s r) Hl) as Hg.
    apply bind_Ok in Hrun as (g' & Hg' & [= <-]). exact (step_config_ix _ _ _ _ _ Hg Hg').
  - apply bind_Ok in Hrun as ([[[[[payer g] keys] dm] cm] rest] & Hl & Hrun).
    destruct (loads_chain h s _ _ _ _ _ _ (load_create_market_fresh h s) Hl) as [Hg Hn].
    apply bind_Ok in Hrun as (m & Hm & [= <-]). by eapply step_create_market.
  - apply bind_Ok in Hrun as ([[g k] rest] & Hl & Hrun).
    destruct (loads_chain h s _ _ _ _ _ _ (load_create_vault_fresh h s) Hl) as [Hg Hn].
    apply bind_Ok in Hrun as (v & Hv & [= <-]). by eapply step_create_vault.
  - apply bind_Ok in Hrun as ([[[payer config] data] rest] & Hl & Hrun).
    pose proof (loads_chain h s _ _ _ _ _ _ (load_create_global_config_on_chain h s) Hl) as Hc.
    apply bind_Ok in Hrun as (d & Hd & Hrun). apply bind_Ok in Hrun as (g & Hg & [= <-]).
    eapply step_create_global_config; [|exact Hg].
    unfold process_create_global_config in Hg. apply bind_Ok in Hg as (? & _ & Hg).
    apply bind_Ok in Hg as (? & Hk%require_Ok%Z.eqb_eq & _).
    unfold raw_data in Hd. destruct (tx_content config) eqn:E; try done.
    by apply (oc_bytes _ _ _ Hc _ E).
Qed.

(** A chain with a configuration and a market; a trader without a seat claims one. *)
Definition sample_host : Host :=
  mkHost (λ bytes _, (foldl (λ k b, k * 257 + b + 1) 1 bytes, 255)) (λ _, Ok tt)
    (λ _, Err Panic) (λ _, Ok []) (λ _, Err Panic) (λ _ _, Ok tt).
Definition sample_chain : System :=
  mkSystem (Some (global_config_new_empty 9)) {[7 := sample_empty_market]} ∅ ∅.
Definition sample_outside : Outside := mkOutside ∅ (λ _, 1000000) ∅.
Definition sample_metas : list AccountMeta :=
  [mkAccountMeta 77 true true;
   mkAccountMeta (fst (global_config_pda sample_host)) false false;
   mkAccountMeta 7 false true; mkAccountMeta SYSTEM_PROGRAM_ID false false;
   mkAccountMeta (fst (user_account_pda sample_host 77)) false true].
