(* ===== verification/AccountsSpec.v ===== *)
(** * Who signs, and where accounts live

    What the loaders establish of the accounts themselves, whatever the chain holds: the
    one an instruction acts for has signed the transaction ([actors_sign]), and no two
    derived addresses coincide ([program_addresses_disjoint]). *)
From stdpp Require Import base numbers list option gmap strings.
From S2P Require Import Prelude FixedPoint Loan Marginfi Oracles Hypertree SubVault.
From S2P Require Import Market VaultTrees Matching UserAccount Runtime LoanClose Repay.
From S2P Require Import Keeper Promotion Deposits Claims Convert Admin Orders Program.
From S2P Require Import Accounts Loaders Execute ExecuteSpec.
Local Open Scope Z_scope.

(** ** The one an instruction acts for

    Nobody in particular for the instructions that anyone may send on behalf of another:
    the mirror of a position, the matching crank, the claim of a sub-vault's repayments. *)
Definition market_actor (i : MarketIx) : option Pubkey :=
  match i with
  | IxClaimSeat payer | IxCancelOrder payer _ _ | IxUpdateOrder payer _
  | IxAdminCancelSubVaultOrder payer _ | IxProtocolFeeClaim payer _ | IxSetFeeConfig payer _
  | IxTransferMarketAdmin payer _ | IxAcceptMarketAdmin payer | IxSetMarketPause payer _ => Some payer
  | IxDeposit ctx _ _ | IxWithdraw ctx _ _ _ => Some (sc_payer ctx)
  | IxPlaceOrder ctx _ _ => Some (bc_payer ctx)
  | IxProcessMatchedLoan ctx _ => Some (pc_payer ctx)
  | IxRepay ctx _ => Some (rc_payer ctx)
  | IxSettleMaturedLoan ctx _ | IxLiquidateLoan ctx _ => Some (kc_payer ctx)
  | IxConvertP2PoolToFixed ctx _ _ => Some (xc_payer ctx)
  | IxPlaceOrderForSubVault _ curator _ _ | IxUpdateOrderForSubVault _ curator _ _
  | IxCancelOrderForSubVault curator _ => Some curator
  | IxSyncMarketPosition _ | IxCheckLtvLiquidatable _ | IxCheckMaturityLiquidatable _
  | IxMatchCrank _ _ | IxClaimRepaymentForSubVault _ _ => None
  end.

Definition vault_actor (i : VaultIx) : Pubkey :=
  match i with
  | IxCreatePoolSubVault payer _ _ _ _ _ _ | IxCreatePrivateSubVault payer _ _ _ _
  | IxUpdateSubVault payer _ _ | IxSunsetSubVault payer _ | IxResumeSubVault payer _
  | IxRemoveSubVault payer _ | IxTransferGlobalVaultAdmin payer _ | IxAcceptGlobalVaultAdmin payer
  | IxTransferCurator payer _ _ | IxAcceptCurator payer _ | IxSetVaultPause payer _ => payer
  | IxGlobalVaultDeposit ctx _ _ | IxGlobalVaultWithdraw ctx _ _ => vc_payer ctx
  | IxClaimCuratorFee ctx _ => qc_payer ctx
  end.

Definition config_actor (i : ConfigIx) : Pubkey :=
  match i with
  | IxTransferProtocolAdmin payer _ | IxAcceptProtocolAdmin payer | IxSetGlobalPause payer _ => payer
  end.

Section signers.
Context (h : Host) (signers : list Pubkey).

(** Who signs is on the list. *)
Definition signed (a : TxAccount) : Prop := tx_is_signer a = true → tx_key a ∈ signers.

Lemma signs_payer (Q : Pubkey → Prop) : (∀ k, k ∈ signers → Q k) → loads signed next_payer Q.
Proof.
  intros HQ. apply loads_bind, loads_next. intros a Ha. apply loads_lift. intros k H.
  unfold Signer_new_payer in H. apply bind_Ok in H as (? & _ & H).
  apply bind_Ok in H as (? & Hs%require_Ok & [= <-]). by apply HQ, Ha.
Qed.

Lemma signs_signer (Q : Pubkey → Prop) : (∀ k, k ∈ signers → Q k) → loads signed next_signer Q.
Proof.
  intros HQ. apply loads_bind, loads_next. intros a Ha. apply loads_lift. intros k H.
  unfold Signer_new in H. apply bind_Ok in H as (? & Hs%require_Ok & [= <-]). by apply HQ, Ha.
Qed.

Lemma signs_touch_user signer ai (Q : UserAccount → Prop) :
  (∀ u, Q u) → loads signed (touch_user_account h signer ai) Q.
Proof.
  intros HQ accs HP. unfold touch_user_account. apply ensures_bind. intros a _.
  destruct (tx_content a); try apply ensures_Err. apply ensures_Ok. split; [done|].
  apply Forall_map. eapply Forall_impl; [exact HP|]. intros x Hx. unfold refresh.
  by destruct (_ =? _).
Qed.

Ltac sign_step :=
  match goal with
  | |- loads _ next_payer _ => apply signs_payer; intros ? ?
  | |- loads _ next_signer _ => apply signs_signer; intros ? ?
  | |- loads _ (touch_user_account _ _ _) _ => apply signs_touch_user; intros ?
  | _ => load_step
  end.

(** Walks through a loader down to its context. *)
Ltac sign_walk := repeat sign_step; try (intros ? [= <-]); done.

Lemma load_market_ix_signs r : loads signed (load_market_ix h r)
  (λ '(i, _), ∀ k, market_actor i = Some k → k ∈ signers).
Proof. destruct r; sign_walk. Qed.

Lemma load_vault_ix_signs r : loads signed (load_vault_ix h r) (λ '(i, _), vault_actor i ∈ signers).
Proof. destruct r; sign_walk. Qed.

Lemma load_config_ix_signs r :
  loads signed (load_config_ix h r) (λ '(i, _), config_actor i ∈ signers).
Proof. destruct r; sign_walk. Qed.
End signers.

(** The keys a list of accounts carries signatures of. *)
Definition signers_of (accounts : list TxAccount) : list Pubkey :=
  tx_key <$> filter (λ a, tx_is_signer a = true) accounts.

Lemma signers_of_signed accounts : Forall (signed (signers_of accounts)) accounts.
Proof.
  apply Forall_forall. intros a Ha Hs. unfold signers_of. apply list_elem_of_fmap.
  exists a. split; [done|]. by apply list_elem_of_filter.
Qed.

(** C22: nobody is acted for without signing.  Whatever the accounts and the parameters, an
    instruction that a loader lets through acts for somebody whose signature the account
    list carries, and so the owners, borrowers, curators and administrators the handlers
    check against that identity are who they say; the exceptions are the instructions that
    anyone may send: mirroring a position, the matching crank, the two liquidation checks
    and the claim of a sub-vault's repayments. *)
Theorem actors_sign (h : Host) (accounts : list TxAccount) :
  (∀ r i o rest, load_market_ix h r accounts = Ok ((i, o), rest) →
     ∀ k, market_actor i = Some k → k ∈ signers_of accounts)
  ∧ (∀ r i o rest, load_vault_ix h r accounts = Ok ((i, o), rest) →
     vault_actor i ∈ signers_of accounts)
  ∧ (∀ r i g rest, load_config_ix h r accounts = Ok ((i, g), rest) →
     config_actor i ∈ signers_of accounts).
Proof.
  pose proof (signers_of_signed accounts) as Ha.
  split_and!; intros r i o rest Hl.
  - by destruct (load_market_ix_signs h _ r _ Ha _ Hl).
  - by destruct (load_vault_ix_signs h _ r _ Ha _ Hl).
  - by destruct (load_config_ix_signs h _ r _ Ha _ Hl).
Qed.

(** ** Derived addresses *)

Lemma digits_inj (n : nat) (k k' : Z) : 0 ≤ k < 256 ^ Z.of_nat n → 0 ≤ k' < 256 ^ Z.of_nat n →
  (∀ i : nat, (i < n)%nat → k / 256 ^ Z.of_nat i mod 256 = k' / 256 ^ Z.of_nat i mod 256) → k = k'.
Proof.
  revert k k'. induction n as [|n IH]; intros k k' Hk Hk' Hd; [lia|].
  rewrite Nat2Z.inj_succ, Z.pow_succ_r in Hk, Hk' by lia.
  pose proof (Hd 0%nat ltac:(lia)) as H0. rewrite !Z.pow_0_r, !Z.div_1_r in H0.
  rewrite (Z.div_mod k 256), (Z.div_mod k' 256) by lia. f_equal; [f_equal|done].
  apply IH; [split; [apply Z.div_pos|apply Z.div_lt_upper_bound]; lia..|].
  intros i Hi. pose proof (Hd (S i) ltac:(lia)) as Hs.
  by rewrite Nat2Z.inj_succ, Z.pow_succ_r, <- !Z.div_div in Hs by lia.
Qed.

Lemma key_bytes_inj k k' : in_u 256 k → in_u 256 k' → key_bytes k = key_bytes k' → k = k'.
Proof.
  intros Hk Hk' H. apply (digits_inj 32); [exact Hk|exact Hk'|]. intros i Hi.
  apply (f_equal (λ l, l !! (31 - i)%nat)) in H. unfold key_bytes in H.
  rewrite !list_lookup_fmap, lookup_seqZ_lt in H by lia. injection H as H.
  by replace (31 - (0 + Z.of_nat (31 - i))) with (Z.of_nat i) in H by lia.
Qed.

Lemma u64_le_bytes_inj n n' : in_u 64 n → in_u 64 n' → u64_le_bytes n = u64_le_bytes n' → n = n'.
Proof.
  intros Hn Hn' H. apply (digits_inj 8); [exact Hn|exact Hn'|]. intros i Hi.
  apply (f_equal (λ l, l !! i)) in H. unfold u64_le_bytes in H.
  rewrite !list_lookup_fmap, lookup_seqZ_lt in H by lia. by injection H as H.
Qed.

(** The keys are 32 bytes, the sequence number a [u64]. *)
Definition seeds_in_range (s : Seeds) : Prop :=
  match s with
  | MarketSignerSeeds k | LenderIntegrationSeeds k | BorrowerIntegrationSeeds k
  | GlobalVaultSeeds k | GlobalVaultSignerSeeds k | GlobalVaultIntegrationSeeds k
  | GlobalVaultStagingSeeds k | UserAccountSeeds k => in_u 256 k
  | MarketVaultSeeds market mint => in_u 256 market ∧ in_u 256 mint
  | LoanSeeds market sequence => in_u 256 market ∧ in_u 64 sequence
  | GlobalConfigSeeds => True
  end.

Lemma seed_bytes_inj s s' : seeds_in_range s → seeds_in_range s' → seed_bytes s = seed_bytes s' → s = s'.
Proof.
  intros Hs Hs' H. pose proof (f_equal length H) as Hlen.
  destruct s, s'; try discriminate Hlen; clear Hlen; simpl in Hs, Hs'; cbn [seed_bytes] in H;
    try (apply app_inv_head in H); try done;
    try (apply app_inj_1 in H as [H H2]; [|done]; destruct Hs, Hs');
    f_equal; (by apply key_bytes_inj) || by apply u64_le_bytes_inj.
Qed.

(** The accounts of the program never share an address.  As long as the derivation of
    the runtime has no collision on seeds, two derived addresses are equal only if they
    are of the same kind and of the same keys: the loans of two markets, the vaults of two
    banks, the user accounts of two owners and the token accounts of a market are apart,
    although three kinds of seeds start with the same literal and the runtime concatenates
    them without separators. *)
Theorem program_addresses_disjoint (h : Host) (s s' : Seeds)
    (Hfind : ∀ bytes bytes' program,
       fst (find_program_address h bytes program) = fst (find_program_address h bytes' program) →
       bytes = bytes')
    (Hs : seeds_in_range s) (Hs' : seeds_in_range s')
    (Haddr : fst (program_address h s) = fst (program_address h s')) : s = s'.
Proof. apply seed_bytes_inj; [done..|]. by apply (Hfind _ _ YDELTA_ID). Qed.

Lemma program_addresses_disjoint_witness :
  let h := mkHost (λ bytes _, (Zpos (encode bytes), 255)) (λ _, Ok tt) (λ _, Err Panic)
             (λ _, Ok []) (λ _, Err Panic) (λ _ _, Ok tt) in
  length (seed_bytes (GlobalVaultSeeds 5)) = 37%nat
  ∧ fst (program_address h (GlobalVaultSeeds 5)) ≠ fst (program_address h (UserAccountSeeds 5)).
Proof.
  cbv zeta. split; [reflexivity|]. intros H.
  set (h := mkHost (λ bytes _, (Zpos (encode bytes), 255)) (λ _, Ok tt) (λ _, Err Panic)
             (λ _, Ok []) (λ _, Err Panic) (λ _ _, Ok tt)).
  assert (GlobalVaultSeeds 5 = UserAccountSeeds 5) as E; [|discriminate E].
  apply (program_addresses_disjoint h); [|split; reflexivity || discriminate..|exact H].
  intros bytes bytes' program [= E]. by apply (inj encode).
Defined.
