(* ===== verification/FundsSpec.v ===== *)
(** * Whose funds a transaction may move

    A seat of a market holds what its owner may withdraw: debt and collateral shares.
    [funds_need_signature]: whatever a transaction does, it does not lower them on the seat
    of a user who has not signed it, if its seat hint does not imitate a seat ([HintSpec]
    shows what one that does may do).  [guarded] follows one seat through every operation of
    a market, without asking anything of the shape of the trees: a block only changes its
    type through the free list, and the free list only hands out blocks that are free. *)
From stdpp Require Import base numbers list option gmap relations.
From S2P Require Import Prelude FixedPoint Loan Marginfi Oracles Ltv.
From S2P Require Import Hypertree HypertreeValues SubVault Market VaultTrees UserAccount.
From S2P Require Import Matching Runtime LoanClose Repay Keeper Promotion Deposits Claims.
From S2P Require Import Convert Admin Orders Program MarketSpec.
From S2P Require Import Accounts Loaders Execute ExecuteSpec AccountsSpec.
Local Open Scope Z_scope.

(** ** One seat *)

Section seat.
Context (a : Z) (Ha : a ≠ NIL) (owner : Pubkey) (debt collateral : Z).
Implicit Types (d : Region MarketBlock) (m : Market) (i : Z).

(** The seat is still its owner's, with at least the shares it had. *)
Definition protects (s : ClaimedSeat) : Prop :=
  cs_owner s = owner ∧ cs_owner_kind s = OWNER_KIND_USER
  ∧ debt <= cs_debt_withdrawable_shares s ∧ collateral <= cs_collateral_withdrawable_shares s.

Definition holds d : Prop := ∃ n, d !! a = Some (MB_seat n) ∧ protects (rb_value n).

(** The seat lies in the allocated part of the account. *)
Definition guarded m : Prop :=
  holds (mk_dynamic m) ∧ a < mf_num_bytes_allocated (mk_fixed m).

Lemma guard_insert d i b : i ≠ a → holds d → holds (<[i := b]> d).
Proof. intros Hi (n & Hn & Hp). exists n. by rewrite lookup_insert_ne. Qed.

Lemma holds_insert_seat d i (n : RBNode ClaimedSeat) :
  (i = a → protects (rb_value n)) → holds d → holds (<[i := to_block n]> d).
Proof.
  intros Hi Hd. destruct (decide (i = a)) as [->|Hne]; [|by apply guard_insert].
  exists n. rewrite lookup_insert_eq. by split; [|apply Hi].
Qed.

(** A block read as anything but a seat is another block. *)
Lemma read_elsewhere {A} `{BlockOf MarketBlock A} d i (x : A) :
  (∀ n, of_block (A:=A) (MB_seat n) = None) → holds d → region_get d i = Ok x → i ≠ a.
Proof.
  intros Hof (n & Hn & _) Hx ->. unfold region_get in Hx. rewrite Hn in Hx. simpl in Hx.
  by rewrite Hof in Hx.
Qed.

Lemma seat_read d i n : holds d → region_get (A:=RBNode ClaimedSeat) d i = Ok n → i = a →
  protects (rb_value n).
Proof.
  intros (n' & Hn & Hp) Hx ->. unfold region_get in Hx. rewrite Hn in Hx. by injection Hx as <-.
Qed.

(** Links and colours do not matter. *)
Lemma seat_relink d i (n n' : RBNode ClaimedSeat) :
  region_get d i = Ok n → rb_value n' = rb_value n → holds d → holds (<[i := to_block n']> d).
Proof.
  intros Hn Hv Hd. apply holds_insert_seat; [|done]. intros Hi. rewrite Hv.
  by apply (seat_read d i).
Qed.
Lemma order_relink d i (n n' : RBNode RestingOrder) :
  region_get d i = Ok n → rb_value n' = rb_value n → holds d → holds (<[i := to_block n']> d).
Proof. intros Hn _ Hd. apply guard_insert; [|done]. by apply (read_elsewhere d i n). Qed.
Lemma loan_relink d i (n n' : RBNode MatchedLoan) :
  region_get d i = Ok n → rb_value n' = rb_value n → holds d → holds (<[i := to_block n']> d).
Proof. intros Hn _ Hd. apply guard_insert; [|done]. by apply (read_elsewhere d i n). Qed.

(** ** Updates of seats *)

(** An update that takes nothing. *)
Definition raises (f : ClaimedSeat → result ClaimedSeat) : Prop :=
  ∀ s, protects s → ensures (f s) protects.

Lemma modify_seat_guarded m i f : guarded m → (i = a → raises f) →
  ensures (modify_seat m i f) guarded.
Proof.
  intros [Hd Hb] Hf. unfold modify_seat, modify_value. apply ensures_bind, ensures_bind.
  intros n Hn. apply ensures_bind. intros v Hv. unfold region_set.
  destruct (mk_dynamic m !! i); [|done]. simpl. do 2 apply ensures_Ok. split; [|done].
  apply holds_insert_seat; [|done]. intros Hi. refine (Hf Hi (rb_value n) _ v Hv).
  by apply (seat_read (mk_dynamic m) i).
Qed.

Lemma read_seat_guarded m i : guarded m →
  ensures (get_seat m i) (λ s, i = a → protects s).
Proof.
  intros [Hd _] s Hs. unfold get_seat, read_value in Hs. intros ->.
  destruct (region_get _ _) as [n|] eqn:E; [|done]. injection Hs as <-. by apply (seat_read _ a n Hd).
Qed.

(** ** The operations of a market *)

(** The payload of a block of another type. *)
Section elsewhere.
Context {V : Type} `{BlockOf MarketBlock (RBNode V)}.
Hypothesis no_seat : ∀ n, of_block (A:=RBNode V) (MB_seat n) = None.

Lemma read_value_elsewhere d i : holds d → ensures (read_value (V:=V) d i) (λ _, i ≠ a).
Proof.
  intros Hd v Hv. unfold read_value in Hv. destruct (region_get d i) as [n|] eqn:E; [|done].
  by apply (read_elsewhere d i n).
Qed.

Lemma modify_value_holds d i (f : V → result V) : holds d → ensures (modify_value d i f) holds.
Proof.
  intros Hd. unfold modify_value. apply ensures_bind. intros n Hn. apply ensures_bind. intros v _.
  unfold region_set. destruct (d !! i); [|done]. apply ensures_Ok. apply guard_insert; [|done].
  by apply (read_elsewhere d i n).
Qed.
End elsewhere.

Lemma get_order_elsewhere m i : guarded m → ensures (get_order m i) (λ _, i ≠ a).
Proof. intros [Hd _]. by apply read_value_elsewhere. Qed.
Lemma get_matched_loan_elsewhere m i : guarded m → ensures (get_matched_loan m i) (λ _, i ≠ a).
Proof. intros [Hd _]. by apply read_value_elsewhere. Qed.

Lemma modify_order_guarded m i f : guarded m → ensures (modify_order m i f) guarded.
Proof.
  intros [Hd Hb]. unfold modify_order. apply ensures_bind.
  eapply ensures_mono; [by apply modify_value_holds|]. intros d Hd'. by apply ensures_Ok.
Qed.

Lemma get_free_address_guarded m : guarded m →
  ensures (get_free_address m) (λ '(m', i), guarded m' ∧ i ≠ a).
Proof.
  intros [Hd Hb]. unfold get_free_address, free_list_remove. apply ensures_bind.
  destruct (Z.eqb_spec (mf_free_list_head_index (mk_fixed m)) NIL) as [_|_];
    [do 2 apply ensures_Ok; by split|].
  apply ensures_bind. intros n Hn. unfold region_set. destruct (mk_dynamic m !! _); [|done]. simpl.
  assert (mf_free_list_head_index (mk_fixed m) ≠ a) by by apply (read_elsewhere (mk_dynamic m) _ n).
  do 2 apply ensures_Ok. split; [split; [by apply guard_insert|done]|done].
Qed.

Lemma free_list_add_holds d head i : i ≠ a → holds d →
  ensures (free_list_add d head i) (λ '(d', _), holds d').
Proof.
  intros Hi Hd. unfold free_list_add, region_set. destruct (d !! i); [|done]. simpl.
  apply ensures_Ok. by apply guard_insert.
Qed.

Lemma release_address_guarded m i : i ≠ a → guarded m → ensures (release_address m i) guarded.
Proof.
  intros Hi [Hd Hb]. unfold release_address. apply ensures_bind.
  eapply ensures_mono; [by apply free_list_add_holds|]. intros [d h] Hd'. by apply ensures_Ok.
Qed.

(** The account grows behind its allocated part. *)
Lemma expand_market_guarded m : guarded m → ensures (expand_market m) guarded.
Proof.
  intros [Hd Hb]. unfold expand_market, market_expand. apply ensures_bind.
  eapply ensures_mono; [apply free_list_add_holds; simpl; [lia|]|].
  - apply guard_insert; [lia|done].
  - intros [d h] Hd'. apply ensures_bind. intros bytes Hbytes%ok_or_Ok. apply ensures_Ok.
    split; [done|]. simpl. unfold checked_add in Hbytes. simpl in Hbytes.
    destruct (_ <? _); [|done]. injection Hbytes as <-. unfold MARKET_BLOCK_SIZE. lia.
Qed.
Hint Resolve expand_market_guarded read_seat_guarded get_order_elsewhere modify_order_guarded
  get_free_address_guarded release_address_guarded : ensures.

Lemma modify_seat_raises m i f : guarded m → raises f → ensures (modify_seat m i f) guarded.
Proof. intros Hm Hf. by apply modify_seat_guarded. Qed.
Lemma modify_seat_elsewhere m i f : guarded m → i ≠ a → ensures (modify_seat m i f) guarded.
Proof. intros Hm Hi. by apply modify_seat_guarded. Qed.
Hint Resolve modify_seat_raises : ensures.

Lemma expand_market_if_needed_guarded m : guarded m → ensures (expand_market_if_needed m) guarded.
Proof. intros Hm. unfold expand_market_if_needed. ensure_walk; assumption. Qed.

Lemma expand_market_to_free_blocks_guarded m n : guarded m →
  ensures (expand_market_to_free_blocks m n) guarded.
Proof.
  unfold expand_market_to_free_blocks. generalize (Z.to_nat n). intros fuel. revert m.
  induction fuel as [|fuel IH]; intros m Hm; cbn [expand_market_loop]; ensure_walk; assumption.
Qed.

(** The trees of the market. *)
Ltac insert_elsewhere lem Hm :=
  eapply ensures_mono;
    [apply (insert_keeps holds lem); [apply Hm|intros ? ? ? _; by apply guard_insert]|];
  let t := fresh "t" in let Ht := fresh "Ht" in intros t Ht.

Lemma claim_seat_with_sub_vault_guarded m o k id : guarded m →
  ensures (claim_seat_with_sub_vault m o k id) guarded.
Proof.
  intros Hm. unfold claim_seat_with_sub_vault. do 2 ensure_step. ensure_step; [ensure_step|].
  ensure_step. eapply ensures_mono; [by apply get_free_address_guarded|]. intros [m1 i] [Hm1 Hi].
  do 3 ensure_step. insert_elsewhere seat_relink Hm1. ensure_walk. by split; [|apply Hm1].
Qed.

Lemma rest_order_guarded m i o : i ≠ a → guarded m → ensures (rest_order m i o) guarded.
Proof.
  intros Hi Hm. unfold rest_order. ensure_step; ensure_step;
    (insert_elsewhere order_relink Hm; apply ensures_Ok; by split; [|apply Hm]).
Qed.

Lemma remove_order_guarded m i : guarded m → ensures (remove_order_from_tree_and_free m i) guarded.
Proof.
  intros Hm. unfold remove_order_from_tree_and_free. ensure_step.
  eapply ensures_mono; [by apply get_order_elsewhere|]. intros o Hi. ensure_step.
  apply ensures_mono with guarded; [|intros m1 Hm1; by apply release_address_guarded].
  ensure_step; ensure_step;
    (eapply ensures_mono; [apply (remove_by_index_keeps holds order_relink); apply Hm|];
     intros t Ht; apply ensures_Ok; by split; [|apply Hm]).
Qed.

Lemma mint_matched_loan_guarded m n : guarded m →
  ensures (mint_matched_loan m n) (λ '(m', _), guarded m').
Proof.
  intros Hm. unfold mint_matched_loan. ensure_step.
  eapply ensures_mono; [by apply get_free_address_guarded|]. intros [m1 i] [Hm1 Hi].
  do 3 ensure_step. insert_elsewhere loan_relink Hm1. ensure_walk. by split; [|apply Hm1].
Qed.

Lemma retire_node_guarded m i : i ≠ a → guarded m → ensures (retire_node m i) guarded.
Proof.
  intros Hi Hm. unfold retire_node. ensure_step.
  eapply ensures_mono; [apply (remove_by_index_keeps holds loan_relink); apply Hm|].
  intros t Ht. apply release_address_guarded; [done|]. by split; [|apply Hm].
Qed.

Lemma take_order_sequence_guarded m : guarded m →
  ensures (take_order_sequence m) (λ '(m', _), guarded m').
Proof. intros Hm. unfold take_order_sequence. by ensure_walk. Qed.
Hint Resolve expand_market_if_needed_guarded expand_market_to_free_blocks_guarded
  claim_seat_with_sub_vault_guarded rest_order_guarded remove_order_guarded
  mint_matched_loan_guarded take_order_sequence_guarded : ensures.

(** ** What the updates of a seat take *)

Ltac raise := intros s (? & ? & ? & ?); ensure_walk; try by split_and!.

Lemma bump_open_borrow_raises : raises bump_open_borrow.
Proof. unfold bump_open_borrow. raise. Qed.
Lemma bump_open_lend_raises : raises bump_open_lend.
Proof. unfold bump_open_lend. raise. Qed.
Lemma drop_open_lend_raises : raises drop_open_lend.
Proof. unfold drop_open_lend. raise. Qed.
Lemma drop_open_borrow_raises : raises drop_open_borrow.
Proof. unfold drop_open_borrow. raise. Qed.
Lemma add_open_borrows_raises n : raises (add_open_borrows n).
Proof. unfold add_open_borrows. raise. Qed.

(** A credit. *)
Lemma checked_add_Ok w x y z e : ok_or (checked_add w x y) e = Ok z → z = x + y.
Proof. intros H%ok_or_Ok. unfold checked_add in H. destruct (_ <? _); by simplify_eq. Qed.

Lemma credit_raises axis bucket n : 0 <= n →
  raises (λ s, update_balance s axis bucket Plus n).
Proof.
  intros Hn s (Ho & Hk & Hd & Hc). unfold update_balance. apply ensures_bind.
  intros v Hv%checked_add_Ok. apply ensures_Ok.
  destruct axis, bucket; simpl in *; split_and!; simpl; done || lia.
Qed.

Lemma encumbered_raises axis n :
  raises (λ s, update_balance s axis Encumbered Minus n).
Proof.
  intros s (Ho & Hk & Hd & Hc). unfold update_balance. apply ensures_bind.
  intros v _. apply ensures_Ok. destruct axis; by split_and!.
Qed.

Lemma raises_bind f g : raises f → raises g → raises (λ s, f s ≫= g).
Proof.
  intros Hf Hg s Hs. apply ensures_bind. eapply ensures_mono; [by apply Hf|]. apply Hg.
Qed.

Lemma unencumber_seat_raises side p c : 0 <= p → 0 <= c → raises (unencumber_seat side p c).
Proof.
  intros Hp Hc. unfold unencumber_seat. destruct side.
  - apply raises_bind; [apply encumbered_raises|by apply credit_raises].
  - apply raises_bind; [apply encumbered_raises|]. apply raises_bind; [by apply credit_raises|]. raise.
Qed.

Lemma release_collateral_seat_raises t r : 0 <= t → 0 <= r → raises (release_collateral_seat t r).
Proof.
  intros Ht Hr s (Ho & Hk & Hd & Hc). unfold release_collateral_seat. cbv zeta. do 4 ensure_step.
  ensure_step. intros w Hw%checked_add_Ok. apply ensures_Ok. simpl in Hw.
  split_and!; simpl; done || lia.
Qed.

Lemma add_debt_shares_raises n : raises (add_debt_shares n).
Proof.
  intros s (Ho & Hk & Hd & Hc). unfold add_debt_shares. destruct (Z.ltb_spec 0 n); [|by apply ensures_Ok].
  apply ensures_bind. intros x Hx%checked_add_Ok. apply ensures_Ok. split_and!; simpl; done || lia.
Qed.
Hint Resolve bump_open_borrow_raises bump_open_lend_raises drop_open_lend_raises
  drop_open_borrow_raises add_open_borrows_raises unencumber_seat_raises
  release_collateral_seat_raises add_debt_shares_raises credit_raises : ensures.

Lemma atoms_to_shares_nonneg n snap : ensures (atoms_to_shares_at_snapshot n snap) (λ x, 0 <= x).
Proof.
  unfold atoms_to_shares_at_snapshot. ensure_step; [apply ensures_Err|]. apply ensures_fmap.
  unfold fp48_checked_div. apply ensures_fmap. intros x Hx%div_scale_range. simpl. apply Hx.
Qed.
Hint Resolve atoms_to_shares_nonneg : ensures.

(** ** The engines *)

Lemma unencumber_atoms_guarded m i side p c snap : guarded m →
  ensures (unencumber_atoms m i side p c snap) guarded.
Proof. intros Hm. unfold unencumber_atoms, unencumber_for_order. by ensure_walk. Qed.
Lemma release_loan_collateral_guarded m i t r : guarded m → 0 <= t → 0 <= r →
  ensures (release_loan_collateral m i t r) guarded.
Proof. intros Hm Ht Hr. unfold release_loan_collateral. by ensure_walk. Qed.
Hint Resolve unencumber_atoms_guarded release_loan_collateral_guarded : ensures.

Definition step_guarded {S} (Q : S → Prop) (st : ScanStep S) : Prop :=
  match st with Filled s => Q s | _ => True end.

Lemma fill_ask_guarded args s v maker id cap cap_bps matched coll : guarded (ms_market s) →
  ensures (fill_ask args s v maker id cap cap_bps matched coll) (λ s', guarded (ms_market s')).
Proof. intros Hm. unfold fill_ask. cbv zeta. by ensure_walk. Qed.
Hint Resolve fill_ask_guarded : ensures.

Lemma match_maker_guarded args s maker : guarded (ms_market s) →
  ensures (match_maker args s maker) (step_guarded (λ s', guarded (ms_market s'))).
Proof. intros Hm. unfold match_maker. cbv zeta. ensure_walk; done. Qed.
Hint Resolve match_maker_guarded : ensures.

Lemma match_loop_guarded fuel args s current : guarded (ms_market s) →
  ensures (match_loop fuel args s current) (λ s', guarded (ms_market s')).
Proof.
  revert s current. induction fuel as [|fuel IH]; intros s current Hs; cbn [match_loop];
    ensure_walk; done.
Qed.

Lemma match_order_guarded m args vo : guarded m →
  ensures (match_order m args vo) (λ '(m', _, _), guarded m').
Proof.
  intros Hm. unfold match_order. ensure_step. eapply ensures_mono; [by apply match_loop_guarded|].
  intros s Hs'. by apply ensures_Ok.
Qed.
Hint Resolve match_order_guarded : ensures.

Lemma p2pool_residual_guarded m args r : guarded m →
  ensures (p2pool_residual m args r) (λ '(m', _, _), guarded m').
Proof. intros Hm. unfold p2pool_residual. cbv zeta. by ensure_walk. Qed.

Lemma rest_residual_guarded m args r seq : guarded m → ensures (rest_residual m args r seq) guarded.
Proof.
  intros Hm. unfold rest_residual. ensure_step.
  eapply ensures_mono; [by apply get_free_address_guarded|]. intros [m1 i] [Hm1 Hi].
  do 2 ensure_step. by apply rest_order_guarded.
Qed.
Hint Resolve p2pool_residual_guarded rest_residual_guarded : ensures.

(** Only the taker's own seat is charged. *)
Lemma match_borrower_bid_guarded m args vo : guarded m → pa_taker_seat_index args ≠ a →
  ensures (match_borrower_bid m args vo) (λ '(m', _, _), guarded m').
Proof.
  intros Hm Hi. unfold match_borrower_bid, encumber_for_order. cbv zeta. do 10 ensure_step.
  ensure_step. eapply ensures_mono; [by apply modify_seat_elsewhere|]. intros m1 Hm1. by ensure_walk.
Qed.

Lemma cancel_order_by_index_guarded m seat i : guarded m →
  ensures (cancel_order_by_index m seat i) guarded.
Proof. intros Hm. unfold cancel_order_by_index. by ensure_walk. Qed.

Lemma update_user_bid_guarded m seat i rate term valid buffer now : guarded m →
  ensures (update_user_bid m seat i rate term valid buffer now) (λ '(m', _), guarded m').
Proof.
  intros Hm. unfold update_user_bid. cbv zeta. ensure_step.
  eapply ensures_mono; [by apply get_order_elsewhere|]. intros o Hi. do 9 ensure_step.
  eapply ensures_mono; [apply (remove_by_index_keeps holds order_relink); apply Hm|].
  intros t Ht. assert (guarded (put_bids m t)) as Hm1 by by split; [|apply Hm].
  ensure_step. eapply ensures_mono; [by apply take_order_sequence_guarded|].
  intros [m1 q] Hm2. ensure_step. eapply ensures_mono; [by apply rest_order_guarded|].
  intros m2 Hm3. by apply ensures_Ok.
Qed.

Lemma rest_vault_ask_guarded m args : guarded m →
  ensures (rest_vault_ask m args) (λ '(m', _), guarded m').
Proof.
  intros Hm. unfold rest_vault_ask. do 3 ensure_step.
  eapply ensures_mono; [apply modify_seat_raises; [done|apply bump_open_lend_raises]|].
  intros m1 Hm1. ensure_step. eapply ensures_mono; [by apply take_order_sequence_guarded|].
  intros [m2 q] Hm2. ensure_step. eapply ensures_mono; [by apply get_free_address_guarded|].
  intros [m3 i] [Hm3 Hi]. do 3 ensure_step.
  eapply ensures_mono; [by apply rest_order_guarded|]. intros m4 Hm4. by apply ensures_Ok.
Qed.
Hint Resolve cancel_order_by_index_guarded update_user_bid_guarded rest_vault_ask_guarded : ensures.

(** Refinancing, and the take of resting bids. *)
Lemma refinance_maker_guarded args s maker : guarded (rs_market s) →
  ensures (refinance_maker args s maker) (step_guarded (λ s', guarded (rs_market s'))).
Proof. intros Hm. unfold refinance_maker, refinance_fill. cbv zeta. ensure_walk; done. Qed.
Hint Resolve refinance_maker_guarded : ensures.

Lemma refinance_loop_guarded fuel args s current : guarded (rs_market s) →
  ensures (refinance_loop fuel args s current) (λ s', guarded (rs_market s')).
Proof.
  revert s current. induction fuel as [|fuel IH]; intros s current Hs; cbn [refinance_loop];
    ensure_walk; done.
Qed.

Lemma match_p2pool_residual_guarded m args vo : guarded m →
  ensures (match_p2pool_residual_against_asks m args vo) (λ s, guarded (rs_market s)).
Proof. intros Hm. unfold match_p2pool_residual_against_asks. by apply refinance_loop_guarded. Qed.

Lemma fill_bid_guarded args s current bid fill c cap : guarded (bs_market s) →
  ensures (fill_bid args s current bid fill c cap) (λ s', guarded (bs_market s')).
Proof. intros Hm. unfold fill_bid. cbv zeta. ensure_walk; done. Qed.
Lemma prune_bid_guarded s current bid : guarded (bs_market s) →
  ensures (prune_bid s current bid) (λ s', guarded (bs_market s')).
Proof. intros Hm. unfold prune_bid. by ensure_walk. Qed.
Hint Resolve fill_bid_guarded prune_bid_guarded : ensures.

Lemma match_bid_guarded args s current bid : guarded (bs_market s) →
  ensures (match_bid args s current bid) (step_guarded (λ s', guarded (bs_market s'))).
Proof. intros Hm. unfold match_bid. cbv zeta. ensure_walk; done. Qed.
Hint Resolve match_bid_guarded : ensures.

Lemma bids_loop_guarded fuel args s current : guarded (bs_market s) →
  ensures (bids_loop fuel args s current) (λ s', guarded (bs_market s')).
Proof.
  revert s current. induction fuel as [|fuel IH]; intros s current Hs; cbn [bids_loop];
    ensure_walk; done.
Qed.

Lemma match_resting_bids_guarded m args v : guarded m →
  ensures (match_resting_bids m args v) (λ s, guarded (bs_market s)).
Proof. intros Hm. unfold match_resting_bids. by apply bids_loop_guarded. Qed.
Hint Resolve match_p2pool_residual_guarded match_resting_bids_guarded : ensures.

(** ** Finding seats *)

Lemma claimed_seat_eqb_true (s s' : ClaimedSeat) : payload_eqb s s' = true →
  cs_owner_kind s = cs_owner_kind s' ∧ cs_owner s = cs_owner s'.
Proof.
  simpl. unfold claimed_seat_eqb. intros [[Hk Ho]%andb_true_iff _]%andb_true_iff.
  split; by apply Z.eqb_eq.
Qed.

(** A probe finds a block with its key, or nothing. *)
Lemma lookup_loop_elsewhere fuel (t : Tree MarketBlock) (probe : ClaimedSeat) stack :
  cs_owner probe ≠ owner ∨ cs_owner_kind probe ≠ OWNER_KIND_USER → holds (t_data t) →
  ensures (lookup_loop fuel t probe stack) (λ i, i ≠ a).
Proof.
  intros Hp Hd. revert stack. induction fuel as [|fuel IH]; intros stack; cbn [lookup_loop]; [done|].
  destruct stack as [|i stack]; [by apply ensures_Ok|]. ensure_step; [apply IH|].
  apply ensures_bind. intros v Hv.
  destruct (payload_cmp v probe); ensure_walk; try apply IH; try assumption.
  intros ->. unfold get_value, get_node in Hv. destruct (region_get _ _) as [n|] eqn:E; [|done].
  injection Hv as <-. destruct (seat_read _ a n Hd E eq_refl) as (Ho & Hk & _).
  match goal with He : payload_eqb _ _ = true |- _ => apply claimed_seat_eqb_true in He as [Ek Eo] end.
  destruct Hp; congruence.
Qed.

Lemma lookup_seat_elsewhere m probe :
  cs_owner probe ≠ owner ∨ cs_owner_kind probe ≠ OWNER_KIND_USER → guarded m →
  ensures (lookup_seat_index m probe) (λ i, i ≠ a).
Proof.
  intros Hp [Hd _]. unfold lookup_seat_index, lookup_index.
  ensure_step; [by apply ensures_Ok|by apply lookup_loop_elsewhere].
Qed.

Lemma seat_with_hint_elsewhere m signer hint : signer ≠ owner → guarded m →
  ensures (get_seat_index_with_hint m signer hint) (λ i, i ≠ a).
Proof.
  intros Hs Hm. unfold get_seat_index_with_hint. apply ensures_bind.
  apply ensures_mono with (λ hinted, ∀ i, hinted = Some i → i ≠ a).
  - destruct hint as [i|]; [|by apply ensures_Ok]. ensure_step; [|by apply ensures_Ok].
    apply ensures_bind. intros s Hi. apply ensures_Ok. intros j.
    destruct (seat_matches s signer) eqn:E; [|done]. intros [= <-] ->.
    destruct Hm as [(n & Hn & Ho & _) _]. unfold get_helper_seat in Hi. rewrite Hn in Hi.
    injection Hi as <-. apply seat_matches_true in E as (E & _). congruence.
  - intros [i|] Hi; [apply ensures_Ok; by apply Hi|]. apply ensures_bind.
    eapply ensures_mono; [apply lookup_seat_elsewhere; [by left|done]|]. intros i Hne. by ensure_walk.
Qed.

(** ** The handlers *)

Section handlers.
Context (invoke_signed : MarginfiIx → list AccountInfo → result (list AccountInfo)).
Context (invoke_token : TokenIx → list AccountInfo → result (list AccountInfo)).
Context (parse : list Z → option StakeState) (now : Z).
Implicit Types (w : World) (v : Vault).

Definition keeps (f : World → result World) : Prop :=
  ∀ w, guarded (wd_market w) → ensures (f w) (λ w', guarded (wd_market w')).

Lemma call_deposit_nonneg l ks n :
  ensures (call_deposit invoke_signed l ks n) (λ '(x, _), 0 <= x).
Proof.
  unfold call_deposit, on_accounts, adapter_deposit. do 2 ensure_step. ensure_step.
  ensure_walk. unfold saturating_sub. lia.
Qed.
Hint Resolve call_deposit_nonneg : ensures.

Lemma deposit_to_seat_guarded m i n b : guarded m → 0 <= n → ensures (deposit_to_seat m i n b) guarded.
Proof. intros Hm Hn. unfold deposit_to_seat. by apply modify_seat_raises, credit_raises. Qed.
Hint Resolve deposit_to_seat_guarded : ensures.

Lemma claim_seat_guards k payer : keeps (process_claim_seat k payer).
Proof. intros w Hm. unfold process_claim_seat, claim_seat. ensure_walk. assumption. Qed.

Lemma deposit_guards ctx n h : keeps (process_deposit invoke_signed invoke_token ctx n h).
Proof. intros w Hm. unfold process_deposit. cbv zeta. ensure_walk. assumption. Qed.

Lemma withdraw_guards ctx n h b : sc_payer ctx ≠ owner →
  keeps (process_withdraw invoke_signed invoke_token ctx n h b).
Proof.
  intros Hp w Hm. unfold process_withdraw, withdraw_from_seat. cbv zeta. forget. apply ensures_bind.
  eapply ensures_mono; [by apply seat_with_hint_elsewhere|]. intros i Hi. do 6 forget.
  apply ensures_bind. eapply ensures_mono; [by apply modify_seat_elsewhere|]. intros m1 Hm1.
  ensure_walk; assumption.
Qed.

Lemma place_order_args_seat ctx p l :
  ensures (place_order_args parse now ctx p l) (λ f, ∀ i, pa_taker_seat_index (f i) = i).
Proof. unfold place_order_args. by ensure_walk. Qed.

Lemma record_fallback_guarded m payer h i o c : guarded m →
  ensures (record_fallback m payer h i o c) guarded.
Proof.
  intros Hm. unfold record_fallback. ensure_step. apply ensures_mono with guarded.
  - destruct (Z.ltb_spec 0 c); [|by apply ensures_Ok]. do 2 ensure_step.
    apply deposit_to_seat_guarded; [done|lia].
  - intros m1 [Hd Hb]. ensure_step. eapply ensures_mono; [by apply (modify_value_holds (V:=MatchedLoan))|].
    intros d Hd'. by apply ensures_Ok.
Qed.
Hint Resolve record_fallback_guarded : ensures.

Lemma place_order_guards ctx fb p : bc_payer ctx ≠ owner →
  keeps (process_place_order parse now invoke_signed ctx fb p).
Proof.
  intros Hp w Hm. unfold process_place_order. cbv zeta. ensure_step.
  eapply ensures_mono; [by apply expand_market_if_needed_guarded|]. intros m1 Hm1. ensure_step.
  eapply ensures_mono; [apply place_order_args_seat|]. intros f Hf. do 3 forget. apply ensures_bind.
  eapply ensures_mono; [by apply expand_market_to_free_blocks_guarded|]. intros m2 Hm2.
  apply ensures_bind. eapply ensures_mono; [by apply seat_with_hint_elsewhere|]. intros i Hi.
  apply ensures_bind. eapply ensures_mono.
  { apply match_borrower_bid_guarded; [done|by rewrite Hf]. }
  intros [[m3 v3] r] Hm3. ensure_step.
  apply ensures_mono with (λ '(m', _), guarded m'); [ensure_walk; assumption|].
  intros [m4 l4] Hm4. ensure_walk; assumption.
Qed.

Lemma cancel_order_guards k payer q h : keeps (process_cancel_order k payer q h).
Proof. intros w Hm. unfold process_cancel_order. ensure_walk. assumption. Qed.
Lemma update_order_guards k payer p : keeps (process_update_order now k payer p).
Proof. intros w Hm. unfold process_update_order. ensure_walk. assumption. Qed.
Lemma sync_guards k o : keeps (process_sync_market_position k o).
Proof. intros w Hm. unfold process_sync_market_position. ensure_walk. assumption. Qed.

(** The life cycle of a loan. *)
Lemma find_queue_node_elsewhere m q : guarded m →
  ensures (find_queue_node m q) (λ '(_, i), i ≠ a).
Proof.
  intros Hm. unfold find_queue_node. do 5 ensure_step.
  eapply ensures_mono; [by apply get_matched_loan_elsewhere|]. intros n Hi. by apply ensures_Ok.
Qed.

Lemma do_vault_settle_guards ctx p se r c id : keeps
  (do_vault_settle invoke_signed invoke_token ctx now p se r c id).
Proof. intros w Hm. unfold do_vault_settle. cbv zeta. ensure_walk; assumption. Qed.

Lemma promotion_guards ctx q :
  keeps (process_primary_promotion invoke_signed invoke_token ctx now q).
Proof.
  intros w Hm. unfold process_primary_promotion. cbv zeta. apply ensures_bind.
  eapply ensures_mono; [by apply find_queue_node_elsewhere|]. intros [n i] Hi. do 8 forget.
  apply ensures_bind. apply ensures_mono with (λ w', guarded (wd_market w')).
  - ensure_step; [|by apply ensures_Ok]. forget. by apply do_vault_settle_guards.
  - intros w' Hm'. apply ensures_bind. apply ensures_mono with guarded.
    + destruct (_ && _) eqn:E; [|by apply ensures_Ok]. apply deposit_to_seat_guarded; [done|].
      apply andb_true_iff in E as [_ E%Z.ltb_lt]. lia.
    + intros m1 Hm1. forget. apply ensures_bind.
      eapply ensures_mono; [by apply retire_node_guarded|]. intros m2 Hm2. by apply ensures_Ok.
Qed.

(** Closing out a loan. *)
Lemma credit_lender_guarded m i f c full : guarded m → ensures (credit_lender m i f c full) guarded.
Proof.
  intros Hm. unfold credit_lender. apply ensures_bind, ensures_mono with guarded.
  - ensure_walk; assumption.
  - intros m1 Hm1. do 2 ensure_step. apply modify_seat_raises; [done|]. apply raises_bind.
    + apply add_debt_shares_raises.
    + destruct full; [apply drop_open_lend_raises|]. intros s Hs. by apply ensures_Ok.
Qed.
Lemma release_borrower_guarded m i n snap : guarded m → ensures (release_borrower m i n snap) guarded.
Proof.
  intros Hm. unfold release_borrower. apply ensures_bind, ensures_mono with guarded;
    [ensure_walk; assumption|]. intros m1 Hm1. by ensure_walk.
Qed.
Hint Resolve credit_lender_guarded release_borrower_guarded : ensures.

Lemma close_out_vault_guards id bank c : keeps (λ w, close_out_vault w id bank c now).
Proof. intros w Hm. unfold close_out_vault. ensure_walk. assumption. Qed.
Lemma sync_position_guards k o : keeps (λ w, sync_position w k o).
Proof. intros w Hm. unfold sync_position. ensure_walk. assumption. Qed.
Lemma drop_open_loan_ref_guards k : keeps (λ w, drop_open_loan_ref w k).
Proof. intros w Hm. unfold drop_open_loan_ref. ensure_walk. assumption. Qed.

Lemma repay_p2pool_guards ctx p loan :
  keeps (λ w, repay_p2pool invoke_signed invoke_token ctx now p w loan).
Proof.
  intros w Hm. unfold repay_p2pool. cbv zeta. do 17 forget. apply ensures_bind.
  eapply ensures_mono; [by apply sync_position_guards|].
  intros w1 Hm1. ensure_step; [|by apply ensures_Ok].
  apply ensures_bind. eapply ensures_mono; [by apply release_borrower_guarded|]. intros m2 Hm2.
  apply ensures_bind. eapply ensures_mono; [by apply drop_open_loan_ref_guards|].
  intros w2 Hw2. by apply ensures_Ok.
Qed.

Lemma repay_fixed_guards ctx p loan :
  keeps (λ w, repay_fixed invoke_signed invoke_token ctx now p w loan).
Proof.
  intros w Hm. unfold repay_fixed. cbv zeta. do 3 forget. forget. do 2 forget.
  apply ensures_bind. eapply ensures_mono; [by apply credit_lender_guarded|]. intros m1 Hm1.
  apply ensures_bind, ensures_mono with guarded; [ensure_walk; assumption|]. intros m2 Hm2.
  apply ensures_bind, ensures_mono with (λ w', guarded (wd_market w')).
  { ensure_step; [by apply close_out_vault_guards|by apply ensures_Ok]. }
  intros w1 Hw1. apply ensures_bind. eapply ensures_mono; [by apply sync_position_guards|].
  intros w2 Hw2. ensure_step; [|by apply ensures_Ok]. apply ensures_bind.
  eapply ensures_mono; [by apply drop_open_loan_ref_guards|]. intros w3 Hw3. by apply ensures_Ok.
Qed.

Lemma repay_guards ctx p : keeps (process_repay invoke_signed invoke_token ctx now p).
Proof.
  intros w Hw. unfold process_repay. do 6 forget.
  ensure_step; [by apply repay_fixed_guards|by apply repay_p2pool_guards].
Qed.

Lemma keeper_close_out_guards ctx loan ty pm : keeps (λ w, keeper_close_out ctx now w loan ty pm).
Proof.
  intros w Hm. unfold keeper_close_out. cbv zeta.
  apply ensures_bind, ensures_mono with (λ w', guarded (wd_market w')).
  - ensure_step; [|by apply ensures_Ok]. do 2 forget. apply ensures_bind.
    eapply ensures_mono; [by apply credit_lender_guarded|]. intros m1 Hm1.
    ensure_step; [by apply close_out_vault_guards|by apply ensures_Ok].
  - intros w1 Hw1. apply ensures_Ok. by destruct (pm_full pm).
Qed.

Lemma settle_borrower_seat_guarded m l n f : guarded m →
  ensures (settle_borrower_seat m l n f) guarded.
Proof.
  intros Hm. unfold settle_borrower_seat. ensure_step; [|by apply ensures_Ok]. ensure_step.
  ensure_step. apply modify_seat_raises; [done|]. intros s Hs. by destruct f; ensure_walk.
Qed.

Lemma liquidate_borrower_seat_guarded m l n f : guarded m →
  ensures (liquidate_borrower_seat m l n f) guarded.
Proof.
  intros Hm. unfold liquidate_borrower_seat. cbv zeta. apply ensures_bind. intros surplus _.
  apply modify_seat_raises; [done|]. intros s (Ho & Hk & Hd & Hc). apply ensures_bind.
  intros release _. apply ensures_bind, ensures_mono with protects.
  - destruct (Z.ltb_spec 0 surplus); [|apply ensures_Ok; by split_and!]. apply ensures_bind.
    intros x Hx%checked_add_Ok. apply ensures_Ok. simpl in Hx. split_and!; simpl; done || lia.
  - intros s' Hs'. destruct f; [by apply drop_open_borrow_raises|by apply ensures_Ok].
Qed.

Lemma settle_guards ctx data :
  keeps (process_settle_matured_loan invoke_signed invoke_token ctx now data).
Proof.
  intros w Hm. unfold process_settle_matured_loan. cbv zeta. do 15 forget. apply ensures_bind.
  eapply ensures_mono; [by apply settle_borrower_seat_guarded|].
  intros m1 Hm1. do 2 forget. by apply keeper_close_out_guards.
Qed.

Lemma liquidate_guards ctx data :
  keeps (process_liquidate_loan invoke_signed invoke_token parse ctx now data).
Proof.
  intros w Hm. unfold process_liquidate_loan. cbv zeta. do 11 forget.
  apply ensures_bind. eapply ensures_mono; [by apply liquidate_borrower_seat_guarded|].
  intros m1 Hm1. do 2 forget. by apply keeper_close_out_guards.
Qed.

Lemma convert_guards ctx rate buffer :
  keeps (process_convert_p2pool_to_fixed invoke_signed parse ctx now rate buffer).
Proof.
  intros w Hm. unfold process_convert_p2pool_to_fixed. cbv zeta.
  do 14 forget. apply ensures_bind.
  eapply ensures_mono; [by apply expand_market_to_free_blocks_guarded|]. intros m1 Hm1.
  apply ensures_bind. eapply ensures_mono; [by apply match_p2pool_residual_guarded|].
  intros r Hr. do 5 forget. apply ensures_bind.
  eapply ensures_mono; [apply modify_seat_raises; [done|apply add_open_borrows_raises]|].
  intros m2 Hm2. apply ensures_bind, ensures_mono with (λ '(m', _), guarded m').
  - unfold release_converted. ensure_walk; assumption.
  - intros [m3 lo] Hm3. by ensure_walk.
Qed.

(** Claims. *)
Lemma claim_repayment_guards ctx id :
  keeps (process_claim_repayment_for_sub_vault invoke_signed invoke_token ctx id).
Proof.
  intros w Hm. unfold process_claim_repayment_for_sub_vault. cbv zeta. apply ensures_bind.
  eapply ensures_mono; [apply lookup_seat_elsewhere; [by right|done]|]. intros i Hi. do 2 forget.
  ensure_step; [by apply ensures_Ok|]. forget. ensure_step.
  - apply ensures_bind. eapply ensures_mono; [by apply modify_seat_elsewhere|]. intros m1 Hm1.
    by apply ensures_Ok.
  - do 2 forget. apply ensures_bind. eapply ensures_mono; [by apply modify_seat_elsewhere|].
    intros m1 Hm1. by ensure_walk.
Qed.

Lemma protocol_fee_guarded ctx m l : guarded m →
  ensures (process_protocol_fee_claim invoke_signed invoke_token ctx m l) (λ '(m', _), guarded m').
Proof. intros Hm. unfold process_protocol_fee_claim. cbv zeta. ensure_walk; assumption. Qed.

(** ** The handlers of the book *)

Definition book_guarded (f : Market → Vault → result (Market * Vault)) : Prop :=
  ∀ m v, guarded m → ensures (f m v) (λ '(m', _), guarded m').

Lemma take_resting_bids_guarded ctx l x n m v : guarded m →
  ensures (take_resting_bids parse now ctx l x n m v) (λ '(m', _, _), guarded m').
Proof.
  intros Hm. unfold take_resting_bids. cbv zeta. do 2 ensure_step.
  ensure_step; [by apply ensures_Ok|]. ensure_walk. assumption.
Qed.

Lemma sub_vault_seat_guarded m k id : guarded m →
  ensures (sub_vault_seat m k id) (λ '(m', _), guarded m').
Proof. intros Hm. unfold sub_vault_seat. ensure_walk; assumption. Qed.
Hint Resolve take_resting_bids_guarded sub_vault_seat_guarded : ensures.

Lemma place_for_sub_vault_guarded ctx k c id fl l :
  book_guarded (process_place_order_for_sub_vault parse now ctx k c id fl l).
Proof. intros m v Hm. unfold process_place_order_for_sub_vault. cbv zeta. ensure_walk; assumption. Qed.
Lemma update_for_sub_vault_guarded ctx k c id fl l :
  book_guarded (process_update_order_for_sub_vault parse now ctx k c id fl l).
Proof. intros m v Hm. unfold process_update_order_for_sub_vault. cbv zeta. ensure_walk; assumption. Qed.
Lemma cancel_sub_vault_ask_guarded gate k mk id : book_guarded (cancel_sub_vault_ask gate k mk id).
Proof. intros m v Hm. unfold cancel_sub_vault_ask. by ensure_walk. Qed.

Lemma crank_walk_guarded ctx l floor budget total asks m v : guarded m →
  ensures (crank_walk parse now ctx l floor budget total asks m v) (λ '(m', _, _), guarded m').
Proof.
  revert budget total m v. induction asks as [|x asks IH]; intros budget total m v Hm;
    cbn [crank_walk]; [by apply ensures_Ok|]. ensure_step; [by apply ensures_Ok|]. ensure_step.
  apply ensures_mono with (λ '(m', _, _), guarded m').
  - unfold crank_ask. ensure_walk; assumption.
  - intros [[m1 v1] n] Hm1. by apply IH.
Qed.

Lemma match_crank_guarded ctx n l m v : guarded m →
  ensures (process_match_crank parse now ctx n l m v) (λ '(m', _, _), guarded m').
Proof. intros Hm. unfold process_match_crank. do 6 ensure_step. by apply crank_walk_guarded. Qed.

(** ** A transaction *)

Lemma on_market_guards w f : guarded (wd_market w) →
  (∀ m, guarded m → ensures (f m) guarded) → ensures (on_market w f) (λ w', guarded (wd_market w')).
Proof.
  intros Hm Hf. unfold on_market. apply ensures_bind. eapply ensures_mono; [by apply Hf|].
  intros m' Hm'. by apply ensures_Ok.
Qed.

Lemma on_book_guards w f : guarded (wd_market w) → book_guarded f →
  ensures (on_book w f) (λ w', guarded (wd_market w')).
Proof.
  intros Hm Hf. unfold on_book. forget. apply ensures_bind. eapply ensures_mono; [by apply Hf|].
  intros [m' v'] Hm'. by apply ensures_Ok.
Qed.

(** The seat of a user for whom the instruction does not act keeps what it has. *)
Lemma run_market_ix_guarded k g (i : MarketIx) w : market_actor i ≠ Some owner →
  guarded (wd_market w) →
  ensures (run_market_ix invoke_signed invoke_token parse now k g i w)
    (λ w', guarded (wd_market w')).
Proof.
  intros Hi Hw. destruct i; simpl in Hi |- *;
    try (apply on_market_guards; [exact Hw|]; intros m Hm;
         unfold process_set_fee_config, process_transfer_market_admin, process_accept_market_admin,
           process_set_market_pause, open_market; cbv zeta; ensure_walk; assumption).
  - by apply claim_seat_guards.
  - by apply deposit_guards.
  - apply withdraw_guards; [congruence|done].
  - apply place_order_guards; [congruence|done].
  - by apply cancel_order_guards.
  - by apply update_order_guards.
  - by apply sync_guards.
  - by apply promotion_guards.
  - by apply repay_guards.
  - by apply settle_guards.
  - by apply liquidate_guards.
  - forget. by apply ensures_Ok.
  - forget. by apply ensures_Ok.
  - by apply convert_guards.
  - apply on_book_guards; [done|]. apply place_for_sub_vault_guarded.
  - apply on_book_guards; [done|]. apply update_for_sub_vault_guarded.
  - apply on_book_guards; [done|]. apply cancel_sub_vault_ask_guarded.
  - apply on_book_guards; [done|]. apply cancel_sub_vault_ask_guarded.
  - apply on_book_guards; [done|]. intros m v Hm. apply ensures_bind.
    eapply ensures_mono; [by apply match_crank_guarded|]. intros [[m' v'] n] Hmv.
    by apply ensures_Ok.
  - by apply claim_repayment_guards.
  - apply ensures_bind. eapply ensures_mono; [by apply protocol_fee_guarded|].
    intros [m' l'] Hm'. by apply ensures_Ok.
Qed.
End handlers.
End seat.

(** ** From the account list *)

(** A user's seat: a block of the market, in the allocated part of its account. *)
Definition user_seat (s : System) (market a : Z) (seat : ClaimedSeat) : Prop :=
  ∃ m n, sy_markets s !! market = Some m ∧ mk_dynamic m !! a = Some (MB_seat n)
    ∧ rb_value n = seat ∧ cs_owner_kind seat = OWNER_KIND_USER
    ∧ a ≠ NIL ∧ a < mf_num_bytes_allocated (mk_fixed m).

(** The seat of [before] is still there, and nothing was taken from it. *)
Definition seat_intact (s : System) (market a : Z) (before : ClaimedSeat) : Prop :=
  ∃ seat, user_seat s market a seat ∧ cs_owner seat = cs_owner before
    ∧ cs_debt_withdrawable_shares before <= cs_debt_withdrawable_shares seat
    ∧ cs_collateral_withdrawable_shares before <= cs_collateral_withdrawable_shares seat.

Lemma seat_intact_same s s' market a seat : user_seat s market a seat →
  sy_markets s' !! market = sy_markets s !! market → seat_intact s' market a seat.
Proof.
  intros Hs Hm. exists seat. split; [|done]. destruct Hs as (m & n & H & ?). exists m, n.
  by rewrite Hm.
Qed.

Lemma seat_intact_guarded s market a seat m : sy_markets s !! market = Some m → a ≠ NIL →
  guarded a (cs_owner seat) (cs_debt_withdrawable_shares seat)
    (cs_collateral_withdrawable_shares seat) m → seat_intact s market a seat.
Proof.
  intros Hs Ha [(n & Hn & Ho & Hk & Hd & Hc) Hb]. exists (rb_value n).
  split; [|done]. exists m, n. by split_and!.
Qed.

Lemma signers_of_metas h s o metas k : k ∈ signers_of (map (account_info h s o) metas) →
  ∃ x, x ∈ metas ∧ am_is_signer x = true ∧ am_key x = k.
Proof.
  unfold signers_of. intros (a & -> & Ha)%list_elem_of_fmap.
  apply list_elem_of_filter in Ha as [Hs Ha]. apply list_elem_of_In, in_map_iff in Ha as (x & <- & Hx).
  exists x. split; [by apply list_elem_of_In|]. unfold account_info in *.
  by destruct (account_content _ _ _ _).
Qed.

(** The seat hint of the request, if it has one, does not imitate a seat of the market it
    is loaded with. *)
Definition honest_request (h : Host) (s : System) (o : Outside) (metas : list AccountMeta)
    (r : Request) : Prop :=
  match r with
  | OnMarket r => ∀ i opened rest m,
      load_market_ix h r (map (account_info h s o) metas) = Ok (i, opened, rest) →
      sy_markets s !! tk_market (op_keys opened) = Some m → honest_ix i m
  | _ => True
  end.

Lemma claim_seat_request_honest h s o metas : honest_request h s o metas (OnMarket RqClaimSeat).
Proof.
  intros i opened rest m Hl _. cbn [load_market_ix] in Hl. unfold mbind, load_bind in Hl.
  destruct (load_claim_seat h _) as [[[payer o'] rest']|] in Hl; [|done].
  by injection Hl as <- <- <-.
Qed.

(** C1: nobody's funds move without a signature.  Whatever accounts and parameters a
    transaction carries, if it succeeds, is not signed by the owner of a user's seat, and
    its seat hint (if it has one) does not imitate a seat, then the seat is still there, is
    still that owner's, and holds at least the debt and the collateral shares that could be
    withdrawn before; matching cranks, keepers and promotions only ever add to them.  (What
    a hint that imitates a seat opens is [order_can_imitate_seat].) *)
Theorem funds_need_signature (h : Host)
    (invoke_signed : MarginfiIx → list AccountInfo → result (list AccountInfo))
    (invoke_token : TokenIx → list AccountInfo → result (list AccountInfo))
    (parse_stake_state : list Z → option StakeState)
    (s s' : System) (o : Outside) (now : Z) (metas : list AccountMeta) (r : Request)
    (market a : Z) (seat : ClaimedSeat)
    (Hseat : user_seat s market a seat)
    (Hsign : ∀ x, x ∈ metas → am_is_signer x = true → am_key x ≠ cs_owner seat)
    (Hhint : honest_request h s o metas r)
    (Hrun : execute h invoke_signed invoke_token parse_stake_state s o now metas r = Ok s') :
  seat_intact s' market a seat.
Proof.
  destruct r as [r|r|r|p| |]; unfold execute in Hrun.
  - apply bind_Ok in Hrun as ([[i od] rest] & Hl & Hrun).
    apply bind_Ok in Hrun as (g & _ & Hrun). apply bind_Ok in Hrun as (w & Hw%ok_or_Ok & Hrun).
    apply bind_Ok in Hrun as (w' & Hw' & [= <-]).
    destruct (decide (market = tk_market (op_keys od))) as [->|Hne];
      [|apply (seat_intact_same s); [done|by apply lookup_insert_ne]].
    destruct Hseat as (m & n & Hm & Hn & <- & Hk & Ha & Hb).
    apply open_world_Some in Hw as (Hwm & _). rewrite Hm in Hwm. injection Hwm as Hwm.
    eapply seat_intact_guarded; [apply lookup_insert_eq|done|].
    eapply run_market_ix_guarded; [done| |rewrite <- Hwm|exact Hw'].
    + intros Hact. destruct (load_market_ix_signs h _ r _ (signers_of_signed _) _ Hl) as [Hs _].
      apply Hs, signers_of_metas in Hact as (x & Hx & Hxs & Hxk). by apply (Hsign x).
    + split; [|done]. by exists n.
  - apply bind_Ok in Hrun as ([[i od] rest] & _ & Hrun).
    apply bind_Ok in Hrun as (g & _ & Hrun). apply bind_Ok in Hrun as (v & _ & [= <-]).
    by apply (seat_intact_same s).
  - apply bind_Ok in Hrun as ([[i g] rest] & _ & Hrun). apply bind_Ok in Hrun as (g' & _ & [= <-]).
    by apply (seat_intact_same s).
  - apply bind_Ok in Hrun as ([[[[[payer g] keys] dm] cm] rest] & Hl & Hrun).
    destruct (loads_chain h s _ _ _ _ _ _ (load_create_market_fresh h s) Hl) as [_ Hn].
    apply bind_Ok in Hrun as (m & _ & [= <-]). apply (seat_intact_same s); [done|].
    apply lookup_insert_ne. intros <-. by destruct Hseat as (m' & ? & Hm & _); simplify_eq.
  - apply bind_Ok in Hrun as ([[g k] rest] & _ & Hrun). apply bind_Ok in Hrun as (v & _ & [= <-]).
    by apply (seat_intact_same s).
  - apply bind_Ok in Hrun as ([[[payer config] data] rest] & _ & Hrun).
    apply bind_Ok in Hrun as (d & _ & Hrun). apply bind_Ok in Hrun as (g & _ & [= <-]).
    by apply (seat_intact_same s).
Qed.

(** Owner 500 has 1000 collateral shares; 77 claims a seat next to it, in a block that
    becomes its child in the tree. *)
Definition funded_chain : System :=
  mkSystem (Some (global_config_new_empty 9)) {[7 := sample_funded_market]} ∅ ∅.
Definition funded_seat : ClaimedSeat :=
  claimed_seat_new_empty 500 0 0 <| cs_collateral_withdrawable_shares := 1000 |>.

Lemma funds_need_signature_witness :
  match execute sample_host (λ _ _, Err Panic) (λ _ _, Err Panic) (λ _, None) funded_chain
          sample_outside 1700000000 sample_metas (OnMarket RqClaimSeat) with
  | Ok s' => seat_intact s' 7 0 funded_seat
  | Err _ => False
  end.
Proof.
  destruct (execute _ _ _ _ _ _ _ _ _) as [s'|] eqn:E; [|vm_compute in E; discriminate E].
  apply (funds_need_signature sample_host (λ _ _, Err Panic) (λ _ _, Err Panic) (λ _, None)
    funded_chain s' sample_outside 1700000000 sample_metas (OnMarket RqClaimSeat));
    [| |apply claim_seat_request_honest|exact E].
  - exists sample_funded_market, (new_node Black funded_seat).
    split; [vm_compute; reflexivity|]. split; [vm_compute; reflexivity|].
    split; [reflexivity|]. split; [reflexivity|]. split; [discriminate|vm_compute; reflexivity].
  - apply (proj1 (Forall_forall (λ x, am_is_signer x = true → am_key x ≠ cs_owner funded_seat) _)).
    repeat constructor; vm_compute; discriminate.
Defined.
