(* ===== verification/Wire.v ===== *)
(** * The data of an instruction ([lib.rs], the [Params] structs of [program/processor/])

    The sender of a transaction hands the program a list of accounts and a string of bytes:
    a tag, and the parameters of the tagged instruction as borsh writes them.  This file
    takes them apart: [process_instruction] is the entry point, from the raw bytes to the
    new state of the chain.

    The borsh library is not part of the repository.  What it provides is [Borsh], what is
    documented of it [BorshLaws]; a struct is written field by field, in the order of its
    declaration. *)
From stdpp Require Import base numbers list option gmap.
From S2P Require Import Prelude FixedPoint Loan Marginfi Oracles Hypertree SubVault.
From S2P Require Import Market VaultTrees Matching UserAccount Runtime LoanClose Repay.
From S2P Require Import Keeper Promotion Deposits Claims Convert Admin Orders Program.
From S2P Require Import Accounts Loaders Execute.
Local Open Scope Z_scope.

(** ** Codecs *)

(** A type as it is written and read; reading leaves the bytes behind it. *)
Record Codec (A : Type) := mkCodec {
  put : A → list Z;
  get : list Z → option (A * list Z) }.
Arguments mkCodec {A}.
Arguments put {A}.
Arguments get {A}.

(** The values of a codec are read back, and the bytes that read as a value are the ones
    it is written with: an encoding is canonical. *)
Class Lawful {A} (c : Codec A) (valid : A → Prop) := {
  get_put a rest : valid a → get c (put c a ++ rest) = Some (a, rest);
  put_get bytes a rest : get c bytes = Some (a, rest) → valid a ∧ bytes = put c a ++ rest }.
#[export] Hint Mode Lawful ! ! - : typeclass_instances.

(** Two fields, one after the other. *)
Definition fields {A B} (c : Codec A) (d : Codec B) : Codec (A * B) :=
  mkCodec (λ '(a, b), put c a ++ put d b)
    (λ bytes, '(a, bytes) ← get c bytes; '(b, bytes) ← get d bytes; mret (a, b, bytes)).
(** A struct, given by the tuple of its fields. *)
Definition struct_codec {A B} (build : A → B) (open : B → A) (c : Codec A) : Codec B :=
  mkCodec (put c ∘ open) (λ bytes, '(a, bytes) ← get c bytes; mret (build a, bytes)).

Infix "⊗" := fields (at level 45, right associativity) : ydelta_scope.
Local Open Scope ydelta_scope.

(** What borsh provides for the primitive types, the option and the public key. *)
Record Borsh := mkBorsh {
  borsh_u8 : Codec Z;
  borsh_u16 : Codec Z;
  borsh_u32 : Codec Z;
  borsh_u64 : Codec Z;
  borsh_u128 : Codec Z;
  borsh_i64 : Codec Z;
  borsh_bool : Codec bool;
  borsh_option : ∀ A, Codec A → Codec (option A);
  borsh_pubkey : Codec Pubkey }.
Arguments borsh_option b {A}.

Definition valid_option {A} (valid : A → Prop) (o : option A) : Prop := from_option valid True o.

(** The borsh specification: fixed-width integers, one byte of a [bool], one byte before
    the value of an [Option], and no two encodings of a value. *)
Class BorshLaws (b : Borsh) := {
  #[export] lawful_u8 :: Lawful (borsh_u8 b) (in_u U8);
  #[export] lawful_u16 :: Lawful (borsh_u16 b) (in_u U16);
  #[export] lawful_u32 :: Lawful (borsh_u32 b) (in_u U32);
  #[export] lawful_u64 :: Lawful (borsh_u64 b) (in_u U64);
  #[export] lawful_u128 :: Lawful (borsh_u128 b) (in_u U128);
  #[export] lawful_i64 :: Lawful (borsh_i64 b) (in_i 64);
  #[export] lawful_bool :: Lawful (borsh_bool b) (λ _, True);
  #[export] lawful_option {A} (c : Codec A) valid :: Lawful c valid →
    Lawful (borsh_option b c) (valid_option valid);
  option_put {A} (c : Codec A) o : put (borsh_option b c) o =
    match o with Some a => 1 :: put c a | None => [0] end;
  #[export] lawful_pubkey :: Lawful (borsh_pubkey b) (in_u 256) }.

(** [BorshDeserialize::try_from_slice]: all bytes are read. *)
Definition try_from_slice {A} (c : Codec A) (data : list Z) : result A :=
  match get c data with
  | Some (a, []) => Ok a
  | _ => Err BorshIoError
  end.

(** ** The parameters *)

Section Params.
  Variable b : Borsh.

Abbreviation u8 := (borsh_u8 b).
Abbreviation u16 := (borsh_u16 b).
Abbreviation u32 := (borsh_u32 b).
Abbreviation u64 := (borsh_u64 b).
Abbreviation u128 := (borsh_u128 b).
Abbreviation i64 := (borsh_i64 b).
Abbreviation opt := (borsh_option b).
Abbreviation pubkey := (borsh_pubkey b).

(** A [DataIndex] hint. *)
Abbreviation hint := (opt u32).

Definition deposit_params : Codec (Z * option Z) := u64 ⊗ hint.
Definition withdraw_params : Codec (Z * (option Z * bool)) := u64 ⊗ hint ⊗ borsh_bool b.
Definition cancel_order_params : Codec (Z * option Z) := u64 ⊗ hint.
Definition process_matched_loan_params : Codec (Z * option Z) := u64 ⊗ hint.
Definition convert_p2pool_to_fixed_params : Codec (Z * Z) := u16 ⊗ u16.
Definition place_order_for_sub_vault_params : Codec (Z * Z) := u16 ⊗ u8.
Definition update_order_for_sub_vault_params : Codec (Z * Z) := u16 ⊗ u8.
Definition cancel_order_for_sub_vault_params : Codec Z := u16.
Definition admin_cancel_sub_vault_order_params : Codec Z := u16.
Definition match_crank_params : Codec Z := u32.
Definition claim_repayment_for_sub_vault_params : Codec Z := u16.
Definition transfer_market_admin_params : Codec Pubkey := pubkey.
Definition set_market_pause_params : Codec Z := u8.
Definition create_pool_sub_vault_params : Codec (Pubkey * (Z * (Z * (Z * (Z * Z))))) :=
  pubkey ⊗ u16 ⊗ u16 ⊗ u16 ⊗ u32 ⊗ u16.
Definition create_private_sub_vault_params : Codec (Z * (Z * (Z * Z))) := u16 ⊗ u16 ⊗ u16 ⊗ u32.
Definition sunset_sub_vault_params : Codec Z := u16.
Definition resume_sub_vault_params : Codec Z := u16.
Definition remove_sub_vault_params : Codec Z := u16.
Definition global_vault_deposit_params : Codec (Z * Z) := u64 ⊗ u16.
Definition global_vault_withdraw_params : Codec (Z * Z) := u128 ⊗ u16.
Definition claim_curator_fee_params : Codec Z := u16.
Definition transfer_global_vault_admin_params : Codec Pubkey := pubkey.
Definition transfer_curator_params : Codec (Z * Pubkey) := u16 ⊗ pubkey.
Definition accept_curator_params : Codec Z := u16.
Definition set_vault_pause_params : Codec Z := u8.
Definition transfer_protocol_admin_params : Codec Pubkey := pubkey.
Definition set_global_pause_params : Codec Z := u8.

Definition repay_params : Codec RepayParams :=
  struct_codec (λ '(atoms, (full, hint)), mkRepayParams atoms full hint)
    (λ p, (rp_repay_atoms p, (rp_full_repay p, rp_borrower_seat_index_hint p)))
    (u64 ⊗ borsh_bool b ⊗ hint).

Definition place_order_params : Codec PlaceOrderParams :=
  struct_codec
    (λ '(seat, (mode, (ts, (rate, (term, (principal, (collateral, buffer))))))),
       mkPlaceOrderParams seat mode ts rate term principal collateral buffer)
    (λ p, (pp_seat_index_hint p, (pp_residual_mode p, (pp_last_valid_unix_ts p, (pp_rate_bps p,
             (pp_term_seconds p, (pp_principal_atoms p, (pp_collateral_atoms p,
              pp_ltv_buffer_bps p))))))))
    (hint ⊗ u8 ⊗ i64 ⊗ u16 ⊗ u32 ⊗ u64 ⊗ u64 ⊗ u16).

Definition update_order_params : Codec UpdateOrderParams :=
  struct_codec (λ '(sequence, (seat, (rate, (term, (ts, buffer))))),
            mkUpdateOrderParams sequence seat rate term ts buffer)
    (λ p, (uo_order_sequence p, (uo_seat_index_hint p, (uo_new_rate_bps p, (uo_new_term_seconds p,
             (uo_new_last_valid_unix_ts p, uo_new_ltv_buffer_bps p))))))
    (u64 ⊗ hint ⊗ u16 ⊗ u32 ⊗ i64 ⊗ u16).

(** Also the layout of [CreateMarketParams], which is turned into it. *)
Definition set_fee_config_params : Codec SetFeeConfigParams :=
  struct_codec (λ '(floor, (origination, (curator, (keeper, (protocol, grace))))),
            mkSetFeeConfigParams floor origination curator keeper protocol grace)
    (λ p, (fp_protocol_fee_bps_floor p, (fp_origination_bps p, (fp_curator_split_bps p,
             (fp_liquidation_keeper_bps p, (fp_liquidation_protocol_bps p,
              fp_grace_period_seconds p))))))
    (opt u16 ⊗ opt u16 ⊗ opt u16 ⊗ opt u16 ⊗ opt u16 ⊗ opt u32).

Definition update_sub_vault_params : Codec (Z * UpdateSubVaultParams) :=
  struct_codec (λ '(id, (max_ltv, (liq_ltv, (term, spread)))),
            (id, mkUpdateSubVaultParams max_ltv liq_ltv term spread))
    (λ '(id, p), (id, (up_new_max_ltv_bps p, (up_new_liquidation_ltv_bps p,
                    (up_new_max_term_seconds p, up_new_spread_bps p)))))
    (u16 ⊗ opt u16 ⊗ opt u16 ⊗ opt u32 ⊗ opt u16).

(** ** The request in the data *)

(** [CreateMarketParams::default]. *)
Definition default_fee_params : SetFeeConfigParams := mkSetFeeConfigParams None None None None None None.

(** The head of each handler: how it reads its data.  The handlers of a settlement and of a
    liquidation take the bytes as they are. *)
Definition parse_request (i : YdeltaInstruction) (data : list Z) : result Request :=
  match i with
  | CreateMarket =>
      p ← (if bool_decide (data = []) then Ok default_fee_params
           else try_from_slice set_fee_config_params data);
      mret (CreateMarketRequest p)
  | ClaimSeat => mret (OnMarket RqClaimSeat)
  | Deposit =>
      '(amount, hint) ← try_from_slice deposit_params data; mret (OnMarket (RqDeposit amount hint))
  | Withdraw =>
      '(amount, (hint, all)) ← try_from_slice withdraw_params data;
      mret (OnMarket (RqWithdraw amount hint all))
  | PlaceOrder => p ← try_from_slice place_order_params data; mret (OnMarket (RqPlaceOrder p))
  | ProcessMatchedLoan =>
      '(sequence, hint) ← try_from_slice process_matched_loan_params data;
      mret (OnMarket (RqProcessMatchedLoan sequence hint))
  | Repay => p ← try_from_slice repay_params data; mret (OnMarket (RqRepay p))
  | SyncMarketPosition => mret (OnMarket RqSyncMarketPosition)
  | CreateVault => mret CreateVaultRequest
  | CreatePoolSubVault =>
      '(curator, (spread, (max_ltv, (liq_ltv, (term, fee))))) ←
        try_from_slice create_pool_sub_vault_params data;
      mret (OnVault (RqCreatePoolSubVault curator spread max_ltv liq_ltv term fee))
  | GlobalVaultDeposit =>
      '(amount, id) ← try_from_slice global_vault_deposit_params data;
      mret (OnVault (RqGlobalVaultDeposit amount id))
  | GlobalVaultWithdraw =>
      '(shares, id) ← try_from_slice global_vault_withdraw_params data;
      mret (OnVault (RqGlobalVaultWithdraw shares id))
  | PlaceOrderForSubVault =>
      '(id, flags) ← try_from_slice place_order_for_sub_vault_params data;
      mret (OnMarket (RqPlaceOrderForSubVault id flags))
  | CancelOrderForSubVault =>
      id ← try_from_slice cancel_order_for_sub_vault_params data;
      mret (OnMarket (RqCancelOrderForSubVault id))
  | UpdateOrderForSubVault =>
      '(id, flags) ← try_from_slice update_order_for_sub_vault_params data;
      mret (OnMarket (RqUpdateOrderForSubVault id flags))
  | ClaimCuratorFee =>
      id ← try_from_slice claim_curator_fee_params data; mret (OnVault (RqClaimCuratorFee id))
  | SettleMaturedLoan => mret (OnMarket (RqSettleMaturedLoan data))
  | LiquidateLoan => mret (OnMarket (RqLiquidateLoan data))
  | SetFeeConfig => p ← try_from_slice set_fee_config_params data; mret (OnMarket (RqSetFeeConfig p))
  | ProtocolFeeClaim => mret (OnMarket RqProtocolFeeClaim)
  | ClaimRepaymentForSubVault =>
      id ← try_from_slice claim_repayment_for_sub_vault_params data;
      mret (OnMarket (RqClaimRepaymentForSubVault id))
  | TransferMarketAdmin =>
      k ← try_from_slice transfer_market_admin_params data; mret (OnMarket (RqTransferMarketAdmin k))
  | AcceptMarketAdmin => mret (OnMarket RqAcceptMarketAdmin)
  | TransferGlobalVaultAdmin =>
      k ← try_from_slice transfer_global_vault_admin_params data;
      mret (OnVault (RqTransferGlobalVaultAdmin k))
  | AcceptGlobalVaultAdmin => mret (OnVault RqAcceptGlobalVaultAdmin)
  | TransferCurator =>
      '(id, k) ← try_from_slice transfer_curator_params data; mret (OnVault (RqTransferCurator id k))
  | AcceptCurator =>
      id ← try_from_slice accept_curator_params data; mret (OnVault (RqAcceptCurator id))
  | SetMarketPause =>
      n ← try_from_slice set_market_pause_params data; mret (OnMarket (RqSetMarketPause n))
  | CreateGlobalConfig => mret CreateGlobalConfigRequest
  | TransferProtocolAdmin =>
      k ← try_from_slice transfer_protocol_admin_params data;
      mret (OnConfig (RqTransferProtocolAdmin k))
  | AcceptProtocolAdmin => mret (OnConfig RqAcceptProtocolAdmin)
  | SetGlobalPause =>
      n ← try_from_slice set_global_pause_params data; mret (OnConfig (RqSetGlobalPause n))
  | UpdateSubVault =>
      '(id, p) ← try_from_slice update_sub_vault_params data; mret (OnVault (RqUpdateSubVault id p))
  | ConvertP2PoolToFixed =>
      '(rate, buffer) ← try_from_slice convert_p2pool_to_fixed_params data;
      mret (OnMarket (RqConvertP2PoolToFixed rate buffer))
  | CheckLtvLiquidatable => mret (OnMarket RqCheckLtvLiquidatable)
  | CheckMaturityLiquidatable => mret (OnMarket RqCheckMaturityLiquidatable)
  | SetVaultPause =>
      n ← try_from_slice set_vault_pause_params data; mret (OnVault (RqSetVaultPause n))
  | RemoveSubVault =>
      id ← try_from_slice remove_sub_vault_params data; mret (OnVault (RqRemoveSubVault id))
  | SunsetSubVault =>
      id ← try_from_slice sunset_sub_vault_params data; mret (OnVault (RqSunsetSubVault id))
  | ResumeSubVault =>
      id ← try_from_slice resume_sub_vault_params data; mret (OnVault (RqResumeSubVault id))
  | AdminCancelSubVaultOrder =>
      id ← try_from_slice admin_cancel_sub_vault_order_params data;
      mret (OnMarket (RqAdminCancelSubVaultOrder id))
  | CreatePrivateSubVault =>
      '(spread, (max_ltv, (liq_ltv, term))) ← try_from_slice create_private_sub_vault_params data;
      mret (OnVault (RqCreatePrivateSubVault spread max_ltv liq_ltv term))
  | CancelOrder =>
      '(sequence, hint) ← try_from_slice cancel_order_params data;
      mret (OnMarket (RqCancelOrder sequence hint))
  | MatchCrank => n ← try_from_slice match_crank_params data; mret (OnMarket (RqMatchCrank n))
  | UpdateOrder => p ← try_from_slice update_order_params data; mret (OnMarket (RqUpdateOrder p))
  end.

(** ** The entry point *)

Variable h : Host.
Variable invoke_signed : MarginfiIx → list AccountInfo → result (list AccountInfo).
Variable invoke_token : TokenIx → list AccountInfo → result (list AccountInfo).
Variable parse_stake_state : list Z → option StakeState.

Definition process_instruction (s : System) (o : Outside) (now : Z) (program_id : Pubkey)
    (metas : list AccountMeta) (instruction_data : list Z) : result System :=
  '(i, data) ← decode_instruction program_id YDELTA_ID instruction_data;
  r ← parse_request i data;
  execute h invoke_signed invoke_token parse_stake_state s o now metas r.
End Params.
