(* ===== verification/WireSpec.v ===== *)
(** * What the data of an instruction promises

    An instruction's parameters are read back as they were written, in one way only; and
    [process_instruction], from the raw bytes on, is a step of [Program].  The laws of borsh
    are those of a concrete implementation, [le_borsh], which the examples run. *)
From stdpp Require Import base numbers list option gmap.
From S2P Require Import Prelude FixedPoint Loan Marginfi Oracles Hypertree SubVault.
From S2P Require Import Market VaultTrees Matching UserAccount Runtime LoanClose Repay.
From S2P Require Import Keeper Promotion Deposits Claims Convert Admin Orders Program.
From S2P Require Import Accounts Loaders Execute Wire MarketSpec SystemSpec ProgramSpec ExecuteSpec.
Local Open Scope Z_scope.
Local Open Scope ydelta_scope.

(** ** Composed codecs are lawful *)

Section codecs.
Context {A B : Type}.

#[export] Instance fields_lawful (c : Codec A) (d : Codec B) va vb :
  Lawful c va → Lawful d vb → Lawful (c ⊗ d) (λ p, va (fst p) ∧ vb (snd p)).
Proof.
  intros Hc Hd. split.
  - intros [x y] rest [Hx Hy]. simpl. rewrite <- app_assoc, get_put by done. simpl.
    by rewrite get_put.
  - intros bytes [x y] rest. simpl. destruct (get c bytes) as [[x' r]|] eqn:E; simpl; [|done].
    destruct (get d r) as [[y' r']|] eqn:E'; simpl; [|done]. intros [= -> -> ->].
    destruct (put_get _ _ _ E) as [? ->], (put_get _ _ _ E') as [? ->].
    by rewrite app_assoc.
Qed.

Lemma struct_lawful (build : A → B) (open : B → A) (c : Codec A) va : Lawful c va →
  (∀ x, open (build x) = x) → (∀ y, build (open y) = y) →
  Lawful (struct_codec build open c) (λ y, va (open y)).
Proof.
  intros Hc Hopen Hbuild. split.
  - intros y rest Hy. simpl. rewrite get_put by done. simpl. by rewrite Hbuild.
  - intros bytes y rest. simpl. destruct (get c bytes) as [[x' r]|] eqn:E; simpl; [|done].
    intros [= <- ->]. destruct (put_get _ _ _ E) as [? ->]. by rewrite Hopen.
Qed.

Lemma try_from_slice_put (c : Codec A) va {Hc : Lawful c va} a :
  va a → try_from_slice c (put c a) = Ok a.
Proof.
  intros Ha. unfold try_from_slice. rewrite <- (app_nil_r (put c a)). by rewrite get_put.
Qed.

Lemma try_from_slice_Ok (c : Codec A) va {Hc : Lawful c va} data a : try_from_slice c data = Ok a →
  va a ∧ data = put c a.
Proof.
  unfold try_from_slice. destruct (get c data) as [[x [|]]|] eqn:E; try done.
  intros [= ->]. destruct (put_get _ _ _ E) as [? ->]. by rewrite app_nil_r.
Qed.

Lemma try_from_slice_Err (c : Codec A) data e : try_from_slice c data = Err e → e = BorshIoError.
Proof. unfold try_from_slice. destruct (get c data) as [[x [|]]|]; congruence. Qed.
End codecs.

Section Params.
Context (b : Borsh) {Hb : BorshLaws b}.

#[export] Instance repay_params_lawful : Lawful (repay_params b) _ :=
  struct_lawful _ _ _ _ _ (λ '(_, (_, _)), eq_refl) (λ p, let 'mkRepayParams _ _ _ := p in eq_refl).
#[export] Instance place_order_params_lawful : Lawful (place_order_params b) _ :=
  struct_lawful _ _ _ _ _ (λ '(_, (_, (_, (_, (_, (_, (_, _))))))), eq_refl)
    (λ p, let 'mkPlaceOrderParams _ _ _ _ _ _ _ _ := p in eq_refl).
#[export] Instance update_order_params_lawful : Lawful (update_order_params b) _ :=
  struct_lawful _ _ _ _ _ (λ '(_, (_, (_, (_, (_, _))))), eq_refl)
    (λ p, let 'mkUpdateOrderParams _ _ _ _ _ _ := p in eq_refl).
#[export] Instance set_fee_config_params_lawful : Lawful (set_fee_config_params b) _ :=
  struct_lawful _ _ _ _ _ (λ '(_, (_, (_, (_, (_, _))))), eq_refl)
    (λ p, let 'mkSetFeeConfigParams _ _ _ _ _ _ := p in eq_refl).
#[export] Instance update_sub_vault_params_lawful : Lawful (update_sub_vault_params b) _ :=
  struct_lawful _ _ _ _ _ (λ '(_, (_, (_, (_, _)))), eq_refl)
    (λ '(_, mkUpdateSubVaultParams _ _ _ _), eq_refl).
End Params.

(** ** What is written for a request *)

Definition request_tag (r : Request) : YdeltaInstruction :=
  match r with
  | OnMarket r =>
      match r with
      | RqClaimSeat => ClaimSeat | RqDeposit _ _ => Deposit | RqWithdraw _ _ _ => Withdraw
      | RqPlaceOrder _ => PlaceOrder | RqCancelOrder _ _ => CancelOrder
      | RqUpdateOrder _ => UpdateOrder | RqSyncMarketPosition => SyncMarketPosition
      | RqProcessMatchedLoan _ _ => ProcessMatchedLoan | RqRepay _ => Repay
      | RqSettleMaturedLoan _ => SettleMaturedLoan | RqLiquidateLoan _ => LiquidateLoan
      | RqCheckLtvLiquidatable => CheckLtvLiquidatable
      | RqCheckMaturityLiquidatable => CheckMaturityLiquidatable
      | RqConvertP2PoolToFixed _ _ => ConvertP2PoolToFixed
      | RqPlaceOrderForSubVault _ _ => PlaceOrderForSubVault
      | RqUpdateOrderForSubVault _ _ => UpdateOrderForSubVault
      | RqCancelOrderForSubVault _ => CancelOrderForSubVault
      | RqAdminCancelSubVaultOrder _ => AdminCancelSubVaultOrder
      | RqMatchCrank _ => MatchCrank
      | RqClaimRepaymentForSubVault _ => ClaimRepaymentForSubVault
      | RqProtocolFeeClaim => ProtocolFeeClaim | RqSetFeeConfig _ => SetFeeConfig
      | RqTransferMarketAdmin _ => TransferMarketAdmin | RqAcceptMarketAdmin => AcceptMarketAdmin
      | RqSetMarketPause _ => SetMarketPause
      end
  | OnVault r =>
      match r with
      | RqCreatePoolSubVault _ _ _ _ _ _ => CreatePoolSubVault
      | RqCreatePrivateSubVault _ _ _ _ => CreatePrivateSubVault
      | RqUpdateSubVault _ _ => UpdateSubVault | RqSunsetSubVault _ => SunsetSubVault
      | RqResumeSubVault _ => ResumeSubVault | RqRemoveSubVault _ => RemoveSubVault
      | RqGlobalVaultDeposit _ _ => GlobalVaultDeposit
      | RqGlobalVaultWithdraw _ _ => GlobalVaultWithdraw | RqClaimCuratorFee _ => ClaimCuratorFee
      | RqTransferGlobalVaultAdmin _ => TransferGlobalVaultAdmin
      | RqAcceptGlobalVaultAdmin => AcceptGlobalVaultAdmin
      | RqTransferCurator _ _ => TransferCurator | RqAcceptCurator _ => AcceptCurator
      | RqSetVaultPause _ => SetVaultPause
      end
  | OnConfig r =>
      match r with
      | RqTransferProtocolAdmin _ => TransferProtocolAdmin
      | RqAcceptProtocolAdmin => AcceptProtocolAdmin | RqSetGlobalPause _ => SetGlobalPause
      end
  | CreateMarketRequest _ => CreateMarket
  | CreateVaultRequest => CreateVault
  | CreateGlobalConfigRequest => CreateGlobalConfig
  end.

Definition request_params (b : Borsh) (r : Request) : list Z :=
  match r with
  | OnMarket r =>
      match r with
      | RqDeposit amount hint => put (deposit_params b) (amount, hint)
      | RqWithdraw amount hint all => put (withdraw_params b) (amount, (hint, all))
      | RqPlaceOrder p => put (place_order_params b) p
      | RqCancelOrder sequence hint => put (cancel_order_params b) (sequence, hint)
      | RqUpdateOrder p => put (update_order_params b) p
      | RqProcessMatchedLoan sequence hint => put (process_matched_loan_params b) (sequence, hint)
      | RqRepay p => put (repay_params b) p
      | RqSettleMaturedLoan data | RqLiquidateLoan data => data
      | RqConvertP2PoolToFixed rate buffer => put (convert_p2pool_to_fixed_params b) (rate, buffer)
      | RqPlaceOrderForSubVault id flags => put (place_order_for_sub_vault_params b) (id, flags)
      | RqUpdateOrderForSubVault id flags => put (update_order_for_sub_vault_params b) (id, flags)
      | RqCancelOrderForSubVault id => put (cancel_order_for_sub_vault_params b) id
      | RqAdminCancelSubVaultOrder id => put (admin_cancel_sub_vault_order_params b) id
      | RqMatchCrank max_fills => put (match_crank_params b) max_fills
      | RqClaimRepaymentForSubVault id => put (claim_repayment_for_sub_vault_params b) id
      | RqSetFeeConfig p => put (set_fee_config_params b) p
      | RqTransferMarketAdmin k => put (transfer_market_admin_params b) k
      | RqSetMarketPause n => put (set_market_pause_params b) n
      | _ => []
      end
  | OnVault r =>
      match r with
      | RqCreatePoolSubVault curator spread max_ltv liq_ltv term fee =>
          put (create_pool_sub_vault_params b) (curator, (spread, (max_ltv, (liq_ltv, (term, fee)))))
      | RqCreatePrivateSubVault spread max_ltv liq_ltv term =>
          put (create_private_sub_vault_params b) (spread, (max_ltv, (liq_ltv, term)))
      | RqUpdateSubVault id p => put (update_sub_vault_params b) (id, p)
      | RqSunsetSubVault id => put (sunset_sub_vault_params b) id
      | RqResumeSubVault id => put (resume_sub_vault_params b) id
      | RqRemoveSubVault id => put (remove_sub_vault_params b) id
      | RqGlobalVaultDeposit amount id => put (global_vault_deposit_params b) (amount, id)
      | RqGlobalVaultWithdraw shares id => put (global_vault_withdraw_params b) (shares, id)
      | RqClaimCuratorFee id => put (claim_curator_fee_params b) id
      | RqTransferGlobalVaultAdmin k => put (transfer_global_vault_admin_params b) k
      | RqTransferCurator id k => put (transfer_curator_params b) (id, k)
      | RqAcceptCurator id => put (accept_curator_params b) id
      | RqSetVaultPause n => put (set_vault_pause_params b) n
      | _ => []
      end
  | OnConfig r =>
      match r with
      | RqTransferProtocolAdmin k => put (transfer_protocol_admin_params b) k
      | RqSetGlobalPause n => put (set_global_pause_params b) n
      | _ => []
      end
  | CreateMarketRequest p => put (set_fee_config_params b) p
  | _ => []
  end.

Definition request_data (b : Borsh) (r : Request) : list Z :=
  YdeltaInstruction_as_u8 (request_tag r) :: request_params b r.

(** The parameters are in the range of their types. *)
Definition valid_hint : option Z → Prop := valid_option (in_u U32).
Definition valid_bps : option Z → Prop := valid_option (in_u U16).
Definition valid_fee_params (p : SetFeeConfigParams) : Prop :=
  valid_bps (fp_protocol_fee_bps_floor p) ∧ valid_bps (fp_origination_bps p)
  ∧ valid_bps (fp_curator_split_bps p) ∧ valid_bps (fp_liquidation_keeper_bps p)
  ∧ valid_bps (fp_liquidation_protocol_bps p) ∧ valid_hint (fp_grace_period_seconds p).

Definition valid_market_request (r : MarketRequest) : Prop :=
  match r with
  | RqDeposit n hint | RqCancelOrder n hint | RqProcessMatchedLoan n hint | RqWithdraw n hint _ =>
      in_u U64 n ∧ valid_hint hint
  | RqPlaceOrder p =>
      valid_hint (pp_seat_index_hint p) ∧ in_u U8 (pp_residual_mode p)
      ∧ in_i 64 (pp_last_valid_unix_ts p) ∧ in_u U16 (pp_rate_bps p) ∧ in_u U32 (pp_term_seconds p)
      ∧ in_u U64 (pp_principal_atoms p) ∧ in_u U64 (pp_collateral_atoms p)
      ∧ in_u U16 (pp_ltv_buffer_bps p)
  | RqUpdateOrder p =>
      in_u U64 (uo_order_sequence p) ∧ valid_hint (uo_seat_index_hint p)
      ∧ in_u U16 (uo_new_rate_bps p) ∧ in_u U32 (uo_new_term_seconds p)
      ∧ in_i 64 (uo_new_last_valid_unix_ts p) ∧ in_u U16 (uo_new_ltv_buffer_bps p)
  | RqRepay p => in_u U64 (rp_repay_atoms p) ∧ valid_hint (rp_borrower_seat_index_hint p)
  | RqConvertP2PoolToFixed rate buffer => in_u U16 rate ∧ in_u U16 buffer
  | RqPlaceOrderForSubVault id flags | RqUpdateOrderForSubVault id flags =>
      in_u U16 id ∧ in_u U8 flags
  | RqCancelOrderForSubVault id | RqAdminCancelSubVaultOrder id | RqClaimRepaymentForSubVault id =>
      in_u U16 id
  | RqMatchCrank n => in_u U32 n
  | RqSetFeeConfig p => valid_fee_params p
  | RqTransferMarketAdmin k => in_u 256 k
  | RqSetMarketPause n => in_u U8 n
  | _ => True
  end.

Definition valid_vault_request (r : VaultRequest) : Prop :=
  match r with
  | RqCreatePoolSubVault curator spread max_ltv liq_ltv term fee =>
      in_u 256 curator ∧ in_u U16 spread ∧ in_u U16 max_ltv ∧ in_u U16 liq_ltv ∧ in_u U32 term
      ∧ in_u U16 fee
  | RqCreatePrivateSubVault spread max_ltv liq_ltv term =>
      in_u U16 spread ∧ in_u U16 max_ltv ∧ in_u U16 liq_ltv ∧ in_u U32 term
  | RqUpdateSubVault id p =>
      in_u U16 id ∧ valid_bps (up_new_max_ltv_bps p) ∧ valid_bps (up_new_liquidation_ltv_bps p)
      ∧ valid_hint (up_new_max_term_seconds p) ∧ valid_bps (up_new_spread_bps p)
  | RqSunsetSubVault id | RqResumeSubVault id | RqRemoveSubVault id | RqClaimCuratorFee id
  | RqAcceptCurator id => in_u U16 id
  | RqGlobalVaultDeposit amount id => in_u U64 amount ∧ in_u U16 id
  | RqGlobalVaultWithdraw shares id => in_u U128 shares ∧ in_u U16 id
  | RqTransferGlobalVaultAdmin k => in_u 256 k
  | RqTransferCurator id k => in_u U16 id ∧ in_u 256 k
  | RqSetVaultPause n => in_u U8 n
  | RqAcceptGlobalVaultAdmin => True
  end.

Definition valid_request (r : Request) : Prop :=
  match r with
  | OnMarket r => valid_market_request r
  | OnVault r => valid_vault_request r
  | OnConfig (RqTransferProtocolAdmin k) => in_u 256 k
  | OnConfig (RqSetGlobalPause n) => in_u U8 n
  | CreateMarketRequest p => valid_fee_params p
  | _ => True
  end.

(** The handlers that do not look at their data. *)
Definition ignores_data (i : YdeltaInstruction) : bool :=
  match i with
  | ClaimSeat | SyncMarketPosition | CreateVault | ProtocolFeeClaim | AcceptMarketAdmin
  | AcceptGlobalVaultAdmin | CreateGlobalConfig | AcceptProtocolAdmin | CheckLtvLiquidatable
  | CheckMaturityLiquidatable => true
  | _ => false
  end.

(** ** Reading and writing *)

Section requests.
Context (b : Borsh) {Hb : BorshLaws b}.

(** The parameters of every request are written by a lawful codec. *)
Ltac rewrite_put :=
  match goal with
  | |- context [try_from_slice ?c (put ?c ?a)] =>
      rewrite (try_from_slice_put c _ a) by (simpl; split_and?; assumption || exact I)
  end.

Lemma fee_params_nonempty p : put (set_fee_config_params b) p ≠ [].
Proof. simpl. rewrite option_put. by destruct (fp_protocol_fee_bps_floor p). Qed.

Lemma parse_written r : valid_request r → parse_request b (request_tag r) (request_params b r) = Ok r.
Proof.
  intros Hr. destruct r as [r|r|r|p| |]; [destruct r..| | |]; simpl in Hr; unfold valid_fee_params in Hr;
    destruct_and?; unfold request_tag, request_params, parse_request; try reflexivity; try (rewrite_put; try done).
  all: try by destruct p.
  by rewrite bool_decide_eq_false_2 by apply fee_params_nonempty.
Qed.

(** What a handler reads, and what it can have been written for. *)
Definition written_for (i : YdeltaInstruction) (data : list Z) (r : Request) : Prop :=
  request_tag r = i ∧ valid_request r ∧
  (ignores_data i = true ∨ data = request_params b r
   ∨ data = [] ∧ r = CreateMarketRequest default_fee_params).

Ltac invert_read H :=
  let a := fresh "a" in let Ha := fresh in let Hd := fresh "Hd" in
  apply bind_Ok in H as (a & Ha & H);
  match type of Ha with try_from_slice ?c _ = _ => apply (try_from_slice_Ok c _) in Ha as [Ha Hd] end;
  repeat match goal with x : _ * _ |- _ => destruct x end;
  injection H as <-; simpl in Ha; destruct_and?.

Lemma parse_Ok i data r : parse_request b i data = Ok r → written_for i data r.
Proof.
  destruct i; intros H; unfold parse_request in H; try (injection H as <-; split_and!; simpl; by auto).
  all: try (invert_read H; split_and!; simpl; unfold valid_fee_params; split_and?; by auto).
  case_bool_decide as He; simpl in H; [|invert_read H; split_and!; simpl; split_and?; by auto].
  injection H as <-. split_and!; simpl; [done|by split_and!|auto].
Qed.

Lemma parse_Err i data e : parse_request b i data = Err e → e = BorshIoError.
Proof.
  destruct i; simpl; try discriminate; intros H; apply bind_Err in H as [H|(a & _ & H)].
  all: try (exact (try_from_slice_Err _ _ _ H)).
  all: try (repeat match goal with x : _ * _ |- _ => destruct x end; discriminate H).
  case_bool_decide; [discriminate H|exact (try_from_slice_Err _ _ _ H)].
Qed.
End requests.

(** ** The entry point *)

Section entry.
Context (b : Borsh) {Hb : BorshLaws b} (h : Host).
Context (invoke_signed : MarginfiIx → list AccountInfo → result (list AccountInfo)).
Context (invoke_token : TokenIx → list AccountInfo → result (list AccountInfo)).
Context (parse_stake_state : list Z → option StakeState).
Context (s : System) (o : Outside) (now : Z) (metas : list AccountMeta).

Local Abbreviation run := (process_instruction b h invoke_signed invoke_token parse_stake_state s o now).
Local Abbreviation exec := (execute h invoke_signed invoke_token parse_stake_state s o now metas).

Lemma run_written r : valid_request r → run YDELTA_ID metas (request_data b r) = exec r.
Proof.
  intros Hr. unfold process_instruction, decode_instruction, request_data. rewrite Z.eqb_refl. simpl.
  rewrite try_from_as_u8. simpl. by rewrite parse_written.
Qed.

Lemma run_cases bytes : Forall (in_u U8) bytes →
  (∃ i data r, bytes = YdeltaInstruction_as_u8 i :: data ∧ written_for b i data r
     ∧ run YDELTA_ID metas bytes = exec r)
  ∨ run YDELTA_ID metas bytes = Err InvalidInstructionData
  ∨ run YDELTA_ID metas bytes = Err BorshIoError.
Proof.
  intros Hbytes. unfold process_instruction, decode_instruction. rewrite Z.eqb_refl. simpl.
  destruct bytes as [|tag data]; [by auto|].
  destruct (YdeltaInstruction_try_from tag) as [i|] eqn:Ht; simpl; [|by auto].
  destruct (parse_request b i data) as [r|e] eqn:Hr; simpl.
  - left. exists i, data, r. split_and!; [|by apply parse_Ok|done].
    f_equal. apply tag_of_instruction; [|done]. by inversion Hbytes as [|? ? [? _]].
  - right. right. f_equal. by eapply parse_Err.
Qed.

Lemma run_other_program id bytes : id ≠ YDELTA_ID → run id metas bytes = Err IncorrectProgramId.
Proof.
  intros Hid. unfold process_instruction, decode_instruction.
  by rewrite (proj2 (Z.eqb_neq _ _) Hid).
Qed.
End entry.

(** C32: the wire format.  The data a client writes for a request with parameters in the range of
    their types runs as that request; whatever bytes arrive run as the one request they can
    have been written for, or are refused before any account is looked at; only a handler
    that does not look at its data tolerates other bytes behind the tag, and an empty
    [CreateMarket] stands for one without overrides. *)
Theorem instruction_data_roundtrip (b : Borsh) (Hb : BorshLaws b) (h : Host)
    (invoke_signed : MarginfiIx → list AccountInfo → result (list AccountInfo))
    (invoke_token : TokenIx → list AccountInfo → result (list AccountInfo))
    (parse_stake_state : list Z → option StakeState)
    (s : System) (o : Outside) (now : Z) (metas : list AccountMeta) :
  let run := process_instruction b h invoke_signed invoke_token parse_stake_state s o now in
  let exec := execute h invoke_signed invoke_token parse_stake_state s o now metas in
  (∀ r, valid_request r → run YDELTA_ID metas (request_data b r) = exec r)
  ∧ (∀ bytes, Forall (in_u U8) bytes →
       (∃ r data, valid_request r ∧ bytes = YdeltaInstruction_as_u8 (request_tag r) :: data
          ∧ run YDELTA_ID metas bytes = exec r
          ∧ (ignores_data (request_tag r) = true ∨ data = request_params b r
             ∨ data = [] ∧ r = CreateMarketRequest default_fee_params))
       ∨ run YDELTA_ID metas bytes = Err InvalidInstructionData
       ∨ run YDELTA_ID metas bytes = Err BorshIoError)
  ∧ ∀ id bytes, id ≠ YDELTA_ID → run id metas bytes = Err IncorrectProgramId.
Proof.
  intros run exec. split_and!.
  - intros r. by apply run_written.
  - intros bytes Hbytes.
    destruct (run_cases b h invoke_signed invoke_token parse_stake_state s o now metas bytes Hbytes)
      as [(i & data & r & -> & (<- & Hr & Hd) & Hrun)|H]; [left|by right].
    by exists r, data.
  - apply run_other_program.
Qed.

(** ** The entry point is a step *)

Lemma valid_decoded r : valid_request r → decoded_tx r.
Proof. destruct r as [r|r|r|p| |]; try done. destruct r; simpl; try done; by intros; destruct_and?. Qed.

(** C8: all that is proved of the reachable states holds of the program from its entry point
    on.  Whatever bytes and whatever accounts the sender of an instruction hands over, if the
    program accepts them then the transaction is a step of [Program]: the tag and the
    parameters have been read in full and in the range of their types, the loader has
    established every gate, opened exactly the accounts the chain holds under the listed
    keys, and found the accounts to be created empty. *)
Theorem process_instruction_is_step (b : Borsh) (Hb : BorshLaws b) (h : Host)
    (invoke_signed : MarginfiIx → list AccountInfo → result (list AccountInfo))
    (invoke_token : TokenIx → list AccountInfo → result (list AccountInfo))
    (parse_stake_state : list Z → option StakeState)
    (s s' : System) (o : Outside) (now : Z) (program_id : Pubkey) (metas : list AccountMeta)
    (instruction_data : list Z) (Hnow : in_i 64 now)
    (Hrun : process_instruction b h invoke_signed invoke_token parse_stake_state s o now program_id
              metas instruction_data = Ok s') :
  step (host_env h invoke_signed invoke_token parse_stake_state) s s'.
Proof.
  unfold process_instruction in Hrun. apply bind_Ok in Hrun as ([i data] & _ & Hrun).
  apply bind_Ok in Hrun as (r & (_ & Hr & _)%parse_Ok & Hrun); [|done].
  apply (execute_step h invoke_signed invoke_token parse_stake_state s s' o now metas r); try done.
  by apply valid_decoded.
Qed.

(** ** A concrete borsh *)

Fixpoint le_put (n : nat) (x : Z) : list Z :=
  match n with O => [] | S n => x mod 256 :: le_put n (x / 256) end.
Fixpoint le_get (n : nat) (bytes : list Z) : option (Z * list Z) :=
  match n, bytes with
  | O, bytes => Some (0, bytes)
  | S n, byte :: bytes =>
      if (0 <=? byte) && (byte <? 256) then
        '(x, rest) ← le_get n bytes; Some (byte + 256 * x, rest)
      else None
  | _, [] => None
  end.

Definition le_codec (n : nat) : Codec Z := mkCodec (le_put n) (le_get n).
Definition i64_codec : Codec Z :=
  struct_codec (λ x, if x <? 2 ^ 63 then x else x - 2 ^ 64) (λ x, x mod 2 ^ 64) (le_codec 8).
Definition bool_codec : Codec bool :=
  mkCodec (λ x : bool, [if x then 1 else 0])
    (λ bytes, match bytes with 0 :: r => Some (false, r) | 1 :: r => Some (true, r) | _ => None end).
Definition option_codec {A} (c : Codec A) : Codec (option A) :=
  mkCodec (λ o, match o with Some a => 1 :: put c a | None => [0] end)
    (λ bytes, match bytes with
              | 0 :: r => Some (None, r)
              | 1 :: r => '(a, r) ← get c r; Some (Some a, r)
              | _ => None
              end).
(** The bytes of a key, the most significant first. *)
Definition key_codec : Codec Pubkey :=
  mkCodec (λ k, reverse (le_put 32 k))
    (λ bytes, match le_get 32 (reverse (take 32 bytes)) with
              | Some (k, []) => Some (k, drop 32 bytes)
              | _ => None
              end).

Definition le_borsh : Borsh :=
  mkBorsh (le_codec 1) (le_codec 2) (le_codec 4) (le_codec 8) (le_codec 16) i64_codec bool_codec
    (λ _, option_codec) key_codec.

Lemma le_get_put n x rest : in_u (8 * Z.of_nat n) x → le_get n (le_put n x ++ rest) = Some (x, rest).
Proof.
  revert x. induction n as [|n IH]; intros x Hx; unfold in_u in Hx.
  - simpl in *. repeat f_equal. lia.
  - cbn [le_put le_get app]. pose proof (Z.mod_pos_bound x 256 ltac:(lia)).
    rewrite (proj2 (Z.leb_le _ _)), (proj2 (Z.ltb_lt _ _)) by lia. cbn [andb].
    rewrite IH; [cbn; by rewrite Z.add_comm, <- Z.div_mod by lia|unfold in_u].
    replace (8 * Z.of_nat (S n)) with (8 + 8 * Z.of_nat n) in Hx by lia.
    rewrite Z.pow_add_r in Hx by lia. change (2 ^ 8) with 256 in Hx.
    split; [apply Z.div_pos; lia|apply Z.div_lt_upper_bound; lia].
Qed.

Lemma le_put_get n bytes x rest : le_get n bytes = Some (x, rest) →
  in_u (8 * Z.of_nat n) x ∧ bytes = le_put n x ++ rest.
Proof.
  revert bytes x rest. induction n as [|n IH]; intros bytes x rest.
  - simpl. intros [= <- <-]. split; [unfold in_u; simpl; lia|done].
  - destruct bytes as [|byte bytes]; cbn [le_get]; [done|].
    destruct (_ && _) eqn:Hb; [|done]. apply andb_prop in Hb as [?%Z.leb_le ?%Z.ltb_lt].
    destruct (le_get n bytes) as [[y r]|] eqn:E; cbn; [|done]. intros [= <- <-].
    destruct (IH _ _ _ E) as [Hy ->]. unfold in_u in *. split.
    + replace (8 * Z.of_nat (S n)) with (8 + 8 * Z.of_nat n) by lia.
      rewrite Z.pow_add_r by lia. change (2 ^ 8) with 256. lia.
    + rewrite (Z.mul_comm 256 y), Z.mod_add, Z.div_add, Z.mod_small, Z.div_small by lia.
      by rewrite Z.add_0_l.
Qed.

Lemma le_lawful n : Lawful (le_codec n) (in_u (8 * Z.of_nat n)).
Proof. split; [intros a rest; apply le_get_put|apply le_put_get]. Qed.

Lemma le_put_length n x : length (le_put n x) = n.
Proof. revert x. induction n; intros x; simpl; [done|by f_equal]. Qed.

Lemma i64_lawful : Lawful i64_codec (in_i 64).
Proof.
  pose proof (le_get_put 8) as Hget. pose proof (le_put_get 8) as Hput.
  change (8 * Z.of_nat 8) with 64 in *. unfold in_u in *.
  split; unfold in_i, i64_codec, struct_codec, le_codec; cbn [put get compose].
  - intros x rest Hx. rewrite Hget by (apply Z.mod_pos_bound; lia). cbn.
    destruct (decide (0 <= x)).
    + rewrite Z.mod_small by lia. by rewrite (proj2 (Z.ltb_lt _ _)) by lia.
    + rewrite <- (Z.mod_add x 1), Z.mod_small by lia. rewrite (proj2 (Z.ltb_ge _ _)) by lia.
      repeat f_equal. lia.
  - intros bytes x rest H. destruct (le_get 8 bytes) as [[y r]|] eqn:E; [|done].
    apply Hput in E as [Hy ->]. cbn in H. injection H as <- <-. destruct (Z.ltb_spec y (2 ^ 63)).
    + split; [lia|]. by rewrite Z.mod_small by lia.
    + split; [lia|]. rewrite <- (Z.mod_add (y - _) 1), Z.mod_small by lia. repeat f_equal. lia.
Qed.

Lemma bool_lawful : Lawful bool_codec (λ _, True).
Proof. split; [by intros []|]. intros [|[|[]|] bytes] x rest; try done; by intros [= <- <-]. Qed.

Lemma option_lawful {A} (c : Codec A) valid : Lawful c valid →
  Lawful (option_codec c) (valid_option valid).
Proof.
  intros Hc. split.
  - intros [a|] rest H; [|done]. simpl. by rewrite get_put.
  - intros [|[|[]|] bytes] o rest; try done; simpl; [by intros [= <- <-]|].
    destruct (get c bytes) as [[a r]|] eqn:E; simpl; [|done]. intros [= <- <-].
    by destruct (put_get _ _ _ E) as [? ->].
Qed.

Lemma key_lawful : Lawful key_codec (in_u 256).
Proof.
  assert (∀ x, length (reverse (le_put 32 x)) = 32%nat) as Hlen
    by (intros; by rewrite length_reverse, le_put_length).
  split; unfold key_codec; cbn [put get].
  - intros k rest Hk. rewrite take_app_length', drop_app_length', reverse_involutive by done.
    by rewrite <- (app_nil_r (le_put 32 k)), le_get_put.
  - intros bytes k rest. destruct (le_get 32 _) as [[k' [|]]|] eqn:E; try done. intros [= <- <-].
    apply le_put_get in E as [Hk H]. rewrite app_nil_r in H. split; [done|].
    by rewrite <- H, reverse_involutive, take_drop.
Qed.

#[export] Instance le_borsh_laws : BorshLaws le_borsh.
Proof.
  split; [apply (le_lawful 1)|apply (le_lawful 2)|apply (le_lawful 4)|apply (le_lawful 8)
    |apply (le_lawful 16)|apply i64_lawful|apply bool_lawful|apply @option_lawful|done|apply key_lawful].
Qed.

(** The two bytes that pause a market, and the four accounts of the client. *)
Definition sample_pause_bytes : list Z := [27; 1].
Definition sample_admin_metas : list AccountMeta :=
  [mkAccountMeta (mf_admin (mk_fixed sample_empty_market)) true true;
   mkAccountMeta (fst (global_config_pda sample_host)) false false; mkAccountMeta 7 false true].
Definition sample_process : list AccountMeta → list Z → result System :=
  process_instruction le_borsh sample_host (λ _ _, Err Panic) (λ _ _, Err Panic) (λ _, None)
    sample_chain sample_outside 1700000000 YDELTA_ID.

Lemma process_instruction_is_step_witness :
  match sample_process sample_admin_metas sample_pause_bytes with
  | Ok s' =>
      (mf_is_paused ∘ mk_fixed) <$> sy_markets s' !! 7 = Some 1
      ∧ step (host_env sample_host (λ _ _, Err Panic) (λ _ _, Err Panic) (λ _, None)) sample_chain s'
  | Err _ => False
  end.
Proof.
  destruct (sample_process _ _) as [s'|] eqn:E; [|vm_compute in E; discriminate E].
  split; [vm_compute in E; injection E as <-; vm_compute; reflexivity|].
  apply (process_instruction_is_step le_borsh le_borsh_laws sample_host (λ _ _, Err Panic)
    (λ _ _, Err Panic) (λ _, None) sample_chain s' sample_outside 1700000000 YDELTA_ID
    sample_admin_metas sample_pause_bytes); [|exact E].
  split; reflexivity || discriminate.
Defined.

(** An update of a bid, as it is written; and what is refused. *)
Definition sample_update : Request :=
  OnMarket (RqUpdateOrder (mkUpdateOrderParams 5 (Some 160) 725 604800 (-1) 50)).

Lemma instruction_data_roundtrip_witness :
  request_data le_borsh sample_update =
    [44; 5; 0; 0; 0; 0; 0; 0; 0; 1; 160; 0; 0; 0; 213; 2; 128; 58; 9; 0;
     255; 255; 255; 255; 255; 255; 255; 255; 50; 0]
  ∧ sample_process sample_admin_metas (request_data le_borsh sample_update)
    = execute sample_host (λ _ _, Err Panic) (λ _ _, Err Panic) (λ _, None) sample_chain
        sample_outside 1700000000 sample_admin_metas sample_update
  ∧ sample_process sample_admin_metas [27; 1; 0] = Err BorshIoError
  ∧ sample_process sample_admin_metas [45] = Err InvalidInstructionData.
Proof.
  split_and!; [vm_compute; reflexivity|..|vm_compute; reflexivity|vm_compute; reflexivity].
  apply (instruction_data_roundtrip le_borsh le_borsh_laws sample_host (λ _ _, Err Panic)
    (λ _ _, Err Panic) (λ _, None) sample_chain sample_outside 1700000000 sample_admin_metas).
  vm_compute. split_and!; (reflexivity || discriminate).
Defined.
