(* ===== verification/Builders.v ===== *)
(** * Building instructions ([program/instruction_builders/])

    What a client sends: one builder per instruction, which derives the addresses of the
    program's own accounts, lists the accounts in the order of the handler's loader, and
    writes the tag and the parameters.  A builder's name and arguments are those of the
    code. *)
From stdpp Require Import base numbers list option gmap.
From S2P Require Import Prelude FixedPoint Loan Marginfi Oracles Hypertree SubVault.
From S2P Require Import Market VaultTrees Matching UserAccount Runtime LoanClose Repay.
From S2P Require Import Keeper Promotion Deposits Claims Convert Admin Orders Program.
From S2P Require Import Accounts Loaders Execute Wire.
Local Open Scope Z_scope.

Record Instruction := mkInstruction {
  ix_program_id : Pubkey;
  ix_accounts : list AccountMeta;
  ix_data : list Z }.

(** [AccountMeta::new] and [AccountMeta::new_readonly]. *)
Definition meta_new (k : Pubkey) (is_signer : bool) : AccountMeta := mkAccountMeta k is_signer true.
Definition meta_readonly (k : Pubkey) (is_signer : bool) : AccountMeta :=
  mkAccountMeta k is_signer false.

(** [YdeltaInstruction::to_vec]. *)
Definition to_vec (i : YdeltaInstruction) : list Z := [YdeltaInstruction_as_u8 i].

(** An account that is written, one that is only read, and the one that pays. *)
Definition writable (k : Pubkey) : AccountMeta := meta_new k false.
Definition readonly (k : Pubkey) : AccountMeta := meta_readonly k false.
Definition payer_meta (k : Pubkey) : AccountMeta := meta_new k true.
Local Abbreviation w := writable (only parsing).
Local Abbreviation r := readonly (only parsing).

(** The accounts of a promotion that a vault funds. *)
Record VaultSettleAddrs := mkVaultSettleAddrs {
  va_global_vault : Pubkey;
  va_global_vault_signer : Pubkey;
  va_global_vault_staging : Pubkey;
  va_global_vault_integration_account : Pubkey;
  va_market_debt_vault : Pubkey;
  va_market_lender_integration_account : Pubkey;
  va_market_signer : Pubkey;
  va_debt_liquidity_vault : Pubkey;
  va_debt_bank_liquidity_vault_authority : Pubkey;
  va_debt_oracles : list Pubkey;
  va_debt_mint : Pubkey;
  va_token_program : Pubkey;
  va_marginfi_group : Pubkey;
  va_marginfi_program : Pubkey }.

Section Builders.
  Variable b : Borsh.
  Variable h : Host.

Abbreviation config := (fst (global_config_pda h)).
Abbreviation vault_of bank := (fst (global_vault_pda h bank)).
Abbreviation vault_signer vault := (fst (global_vault_signer_pda h vault)).
Abbreviation vault_integration vault := (fst (global_vault_integration_account_pda h vault)).
Abbreviation vault_staging vault := (fst (global_vault_staging_pda h vault)).
Abbreviation market_signer market := (fst (get_market_signer_address h market)).
Abbreviation lender_account market := (fst (get_lender_integration_account_address h market)).
Abbreviation borrower_account market := (fst (get_borrower_integration_account_address h market)).
Abbreviation token_vault market mint := (fst (get_vault_address h market mint)).
Abbreviation loan_at market sequence := (fst (loan_pda h market sequence)).
Abbreviation user_of owner := (fst (user_account_pda h owner)).
Abbreviation system_program := SYSTEM_PROGRAM_ID.

(** The lender's vault of a fixed loan, which comes last. *)
Definition optional (k : option Pubkey) : list AccountMeta := match k with Some k => [w k] | None => [] end.

Definition instruction (accounts : list AccountMeta) (data : list Z) : Instruction :=
  mkInstruction YDELTA_ID accounts data.

(** ** The configuration *)

Definition create_global_config_instruction (payer : Pubkey)
    : Instruction :=
  instruction
    [payer_meta payer; w config; r system_program; r (expected_program_data h)]
    (to_vec CreateGlobalConfig).

Definition transfer_protocol_admin_instruction (current_admin new_admin : Pubkey)
    : Instruction :=
  instruction
    [payer_meta current_admin; w config]
    (to_vec TransferProtocolAdmin ++ put (transfer_protocol_admin_params b) new_admin).

Definition accept_protocol_admin_instruction (pending_admin : Pubkey)
    : Instruction :=
  instruction
    [payer_meta pending_admin; w config]
    (to_vec AcceptProtocolAdmin).

Definition set_global_pause_instruction (admin : Pubkey) (paused : bool)
    : Instruction :=
  instruction
    [payer_meta admin; w config]
    (to_vec SetGlobalPause ++ put (set_global_pause_params b) (if paused then 1 else 0)).

(** ** The market and its users *)

Definition create_market_instruction (market debt_mint collateral_mint market_creator marginfi_group
    debt_bank collateral_bank marginfi_program : Pubkey) (params : SetFeeConfigParams)
    : Instruction :=
  instruction
    [payer_meta market_creator; r config; w market; r system_program; r debt_mint; r collateral_mint;
     w (token_vault market debt_mint); w (token_vault market collateral_mint); r SPL_TOKEN_ID;
     r SPL_TOKEN_2022_ID; r marginfi_group; r debt_bank; r collateral_bank;
     w (lender_account market); w (borrower_account market); r (market_signer market);
     r marginfi_program]
    (to_vec CreateMarket ++ put (set_fee_config_params b) params).

Definition set_fee_config_instruction (market admin : Pubkey) (params : SetFeeConfigParams)
    : Instruction :=
  instruction
    [payer_meta admin; r config; w market; r system_program]
    (to_vec SetFeeConfig ++ put (set_fee_config_params b) params).

Definition transfer_market_admin_instruction (market current_admin new_admin : Pubkey)
    : Instruction :=
  instruction
    [payer_meta current_admin; r config; w market]
    (to_vec TransferMarketAdmin ++ put (transfer_market_admin_params b) new_admin).

Definition accept_market_admin_instruction (market pending_admin : Pubkey)
    : Instruction :=
  instruction
    [payer_meta pending_admin; r config; w market]
    (to_vec AcceptMarketAdmin).

Definition set_market_pause_instruction (market admin : Pubkey) (paused : bool)
    : Instruction :=
  instruction
    [payer_meta admin; r config; w market]
    (to_vec SetMarketPause ++ put (set_market_pause_params b) (if paused then 1 else 0)).

Definition claim_seat_instruction (market payer : Pubkey)
    : Instruction :=
  instruction
    [payer_meta payer; r config; w market; r system_program; w (user_of payer)]
    (to_vec ClaimSeat).

Definition sync_market_position_instruction (market payer owner : Pubkey)
    : Instruction :=
  instruction
    [payer_meta payer; r config; w (user_of owner); r market; r owner]
    (to_vec SyncMarketPosition).

Definition deposit_instruction (market payer mint debt_mint trader_token token_program marginfi_group bank
    liquidity_vault marginfi_program : Pubkey) (amount_atoms : Z) (trader_index_hint : option Z)
    : Instruction :=
  instruction
    [payer_meta payer; r config; w market; w trader_token; w (token_vault market mint);
     r token_program; r mint; r marginfi_group;
     w (if mint =? debt_mint then lender_account market else borrower_account market);
     w bank; w liquidity_vault; r (market_signer market); r marginfi_program; w (user_of payer);
     r system_program]
    (to_vec Deposit ++ put (deposit_params b) (amount_atoms, trader_index_hint)).

Definition withdraw_instruction (market payer mint debt_mint trader_token token_program marginfi_group
    debt_bank collateral_bank bank_being_withdrawn liquidity_vault
    bank_liquidity_vault_authority : Pubkey) (debt_oracles collateral_oracles : list Pubkey)
    (marginfi_program : Pubkey) (amount_atoms : Z) (trader_index_hint : option Z)
    (withdraw_all : bool)
    : Instruction :=
  instruction
    ([payer_meta payer; r config; w market; w trader_token; w (token_vault market mint);
      r token_program; r mint; r marginfi_group;
      w (if mint =? debt_mint then lender_account market else borrower_account market);
      w debt_bank; w collateral_bank; w liquidity_vault; r bank_liquidity_vault_authority]
     ++ map r debt_oracles ++ map r collateral_oracles
     ++ [r (market_signer market); r marginfi_program; w (user_of payer); r system_program])
    (to_vec Withdraw ++ put (withdraw_params b) (amount_atoms, (trader_index_hint, withdraw_all))).

(** ** Bids *)

Definition place_order_instruction (market payer marginfi_group debt_bank collateral_bank : Pubkey)
    (debt_oracles collateral_oracles : list Pubkey) (debt_liquidity_vault
    debt_bank_liquidity_vault_authority borrower_debt_token debt_mint token_program
    marginfi_program : Pubkey) (rate_bps term_seconds principal_atoms collateral_atoms
    ltv_buffer_bps residual_mode last_valid_unix_ts : Z) (seat_index_hint : option Z)
    : Instruction :=
  instruction
    ([payer_meta payer; r config; w market; r system_program; r marginfi_group;
      w (borrower_account market); w debt_bank; w collateral_bank]
     ++ map r debt_oracles ++ map r collateral_oracles
     ++ [r (market_signer market); r marginfi_program; w debt_liquidity_vault;
         r debt_bank_liquidity_vault_authority; w borrower_debt_token; r token_program;
         w (user_of payer); r system_program; w (lender_account market);
         w (token_vault market debt_mint); w (vault_of debt_bank)])
    (to_vec PlaceOrder ++ put (place_order_params b)
      (mkPlaceOrderParams seat_index_hint residual_mode last_valid_unix_ts rate_bps term_seconds
         principal_atoms collateral_atoms ltv_buffer_bps)).

Definition cancel_order_instruction (market payer : Pubkey) (order_sequence : Z) (seat_index_hint : option Z)
    : Instruction :=
  instruction
    [payer_meta payer; r config; w market; w (user_of payer)]
    (to_vec CancelOrder ++ put (cancel_order_params b) (order_sequence, seat_index_hint)).

Definition update_order_instruction (market payer : Pubkey) (order_sequence : Z) (seat_index_hint : option Z)
    (new_rate_bps new_term_seconds new_last_valid_unix_ts new_ltv_buffer_bps : Z)
    : Instruction :=
  instruction
    [payer_meta payer; r config; w market; w (user_of payer)]
    (to_vec UpdateOrder ++ put (update_order_params b)
      (mkUpdateOrderParams order_sequence seat_index_hint new_rate_bps new_term_seconds
         new_last_valid_unix_ts new_ltv_buffer_bps)).

Definition match_crank_instruction (bank market payer debt_bank marginfi_group collateral_bank : Pubkey)
    (debt_oracles collateral_oracles : list Pubkey) (max_fills : Z)
    : Instruction :=
  instruction
    ([payer_meta payer; r config; w (vault_of bank); w market; r debt_bank; r marginfi_group;
      r collateral_bank]
     ++ map r debt_oracles ++ map r collateral_oracles ++ [r system_program])
    (to_vec MatchCrank ++ put (match_crank_params b) max_fills).

(** ** Asks of sub-vaults *)

Definition place_order_for_sub_vault_instruction (bank market fee_payer curator debt_bank marginfi_group
    collateral_bank : Pubkey) (debt_oracles collateral_oracles : list Pubkey)
    (sub_vault_id flags : Z)
    : Instruction :=
  instruction
    ([payer_meta fee_payer; meta_readonly curator true; r config; w (vault_of bank); w market;
      r debt_bank; r marginfi_group; r collateral_bank]
     ++ map r debt_oracles ++ map r collateral_oracles ++ [r system_program])
    (to_vec PlaceOrderForSubVault ++ put (place_order_for_sub_vault_params b) (sub_vault_id, flags)).

Definition update_order_for_sub_vault_instruction (bank market fee_payer curator debt_bank marginfi_group
    collateral_bank : Pubkey) (debt_oracles collateral_oracles : list Pubkey)
    (sub_vault_id new_flags : Z)
    : Instruction :=
  instruction
    ([payer_meta fee_payer; meta_readonly curator true; r config; w (vault_of bank); w market;
      r debt_bank; r marginfi_group; r collateral_bank]
     ++ map r debt_oracles ++ map r collateral_oracles ++ [r system_program])
    (to_vec UpdateOrderForSubVault ++ put (update_order_for_sub_vault_params b) (sub_vault_id, new_flags)).

Definition cancel_order_for_sub_vault_instruction (bank market fee_payer curator : Pubkey) (sub_vault_id : Z)
    : Instruction :=
  instruction
    [payer_meta fee_payer; meta_readonly curator true; r config; w (vault_of bank); w market;
     r system_program]
    (to_vec CancelOrderForSubVault ++ put (cancel_order_for_sub_vault_params b) sub_vault_id).

Definition admin_cancel_sub_vault_order_instruction (bank market payer : Pubkey) (sub_vault_id : Z)
    : Instruction :=
  instruction
    [payer_meta payer; r config; w (vault_of bank); w market]
    (to_vec AdminCancelSubVaultOrder ++ put (admin_cancel_sub_vault_order_params b) sub_vault_id).

(** ** The vault and its sub-vaults *)

Definition create_vault_instruction (bank mint payer marginfi_group lending_pool marginfi_program token_program
    token_program_22 : Pubkey)
    : Instruction :=
  instruction
    [payer_meta payer; r config; w (vault_of bank); r mint; r (vault_signer (vault_of bank));
     w (vault_integration (vault_of bank)); w (vault_staging (vault_of bank)); r token_program;
     r token_program_22; r marginfi_group; r lending_pool; r marginfi_program; r system_program]
    (to_vec CreateVault).

Definition sub_vault_create_accounts (payer vault : Pubkey) : list AccountMeta :=
  [payer_meta payer; r config; w vault; r system_program].

Definition create_pool_sub_vault_instruction (bank payer curator : Pubkey)
    (spread_bps max_ltv_bps liquidation_ltv_bps max_term_seconds curator_fee_bps : Z)
    : Instruction :=
  instruction
    (sub_vault_create_accounts payer (vault_of bank))
    (to_vec CreatePoolSubVault ++ put (create_pool_sub_vault_params b)
      (curator, (spread_bps, (max_ltv_bps, (liquidation_ltv_bps, (max_term_seconds,
         curator_fee_bps)))))).

Definition create_private_sub_vault_instruction (bank payer : Pubkey)
    (spread_bps max_ltv_bps liquidation_ltv_bps max_term_seconds : Z)
    : Instruction :=
  instruction
    (sub_vault_create_accounts payer (vault_of bank))
    (to_vec CreatePrivateSubVault ++ put (create_private_sub_vault_params b)
      (spread_bps, (max_ltv_bps, (liquidation_ltv_bps, max_term_seconds)))).

Definition update_sub_vault_instruction (bank payer : Pubkey) (sub_vault_id : Z)
    (new_max_ltv_bps new_liquidation_ltv_bps new_max_term_seconds new_spread_bps : option Z)
    : Instruction :=
  instruction
    [payer_meta payer; r config; w (vault_of bank); r system_program]
    (to_vec UpdateSubVault ++ put (update_sub_vault_params b)
      (sub_vault_id, mkUpdateSubVaultParams new_max_ltv_bps new_liquidation_ltv_bps
         new_max_term_seconds new_spread_bps)).

Definition sunset_sub_vault_instruction (bank payer : Pubkey) (sub_vault_id : Z)
    : Instruction :=
  instruction
    [payer_meta payer; r config; w (vault_of bank)]
    (to_vec SunsetSubVault ++ put (sunset_sub_vault_params b) sub_vault_id).

Definition resume_sub_vault_instruction (bank payer : Pubkey) (sub_vault_id : Z)
    : Instruction :=
  instruction
    [payer_meta payer; r config; w (vault_of bank)]
    (to_vec ResumeSubVault ++ put (resume_sub_vault_params b) sub_vault_id).

Definition remove_sub_vault_instruction (bank payer : Pubkey) (sub_vault_id : Z)
    : Instruction :=
  instruction
    [payer_meta payer; r config; w (vault_of bank)]
    (to_vec RemoveSubVault ++ put (remove_sub_vault_params b) sub_vault_id).

Definition transfer_global_vault_admin_instruction (bank current_admin new_admin : Pubkey)
    : Instruction :=
  instruction
    [payer_meta current_admin; r config; w (vault_of bank)]
    (to_vec TransferGlobalVaultAdmin ++ put (transfer_global_vault_admin_params b) new_admin).

Definition accept_global_vault_admin_instruction (bank pending_admin : Pubkey)
    : Instruction :=
  instruction
    [payer_meta pending_admin; r config; w (vault_of bank)]
    (to_vec AcceptGlobalVaultAdmin).

Definition transfer_curator_instruction (bank current_curator : Pubkey) (sub_vault_id : Z)
    (new_curator : Pubkey)
    : Instruction :=
  instruction
    [payer_meta current_curator; r config; w (vault_of bank)]
    (to_vec TransferCurator ++ put (transfer_curator_params b) (sub_vault_id, new_curator)).

Definition accept_curator_instruction (bank pending_curator : Pubkey) (sub_vault_id : Z)
    : Instruction :=
  instruction
    [payer_meta pending_curator; r config; w (vault_of bank)]
    (to_vec AcceptCurator ++ put (accept_curator_params b) sub_vault_id).

Definition set_vault_pause_instruction (vault admin : Pubkey) (paused : bool)
    : Instruction :=
  instruction
    [payer_meta admin; r config; w vault]
    (to_vec SetVaultPause ++ put (set_vault_pause_params b) (if paused then 1 else 0)).

(** ** Deposits into a vault, and claims *)

Definition global_vault_deposit_instruction (bank mint depositor depositor_token token_program marginfi_group
    lending_pool liquidity_vault marginfi_program : Pubkey) (sub_vault_id amount_atoms : Z)
    : Instruction :=
  instruction
    [payer_meta depositor; r config; w (vault_of bank); r mint; r (vault_signer (vault_of bank));
     w (vault_staging (vault_of bank)); w depositor_token; r token_program; r marginfi_group;
     w (vault_integration (vault_of bank)); w lending_pool; w liquidity_vault; r marginfi_program;
     w (user_of depositor); r system_program]
    (to_vec GlobalVaultDeposit ++ put (global_vault_deposit_params b) (amount_atoms, sub_vault_id)).

Definition global_vault_withdraw_instruction (bank mint depositor depositor_token token_program
    marginfi_group lending_pool lending_pool_oracle liquidity_vault bank_liquidity_vault_authority
    marginfi_program : Pubkey) (sub_vault_id shares_to_burn : Z)
    : Instruction :=
  instruction
    [payer_meta depositor; r config; w (vault_of bank); r mint; r (vault_signer (vault_of bank));
     w (vault_staging (vault_of bank)); w depositor_token; r token_program; r marginfi_group;
     w (vault_integration (vault_of bank)); w lending_pool; r lending_pool_oracle;
     w liquidity_vault; r bank_liquidity_vault_authority; r marginfi_program;
     w (user_of depositor); r system_program]
    (to_vec GlobalVaultWithdraw ++ put (global_vault_withdraw_params b) (shares_to_burn, sub_vault_id)).

Definition claim_curator_fee_instruction (bank mint payer curator_token debt_bank liquidity_vault
    bank_liquidity_vault_authority bank_oracle token_program marginfi_program
    marginfi_group : Pubkey) (sub_vault_id : Z)
    : Instruction :=
  instruction
    [payer_meta payer; r config; w (vault_of bank); r (vault_signer (vault_of bank));
     w (vault_staging (vault_of bank)); w (vault_integration (vault_of bank)); w curator_token;
     w debt_bank; w liquidity_vault; r bank_liquidity_vault_authority; r bank_oracle; r mint;
     r token_program; r marginfi_program; r marginfi_group]
    (to_vec ClaimCuratorFee ++ put (claim_curator_fee_params b) sub_vault_id).

Definition claim_repayment_for_sub_vault_instruction (payer market : Pubkey) (sub_vault_id : Z)
    (global_vault debt_mint debt_bank debt_liquidity_vault debt_bank_lva : Pubkey)
    (bank_oracles : list Pubkey)
    (lender_marginfi_account token_program marginfi_group marginfi_program : Pubkey)
    : Instruction :=
  instruction
    ([payer_meta payer; r config; w market; w global_vault; r (vault_signer global_vault);
      w (vault_staging global_vault); w (vault_integration global_vault);
      w (token_vault market debt_mint); r (market_signer market); w lender_marginfi_account;
      w debt_bank; w debt_liquidity_vault; r debt_bank_lva]
     ++ map r bank_oracles
     ++ [r debt_mint; r token_program; r marginfi_group; r marginfi_program])
    (to_vec ClaimRepaymentForSubVault ++ put (claim_repayment_for_sub_vault_params b) sub_vault_id).

Definition protocol_fee_claim_instruction (market admin debt_mint admin_debt_token debt_bank
    debt_liquidity_vault debt_bank_lva : Pubkey) (debt_oracles : list Pubkey)
    (token_program marginfi_group marginfi_program : Pubkey)
    : Instruction :=
  instruction
    ([payer_meta admin; r config; w market; w admin_debt_token; w (token_vault market debt_mint);
      r (market_signer market); w (lender_account market); w debt_bank; w debt_liquidity_vault;
      r debt_bank_lva]
     ++ map r debt_oracles
     ++ [r debt_mint; r token_program; r marginfi_group; r marginfi_program])
    (to_vec ProtocolFeeClaim).

(** ** Loans *)

Definition process_matched_loan_instruction (market payer debt_bank marginfi_program : Pubkey)
    (sequence : Z) (matched_loan_index_hint : option Z) (vault_settle : option VaultSettleAddrs)
    : Instruction :=
  instruction
    ([payer_meta payer; r config; w market; w (loan_at market sequence); w debt_bank;
      r marginfi_program; r system_program]
     ++ match vault_settle with
        | Some va =>
            [w (va_global_vault va); r (va_global_vault_signer va); w (va_global_vault_staging va);
             w (va_global_vault_integration_account va); w (va_market_debt_vault va);
             w (va_market_lender_integration_account va); r (va_market_signer va);
             w (va_debt_liquidity_vault va); r (va_debt_bank_liquidity_vault_authority va)]
            ++ map r (va_debt_oracles va)
            ++ [r (va_debt_mint va); r (va_token_program va); r (va_marginfi_group va);
                r (va_marginfi_program va)]
        | None => []
        end)
    (to_vec ProcessMatchedLoan ++
      put (process_matched_loan_params b) (sequence, matched_loan_index_hint)).

Definition repay_instruction (market borrower : Pubkey) (sequence : Z) (debt_mint borrower_token token_program
    marginfi_group debt_bank debt_liquidity_vault collateral_bank marginfi_program : Pubkey)
    (repay_atoms : Z) (full_repay : bool) (borrower_seat_index_hint : option Z)
    (cranker_refund : Pubkey) (global_vault : option Pubkey)
    : Instruction :=
  instruction
    ([payer_meta borrower; r config; w market; w (loan_at market sequence); w borrower_token;
      w (token_vault market debt_mint); r token_program; r debt_mint; r marginfi_group;
      w (lender_account market); w debt_bank; w debt_liquidity_vault; r collateral_bank;
      w (borrower_account market); r (market_signer market); r marginfi_program;
      w (user_of borrower); r system_program; w cranker_refund]
     ++ optional global_vault)
    (to_vec Repay ++
      put (repay_params b) (mkRepayParams repay_atoms full_repay borrower_seat_index_hint)).

Definition settle_matured_loan_instruction (market payer : Pubkey) (sequence : Z) (debt_mint collateral_mint
    liquidator_debt_token liquidator_collateral_token debt_bank collateral_bank
    debt_liquidity_vault collateral_liquidity_vault collateral_bank_lva : Pubkey)
    (debt_oracles collateral_oracles : list Pubkey)
    (token_program marginfi_group marginfi_program : Pubkey) (repay_atoms_max : Z)
    (cranker_refund : Pubkey) (global_vault : option Pubkey)
    : Instruction :=
  instruction
    ([payer_meta payer; r config; w market; w (loan_at market sequence); w liquidator_debt_token;
      w liquidator_collateral_token; w (token_vault market debt_mint);
      w (token_vault market collateral_mint); r (market_signer market); w (lender_account market);
      w (borrower_account market); w debt_bank; w collateral_bank; w debt_liquidity_vault;
      w collateral_liquidity_vault; r collateral_bank_lva]
     ++ map r debt_oracles ++ map r collateral_oracles
     ++ [r debt_mint; r collateral_mint; r token_program; r marginfi_group; r marginfi_program;
         w cranker_refund]
     ++ optional global_vault)
    (to_vec SettleMaturedLoan ++ u64_le_bytes repay_atoms_max).

Definition liquidate_loan_instruction (market payer : Pubkey) (sequence : Z) (debt_mint collateral_mint
    liquidator_debt_token liquidator_collateral_token debt_bank collateral_bank
    debt_liquidity_vault collateral_liquidity_vault collateral_bank_lva : Pubkey)
    (debt_oracles collateral_oracles : list Pubkey)
    (token_program marginfi_group marginfi_program : Pubkey) (repay_atoms_max : Z)
    (cranker_refund : Pubkey) (global_vault : option Pubkey)
    : Instruction :=
  instruction
    ([payer_meta payer; r config; w market; w (loan_at market sequence); w liquidator_debt_token;
      w liquidator_collateral_token; w (token_vault market debt_mint);
      w (token_vault market collateral_mint); r (market_signer market); w (lender_account market);
      w (borrower_account market); w debt_bank; w collateral_bank; w debt_liquidity_vault;
      w collateral_liquidity_vault; r collateral_bank_lva]
     ++ map r debt_oracles ++ map r collateral_oracles
     ++ [r debt_mint; r collateral_mint; r token_program; r marginfi_group; r marginfi_program;
         w cranker_refund]
     ++ optional global_vault)
    (to_vec LiquidateLoan ++ u64_le_bytes repay_atoms_max).

Definition check_ltv_liquidatable_instruction (market payer : Pubkey) (sequence : Z)
    (debt_bank collateral_bank : Pubkey) (debt_oracles collateral_oracles : list Pubkey)
    (marginfi_program : Pubkey)
    : Instruction :=
  instruction
    ([payer_meta payer; r config; w market; w (loan_at market sequence); w (borrower_account market);
      r debt_bank]
     ++ map r debt_oracles ++ [r collateral_bank] ++ map r collateral_oracles
     ++ [r marginfi_program])
    (to_vec CheckLtvLiquidatable).

Definition check_maturity_liquidatable_instruction (market payer : Pubkey) (sequence : Z)
    (debt_bank marginfi_program : Pubkey)
    : Instruction :=
  instruction
    [payer_meta payer; r config; w market; w (loan_at market sequence); w (borrower_account market);
     r debt_bank; r marginfi_program]
    (to_vec CheckMaturityLiquidatable).

Definition convert_p2pool_to_fixed_instruction (market borrower : Pubkey) (loan_sequence : Z)
    (debt_mint debt_bank debt_liquidity_vault debt_bank_lva : Pubkey) (debt_oracles : list Pubkey)
    (collateral_bank : Pubkey) (collateral_oracles : list Pubkey)
    (token_program marginfi_group marginfi_program : Pubkey)
    (max_acceptable_rate_bps ltv_buffer_bps : Z) (cranker_refund : Pubkey)
    : Instruction :=
  instruction
    ([payer_meta borrower; r config; w market; w (loan_at market loan_sequence); r system_program;
      w (borrower_account market); w debt_bank; w debt_liquidity_vault; r debt_bank_lva]
     ++ map r debt_oracles ++ [r collateral_bank] ++ map r collateral_oracles
     ++ [w (token_vault market debt_mint); r debt_mint; r (market_signer market); r token_program;
         r marginfi_group; r marginfi_program; w (vault_of debt_bank);
         r (vault_signer (vault_of debt_bank)); w (vault_integration (vault_of debt_bank));
         w cranker_refund])
    (to_vec ConvertP2PoolToFixed ++
      put (convert_p2pool_to_fixed_params b) (max_acceptable_rate_bps, ltv_buffer_bps)).

End Builders.
