(* ===== verification/BuildersSpec.v ===== *)
(** * What the builders promise

    [built] pairs every instruction a client builds with the request it stands for.  A built
    instruction runs as its request; and the roles of the program can be handed over with
    nothing but built instructions. *)
From stdpp Require Import base numbers list option gmap.
From S2P Require Import Prelude FixedPoint Loan Marginfi Oracles Hypertree SubVault.
From S2P Require Import Market VaultTrees Matching UserAccount Runtime LoanClose Repay.
From S2P Require Import Keeper Promotion Deposits Claims Convert Admin Orders Program.
From S2P Require Import Accounts Loaders Execute Wire MarketSpec SystemSpec ExecuteSpec WireSpec Builders.
Local Open Scope Z_scope.

(** ** The request an instruction stands for *)

Section built.
Variable b : Borsh.
Variable h : Host.

Inductive built : Instruction → Request → Prop :=
  | built_create_global_config payer : built (create_global_config_instruction h payer)
      (CreateGlobalConfigRequest)
  | built_transfer_protocol_admin current_admin new_admin : built
      (transfer_protocol_admin_instruction b h current_admin new_admin) (OnConfig
      (RqTransferProtocolAdmin new_admin))
  | built_accept_protocol_admin pending_admin : built (accept_protocol_admin_instruction h
      pending_admin) (OnConfig RqAcceptProtocolAdmin)
  | built_set_global_pause admin paused : built (set_global_pause_instruction b h admin paused)
      (OnConfig (RqSetGlobalPause (if paused then 1 else 0)))
  | built_create_market market debt_mint collateral_mint market_creator marginfi_group debt_bank
      collateral_bank marginfi_program params : built (create_market_instruction b h market
      debt_mint collateral_mint market_creator marginfi_group debt_bank collateral_bank
      marginfi_program params) (CreateMarketRequest params)
  | built_set_fee_config market admin params : built (set_fee_config_instruction b h market admin
      params) (OnMarket (RqSetFeeConfig params))
  | built_transfer_market_admin market current_admin new_admin : built
      (transfer_market_admin_instruction b h market current_admin new_admin) (OnMarket
      (RqTransferMarketAdmin new_admin))
  | built_accept_market_admin market pending_admin : built (accept_market_admin_instruction h
      market pending_admin) (OnMarket RqAcceptMarketAdmin)
  | built_set_market_pause market admin paused : built (set_market_pause_instruction b h market
      admin paused) (OnMarket (RqSetMarketPause (if paused then 1 else 0)))
  | built_claim_seat market payer : built (claim_seat_instruction h market payer) (OnMarket
      RqClaimSeat)
  | built_sync_market_position market payer owner : built (sync_market_position_instruction h
      market payer owner) (OnMarket RqSyncMarketPosition)
  | built_deposit market payer mint debt_mint trader_token token_program marginfi_group bank
      liquidity_vault marginfi_program amount_atoms trader_index_hint : built
      (deposit_instruction b h market payer mint debt_mint trader_token token_program
      marginfi_group bank liquidity_vault marginfi_program amount_atoms trader_index_hint)
      (OnMarket (RqDeposit amount_atoms trader_index_hint))
  | built_withdraw market payer mint debt_mint trader_token token_program marginfi_group
      debt_bank collateral_bank bank_being_withdrawn liquidity_vault
      bank_liquidity_vault_authority debt_oracles collateral_oracles marginfi_program
      amount_atoms trader_index_hint withdraw_all : built (withdraw_instruction b h market payer
      mint debt_mint trader_token token_program marginfi_group debt_bank collateral_bank
      bank_being_withdrawn liquidity_vault bank_liquidity_vault_authority debt_oracles
      collateral_oracles marginfi_program amount_atoms trader_index_hint withdraw_all) (OnMarket
      (RqWithdraw amount_atoms trader_index_hint withdraw_all))
  | built_place_order market payer marginfi_group debt_bank collateral_bank debt_oracles
      collateral_oracles debt_liquidity_vault debt_bank_liquidity_vault_authority
      borrower_debt_token debt_mint token_program marginfi_program rate_bps term_seconds
      principal_atoms collateral_atoms ltv_buffer_bps residual_mode last_valid_unix_ts
      seat_index_hint : built (place_order_instruction b h market payer marginfi_group debt_bank
      collateral_bank debt_oracles collateral_oracles debt_liquidity_vault
      debt_bank_liquidity_vault_authority borrower_debt_token debt_mint token_program
      marginfi_program rate_bps term_seconds principal_atoms collateral_atoms ltv_buffer_bps
      residual_mode last_valid_unix_ts seat_index_hint) (OnMarket (RqPlaceOrder
      (mkPlaceOrderParams seat_index_hint residual_mode last_valid_unix_ts rate_bps term_seconds
      principal_atoms collateral_atoms ltv_buffer_bps)))
  | built_cancel_order market payer order_sequence seat_index_hint : built
      (cancel_order_instruction b h market payer order_sequence seat_index_hint) (OnMarket
      (RqCancelOrder order_sequence seat_index_hint))
  | built_update_order market payer order_sequence seat_index_hint new_rate_bps new_term_seconds
      new_last_valid_unix_ts new_ltv_buffer_bps : built (update_order_instruction b h market
      payer order_sequence seat_index_hint new_rate_bps new_term_seconds new_last_valid_unix_ts
      new_ltv_buffer_bps) (OnMarket (RqUpdateOrder (mkUpdateOrderParams order_sequence
      seat_index_hint new_rate_bps new_term_seconds new_last_valid_unix_ts new_ltv_buffer_bps)))
  | built_match_crank bank market payer debt_bank marginfi_group collateral_bank debt_oracles
      collateral_oracles max_fills : built (match_crank_instruction b h bank market payer
      debt_bank marginfi_group collateral_bank debt_oracles collateral_oracles max_fills)
      (OnMarket (RqMatchCrank max_fills))
  | built_place_order_for_sub_vault bank market fee_payer curator debt_bank marginfi_group
      collateral_bank debt_oracles collateral_oracles sub_vault_id flags : built
      (place_order_for_sub_vault_instruction b h bank market fee_payer curator debt_bank
      marginfi_group collateral_bank debt_oracles collateral_oracles sub_vault_id flags)
      (OnMarket (RqPlaceOrderForSubVault sub_vault_id flags))
  | built_update_order_for_sub_vault bank market fee_payer curator debt_bank marginfi_group
      collateral_bank debt_oracles collateral_oracles sub_vault_id new_flags : built
      (update_order_for_sub_vault_instruction b h bank market fee_payer curator debt_bank
      marginfi_group collateral_bank debt_oracles collateral_oracles sub_vault_id new_flags)
      (OnMarket (RqUpdateOrderForSubVault sub_vault_id new_flags))
  | built_cancel_order_for_sub_vault bank market fee_payer curator sub_vault_id : built
      (cancel_order_for_sub_vault_instruction b h bank market fee_payer curator sub_vault_id)
      (OnMarket (RqCancelOrderForSubVault sub_vault_id))
  | built_admin_cancel_sub_vault_order bank market payer sub_vault_id : built
      (admin_cancel_sub_vault_order_instruction b h bank market payer sub_vault_id) (OnMarket
      (RqAdminCancelSubVaultOrder sub_vault_id))
  | built_create_vault bank mint payer marginfi_group lending_pool marginfi_program token_program
      token_program_22 : built (create_vault_instruction h bank mint payer marginfi_group
      lending_pool marginfi_program token_program token_program_22) (CreateVaultRequest)
  | built_create_pool_sub_vault bank payer curator spread_bps max_ltv_bps liquidation_ltv_bps
      max_term_seconds curator_fee_bps : built (create_pool_sub_vault_instruction b h bank payer
      curator spread_bps max_ltv_bps liquidation_ltv_bps max_term_seconds curator_fee_bps)
      (OnVault (RqCreatePoolSubVault curator spread_bps max_ltv_bps liquidation_ltv_bps
      max_term_seconds curator_fee_bps))
  | built_create_private_sub_vault bank payer spread_bps max_ltv_bps liquidation_ltv_bps
      max_term_seconds : built (create_private_sub_vault_instruction b h bank payer spread_bps
      max_ltv_bps liquidation_ltv_bps max_term_seconds) (OnVault (RqCreatePrivateSubVault
      spread_bps max_ltv_bps liquidation_ltv_bps max_term_seconds))
  | built_update_sub_vault bank payer sub_vault_id new_max_ltv_bps new_liquidation_ltv_bps
      new_max_term_seconds new_spread_bps : built (update_sub_vault_instruction b h bank payer
      sub_vault_id new_max_ltv_bps new_liquidation_ltv_bps new_max_term_seconds new_spread_bps)
      (OnVault (RqUpdateSubVault sub_vault_id (mkUpdateSubVaultParams new_max_ltv_bps
      new_liquidation_ltv_bps new_max_term_seconds new_spread_bps)))
  | built_sunset_sub_vault bank payer sub_vault_id : built (sunset_sub_vault_instruction b h bank
      payer sub_vault_id) (OnVault (RqSunsetSubVault sub_vault_id))
  | built_resume_sub_vault bank payer sub_vault_id : built (resume_sub_vault_instruction b h bank
      payer sub_vault_id) (OnVault (RqResumeSubVault sub_vault_id))
  | built_remove_sub_vault bank payer sub_vault_id : built (remove_sub_vault_instruction b h bank
      payer sub_vault_id) (OnVault (RqRemoveSubVault sub_vault_id))
  | built_transfer_global_vault_admin bank current_admin new_admin : built
      (transfer_global_vault_admin_instruction b h bank current_admin new_admin) (OnVault
      (RqTransferGlobalVaultAdmin new_admin))
  | built_accept_global_vault_admin bank pending_admin : built
      (accept_global_vault_admin_instruction h bank pending_admin) (OnVault
      RqAcceptGlobalVaultAdmin)
  | built_transfer_curator bank current_curator sub_vault_id new_curator : built
      (transfer_curator_instruction b h bank current_curator sub_vault_id new_curator) (OnVault
      (RqTransferCurator sub_vault_id new_curator))
  | built_accept_curator bank pending_curator sub_vault_id : built (accept_curator_instruction b
      h bank pending_curator sub_vault_id) (OnVault (RqAcceptCurator sub_vault_id))
  | built_set_vault_pause vault admin paused : built (set_vault_pause_instruction b h vault admin
      paused) (OnVault (RqSetVaultPause (if paused then 1 else 0)))
  | built_global_vault_deposit bank mint depositor depositor_token token_program marginfi_group
      lending_pool liquidity_vault marginfi_program sub_vault_id amount_atoms : built
      (global_vault_deposit_instruction b h bank mint depositor depositor_token token_program
      marginfi_group lending_pool liquidity_vault marginfi_program sub_vault_id amount_atoms)
      (OnVault (RqGlobalVaultDeposit amount_atoms sub_vault_id))
  | built_global_vault_withdraw bank mint depositor depositor_token token_program marginfi_group
      lending_pool lending_pool_oracle liquidity_vault bank_liquidity_vault_authority
      marginfi_program sub_vault_id shares_to_burn : built (global_vault_withdraw_instruction b h
      bank mint depositor depositor_token token_program marginfi_group lending_pool
      lending_pool_oracle liquidity_vault bank_liquidity_vault_authority marginfi_program
      sub_vault_id shares_to_burn) (OnVault (RqGlobalVaultWithdraw shares_to_burn sub_vault_id))
  | built_claim_curator_fee bank mint payer curator_token debt_bank liquidity_vault
      bank_liquidity_vault_authority bank_oracle token_program marginfi_program marginfi_group
      sub_vault_id : built (claim_curator_fee_instruction b h bank mint payer curator_token
      debt_bank liquidity_vault bank_liquidity_vault_authority bank_oracle token_program
      marginfi_program marginfi_group sub_vault_id) (OnVault (RqClaimCuratorFee sub_vault_id))
  | built_claim_repayment_for_sub_vault payer market sub_vault_id global_vault debt_mint
      debt_bank debt_liquidity_vault debt_bank_lva bank_oracles lender_marginfi_account
      token_program marginfi_group marginfi_program : built
      (claim_repayment_for_sub_vault_instruction b h payer market sub_vault_id global_vault
      debt_mint debt_bank debt_liquidity_vault debt_bank_lva bank_oracles lender_marginfi_account
      token_program marginfi_group marginfi_program) (OnMarket (RqClaimRepaymentForSubVault
      sub_vault_id))
  | built_protocol_fee_claim market admin debt_mint admin_debt_token debt_bank
      debt_liquidity_vault debt_bank_lva debt_oracles token_program marginfi_group
      marginfi_program : built (protocol_fee_claim_instruction h market admin debt_mint
      admin_debt_token debt_bank debt_liquidity_vault debt_bank_lva debt_oracles token_program
      marginfi_group marginfi_program) (OnMarket RqProtocolFeeClaim)
  | built_process_matched_loan market payer debt_bank marginfi_program sequence
      matched_loan_index_hint vault_settle : built (process_matched_loan_instruction b h market
      payer debt_bank marginfi_program sequence matched_loan_index_hint vault_settle) (OnMarket
      (RqProcessMatchedLoan sequence matched_loan_index_hint))
  | built_repay market borrower sequence debt_mint borrower_token token_program marginfi_group
      debt_bank debt_liquidity_vault collateral_bank marginfi_program repay_atoms full_repay
      borrower_seat_index_hint cranker_refund global_vault : built (repay_instruction b h market
      borrower sequence debt_mint borrower_token token_program marginfi_group debt_bank
      debt_liquidity_vault collateral_bank marginfi_program repay_atoms full_repay
      borrower_seat_index_hint cranker_refund global_vault) (OnMarket (RqRepay (mkRepayParams
      repay_atoms full_repay borrower_seat_index_hint)))
  | built_settle_matured_loan market payer sequence debt_mint collateral_mint
      liquidator_debt_token liquidator_collateral_token debt_bank collateral_bank
      debt_liquidity_vault collateral_liquidity_vault collateral_bank_lva debt_oracles
      collateral_oracles token_program marginfi_group marginfi_program repay_atoms_max
      cranker_refund global_vault : built (settle_matured_loan_instruction h market payer
      sequence debt_mint collateral_mint liquidator_debt_token liquidator_collateral_token
      debt_bank collateral_bank debt_liquidity_vault collateral_liquidity_vault
      collateral_bank_lva debt_oracles collateral_oracles token_program marginfi_group
      marginfi_program repay_atoms_max cranker_refund global_vault) (OnMarket
      (RqSettleMaturedLoan (u64_le_bytes repay_atoms_max)))
  | built_liquidate_loan market payer sequence debt_mint collateral_mint liquidator_debt_token
      liquidator_collateral_token debt_bank collateral_bank debt_liquidity_vault
      collateral_liquidity_vault collateral_bank_lva debt_oracles collateral_oracles
      token_program marginfi_group marginfi_program repay_atoms_max cranker_refund global_vault :
      built (liquidate_loan_instruction h market payer sequence debt_mint collateral_mint
      liquidator_debt_token liquidator_collateral_token debt_bank collateral_bank
      debt_liquidity_vault collateral_liquidity_vault collateral_bank_lva debt_oracles
      collateral_oracles token_program marginfi_group marginfi_program repay_atoms_max
      cranker_refund global_vault) (OnMarket (RqLiquidateLoan (u64_le_bytes repay_atoms_max)))
  | built_check_ltv_liquidatable market payer sequence debt_bank collateral_bank debt_oracles
      collateral_oracles marginfi_program : built (check_ltv_liquidatable_instruction h market
      payer sequence debt_bank collateral_bank debt_oracles collateral_oracles marginfi_program)
      (OnMarket RqCheckLtvLiquidatable)
  | built_check_maturity_liquidatable market payer sequence debt_bank marginfi_program : built
      (check_maturity_liquidatable_instruction h market payer sequence debt_bank
      marginfi_program) (OnMarket RqCheckMaturityLiquidatable)
  | built_convert_p2pool_to_fixed market borrower loan_sequence debt_mint debt_bank
      debt_liquidity_vault debt_bank_lva debt_oracles collateral_bank collateral_oracles
      token_program marginfi_group marginfi_program max_acceptable_rate_bps ltv_buffer_bps
      cranker_refund : built (convert_p2pool_to_fixed_instruction b h market borrower
      loan_sequence debt_mint debt_bank debt_liquidity_vault debt_bank_lva debt_oracles
      collateral_bank collateral_oracles token_program marginfi_group marginfi_program
      max_acceptable_rate_bps ltv_buffer_bps cranker_refund) (OnMarket (RqConvertP2PoolToFixed
      max_acceptable_rate_bps ltv_buffer_bps)).
End built.

(** What is written for a keeper's instruction is the limit its handler reads. *)
Lemma from_le_bytes_put k x : in_u (8 * Z.of_nat k) x → from_le_bytes (le_put k x) = x.
Proof.
  intros H. assert (∀ bytes y r, le_get k bytes = Some (y, r) → from_le_bytes (take k bytes) = y) as G.
  { clear x H. induction k as [|k IH]; intros bytes y r; [by intros [= <-]|].
    destruct bytes as [|byte bytes]; cbn [le_get]; [done|].
    destruct (_ && _); [|done]. destruct (le_get k bytes) as [[z r']|] eqn:E; cbn; [|done].
    intros [= <- <-]. by rewrite <- (IH _ _ _ E). }
  pose proof (G _ _ _ (le_get_put k x [] H)) as Hx.
  by rewrite take_app_length' in Hx by (symmetry; apply le_put_length).
Qed.

Lemma u64_le_bytes_put n : u64_le_bytes n = le_put 8 n.
Proof.
  change (u64_le_bytes n) with
    (map (λ i, n / i mod 256) [1; 256; 256 * 256; 256 * 256 * 256; 256 * 256 * 256 * 256;
       256 * 256 * 256 * 256 * 256; 256 * 256 * 256 * 256 * 256 * 256;
       256 * 256 * 256 * 256 * 256 * 256 * 256]).
  cbn [map le_put]. by rewrite <- !Z.div_div, Z.div_1_r by lia.
Qed.

Lemma parse_repay_max_written n : in_u U64 n → parse_repay_max (u64_le_bytes n) = Ok n.
Proof.
  intros Hn. transitivity (Ok (from_le_bytes (u64_le_bytes n))); [reflexivity|].
  f_equal. rewrite u64_le_bytes_put. by apply from_le_bytes_put.
Qed.

Section run.
Context (b : Borsh) {Hb : BorshLaws b} (h : Host).
Context (invoke_signed : MarginfiIx → list AccountInfo → result (list AccountInfo)).
Context (invoke_token : TokenIx → list AccountInfo → result (list AccountInfo)).
Context (parse_stake_state : list Z → option StakeState).
Context (o : Outside) (now : Z).

(** The transaction of one built instruction. *)
Definition send (s : System) (ix : Instruction) : result System :=
  process_instruction b h invoke_signed invoke_token parse_stake_state s o now (ix_program_id ix)
    (ix_accounts ix) (ix_data ix).

Local Abbreviation exec s := (execute h invoke_signed invoke_token parse_stake_state s o now).

Lemma built_data ix r : built b h ix r → ix_program_id ix = YDELTA_ID ∧ ix_data ix = request_data b r.
Proof. by intros []. Qed.

Lemma send_built s ix r : built b h ix r → valid_request r → send s ix = exec s (ix_accounts ix) r.
Proof.
  intros H Hr. destruct (built_data _ _ H) as [Hid Hd]. unfold send. rewrite Hid, Hd.
  by apply run_written.
Qed.

(** ** The accounts of a role *)

Lemma config_info s g m : sy_config s = Some g → am_key m = fst (global_config_pda h) →
  account_info h s o m = mkTxAccount (am_key m) YDELTA_ID (os_lamports o (am_key m)) (am_is_signer m)
                           (am_is_writable m) (ConfigData g).
Proof. intros Hg Hm. unfold account_info, account_content. by rewrite Hm, Z.eqb_refl, Hg. Qed.

Lemma market_info s x m : sy_markets s !! am_key m = Some x → am_key m ≠ fst (global_config_pda h) →
  account_info h s o m = mkTxAccount (am_key m) YDELTA_ID (os_lamports o (am_key m)) (am_is_signer m)
                           (am_is_writable m) (MarketData x).
Proof.
  intros Hx Hm. unfold account_info, account_content. by rewrite (proj2 (Z.eqb_neq _ _) Hm), Hx.
Qed.

Lemma vault_info s x m : sy_vaults s !! am_key m = Some x → am_key m ≠ fst (global_config_pda h) →
  sy_markets s !! am_key m = None →
  account_info h s o m = mkTxAccount (am_key m) YDELTA_ID (os_lamports o (am_key m)) (am_is_signer m)
                           (am_is_writable m) (VaultData x).
Proof.
  intros Hx Hm Hn. unfold account_info, account_content.
  by rewrite (proj2 (Z.eqb_neq _ _) Hm), Hn, Hx.
Qed.

Lemma payer_info s k : ∃ owner content,
  account_info h s o (payer_meta k) = mkTxAccount k owner (os_lamports o k) true true content.
Proof. unfold account_info. simpl. destruct (account_content h s o k). by eexists _, _. Qed.

Ltac unfold_load :=
  cbv [mbind load_bind mret load_ret next_account_info lift check result_bind result_ret]; cbn.

Lemma load_market_role_Ok s payer market g m : sy_config s = Some g →
  global_config_verify_discriminant g = Ok tt → sy_markets s !! market = Some m →
  market ≠ fst (global_config_pda h) → open_market m = Ok m → 0 <= mf_num_bytes_allocated (mk_fixed m) →
  load_market_role h (map (account_info h s o)
    [payer_meta payer; readonly (fst (global_config_pda h)); writable market])
  = Ok ((payer, g, mkInfo market m), []).
Proof.
  intros Hg Hd Hm Hne Ho Hb'. destruct (payer_info s payer) as (owner & content & Hp).
  cbn [map]. rewrite Hp, (config_info s g), (market_info s m) by done.
  unfold load_market_role, next_payer, next_global_config_no_pause, next_ydelta. unfold_load.
  rewrite Z.eqb_refl. cbn. rewrite Hd. cbn.
  rewrite (proj2 (Z.leb_le _ _)) by lia. cbn. unfold open_market in Ho.
  destruct (market_verify_discriminant _) as [[]|]; [|done].
  by destruct (market_verify_version _) as [[]|].
Qed.

Lemma load_vault_role_Ok s payer vault g v : sy_config s = Some g →
  global_config_verify_discriminant g = Ok tt → sy_vaults s !! vault = Some v →
  sy_markets s !! vault = None → vault ≠ fst (global_config_pda h) → open_vault v = Ok v →
  0 <= gv_num_bytes_allocated (vt_fixed v) →
  load_vault_role h (map (account_info h s o)
    [payer_meta payer; readonly (fst (global_config_pda h)); writable vault])
  = Ok ((payer, g, mkInfo vault v), []).
Proof.
  intros Hg Hd Hv Hn Hne Ho Hb'. destruct (payer_info s payer) as (owner & content & Hp).
  cbn [map]. rewrite Hp, (config_info s g), (vault_info s v) by done.
  unfold load_vault_role, next_payer, next_global_config_no_pause, next_ydelta. unfold_load.
  rewrite Z.eqb_refl. cbn. rewrite Hd. cbn.
  rewrite (proj2 (Z.leb_le _ _)) by lia. cbn. unfold open_vault in Ho.
  destruct (vault_verify_discriminant _) as [[]|]; [|done].
  by destruct (vault_verify_version _) as [[]|].
Qed.

Lemma load_config_role_Ok s payer g : sy_config s = Some g →
  global_config_verify_discriminant g = Ok tt →
  load_config_role h (map (account_info h s o) [payer_meta payer; writable (fst (global_config_pda h))])
  = Ok ((payer, g), []).
Proof.
  intros Hg Hd. destruct (payer_info s payer) as (owner & content & Hp).
  cbn [map]. rewrite Hp, (config_info s g) by done.
  unfold load_config_role, next_payer, next_global_config_no_pause. unfold_load.
  rewrite Z.eqb_refl. cbn. by rewrite Hd.
Qed.

(** An administrative instruction on a market, on a vault, on the configuration. *)
Section roles.
Context (s : System) (g : GlobalConfig) (payer : Pubkey).
Context (Hg : sy_config s = Some g) (Hd : global_config_verify_discriminant g = Ok tt).

Lemma market_role_runs market m m' ix rm (i : Pubkey → MarketIx) (f : GlobalConfig → Market → result Market) :
  sy_markets s !! market = Some m → market ≠ fst (global_config_pda h) → open_market m = Ok m →
  0 <= mf_num_bytes_allocated (mk_fixed m) →
  built b h ix (OnMarket rm) → valid_market_request rm →
  ix_accounts ix = [payer_meta payer; readonly (fst (global_config_pda h)); writable market] →
  load_market_ix h rm = ('(p, _, a) ← load_market_role h; mret (i p, opened_market (yi_key a) no_user)) →
  (∀ k w, run_market_ix invoke_signed invoke_token parse_stake_state now k g (i payer) w
          = on_market w (f g)) →
  f g m = Ok m' → send s ix = Ok (s <| sy_markets := <[market := m']> (sy_markets s) |>).
Proof.
  intros Hm Hne Ho Hlen Hix Hr Hacc Hl Hrun Hf. rewrite (send_built s ix _ Hix Hr), Hacc.
  unfold execute. cbv zeta. rewrite Hl. cbv [mbind load_bind result_bind].
  rewrite (load_market_role_Ok s payer market g m) by done. cbn. rewrite Hg. cbn.
  unfold open_world. cbn. rewrite Hm. cbn. rewrite Hrun. unfold on_market. cbn. rewrite Hf. cbn.
  unfold close_world. cbn. rewrite ?Hg.
  destruct (sy_loans s !! Pubkey_default) eqn:E; cbn.
  - by rewrite (insert_id (sy_loans s)) by done.
  - by rewrite (delete_id (sy_loans s)) by done.
Qed.

Lemma vault_role_runs vault v v' ix rv (i : Pubkey → VaultIx) :
  sy_vaults s !! vault = Some v → sy_markets s !! vault = None → vault ≠ fst (global_config_pda h) →
  open_vault v = Ok v → 0 <= gv_num_bytes_allocated (vt_fixed v) →
  built b h ix (OnVault rv) → valid_vault_request rv →
  ix_accounts ix = [payer_meta payer; readonly (fst (global_config_pda h)); writable vault] →
  load_vault_ix h rv = ('(p, _, a) ← load_vault_role h; mret (i p, open_vault_only a)) →
  run_vault_ix invoke_signed invoke_token now g (i payer) v no_user (os_ledger o) = Ok v' →
  send s ix = Ok (s <| sy_vaults := <[vault := v']> (sy_vaults s) |>).
Proof.
  intros Hv Hn Hne Ho Hlen Hix Hr Hacc Hl Hrun. rewrite (send_built s ix _ Hix Hr), Hacc.
  unfold execute. cbv zeta. rewrite Hl. cbv [mbind load_bind result_bind].
  rewrite (load_vault_role_Ok s payer vault g v) by done. cbn. rewrite Hg. cbn.
  rewrite Hrun. by cbn.
Qed.

Lemma config_role_runs g' ix rc (i : Pubkey → ConfigIx) :
  built b h ix (OnConfig rc) → valid_request (OnConfig rc) →
  ix_accounts ix = [payer_meta payer; writable (fst (global_config_pda h))] →
  load_config_ix h rc = ('(p, c) ← load_config_role h; mret (i p, c)) →
  process_config_ix (i payer) g = Ok g' → send s ix = Ok (s <| sy_config := Some g' |>).
Proof.
  intros Hix Hr Hacc Hl Hrun. rewrite (send_built s ix _ Hix Hr), Hacc.
  unfold execute. cbv zeta. rewrite Hl. cbv [mbind load_bind result_bind].
  rewrite (load_config_role_Ok s payer g) by done. cbn. rewrite Hrun. by cbn.
Qed.
End roles.

(** ** Nomination, then acceptance *)

Section handover.
Context (s : System) (g : GlobalConfig) (new_admin : Pubkey).
Context (Hg : sy_config s = Some g) (Hd : global_config_verify_discriminant g = Ok tt).
Context (Hnew : in_u 256 new_admin) (Hnull : (new_admin =? Pubkey_default) = false).

Lemma config_handover :
  (s1 ← send s (transfer_protocol_admin_instruction b h (gc_protocol_admin g) new_admin);
   send s1 (accept_protocol_admin_instruction h new_admin))
  = Ok (s <| sy_config := Some (g <| gc_protocol_admin := new_admin |>
                                  <| gc_pending_protocol_admin := Pubkey_default |>) |>).
Proof.
  set (g1 := g <| gc_pending_protocol_admin := new_admin |>).
  set (s1 := s <| sy_config := Some g1 |>). assert (sy_config s1 = Some g1) as Hg1 by done.
  apply bind_Ok. exists s1. split.
  - apply (config_role_runs s g (gc_protocol_admin g) Hg Hd g1
      (transfer_protocol_admin_instruction b h (gc_protocol_admin g) new_admin) (RqTransferProtocolAdmin new_admin)
      (λ p, IxTransferProtocolAdmin p new_admin)); try done; [constructor|].
    simpl. unfold process_transfer_protocol_admin, load_global_config_no_pause.
    by rewrite Hd; simpl; rewrite Z.eqb_refl.
  - rewrite (config_role_runs s1 g1 new_admin Hg1 Hd
      (g <| gc_protocol_admin := new_admin |> <| gc_pending_protocol_admin := Pubkey_default |>) _
      RqAcceptProtocolAdmin IxAcceptProtocolAdmin); try done; [constructor|].
    simpl. unfold process_accept_protocol_admin, load_global_config_no_pause.
    change (global_config_verify_discriminant g1) with (global_config_verify_discriminant g).
    rewrite Hd; simpl. rewrite Z.eqb_refl; simpl. by rewrite Hnull.
Qed.

Lemma open_market_pending m f : open_market m = Ok m →
  (∀ x, mf_discriminator (f x) = mf_discriminator x) → (∀ x, mf_version (f x) = mf_version x) →
  open_market (m <| mk_fixed ::= f |>) = Ok (m <| mk_fixed ::= f |>).
Proof.
  intros Ho Hf Hv. unfold open_market, market_verify_discriminant, market_verify_version in *.
  change (mk_fixed (m <| mk_fixed ::= f |>)) with (f (mk_fixed m)). rewrite Hf, Hv.
  apply bind_Ok in Ho as ([] & -> & Ho). by apply bind_Ok in Ho as ([] & -> & _).
Qed.

Lemma market_handover market m : sy_markets s !! market = Some m →
  market ≠ fst (global_config_pda h) → open_market m = Ok m → 0 <= mf_num_bytes_allocated (mk_fixed m) →
  (s1 ← send s (transfer_market_admin_instruction b h market (mf_admin (mk_fixed m)) new_admin);
   send s1 (accept_market_admin_instruction h market new_admin))
  = Ok (s <| sy_markets ::= <[market := m <| mk_fixed ::= λ f,
               f <| mf_admin := new_admin |> <| mf_pending_admin := Pubkey_default |> |>]> |>).
Proof.
  intros Hm Hne Ho Hlen. set (m1 := m <| mk_fixed ::= λ f, f <| mf_pending_admin := new_admin |> |>).
  assert (open_market m1 = Ok m1) as Ho1 by by apply open_market_pending.
  set (s1 := s <| sy_markets := <[market := m1]> (sy_markets s) |>).
  apply bind_Ok. exists s1. split.
  - apply (market_role_runs s g (mf_admin (mk_fixed m)) Hg Hd market m m1
      (transfer_market_admin_instruction b h market (mf_admin (mk_fixed m)) new_admin)
      (RqTransferMarketAdmin new_admin)
      (λ p, IxTransferMarketAdmin p new_admin)
      (λ g, process_transfer_market_admin g (mf_admin (mk_fixed m)) new_admin)); try done; [constructor|].
    unfold process_transfer_market_admin, load_global_config_no_pause.
    rewrite Hd; simpl. rewrite Ho; simpl. by rewrite Z.eqb_refl.
  - rewrite (market_role_runs s1 g new_admin Hg Hd
      market m1 (m <| mk_fixed ::= λ f, f <| mf_admin := new_admin |> <| mf_pending_admin := Pubkey_default |> |>)
      _ RqAcceptMarketAdmin IxAcceptMarketAdmin (λ g, process_accept_market_admin g new_admin)); try done.
    + unfold set_field. simpl. by rewrite insert_insert_eq.
    + simpl. by rewrite lookup_insert_eq.
    + constructor.
    + unfold process_accept_market_admin, load_global_config_no_pause.
      rewrite Hd; simpl. rewrite Ho1; simpl. rewrite Z.eqb_refl; simpl. by rewrite Hnull.
Qed.

Lemma open_vault_pending v f : open_vault v = Ok v →
  (∀ x, gv_discriminator (f x) = gv_discriminator x) → (∀ x, gv_version (f x) = gv_version x) →
  open_vault (v <| vt_fixed ::= f |>) = Ok (v <| vt_fixed ::= f |>).
Proof.
  intros Ho Hf Hv. unfold open_vault, vault_verify_discriminant, vault_verify_version in *.
  change (vt_fixed (v <| vt_fixed ::= f |>)) with (f (vt_fixed v)). rewrite Hf, Hv.
  apply bind_Ok in Ho as ([] & -> & Ho). by apply bind_Ok in Ho as ([] & -> & _).
Qed.

Lemma vault_handover bank v : let vault := fst (global_vault_pda h bank) in
  sy_vaults s !! vault = Some v → sy_markets s !! vault = None → vault ≠ fst (global_config_pda h) →
  open_vault v = Ok v → 0 <= gv_num_bytes_allocated (vt_fixed v) →
  (s1 ← send s (transfer_global_vault_admin_instruction b h bank (gv_global_vault_admin (vt_fixed v))
                  new_admin);
   send s1 (accept_global_vault_admin_instruction h bank new_admin))
  = Ok (s <| sy_vaults ::= <[vault := v <| vt_fixed ::= λ f,
               f <| gv_global_vault_admin := new_admin |>
                 <| gv_pending_global_vault_admin := Pubkey_default |> |>]> |>).
Proof.
  intros vault Hv Hn Hne Ho Hlen.
  set (v1 := v <| vt_fixed ::= λ f, f <| gv_pending_global_vault_admin := new_admin |> |>).
  assert (open_vault v1 = Ok v1) as Ho1 by by apply open_vault_pending.
  set (s1 := s <| sy_vaults := <[vault := v1]> (sy_vaults s) |>).
  apply bind_Ok. exists s1. split.
  - apply (vault_role_runs s g (gv_global_vault_admin (vt_fixed v)) Hg Hd vault v v1
      (transfer_global_vault_admin_instruction b h bank (gv_global_vault_admin (vt_fixed v)) new_admin)
      (RqTransferGlobalVaultAdmin new_admin)
      (λ p, IxTransferGlobalVaultAdmin p new_admin)); try done; [constructor|].
    simpl. unfold process_transfer_global_vault_admin, load_global_config_no_pause.
    rewrite Hd; simpl. rewrite Ho; simpl. by rewrite Z.eqb_refl.
  - rewrite (vault_role_runs s1 g new_admin Hg Hd
      vault v1 (v <| vt_fixed ::= λ f, f <| gv_global_vault_admin := new_admin |>
                  <| gv_pending_global_vault_admin := Pubkey_default |> |>)
      _ RqAcceptGlobalVaultAdmin IxAcceptGlobalVaultAdmin); try done.
    + unfold set_field. simpl. by rewrite insert_insert_eq.
    + simpl. by rewrite lookup_insert_eq.
    + constructor.
    + simpl. unfold process_accept_global_vault_admin, load_global_config_no_pause.
      rewrite Hd; simpl. rewrite Ho1; simpl. rewrite Z.eqb_refl; simpl. by rewrite Hnull.
Qed.
End handover.
End run.

(** C33: what the client builds is what the program runs.  Each of the 45 builders writes the
    tag and the parameters of the request it stands for: sent to the program, the instruction
    runs as that request on the accounts listed, never as another and never refused for its
    data, and a keeper's limit arrives as it was given. *)
Theorem built_instructions_run (b : Borsh) (Hb : BorshLaws b) (h : Host)
    (invoke_signed : MarginfiIx → list AccountInfo → result (list AccountInfo))
    (invoke_token : TokenIx → list AccountInfo → result (list AccountInfo))
    (parse_stake_state : list Z → option StakeState)
    (s : System) (o : Outside) (now : Z) (ix : Instruction) (r : Request)
    (Hbuilt : built b h ix r) (Hr : valid_request r) :
  process_instruction b h invoke_signed invoke_token parse_stake_state s o now (ix_program_id ix)
    (ix_accounts ix) (ix_data ix)
  = execute h invoke_signed invoke_token parse_stake_state s o now (ix_accounts ix) r
  ∧ (∀ limit, in_u U64 limit → ix_data ix = [16] ++ u64_le_bytes limit →
       r = OnMarket (RqSettleMaturedLoan (u64_le_bytes limit))
       ∧ parse_repay_max (u64_le_bytes limit) = Ok limit)
  ∧ (∀ limit, in_u U64 limit → ix_data ix = [17] ++ u64_le_bytes limit →
       r = OnMarket (RqLiquidateLoan (u64_le_bytes limit))
       ∧ parse_repay_max (u64_le_bytes limit) = Ok limit).
Proof.
  split; [by apply send_built|].
  destruct (built_data b h ix r Hbuilt) as [_ Hd].
  split; intros limit Hlimit Hdata; (split; [|by apply parse_repay_max_written]);
    rewrite Hd in Hdata; destruct Hbuilt; try discriminate Hdata;
    do 2 f_equal; exact (f_equal tail Hdata).
Qed.

Lemma built_instructions_run_witness :
  process_instruction le_borsh sample_host (λ _ _, Err Panic) (λ _ _, Err Panic) (λ _, None)
    sample_chain sample_outside 1700000000 YDELTA_ID
    (ix_accounts (set_market_pause_instruction le_borsh sample_host 7 9 true)) [27; 1]
  = execute sample_host (λ _ _, Err Panic) (λ _ _, Err Panic) (λ _, None) sample_chain
      sample_outside 1700000000
      (ix_accounts (set_market_pause_instruction le_borsh sample_host 7 9 true))
      (OnMarket (RqSetMarketPause 1)).
Proof.
  apply (built_instructions_run le_borsh le_borsh_laws sample_host (λ _ _, Err Panic)
    (λ _ _, Err Panic) (λ _, None) sample_chain sample_outside 1700000000
    (set_market_pause_instruction le_borsh sample_host 7 9 true) (OnMarket (RqSetMarketPause 1))).
  - exact (built_set_market_pause le_borsh sample_host 7 9 true).
  - split; reflexivity || discriminate.
Defined.

(** C35: the roles of the program can be handed over.  On every chain with a configuration, paused
    or not, and whatever its other accounts: the two instructions that [transfer_..._admin]
    and [accept_..._admin] build, the first signed by the admin of the protocol, of a market
    or of a vault, the second by the nominee, go through, and together change nothing but
    that the nominee is now the admin and nobody is nominated. *)
Theorem client_hands_over_roles (b : Borsh) (Hb : BorshLaws b) (h : Host)
    (invoke_signed : MarginfiIx → list AccountInfo → result (list AccountInfo))
    (invoke_token : TokenIx → list AccountInfo → result (list AccountInfo))
    (parse_stake_state : list Z → option StakeState) (o : Outside) (now : Z)
    (s : System) (g : GlobalConfig) (new_admin : Pubkey)
    (Hg : sy_config s = Some g) (Hd : global_config_verify_discriminant g = Ok tt)
    (Hnew : in_u 256 new_admin) (Hnull : new_admin ≠ Pubkey_default) :
  let send := send b h invoke_signed invoke_token parse_stake_state o now in
  let config := fst (global_config_pda h) in
  (s1 ← send s (transfer_protocol_admin_instruction b h (gc_protocol_admin g) new_admin);
   send s1 (accept_protocol_admin_instruction h new_admin))
    = Ok (s <| sy_config := Some (g <| gc_protocol_admin := new_admin |>
                                    <| gc_pending_protocol_admin := Pubkey_default |>) |>)
  ∧ (∀ market m, sy_markets s !! market = Some m → market ≠ config → open_market m = Ok m →
       0 <= mf_num_bytes_allocated (mk_fixed m) →
       (s1 ← send s (transfer_market_admin_instruction b h market (mf_admin (mk_fixed m)) new_admin);
        send s1 (accept_market_admin_instruction h market new_admin))
       = Ok (s <| sy_markets ::= <[market := m <| mk_fixed ::= λ f,
                    f <| mf_admin := new_admin |> <| mf_pending_admin := Pubkey_default |> |>]> |>))
  ∧ (∀ bank v, let vault := fst (global_vault_pda h bank) in
       sy_vaults s !! vault = Some v → sy_markets s !! vault = None → vault ≠ config →
       open_vault v = Ok v → 0 <= gv_num_bytes_allocated (vt_fixed v) →
       (s1 ← send s (transfer_global_vault_admin_instruction b h bank
                       (gv_global_vault_admin (vt_fixed v)) new_admin);
        send s1 (accept_global_vault_admin_instruction h bank new_admin))
       = Ok (s <| sy_vaults ::= <[vault := v <| vt_fixed ::= λ f,
                    f <| gv_global_vault_admin := new_admin |>
                      <| gv_pending_global_vault_admin := Pubkey_default |> |>]> |>)).
Proof.
  intros send' config. apply Z.eqb_neq in Hnull. split_and!.
  - by apply config_handover with (g := g).
  - intros market m. by apply market_handover with (g := g).
  - intros bank v. by apply vault_handover with (g := g).
Qed.

(** A market, a vault and the protocol change hands. *)
Definition handover_vault : Vault := mkVault (global_vault_new_empty 3 9 5 6 7 8 255) ∅.
Definition handover_chain : System :=
  mkSystem (Some (global_config_new_empty 9)) {[7 := sample_empty_market]}
    {[fst (global_vault_pda sample_host 50) := handover_vault]} ∅.
Definition handover_send : System → Instruction → result System :=
  send le_borsh sample_host (λ _ _, Err Panic) (λ _ _, Err Panic) (λ _, None) sample_outside 1700000000.

Lemma client_hands_over_roles_witness :
  match s1 ← handover_send handover_chain
          (transfer_market_admin_instruction le_borsh sample_host 7
             (mf_admin (mk_fixed sample_empty_market)) 1234);
        handover_send s1 (accept_market_admin_instruction sample_host 7 1234) with
  | Ok s2 => (mf_admin ∘ mk_fixed) <$> sy_markets s2 !! 7 = Some 1234
  | Err _ => False
  end
  ∧ match s1 ← handover_send handover_chain
            (transfer_global_vault_admin_instruction le_borsh sample_host 50
               (gv_global_vault_admin (vt_fixed handover_vault)) 1234);
          handover_send s1 (accept_global_vault_admin_instruction sample_host 50 1234) with
    | Ok s2 => sy_config s2 = sy_config handover_chain ∧ sy_markets s2 = sy_markets handover_chain
    | Err _ => False
    end.
Proof.
  destruct (client_hands_over_roles le_borsh le_borsh_laws sample_host (λ _ _, Err Panic)
    (λ _ _, Err Panic) (λ _, None) sample_outside 1700000000 handover_chain
    (global_config_new_empty 9) 1234) as (_ & Hmarket & Hvault);
    [reflexivity|reflexivity|split; reflexivity || discriminate|discriminate|]. split.
  - unfold handover_send. rewrite (Hmarket 7 sample_empty_market); [vm_compute; reflexivity|reflexivity| |reflexivity|vm_compute; discriminate].
    vm_compute. discriminate.
  - unfold handover_send. rewrite (Hvault 50 handover_vault); [split; reflexivity| | | |reflexivity|vm_compute; discriminate].
    + vm_compute. reflexivity.
    + vm_compute. reflexivity.
    + vm_compute. discriminate.
Defined.
