(* ===== verification/Cpi.v ===== *)
(** * The instructions sent to marginfi ([marginfi-mocks/src/cpi.rs])

    The adapter and the handlers of the program describe a call into marginfi by a
    [MarginfiIx]; what reaches the runtime is an [Instruction]: the address of marginfi,
    the accounts with their privileges, and the bytes of the discriminator and the
    arguments.  This file builds it, from the accounts the caller holds.  A call of the
    adapter through a runtime [invoke] is [marginfi_cpi invoke], an instance of the
    [invoke_signed] the rest of the development is parametric in. *)
From stdpp Require Import base numbers list option gmap.
From S2P Require Import Prelude FixedPoint Loan Marginfi Oracles Hypertree SubVault.
From S2P Require Import Market VaultTrees Matching UserAccount Runtime LoanClose Repay.
From S2P Require Import Keeper Promotion Deposits Claims Convert Admin Orders Program.
From S2P Require Import Accounts Loaders Execute Wire Builders.
Local Open Scope Z_scope.
Local Open Scope ydelta_scope.

(** ** The discriminators *)

Definition IX_LENDING_ACCOUNT_DEPOSIT : list Z := [171; 94; 235; 103; 82; 64; 212; 140].
Definition IX_LENDING_ACCOUNT_WITHDRAW : list Z := [36; 72; 74; 19; 210; 210; 192; 192].
Definition IX_LENDING_ACCOUNT_BORROW : list Z := [4; 126; 116; 53; 48; 5; 212; 31].
Definition IX_LENDING_ACCOUNT_REPAY : list Z := [79; 209; 172; 177; 222; 51; 173; 151].
Definition IX_MARGINFI_ACCOUNT_INITIALIZE : list Z := [43; 78; 61; 255; 148; 52; 249; 154].

(** ** The accounts of each call *)

Record DepositAccounts := mkDepositAccounts {
  da_group : Pubkey;
  da_marginfi_account : Pubkey;
  da_authority : Pubkey;
  da_bank : Pubkey;
  da_signer_token_account : Pubkey;
  da_liquidity_vault : Pubkey;
  da_token_program : Pubkey }.

Record WithdrawAccounts := mkWithdrawAccounts {
  wa_group : Pubkey;
  wa_marginfi_account : Pubkey;
  wa_authority : Pubkey;
  wa_bank : Pubkey;
  wa_destination_token_account : Pubkey;
  wa_bank_liquidity_vault_authority : Pubkey;
  wa_liquidity_vault : Pubkey;
  wa_token_program : Pubkey }.

Record BorrowAccounts := mkBorrowAccounts {
  ba_group : Pubkey;
  ba_marginfi_account : Pubkey;
  ba_authority : Pubkey;
  ba_bank : Pubkey;
  ba_destination_token_account : Pubkey;
  ba_bank_liquidity_vault_authority : Pubkey;
  ba_liquidity_vault : Pubkey;
  ba_token_program : Pubkey }.

Record RepayAccounts := mkRepayAccounts {
  ra_group : Pubkey;
  ra_marginfi_account : Pubkey;
  ra_authority : Pubkey;
  ra_bank : Pubkey;
  ra_signer_token_account : Pubkey;
  ra_liquidity_vault : Pubkey;
  ra_token_program : Pubkey }.

Record InitializeMarginfiAccounts := mkInitializeMarginfiAccounts {
  ia_marginfi_group : Pubkey;
  ia_marginfi_account : Pubkey;
  ia_authority : Pubkey;
  ia_fee_payer : Pubkey;
  ia_system_program : Pubkey }.

(** ** The builders *)

Section Cpi.
  Variable b : Borsh.

Definition deposit_ix (accounts : DepositAccounts) (amount : Z) (deposit_up_to_limit : option bool)
    (remaining_accounts : list AccountMeta) : Instruction :=
  mkInstruction MARGINFI_ID
    ([meta_readonly (da_group accounts) false; meta_new (da_marginfi_account accounts) false;
      meta_readonly (da_authority accounts) true; meta_new (da_bank accounts) false;
      meta_new (da_signer_token_account accounts) false;
      meta_new (da_liquidity_vault accounts) false;
      meta_readonly (da_token_program accounts) false] ++ remaining_accounts)
    (IX_LENDING_ACCOUNT_DEPOSIT ++ Wire.put (borsh_u64 b) amount
       ++ Wire.put (borsh_option b (borsh_bool b)) deposit_up_to_limit).

Definition withdraw_ix (accounts : WithdrawAccounts) (amount : Z) (withdraw_all : option bool)
    (remaining_accounts : list AccountMeta) : Instruction :=
  mkInstruction MARGINFI_ID
    ([meta_readonly (wa_group accounts) false; meta_new (wa_marginfi_account accounts) false;
      meta_readonly (wa_authority accounts) true; meta_new (wa_bank accounts) false;
      meta_new (wa_destination_token_account accounts) false;
      meta_readonly (wa_bank_liquidity_vault_authority accounts) false;
      meta_new (wa_liquidity_vault accounts) false;
      meta_readonly (wa_token_program accounts) false] ++ remaining_accounts)
    (IX_LENDING_ACCOUNT_WITHDRAW ++ Wire.put (borsh_u64 b) amount
       ++ Wire.put (borsh_option b (borsh_bool b)) withdraw_all).

Definition borrow_ix (accounts : BorrowAccounts) (amount : Z)
    (remaining_accounts : list AccountMeta) : Instruction :=
  mkInstruction MARGINFI_ID
    ([meta_readonly (ba_group accounts) false; meta_new (ba_marginfi_account accounts) false;
      meta_readonly (ba_authority accounts) true; meta_new (ba_bank accounts) false;
      meta_new (ba_destination_token_account accounts) false;
      meta_readonly (ba_bank_liquidity_vault_authority accounts) false;
      meta_new (ba_liquidity_vault accounts) false;
      meta_readonly (ba_token_program accounts) false] ++ remaining_accounts)
    (IX_LENDING_ACCOUNT_BORROW ++ Wire.put (borsh_u64 b) amount).

Definition repay_ix (accounts : RepayAccounts) (amount : Z) (repay_all : option bool)
    (remaining_accounts : list AccountMeta) : Instruction :=
  mkInstruction MARGINFI_ID
    ([meta_readonly (ra_group accounts) false; meta_new (ra_marginfi_account accounts) false;
      meta_readonly (ra_authority accounts) true; meta_new (ra_bank accounts) false;
      meta_new (ra_signer_token_account accounts) false;
      meta_new (ra_liquidity_vault accounts) false;
      meta_readonly (ra_token_program accounts) false] ++ remaining_accounts)
    (IX_LENDING_ACCOUNT_REPAY ++ Wire.put (borsh_u64 b) amount
       ++ Wire.put (borsh_option b (borsh_bool b)) repay_all).

Definition initialize_marginfi_account_ix (accounts : InitializeMarginfiAccounts) : Instruction :=
  mkInstruction MARGINFI_ID
    [meta_readonly (ia_marginfi_group accounts) false; meta_new (ia_marginfi_account accounts) true;
     meta_readonly (ia_authority accounts) true; meta_new (ia_fee_payer accounts) true;
     meta_readonly (ia_system_program accounts) false]
    IX_MARGINFI_ACCOUNT_INITIALIZE.

(** ** The calls of the adapter *)

Definition account_infos_to_metas (infos : list AccountInfo) : list AccountMeta :=
  (λ a, meta_readonly (ai_key a) false) <$> infos.

(** The named accounts a call opens with; the marginfi program comes next, then what the
    health check of marginfi reads. *)
Definition explicit_accounts (ix : MarginfiIx) : nat :=
  match ix with DepositIx _ _ | RepayIx _ _ => 7 | WithdrawIx _ _ | BorrowIx _ => 8 end.

Definition key_at (accounts : list AccountInfo) (i : nat) : result Pubkey :=
  ai_key <$> account_at accounts i.

(** The accounts behind the named ones and the program, for the health check. *)
Definition health_check_metas (explicit : nat) (accounts : list AccountInfo) : list AccountMeta :=
  account_infos_to_metas (drop (explicit + 1) accounts).

(** The instruction each wrapper builds from its slice of accounts. *)
Definition adapter_deposit_ix (amount : Z) (limit : option bool) (accounts : list AccountInfo)
    : result Instruction :=
  group ← key_at accounts 0;
  marginfi_account ← key_at accounts 1;
  authority ← key_at accounts 2;
  bank ← key_at accounts 3;
  signer_token_account ← key_at accounts 4;
  liquidity_vault ← key_at accounts 5;
  token_program ← key_at accounts 6;
  mret (deposit_ix
          (mkDepositAccounts group marginfi_account authority bank signer_token_account
             liquidity_vault token_program)
          amount limit (health_check_metas 7 accounts)).

Definition adapter_withdraw_ix (amount : Z) (withdraw_all : option bool)
    (accounts : list AccountInfo) : result Instruction :=
  group ← key_at accounts 0;
  marginfi_account ← key_at accounts 1;
  authority ← key_at accounts 2;
  bank ← key_at accounts 3;
  destination_token_account ← key_at accounts 4;
  bank_liquidity_vault_authority ← key_at accounts 5;
  liquidity_vault ← key_at accounts 6;
  token_program ← key_at accounts 7;
  mret (withdraw_ix
          (mkWithdrawAccounts group marginfi_account authority bank destination_token_account
             bank_liquidity_vault_authority liquidity_vault token_program)
          amount withdraw_all (health_check_metas 8 accounts)).

Definition adapter_borrow_ix (amount : Z) (accounts : list AccountInfo) : result Instruction :=
  group ← key_at accounts 0;
  marginfi_account ← key_at accounts 1;
  authority ← key_at accounts 2;
  bank ← key_at accounts 3;
  destination_token_account ← key_at accounts 4;
  bank_liquidity_vault_authority ← key_at accounts 5;
  liquidity_vault ← key_at accounts 6;
  token_program ← key_at accounts 7;
  mret (borrow_ix
          (mkBorrowAccounts group marginfi_account authority bank destination_token_account
             bank_liquidity_vault_authority liquidity_vault token_program)
          amount (health_check_metas 8 accounts)).

Definition adapter_repay_ix (amount : Z) (repay_all : option bool) (accounts : list AccountInfo)
    : result Instruction :=
  group ← key_at accounts 0;
  marginfi_account ← key_at accounts 1;
  authority ← key_at accounts 2;
  bank ← key_at accounts 3;
  signer_token_account ← key_at accounts 4;
  liquidity_vault ← key_at accounts 5;
  token_program ← key_at accounts 6;
  mret (repay_ix
          (mkRepayAccounts group marginfi_account authority bank signer_token_account
             liquidity_vault token_program)
          amount repay_all (health_check_metas 7 accounts)).

Definition adapter_instruction (ix : MarginfiIx) (accounts : list AccountInfo)
    : result Instruction :=
  match ix with
  | DepositIx amount limit => adapter_deposit_ix amount limit accounts
  | WithdrawIx amount withdraw_all => adapter_withdraw_ix amount withdraw_all accounts
  | BorrowIx amount => adapter_borrow_ix amount accounts
  | RepayIx amount repay_all => adapter_repay_ix amount repay_all accounts
  end.

(** A call of the adapter through the runtime. *)
Definition marginfi_cpi (invoke : Instruction → list AccountInfo → result (list AccountInfo))
    (ix : MarginfiIx) (accounts : list AccountInfo) : result (list AccountInfo) :=
  i ← adapter_instruction ix accounts; invoke i accounts.

(** ** The calls of [process_place_order] *)

(** What marginfi's health check reads of the borrower's two positions. *)
Definition fallback_remaining (ctx : BookContext) : list AccountMeta :=
  (λ k, meta_readonly k false) <$>
    (bc_collateral_bank ctx :: bc_collateral_oracles ctx ++ bc_debt_bank ctx :: bc_debt_oracles ctx).

Definition fallback_borrow_ix (ctx : BookContext) (fb : FallbackAccounts) (residual : Z)
    : Instruction :=
  borrow_ix
    (mkBorrowAccounts (bc_marginfi_group ctx) (fb_borrower_marginfi_account fb)
       (fb_market_signer fb) (bc_debt_bank ctx) (fb_market_debt_vault fb)
       (fb_debt_bank_liquidity_vault_authority fb) (fb_debt_liquidity_vault fb)
       (fb_token_program fb)) residual (fallback_remaining ctx).

Definition fallback_deposit_ix (ctx : BookContext) (fb : FallbackAccounts) (residual : Z)
    : Instruction :=
  deposit_ix
    (mkDepositAccounts (bc_marginfi_group ctx) (fb_lender_marginfi_account fb)
       (fb_market_signer fb) (bc_debt_bank ctx) (fb_market_debt_vault fb)
       (fb_debt_liquidity_vault fb) (fb_token_program fb)) residual None [].

(** ** The account a market or a vault opens at marginfi *)

Definition open_marginfi_account_ix (group marginfi_account authority payer : Pubkey) : Instruction :=
  initialize_marginfi_account_ix
    (mkInitializeMarginfiAccounts group marginfi_account authority payer SYSTEM_PROGRAM_ID).
End Cpi.
