(* ===== verification/CpiSpec.v ===== *)
(** * What reaches marginfi is what was asked

    A call of the adapter is read back from its bytes, names the accounts the caller holds
    in their order, and lends out one signature only, that of the authority of the
    integration account. *)
From stdpp Require Import base numbers list option gmap.
From S2P Require Import Prelude FixedPoint Loan Marginfi Oracles Hypertree SubVault.
From S2P Require Import Market VaultTrees Matching UserAccount Runtime LoanClose Repay.
From S2P Require Import Keeper Promotion Deposits Claims Convert Admin Orders Program.
From S2P Require Import Accounts Loaders Execute Wire WireSpec Builders Cpi.
Local Open Scope Z_scope.
Local Open Scope ydelta_scope.

(** ** Reading an instruction of marginfi *)

Section decode.
Variable b : Borsh.

Definition amount_and_flag : Codec (Z * option bool) := borsh_u64 b ⊗ borsh_option b (borsh_bool b).

Definition decode_cpi (data : list Z) : result MarginfiIx :=
  let tag := take 8 data in
  let arguments := drop 8 data in
  if bool_decide (tag = IX_LENDING_ACCOUNT_DEPOSIT) then
    '(amount, limit) ← try_from_slice amount_and_flag arguments; mret (DepositIx amount limit)
  else if bool_decide (tag = IX_LENDING_ACCOUNT_WITHDRAW) then
    '(amount, all) ← try_from_slice amount_and_flag arguments; mret (WithdrawIx amount all)
  else if bool_decide (tag = IX_LENDING_ACCOUNT_BORROW) then
    amount ← try_from_slice (borsh_u64 b) arguments; mret (BorrowIx amount)
  else if bool_decide (tag = IX_LENDING_ACCOUNT_REPAY) then
    '(amount, all) ← try_from_slice amount_and_flag arguments; mret (RepayIx amount all)
  else Err InvalidInstructionData.
End decode.

Definition ix_amount (ix : MarginfiIx) : Z :=
  match ix with DepositIx n _ | WithdrawIx n _ | BorrowIx n | RepayIx n _ => n end.

(** The authority of the integration account is the third account of a call. *)
Definition authority_position : nat := 2.

(** Nothing but the authority signs. *)
Definition only_authority_signs (i : Instruction) : Prop :=
  ∀ j m, ix_accounts i !! j = Some m → am_is_signer m = true → j = authority_position.

(** ** Lemmas *)

Lemma remaining_unsigned (infos : list AccountInfo) j m :
  account_infos_to_metas infos !! j = Some m → am_is_signer m = false.
Proof. intros (a & ? & ?)%list_lookup_fmap_Some. by simplify_eq. Qed.

Lemma remaining_keys infos : am_key <$> account_infos_to_metas infos = ai_key <$> infos.
Proof. unfold account_infos_to_metas. by rewrite <- list_fmap_compose. Qed.

(** The head of a call signs for its authority only, the rest not at all. *)
Lemma signs_in_head i head infos :
  ix_accounts i = head ++ account_infos_to_metas infos →
  (∀ j m, head !! j = Some m → am_is_signer m = true → j = authority_position) →
  only_authority_signs i.
Proof.
  intros E Hh j m. rewrite E. intros [H|(_ & H)]%lookup_app_Some; [by apply Hh|].
  apply remaining_unsigned in H. congruence.
Qed.

Lemma key_at_Ok accounts i k : key_at accounts i = Ok k → ai_key <$> accounts !! i = Some k.
Proof. unfold key_at, account_at. destruct (accounts !! i); [|done]. by intros [= <-]. Qed.

(** The named accounts of a call, in the order of the slice. *)
Lemma slice_keys (accounts : list AccountInfo) (ks : list Pubkey) :
  (∀ j k, ks !! j = Some k → ai_key <$> accounts !! j = Some k) →
  ks = ai_key <$> take (length ks) accounts.
Proof.
  intros H. apply list_eq. intros j. rewrite list_lookup_fmap.
  destruct (decide (j < length ks)%nat) as [Hj|Hj].
  - rewrite lookup_take_lt by done. destruct (lookup_lt_is_Some_2 ks j Hj) as (k & Hk).
    rewrite Hk. by rewrite (H j k Hk).
  - rewrite lookup_ge_None_2 by lia. by rewrite lookup_take_ge by lia.
Qed.

(** What the adapter builds: the head of named accounts, then the rest of the slice. *)
Lemma adapter_instruction_Ok b ix accounts i : BorshLaws b → adapter_instruction b ix accounts = Ok i →
  in_u U64 (ix_amount ix) →
  ix_program_id i = MARGINFI_ID
  ∧ (am_key <$> ix_accounts i) = (ai_key <$> take (explicit_accounts ix) accounts)
      ++ (ai_key <$> drop (explicit_accounts ix + 1) accounts)
  ∧ only_authority_signs i
  ∧ decode_cpi b (ix_data i) = Ok ix.
Proof.
  intros Hb H Hn. destruct ix as [n o|n o|n|n o]; simpl in Hn, H;
    unfold adapter_deposit_ix, adapter_withdraw_ix, adapter_borrow_ix, adapter_repay_ix in H;
    apply bind_Ok in H as (k0 & H0%key_at_Ok & H); apply bind_Ok in H as (k1 & H1%key_at_Ok & H);
    apply bind_Ok in H as (k2 & H2%key_at_Ok & H); apply bind_Ok in H as (k3 & H3%key_at_Ok & H);
    apply bind_Ok in H as (k4 & H4%key_at_Ok & H); apply bind_Ok in H as (k5 & H5%key_at_Ok & H);
    apply bind_Ok in H as (k6 & H6%key_at_Ok & H);
    try (apply bind_Ok in H as (k7 & H7%key_at_Ok & H));
    injection H as <-; (split; [done|split; [|split]]).
  all: try (eapply signs_in_head; [reflexivity|];
            intros [|[|[|[|[|[|[|[|j]]]]]]]] m; simpl; intros [= <-]; done).
  all: match goal with |- _ = _ ++ _ => idtac | |- _ => shelve end.
  all: cbn [ix_accounts deposit_ix withdraw_ix borrow_ix repay_ix explicit_accounts];
    unfold health_check_metas; rewrite fmap_app, remaining_keys; f_equal.
  all: apply slice_keys; intros [|[|[|[|[|[|[|[|j]]]]]]]] k [= <-]; done.
  Unshelve.
  all: unfold decode_cpi; cbn [ix_data deposit_ix withdraw_ix borrow_ix repay_ix].
  all: match goal with |- context [take 8 (?h ++ ?t)] =>
      change (take 8 (h ++ t)) with h; change (drop 8 (h ++ t)) with t end.
  all: repeat match goal with |- context [bool_decide (?x = ?y)] =>
      let e := eval vm_compute in (bool_decide (x = y)) in change (bool_decide (x = y)) with e end.
  all: cbv iota.
  all: try change (Wire.put (borsh_u64 b) n ++ Wire.put (borsh_option b (borsh_bool b)) o)
      with (Wire.put (amount_and_flag b) (n, o)).
  all: erewrite try_from_slice_put; [reflexivity|apply _|]; try done.
  all: by split; [|destruct o].
Qed.

(** The slice is long enough for every named account. *)
Lemma check_cpi_accounts_Ok accounts n : check_cpi_accounts accounts n = Ok tt →
  (n < length accounts)%nat ∧ ai_key <$> accounts !! n = Some MARGINFI_ID.
Proof.
  unfold check_cpi_accounts, account_at.
  destruct (Nat.ltb_spec (length accounts) (n + 1)) as [|Hn]; [done|].
  destruct (accounts !! n) as [a|] eqn:Ha; [|done]. simpl.
  destruct (Z.eqb_spec (ai_key a) MARGINFI_ID) as [->|]; [|done]. split; [lia|done].
Qed.

Lemma adapter_instruction_total b ix accounts : (explicit_accounts ix < length accounts)%nat →
  ∃ i, adapter_instruction b ix accounts = Ok i.
Proof.
  intros Hn. do 8 (destruct accounts as [|? accounts]; [destruct ix; simpl in Hn; lia|]).
  destruct ix; eexists; reflexivity.
Qed.

(** The calls of [process_place_order]: every account an instruction names is handed to the
    runtime. *)
Lemma fallback_accounts_present b ctx fb residual :
  (am_key <$> ix_accounts (fallback_borrow_ix b ctx fb residual)) ⊆
    [bc_marginfi_group ctx; fb_borrower_marginfi_account fb; fb_market_signer fb;
     bc_debt_bank ctx; fb_market_debt_vault fb; fb_debt_bank_liquidity_vault_authority fb;
     fb_debt_liquidity_vault fb; fb_token_program fb; bc_collateral_bank ctx]
    ++ bc_collateral_oracles ctx ++ bc_debt_oracles ctx ++ [fb_marginfi_program fb].
Proof.
  assert (∀ l, am_key <$> ((λ k, meta_readonly k false) <$> l) = l) as E
    by (intros l; rewrite <- list_fmap_compose; apply list_fmap_id).
  unfold fallback_borrow_ix, borrow_ix, fallback_remaining. cbn [ix_accounts].
  rewrite fmap_app, E. intros k. simpl. rewrite !elem_of_cons, !elem_of_app, !elem_of_cons. naive_solver.
Qed.

(** ** Property *)

(** C34: a call into marginfi says what the program asked for, and lends out no more than it
    must.  Whenever the checks of the adapter pass, it builds an instruction to marginfi
    and to no one else; the instruction names the accounts of the slice in their order, but
    for the program's own; nobody but the authority of the integration account signs it;
    and its bytes are read back as the very call, with its amount and its flag. *)
Theorem marginfi_calls_exact (b : Borsh) (ix : MarginfiIx) (accounts : list AccountInfo)
    (Hb : BorshLaws b) (Hamount : in_u U64 (ix_amount ix))
    (Hchecked : check_cpi_accounts accounts (explicit_accounts ix) = Ok tt) :
  ∃ i, adapter_instruction b ix accounts = Ok i
    ∧ ix_program_id i = MARGINFI_ID
    ∧ (am_key <$> ix_accounts i) = (ai_key <$> take (explicit_accounts ix) accounts)
        ++ (ai_key <$> drop (explicit_accounts ix + 1) accounts)
    ∧ (ai_key <$> accounts !! explicit_accounts ix) = Some MARGINFI_ID
    ∧ only_authority_signs i
    ∧ decode_cpi b (ix_data i) = Ok ix.
Proof.
  apply check_cpi_accounts_Ok in Hchecked as [Hlen Hprogram].
  destruct (adapter_instruction_total b ix accounts Hlen) as (i & Hi). exists i.
  destruct (adapter_instruction_Ok b ix accounts i Hb Hi Hamount) as (? & ? & ? & ?). done.
Qed.

(** A withdrawal with a health check behind it. *)
Definition sample_slice : list AccountInfo :=
  (λ k, mkAccountInfo k 1 []) <$> [33; 21; 36; 5; 40; 41; 35; SPL_TOKEN_ID; MARGINFI_ID; 5; 50].

Lemma marginfi_calls_exact_witness :
  ∃ i, adapter_instruction le_borsh (WithdrawIx 1000000 (Some true)) sample_slice = Ok i
    ∧ (am_key <$> ix_accounts i) = [33; 21; 36; 5; 40; 41; 35; SPL_TOKEN_ID; 5; 50]
    ∧ ix_data i = [36; 72; 74; 19; 210; 210; 192; 192; 64; 66; 15; 0; 0; 0; 0; 0; 1; 1]
    ∧ decode_cpi le_borsh (ix_data i) = Ok (WithdrawIx 1000000 (Some true)).
Proof.
  destruct (marginfi_calls_exact le_borsh (WithdrawIx 1000000 (Some true)) sample_slice
    le_borsh_laws) as (i & Hi & _ & Hk & _ & _ & Hd); [vm_compute; split; congruence|vm_compute; reflexivity|].
  exists i. split; [exact Hi|]. split; [exact Hk|]. split; [|exact Hd].
  assert (adapter_instruction le_borsh (WithdrawIx 1000000 (Some true)) sample_slice = Ok i) as E
    by exact Hi.
  vm_compute in E. injection E as <-. reflexivity.
Defined.
