(* ===== verification/StoreSpec.v ===== *)
(** * The store of a market account

    [well_formed m]: the region of the market account is exactly its seats, its asks, its
    bids, its queue of matched loans and its free blocks, each in a balanced search tree
    or in the free list, with no block lost and none in two places; seats have distinct
    keys, the queue is numbered below its counter, and every order and every queued loan
    points at seats that exist.  Every operation of the market keeps it; [store] names
    the listings, the blocks that are between two of them for the moment, and seats that
    are known to exist. *)
From Stdlib Require Import Sorting.Sorted.
From stdpp Require Import base numbers list option gmap.
From S2P Require Import Prelude FixedPoint Loan Hypertree HypertreeFrame.
From S2P Require Import HypertreeSpec HypertreeOrder HypertreeRemove Market MarketSpec.
From S2P Require Import Matching Promotion Orders.
Local Open Scope Z_scope.

Section store.
Implicit Types (m : Market) (S : list (Z * ClaimedSeat)) (A B : list (Z * RestingOrder)).
Implicit Types (L : list (Z * MatchedLoan)) (F X T l : list Z) (i j : Z).

(** ** The invariant *)

(** The blocks of the account are [l], each once and aligned, so that no two overlap. *)
Record layout m l : Prop := {
  ly_nodup : NoDup l;
  ly_aligned : Forall (λ j, (MARKET_BLOCK_SIZE | j)) l;
  ly_dom : dom (mk_dynamic m) = list_to_set (C:=gset Z) l;
  ly_bytes : mf_num_bytes_allocated (mk_fixed m) = MARKET_BLOCK_SIZE * Z.of_nat (length l);
  ly_fits : mf_num_bytes_allocated (mk_fixed m) < 2 ^ 32 }.

(** An order, and a queued loan, point at seats. *)
Definition order_seated S (e : Z * RestingOrder) : Prop := ro_trader_seat_index e.2 ∈ S.*1.
Definition loan_seated S (e : Z * MatchedLoan) : Prop :=
  ml_borrower_seat_index e.2 ∈ S.*1
  ∧ (ml_lender_seat_index e.2 = NIL ∨ ml_lender_seat_index e.2 ∈ S.*1).

Definition owned S A B L F : list Z := S.*1 ++ A.*1 ++ B.*1 ++ L.*1 ++ F.

(** [X]: blocks taken from one listing and not yet in another; [T]: indices known to be
    seats. *)
Record store X T m S A B L F : Prop := {
  st_inv : market_inv m S A B L F;
  st_layout : layout m (X ++ owned S A B L F);
  st_keys : keys_unique S;
  st_below : sequences_below (mf_matched_loan_sequence (mk_fixed m)) L;
  st_count : mf_position_count (mk_fixed m) = Z.of_nat (length S);
  st_orders : Forall (order_seated S) (A ++ B);
  st_loans : Forall (loan_seated S) L;
  st_known : Forall (λ j, j ∈ S.*1) T }.

Definition stored X T m : Prop := ∃ S A B L F, store X T m S A B L F.
Definition well_formed m : Prop := stored [] [] m.

(** Fewer seats to remember. *)
Lemma stored_forget X T T' m : (∀ j, j ∈ T' → j ∈ T) → stored X T m → stored X T' m.
Proof.
  intros HT (S & A & B & L & F & []). exists S, A, B, L, F. split; try done.
  rewrite Forall_forall in *. auto.
Qed.

(** The blocks of an account that was only rearranged. *)
Lemma layout_moved m m' l l' : layout m l → dom (mk_dynamic m') = dom (mk_dynamic m) →
  mf_num_bytes_allocated (mk_fixed m') = mf_num_bytes_allocated (mk_fixed m) → l ≡ₚ l' → layout m' l'.
Proof.
  intros [] Hd Hb Hp. split; rewrite ?Hd, ?Hb, <- ?Hp; try done.
Qed.

Lemma layout_dom m l j : layout m l → j ∈ l ↔ is_Some (mk_dynamic m !! j).
Proof. intros []. by rewrite <- elem_of_dom, ly_dom0, elem_of_list_to_set. Qed.

(** A block taken from everywhere is spare. *)
Lemma store_spare i X T m S A B L F : store (i :: X) T m S A B L F → spare m S A B L F i.
Proof.
  intros []. pose proof (ly_nodup _ _ st_layout0) as [Hi _]%NoDup_cons.
  assert (is_Some (mk_dynamic m !! i)) as Hs by (apply (layout_dom _ _ _ st_layout0); left).
  pose proof (mi_bound _ _ _ _ _ _ st_inv0 _ Hs) as Hb. pose proof (ly_fits _ _ st_layout0) as Hf.
  unfold owned in Hi. rewrite !not_elem_of_app in Hi. destruct Hi as (_ & ? & ? & ? & ? & ?).
  split; try done. unfold NIL. norm_pow. lia.
Qed.

(** Header fields the invariant does not mention. *)
Lemma stored_fixed X T m f : stored X T m →
  mf_claimed_seats_root_index f = mf_claimed_seats_root_index (mk_fixed m) →
  mf_asks_root_index f = mf_asks_root_index (mk_fixed m) →
  mf_asks_best_index f = mf_asks_best_index (mk_fixed m) →
  mf_bids_root_index f = mf_bids_root_index (mk_fixed m) →
  mf_bids_best_index f = mf_bids_best_index (mk_fixed m) →
  mf_matched_loans_root_index f = mf_matched_loans_root_index (mk_fixed m) →
  mf_free_list_head_index f = mf_free_list_head_index (mk_fixed m) →
  mf_num_bytes_allocated f = mf_num_bytes_allocated (mk_fixed m) →
  mf_matched_loan_sequence f = mf_matched_loan_sequence (mk_fixed m) →
  mf_position_count f = mf_position_count (mk_fixed m) →
  stored X T (mkMarket f (mk_dynamic m)).
Proof.
  intros (S & A & B & L & F & []) H1 H2 H3 H4 H5 H6 H7 H8 H9 H10. exists S, A, B, L, F.
  split; simpl; rewrite ?H9, ?H10; try done; [by apply market_inv_fixed|].
  by eapply layout_moved.
Qed.

(** ** Allocation *)

Lemma owned_free S A B L F i : owned S A B L (i :: F) ≡ₚ i :: owned S A B L F.
Proof. unfold owned. solve_Permutation. Qed.

Lemma get_free_store T m S A B L F m' j : store [] T m S A B L F → get_free_address m = Ok (m', j) →
  (j = NIL ∧ m' = m) ∨ ∃ F', store [j] T m' S A B L F'.
Proof.
  intros H Hg. destruct F as [|i F].
  - rewrite (get_free_nil _ _ _ _ _ (st_inv _ _ _ _ _ _ _ _ H)) in Hg. injection Hg as <- <-. by left.
  - right. destruct H.
    destruct (get_free_spare _ _ _ _ _ _ _ st_inv0) as (h & m1 & -> & Hg1 & Hi & Hsp).
    rewrite Hg in Hg1. injection Hg1 as -> ->. exists F. split; try done.
    eapply layout_moved; [done| |done|apply owned_free]. simpl.
    apply dom_insert_lookup_L. apply (layout_dom _ _ _ st_layout0). simpl. rewrite owned_free. left.
Qed.

Lemma get_free_address_stored T m : stored [] T m →
  ensures (get_free_address m) (λ '(m', i), i ≠ NIL → stored [i] T m').
Proof.
  intros (S & A & B & L & F & H) [m' j] Hg Hj.
  destruct (get_free_store _ _ _ _ _ _ _ _ _ H Hg) as [[-> _]|[F' H']]; [done|].
  by exists S, A, B, L, F'.
Qed.

Lemma release_address_stored X T m i : stored (i :: X) T m → ensures (release_address m i) (stored X T).
Proof.
  intros (S & A & B & L & F & H) m' Hr. pose proof (store_spare _ _ _ _ _ _ _ _ _ H) as Hsp.
  unfold release_address in Hr. apply bind_Ok in Hr as ([d h] & Hr & [= <-]).
  apply free_list_add_Ok in Hr as (-> & Hs & ->). exists S, A, B, L, (i :: F). destruct H, Hsp.
  split; try done.
  - assert (∀ b j, j ∉ [i] → <[i := b]> (mk_dynamic m) !! j = mk_dynamic m !! j) as Ho.
    { intros b j Hj. apply lookup_insert_ne. set_solver. }
    destruct st_inv0 as [Hms Hma Hmb Hml Hab Hbb Hf Hn Hd]. split; simpl; try done.
    + eapply tree_inv_outside'; [exact Hms|done|done|apply Ho|set_solver].
    + eapply tree_inv_outside'; [exact Hma|done|done|apply Ho|set_solver].
    + eapply tree_inv_outside'; [exact Hmb|done|done|apply Ho|set_solver].
    + eapply tree_inv_outside'; [exact Hml|done|done|apply Ho|set_solver].
    + split_and!; [done|done|]. eexists. split; [apply lookup_insert_eq|].
      eapply free_chain_outside; [done|apply Ho|set_solver].
    + by apply NoDup_cons.
    + intros j Hj. apply Hd. destruct (decide (i = j)) as [<-|]; [done|].
      by rewrite lookup_insert_ne in Hj.
  - eapply layout_moved; [done| |done|by rewrite owned_free, <- Permutation_middle]. simpl. by apply dom_insert_lookup_L.
Qed.

(** The account grows by one block behind the others. *)
Lemma expand_market_stored T m : stored [] T m → ensures (expand_market m) (stored [] T).
Proof.
  intros (S & A & B & L & F & []) m' He.
  pose proof (ly_bytes _ _ st_layout0) as Hb. set (n := mf_num_bytes_allocated (mk_fixed m)) in *.
  assert (n + MARKET_BLOCK_SIZE < 2 ^ 32) as Hn.
  { unfold expand_market, market_expand in He. apply bind_Ok in He as ([d h] & _ & He).
    apply bind_Ok in He as (b & [_ Hlt]%ok_or_Ok%checked_add_Some & _). exact Hlt. }
  destruct (expand_market_inv m S A B L F st_inv0) as (m1 & He1 & Hi & Hb1); [unfold MARKET_BLOCK_SIZE in *; lia|done|].
  rewrite He in He1. injection He1 as <-.
  unfold expand_market, market_expand in He. apply bind_Ok in He as ([d h] & He & Hr).
  apply free_list_add_Ok in He as (-> & _ & ->). apply bind_Ok in Hr as (b & _ & [= <-]).
  simpl in *. fold n in Hi, Hb1 |- *. exists S, A, B, L, (n :: F). split; try done.
  assert (n ∉ owned S A B L F) as Hni.
  { intros (b' & Hj)%(layout_dom _ _ _ st_layout0).
    assert (0 <= n < n); [|lia]. apply (mi_bound _ _ _ _ _ _ st_inv0). by exists b'. }
  split; simpl.
  - rewrite owned_free. apply NoDup_cons. split; [done|]. apply (ly_nodup _ _ st_layout0).
  - simpl. rewrite owned_free. constructor; [rewrite Hb; apply Z.divide_factor_l|apply (ly_aligned _ _ st_layout0)].
  - rewrite !dom_insert_L, (ly_dom _ _ st_layout0). simpl. unfold owned. set_solver.
  - rewrite Hb1, Hb, owned_free. simpl. lia.
  - by rewrite Hb1.
Qed.

(** ** Replacing one listing *)

(** The rest of the account, when an operation only writes the spare blocks and one
    listing. *)
Lemma listing_apart X l l' m : layout m (X ++ l) → l ≡ₚ l' →
  ∀ E R, l' = E ++ R → ∀ j, j ∈ R → j ∉ X ++ E.
Proof.
  intros [Hn _ _ _] Hp E R -> j Hj Hx. rewrite Hp in Hn. rewrite app_assoc in Hn.
  apply NoDup_app in Hn as (_ & Hd & _). by apply (Hd j).
Qed.

(** The blocks stay, up to their order. *)
Lemma layout_replaced m m' X X' E E' l l' R : layout m (X ++ l) →
  dom (mk_dynamic m') = dom (mk_dynamic m) →
  mf_num_bytes_allocated (mk_fixed m') = mf_num_bytes_allocated (mk_fixed m) →
  l ≡ₚ E ++ R → l' ≡ₚ E' ++ R → X ++ E ≡ₚ X' ++ E' → layout m' (X' ++ l').
Proof.
  intros Hl Hd Hb H1 H2 H3. eapply layout_moved; [done..|].
  by rewrite H1, H2, !app_assoc, H3.
Qed.

Lemma bound_kept m m' S A B L F : market_inv m S A B L F → dom (mk_dynamic m') = dom (mk_dynamic m) →
  mf_num_bytes_allocated (mk_fixed m') = mf_num_bytes_allocated (mk_fixed m) →
  ∀ j, is_Some (mk_dynamic m' !! j) → 0 <= j < mf_num_bytes_allocated (mk_fixed m').
Proof.
  intros Hm Hd -> j Hj%elem_of_dom. apply (mi_bound _ _ _ _ _ _ Hm), elem_of_dom. by rewrite <- Hd.
Qed.

(** The trees and the free list that were not written. *)
Ltac untouched Ho Hr :=
  first
  [ eapply tree_inv_outside'; [eassumption|reflexivity|reflexivity|exact Ho|]
  | eapply free_chain_outside; [eassumption|exact Ho|] ];
  intros ? ?; apply Hr; rewrite ?elem_of_app; tauto.

Lemma owned_asks S A B L F : owned S A B L F ≡ₚ A.*1 ++ (S.*1 ++ B.*1 ++ L.*1 ++ F).
Proof. unfold owned. solve_Permutation. Qed.
Lemma owned_bids S A B L F : owned S A B L F ≡ₚ B.*1 ++ (S.*1 ++ A.*1 ++ L.*1 ++ F).
Proof. unfold owned. solve_Permutation. Qed.
Lemma owned_loans S A B L F : owned S A B L F ≡ₚ L.*1 ++ (S.*1 ++ A.*1 ++ B.*1 ++ F).
Proof. unfold owned. solve_Permutation. Qed.

Lemma store_put_asks X X' T m S A A' B L F t : store X T m S A B L F →
  tree_inv (on_side Ask) t A' → t_max t = last_id A' →
  (∀ j, j ∉ X ++ A.*1 → t_data t !! j = mk_dynamic m !! j) →
  dom (t_data t) = dom (mk_dynamic m) → X ++ A.*1 ≡ₚ X' ++ A'.*1 → Forall (order_seated S) A' →
  store X' T (put_asks m t) S A' B L F.
Proof.
  intros [Hm Hl ? ? ? [_ HB]%Forall_app ? ?] Ht Hmx Ho Hd Hp HA.
  pose proof (listing_apart _ _ _ _ Hl (owned_asks S A B L F) _ _ eq_refl) as Hr.
  pose proof (bound_kept m (put_asks m t) _ _ _ _ _ Hm Hd eq_refl) as Hbd.
  split; try done; [| |by apply Forall_app].
  - destruct Hm as [Hms _ Hmb Hml ? ? Hmf Hmn _].
    split; try done; first [by apply tree_inv_eta | untouched Ho Hr].
  - by eapply layout_replaced; [exact Hl| | |apply owned_asks|apply owned_asks|].
Qed.

Lemma store_put_bids X X' T m S A B B' L F t : store X T m S A B L F →
  tree_inv (on_side Bid) t B' → t_max t = last_id B' →
  (∀ j, j ∉ X ++ B.*1 → t_data t !! j = mk_dynamic m !! j) →
  dom (t_data t) = dom (mk_dynamic m) → X ++ B.*1 ≡ₚ X' ++ B'.*1 → Forall (order_seated S) B' →
  store X' T (put_bids m t) S A B' L F.
Proof.
  intros [Hm Hl ? ? ? [HA _]%Forall_app ? ?] Ht Hmx Ho Hd Hp HB.
  pose proof (listing_apart _ _ _ _ Hl (owned_bids S A B L F) _ _ eq_refl) as Hr.
  pose proof (bound_kept m (put_bids m t) _ _ _ _ _ Hm Hd eq_refl) as Hbd.
  split; try done; [| |by apply Forall_app].
  - destruct Hm as [Hms Hma _ Hml ? ? Hmf Hmn _].
    split; try done; first [by apply tree_inv_eta | untouched Ho Hr].
  - by eapply layout_replaced; [exact Hl| | |apply owned_bids|apply owned_bids|].
Qed.

Lemma store_put_loans X X' T m S A B L L' F t : store X T m S A B L F →
  tree_inv (λ _, True) t L' →
  (∀ j, j ∉ X ++ L.*1 → t_data t !! j = mk_dynamic m !! j) →
  dom (t_data t) = dom (mk_dynamic m) → X ++ L.*1 ≡ₚ X' ++ L'.*1 → Forall (loan_seated S) L' →
  sequences_below (mf_matched_loan_sequence (mk_fixed m)) L' →
  store X' T (put_matched_loans m t) S A B L' F.
Proof.
  intros [Hm Hl ? ? ? ? ? ?] Ht Ho Hd Hp HL Hb.
  pose proof (listing_apart _ _ _ _ Hl (owned_loans S A B L F) _ _ eq_refl) as Hr.
  pose proof (bound_kept m (put_matched_loans m t) _ _ _ _ _ Hm Hd eq_refl) as Hbd.
  split; try done.
  - destruct Hm as [Hms Hma Hmb _ ? ? Hmf Hmn _].
    split; try done; first [by apply (tree_inv_no_max _ t) | untouched Ho Hr].
  - by eapply layout_replaced; [exact Hl| | |apply owned_loans|apply owned_loans|].
Qed.

(** The seats may only become more; their count is the caller's. *)
Lemma store_put_seats X X' T m S S' A B L F t : store X T m S A B L F →
  tree_inv (λ _, True) t S' →
  (∀ j, j ∉ X ++ S.*1 → t_data t !! j = mk_dynamic m !! j) →
  dom (t_data t) = dom (mk_dynamic m) → X ++ S.*1 ≡ₚ X' ++ S'.*1 → (∀ j, j ∈ S.*1 → j ∈ S'.*1) →
  keys_unique S' →
  store X' T (put_claimed_seats m t <| mk_fixed ::= λ f, f <| mf_position_count := Z.of_nat (length S') |> |>)
    S' A B L F.
Proof.
  intros [Hm Hl ? ? ? Ho' Hn' Hk'] Ht Ho Hd Hp HS HK.
  pose proof (listing_apart _ _ _ _ Hl (Permutation_refl _) S.*1 _ eq_refl) as Hr.
  pose proof (bound_kept m (put_claimed_seats m t) _ _ _ _ _ Hm Hd eq_refl) as Hbd.
  split; try done.
  - destruct Hm as [_ Hma Hmb Hml ? ? Hmf Hmn _].
    split; try done; first [by apply (tree_inv_no_max _ t) | untouched Ho Hr].
  - by eapply layout_replaced; [exact Hl| | |unfold owned; reflexivity|unfold owned; reflexivity|].
  - eapply Forall_impl; [exact Ho'|]. intros e. apply HS.
  - eapply Forall_impl; [exact Hn'|]. intros e [? [?|?]]; split; auto.
  - eapply Forall_impl; [exact Hk'|]. intros e. apply HS.
Qed.

(** ** Reading a block *)

Section reads.
Context {X T : list Z} {m : Market} {S : list (Z * ClaimedSeat)} {A B : list (Z * RestingOrder)}.
Context {L : list (Z * MatchedLoan)} {F : list Z} (H : store X T m S A B L F).

Lemma store_cases j b : mk_dynamic m !! j = Some b → j ∉ X →
  j ∈ S.*1 ∨ j ∈ A.*1 ∨ j ∈ B.*1 ∨ j ∈ L.*1 ∨ j ∈ F.
Proof.
  intros Hb HX. assert (j ∈ X ++ owned S A B L F) as Hj
    by (apply (layout_dom _ _ _ (st_layout _ _ _ _ _ _ _ _ H)); by eexists).
  unfold owned in Hj. rewrite !elem_of_app in Hj. tauto.
Qed.

Lemma store_seat j n : mk_dynamic m !! j = Some (MB_seat n) → j ∉ X → (j, rb_value n) ∈ S.
Proof.
  intros Hb HX. pose proof (st_inv _ _ _ _ _ _ _ _ H) as Hm.
  destruct (store_cases j _ Hb HX) as [Hj|[Hj|[Hj|[Hj|Hj]]]]; [|exfalso; block_clash..].
  apply list_elem_of_fmap in Hj as ([k v] & -> & Hv).
  destruct (tree_inv_block _ _ _ _ _ (mi_seats _ _ _ _ _ _ Hm) Hv) as (_ & n' & Hn & <-).
  simpl in Hn, Hb. rewrite Hb in Hn. by injection Hn as <-.
Qed.

Lemma store_loan j n : mk_dynamic m !! j = Some (MB_loan n) → j ∉ X → (j, rb_value n) ∈ L.
Proof.
  intros Hb HX. pose proof (st_inv _ _ _ _ _ _ _ _ H) as Hm.
  destruct (store_cases j _ Hb HX) as [Hj|[Hj|[Hj|[Hj|Hj]]]]; [exfalso; block_clash..| |exfalso; block_clash].
  apply list_elem_of_fmap in Hj as ([k v] & -> & Hv).
  destruct (tree_inv_block _ _ _ _ _ (mi_loans _ _ _ _ _ _ Hm) Hv) as (_ & n' & Hn & <-).
  simpl in Hn, Hb. rewrite Hb in Hn. by injection Hn as <-.
Qed.

Lemma store_order j n : mk_dynamic m !! j = Some (MB_order n) → j ∉ X →
  ((j, rb_value n) ∈ A ∧ on_side Ask (rb_value n)) ∨ ((j, rb_value n) ∈ B ∧ on_side Bid (rb_value n)).
Proof.
  intros Hb HX. pose proof (st_inv _ _ _ _ _ _ _ _ H) as Hm.
  destruct (store_cases j _ Hb HX) as [Hj|[Hj|[Hj|[Hj|Hj]]]];
    [exfalso; block_clash|left|right|exfalso; block_clash..];
    apply list_elem_of_fmap in Hj as ([k v] & -> & Hv); simpl in Hb.
  - pose proof (tree_inv_P _ _ _ _ (mi_asks _ _ _ _ _ _ Hm) Hv) as Hp.
    destruct (tree_inv_block _ _ _ _ _ (mi_asks _ _ _ _ _ _ Hm) Hv) as (_ & n' & Hn & Hvn).
    simpl in *. rewrite Hb in Hn. injection Hn as <-. by rewrite Hvn.
  - pose proof (tree_inv_P _ _ _ _ (mi_bids _ _ _ _ _ _ Hm) Hv) as Hp.
    destruct (tree_inv_block _ _ _ _ _ (mi_bids _ _ _ _ _ _ Hm) Hv) as (_ & n' & Hn & Hvn).
    simpl in *. rewrite Hb in Hn. injection Hn as <-. by rewrite Hvn.
Qed.

Lemma store_order_seated j o : (j, o) ∈ A ∨ (j, o) ∈ B → ro_trader_seat_index o ∈ S.*1.
Proof.
  intros Ho. apply (proj1 (Forall_forall (order_seated S) _) (st_orders _ _ _ _ _ _ _ _ H) (j, o)).
  by apply elem_of_app.
Qed.

Lemma store_learn j : j ∈ S.*1 → store X (j :: T) m S A B L F.
Proof. intros Hj. destruct H. split; try done. by constructor. Qed.
End reads.

(** A block that was read is a seat, or an order that points at one. *)
Lemma get_seat_stored T m i : stored [] T m → ensures (get_seat m i) (λ _, stored [] (i :: T) m).
Proof.
  intros (S & A & B & L & F & H) s (n & Hn & _)%bind_Ok. apply region_get_block in Hn.
  exists S, A, B, L, F. apply store_learn; [done|]. apply list_elem_of_fmap. exists (i, rb_value n).
  split; [done|]. eapply store_seat; [done|done|apply not_elem_of_nil].
Qed.

Lemma get_order_stored T m i : stored [] T m →
  ensures (get_order m i) (λ o, stored [] (ro_trader_seat_index o :: T) m).
Proof.
  intros (S & A & B & L & F & H) o (n & Hn & [= <-])%bind_Ok. apply region_get_block in Hn.
  exists S, A, B, L, F. apply store_learn; [done|]. eapply store_order_seated; [done|].
  destruct (store_order H i n Hn (not_elem_of_nil _)) as [[? _]|[? _]]; [by left|by right].
Qed.

(** ** Updates in place *)

(** The account with one listing written back where it was. *)
Ltac rewrite_market m1 :=
  match goal with |- store _ _ ?m2 _ _ _ _ _ =>
    replace m2 with m1 by (try match goal with E : Z.of_nat _ = _ |- _ => rewrite E end;
      match goal with m : Market |- _ => by destruct m as [[] ?] end) end.

Definition keeps_key (f : ClaimedSeat → result ClaimedSeat) : Prop :=
  ∀ s, ensures (f s) (λ s', same_key s' s).

Lemma set_entry_keys S i v v' : keys_unique S → (i, v) ∈ S → same_key v' v →
  keys_unique (set_entry i v' S).
Proof.
  intros Hu Hi (K1 & K2 & K3) j x k y Hj Hk (E1 & E2 & E3)%claimed_seat_cmp_Eq.
  apply set_entry_elem_inv in Hj as [[-> ->]|[_ Hj]], Hk as [[-> ->]|[_ Hk]]; [done|..];
    (eapply Hu; [done|done|]; apply claimed_seat_cmp_Eq; split_and!; congruence).
Qed.

Lemma modify_seat_stored T m i f : stored [] T m → keeps_key f →
  ensures (modify_seat m i f) (stored [] (i :: T)).
Proof.
  intros (S & A & B & L & F & H) Hf m' (d & Hd & [= <-])%bind_Ok.
  destruct (modify_value_Ok _ _ _ _ Hd) as (n & v & Hn%region_get_block & Hv & _).
  pose proof (store_seat H i n Hn (not_elem_of_nil _)) as Hi. pose proof (Hf _ _ Hv) as Hk.
  destruct (tree_inv_modify_value _ _ _ _ _ _ f (mi_seats _ _ _ _ _ _ (st_inv _ _ _ _ _ _ _ _ H)) Hi Hv I)
    as (d' & Hd' & Ht & Hs & Ho).
  { intros y _. destruct Hk as (K1 & K2 & K3). simpl. unfold claimed_seat_cmp. by rewrite K1, K2, K3. }
  simpl in Hd', Ht, Ho. rewrite Hd in Hd'. injection Hd' as <-.
  assert (i ∈ S.*1) as HiS by (apply list_elem_of_fmap; by exists (i, rb_value n)).
  exists (set_entry i v S), A, B, L, F. apply store_learn; [|by rewrite set_entry_fst].
  assert (Z.of_nat (length (set_entry i v S)) = mf_position_count (mk_fixed m)) as Hc
    by (unfold set_entry; rewrite length_fmap; symmetry; apply (st_count _ _ _ _ _ _ _ _ H)).
  rewrite_market (put_claimed_seats m (mkTree d (mf_claimed_seats_root_index (mk_fixed m)) NIL)
    <| mk_fixed ::= λ f, f <| mf_position_count := Z.of_nat (length (set_entry i v S)) |> |>).
  eapply store_put_seats; [exact H|exact Ht| | | | |].
  - intros j Hj. apply Ho. intros ->%list_elem_of_singleton. by apply Hj, elem_of_app; right.
  - apply (frame_dom _ _ _ (modify_value_frame (V:=ClaimedSeat) (λ _, False) _ i f d Hd)).
  - by rewrite set_entry_fst.
  - by rewrite set_entry_fst.
  - eapply set_entry_keys; [apply (st_keys _ _ _ _ _ _ _ _ H)|exact Hi|exact Hk].
Qed.

(** An order may change but for its place in the book and its owner. *)
Definition keeps_place (f : RestingOrder → result RestingOrder) : Prop :=
  ∀ o, ensures (f o) (λ o', ro_side o' = ro_side o ∧ ro_rate_bps o' = ro_rate_bps o
    ∧ ro_sequence_number o' = ro_sequence_number o
    ∧ ro_trader_seat_index o' = ro_trader_seat_index o).

Lemma set_entry_seated S (E : list (Z * RestingOrder)) i o o' :
  Forall (order_seated S) E → (i, o) ∈ E → ro_trader_seat_index o' = ro_trader_seat_index o →
  Forall (order_seated S) (set_entry i o' E).
Proof.
  intros HE Hi Hs. apply Forall_forall. intros [j x] Hj. rewrite Forall_forall in HE.
  apply set_entry_elem_inv in Hj as [[-> ->]|[_ Hj]]; [|by apply HE].
  unfold order_seated. simpl. rewrite Hs. by apply (HE (i, o)).
Qed.

Lemma modify_order_stored T m i f : stored [] T m → keeps_place f →
  ensures (modify_order m i f) (stored [] T).
Proof.
  intros (S & A & B & L & F & H) Hf m' (d & Hd & [= <-])%bind_Ok.
  destruct (modify_value_Ok _ _ _ _ Hd) as (n & o & Hn%region_get_block & Hv & _).
  destruct (Hf _ _ Hv) as (K1 & K2 & K3 & K4). pose proof (st_inv _ _ _ _ _ _ _ _ H) as Hm.
  pose proof (st_orders _ _ _ _ _ _ _ _ H) as [HA HB]%Forall_app.
  pose proof (frame_dom _ _ _ (modify_value_frame (V:=RestingOrder) (λ _, False) _ i f d Hd)) as Hdom.
  assert (∀ y, payload_cmp o y = payload_cmp (rb_value n) y) as Hc.
  { intros y. simpl. unfold resting_order_cmp. by rewrite K1, K2, K3. }
  destruct (store_order H i n Hn (not_elem_of_nil _)) as [[Hi Hs]|[Hi Hs]].
  - destruct (tree_inv_modify_value _ _ _ _ _ _ f (mi_asks _ _ _ _ _ _ Hm) Hi Hv)
      as (d' & Hd' & Ht & _ & Ho); [by unfold on_side; rewrite K1|by intros y _|].
    simpl in Hd', Ht, Ho. rewrite Hd in Hd'. injection Hd' as <-.
    exists S, (set_entry i o A), B, L, F.
    rewrite_market (put_asks m (mkTree d (mf_asks_root_index (mk_fixed m))
      (mf_asks_best_index (mk_fixed m)))).
    eapply store_put_asks; [exact H|exact Ht| | |exact Hdom| |by eapply set_entry_seated].
    + rewrite last_id_set_entry. apply (mi_asks_best _ _ _ _ _ _ Hm).
    + intros j Hj. apply Ho. intros ->%list_elem_of_singleton. apply Hj. simpl.
      apply list_elem_of_fmap. by eexists (i, _).
    + by rewrite set_entry_fst.
  - destruct (tree_inv_modify_value _ _ _ _ _ _ f (mi_bids _ _ _ _ _ _ Hm) Hi Hv)
      as (d' & Hd' & Ht & _ & Ho); [by unfold on_side; rewrite K1|by intros y _|].
    simpl in Hd', Ht, Ho. rewrite Hd in Hd'. injection Hd' as <-.
    exists S, A, (set_entry i o B), L, F.
    rewrite_market (put_bids m (mkTree d (mf_bids_root_index (mk_fixed m))
      (mf_bids_best_index (mk_fixed m)))).
    eapply store_put_bids; [exact H|exact Ht| | |exact Hdom| |by eapply set_entry_seated].
    + rewrite last_id_set_entry. apply (mi_bids_best _ _ _ _ _ _ Hm).
    + intros j Hj. apply Ho. intros ->%list_elem_of_singleton. apply Hj. simpl.
      apply list_elem_of_fmap. by eexists (i, _).
    + by rewrite set_entry_fst.
Qed.

(** A queued loan may change but for its number and its seats. *)
Lemma modify_loan_stored T m i (f : MatchedLoan → result MatchedLoan) : stored [] T m →
  (∀ n, ensures (f n) (λ n', ml_sequence n' = ml_sequence n
     ∧ ml_borrower_seat_index n' = ml_borrower_seat_index n
     ∧ ml_lender_seat_index n' = ml_lender_seat_index n)) →
  ensures (d ← modify_value (mk_dynamic m) i f; mret (m <| mk_dynamic := d |>)) (stored [] T).
Proof.
  intros (S & A & B & L & F & H) Hf m' (d & Hd & [= <-])%bind_Ok.
  destruct (modify_value_Ok _ _ _ _ Hd) as (n & o & Hn%region_get_block & Hv & _).
  destruct (Hf _ _ Hv) as (K1 & K2 & K3). pose proof (st_inv _ _ _ _ _ _ _ _ H) as Hm.
  pose proof (frame_dom _ _ _ (modify_value_frame (V:=MatchedLoan) (λ _, False) _ i f d Hd)) as Hdom.
  pose proof (store_loan H i n Hn (not_elem_of_nil _)) as Hi.
  destruct (tree_inv_modify_value _ _ _ _ _ _ f (mi_loans _ _ _ _ _ _ Hm) Hi Hv I)
    as (d' & Hd' & Ht & _ & Ho).
  { intros y _. simpl. unfold matched_loan_cmp. by rewrite K1. }
  simpl in Hd', Ht, Ho. rewrite Hd in Hd'. injection Hd' as <-.
  exists S, A, B, (set_entry i o L), F.
  rewrite_market (put_matched_loans m (mkTree d (mf_matched_loans_root_index (mk_fixed m)) NIL)).
  eapply store_put_loans; [exact H|exact Ht| |exact Hdom|by rewrite set_entry_fst| |].
  - intros j Hj. apply Ho. intros ->%list_elem_of_singleton. apply Hj. simpl.
    apply list_elem_of_fmap. by eexists (i, _).
  - pose proof (st_loans _ _ _ _ _ _ _ _ H) as HL. rewrite Forall_forall in HL |- *. intros [j x] Hj.
    apply set_entry_elem_inv in Hj as [[-> ->]|[_ Hj]]; [|by apply HL].
    unfold loan_seated. simpl. rewrite K2, K3. by apply (HL (i, rb_value n)).
  - intros [j x] Hj. pose proof (st_below _ _ _ _ _ _ _ _ H) as HL.
    apply set_entry_elem_inv in Hj as [[-> ->]|[_ Hj]]; [|by apply HL].
    simpl. rewrite K1. by apply (HL (i, rb_value n)).
Qed.

(** ** Insertions *)

Lemma rest_order_stored T m i o : stored [i] T m → ro_trader_seat_index o ∈ T →
  (on_side Ask o ∨ on_side Bid o) → ensures (rest_order m i o) (stored [] T).
Proof.
  intros (S & A & B & L & F & H) HT Hside m' Hr.
  destruct (store_spare _ _ _ _ _ _ _ _ _ H). pose proof (st_inv _ _ _ _ _ _ _ _ H) as Hm.
  pose proof (st_orders _ _ _ _ _ _ _ _ H) as [HA HB]%Forall_app.
  assert (order_seated S (i, o)) as Ho.
  { apply (proj1 (Forall_forall _ _) (st_known _ _ _ _ _ _ _ _ H)), HT. }
  unfold rest_order in Hr. destruct Hside as [Hs|Hs]; rewrite Hs in Hr; simpl in Hr;
    apply bind_Ok in Hr as (t & Ht & [= <-]).
  - destruct (insert_tree_inv _ _ _ i o (mi_asks _ _ _ _ _ _ Hm))
      as (t' & A1 & A2 & Ht' & -> & Hinv & _ & _ & Hout & Hmx); [done..|].
    rewrite Ht in Ht'. injection Ht' as <-. exists S, (A1 ++ (i, o) :: A2), B, L, F.
    apply Forall_app in HA as [HA1 HA2].
    eapply store_put_asks; [exact H|exact Hinv|by apply Hmx, (mi_asks_best _ _ _ _ _ _ Hm)| | | |].
    + intros j Hj%insert_outside. by apply Hout.
    + by rewrite (insert_dom _ _ _ _ Ht).
    + apply (insert_listing _ _ []).
    + apply Forall_app. by repeat constructor.
  - destruct (insert_tree_inv _ _ _ i o (mi_bids _ _ _ _ _ _ Hm))
      as (t' & B1 & B2 & Ht' & -> & Hinv & _ & _ & Hout & Hmx); [done..|].
    rewrite Ht in Ht'. injection Ht' as <-. exists S, A, (B1 ++ (i, o) :: B2), L, F.
    apply Forall_app in HB as [HB1 HB2].
    eapply store_put_bids; [exact H|exact Hinv|by apply Hmx, (mi_bids_best _ _ _ _ _ _ Hm)| | | |].
    + intros j Hj%insert_outside. by apply Hout.
    + by rewrite (insert_dom _ _ _ _ Ht).
    + apply (insert_listing _ _ []).
    + apply Forall_app. by repeat constructor.
Qed.

Lemma claim_seat_stored T m o k id : stored [] T m →
  ensures (claim_seat_with_sub_vault m o k id) (stored [] T).
Proof.
  intros (S & A & B & L & F & H) m' Hr. unfold claim_seat_with_sub_vault in Hr.
  set (v := claimed_seat_new_empty o k id) in *.
  apply bind_Ok in Hr as (j & Hj & Hr). destruct (Z.eqb_spec j NIL) as [->|]; [|done].
  destruct (lookup_seat_inv _ _ _ _ _ _ v (st_inv _ _ _ _ _ _ _ _ H)) as (j' & Hj' & _ & Hno).
  rewrite Hj in Hj'. injection Hj' as <-.
  apply bind_Ok in Hr as ([m1 i] & Hg & Hr).
  apply bind_Ok in Hr as ([] & Hi%require_Ok%negb_true_iff%Z.eqb_neq & Hr).
  destruct (get_free_store _ _ _ _ _ _ _ _ _ H Hg) as [[-> _]|[F' H1]]; [done|].
  destruct (store_spare _ _ _ _ _ _ _ _ _ H1). pose proof (st_inv _ _ _ _ _ _ _ _ H1) as Hm1.
  pose proof (st_keys _ _ _ _ _ _ _ _ H1) as Hu.
  apply bind_Ok in Hr as (t & Ht & Hr). apply bind_Ok in Hr as (c & Hc & [= <-]).
  destruct (insert_tree_inv _ _ _ i v (mi_seats _ _ _ _ _ _ Hm1))
    as (t' & S1 & S2 & Ht' & -> & Hinv & _ & _ & Hout & _); [done..|].
  rewrite Ht in Ht'. injection Ht' as <-. exists (S1 ++ (i, v) :: S2), A, B, L, F'.
  assert (Z.of_nat (length (S1 ++ (i, v) :: S2)) = c) as Hlen.
  { apply ok_or_Ok, checked_add_Some in Hc as [-> _]. simpl.
    rewrite (st_count _ _ _ _ _ _ _ _ H1), !length_app. simpl. lia. }
  rewrite <- Hlen. eapply store_put_seats; [exact H1|exact Hinv| | | | |].
  - intros j Hj'%insert_outside. by apply Hout.
  - by rewrite (insert_dom _ _ _ _ Ht).
  - apply (insert_listing _ _ []).
  - intros j. rewrite !fmap_app, !elem_of_app. cbn [fmap list_fmap fst]. rewrite elem_of_cons. tauto.
  - assert (∀ j w, (j, w) ∈ S1 ++ (i, v) :: S2 → (j, w) = (i, v) ∨ (j, w) ∈ S1 ++ S2) as Hin.
    { intros j w. rewrite !elem_of_app, elem_of_cons. tauto. }
    intros j x j' y [[= -> ->]|Hx]%Hin [[= -> ->]|Hy]%Hin Hxy; [done| | |by eapply Hu].
    + exfalso. apply (Hno j' y Hy); [|done]. apply claimed_seat_cmp_Eq in Hxy as (? & ? & ?).
      by apply claimed_seat_cmp_Eq.
    + exfalso. by apply (Hno j x Hx).
Qed.

(** Queueing a loan between known seats, with the next number. *)
Lemma mint_matched_loan_stored T m n : stored [] T m → ml_borrower_seat_index n ∈ T →
  (ml_lender_seat_index n = NIL ∨ ml_lender_seat_index n ∈ T) →
  ml_sequence n = mf_matched_loan_sequence (mk_fixed m) →
  ensures (mint_matched_loan m n) (λ '(m', _), stored [] T m').
Proof.
  intros (S & A & B & L & F & H) Hb Hl Hs [m' i'] Hr. unfold mint_matched_loan in Hr.
  apply bind_Ok in Hr as ([m1 i] & Hg & Hr).
  apply bind_Ok in Hr as ([] & Hi%require_Ok%negb_true_iff%Z.eqb_neq & Hr).
  assert (mf_matched_loan_sequence (mk_fixed m1) = mf_matched_loan_sequence (mk_fixed m)) as Hq.
  { unfold get_free_address in Hg. by apply bind_Ok in Hg as ([[d h] j] & _ & [= <- _]). }
  destruct (get_free_store _ _ _ _ _ _ _ _ _ H Hg) as [[-> _]|[F' H1]]; [done|].
  destruct (store_spare _ _ _ _ _ _ _ _ _ H1). pose proof (st_inv _ _ _ _ _ _ _ _ H1) as Hm1.
  apply bind_Ok in Hr as (t & Ht & Hr). apply bind_Ok in Hr as (c & Hc & [= <- <-]).
  destruct (insert_tree_inv _ _ _ i n (mi_loans _ _ _ _ _ _ Hm1))
    as (t' & L1 & L2 & Ht' & -> & Hinv & _ & _ & Hout & _); [done..|].
  rewrite Ht in Ht'. injection Ht' as <-. apply ok_or_Ok, checked_add_Some in Hc as [-> _].
  simpl. rewrite Hq.
  pose proof (proj1 (Forall_forall _ _) (st_known _ _ _ _ _ _ _ _ H)) as HT. simpl in HT.
  pose proof (st_loans _ _ _ _ _ _ _ _ H1) as [HL1 HL2]%Forall_app.
  assert (store [i] T (m1 <| mk_fixed ::= λ f, f <| mf_matched_loan_sequence :=
    mf_matched_loan_sequence (mk_fixed m) + 1 |> |>) S A B (L1 ++ L2) F') as H2.
  { destruct H1. split; try done; [by apply market_inv_fixed|by eapply layout_moved|].
    intros e He. specialize (st_below0 e He). simpl. rewrite Hq in st_below0. lia. }
  exists S, A, B, (L1 ++ (i, n) :: L2), F'.
  eapply (store_put_loans _ _ _ _ _ _ _ _ _ _ t H2); [exact Hinv| | | | |].
  - intros j Hj'%insert_outside. by apply Hout.
  - by rewrite (insert_dom _ _ _ _ Ht).
  - apply (insert_listing _ _ []).
  - apply Forall_app. split; [done|]. constructor; [|done]. split; simpl; [by apply HT|].
    destruct Hl as [->|Hl]; [by left|right; by apply HT].
  - intros e. pose proof (st_below _ _ _ _ _ _ _ _ H1) as Hbelow. rewrite Hq in Hbelow.
    simpl. rewrite elem_of_app, elem_of_cons. specialize (Hbelow e). rewrite elem_of_app in Hbelow.
    intros [He|[->|He]]; simpl; [|lia|]; specialize (Hbelow ltac:(tauto)); lia.
Qed.

(** ** Removals *)

Lemma remove_ask_stored T m i o : stored [] T m → get_order m i = Ok o → ro_side o = Side_as_u8 Ask →
  ensures (remove_by_index (V:=RestingOrder) (asks_tree m) i) (λ t, stored [i] T (put_asks m t)).
Proof.
  intros (S & A & B & L & F & H) (n & Hn%region_get_block & [= <-])%bind_Ok Hs t Ht.
  destruct (store_order H i n Hn (not_elem_of_nil _)) as [[Hi _]|[_ Hs']];
    [|unfold on_side in Hs'; simpl in *; congruence].
  pose proof (st_inv _ _ _ _ _ _ _ _ H) as Hm. apply list_elem_of_split in Hi as (A1 & A2 & ->).
  destruct (remove_tree_inv _ _ _ _ _ _ (mi_asks _ _ _ _ _ _ Hm)) as (t' & Ht' & Hinv & Hout & _ & Hmx).
  rewrite Ht in Ht'. injection Ht' as <-. exists S, (A1 ++ A2), B, L, F.
  eapply store_put_asks; [exact H|exact Hinv| |exact Hout|by apply (remove_dom _ _ _ Ht)|apply remove_listing|].
  - apply Hmx, (mi_asks_best _ _ _ _ _ _ Hm).
  - pose proof (st_orders _ _ _ _ _ _ _ _ H) as [HA _]%Forall_app. by eapply Forall_without.
Qed.

Lemma remove_bid_stored T m i o : stored [] T m → get_order m i = Ok o → ro_side o = Side_as_u8 Bid →
  ensures (remove_by_index (V:=RestingOrder) (bids_tree m) i) (λ t, stored [i] T (put_bids m t)).
Proof.
  intros (S & A & B & L & F & H) (n & Hn%region_get_block & [= <-])%bind_Ok Hs t Ht.
  destruct (store_order H i n Hn (not_elem_of_nil _)) as [[_ Hs']|[Hi _]];
    [unfold on_side in Hs'; simpl in *; congruence|].
  pose proof (st_inv _ _ _ _ _ _ _ _ H) as Hm. apply list_elem_of_split in Hi as (B1 & B2 & ->).
  destruct (remove_tree_inv _ _ _ _ _ _ (mi_bids _ _ _ _ _ _ Hm)) as (t' & Ht' & Hinv & Hout & _ & Hmx).
  rewrite Ht in Ht'. injection Ht' as <-. exists S, A, (B1 ++ B2), L, F.
  eapply store_put_bids; [exact H|exact Hinv| |exact Hout|by apply (remove_dom _ _ _ Ht)|apply remove_listing|].
  - apply Hmx, (mi_bids_best _ _ _ _ _ _ Hm).
  - pose proof (st_orders _ _ _ _ _ _ _ _ H) as [_ HB]%Forall_app. by eapply Forall_without.
Qed.

(** Every order is on one of the two sides. *)
Lemma get_order_side T m i o : stored [] T m → get_order m i = Ok o → on_side Ask o ∨ on_side Bid o.
Proof.
  intros (S & A & B & L & F & H) (n & Hn%region_get_block & [= <-])%bind_Ok.
  destruct (store_order H i n Hn (not_elem_of_nil _)) as [[_ Hs]|[_ Hs]]; [by left|by right].
Qed.

Lemma remove_order_stored T m i : stored [] T m →
  ensures (remove_order_from_tree_and_free m i) (stored [] T).
Proof.
  intros H. unfold remove_order_from_tree_and_free. apply ensures_bind. intros o Ho.
  apply ensures_bind, ensures_mono with (stored [i] T);
    [|intros m1 H1; by apply release_address_stored].
  destruct (get_order_side T m i o H Ho) as [Hs|Hs]; rewrite Hs; simpl; apply ensures_bind;
    (eapply ensures_mono; [|intros t Ht; apply ensures_Ok; exact Ht]).
  - by apply (remove_ask_stored T m i o).
  - by apply (remove_bid_stored T m i o).
Qed.

(** Only a block of the tree's kind can be taken out of it. *)
Lemma remove_reads {V} `{BlockOf MarketBlock (RBNode V)} `{Payload V} (t t' : Tree MarketBlock) i :
  remove_by_index (V:=V) t i = Ok t' → i ≠ NIL → t_max t = NIL →
  ∃ n : RBNode V, region_get (t_data t) i = Ok n.
Proof.
  intros Ht Hi Hmx. unfold remove_by_index in Ht. rewrite Hmx in Ht.
  rewrite (proj2 (Z.eqb_neq _ _) Hi) in Ht. apply bind_Ok in Ht as (t1 & [= <-] & Ht).
  apply bind_Ok in Ht as (b & Hb & _). unfold is_internal in Hb. apply bind_Ok in Hb as (r & Hr & _).
  unfold get_right_index in Hr. rewrite (proj2 (Z.eqb_neq _ _) Hi) in Hr.
  unfold get_node in Hr. destruct (region_get (t_data t) i) as [n|]; [by exists n|done].
Qed.

(** Taking a loan off the queue. *)
Lemma retire_node_stored T m i : stored [] T m → ensures (retire_node m i) (stored [] T).
Proof.
  intros (S & A & B & L & F & H) m' Hr. unfold retire_node in Hr.
  apply bind_Ok in Hr as (t & Ht & Hr). pose proof (st_inv _ _ _ _ _ _ _ _ H) as Hm.
  destruct (decide (i = NIL)) as [->|Hi].
  { injection Ht as <-. apply bind_Ok in Hr as ([d h] & (_ & [b Hb] & _)%free_list_add_Ok & _).
    exfalso. destruct (st_layout _ _ _ _ _ _ _ _ H).
    assert (0 <= NIL < mf_num_bytes_allocated (mk_fixed m)) by (apply (mi_bound _ _ _ _ _ _ Hm); by exists b).
    unfold NIL in *. norm_pow. lia. }
  destruct (remove_reads _ _ _ Ht Hi eq_refl) as (n & Hn%region_get_block).
  pose proof (store_loan H i n Hn (not_elem_of_nil _)) as (L1 & L2 & ->)%list_elem_of_split.
  destruct (remove_tree_inv _ _ _ _ _ _ (mi_loans _ _ _ _ _ _ Hm)) as (t' & Ht' & Hinv & Hout & _).
  rewrite Ht in Ht'. injection Ht' as <-. revert m' Hr. apply release_address_stored.
  exists S, A, B, (L1 ++ L2), F.
  eapply store_put_loans; [exact H|exact Hinv|exact Hout|by apply (remove_dom _ _ _ Ht)|apply remove_listing| |].
  - eapply Forall_without, (st_loans _ _ _ _ _ _ _ _ H).
  - intros e He. apply (st_below _ _ _ _ _ _ _ _ H). revert He. rewrite !elem_of_app, elem_of_cons. tauto.
Qed.

Lemma take_order_sequence_stored X T m : stored X T m →
  ensures (take_order_sequence m) (λ '(m', _), stored X T m').
Proof. intros H. unfold take_order_sequence. ensure_walk. by apply stored_fixed. Qed.
End store.
