(* ===== verification/StoreChain.v ===== *)
(** * Every market of the chain is well formed

    [StoreSpec] shows that the operations of a market keep its store; here the matching
    engines, the handlers and at last every transaction do.  [reachable_markets_well_formed]:
    whatever transactions ran, in whatever order, with whatever accounts of the other
    programs, and with seat hints that do not imitate a seat, the account of every market is exactly its seats, its book, its queue and
    its free blocks. *)
From stdpp Require Import base numbers list option gmap relations.
From S2P Require Import Prelude FixedPoint Loan Marginfi Oracles Ltv.
From S2P Require Import Hypertree HypertreeFrame HypertreeSpec HypertreeOrder SubVault Market VaultTrees.
From S2P Require Import UserAccount Matching Runtime LoanClose Repay Keeper Promotion Deposits Claims.
From S2P Require Import Convert Admin Orders Program MarketSpec SystemSpec RiskSpec StoreSpec.
Local Open Scope Z_scope.

Implicit Types (m : Market) (T : list Z) (i j : Z).

(** ** What the updates of a seat keep *)

Ltac key := intros s; unfold same_key; ensure_walk; try by split_and!.

Lemma bump_open_borrow_key : keeps_key bump_open_borrow.
Proof. unfold bump_open_borrow. key. Qed.
Lemma bump_open_lend_key : keeps_key bump_open_lend.
Proof. unfold bump_open_lend. key. Qed.
Lemma drop_open_lend_key : keeps_key drop_open_lend.
Proof. unfold drop_open_lend. key. Qed.
Lemma drop_open_borrow_key : keeps_key drop_open_borrow.
Proof. unfold drop_open_borrow. key. Qed.
Lemma add_open_borrows_key n : keeps_key (add_open_borrows n).
Proof. unfold add_open_borrows. key. Qed.
Lemma swept_seat_key n k : keeps_key (swept_seat n k).
Proof. unfold swept_seat. key. Qed.
Lemma add_debt_shares_key n : keeps_key (add_debt_shares n).
Proof. unfold add_debt_shares. key. Qed.
Lemma release_collateral_seat_key n k : keeps_key (release_collateral_seat n k).
Proof. unfold release_collateral_seat. cbv zeta. key. Qed.
Lemma update_balance_key a b c n : keeps_key (λ s, update_balance s a b c n).
Proof. intros s. unfold update_balance. apply ensures_bind. intros v _. apply ensures_Ok. by destruct a, b. Qed.

Lemma keeps_key_bind f g : keeps_key f → keeps_key g → keeps_key (λ s, f s ≫= g).
Proof.
  intros Hf Hg s. apply ensures_bind. eapply ensures_mono; [apply Hf|]. intros s1 (K1 & K2 & K3).
  eapply ensures_mono; [apply Hg|]. intros s2 (J1 & J2 & J3). split_and!; congruence.
Qed.
Lemma keeps_key_Ok : keeps_key Ok.
Proof. key. Qed.

Lemma encumber_seat_key side p c : keeps_key (encumber_seat side p c).
Proof.
  unfold encumber_seat. destruct side; repeat first [apply keeps_key_bind|apply update_balance_key]; key.
Qed.
Lemma unencumber_seat_key side p c : keeps_key (unencumber_seat side p c).
Proof.
  unfold unencumber_seat. destruct side; repeat first [apply keeps_key_bind|apply update_balance_key]; key.
Qed.
#[local] Hint Resolve bump_open_borrow_key bump_open_lend_key drop_open_lend_key drop_open_borrow_key
  add_open_borrows_key swept_seat_key add_debt_shares_key release_collateral_seat_key
  update_balance_key encumber_seat_key unencumber_seat_key keeps_key_Ok : ensures.

(** ** Seats that are known *)

Ltac known := rewrite ?elem_of_cons, ?elem_of_app; tauto.
(** The store of the goal, with fewer known seats. *)
Ltac stored_done := first [assumption | eapply stored_forget; [|eassumption]; intros ? ?; known].

#[local] Hint Resolve get_seat_stored get_order_stored get_free_address_stored modify_seat_stored
  modify_order_stored claim_seat_stored remove_order_stored retire_node_stored
  take_order_sequence_stored expand_market_stored : ensures.

Lemma expand_market_if_needed_stored T m : stored [] T m →
  ensures (expand_market_if_needed m) (stored [] T).
Proof. intros Hm. unfold expand_market_if_needed. ensure_walk; assumption. Qed.

Lemma expand_market_to_free_blocks_stored T m n : stored [] T m →
  ensures (expand_market_to_free_blocks m n) (stored [] T).
Proof.
  unfold expand_market_to_free_blocks. generalize (Z.to_nat n). intros fuel. revert m.
  induction fuel as [|fuel IH]; intros m Hm; cbn [expand_market_loop]; ensure_walk; assumption.
Qed.
#[local] Hint Resolve expand_market_if_needed_stored expand_market_to_free_blocks_stored : ensures.

Lemma lookup_seat_stored T m probe : stored [] T m →
  ensures (lookup_seat_index m probe) (λ j, j ≠ NIL → stored [] (j :: T) m).
Proof.
  intros (S & A & B & L & F & H) j Hj Hn. exists S, A, B, L, F. apply store_learn; [done|].
  destruct (lookup_seat_inv _ _ _ _ _ _ probe (st_inv _ _ _ _ _ _ _ _ H)) as (j' & Hj' & Hs & _).
  rewrite Hj in Hj'. injection Hj' as <-. destruct (Hs Hn) as (v & Hv & _).
  apply list_elem_of_fmap. by exists (j, v).
Qed.

(** ** The engines *)

Lemma unencumber_atoms_stored T m i side p c snap : stored [] T m →
  ensures (unencumber_atoms m i side p c snap) (stored [] T).
Proof. intros Hm. unfold unencumber_atoms, unencumber_for_order. ensure_walk. stored_done. Qed.
Lemma release_loan_collateral_stored T m i t r : stored [] T m →
  ensures (release_loan_collateral m i t r) (stored [] T).
Proof. intros Hm. unfold release_loan_collateral. ensure_walk. stored_done. Qed.
#[local] Hint Resolve unencumber_atoms_stored release_loan_collateral_stored : ensures.

Definition step_stored {S} (Q : S → Prop) (st : ScanStep S) : Prop :=
  match st with Filled s => Q s | _ => True end.

(** A mint between two known seats. *)
Ltac mint Hm :=
  apply ensures_bind; eapply ensures_mono;
    [apply mint_matched_loan_stored; [exact Hm|simpl; known|simpl; auto|reflexivity]|];
  let m := fresh "m" in let i := fresh "i" in let Hm1 := fresh "Hm" in intros [m i] Hm1.

Lemma fill_ask_stored T args s v maker id cap cap_bps matched coll : stored [] T (ms_market s) →
  ma_taker_seat_index args ∈ T → ro_trader_seat_index maker ∈ T →
  ensures (fill_ask args s v maker id cap cap_bps matched coll) (λ s', stored [] T (ms_market s')).
Proof.
  intros Hm Ht Hk. unfold fill_ask. cbv zeta. do 6 ensure_step. mint Hm. ensure_walk. stored_done.
Qed.

#[local] Hint Resolve fill_ask_stored : ensures.
#[local] Hint Extern 1 (_ ∈ _ :: _) => solve [known] : ensures.

Lemma match_maker_stored T args s maker : stored [] T (ms_market s) →
  ensures (match_maker args s maker) (step_stored (λ s', stored [] T (ms_market s'))).
Proof.
  intros Hm. unfold match_maker. cbv zeta. ensure_walk; simpl; try done; stored_done.
Qed.

(** Drops a fact of the walk that is not needed. *)
Ltac pass := apply ensures_bind; intros ? _; cbv beta.

Lemma match_loop_stored T fuel args s current : stored [] T (ms_market s) →
  ensures (match_loop fuel args s current) (λ s', stored [] T (ms_market s')).
Proof.
  revert s current. induction fuel as [|fuel IH]; intros s current Hs; cbn [match_loop];
    (ensure_step; [|by apply ensures_Ok]); [apply ensures_Err|]. pass.
  apply ensures_bind. eapply ensures_mono; [by apply match_maker_stored|].
  intros [| |s1] Hs1; [pass; by apply IH|by apply ensures_Ok|pass; by apply IH].
Qed.

Lemma match_order_stored T m args vo : stored [] T m →
  ensures (match_order m args vo) (λ '(m', _, _), stored [] T m').
Proof.
  intros Hm. unfold match_order. ensure_step. eapply ensures_mono; [by apply match_loop_stored|].
  intros s Hs'. by apply ensures_Ok.
Qed.
#[local] Hint Resolve match_order_stored : ensures.

(** The residual arms: the taker's seat is known. *)
Lemma p2pool_residual_stored T m args r : stored [] T m →
  ensures (p2pool_residual m args r) (λ '(m', _, _), stored [] T m').
Proof.
  intros Hm. unfold p2pool_residual. cbv zeta. do 2 pass. apply ensures_bind.
  eapply ensures_mono; [by apply modify_seat_stored; [exact Hm|auto with ensures]|]. intros m1 Hm1.
  pass. mint Hm1. apply ensures_Ok. stored_done.
Qed.

Lemma rest_residual_stored T m args r q : stored [] T m → pa_taker_seat_index args ∈ T →
  ensures (rest_residual m args r q) (stored [] T).
Proof.
  intros Hm HT. unfold rest_residual. apply ensures_bind.
  eapply ensures_mono; [by apply get_free_address_stored|]. intros [m1 i] Hm1. apply ensures_bind.
  intros [] Hi%require_Ok%negb_true_iff%Z.eqb_neq. apply rest_order_stored; [by apply Hm1|done|by right].
Qed.
#[local] Hint Resolve p2pool_residual_stored rest_residual_stored : ensures.

Lemma match_borrower_bid_stored T m args vo : stored [] T m →
  ensures (match_borrower_bid m args vo) (λ '(m', _, _), stored [] T m').
Proof.
  intros Hm. unfold match_borrower_bid, encumber_for_order. cbv zeta. do 5 pass. apply ensures_bind.
  eapply ensures_mono; [by apply modify_seat_stored; [exact Hm|auto with ensures]|]. intros m1 Hm1.
  ensure_walk; stored_done.
Qed.

Lemma cancel_order_by_index_stored T m seat i : stored [] T m →
  ensures (cancel_order_by_index m seat i) (stored [] T).
Proof. intros Hm. unfold cancel_order_by_index. ensure_walk; stored_done. Qed.

(** An updated bid leaves the book and comes back under a new number, at the same seat. *)
Lemma update_user_bid_stored T m seat i rate term valid buffer now : stored [] T m →
  ensures (update_user_bid m seat i rate term valid buffer now) (λ '(m', _), stored [] T m').
Proof.
  intros Hm. unfold update_user_bid. cbv zeta. apply ensures_bind. intros o Ho.
  pose proof (get_order_stored T m i Hm o Ho) as Hm'. pass. apply ensures_bind.
  intros [] Hs%require_Ok%Z.eqb_eq. do 2 pass. apply ensures_bind.
  eapply ensures_mono; [by apply (remove_bid_stored _ m i o Hm' Ho)|]. intros t Ht.
  apply ensures_bind. eapply ensures_mono; [apply take_order_sequence_stored, Ht|]. intros [m1 q] Hm1.
  apply ensures_bind. eapply ensures_mono; [apply rest_order_stored; [exact Hm1|simpl; known|by right]|].
  intros m2 Hm2. apply ensures_Ok. stored_done.
Qed.

Lemma rest_vault_ask_stored T m args : stored [] T m →
  ensures (rest_vault_ask m args) (λ '(m', _), stored [] T m').
Proof.
  intros Hm. unfold rest_vault_ask. pass. apply ensures_bind.
  eapply ensures_mono; [by apply modify_seat_stored; [exact Hm|auto with ensures]|]. intros m1 Hm1.
  apply ensures_bind. eapply ensures_mono; [by apply take_order_sequence_stored|]. intros [m2 q] Hm2.
  apply ensures_bind. eapply ensures_mono; [by apply get_free_address_stored|].
  intros [m3 i] Hm3. apply ensures_bind. intros [] Hi%require_Ok%negb_true_iff%Z.eqb_neq.
  apply ensures_bind. eapply ensures_mono.
  { apply rest_order_stored; [by apply Hm3|simpl; known|by left]. }
  intros m4 Hm4. apply ensures_Ok. stored_done.
Qed.
#[local] Hint Resolve cancel_order_by_index_stored update_user_bid_stored rest_vault_ask_stored : ensures.

(** Refinancing, and the take of resting bids. *)
Lemma refinance_fill_stored T args s v maker id cap matched : stored [] T (rs_market s) →
  ra_borrower_seat_index args ∈ T → ro_trader_seat_index maker ∈ T →
  ensures (refinance_fill args s v maker id cap matched) (λ s', stored [] T (rs_market s')).
Proof.
  intros Hm Hb Hk. unfold refinance_fill. cbv zeta. do 3 pass. mint Hm. ensure_walk. stored_done.
Qed.
#[local] Hint Resolve refinance_fill_stored : ensures.

Lemma refinance_maker_stored T args s maker : stored [] T (rs_market s) →
  ensures (refinance_maker args s maker) (step_stored (λ s', stored [] T (rs_market s'))).
Proof.
  intros Hm. unfold refinance_maker. cbv zeta. ensure_walk; simpl; try done; stored_done.
Qed.

Lemma refinance_loop_stored T fuel args s current : stored [] T (rs_market s) →
  ensures (refinance_loop fuel args s current) (λ s', stored [] T (rs_market s')).
Proof.
  revert s current. induction fuel as [|fuel IH]; intros s current Hs; cbn [refinance_loop];
    (ensure_step; [|by apply ensures_Ok]); [apply ensures_Err|]. pass.
  apply ensures_bind. eapply ensures_mono; [by apply refinance_maker_stored|].
  intros [| |s1] Hs1; [pass; by apply IH|by apply ensures_Ok|pass; by apply IH].
Qed.

Lemma match_p2pool_residual_stored T m args vo : stored [] T m →
  ensures (match_p2pool_residual_against_asks m args vo) (λ s, stored [] T (rs_market s)).
Proof. intros Hm. unfold match_p2pool_residual_against_asks. by apply refinance_loop_stored. Qed.

Lemma shrink_bid_place fill consumed : keeps_place (shrink_bid fill consumed).
Proof. intros o. unfold shrink_bid, order_reduce. by ensure_walk. Qed.
#[local] Hint Resolve match_p2pool_residual_stored shrink_bid_place : ensures.

Lemma fill_bid_stored T args s current bid fill c cap : stored [] T (bs_market s) →
  (ba_ask_seat_index args = NIL ∨ ba_ask_seat_index args ∈ T) → ro_trader_seat_index bid ∈ T →
  ensures (fill_bid args s current bid fill c cap) (λ s', stored [] T (bs_market s')).
Proof.
  intros Hm Ha Hb. unfold fill_bid. cbv zeta. do 3 pass. mint Hm. ensure_walk; stored_done.
Qed.
Lemma prune_bid_stored T s current bid : stored [] T (bs_market s) →
  ensures (prune_bid s current bid) (λ s', stored [] T (bs_market s')).
Proof. intros Hm. unfold prune_bid. ensure_walk; stored_done. Qed.
#[local] Hint Resolve fill_bid_stored prune_bid_stored : ensures.

Lemma match_bid_stored T args s current bid : stored [] T (bs_market s) →
  (ba_ask_seat_index args = NIL ∨ ba_ask_seat_index args ∈ T) →
  ensures (match_bid args s current bid) (step_stored (λ s', stored [] T (bs_market s'))).
Proof.
  intros Hm Ha. unfold match_bid. cbv zeta.
  assert (∀ j, ba_ask_seat_index args = NIL ∨ ba_ask_seat_index args ∈ j :: T) by (intros; known).
  ensure_walk; simpl; try done; stored_done.
Qed.

Lemma bids_loop_stored T fuel args s current : stored [] T (bs_market s) →
  (ba_ask_seat_index args = NIL ∨ ba_ask_seat_index args ∈ T) →
  ensures (bids_loop fuel args s current) (λ s', stored [] T (bs_market s')).
Proof.
  intros Hs Ha. revert s current Hs. induction fuel as [|fuel IH]; intros s current Hs; cbn [bids_loop];
    (ensure_step; [|by apply ensures_Ok]); [apply ensures_Err|]. do 2 pass.
  apply ensures_bind. eapply ensures_mono; [by apply match_bid_stored|].
  intros [| |s1] Hs1; [by apply IH|by apply ensures_Ok|by apply IH].
Qed.

Lemma match_resting_bids_stored T m args v : stored [] T m →
  (ba_ask_seat_index args = NIL ∨ ba_ask_seat_index args ∈ T) →
  ensures (match_resting_bids m args v) (λ s, stored [] T (bs_market s)).
Proof. intros Hm Ha. unfold match_resting_bids. by apply bids_loop_stored. Qed.

(** ** The handlers *)

Section handlers.
Context (invoke_signed : MarginfiIx → list AccountInfo → result (list AccountInfo)).
Context (invoke_token : TokenIx → list AccountInfo → result (list AccountInfo)).
Context (parse : list Z → option StakeState) (now : Z).
Implicit Types (w : World) (v : Vault).

Definition keeps_store (f : World → result World) : Prop :=
  ∀ w, stored [] [] (wd_market w) → ensures (f w) (λ w', stored [] [] (wd_market w')).

Lemma well_formed_forget T m : stored [] T m → well_formed m.
Proof. apply stored_forget. by intros j ?%elem_of_nil. Qed.

Lemma market_fixed_stored m f : stored [] [] m →
  (∀ x, mf_claimed_seats_root_index (f x) = mf_claimed_seats_root_index x
    ∧ mf_asks_root_index (f x) = mf_asks_root_index x ∧ mf_asks_best_index (f x) = mf_asks_best_index x
    ∧ mf_bids_root_index (f x) = mf_bids_root_index x ∧ mf_bids_best_index (f x) = mf_bids_best_index x
    ∧ mf_matched_loans_root_index (f x) = mf_matched_loans_root_index x
    ∧ mf_free_list_head_index (f x) = mf_free_list_head_index x
    ∧ mf_num_bytes_allocated (f x) = mf_num_bytes_allocated x
    ∧ mf_matched_loan_sequence (f x) = mf_matched_loan_sequence x
    ∧ mf_position_count (f x) = mf_position_count x) →
  stored [] [] (m <| mk_fixed ::= f |>).
Proof.
  intros Hm Hf. destruct (Hf (mk_fixed m)) as (? & ? & ? & ? & ? & ? & ? & ? & ? & ?).
  by apply stored_fixed.
Qed.

Lemma deposit_to_seat_stored m i n b : stored [] [] m → ensures (deposit_to_seat m i n b) (stored [] []).
Proof. intros Hm. unfold deposit_to_seat. ensure_walk. stored_done. Qed.
Lemma withdraw_from_seat_stored m i n b : stored [] [] m →
  ensures (withdraw_from_seat m i n b) (stored [] []).
Proof. intros Hm. unfold withdraw_from_seat. ensure_walk. stored_done. Qed.
#[local] Hint Resolve deposit_to_seat_stored withdraw_from_seat_stored : ensures.

Lemma claim_seat_files k payer : keeps_store (process_claim_seat k payer).
Proof. intros w Hm. unfold process_claim_seat, claim_seat. ensure_walk. stored_done. Qed.

Lemma deposit_files ctx n h : keeps_store (process_deposit invoke_signed invoke_token ctx n h).
Proof. intros w Hm. unfold process_deposit. cbv zeta. ensure_walk. stored_done. Qed.

Lemma withdraw_files ctx n h b : keeps_store (process_withdraw invoke_signed invoke_token ctx n h b).
Proof. intros w Hm. unfold process_withdraw. cbv zeta. ensure_walk; stored_done. Qed.

Lemma record_fallback_stored m payer h i o c : stored [] [] m →
  ensures (record_fallback m payer h i o c) (stored [] []).
Proof.
  intros Hm. unfold record_fallback. apply ensures_bind, ensures_mono with (stored [] []).
  - ensure_step; [|by apply ensures_Ok]. pass. by apply deposit_to_seat_stored.
  - intros m1 Hm1. apply modify_loan_stored; [done|]. intros n. by apply ensures_Ok.
Qed.
#[local] Hint Resolve record_fallback_stored match_borrower_bid_stored : ensures.

Lemma place_order_files ctx fb p : keeps_store (process_place_order parse now invoke_signed ctx fb p).
Proof.
  intros w Hm. unfold process_place_order. cbv zeta. apply ensures_bind.
  eapply ensures_mono; [by apply expand_market_if_needed_stored|]. intros m1 Hm1. do 4 pass.
  apply ensures_bind. eapply ensures_mono; [by apply expand_market_to_free_blocks_stored|].
  intros m2 Hm2. pass. apply ensures_bind. eapply ensures_mono; [by apply match_borrower_bid_stored|].
  intros [[m3 v3] r] Hm3. apply ensures_bind, ensures_mono with (λ '(m', _), stored [] [] m');
    [ensure_walk; stored_done|]. intros [m4 l4] Hm4. ensure_walk; stored_done.
Qed.

Lemma cancel_order_files k payer q h : keeps_store (process_cancel_order k payer q h).
Proof. intros w Hm. unfold process_cancel_order. ensure_walk. stored_done. Qed.
Lemma update_order_files k payer p : keeps_store (process_update_order now k payer p).
Proof. intros w Hm. unfold process_update_order. ensure_walk. stored_done. Qed.
Lemma sync_files k o : keeps_store (process_sync_market_position k o).
Proof. intros w Hm. unfold process_sync_market_position. ensure_walk. stored_done. Qed.

(** The life cycle of a loan. *)
Lemma do_vault_settle_files ctx p se r c id : keeps_store
  (do_vault_settle invoke_signed invoke_token ctx now p se r c id).
Proof. intros w Hm. unfold do_vault_settle. cbv zeta. ensure_walk; stored_done. Qed.

Lemma promotion_files ctx q :
  keeps_store (process_primary_promotion invoke_signed invoke_token ctx now q).
Proof.
  intros w Hm. unfold process_primary_promotion. cbv zeta. do 9 forget.
  apply ensures_bind. apply ensures_mono with (λ w', stored [] [] (wd_market w')).
  - ensure_step; [|by apply ensures_Ok]. forget. by apply do_vault_settle_files.
  - intros w' Hm'. apply ensures_bind. apply ensures_mono with (stored [] []).
    + ensure_walk; stored_done.
    + intros m1 Hm1. forget. apply ensures_bind. eapply ensures_mono.
      * apply retire_node_stored. by apply market_fixed_stored.
      * intros m2 Hm2. by apply ensures_Ok.
Qed.

(** Closing out a loan. *)
Lemma credit_lender_stored m i f c full : stored [] [] m →
  ensures (credit_lender m i f c full) (stored [] []).
Proof.
  intros Hm. unfold credit_lender. apply ensures_bind, ensures_mono with (stored [] []).
  - ensure_walk; [|assumption]. by apply market_fixed_stored.
  - intros m1 Hm1. do 2 ensure_step. eapply ensures_mono; [apply modify_seat_stored; [done|]|].
    + apply keeps_key_bind; [apply add_debt_shares_key|]. intros s. by destruct full; [apply drop_open_lend_key|apply keeps_key_Ok].
    + intros m2 Hm2. stored_done.
Qed.
Lemma release_borrower_stored m i n snap : stored [] [] m →
  ensures (release_borrower m i n snap) (stored [] []).
Proof.
  intros Hm. unfold release_borrower. apply ensures_bind, ensures_mono with (stored [] []);
    [ensure_walk; assumption|]. intros m1 Hm1. ensure_walk. stored_done.
Qed.
#[local] Hint Resolve credit_lender_stored release_borrower_stored : ensures.

Lemma close_out_vault_files id bank c : keeps_store (λ w, close_out_vault w id bank c now).
Proof. intros w Hm. unfold close_out_vault. ensure_walk. assumption. Qed.
Lemma sync_position_files k o : keeps_store (λ w, sync_position w k o).
Proof. intros w Hm. unfold sync_position. ensure_walk. assumption. Qed.
Lemma drop_open_loan_ref_files k : keeps_store (λ w, drop_open_loan_ref w k).
Proof. intros w Hm. unfold drop_open_loan_ref. ensure_walk. assumption. Qed.

Lemma repay_p2pool_files ctx p loan :
  keeps_store (λ w, repay_p2pool invoke_signed invoke_token ctx now p w loan).
Proof.
  intros w Hm. unfold repay_p2pool. cbv zeta. do 17 forget. apply ensures_bind.
  eapply ensures_mono; [by apply sync_position_files|].
  intros w1 Hm1. ensure_step; [|by apply ensures_Ok].
  apply ensures_bind. eapply ensures_mono; [by apply release_borrower_stored|]. intros m2 Hm2.
  apply ensures_bind. eapply ensures_mono; [by apply drop_open_loan_ref_files|].
  intros w2 Hw2. by apply ensures_Ok.
Qed.

Lemma repay_fixed_files ctx p loan :
  keeps_store (λ w, repay_fixed invoke_signed invoke_token ctx now p w loan).
Proof.
  intros w Hm. unfold repay_fixed. cbv zeta. do 6 forget.
  apply ensures_bind. eapply ensures_mono; [by apply credit_lender_stored|]. intros m1 Hm1.
  apply ensures_bind, ensures_mono with (stored [] []); [ensure_walk; assumption|]. intros m2 Hm2.
  apply ensures_bind, ensures_mono with (λ w', stored [] [] (wd_market w')).
  { ensure_step; [by apply close_out_vault_files|by apply ensures_Ok]. }
  intros w1 Hw1. apply ensures_bind. eapply ensures_mono; [by apply sync_position_files|].
  intros w2 Hw2. ensure_step; [|by apply ensures_Ok]. apply ensures_bind.
  eapply ensures_mono; [by apply drop_open_loan_ref_files|]. intros w3 Hw3. by apply ensures_Ok.
Qed.

Lemma repay_files ctx p : keeps_store (process_repay invoke_signed invoke_token ctx now p).
Proof.
  intros w Hw. unfold process_repay. do 6 forget.
  ensure_step; [by apply repay_fixed_files|by apply repay_p2pool_files].
Qed.

Lemma keeper_close_out_files ctx loan ty pm : keeps_store (λ w, keeper_close_out ctx now w loan ty pm).
Proof.
  intros w Hm. unfold keeper_close_out. cbv zeta.
  apply ensures_bind, ensures_mono with (λ w', stored [] [] (wd_market w')).
  - ensure_step; [|by apply ensures_Ok]. do 2 forget. apply ensures_bind.
    eapply ensures_mono; [by apply credit_lender_stored|]. intros m1 Hm1.
    ensure_step; [by apply close_out_vault_files|by apply ensures_Ok].
  - intros w1 Hw1. apply ensures_Ok. by destruct (pm_full pm).
Qed.

Lemma settle_borrower_seat_stored m l n f : stored [] [] m →
  ensures (settle_borrower_seat m l n f) (stored [] []).
Proof.
  intros Hm. unfold settle_borrower_seat. ensure_step; [|by apply ensures_Ok]. ensure_step.
  ensure_step. eapply ensures_mono; [apply modify_seat_stored; [done|]|intros m1 Hm1; stored_done].
  intros s. cbv zeta. by destruct f; [eapply ensures_mono; [apply drop_open_borrow_key|]|apply ensures_Ok].
Qed.

Lemma liquidate_borrower_seat_stored m l n f : stored [] [] m →
  ensures (liquidate_borrower_seat m l n f) (stored [] []).
Proof.
  intros Hm. unfold liquidate_borrower_seat. cbv zeta. apply ensures_bind. intros surplus _.
  eapply ensures_mono; [apply modify_seat_stored; [done|]|intros m1 Hm1; stored_done].
  intros s. apply ensures_bind. intros release _. apply ensures_bind, ensures_mono with (λ s', same_key s' s).
  - by ensure_walk.
  - intros s' Hs'. destruct f; by apply ensures_Ok.
Qed.

Lemma settle_files ctx data :
  keeps_store (process_settle_matured_loan invoke_signed invoke_token ctx now data).
Proof.
  intros w Hm. unfold process_settle_matured_loan. cbv zeta. do 15 forget. apply ensures_bind.
  eapply ensures_mono; [by apply settle_borrower_seat_stored|].
  intros m1 Hm1. do 2 forget. by apply keeper_close_out_files.
Qed.

Lemma liquidate_files ctx data :
  keeps_store (process_liquidate_loan invoke_signed invoke_token parse ctx now data).
Proof.
  intros w Hm. unfold process_liquidate_loan. cbv zeta. do 11 forget.
  apply ensures_bind. eapply ensures_mono; [by apply liquidate_borrower_seat_stored|].
  intros m1 Hm1. do 2 forget. by apply keeper_close_out_files.
Qed.

Lemma convert_files ctx rate buffer :
  keeps_store (process_convert_p2pool_to_fixed invoke_signed parse ctx now rate buffer).
Proof.
  intros w Hm. unfold process_convert_p2pool_to_fixed. cbv zeta.
  do 14 forget. apply ensures_bind.
  eapply ensures_mono; [by apply expand_market_to_free_blocks_stored|]. intros m1 Hm1.
  apply ensures_bind. eapply ensures_mono; [by apply match_p2pool_residual_stored|].
  intros r Hr. do 5 forget. apply ensures_bind.
  eapply ensures_mono; [apply modify_seat_stored; [exact Hr|apply add_open_borrows_key]|].
  intros m2 Hm2. apply ensures_bind, ensures_mono with (λ '(m', _), stored [] [] m').
  - unfold release_converted. ensure_walk; stored_done.
  - intros [m3 lo] Hm3. by ensure_walk.
Qed.

(** Claims. *)
Lemma claim_repayment_files ctx id :
  keeps_store (process_claim_repayment_for_sub_vault invoke_signed invoke_token ctx id).
Proof.
  intros w Hm. unfold process_claim_repayment_for_sub_vault. cbv zeta. ensure_walk; stored_done.
Qed.

Lemma protocol_fee_stored ctx m l : stored [] [] m →
  ensures (process_protocol_fee_claim invoke_signed invoke_token ctx m l) (λ '(m', _), stored [] [] m').
Proof.
  intros Hm. unfold process_protocol_fee_claim. cbv zeta. ensure_walk; try assumption; try by apply market_fixed_stored.
Qed.

(** ** The handlers of the book *)

Definition book_files (f : Market → Vault → result (Market * Vault)) : Prop :=
  ∀ m v, stored [] [] m → ensures (f m v) (λ '(m', _), stored [] [] m').

Lemma take_resting_bids_stored T ctx l x n m v : stored [] T m →
  (at_seat_index x = NIL ∨ at_seat_index x ∈ T) →
  ensures (take_resting_bids parse now ctx l x n m v) (λ '(m', _, _), stored [] T m').
Proof.
  intros Hm Hx. unfold take_resting_bids. cbv zeta. forget. ensure_step; [by apply ensures_Ok|].
  apply ensures_bind. eapply ensures_mono; [by apply expand_market_to_free_blocks_stored|].
  intros m1 Hm1. do 3 forget. apply ensures_bind. eapply ensures_mono; [by apply match_resting_bids_stored|].
  intros s Hs. by apply ensures_Ok.
Qed.

(** The seat a sub-vault trades from exists. *)
Lemma sub_vault_seat_stored m k id : stored [] [] m →
  ensures (sub_vault_seat m k id) (λ '(m', i), stored [] [i] m').
Proof.
  intros Hm. unfold sub_vault_seat, lookup_sub_vault_seat_index. apply ensures_bind.
  eapply ensures_mono; [by apply lookup_seat_stored|]. intros i Hi.
  destruct (Z.eqb_spec i NIL) as [_|Hn]; simpl.
  - apply ensures_bind. eapply ensures_mono; [by apply expand_market_to_free_blocks_stored|].
    intros m1 Hm1. apply ensures_bind. eapply ensures_mono; [by apply claim_seat_stored|].
    intros m2 Hm2. apply ensures_bind. eapply ensures_mono; [by apply lookup_seat_stored|].
    intros j Hj. apply ensures_bind. intros [] Hjn%require_Ok%negb_true_iff%Z.eqb_neq.
    apply ensures_Ok. by apply Hj.
  - apply ensures_bind. eapply ensures_mono; [by apply expand_market_to_free_blocks_stored, Hi|].
    intros m1 Hm1. by apply ensures_Ok.
Qed.

Lemma place_for_sub_vault_files ctx k c id fl l :
  book_files (process_place_order_for_sub_vault parse now ctx k c id fl l).
Proof.
  intros m v Hm. unfold process_place_order_for_sub_vault. cbv zeta. do 3 forget. apply ensures_bind.
  eapply ensures_mono; [by apply sub_vault_seat_stored|]. intros [m1 i] Hm1. apply ensures_bind.
  eapply ensures_mono; [by apply rest_vault_ask_stored|]. intros [m2 q] Hm2. apply ensures_bind.
  unfold lookup_sub_vault_seat_index. eapply ensures_mono; [by apply lookup_seat_stored|].
  intros j Hj. apply ensures_bind. apply ensures_mono with (λ '(m', _, _), stored [] [] m').
  - destruct (decide (j = NIL)) as [->|Hn].
    + apply take_resting_bids_stored; [by eapply well_formed_forget|by left].
    + eapply ensures_mono; [apply take_resting_bids_stored; [by apply Hj|right; simpl; known]|].
      intros [[m3 v3] n] Hm3. stored_done.
  - intros [[m3 v3] n] Hm3. forget. by apply ensures_Ok.
Qed.

Lemma update_for_sub_vault_files ctx k c id fl l :
  book_files (process_update_order_for_sub_vault parse now ctx k c id fl l).
Proof.
  intros m v Hm. unfold process_update_order_for_sub_vault. cbv zeta. do 4 forget. apply ensures_bind.
  unfold lookup_sub_vault_seat_index. eapply ensures_mono; [by apply lookup_seat_stored|].
  intros j Hj. apply ensures_bind. intros [] Hn%require_Ok%negb_true_iff%Z.eqb_neq.
  apply ensures_bind. eapply ensures_mono; [apply expand_market_if_needed_stored, Hj, Hn|].
  intros m1 Hm1. forget. apply ensures_bind. eapply ensures_mono; [by apply cancel_order_by_index_stored|].
  intros m2 Hm2. apply ensures_bind. eapply ensures_mono; [by apply rest_vault_ask_stored|].
  intros [m3 q] Hm3. do 2 forget. apply ensures_bind. eapply ensures_mono.
  { apply take_resting_bids_stored; [exact Hm3|right; simpl; known]. }
  intros [[m4 v4] n] Hm4. apply ensures_Ok. stored_done.
Qed.

Lemma cancel_sub_vault_ask_files gate k mk id : book_files (cancel_sub_vault_ask gate k mk id).
Proof. intros m v Hm. unfold cancel_sub_vault_ask. ensure_walk. stored_done. Qed.

(** The crank visits the asks at seats it has read. *)
Lemma snapshot_asks_stored T m l : stored [] T m →
  ensures (snapshot_asks m l) (λ asks, stored [] (map as_seat_index asks ++ T) m).
Proof.
  intros Hm. induction l as [|i l IH]; cbn [snapshot_asks]; [by apply ensures_Ok|].
  apply ensures_bind. intros o Ho. apply ensures_bind. intros s Hs. apply ensures_bind.
  eapply ensures_mono; [exact IH|]. intros asks Ha. apply ensures_Ok. simpl.
  by apply (get_seat_stored _ m _ Ha s).
Qed.

Lemma crank_walk_stored T ctx l floor budget total asks m v : stored [] T m →
  (∀ x, x ∈ asks → as_seat_index x ∈ T) →
  ensures (crank_walk parse now ctx l floor budget total asks m v) (λ '(m', _, _), stored [] T m').
Proof.
  revert budget total m v. induction asks as [|x asks IH]; intros budget total m v Hm Hx;
    cbn [crank_walk]; [by apply ensures_Ok|]. ensure_step; [by apply ensures_Ok|]. apply ensures_bind.
  apply ensures_mono with (λ '(m', _, _), stored [] T m').
  - unfold crank_ask. ensure_step; [by apply ensures_Ok|]. forget.
    ensure_step; [by apply ensures_Ok|]. forget. apply take_resting_bids_stored; [done|].
    right. apply Hx. left.
  - intros [[m1 v1] n] Hm1. apply IH; [done|]. intros y Hy. apply Hx. by right.
Qed.

Lemma match_crank_files ctx n l m v : stored [] [] m →
  ensures (process_match_crank parse now ctx n l m v) (λ '(m', _, _), stored [] [] m').
Proof.
  intros Hm. unfold process_match_crank. do 2 forget. apply ensures_bind.
  eapply ensures_mono; [by apply snapshot_asks_stored|]. intros asks Ha. eapply ensures_mono.
  - apply crank_walk_stored; [exact Ha|]. intros x Hx. apply elem_of_app. left.
    apply list_elem_of_In, in_map, list_elem_of_In, Hx.
  - intros [[m1 v1] k] Hm1. stored_done.
Qed.

(** ** A transaction *)

Lemma on_market_files w f : stored [] [] (wd_market w) →
  (∀ m, stored [] [] m → ensures (f m) (stored [] [])) →
  ensures (on_market w f) (λ w', stored [] [] (wd_market w')).
Proof.
  intros Hm Hf. unfold on_market. apply ensures_bind. eapply ensures_mono; [by apply Hf|].
  intros m' Hm'. by apply ensures_Ok.
Qed.

Lemma on_book_files w f : stored [] [] (wd_market w) → book_files f →
  ensures (on_book w f) (λ w', stored [] [] (wd_market w')).
Proof.
  intros Hm Hf. unfold on_book. forget. apply ensures_bind. eapply ensures_mono; [by apply Hf|].
  intros [m' v'] Hm'. by apply ensures_Ok.
Qed.

Lemma process_market_ix_files pdas k g (ix : MarketIx) :
  keeps_store (process_market_ix invoke_signed invoke_token parse pdas now k g ix).
Proof.
  intros w Hw. destruct ix; simpl;
    try (apply on_market_files; [exact Hw|]; intros m Hm;
         unfold process_set_fee_config, process_transfer_market_admin, process_accept_market_admin,
           process_set_market_pause, open_market; cbv zeta; ensure_walk;
         first [assumption | by apply market_fixed_stored | by apply stored_fixed]);
    forget.
  - by apply claim_seat_files.
  - by apply deposit_files.
  - by apply withdraw_files.
  - by apply place_order_files.
  - by apply cancel_order_files.
  - by apply update_order_files.
  - forget. by apply sync_files.
  - by apply promotion_files.
  - by apply repay_files.
  - by apply settle_files.
  - by apply liquidate_files.
  - forget. by apply ensures_Ok.
  - forget. by apply ensures_Ok.
  - by apply convert_files.
  - apply on_book_files; [done|]. apply place_for_sub_vault_files.
  - apply on_book_files; [done|]. apply update_for_sub_vault_files.
  - apply on_book_files; [done|]. apply cancel_sub_vault_ask_files.
  - apply on_book_files; [done|]. apply cancel_sub_vault_ask_files.
  - apply on_book_files; [done|]. intros m v Hm. apply ensures_bind.
    eapply ensures_mono; [by apply match_crank_files|]. intros [[m' v'] n] Hmv.
    by apply ensures_Ok.
  - by apply claim_repayment_files.
  - apply ensures_bind. eapply ensures_mono; [by apply protocol_fee_stored|].
    intros [m' l'] Hm'. by apply ensures_Ok.
Qed.
End handlers.

(** ** The chain *)

Lemma created_market_stored addr payer k d c p :
  stored [] [] (mkMarket (created_market_header addr payer k d c p) ∅).
Proof.
  unfold created_market_header, market_new_empty.
  destruct (addr (ck_market k) (mi_key d)) as [dv db], (addr (ck_market k) (mi_key c)) as [cv cb].
  exists [], [], [], [], []. split; [| | | |done|done|done|done].
  - apply check_market_inv. repeat split.
  - split; [constructor|constructor|apply dom_empty_L|done|done].
  - by intros i v j w ?%elem_of_nil.
  - by intros e ?%elem_of_nil.
Qed.

Lemma process_create_market_stored addr g payer k d c p :
  ensures (process_create_market addr g payer k d c p) well_formed.
Proof. unfold process_create_market. do 6 forget. apply expand_market_stored, created_market_stored. Qed.

Definition markets_well_formed (s : System) : Prop := map_Forall (λ _ m, well_formed m) (sy_markets s).

Lemma step_markets_kept env s s' : step env s s' → markets_well_formed s → markets_well_formed s'.
Proof.
  intros Hs Hm.
  destruct Hs as [k b u l now g i w w' _ _ Hi Ho Hr|key u l now g i v v' _ _ Ho Hr|g i g' _ _
    |g payer k d c p m _ _ Hr|key g payer mint a b c d e v _ _ Hr|]; try exact Hm.
  - unfold open_world in Ho. apply bind_Some in Ho as (m & Em & Ho).
    apply bind_Some in Ho as (vo & _ & [= <-]). apply map_Forall_insert_2; [|done].
    refine (process_market_ix_files _ _ _ _ _ _ _ _ _ _ _ Hr). apply (Hm _ _ Em).
  - apply map_Forall_insert_2; [|done]. apply (process_create_market_stored _ _ _ _ _ _ _ _ Hr).
Qed.

Lemma reachable_well_formed env s : reachable env s → markets_well_formed s.
Proof.
  apply reachable_invariant; [apply map_Forall_empty|]. intros s1 s2. apply step_markets_kept.
Qed.

(** What a well-formed account gives its readers. *)
Lemma well_formed_seats m i s : well_formed m → get_seat m i = Ok s →
  lookup_seat_index m (claimed_seat_new_empty (cs_owner s) (cs_owner_kind s) (cs_sub_vault_id s)) = Ok i.
Proof.
  intros (S & A & B & L & F & H) (n & Hn%region_get_block & [= <-])%bind_Ok.
  pose proof (store_seat H i n Hn (not_elem_of_nil _)) as Hi. set (s := rb_value n) in *.
  destruct (lookup_seat_inv _ _ _ _ _ _ (claimed_seat_new_empty (cs_owner s) (cs_owner_kind s)
    (cs_sub_vault_id s)) (st_inv _ _ _ _ _ _ _ _ H)) as (j & -> & Hs & Hc). f_equal.
  destruct (Hs ltac:(eapply (Hc i); [exact Hi|by apply claimed_seat_cmp_Eq])) as (v & Hv & E).
  by apply (st_keys _ _ _ _ _ _ _ _ H j v i s).
Qed.

Lemma known_seat X T m i : stored X (i :: T) m → ∃ s, get_seat m i = Ok s.
Proof.
  intros (S & A & B & L & F & H).
  destruct (proj1 (list_elem_of_fmap _ _ _) (proj1 (Forall_forall _ _) (st_known _ _ _ _ _ _ _ _ H) i
    ltac:(left))) as ([j s] & Hj & Hs). exists s. rewrite Hj.
  by apply (get_seat_inv _ _ _ _ _ _ _ _ (st_inv _ _ _ _ _ _ _ _ H)).
Qed.

Lemma well_formed_loans m i n : well_formed m → get_matched_loan m i = Ok n →
  ml_sequence n < mf_matched_loan_sequence (mk_fixed m)
  ∧ (∃ s, get_seat m (ml_borrower_seat_index n) = Ok s)
  ∧ (ml_lender_seat_index n = NIL ∨ ∃ s, get_seat m (ml_lender_seat_index n) = Ok s).
Proof.
  intros (S & A & B & L & F & H) (x & Hx%region_get_block & [= <-])%bind_Ok.
  pose proof (store_loan H i x Hx (not_elem_of_nil _)) as Hi.
  assert (∀ j, j ∈ S.*1 → ∃ s, get_seat m j = Ok s) as Hseat
    by (intros j Hj; apply (known_seat [] []); exists S, A, B, L, F; by apply store_learn).
  destruct (proj1 (Forall_forall _ _) (st_loans _ _ _ _ _ _ _ _ H) _ Hi) as [Hb Hl]. split_and!.
  - apply (st_below _ _ _ _ _ _ _ _ H _ Hi).
  - by apply Hseat.
  - destruct Hl as [Hl|Hl]; [by left|right; by apply Hseat].
Qed.

(** What a hint that does not imitate a seat resolves to: the seat the signer owns. *)
Lemma well_formed_hints m signer hint i : well_formed m → honest_hint m signer hint →
  get_seat_index_with_hint m signer hint = Ok i →
  ∃ s, get_seat m i = Ok s ∧ cs_owner s = signer ∧ cs_owner_kind s = OWNER_KIND_USER
       ∧ cs_sub_vault_id s = 0.
Proof.
  intros Hm Hh (hinted & Hi & H)%bind_Ok. destruct hinted as [idx|].
  - injection H as ->. destruct hint as [idx|]; [|done].
    destruct (Z.eqb_spec idx NIL) as [|Hn]; [done|]. cbn [negb] in Hi.
    apply bind_Ok in Hi as (s & Hs & Hi). destruct (seat_matches s signer) eqn:E; [|done].
    injection Hi as ->. destruct (Hh i s eq_refl Hn Hs E) as (s' & Hs'). exists s'.
    split; [done|]. apply seat_matches_true. rewrite (get_helper_seat_typed _ _ _ Hs') in Hs.
    by injection Hs as ->.
  - apply bind_Ok in H as (j & Hj & H). destruct (Z.eqb_spec j NIL) as [|Hn]; [done|].
    injection H as ->. destruct Hm as (S & A & B & L & F & H).
    pose proof (st_inv _ _ _ _ _ _ _ _ H) as Hinv.
    destruct (lookup_seat_inv _ _ _ _ _ _ (claimed_seat_new_empty signer OWNER_KIND_USER 0) Hinv)
      as (j & Hj' & Hsound & _).
    rewrite Hj in Hj'. injection Hj' as <-.
    destruct (Hsound Hn) as (s & Hs & (K1 & K2 & K3)%claimed_seat_cmp_Eq). exists s.
    split; [by apply (get_seat_inv _ _ _ _ _ _ _ _ Hinv)|]. simpl in *. by split_and!.
Qed.

Lemma well_formed_orders m i o : well_formed m → get_order m i = Ok o →
  ∃ s, get_seat m (ro_trader_seat_index o) = Ok s.
Proof.
  intros Hm Ho. by apply (known_seat [] []), (get_order_stored [] m i Hm o Ho).
Qed.

Lemma well_formed_book m : well_formed m →
  ∃ asks bids, iter_indices (V:=RestingOrder) (asks_tree m) = Ok asks
    ∧ iter_indices (V:=RestingOrder) (bids_tree m) = Ok bids ∧ NoDup (asks ++ bids)
    ∧ ∀ i, i ∈ asks ++ bids ↔ ∃ o, get_order m i = Ok o.
Proof.
  intros (S & A & B & L & F & H). pose proof (st_inv _ _ _ _ _ _ _ _ H) as Hm.
  exists (reverse A.*1), (reverse B.*1). split_and!.
  - apply (iter_tree_inv (on_side Ask)), (mi_asks _ _ _ _ _ _ Hm).
  - apply (iter_tree_inv (on_side Bid)), (mi_bids _ _ _ _ _ _ Hm).
  - rewrite !reverse_Permutation. pose proof (ly_nodup _ _ (st_layout _ _ _ _ _ _ _ _ H)) as Hn.
    unfold owned in Hn. simpl in Hn. rewrite !app_assoc in Hn. do 2 apply NoDup_app in Hn as [Hn _].
    rewrite <- app_assoc in Hn. by apply NoDup_app in Hn as (_ & _ & Hn).
  - intros i. rewrite elem_of_app, !elem_of_reverse. split.
    + intros [Hi|Hi]; apply list_elem_of_fmap in Hi as ([j o] & -> & Hi); exists o.
      * by apply (get_ask_inv _ _ _ _ _ _ _ _ Hm).
      * by apply (get_bid_inv _ _ _ _ _ _ _ _ Hm).
    + intros (o & (n & Hn%region_get_block & _)%bind_Ok).
      destruct (store_order H i n Hn (not_elem_of_nil _)) as [[Hi _]|[Hi _]]; [left|right];
        apply list_elem_of_fmap; by eexists (_, _).
Qed.

(** ** The property *)

(** A chain with one market, in which two users hold seats. *)
Definition seated_user : UserAccount :=
  match expand_user_account (mkUserAccount (user_account_new_empty 77 255) ∅) with
  | Ok u => u
  | Err _ => mkUserAccount (user_account_new_empty 77 255) ∅
  end.
Definition created_keys : CreateMarketKeys := mkCreateMarketKeys 7 21 255 22 254 30 31 3 23 253.
Definition created_market : result Market :=
  process_create_market (env_vault_address sample_env) (global_config_new_empty 9) 9 created_keys
    (mkMintAccount 11 6 12 (Ok [])) (mkMintAccount 12 6 12 (Ok []))
    (mkSetFeeConfigParams None None None None None None).
Definition on_created (payer : Pubkey) (m : Market) : result World :=
  process_market_ix (env_invoke_signed sample_env) (env_invoke_token sample_env)
    (env_parse_stake_state sample_env) (env_pdas sample_env) 1700000000 (mkTxKeys 7 0 0)
    (global_config_new_empty 9) (IxClaimSeat payer) (mkWorld m None None seated_user ∅).
Definition seated_market : Market :=
  match (m ← created_market; w ← on_created 77 m; w ← on_created 78 (wd_market w); mret (wd_market w)) with
  | Ok m => m
  | Err _ => sample_empty_market
  end.
Definition seated_chain : System :=
  mkSystem (Some (global_config_new_empty 9)) {[7 := seated_market]} ∅ ∅.

Lemma seated_chain_reachable : honestly_reachable sample_env seated_chain.
Proof.
  destruct created_market as [m|] eqn:H0; [|vm_compute in H0; discriminate H0].
  destruct (on_created 77 m) as [w1|] eqn:H1;
    [|vm_compute in H0; injection H0 as <-; vm_compute in H1; discriminate H1].
  destruct (on_created 78 (wd_market w1)) as [w2|] eqn:H2;
    [|vm_compute in H0; injection H0 as <-; vm_compute in H1; injection H1 as <-;
      vm_compute in H2; discriminate H2].
  eapply rtc_l.
  { apply (step_create_global_config _ _ 9 70 80 sample_program_data 60 60 []
      (global_config_new_empty 9)); [reflexivity|vm_compute; reflexivity]. }
  eapply rtc_l.
  { eapply (step_create_market _ _ (global_config_new_empty 9) 9 created_keys);
      [reflexivity|reflexivity|exact H0]. }
  eapply rtc_l.
  { eapply (step_market_ix _ _ (mkTxKeys 7 0 0) false seated_user ∅ 1700000000 _ (IxClaimSeat 77));
      [reflexivity|split; reflexivity || discriminate|exact I|reflexivity|exact H1|exact I]. }
  assert (seated_market = wd_market w2) as Hm.
  { unfold seated_market. rewrite H0. cbn [mbind result_bind]. rewrite H1. cbn [mbind result_bind].
    by rewrite H2. }
  vm_compute in H0. injection H0 as <-. vm_compute in H1. injection H1 as <-.
  eapply rtc_l.
  { eapply (step_market_ix _ _ (mkTxKeys 7 0 0) false seated_user ∅ 1700000000 _ (IxClaimSeat 78));
      [reflexivity|split; reflexivity || discriminate|exact I|reflexivity|exact H2|exact I]. }
  vm_compute in H2. injection H2 as <-. unfold seated_chain. rewrite Hm.
  match goal with |- rtc _ ?x ?y => replace y with x by (vm_compute; reflexivity) end.
  apply rtc_refl.
Qed.

(** C2: every market that can come to be is well formed.  Whatever transactions ran since
    the program was deployed, in whatever order, with whatever accounts and results of the
    other programs, as long as no seat hint among them imitated a seat (what a hint may
    do otherwise is [order_can_imitate_seat]): the account of a market is exactly its
    seats, its book, its queue and its free blocks, in balanced trees and a free list, no
    block lost or in two places, and as many bytes as its header says.  So walking the two
    sides of the book ends, and lists every resting order of the account exactly once;
    every order belongs to a seat that exists, as do the borrower and, where it has one,
    the lender of every queued loan, whose number is below the counter; every seat is found
    by its owner's key; and a signer's hint resolves, if it does, to a seat it owns. *)
Theorem reachable_markets_well_formed (env : Env) (s : System) (market : Pubkey) (m : Market)
    (Hs : honestly_reachable env s) (Hm : sy_markets s !! market = Some m) :
  well_formed m
  ∧ (∃ asks bids, iter_indices (V:=RestingOrder) (asks_tree m) = Ok asks
       ∧ iter_indices (V:=RestingOrder) (bids_tree m) = Ok bids ∧ NoDup (asks ++ bids)
       ∧ ∀ i, i ∈ asks ++ bids ↔ ∃ o, get_order m i = Ok o)
  ∧ (∀ i o, get_order m i = Ok o → ∃ seat, get_seat m (ro_trader_seat_index o) = Ok seat)
  ∧ (∀ i n, get_matched_loan m i = Ok n →
       ml_sequence n < mf_matched_loan_sequence (mk_fixed m)
       ∧ (∃ seat, get_seat m (ml_borrower_seat_index n) = Ok seat)
       ∧ (ml_lender_seat_index n = NIL
          ∨ ∃ seat, get_seat m (ml_lender_seat_index n) = Ok seat))
  ∧ (∀ i seat, get_seat m i = Ok seat → lookup_seat_index m
       (claimed_seat_new_empty (cs_owner seat) (cs_owner_kind seat) (cs_sub_vault_id seat)) = Ok i)
  ∧ (∀ signer hint i, honest_hint m signer hint →
       get_seat_index_with_hint m signer hint = Ok i →
       ∃ seat, get_seat m i = Ok seat ∧ cs_owner seat = signer
               ∧ cs_owner_kind seat = OWNER_KIND_USER ∧ cs_sub_vault_id seat = 0).
Proof.
  pose proof (reachable_well_formed env s (honestly_reachable_reachable _ _ Hs) _ _ Hm) as Hw.
  split_and!; [done|..].
  - by apply well_formed_book.
  - intros i o. by apply well_formed_orders.
  - intros i n. by apply well_formed_loans.
  - intros i seat. by apply well_formed_seats.
  - intros signer hint i. by apply well_formed_hints.
Qed.

Lemma reachable_markets_well_formed_witness :
  well_formed seated_market
  ∧ lookup_seat_index seated_market (claimed_seat_new_empty 78 OWNER_KIND_USER 0) = Ok 160
  ∧ mf_num_bytes_allocated (mk_fixed seated_market) = 320.
Proof.
  destruct (reachable_markets_well_formed sample_env seated_chain 7 seated_market
    seated_chain_reachable eq_refl) as (H & _ & _ & _ & Hseat & _).
  split; [exact H|]. split; [|vm_compute; reflexivity].
  apply (Hseat 160 (claimed_seat_new_empty 78 OWNER_KIND_USER 0)). vm_compute. reflexivity.
Defined.
