(* ===== verification/VaultStore.v ===== *)
(** * The store of a global vault account

    The region of the vault account holds blocks of two sizes: 512 bytes for a sub-vault,
    160 for a depositor's seat or an order reference.  [vault_store X Y v V D O F G]: it is
    exactly the sub-vaults [V], the seats [D], the order references [O] and the two free
    lists [F] and [G], besides the blocks [X] and [Y] that are between two of them; no two
    blocks overlap.  Every operation of the vault's trees keeps it and changes the lists as
    it should; what the lists add up to is in [VaultLedger]. *)
From stdpp Require Import base numbers list option gmap.
From S2P Require Import Prelude FixedPoint Loan Hypertree HypertreeFrame.
From S2P Require Import HypertreeSpec HypertreeOrder HypertreeRemove SubVault VaultTrees VaultSpec.
From S2P Require Import Deposits Admin.
Local Open Scope Z_scope.

Section store.
Implicit Types (v : Vault) (V : list (Z * SubVault)) (D : list (Z * SubVaultDepositorSeat)).
Implicit Types (O : list (Z * SubVaultOrderRef)) (F G X Y l k : list Z) (i j : Z).

Local Abbreviation bytes v := (gv_num_bytes_allocated (vt_fixed v)).

(** [l]: the large blocks, [k]: the small ones. *)
Record vault_layout v l k : Prop := {
  vl_nodup : NoDup (l ++ k);
  vl_dom : dom (vt_dynamic v) = list_to_set (C:=gset Z) (l ++ k);
  vl_bytes : bytes v = SUB_VAULT_BLOCK_SIZE * Z.of_nat (length l)
                       + VAULT_NODE_BLOCK_SIZE * Z.of_nat (length k);
  vl_fits : bytes v < 2 ^ 32;
  vl_large : Forall (λ j, 0 <= j ∧ j + SUB_VAULT_BLOCK_SIZE <= bytes v) l;
  vl_small : Forall (λ j, 0 <= j ∧ j + VAULT_NODE_BLOCK_SIZE <= bytes v) k;
  vl_large_apart : ∀ i j, i ∈ l → j ∈ l ++ k → i < j → i + SUB_VAULT_BLOCK_SIZE <= j;
  vl_small_apart : ∀ i j, i ∈ k → j ∈ l ++ k → i < j → i + VAULT_NODE_BLOCK_SIZE <= j }.

Record vault_store X Y v V D O F G : Prop := {
  vs_inv : vault_inv v V D O F G;
  vs_layout : vault_layout v (X ++ V.*1 ++ F) (Y ++ D.*1 ++ O.*1 ++ G) }.

Lemma vault_layout_dom v l k j : vault_layout v l k → j ∈ l ++ k ↔ is_Some (vt_dynamic v !! j).
Proof. intros []. by rewrite <- elem_of_dom, vl_dom0, elem_of_list_to_set. Qed.

(** Blocks that were only rearranged. *)
Lemma vault_layout_moved v v' l k l' k' : vault_layout v l k →
  dom (vt_dynamic v') = dom (vt_dynamic v) → bytes v' = bytes v → l ≡ₚ l' → k ≡ₚ k' →
  vault_layout v' l' k'.
Proof.
  intros [] Hd Hb Hl Hk.
  split; rewrite ?Hd, ?Hb, <- ?Hl, <- ?Hk; try done; intros i j; rewrite <- Hl, <- Hk; auto.
Qed.

Lemma vault_block_bounds v l k j : vault_layout v l k → is_Some (vt_dynamic v !! j) →
  0 <= j < bytes v ∧ j ≠ NIL.
Proof.
  intros Hv Hj%(vault_layout_dom _ _ _ _ Hv). destruct Hv.
  rewrite Forall_forall in vl_large0, vl_small0.
  assert (0 <= j < bytes v) as Hr.
  { unfold SUB_VAULT_BLOCK_SIZE, VAULT_NODE_BLOCK_SIZE in *.
    apply elem_of_app in Hj as [Hj|Hj]; [apply vl_large0 in Hj|apply vl_small0 in Hj]; lia. }
  split; [done|]. unfold NIL. norm_pow. lia.
Qed.

(** Header fields the store does not mention. *)
Lemma vault_store_fixed X Y v V D O F G f : vault_store X Y v V D O F G →
  gv_sub_vaults_root_index f = gv_sub_vaults_root_index (vt_fixed v) →
  gv_claimed_seats_root_index f = gv_claimed_seats_root_index (vt_fixed v) →
  gv_market_orders_root_index f = gv_market_orders_root_index (vt_fixed v) →
  gv_sub_vault_free_list_head_index f = gv_sub_vault_free_list_head_index (vt_fixed v) →
  gv_node_free_list_head_index f = gv_node_free_list_head_index (vt_fixed v) →
  gv_num_bytes_allocated f = gv_num_bytes_allocated (vt_fixed v) →
  vault_store X Y (mkVault f (vt_dynamic v)) V D O F G.
Proof.
  intros [[] Hl] H1 H2 H3 H4 H5 H6. split; [|by eapply vault_layout_moved].
  split; unfold sub_vault_tree, depositor_seat_tree, order_ref_tree in *; simpl in *;
    rewrite ?H1, ?H2, ?H3, ?H4, ?H5; done.
Qed.

(** The part of the header that counts what the trees hold. *)
Definition vault_counts (f : GlobalVaultFixed) : Z * Z * Z * Z :=
  (gv_next_sub_vault_id f, gv_sub_vault_count f, gv_claimed_seat_count f, gv_open_order_count f).

(** ** Replacing one listing *)

Lemma parts_apart l k E R : NoDup (l ++ k) → l ++ k ≡ₚ E ++ R → ∀ j, j ∈ R → j ∉ E.
Proof. intros Hn Hp. rewrite Hp in Hn. apply NoDup_app in Hn as (_ & Hd & _). intros j Hj Hl. by apply (Hd j). Qed.

(** The trees and the free lists that were not written. *)
Ltac aside Ho Hr :=
  first
  [ eapply tree_inv_outside'; [eassumption|reflexivity|reflexivity|exact Ho|]
  | eapply free_chain_outside; [eassumption|exact Ho|] ];
  intros ? ?; apply Hr; rewrite ?elem_of_app; tauto.

(** What is not in [E] is not written. *)
Ltac others Hl E R Hr :=
  match type of Hl with vault_layout _ ?l ?k =>
    assert (l ++ k ≡ₚ E ++ R) as Hr by solve_Permutation;
    pose proof (parts_apart _ _ _ _ (vl_nodup _ _ _ Hl) Hr) as Hr' end;
  clear Hr; rename Hr' into Hr.

Lemma store_put_sub_vaults X X' Y v V V' D O F G t : vault_store X Y v V D O F G →
  tree_inv (λ _, True) t V' →
  (∀ j, j ∉ X ++ V.*1 → t_data t !! j = vt_dynamic v !! j) →
  dom (t_data t) = dom (vt_dynamic v) → X ++ V.*1 ≡ₚ X' ++ V'.*1 →
  vault_store X' Y (put_sub_vaults v t) V' D O F G.
Proof.
  intros [Hv Hl] Ht Ho Hd Hp. others Hl (X ++ V.*1) (F ++ Y ++ D.*1 ++ O.*1 ++ G) Hr. split.
  - destruct Hv as [_ Hs Hn Hf Hg ?]. split; try done; first [by apply (tree_inv_no_max _ t) | aside Ho Hr].
  - eapply vault_layout_moved; [exact Hl|done|done| |done]. by rewrite !app_assoc, Hp.
Qed.

Lemma store_put_depositor_seats X Y Y' v V D D' O F G t : vault_store X Y v V D O F G →
  tree_inv (λ _, True) t D' →
  (∀ j, j ∉ Y ++ D.*1 → t_data t !! j = vt_dynamic v !! j) →
  dom (t_data t) = dom (vt_dynamic v) → Y ++ D.*1 ≡ₚ Y' ++ D'.*1 →
  vault_store X Y' (put_depositor_seats v t) V D' O F G.
Proof.
  intros [Hv Hl] Ht Ho Hd Hp. others Hl (Y ++ D.*1) (X ++ V.*1 ++ F ++ O.*1 ++ G) Hr. split.
  - destruct Hv as [Hs _ Hn Hf Hg ?]. split; try done; first [by apply (tree_inv_no_max _ t) | aside Ho Hr].
  - eapply vault_layout_moved; [exact Hl|done|done|done|]. by rewrite !app_assoc, Hp.
Qed.

Lemma store_put_order_refs X Y Y' v V D O O' F G t : vault_store X Y v V D O F G →
  tree_inv (λ _, True) t O' →
  (∀ j, j ∉ Y ++ O.*1 → t_data t !! j = vt_dynamic v !! j) →
  dom (t_data t) = dom (vt_dynamic v) → Y ++ O.*1 ≡ₚ Y' ++ O'.*1 →
  vault_store X Y' (put_order_refs v t) V D O' F G.
Proof.
  intros [Hv Hl] Ht Ho Hd Hp. others Hl (Y ++ O.*1) (X ++ V.*1 ++ F ++ D.*1 ++ G) Hr. split.
  - destruct Hv as [Hs Hn _ Hf Hg ?]. split; try done; first [by apply (tree_inv_no_max _ t) | aside Ho Hr].
  - eapply vault_layout_moved; [exact Hl|done|done|done|].
    transitivity ((Y ++ O.*1) ++ D.*1 ++ G); [solve_Permutation|]. rewrite Hp. solve_Permutation.
Qed.

(** ** The two free lists *)

Lemma write_elsewhere (d : Region VaultBlock) i b :
  ∀ j, j ∉ [i] → <[i := b]> d !! j = d !! j.
Proof. intros j Hj. apply lookup_insert_ne. intros ->. apply Hj. left. Qed.

Lemma store_spare_large X Y v V D O F G i : vault_store (i :: X) Y v V D O F G →
  i ≠ NIL ∧ is_Some (vt_dynamic v !! i) ∧ i ∉ V.*1.
Proof.
  intros [Hv Hl].
  assert (is_Some (vt_dynamic v !! i)) as Hs by (apply (vault_layout_dom _ _ _ _ Hl); left).
  destruct (vault_block_bounds _ _ _ _ Hl Hs) as [_ Hn]. split_and!; [done|done|].
  pose proof (vl_nodup _ _ _ Hl) as Hnd. simpl in Hnd. apply NoDup_cons in Hnd as [Hi _].
  rewrite !elem_of_app in Hi. tauto.
Qed.

Lemma store_spare_small X Y v V D O F G i : vault_store X (i :: Y) v V D O F G →
  i ≠ NIL ∧ is_Some (vt_dynamic v !! i) ∧ i ∉ D.*1 ∧ i ∉ O.*1.
Proof.
  intros [Hv Hl].
  assert (is_Some (vt_dynamic v !! i)) as Hs
    by (apply (vault_layout_dom _ _ _ _ Hl), elem_of_app; right; left).
  destruct (vault_block_bounds _ _ _ _ Hl Hs) as [_ Hn].
  pose proof (vl_nodup _ _ _ Hl) as (_ & _ & Hnd)%NoDup_app. simpl in Hnd.
  apply NoDup_cons in Hnd as [Hi _]. rewrite !elem_of_app in Hi. tauto.
Qed.

Lemma get_free_sub_vault_store v V D O F G v' i : vault_store [] [] v V D O F G →
  get_free_sub_vault_address v = Ok (v', i) →
  vault_counts (vt_fixed v') = vault_counts (vt_fixed v)
  ∧ (i ≠ NIL → ∃ F', vault_store [i] [] v' V D O F' G).
Proof.
  intros [Hv Hl] (([d h] & n) & Hr & [= <- <-])%bind_Ok. split; [done|]. intros Hn.
  destruct F as [|a F].
  { pose proof (vi_sub_vault_free _ _ _ _ _ _ Hv) as Hh. simpl in Hh. rewrite Hh in Hr. by injection Hr as _ _ <-. }
  destruct (free_list_remove_chain _ _ _ _ (vi_sub_vault_free _ _ _ _ _ _ Hv)) as (x & Hr' & Hc & _).
  rewrite Hr in Hr'. injection Hr' as -> -> ->. exists F.
  others Hl [a] (V.*1 ++ F ++ D.*1 ++ O.*1 ++ G) Ho.
  pose proof (write_elsewhere (vt_dynamic v) a (VB_free (mkFreeListNode 0))) as Hw. split.
  - destruct Hv as [? ? ? _ ? Hnd]. split; try done; try aside Hw Ho.
    by apply NoDup_cons in Hnd as [_ ?].
  - eapply vault_layout_moved; [exact Hl| |done|solve_Permutation|done]. simpl.
    apply dom_insert_lookup_L, (vault_layout_dom _ _ _ _ Hl). rewrite !elem_of_app, elem_of_cons. tauto.
Qed.

Lemma get_free_node_store v V D O F G v' i : vault_store [] [] v V D O F G →
  get_free_node_address v = Ok (v', i) →
  vault_counts (vt_fixed v') = vault_counts (vt_fixed v)
  ∧ (i ≠ NIL → ∃ G', vault_store [] [i] v' V D O F G').
Proof.
  intros [Hv Hl] (([d h] & n) & Hr & [= <- <-])%bind_Ok. split; [done|]. intros Hn.
  destruct G as [|a G].
  { pose proof (vi_node_free _ _ _ _ _ _ Hv) as Hh. simpl in Hh. rewrite Hh in Hr. by injection Hr as _ _ <-. }
  destruct (free_list_remove_chain _ _ _ _ (vi_node_free _ _ _ _ _ _ Hv)) as (x & Hr' & Hc & _).
  rewrite Hr in Hr'. injection Hr' as -> -> ->. exists G.
  others Hl [a] (V.*1 ++ F ++ D.*1 ++ O.*1 ++ G) Ho.
  pose proof (write_elsewhere (vt_dynamic v) a (VB_free (mkFreeListNode 0))) as Hw. split.
  - destruct Hv as [? ? ? ? _ Hnd]. split; try done; try aside Hw Ho.
    rewrite <- Permutation_middle in Hnd. by apply NoDup_cons in Hnd as [_ ?].
  - eapply vault_layout_moved; [exact Hl| |done|done|solve_Permutation]. simpl.
    apply dom_insert_lookup_L, (vault_layout_dom _ _ _ _ Hl). rewrite !elem_of_app, elem_of_cons. tauto.
Qed.

Lemma release_sub_vault_store v V D O F G i v' : vault_store [i] [] v V D O F G →
  release_sub_vault_address v i = Ok v' →
  vault_counts (vt_fixed v') = vault_counts (vt_fixed v) ∧ vault_store [] [] v' V D O (i :: F) G.
Proof.
  intros Hs ([d h] & Hr & [= <-])%bind_Ok. split; [done|].
  destruct (store_spare_large _ _ _ _ _ _ _ _ _ Hs) as (Hn & Hb & _). destruct Hs as [Hv Hl].
  apply free_list_add_Ok in Hr as (-> & _ & ->).
  others Hl [i] (V.*1 ++ F ++ D.*1 ++ O.*1 ++ G) Ho. split.
  - pose proof (write_elsewhere (vt_dynamic v) i (VB_free (mkFreeListNode
      (gv_sub_vault_free_list_head_index (vt_fixed v))))) as Hw.
    destruct Hv as [? ? ? ? ? Hnd]. split; try done; try aside Hw Ho.
    + split_and!; [done|done|]. eexists. split; [apply lookup_insert_eq|]. aside Hw Ho.
    + apply NoDup_cons. split; [|done]. intros Hi. apply (Ho i); [|left]. revert Hi. rewrite !elem_of_app. tauto.
  - eapply vault_layout_moved; [exact Hl| |done|solve_Permutation|done]. by apply dom_insert_lookup_L.
Qed.

Lemma release_node_store v V D O F G i v' : vault_store [] [i] v V D O F G →
  release_node_address v i = Ok v' →
  vault_counts (vt_fixed v') = vault_counts (vt_fixed v) ∧ vault_store [] [] v' V D O F (i :: G).
Proof.
  intros Hs ([d h] & Hr & [= <-])%bind_Ok. split; [done|].
  destruct (store_spare_small _ _ _ _ _ _ _ _ _ Hs) as (Hn & Hb & _). destruct Hs as [Hv Hl].
  apply free_list_add_Ok in Hr as (-> & _ & ->).
  others Hl [i] (V.*1 ++ F ++ D.*1 ++ O.*1 ++ G) Ho. split.
  - pose proof (write_elsewhere (vt_dynamic v) i (VB_free (mkFreeListNode
      (gv_node_free_list_head_index (vt_fixed v))))) as Hw.
    destruct Hv as [? ? ? ? ? Hnd]. split; try done; try aside Hw Ho.
    + split_and!; [done|done|]. eexists. split; [apply lookup_insert_eq|]. aside Hw Ho.
    + rewrite <- Permutation_middle. apply NoDup_cons. split; [|done]. intros Hi. apply (Ho i); [|left].
      revert Hi. rewrite !elem_of_app. tauto.
  - eapply vault_layout_moved; [exact Hl| |done|done|solve_Permutation]. by apply dom_insert_lookup_L.
Qed.

(** ** Growing the account *)

(** A write behind the allocated part touches nothing that is in use. *)
Lemma store_write_fresh X Y v V D O F G b : vault_store X Y v V D O F G →
  vt_dynamic v !! bytes v = None
  ∧ vault_inv (mkVault (vt_fixed v) (<[bytes v := b]> (vt_dynamic v))) V D O F G.
Proof.
  intros [Hv Hl]. assert (vt_dynamic v !! bytes v = None) as Hn.
  { apply eq_None_not_Some. intros Hs. apply (vault_block_bounds _ _ _ _ Hl) in Hs. lia. }
  split; [done|]. pose proof (write_elsewhere (vt_dynamic v) (bytes v) b) as Hw.
  assert (∀ j, is_Some (vt_dynamic v !! j) → j ∉ [bytes v]) as Hr.
  { intros j [x Hx] ->%list_elem_of_singleton. by rewrite Hn in Hx. }
  assert (∀ j, j ∈ (X ++ V.*1 ++ F) ++ Y ++ D.*1 ++ O.*1 ++ G → j ∉ [bytes v]) as Ho.
  { intros j Hj. by apply Hr, (vault_layout_dom _ _ _ _ Hl). }
  destruct Hv. split; try done; aside Hw Ho.
Qed.

Lemma layout_grown_small v v' l k : vault_layout v l k → bytes v + VAULT_NODE_BLOCK_SIZE < 2 ^ 32 →
  dom (vt_dynamic v') = {[bytes v]} ∪ dom (vt_dynamic v) →
  bytes v' = bytes v + VAULT_NODE_BLOCK_SIZE → vt_dynamic v !! bytes v = None →
  vault_layout v' l (bytes v :: k).
Proof.
  intros Hl Hf Hd Hb Hn.
  assert (bytes v ∉ l ++ k) as Hni by (rewrite (vault_layout_dom _ _ _ _ Hl), Hn; by intros [? [=]]).
  assert (∀ j, j ∈ l ++ k → 0 <= j < bytes v) as Hbd.
  { intros j Hj%(vault_layout_dom _ _ _ _ Hl). apply (vault_block_bounds _ _ _ _ Hl Hj). }
  destruct Hl. assert (0 <= bytes v) by (unfold SUB_VAULT_BLOCK_SIZE, VAULT_NODE_BLOCK_SIZE in *; lia).
  unfold VAULT_NODE_BLOCK_SIZE, SUB_VAULT_BLOCK_SIZE in *. split; rewrite ?Hb.
  - rewrite <- Permutation_middle. by apply NoDup_cons.
  - rewrite Hd, vl_dom0, <- Permutation_middle. done.
  - simpl length. unfold VAULT_NODE_BLOCK_SIZE, SUB_VAULT_BLOCK_SIZE. lia.
  - done.
  - eapply Forall_impl; [exact vl_large0|]. intros j. unfold SUB_VAULT_BLOCK_SIZE. simpl. lia.
  - unfold VAULT_NODE_BLOCK_SIZE. constructor; [lia|]. eapply Forall_impl; [exact vl_small0|].
    intros j. simpl. lia.
  - unfold SUB_VAULT_BLOCK_SIZE. intros i j Hi Hj Hij. rewrite <- Permutation_middle in Hj.
    apply elem_of_cons in Hj as [->|Hj]; [|by apply vl_large_apart0].
    rewrite Forall_forall in vl_large0. apply vl_large0 in Hi; lia.
  - unfold VAULT_NODE_BLOCK_SIZE. intros i j Hi Hj Hij. rewrite <- Permutation_middle in Hj.
    apply elem_of_cons in Hj as [->|Hj], Hi as [->|Hi]; [lia| | |by apply vl_small_apart0].
    + rewrite Forall_forall in vl_small0. apply vl_small0 in Hi; lia.
    + apply Hbd in Hj. lia.
Qed.

Lemma layout_grown_large v v' l k : vault_layout v l k → bytes v + SUB_VAULT_BLOCK_SIZE < 2 ^ 32 →
  dom (vt_dynamic v') = {[bytes v]} ∪ dom (vt_dynamic v) →
  bytes v' = bytes v + SUB_VAULT_BLOCK_SIZE → vt_dynamic v !! bytes v = None →
  vault_layout v' (bytes v :: l) k.
Proof.
  intros Hl Hf Hd Hb Hn.
  assert (bytes v ∉ l ++ k) as Hni by (rewrite (vault_layout_dom _ _ _ _ Hl), Hn; by intros [? [=]]).
  assert (∀ j, j ∈ l ++ k → 0 <= j < bytes v) as Hbd.
  { intros j Hj%(vault_layout_dom _ _ _ _ Hl). apply (vault_block_bounds _ _ _ _ Hl Hj). }
  destruct Hl. assert (0 <= bytes v) by (unfold SUB_VAULT_BLOCK_SIZE, VAULT_NODE_BLOCK_SIZE in *; lia).
  unfold VAULT_NODE_BLOCK_SIZE, SUB_VAULT_BLOCK_SIZE in *. split; rewrite ?Hb.
  - by apply NoDup_cons.
  - rewrite Hd, vl_dom0. done.
  - simpl length. unfold VAULT_NODE_BLOCK_SIZE, SUB_VAULT_BLOCK_SIZE. lia.
  - done.
  - unfold SUB_VAULT_BLOCK_SIZE. constructor; [lia|]. eapply Forall_impl; [exact vl_large0|].
    intros j. simpl. lia.
  - eapply Forall_impl; [exact vl_small0|]. intros j. unfold VAULT_NODE_BLOCK_SIZE. simpl. lia.
  - unfold SUB_VAULT_BLOCK_SIZE. intros i j Hi Hj Hij.
    apply elem_of_cons in Hj as [->|Hj], Hi as [->|Hi]; [lia| | |by apply vl_large_apart0].
    + rewrite Forall_forall in vl_large0. apply vl_large0 in Hi; lia.
    + apply Hbd in Hj. lia.
  - unfold VAULT_NODE_BLOCK_SIZE. intros i j Hi Hj Hij.
    apply elem_of_cons in Hj as [->|Hj]; [|by apply vl_small_apart0].
    rewrite Forall_forall in vl_small0. apply vl_small0 in Hi; lia.
Qed.

Lemma expand_vault_store v V D O F G v' : vault_store [] [] v V D O F G →
  expand_vault_if_needed v = Ok v' →
  vault_counts (vt_fixed v') = vault_counts (vt_fixed v) ∧ ∃ G', vault_store [] [] v' V D O F G'.
Proof.
  intros Hs He. unfold expand_vault_if_needed in He.
  destruct (has_free_node_block _); [injection He as <-; split; [done|by exists G]|].
  unfold vault_expand_node_block in He. apply bind_Ok in He as ([d h] & He & Hr).
  apply free_list_add_Ok in He as (-> & _ & ->). apply bind_Ok in Hr as (b & Hb & [= <-]).
  apply ok_or_Ok, checked_add_Some in Hb as [-> Hb]. split; [done|]. exists (bytes v :: G).
  simpl in *. rewrite insert_insert_eq.
  destruct (store_write_fresh _ _ _ _ _ _ _ _
    (VB_free (mkFreeListNode (gv_node_free_list_head_index (vt_fixed v)))) Hs) as [Hn Hv].
  destruct (vault_layout_dom _ _ _ (bytes v) (vs_layout _ _ _ _ _ _ _ _ Hs)) as [Hin _].
  destruct Hs as [_ Hl]. split.
  - destruct Hv. split; try done.
    + split_and!; [done| |eexists; split; [apply lookup_insert_eq|done]].
      unfold NIL, VAULT_NODE_BLOCK_SIZE in *. zlia.
    + rewrite <- Permutation_middle. apply NoDup_cons. split; [|done]. intros Hi.
      destruct Hin as [x Hx]; [|by rewrite Hn in Hx]. revert Hi. rewrite !elem_of_app. tauto.
  - assert ([] ++ D.*1 ++ O.*1 ++ bytes v :: G ≡ₚ bytes v :: [] ++ D.*1 ++ O.*1 ++ G) as Hp
      by solve_Permutation.
    eapply vault_layout_moved; [|reflexivity|reflexivity|reflexivity|symmetry; exact Hp].
    apply (layout_grown_small v); try done. apply dom_insert_L.
Qed.

Lemma expand_sub_vaults_store v V D O F G v' : vault_store [] [] v V D O F G →
  expand_sub_vaults_if_needed v = Ok v' →
  vault_counts (vt_fixed v') = vault_counts (vt_fixed v) ∧ ∃ F', vault_store [] [] v' V D O F' G.
Proof.
  intros Hs He. unfold expand_sub_vaults_if_needed in He.
  destruct (has_free_sub_vault_block _); [injection He as <-; split; [done|by exists F]|].
  unfold vault_expand_sub_vault_block in He. apply bind_Ok in He as ([d h] & He & Hr).
  apply free_list_add_Ok in He as (-> & _ & ->). apply bind_Ok in Hr as (b & Hb & [= <-]).
  apply ok_or_Ok, checked_add_Some in Hb as [-> Hb]. split; [done|]. exists (bytes v :: F).
  simpl in *. rewrite insert_insert_eq.
  destruct (store_write_fresh _ _ _ _ _ _ _ _
    (VB_free (mkFreeListNode (gv_sub_vault_free_list_head_index (vt_fixed v)))) Hs) as [Hn Hv].
  destruct (vault_layout_dom _ _ _ (bytes v) (vs_layout _ _ _ _ _ _ _ _ Hs)) as [Hin _].
  destruct Hs as [_ Hl]. split.
  - destruct Hv. split; try done.
    + split_and!; [done| |eexists; split; [apply lookup_insert_eq|done]].
      unfold NIL, SUB_VAULT_BLOCK_SIZE in *. zlia.
    + apply NoDup_cons. split; [|done]. intros Hi.
      destruct Hin as [x Hx]; [|by rewrite Hn in Hx]. revert Hi. rewrite !elem_of_app. tauto.
  - assert ([] ++ V.*1 ++ bytes v :: F ≡ₚ bytes v :: [] ++ V.*1 ++ F) as Hp by solve_Permutation.
    eapply vault_layout_moved; [|reflexivity|reflexivity|symmetry; exact Hp|reflexivity].
    apply (layout_grown_large v); try done. apply dom_insert_L.
Qed.

(** ** Reading a block *)

Section reads.
Context {v : Vault} {V : list (Z * SubVault)} {D : list (Z * SubVaultDepositorSeat)}.
Context {O : list (Z * SubVaultOrderRef)} {F G : list Z} (H : vault_store [] [] v V D O F G).

Lemma vault_cases j b : vt_dynamic v !! j = Some b →
  j ∈ V.*1 ∨ j ∈ D.*1 ∨ j ∈ O.*1 ∨ j ∈ F ∨ j ∈ G.
Proof.
  intros Hb. assert (j ∈ ([] ++ V.*1 ++ F) ++ [] ++ D.*1 ++ O.*1 ++ G) as Hj
    by (apply (vault_layout_dom _ _ _ _ (vs_layout _ _ _ _ _ _ _ _ H)); by eexists).
  rewrite !elem_of_app in Hj. rewrite !elem_of_nil in Hj. tauto.
Qed.

Lemma store_sub_vault j n : vt_dynamic v !! j = Some (VB_sub_vault n) → (j, rb_value n) ∈ V.
Proof.
  intros Hb. pose proof (vs_inv _ _ _ _ _ _ _ _ H) as Hv.
  destruct (vault_cases j _ Hb) as [Hj|[Hj|[Hj|[Hj|Hj]]]]; [|exfalso; vault_clash..].
  apply list_elem_of_fmap in Hj as ([k x] & -> & Hx).
  destruct (tree_inv_block _ _ _ _ _ (vi_sub_vaults _ _ _ _ _ _ Hv) Hx) as (_ & n' & Hn & <-).
  simpl in Hn, Hb. rewrite Hb in Hn. by injection Hn as <-.
Qed.

Lemma store_depositor j n : vt_dynamic v !! j = Some (VB_seat n) → (j, rb_value n) ∈ D.
Proof.
  intros Hb. pose proof (vs_inv _ _ _ _ _ _ _ _ H) as Hv.
  destruct (vault_cases j _ Hb) as [Hj|[Hj|[Hj|[Hj|Hj]]]]; [exfalso; vault_clash| |exfalso; vault_clash..].
  apply list_elem_of_fmap in Hj as ([k x] & -> & Hx).
  destruct (tree_inv_block _ _ _ _ _ (vi_seats _ _ _ _ _ _ Hv) Hx) as (_ & n' & Hn & <-).
  simpl in Hn, Hb. rewrite Hb in Hn. by injection Hn as <-.
Qed.

Lemma store_order_ref j n : vt_dynamic v !! j = Some (VB_order n) → (j, rb_value n) ∈ O.
Proof.
  intros Hb. pose proof (vs_inv _ _ _ _ _ _ _ _ H) as Hv.
  destruct (vault_cases j _ Hb) as [Hj|[Hj|[Hj|[Hj|Hj]]]]; [exfalso; vault_clash|exfalso; vault_clash| |exfalso; vault_clash|exfalso; vault_clash].
  apply list_elem_of_fmap in Hj as ([k x] & -> & Hx).
  destruct (tree_inv_block _ _ _ _ _ (vi_orders _ _ _ _ _ _ Hv) Hx) as (_ & n' & Hn & <-).
  simpl in Hn, Hb. rewrite Hb in Hn. by injection Hn as <-.
Qed.

Lemma get_sub_vault_store i p : get_sub_vault v i = Ok p → (i, p) ∈ V.
Proof. intros (n & Hn%region_get_Ok & [= <-])%bind_Ok. by apply store_sub_vault. Qed.
Lemma get_depositor_store i d : get_depositor_seat v i = Ok d → (i, d) ∈ D.
Proof. intros (n & Hn%region_get_Ok & [= <-])%bind_Ok. by apply store_depositor. Qed.

(** ** Updates in place *)

Lemma modify_sub_vault_store i f v' : modify_sub_vault v i f = Ok v' →
  (∀ p, ensures (f p) (λ p', sv_sub_vault_id p' = sv_sub_vault_id p)) →
  vt_fixed v' = vt_fixed v
  ∧ ∃ p p', (i, p) ∈ V ∧ f p = Ok p' ∧ vault_store [] [] v' (set_entry i p' V) D O F G.
Proof.
  intros (d & Hd & [= <-])%bind_Ok Hf. split; [done|].
  destruct (modify_value_Ok _ _ _ _ Hd) as (n & p' & Hn%region_get_Ok & Hp & _).
  pose proof (store_sub_vault i n Hn) as Hi. exists (rb_value n), p'. split_and!; [done|done|].
  destruct (tree_inv_modify_value _ _ _ _ _ _ f (vi_sub_vaults _ _ _ _ _ _ (vs_inv _ _ _ _ _ _ _ _ H)) Hi Hp I)
    as (d' & Hd' & Ht & _ & Ho).
  { intros y _. simpl. unfold sub_vault_cmp. by rewrite (Hf _ _ Hp). }
  simpl in Hd', Ht, Ho. rewrite Hd in Hd'. injection Hd' as <-.
  match goal with |- vault_store _ _ ?v2 _ _ _ _ _ => replace v2 with
    (put_sub_vaults v (mkTree d (gv_sub_vaults_root_index (vt_fixed v)) NIL)) by (by destruct v as [[] ?]) end.
  eapply store_put_sub_vaults; [exact H|exact Ht| | |by rewrite set_entry_fst].
  - intros j Hj. apply Ho. intros ->%list_elem_of_singleton. apply Hj. simpl.
    apply list_elem_of_fmap. by eexists (i, _).
  - apply (frame_dom _ _ _ (modify_value_frame (V:=SubVault) (λ _, False) _ i f d Hd)).
Qed.

Lemma modify_depositor_store i f v' : modify_depositor_seat v i f = Ok v' →
  (∀ x, ensures (f x) (λ x', ds_owner x' = ds_owner x ∧ ds_sub_vault_id x' = ds_sub_vault_id x)) →
  vt_fixed v' = vt_fixed v
  ∧ ∃ x x', (i, x) ∈ D ∧ f x = Ok x' ∧ vault_store [] [] v' V (set_entry i x' D) O F G.
Proof.
  intros (d & Hd & [= <-])%bind_Ok Hf. split; [done|].
  destruct (modify_value_Ok _ _ _ _ Hd) as (n & x' & Hn%region_get_Ok & Hx & _).
  pose proof (store_depositor i n Hn) as Hi. exists (rb_value n), x'. split_and!; [done|done|].
  destruct (tree_inv_modify_value _ _ _ _ _ _ f (vi_seats _ _ _ _ _ _ (vs_inv _ _ _ _ _ _ _ _ H)) Hi Hx I)
    as (d' & Hd' & Ht & _ & Ho).
  { intros y _. destruct (Hf _ _ Hx) as [K1 K2]. simpl. unfold depositor_seat_cmp. by rewrite K1, K2. }
  simpl in Hd', Ht, Ho. rewrite Hd in Hd'. injection Hd' as <-.
  match goal with |- vault_store _ _ ?v2 _ _ _ _ _ => replace v2 with
    (put_depositor_seats v (mkTree d (gv_claimed_seats_root_index (vt_fixed v)) NIL))
    by (by destruct v as [[] ?]) end.
  eapply store_put_depositor_seats; [exact H|exact Ht| | |by rewrite set_entry_fst].
  - intros j Hj. apply Ho. intros ->%list_elem_of_singleton. apply Hj. simpl.
    apply list_elem_of_fmap. by eexists (i, _).
  - apply (frame_dom _ _ _ (modify_value_frame (V:=SubVaultDepositorSeat) (λ _, False) _ i f d Hd)).
Qed.

(** ** Lookups *)

Lemma lookup_depositor_store o id j : lookup_depositor_seat v o id = Ok j →
  (j ≠ NIL → ∃ x, (j, x) ∈ D ∧ ds_owner x = o ∧ ds_sub_vault_id x = id)
  ∧ (j = NIL → ∀ i x, (i, x) ∈ D → ds_owner x = o → ds_sub_vault_id x = id → False).
Proof.
  intros Hj. destruct (lookup_tree_inv (λ _, True) _ _ (depositor_seat_probe o id)
    (vi_seats _ _ _ _ _ _ (vs_inv _ _ _ _ _ _ _ _ H)) I) as (j' & Hj' & Hs & Hc).
  unfold lookup_depositor_seat in Hj. rewrite Hj in Hj'. injection Hj' as <-. split.
  - intros Hn. destruct (Hs Hn) as (x & Hx & Hcmp). exists x. split; [done|].
    simpl in Hcmp. unfold depositor_seat_cmp in Hcmp. solve_cmp.
  - intros -> i x Hx Ho Hid. apply (Hc i x Hx); [|done]. simpl. unfold depositor_seat_cmp.
    rewrite Ho, Hid. simpl. by rewrite !Z.compare_refl.
Qed.

Lemma lookup_order_ref_store mk id j : lookup_order_ref v mk id = Ok j →
  (j ≠ NIL → ∃ x, (j, x) ∈ O ∧ or_market x = mk ∧ or_sub_vault_id x = id)
  ∧ (j = NIL → ∀ i x, (i, x) ∈ O → or_market x = mk → or_sub_vault_id x = id → False).
Proof.
  intros Hj. destruct (lookup_tree_inv (λ _, True) _ _ (sub_vault_order_ref_probe mk id)
    (vi_orders _ _ _ _ _ _ (vs_inv _ _ _ _ _ _ _ _ H)) I) as (j' & Hj' & Hs & Hc).
  unfold lookup_order_ref in Hj. rewrite Hj in Hj'. injection Hj' as <-. split.
  - intros Hn. destruct (Hs Hn) as (x & Hx & Hcmp). exists x. split; [done|].
    simpl in Hcmp. unfold sub_vault_order_ref_cmp in Hcmp. solve_cmp.
  - intros -> i x Hx Ho Hid. apply (Hc i x Hx); [|done]. simpl. unfold sub_vault_order_ref_cmp.
    rewrite Ho, Hid. simpl. by rewrite !Z.compare_refl.
Qed.

Lemma lookup_sub_vault_store id j : lookup_sub_vault v id = Ok j →
  (j ≠ NIL → ∃ p, (j, p) ∈ V ∧ sv_sub_vault_id p = id)
  ∧ (j = NIL → ∀ i p, (i, p) ∈ V → sv_sub_vault_id p = id → False).
Proof.
  intros Hj. destruct (lookup_sub_vault_inv _ _ _ _ _ _ id (vs_inv _ _ _ _ _ _ _ _ H)) as (j' & Hj' & Hs & Hc).
  rewrite Hj in Hj'. injection Hj' as <-. split; [done|]. intros -> i p Hi Hid. by apply (Hc i p).
Qed.
End reads.

(** ** Insertions and removals *)

(** The three trees, at the spare block [i]. *)
Lemma insert_sub_vault_store Y v V D O F G i p t : vault_store [i] Y v V D O F G →
  insert (sub_vault_tree v) i p = Ok t →
  ∃ V1 V2, V = V1 ++ V2 ∧ vault_store [] Y (put_sub_vaults v t) (V1 ++ (i, p) :: V2) D O F G.
Proof.
  intros H Ht. destruct (store_spare_large _ _ _ _ _ _ _ _ _ H) as (Hn & Hs & Hi).
  destruct (insert_tree_inv _ _ _ i p (vi_sub_vaults _ _ _ _ _ _ (vs_inv _ _ _ _ _ _ _ _ H)))
    as (t' & V1 & V2 & Ht' & -> & Hinv & _ & _ & Hout & _); [done..|].
  rewrite Ht in Ht'. injection Ht' as <-. exists V1, V2. split; [done|].
  eapply store_put_sub_vaults; [exact H|exact Hinv| |by rewrite (insert_dom _ _ _ _ Ht)|apply (insert_listing _ _ [])].
  intros j Hj%insert_outside. by apply Hout.
Qed.

Lemma insert_depositor_store X v V D O F G i x t : vault_store X [i] v V D O F G →
  insert (depositor_seat_tree v) i x = Ok t →
  ∃ D1 D2, D = D1 ++ D2 ∧ vault_store X [] (put_depositor_seats v t) V (D1 ++ (i, x) :: D2) O F G.
Proof.
  intros H Ht. destruct (store_spare_small _ _ _ _ _ _ _ _ _ H) as (Hn & Hs & Hi & _).
  destruct (insert_tree_inv _ _ _ i x (vi_seats _ _ _ _ _ _ (vs_inv _ _ _ _ _ _ _ _ H)))
    as (t' & D1 & D2 & Ht' & -> & Hinv & _ & _ & Hout & _); [done..|].
  rewrite Ht in Ht'. injection Ht' as <-. exists D1, D2. split; [done|].
  eapply store_put_depositor_seats; [exact H|exact Hinv| |by rewrite (insert_dom _ _ _ _ Ht)|apply (insert_listing _ _ [])].
  intros j Hj%insert_outside. by apply Hout.
Qed.

Lemma insert_order_ref_store X v V D O F G i x t : vault_store X [i] v V D O F G →
  insert (order_ref_tree v) i x = Ok t →
  ∃ O1 O2, O = O1 ++ O2 ∧ vault_store X [] (put_order_refs v t) V D (O1 ++ (i, x) :: O2) F G.
Proof.
  intros H Ht. destruct (store_spare_small _ _ _ _ _ _ _ _ _ H) as (Hn & Hs & _ & Hi).
  destruct (insert_tree_inv _ _ _ i x (vi_orders _ _ _ _ _ _ (vs_inv _ _ _ _ _ _ _ _ H)))
    as (t' & O1 & O2 & Ht' & -> & Hinv & _ & _ & Hout & _); [done..|].
  rewrite Ht in Ht'. injection Ht' as <-. exists O1, O2. split; [done|].
  eapply store_put_order_refs; [exact H|exact Hinv| |by rewrite (insert_dom _ _ _ _ Ht)|apply (insert_listing _ _ [])].
  intros j Hj%insert_outside. by apply Hout.
Qed.

Lemma remove_sub_vault_store v V1 V2 D O F G i p t : vault_store [] [] v (V1 ++ (i, p) :: V2) D O F G →
  remove_by_index (V:=SubVault) (sub_vault_tree v) i = Ok t →
  vault_store [i] [] (put_sub_vaults v t) (V1 ++ V2) D O F G.
Proof.
  intros H Ht.
  destruct (remove_tree_inv _ _ _ _ _ _ (vi_sub_vaults _ _ _ _ _ _ (vs_inv _ _ _ _ _ _ _ _ H)))
    as (t' & Ht' & Hinv & Hout & _).
  rewrite Ht in Ht'. injection Ht' as <-.
  eapply store_put_sub_vaults; [exact H|exact Hinv|exact Hout|by apply (remove_dom _ _ _ Ht)|apply remove_listing].
Qed.

Lemma remove_depositor_store v V D1 D2 O F G i x t : vault_store [] [] v V (D1 ++ (i, x) :: D2) O F G →
  remove_by_index (V:=SubVaultDepositorSeat) (depositor_seat_tree v) i = Ok t →
  vault_store [] [i] (put_depositor_seats v t) V (D1 ++ D2) O F G.
Proof.
  intros H Ht.
  destruct (remove_tree_inv _ _ _ _ _ _ (vi_seats _ _ _ _ _ _ (vs_inv _ _ _ _ _ _ _ _ H)))
    as (t' & Ht' & Hinv & Hout & _).
  rewrite Ht in Ht'. injection Ht' as <-.
  eapply store_put_depositor_seats; [exact H|exact Hinv|exact Hout|by apply (remove_dom _ _ _ Ht)|apply remove_listing].
Qed.

Lemma remove_order_ref_store v V D O1 O2 F G i x t : vault_store [] [] v V D (O1 ++ (i, x) :: O2) F G →
  remove_by_index (V:=SubVaultOrderRef) (order_ref_tree v) i = Ok t →
  vault_store [] [i] (put_order_refs v t) V D (O1 ++ O2) F G.
Proof.
  intros H Ht.
  destruct (remove_tree_inv _ _ _ _ _ _ (vi_orders _ _ _ _ _ _ (vs_inv _ _ _ _ _ _ _ _ H)))
    as (t' & Ht' & Hinv & Hout & _).
  rewrite Ht in Ht'. injection Ht' as <-.
  eapply store_put_order_refs; [exact H|exact Hinv|exact Hout|by apply (remove_dom _ _ _ Ht)|apply remove_listing].
Qed.
End store.
