(* ===== verification/VaultLedger.v ===== *)
(** * What a global vault owes its depositors

    [sound v]: the store of the vault is intact ([VaultStore]), the counts of its header are
    the sizes of its trees, and for every sub-vault the shares it has issued are exactly
    the shares its depositors' seats hold, and its count of open orders exactly the
    references to them; seats and references point at sub-vaults that exist, nobody has
    two seats in one sub-vault and no seat is empty.  Deposits and withdrawals move
    sub-vault and seat one after the other: [booked ps N v] says which shares are between
    the two, and which seats may be empty, meanwhile. *)
From stdpp Require Import base numbers list option gmap.
From S2P Require Import Prelude FixedPoint Loan Hypertree HypertreeFrame.
From S2P Require Import HypertreeSpec HypertreeOrder HypertreeRemove SubVault VaultTrees VaultSpec.
From S2P Require Import LoanClose Deposits Admin VaultStore.
Local Open Scope Z_scope.

(** ** Sums over a listing *)

Section total.
Context {V : Type}.
Implicit Types (f : Z * V → Z) (E : list (Z * V)).

Definition total f E : Z := foldr (λ e n, f e + n) 0 E.

Lemma total_app f E1 E2 : total f (E1 ++ E2) = total f E1 + total f E2.
Proof.
  induction E1 as [|e E1 IH]; [done|]. change (total f ((e :: E1) ++ E2)) with (f e + total f (E1 ++ E2)).
  change (total f (e :: E1)) with (f e + total f E1). lia.
Qed.

Lemma total_insert f E1 e E2 : total f (E1 ++ e :: E2) = total f (E1 ++ E2) + f e.
Proof. rewrite !total_app. change (total f (e :: E2)) with (f e + total f E2). lia. Qed.

Lemma total_set_entry f E i v x : NoDup E.*1 → (i, v) ∈ E →
  total f (set_entry i x E) = total f E - f (i, v) + f (i, x).
Proof.
  intros Hn (E1 & E2 & ->)%list_elem_of_split. rewrite (set_entry_split _ _ _ _ x Hn), !total_insert. lia.
Qed.

Lemma total_nonneg f E : (∀ e, e ∈ E → 0 <= f e) → 0 <= total f E.
Proof.
  induction E as [|e E IH]; intros Hf; simpl; [done|]. pose proof (Hf e ltac:(left)).
  assert (0 <= total f E) by (apply IH; intros x Hx; apply Hf; by right). lia.
Qed.

Lemma total_zero f E : (∀ e, e ∈ E → 0 <= f e) → total f E = 0 → ∀ e, e ∈ E → f e = 0.
Proof.
  intros Hf Ht e (E1 & E2 & ->)%list_elem_of_split. rewrite total_insert in Ht.
  assert (0 <= total f (E1 ++ E2)).
  { apply total_nonneg. intros x Hx. apply Hf. revert Hx. rewrite !elem_of_app, elem_of_cons. tauto. }
  pose proof (Hf e ltac:(apply elem_of_app; right; left)). lia.
Qed.

Lemma total_none f E : (∀ e, e ∈ E → f e = 0) → total f E = 0.
Proof.
  induction E as [|e E IH]; intros Hf; simpl; [done|]. rewrite (Hf e ltac:(left)), IH; [done|].
  intros x Hx. apply Hf. by right.
Qed.
End total.

#[local] Instance depositor_seat_eq_dec : EqDecision SubVaultDepositorSeat.
Proof. solve_decision. Defined.

Section ledger.
Implicit Types (v : Vault) (V : list (Z * SubVault)) (D : list (Z * SubVaultDepositorSeat)).
Implicit Types (O : list (Z * SubVaultOrderRef)) (F G N : list Z) (i j id : Z) (ps : Z → Z).
Implicit Types (f : GlobalVaultFixed) (p : SubVault).

(** ** The ledger *)

(** The shares a seat holds of sub-vault [id], and whether a reference is to one of its
    orders. *)
Definition held id (e : Z * SubVaultDepositorSeat) : Z :=
  if ds_sub_vault_id e.2 =? id then ds_shares e.2 else 0.
Definition referred id (e : Z * SubVaultOrderRef) : Z :=
  if or_sub_vault_id e.2 =? id then 1 else 0.

Definition listed V id : Prop := ∃ e, e ∈ V ∧ sv_sub_vault_id e.2 = id.

Definition seat_key (d : SubVaultDepositorSeat) : Pubkey * Z := (ds_owner d, ds_sub_vault_id d).
Definition ref_key (o : SubVaultOrderRef) : Pubkey * Z := (or_market o, or_sub_vault_id o).
Definition distinct {A K} (key : A → K) (E : list (Z * A)) : Prop :=
  ∀ i a j b, (i, a) ∈ E → (j, b) ∈ E → key a = key b → i = j.

Record ledger ps N f V D O : Prop := {
  lg_ids : distinct sv_sub_vault_id V;
  lg_seats : distinct seat_key D;
  lg_refs : distinct ref_key O;
  lg_next : ∀ e, e ∈ V → sv_sub_vault_id e.2 < gv_next_sub_vault_id f;
  lg_sub_vault_count : gv_sub_vault_count f = Z.of_nat (length V);
  lg_seat_count : gv_claimed_seat_count f = Z.of_nat (length D);
  lg_order_count : gv_open_order_count f = Z.of_nat (length O);
  lg_shares : ∀ e, e ∈ V →
    sv_total_shares e.2 = total (held (sv_sub_vault_id e.2)) D + ps (sv_sub_vault_id e.2);
  lg_orders : ∀ e, e ∈ V →
    sv_open_orders_count e.2 = total (referred (sv_sub_vault_id e.2)) O;
  lg_seat_listed : ∀ e, e ∈ D → listed V (ds_sub_vault_id e.2);
  lg_ref_listed : ∀ e, e ∈ O → listed V (or_sub_vault_id e.2);
  lg_nonneg : ∀ e, e ∈ D → 0 <= ds_shares e.2;
  lg_positive : ∀ e, e ∈ D → e.1 ∉ N → 0 < ds_shares e.2 }.

Definition settled : Z → Z := λ _, 0.
Definition pending id q : Z → Z := λ k, if k =? id then q else 0.

Definition booked ps N v : Prop :=
  ∃ V D O F G, vault_store [] [] v V D O F G ∧ ledger ps N (vt_fixed v) V D O.
Definition sound v : Prop := booked settled [] v.

(** Only the counts of the header matter. *)
Lemma ledger_counts ps N f f' V D O : vault_counts f' = vault_counts f →
  ledger ps N f V D O → ledger ps N f' V D O.
Proof. intros [= H1 H2 H3 H4] []. split; rewrite ?H1, ?H2, ?H3, ?H4; done. Qed.

(** Other pending shares that amount to the same for the listed sub-vaults. *)
Lemma ledger_pending ps ps' N f V D O : (∀ id, listed V id → ps' id = ps id) →
  ledger ps N f V D O → ledger ps' N f V D O.
Proof. intros Hp []. split; try done. intros e He. rewrite Hp; [by apply lg_shares0|by exists e]. Qed.

(** ** Sub-vaults *)

(** An update that leaves what the ledger says of a sub-vault. *)
Definition keeps_books (g : SubVault → result SubVault) : Prop :=
  ∀ p, ensures (g p) (λ p', sv_sub_vault_id p' = sv_sub_vault_id p
    ∧ sv_total_shares p' = sv_total_shares p ∧ sv_open_orders_count p' = sv_open_orders_count p).

Lemma distinct_set {A K} (key : A → K) E i a b : distinct key E → (i, a) ∈ E → key b = key a →
  distinct key (set_entry i b E).
Proof.
  intros Hu Hi Hk j x k y Hj Hl Hxy.
  apply set_entry_elem_inv in Hj as [[-> ->]|[_ Hj]], Hl as [[-> ->]|[_ Hl]]; [done|..];
    (eapply Hu; [done|done|congruence]).
Qed.

Lemma entry_unique {A} (E : list (Z * A)) i a b : NoDup E.*1 → (i, a) ∈ E → (i, b) ∈ E → a = b.
Proof.
  intros Hn (E1 & E2 & ->)%list_elem_of_split Hb. rewrite fmap_app in Hn.
  apply NoDup_app in Hn as (_ & Hd & [Hi _]%NoDup_cons).
  apply elem_of_app in Hb as [Hb|[[= <-]|Hb]%elem_of_cons]; [|done|].
  - destruct (Hd i); [apply list_elem_of_fmap; by exists (i, b)|left].
  - destruct Hi. apply list_elem_of_fmap. by exists (i, b).
Qed.

Lemma listed_set V i p q id : NoDup V.*1 → (i, p) ∈ V → sv_sub_vault_id q = sv_sub_vault_id p →
  listed V id → listed (set_entry i q V) id.
Proof.
  intros Hn Hi Hq ([j x] & Hx & <-). destruct (decide (j = i)) as [->|Hj].
  - rewrite (entry_unique _ _ _ _ Hn Hx Hi). exists (i, q). split; [|done]. by eapply set_entry_elem.
  - exists (j, x). split; [|done]. by apply set_entry_ne.
Qed.

Lemma modify_sub_vault_booked ps N v i g : booked ps N v → keeps_books g →
  ensures (modify_sub_vault v i g) (booked ps N).
Proof.
  intros (V & D & O & F & G & Hs & Hl) Hg v' Hm.
  destruct (modify_sub_vault_store Hs i g v' Hm) as (Hf & p & p' & Hi & Hp & Hs').
  { intros p. eapply ensures_mono; [apply Hg|]. by intros p' (? & _). }
  destruct (Hg _ _ Hp) as (K1 & K2 & K3). exists (set_entry i p' V), D, O, F, G. split; [done|].
  rewrite Hf. pose proof (tree_inv_nodup _ _ _ (vi_sub_vaults _ _ _ _ _ _ (vs_inv _ _ _ _ _ _ _ _ Hs))) as Hn.
  destruct Hl. split; try done.
  - by apply (distinct_set _ V i p).
  - intros [j x] [[-> ->]|[_ Hx]]%set_entry_elem_inv; [|by apply (lg_next0 (j, x))].
    simpl. rewrite K1. by apply (lg_next0 (i, p)).
  - unfold set_entry. by rewrite length_fmap.
  - intros [j x] [[-> ->]|[_ Hx]]%set_entry_elem_inv; [|by apply (lg_shares0 (j, x))].
    simpl. rewrite K1, K2. by apply (lg_shares0 (i, p)).
  - intros [j x] [[-> ->]|[_ Hx]]%set_entry_elem_inv; [|by apply (lg_orders0 (j, x))].
    simpl. rewrite K1, K3. by apply (lg_orders0 (i, p)).
  - intros e He. apply (listed_set V i p); auto.
  - intros e He. apply (listed_set V i p); auto.
Qed.

Lemma on_sub_vault_booked ps N v id g : booked ps N v → keeps_books g →
  ensures (on_sub_vault v id g) (booked ps N).
Proof. intros Hv Hg. unfold on_sub_vault. do 2 (apply ensures_bind; intros ? _). by apply modify_sub_vault_booked. Qed.

Lemma store_nodup v V D O F G : vault_store [] [] v V D O F G → NoDup V.*1 ∧ NoDup D.*1 ∧ NoDup O.*1.
Proof. intros [[]]. split_and!; by eapply tree_inv_nodup. Qed.

(** Header fields and growth the ledger does not see. *)
Lemma booked_fixed ps N v f : booked ps N v →
  gv_sub_vaults_root_index f = gv_sub_vaults_root_index (vt_fixed v) →
  gv_claimed_seats_root_index f = gv_claimed_seats_root_index (vt_fixed v) →
  gv_market_orders_root_index f = gv_market_orders_root_index (vt_fixed v) →
  gv_sub_vault_free_list_head_index f = gv_sub_vault_free_list_head_index (vt_fixed v) →
  gv_node_free_list_head_index f = gv_node_free_list_head_index (vt_fixed v) →
  gv_num_bytes_allocated f = gv_num_bytes_allocated (vt_fixed v) →
  vault_counts f = vault_counts (vt_fixed v) → booked ps N (mkVault f (vt_dynamic v)).
Proof.
  intros (V & D & O & F & G & Hs & Hl) H1 H2 H3 H4 H5 H6 H7. exists V, D, O, F, G.
  split; [by apply vault_store_fixed|by eapply ledger_counts].
Qed.

Lemma expand_vault_booked ps N v : booked ps N v → ensures (expand_vault_if_needed v) (booked ps N).
Proof.
  intros (V & D & O & F & G & Hs & Hl) v' He.
  destruct (expand_vault_store _ _ _ _ _ _ _ Hs He) as (Hc & G' & Hs'). exists V, D, O, F, G'.
  split; [done|by eapply ledger_counts].
Qed.

(** A sub-vault that exists. *)
Definition known v id : Prop := ∃ i p, get_sub_vault v i = Ok p ∧ sv_sub_vault_id p = id.

Lemma known_listed v V D O F G id : vault_store [] [] v V D O F G → known v id → listed V id.
Proof. intros Hs (i & p & Hp & Hid). exists (i, p). split; [by eapply get_sub_vault_store|done]. Qed.

Lemma listed_known v V D O F G id : vault_store [] [] v V D O F G → listed V id → known v id.
Proof.
  intros [Hv _] ([i p] & Hp & Hid). exists i, p. split; [|done].
  by apply (get_sub_vault_inv _ _ _ _ _ _ _ _ Hv).
Qed.

(** An update that issues or redeems shares leaves them pending. *)
Definition issued q p p' : Prop := sv_sub_vault_id p' = sv_sub_vault_id p
  ∧ sv_open_orders_count p' = sv_open_orders_count p ∧ sv_total_shares p' = sv_total_shares p + q.

Lemma on_sub_vault_with_booked {A} N v id (g : SubVault → result (SubVault * A)) (q : A → Z)
    (R : A → Prop) : booked settled N v →
  (∀ p, ensures (g p) (λ '(p', x), issued (q x) p p' ∧ R x)) →
  ensures (on_sub_vault_with v id g)
    (λ '(v', x), booked (pending id (q x)) N v' ∧ known v' id ∧ R x).
Proof.
  intros (V & D & O & F & G & Hs & Hl) Hg [v' x] Hr. unfold on_sub_vault_with in Hr.
  apply bind_Ok in Hr as (i & Hlk & Hr). apply bind_Ok in Hr as ([] & Hn%require_Ok%negb_true_iff%Z.eqb_neq & Hr).
  apply bind_Ok in Hr as (p & Hp & Hr). apply bind_Ok in Hr as ([p' y] & Hgp & Hr).
  apply bind_Ok in Hr as (v1 & Hm & [= <- <-]). destruct (Hg _ _ Hgp) as [(K1 & K2 & K3) HR].
  destruct (proj1 (lookup_sub_vault_store Hs id i Hlk) Hn) as (p0 & Hi & Hid).
  pose proof (get_sub_vault_store Hs i p Hp) as Hi'. destruct (store_nodup _ _ _ _ _ _ Hs) as (HnV & _ & _).
  rewrite (entry_unique _ _ _ _ HnV Hi' Hi) in *. clear p Hp Hi'.
  unfold modify_sub_vault in Hm.
  assert (modify_sub_vault v i (λ s, if decide (s = p0) then Ok p' else Err Panic) = Ok v1) as Hm'.
  { unfold modify_sub_vault, modify_value in *.
    destruct (region_get (vt_dynamic v) i) as [n|] eqn:En; [|done].
    cbn [mbind result_bind] in *. rewrite decide_True; [done|].
    apply region_get_Ok in En. apply (entry_unique _ _ _ _ HnV (store_sub_vault Hs i n En) Hi). }
  destruct (modify_sub_vault_store Hs i _ v1 Hm') as (Hf & s & s' & Hsi & Hs1 & Hst).
  { intros s. case_decide; [apply ensures_Ok; by subst|apply ensures_Err]. }
  rewrite (entry_unique _ _ _ _ HnV Hsi Hi) in Hs1. rewrite decide_True in Hs1 by done. injection Hs1 as <-.
  split; [|split; [eapply listed_known, (listed_set V i p0); [exact Hst|done|done|done|by exists (i, p0)]|done]].
  exists (set_entry i p' V), D, O, F, G. split; [done|]. rewrite Hf. destruct Hl. split; try done.
  - by apply (distinct_set _ V i p0).
  - intros [j z] [[-> ->]|[_ Hz]]%set_entry_elem_inv; [|by apply (lg_next0 (j, z))].
    simpl. rewrite K1. by apply (lg_next0 (i, p0)).
  - unfold set_entry. by rewrite length_fmap.
  - unfold settled, pending in *. intros [j z] [[-> ->]|[Hj Hz]]%set_entry_elem_inv; simpl.
    + rewrite K3, K1, Hid, Z.eqb_refl. specialize (lg_shares0 _ Hi). simpl in lg_shares0.
      rewrite Hid in lg_shares0. lia.
    + specialize (lg_shares0 _ Hz). simpl in lg_shares0.
      destruct (Z.eqb_spec (sv_sub_vault_id z) id) as [E|]; [|done].
      destruct Hj. eapply lg_ids0; [exact Hz|exact Hi|congruence].
  - intros [j z] [[-> ->]|[_ Hz]]%set_entry_elem_inv; [|by apply (lg_orders0 (j, z))].
    simpl. rewrite K1, K2. by apply (lg_orders0 (i, p0)).
  - intros e He. apply (listed_set V i p0); auto.
  - intros e He. apply (listed_set V i p0); auto.
Qed.

(** ** Depositors *)

Lemma distinct_insert {A K} (key : A → K) E1 E2 i a : distinct key (E1 ++ E2) →
  (∀ j b, (j, b) ∈ E1 ++ E2 → key b ≠ key a) → distinct key (E1 ++ (i, a) :: E2).
Proof.
  intros Hu Hn j x k y Hj Hk Hxy.
  assert (∀ j b, (j, b) ∈ E1 ++ (i, a) :: E2 → (j, b) = (i, a) ∨ (j, b) ∈ E1 ++ E2) as Hin.
  { intros l b. rewrite !elem_of_app, elem_of_cons. tauto. }
  apply Hin in Hj as [[= -> ->]|Hj], Hk as [[= -> ->]|Hk]; [done| | |by eapply Hu];
    exfalso; eapply Hn; [exact Hk|congruence|exact Hj|congruence].
Qed.

Lemma distinct_without {A K} (key : A → K) E1 E2 e : distinct key (E1 ++ e :: E2) → distinct key (E1 ++ E2).
Proof.
  intros Hu i a j b Hi Hj. apply Hu; [revert Hi|revert Hj]; rewrite !elem_of_app, elem_of_cons; tauto.
Qed.

Lemma in_insert {A} (E1 E2 : list A) a e : e ∈ E1 ++ a :: E2 → e = a ∨ e ∈ E1 ++ E2.
Proof. rewrite !elem_of_app, elem_of_cons. tauto. Qed.
Lemma in_without {A} (E1 E2 : list A) a e : e ∈ E1 ++ E2 → e ∈ E1 ++ a :: E2.
Proof. rewrite !elem_of_app, elem_of_cons. tauto. Qed.

(** The depositor's seat, claimed empty if it is new. *)
Lemma upsert_seat_booked ps N v o id : booked ps N v → known v id →
  ensures (upsert_sub_vault_depositor_seat v o id) (λ '(v', i), booked ps (i :: N) v'
    ∧ ∃ x, get_depositor_seat v' i = Ok x ∧ seat_key x = (o, id)).
Proof.
  intros (V & D & O & F & G & Hs & Hl) Hk [v' i] Hr. pose proof (known_listed _ _ _ _ _ _ _ Hs Hk) as Hid.
  unfold upsert_sub_vault_depositor_seat in Hr. apply bind_Ok in Hr as (j & Hj & Hr).
  destruct (lookup_depositor_store Hs o id j Hj) as [Hfound Hnone].
  destruct (Z.eqb_spec j NIL) as [->|Hn]; simpl in Hr.
  - apply bind_Ok in Hr as ([v1 a] & Hg & Hr).
    apply bind_Ok in Hr as ([] & Ha%require_Ok%negb_true_iff%Z.eqb_neq & Hr).
    destruct (get_free_node_store _ _ _ _ _ _ _ _ Hs Hg) as (Hc & Hs1).
    destruct (Hs1 Ha) as [G1 Hs2]. apply bind_Ok in Hr as (t & Ht & Hr).
    apply bind_Ok in Hr as (c & Hcc & [= <- <-]).
    destruct (insert_depositor_store _ _ _ _ _ _ _ _ _ _ Hs2 Ht) as (D1 & D2 & -> & Hs3).
    apply ok_or_Ok, checked_add_Some in Hcc as [-> _]. simpl.
    assert (gv_claimed_seat_count (vt_fixed v1) = gv_claimed_seat_count (vt_fixed v)) as Hcnt by by injection Hc.
    rewrite Hcnt. set (x := depositor_seat_probe o id) in *. split.
    + exists V, (D1 ++ (a, x) :: D2), O, F, G1. split; [by apply (vault_store_fixed _ _ (put_depositor_seats v1 t))|].
      apply (ledger_counts _ _ _ _ _ _ _ Hc) in Hl. destruct Hl. rewrite Hcnt in lg_seat_count0.
      split; try done.
      * apply distinct_insert; [done|]. intros k b Hb [= Ho Hi]. by apply (Hnone eq_refl k b).
      * simpl. rewrite lg_seat_count0, !length_app. simpl. lia.
      * intros e He. rewrite total_insert, (lg_shares0 e He). unfold held at 3. simpl.
        case_match; lia.
      * intros e [->|He]%in_insert; [done|by apply lg_seat_listed0].
      * intros e [->|He]%in_insert; [done|by apply lg_nonneg0].
      * intros e [->|He]%in_insert Hne; [simpl in Hne; destruct Hne; left|].
        apply lg_positive0; [done|]. intros H. apply Hne. by right.
    + exists x. split; [|done]. destruct Hs3 as [Hv3 _].
      apply (tree_inv_node _ _ _ _ _ (vi_seats _ _ _ _ _ _ Hv3)). apply elem_of_app. right. left.
  - injection Hr as <- <-. destruct (Hfound Hn) as (x & Hx & Ho & Hi). split.
    + exists V, D, O, F, G. split; [done|]. destruct Hl. split; try done.
      intros e He Hne. apply lg_positive0; [done|]. intros H. apply Hne. by right.
    + exists x. split; [|unfold seat_key; by rewrite Ho, Hi]. destruct Hs as [Hv _].
      apply (tree_inv_node _ _ _ _ _ (vi_seats _ _ _ _ _ _ Hv) Hx).
Qed.

(** A credit or a debit takes the pending shares of the seat's sub-vault. *)
Lemma modify_seat_booked N v i x g q : get_depositor_seat v i = Ok x →
  booked (pending (ds_sub_vault_id x) q) (i :: N) v →
  ensures (g x) (λ x', seat_key x' = seat_key x ∧ ds_shares x' = ds_shares x + q ∧ 0 <= ds_shares x') →
  ensures (modify_depositor_seat v i g) (λ v', booked settled (i :: N) v'
    ∧ ∃ x', g x = Ok x' ∧ get_depositor_seat v' i = Ok x').
Proof.
  intros Hx (V & D & O & F & G & Hs & Hl) Hg v' Hm.
  destruct (store_nodup _ _ _ _ _ _ Hs) as (_ & HnD & _). pose proof (get_depositor_store Hs i x Hx) as Hi.
  assert (modify_depositor_seat v i (λ y, if decide (y = x) then g x else Err Panic) = Ok v') as Hm'.
  { unfold modify_depositor_seat, modify_value in *.
    destruct (region_get (vt_dynamic v) i) as [n|] eqn:En; [|done].
    cbn [mbind result_bind] in *. apply region_get_Ok in En.
    rewrite (entry_unique _ _ _ _ HnD (store_depositor Hs i n En) Hi) in *. by rewrite decide_True. }
  destruct (modify_depositor_store Hs i _ v' Hm') as (Hf & y & x' & Hy & Hx' & Hs').
  { intros y. case_decide as Hd; [|apply ensures_Err]. subst y. eapply ensures_mono; [exact Hg|].
    by intros z ([= ? ?] & _). }
  rewrite (entry_unique _ _ _ _ HnD Hy Hi) in *. rewrite decide_True in Hx' by done.
  destruct (Hg _ Hx') as (K1 & K2 & K3). pose proof K1 as [= K4 K5]. split.
  - exists V, (set_entry i x' D), O, F, G. split; [done|]. rewrite Hf. destruct Hl. split; try done.
    + by apply (distinct_set _ D i x).
    + unfold set_entry. by rewrite length_fmap.
    + intros e He. rewrite (lg_shares0 e He), (total_set_entry _ _ _ _ _ HnD Hi).
      unfold held, pending, settled. simpl. rewrite K5, K2.
      rewrite (Z.eqb_sym (sv_sub_vault_id e.2)). case_match; lia.
    + intros [j z] [[-> ->]|[_ Hz]]%set_entry_elem_inv; [|by apply (lg_seat_listed0 (j, z))].
      simpl. rewrite K5. by apply (lg_seat_listed0 (i, x)).
    + intros [j z] [[-> ->]|[_ Hz]]%set_entry_elem_inv; [done|by apply (lg_nonneg0 (j, z))].
    + intros [j z] [[-> ->]|[_ Hz]]%set_entry_elem_inv Hne; [destruct Hne; left|by apply (lg_positive0 (j, z))].
  - exists x'. split; [done|]. destruct Hs' as [Hv' _].
    apply (tree_inv_node _ _ _ _ _ (vi_seats _ _ _ _ _ _ Hv')). by eapply set_entry_elem.
Qed.

Lemma booked_more ps N N' v : (∀ i, i ∈ N → i ∈ N') → booked ps N v → booked ps N' v.
Proof.
  intros Hi (V & D & O & F & G & Hs & Hl). exists V, D, O, F, G. split; [done|]. destruct Hl. split; try done.
  intros e He Hne. apply lg_positive0; [done|]. intros H. by apply Hne, Hi.
Qed.

Lemma booked_nonneg ps N v i x : booked ps N v → get_depositor_seat v i = Ok x → 0 <= ds_shares x.
Proof.
  intros (V & D & O & F & G & Hs & Hl) Hx. apply (lg_nonneg _ _ _ _ _ _ Hl (i, x)).
  by apply (get_depositor_store Hs).
Qed.

Lemma booked_seat ps N v o id j : booked ps N v → lookup_depositor_seat v o id = Ok j → j ≠ NIL →
  ∃ x, get_depositor_seat v j = Ok x ∧ seat_key x = (o, id).
Proof.
  intros (V & D & O & F & G & Hs & Hl) Hj Hn.
  destruct (proj1 (lookup_depositor_store Hs o id j Hj) Hn) as (x & Hx & Ho & Hid).
  exists x. split; [|unfold seat_key; by rewrite Ho, Hid]. destruct Hs as [Hv _].
  by apply (tree_inv_node _ _ _ _ _ (vi_seats _ _ _ _ _ _ Hv) Hx).
Qed.

(** A seat that turned out not to be empty. *)
Lemma booked_positive ps N v i x : booked ps (i :: N) v → get_depositor_seat v i = Ok x →
  ds_shares x ≠ 0 → booked ps N v.
Proof.
  intros (V & D & O & F & G & Hs & Hl) Hx Hn. exists V, D, O, F, G. split; [done|].
  pose proof (get_depositor_store Hs i x Hx) as Hi. destruct (store_nodup _ _ _ _ _ _ Hs) as (_ & HnD & _).
  destruct Hl. split; try done. intros [j y] He Hne. destruct (decide (j = i)) as [->|Hj].
  - rewrite (entry_unique _ _ _ _ HnD He Hi). specialize (lg_nonneg0 _ Hi). simpl in *. lia.
  - apply lg_positive0; [done|]. simpl in *. by intros [?|?]%elem_of_cons.
Qed.

(** An empty seat is given up. *)
Lemma remove_seat_booked N v o id i x : booked settled (i :: N) v →
  get_depositor_seat v i = Ok x → seat_key x = (o, id) → ds_shares x = 0 →
  ensures (remove_sub_vault_depositor_seat v o id) (λ '(v', _), booked settled N v').
Proof.
  intros (V & D & O & F & G & Hs & Hl) Hx Hk H0 [v' j] Hr.
  pose proof (get_depositor_store Hs i x Hx) as Hi. destruct (store_nodup _ _ _ _ _ _ Hs) as (_ & HnD & _).
  unfold remove_sub_vault_depositor_seat in Hr. apply bind_Ok in Hr as (j' & Hj & Hr).
  destruct (lookup_depositor_store Hs o id j' Hj) as [Hfound Hnone]. injection Hk as Ho Hid.
  destruct (Z.eqb_spec j' NIL) as [->|Hn]; [by destruct (Hnone eq_refl i x)|].
  destruct (Hfound Hn) as (y & Hy & Hoy & Hidy).
  assert (j' = i) as -> by (eapply (lg_seats _ _ _ _ _ _ Hl); [exact Hy|exact Hi|unfold seat_key; congruence]).
  clear y Hy Hoy Hidy. apply list_elem_of_split in Hi as (D1 & D2 & ->).
  apply bind_Ok in Hr as (t & Ht & Hr). apply bind_Ok in Hr as (c & Hc & Hr).
  apply ok_or_Ok, checked_sub_Some in Hc as [-> _]. apply bind_Ok in Hr as (v1 & Hrel & [= <- <-]).
  pose proof (remove_depositor_store _ _ _ _ _ _ _ _ _ _ Hs Ht) as Hs1.
  match type of Hrel with release_node_address ?w _ = _ => assert (vault_store [] [i] w V (D1 ++ D2) O F G) as Hs2
    by by apply (vault_store_fixed _ _ (put_depositor_seats v t)) end.
  destruct (release_node_store _ _ _ _ _ _ _ _ Hs2 Hrel) as [Hcnt Hs3].
  exists V, (D1 ++ D2), O, F, (i :: G). split; [done|]. injection Hcnt as C1 C2 C3 C4. simpl in C1, C2, C3, C4.
  destruct Hl. split; rewrite ?C1, ?C2, ?C3, ?C4; try done.
  - by eapply distinct_without.
  - rewrite lg_seat_count0, !length_app. simpl. lia.
  - intros e He. rewrite (lg_shares0 e He), total_insert. unfold held at 2. simpl. case_match; lia.
  - intros e He. by apply lg_seat_listed0, in_without.
  - intros e He. by apply lg_nonneg0, in_without.
  - intros e He Hne. apply lg_positive0; [by apply in_without|]. intros [Hi|?]%elem_of_cons; [|done].
    rewrite fmap_app, fmap_cons, <- Permutation_middle in HnD. apply NoDup_cons in HnD as [HnD _].
    apply HnD. rewrite <- fmap_app. apply list_elem_of_fmap. by exists e.
Qed.

(** ** Orders *)

Definition add_orders q (p : SubVault) : SubVault :=
  p <| sv_open_orders_count := sv_open_orders_count p + q |>.

Lemma bump_store v V D O F G id q v' : vault_store [] [] v V D O F G → (q = 1 ∨ q = -1) →
  bump_sub_vault_order_count v id q = Ok v' →
  vt_fixed v' = vt_fixed v ∧ ∃ i p, (i, p) ∈ V ∧ sv_sub_vault_id p = id
    ∧ vault_store [] [] v' (set_entry i (add_orders q p) V) D O F G.
Proof.
  intros Hs Hq Hr. unfold bump_sub_vault_order_count in Hr. apply bind_Ok in Hr as (i & Hlk & Hr).
  apply bind_Ok in Hr as ([] & Hn%require_Ok%negb_true_iff%Z.eqb_neq & Hm).
  destruct (proj1 (lookup_sub_vault_store Hs id i Hlk) Hn) as (p0 & Hi & Hid).
  destruct (modify_sub_vault_store Hs i _ v' Hm) as (Hf & p & p' & Hp & Hgp & Hs').
  { intros p. ensure_walk; done. }
  destruct (store_nodup _ _ _ _ _ _ Hs) as (HnV & _ & _).
  rewrite (entry_unique _ _ _ _ HnV Hp Hi) in *. split; [done|]. exists i, p0. split_and!; [done|done|].
  replace (add_orders q p0) with p'; [done|]. apply bind_Ok in Hgp as (c & Hc & [= <-]).
  unfold add_orders. f_equal. destruct Hq as [->| ->]; simpl in Hc; apply ok_or_Ok in Hc.
  - by apply checked_add_Some in Hc as [-> _].
  - by apply checked_sub_Some in Hc as [-> _].
Qed.

(** One reference more or less, and the sub-vault's count with it. *)
Lemma ledger_bump ps N f f' V D O O' i p q : NoDup V.*1 → ledger ps N f V D O → (i, p) ∈ V →
  distinct ref_key O' → (∀ e, e ∈ O' → listed V (or_sub_vault_id e.2)) →
  gv_next_sub_vault_id f' = gv_next_sub_vault_id f → gv_sub_vault_count f' = gv_sub_vault_count f →
  gv_claimed_seat_count f' = gv_claimed_seat_count f → gv_open_order_count f' = Z.of_nat (length O') →
  (∀ k, total (referred k) O' = total (referred k) O + if sv_sub_vault_id p =? k then q else 0) →
  ledger ps N f' (set_entry i (add_orders q p) V) D O'.
Proof.
  intros Hn Hl Hi Hd Hr F1 F2 F3 F4 Ht. destruct Hl. split; rewrite ?F1, ?F2, ?F3, ?F4; try done.
  - by apply (distinct_set _ V i p).
  - intros [j x] [[-> ->]|[_ Hx]]%set_entry_elem_inv; [by apply (lg_next0 (i, p))|by apply (lg_next0 (j, x))].
  - unfold set_entry. by rewrite length_fmap.
  - intros [j x] [[-> ->]|[_ Hx]]%set_entry_elem_inv; [by apply (lg_shares0 (i, p))|by apply (lg_shares0 (j, x))].
  - intros [j x] [[-> ->]|[Hj Hx]]%set_entry_elem_inv; simpl; rewrite Ht.
    + rewrite Z.eqb_refl. f_equal. by apply (lg_orders0 (i, p)).
    + rewrite (proj2 (Z.eqb_neq _ _)), Z.add_0_r; [by apply (lg_orders0 (j, x))|].
      intros E. apply Hj. by eapply (lg_ids0 j x i p).
  - intros e He. apply (listed_set V i p); auto.
  - intros e He. apply (listed_set V i p); auto.
Qed.

Lemma insert_order_ref_booked ps N v mk id side rate term seq now : booked ps N v →
  ensures (insert_sub_vault_order_ref v mk id side rate term seq now) (λ '(v', _), booked ps N v').
Proof.
  intros (V & D & O & F & G & Hs & Hl) [v' a'] Hr. unfold insert_sub_vault_order_ref in Hr.
  apply bind_Ok in Hr as (j & Hj & Hr). apply bind_Ok in Hr as ([] & ->%require_Ok%Z.eqb_eq & Hr).
  destruct (lookup_order_ref_store Hs mk id NIL Hj) as [_ Hnone].
  apply bind_Ok in Hr as ([v1 a] & Hg & Hr). apply bind_Ok in Hr as ([] & Ha%require_Ok%negb_true_iff%Z.eqb_neq & Hr).
  destruct (get_free_node_store _ _ _ _ _ _ _ _ Hs Hg) as (Hc & Hs1). destruct (Hs1 Ha) as [G1 Hs2].
  apply bind_Ok in Hr as (t & Ht & Hr). apply bind_Ok in Hr as (c & Hcc & Hr).
  apply bind_Ok in Hr as (v2 & Hb & [= <- <-]).
  destruct (insert_order_ref_store _ _ _ _ _ _ _ _ _ _ Hs2 Ht) as (O1 & O2 & -> & Hs3).
  apply ok_or_Ok, checked_add_Some in Hcc as [-> _]. cbv zeta in Hb.
  match type of Hb with bump_sub_vault_order_count ?w _ _ = _ =>
    assert (vault_store [] [] w V D (O1 ++ (a, mkSubVaultOrderRef mk id side rate term seq now) :: O2) F G1) as Hs4
    by by apply (vault_store_fixed _ _ (put_order_refs v1 t)) end.
  destruct (bump_store _ _ _ _ _ _ _ _ _ Hs4 (or_introl eq_refl) Hb) as (Hf & i & p & Hi & Hid & Hs5).
  eexists _, _, _, _, _. split; [exact Hs5|]. rewrite Hf. injection Hc as C1 C2 C3 C4.
  destruct (store_nodup _ _ _ _ _ _ Hs) as (HnV & _ & _).
  apply (ledger_bump _ _ (vt_fixed v) _ V D (O1 ++ O2)); simpl; rewrite ?C1, ?C2, ?C3, ?C4; try done.
  - apply distinct_insert; [apply Hl|]. intros k b Hb' [= Hm Hk]. by apply (Hnone eq_refl k b).
  - intros e [->|He]%in_insert; [by exists (i, p)|by apply (lg_ref_listed _ _ _ _ _ _ Hl)].
  - rewrite (lg_order_count _ _ _ _ _ _ Hl), !length_app. simpl. lia.
  - intros k. rewrite total_insert. unfold referred at 3. simpl. by rewrite Hid.
Qed.

Lemma remove_order_ref_booked ps N v mk id : booked ps N v →
  ensures (remove_sub_vault_order_ref v mk id) (λ '(v', _), booked ps N v').
Proof.
  intros (V & D & O & F & G & Hs & Hl) [v' a'] Hr. unfold remove_sub_vault_order_ref in Hr.
  apply bind_Ok in Hr as (j & Hj & Hr). destruct (lookup_order_ref_store Hs mk id j Hj) as [Hfound _].
  destruct (Z.eqb_spec j NIL) as [->|Hn]; [injection Hr as <- <-; by exists V, D, O, F, G|].
  destruct (Hfound Hn) as (x & (O1 & O2 & ->)%list_elem_of_split & Hm & Hk).
  apply bind_Ok in Hr as (t & Ht & Hr). apply bind_Ok in Hr as (c & Hc & Hr).
  apply ok_or_Ok, checked_sub_Some in Hc as [-> _]. apply bind_Ok in Hr as (v1 & Hrel & Hr).
  apply bind_Ok in Hr as (v2 & Hb & [= <- <-]).
  pose proof (remove_order_ref_store _ _ _ _ _ _ _ _ _ _ Hs Ht) as Hs1.
  match type of Hrel with release_node_address ?w _ = _ => assert (vault_store [] [j] w V D (O1 ++ O2) F G) as Hs2
    by by apply (vault_store_fixed _ _ (put_order_refs v t)) end.
  destruct (release_node_store _ _ _ _ _ _ _ _ Hs2 Hrel) as [Hcnt Hs3].
  destruct (bump_store _ _ _ _ _ _ _ _ _ Hs3 (or_intror eq_refl) Hb) as (Hf & i & p & Hi & Hid & Hs5).
  eexists _, _, _, _, _. split; [exact Hs5|]. rewrite Hf. injection Hcnt as C1 C2 C3 C4. simpl in C1, C2, C3, C4.
  destruct (store_nodup _ _ _ _ _ _ Hs) as (HnV & _ & _).
  apply (ledger_bump _ _ (vt_fixed v) _ V D (O1 ++ (j, x) :: O2)); simpl; rewrite ?C1, ?C2, ?C3, ?C4; try done.
  - eapply distinct_without, Hl.
  - intros e He. by apply (lg_ref_listed _ _ _ _ _ _ Hl), in_without.
  - rewrite (lg_order_count _ _ _ _ _ _ Hl), !length_app. simpl. lia.
  - intros k. rewrite total_insert. unfold referred at 3. simpl. rewrite Hk, Hid. case_match; lia.
Qed.

(** ** Sub-vaults come and go *)

Lemma listed_insert V1 V2 e id : listed (V1 ++ V2) id → listed (V1 ++ e :: V2) id.
Proof. intros (x & Hx & Hid). exists x. split; [by apply in_without|done]. Qed.

Lemma append_sub_vault_booked N v n : booked settled N v → ensures (append_sub_vault n v) (booked settled N).
Proof.
  intros (V & D & O & F & G & Hs & Hl) v' Hr. unfold append_sub_vault in Hr.
  apply bind_Ok in Hr as (v1 & He & Hr). destruct (expand_sub_vaults_store _ _ _ _ _ _ _ Hs He) as (Hc1 & F1 & Hs1).
  apply bind_Ok in Hr as (nx & Hnx & Hr). apply ok_or_Ok, checked_add_Some in Hnx as [-> _].
  cbv zeta in Hr. apply bind_Ok in Hr as ([v2 a] & Hg & Hr).
  apply bind_Ok in Hr as ([] & Ha%require_Ok%negb_true_iff%Z.eqb_neq & Hr).
  match type of Hg with get_free_sub_vault_address ?w = _ => assert (vault_store [] [] w V D O F1 G) as Hs2
    by by apply (vault_store_fixed _ _ v1) end.
  destruct (get_free_sub_vault_store _ _ _ _ _ _ _ _ Hs2 Hg) as (Hc2 & Hs3). destruct (Hs3 Ha) as [F2 Hs4].
  apply bind_Ok in Hr as (t & Ht & Hr). apply bind_Ok in Hr as (c & Hc & [= <-]).
  apply ok_or_Ok, checked_add_Some in Hc as [-> _].
  destruct (insert_sub_vault_store _ _ _ _ _ _ _ _ _ _ Hs4 Ht) as (V1 & V2 & -> & Hs5).
  injection Hc1 as B1 B2 B3 B4. injection Hc2 as C1 C2 C3 C4. simpl in C1, C2, C3, C4.
  set (id := gv_next_sub_vault_id (vt_fixed v1)) in *.
  eexists _, _, _, _, _. split; [by apply (vault_store_fixed _ _ (put_sub_vaults v2 t))|].
  destruct Hl. assert (∀ e, e ∈ V1 ++ V2 → sv_sub_vault_id e.2 < id) as Hlt by (rewrite B1; done).
  assert (∀ k, listed (V1 ++ V2) k → k ≠ id) as Hnew.
  { intros k (e & He' & <-) E. specialize (Hlt e He'). lia. }
  split; simpl; rewrite ?C1, ?C2, ?C3, ?C4, ?B2, ?B3, ?B4; try done.
  - apply distinct_insert; [done|]. intros k b Hb E. apply (Hlt (k, b)) in Hb. simpl in *. lia.
  - intros e [->|He']%in_insert; [simpl; lia|]. specialize (Hlt e He'). lia.
  - rewrite lg_sub_vault_count0, !length_app. simpl. lia.
  - intros e [->|He']%in_insert; [|by apply lg_shares0]. simpl. rewrite total_none; [done|].
    intros d Hd. unfold held. simpl. rewrite (proj2 (Z.eqb_neq _ _)); [done|]. by apply Hnew, lg_seat_listed0.
  - intros e [->|He']%in_insert; [|by apply lg_orders0]. simpl. rewrite total_none; [done|].
    intros d Hd. unfold referred. simpl. rewrite (proj2 (Z.eqb_neq _ _)); [done|]. by apply Hnew, lg_ref_listed0.
  - intros e He'. by apply listed_insert, lg_seat_listed0.
  - intros e He'. by apply listed_insert, lg_ref_listed0.
Qed.

(** Nobody holds a share of an empty sub-vault, and no order refers to it. *)
Lemma remove_sub_vault_sound v id : sound v → ensures (remove_sub_vault v id) (λ '(v', _), sound v').
Proof.
  intros (V & D & O & F & G & Hs & Hl) [v' a'] Hr. unfold remove_sub_vault in Hr.
  apply bind_Ok in Hr as (j & Hj & Hr). destruct (lookup_sub_vault_store Hs id j Hj) as [Hfound _].
  destruct (Z.eqb_spec j NIL) as [->|Hn]; [injection Hr as <- <-; by exists V, D, O, F, G|].
  destruct (Hfound Hn) as (p & Hi & Hid). destruct (store_nodup _ _ _ _ _ _ Hs) as (HnV & _ & _).
  apply bind_Ok in Hr as (p' & Hp & Hr). apply (get_sub_vault_store Hs) in Hp.
  rewrite (entry_unique _ _ _ _ HnV Hp Hi) in Hr. clear p' Hp.
  apply bind_Ok in Hr as ([] & He%require_Ok & Hr).
  assert (sv_total_shares p = 0 ∧ sv_open_orders_count p = 0) as [E1 E2].
  { unfold sub_vault_is_empty in He. rewrite !andb_true_iff, !Z.eqb_eq in He. tauto. }
  pose proof (lg_shares _ _ _ _ _ _ Hl _ Hi) as Hsh. pose proof (lg_orders _ _ _ _ _ _ Hl _ Hi) as Hor.
  simpl in Hsh, Hor. rewrite E1, Hid in Hsh. rewrite E2, Hid in Hor. unfold settled in Hsh. rewrite Z.add_0_r in Hsh.
  assert (∀ e, e ∈ D → ds_sub_vault_id e.2 ≠ id) as HD.
  { intros e He' E. pose proof (lg_positive _ _ _ _ _ _ Hl e He' (not_elem_of_nil _)) as Hpos.
    assert (held id e = 0) as H0.
    { apply (total_zero (held id) D); [|done|done]. intros x Hx. unfold held.
      pose proof (lg_nonneg _ _ _ _ _ _ Hl x Hx). case_match; lia. }
    unfold held in H0. rewrite E, Z.eqb_refl in H0. lia. }
  assert (∀ e, e ∈ O → or_sub_vault_id e.2 ≠ id) as HO.
  { intros e He' E. assert (referred id e = 0) as H0.
    { apply (total_zero (referred id) O); [|done|done]. intros x Hx. unfold referred. case_match; lia. }
    unfold referred in H0. by rewrite E, Z.eqb_refl in H0. }
  apply list_elem_of_split in Hi as (V1 & V2 & ->).
  assert (∀ k, k ≠ id → listed (V1 ++ (j, p) :: V2) k → listed (V1 ++ V2) k) as Hother.
  { intros k Hk (e & [->|He']%in_insert & E); [by rewrite <- E in Hk|by exists e]. }
  apply bind_Ok in Hr as (t & Ht & Hr). apply bind_Ok in Hr as (c & Hc & Hr).
  apply ok_or_Ok, checked_sub_Some in Hc as [-> _]. apply bind_Ok in Hr as (v1 & Hrel & [= <- <-]).
  pose proof (remove_sub_vault_store _ _ _ _ _ _ _ _ _ _ Hs Ht) as Hs1.
  match type of Hrel with release_sub_vault_address ?w _ = _ => assert (vault_store [j] [] w (V1 ++ V2) D O F G) as Hs2
    by by apply (vault_store_fixed _ _ (put_sub_vaults v t)) end.
  destruct (release_sub_vault_store _ _ _ _ _ _ _ _ Hs2 Hrel) as [Hcnt Hs3].
  eexists _, _, _, _, _. split; [exact Hs3|]. injection Hcnt as C1 C2 C3 C4. simpl in C1, C2, C3, C4.
  destruct Hl. split; rewrite ?C1, ?C2, ?C3, ?C4; try done.
  - by eapply distinct_without.
  - intros e He'. by apply lg_next0, in_without.
  - rewrite lg_sub_vault_count0, !length_app. simpl. lia.
  - intros e He'. by apply lg_shares0, in_without.
  - intros e He'. by apply lg_orders0, in_without.
  - intros e He'. apply Hother; [by apply HD|by apply lg_seat_listed0].
  - intros e He'. apply Hother; [by apply HO|by apply lg_ref_listed0].
Qed.

Lemma reserve_fill_booked ps N v id atoms : booked ps N v → ensures (reserve_fill v id atoms) (booked ps N).
Proof.
  intros Hv. unfold reserve_fill. apply ensures_bind. intros i _. ensure_step; [by apply ensures_Ok|].
  apply modify_sub_vault_booked; [done|]. intros p. ensure_walk. done.
Qed.

(** A new vault owes nothing. *)
Lemma new_vault_sound mint admin pool account signer bump bank :
  sound (mkVault (global_vault_new_empty mint admin pool account signer bump bank) ∅).
Proof.
  exists [], [], [], [], []. split.
  - split; [apply check_vault_inv; repeat split|].
    split; try done; try constructor; by intros i j ?%elem_of_nil.
  - split; try done; try (by intros e ?%elem_of_nil); by intros i a j b ?%elem_of_nil.
Qed.
End ledger.
