(* ===== verification/VaultChain.v ===== *)
(** * Every vault of the chain adds up

    [VaultLedger] shows that the operations of a vault keep its books; here the matching
    engines, the handlers and at last every transaction do.
    [reachable_vault_shares_add_up]: whatever transactions ran, the shares a sub-vault has
    issued are the shares of its depositors. *)
From stdpp Require Import base numbers list option gmap relations.
From S2P Require Import Prelude FixedPoint Loan Marginfi Oracles Ltv.
From S2P Require Import Hypertree HypertreeFrame HypertreeSpec HypertreeOrder SubVault Market VaultTrees.
From S2P Require Import VaultSpec UserAccount Matching Runtime LoanClose Repay Keeper Promotion Deposits Claims.
From S2P Require Import Convert Admin Orders Program MarketSpec MatchingSpec StampSpec SystemSpec RiskSpec.
From S2P Require Import VaultStore VaultLedger.
Local Open Scope Z_scope.

Implicit Types (v : Vault) (N : list Z) (i id : Z) (ps : Z → Z) (p s : SubVault).

(** ** What the updates of a sub-vault leave of its books *)

Definition same_books p s : Prop := sv_sub_vault_id s = sv_sub_vault_id p
  ∧ sv_total_shares s = sv_total_shares p ∧ sv_open_orders_count s = sv_open_orders_count p.

Lemma same_books_refl p : same_books p p.
Proof. by split_and!. Qed.
#[local] Hint Resolve same_books_refl : ensures.

Section books.
Context {p : SubVault}.

Lemma restore_books s : same_books p s → same_books p (restore_assets_principal_invariant s).
Proof. unfold restore_assets_principal_invariant. by destruct (_ <? _). Qed.
Lemma stamp_books s now sv : same_books p s → same_books p (stamp_accrual s now sv).
Proof. unfold stamp_accrual. by destruct (fp48_is_zero sv). Qed.

Lemma accrue_books s now sv : same_books p s → ensures (accrue_sub_vault s now sv) (same_books p).
Proof.
  intros Hs. unfold accrue_sub_vault, apply_idle_delta, grow_indices. cbv zeta.
  ensure_walk; try apply restore_books; try apply stamp_books; assumption.
Qed.
Hint Resolve accrue_books : ensures.

Lemma deploy_loan_books n r c s : same_books p s → ensures (deploy_loan n r c s) (same_books p).
Proof. intros Hs. unfold deploy_loan. ensure_walk; assumption. Qed.
Hint Resolve deploy_loan_books : ensures.
Lemma fund_loan_books n r c x now sv s : same_books p s → ensures (fund_loan n r c x now sv s) (same_books p).
Proof. intros Hs. unfold fund_loan. ensure_walk; try apply restore_books; assumption. Qed.
Lemma reconcile_books c net now s : same_books p s → ensures (reconcile c net now s) (same_books p).
Proof. intros Hs. unfold reconcile. cbv zeta. ensure_walk; by apply restore_books. Qed.
Hint Resolve reconcile_books : ensures.
Lemma close_out_sub_vault_books c now sv s : same_books p s →
  ensures (close_out_sub_vault c now sv s) (same_books p).
Proof. intros Hs. unfold close_out_sub_vault. cbv zeta. ensure_walk; assumption. Qed.
Lemma update_sub_vault_books payer up s : same_books p s → ensures (update_sub_vault payer up s) (same_books p).
Proof. intros Hs. unfold update_sub_vault. cbv zeta. ensure_walk; assumption. Qed.
End books.
#[local] Hint Resolve accrue_books deploy_loan_books fund_loan_books close_out_sub_vault_books
  update_sub_vault_books : ensures.

(** Minting and burning move the shares by as many as they report. *)
Lemma deposit_into_sub_vault_issued payer bank now atoms p :
  ensures (deposit_into_sub_vault payer bank now atoms p) (λ '(s, n), issued n p s ∧ 0 < n).
Proof.
  unfold deposit_into_sub_vault. do 3 forget. apply ensures_bind.
  eapply ensures_mono; [apply (@accrue_books p), same_books_refl|]. intros s (K1 & K2 & K3).
  unfold mint_shares. apply ensures_bind, ensures_mono with (λ '(s', _), same_books p s').
  { ensure_walk; by split_and!. }
  intros [s1 n] (J1 & J2 & J3). apply ensures_bind. intros [] Hn%require_Ok%Z.ltb_lt.
  apply ensures_bind. intros t [-> _]%ok_or_Ok%checked_add_Some. do 2 forget. apply ensures_Ok.
  split; [|done]. split_and!; simpl; [done|done|by rewrite J2].
Qed.

Lemma withdraw_from_sub_vault_issued payer bank now n mfi p :
  ensures (withdraw_from_sub_vault payer bank now n mfi p) (λ '(s, _), issued (- n) p s).
Proof.
  unfold withdraw_from_sub_vault. do 2 forget. apply ensures_bind.
  eapply ensures_mono; [apply (@accrue_books p), same_books_refl|]. intros s (K1 & K2 & K3).
  unfold burn_shares. cbv zeta. do 6 forget. apply ensures_bind.
  intros t [-> _]%ok_or_Ok%checked_sub_Some. do 2 forget. apply ensures_Ok.
  split_and!; simpl; [done|done|by rewrite K2].
Qed.

(** ** The engines *)

#[local] Hint Extern 1 (keeps_books _) =>
  (let q := fresh in intros q; ensure_walk; solve [by split_and! | assumption]) : ensures.
#[local] Hint Resolve on_sub_vault_booked modify_sub_vault_booked expand_vault_booked reserve_fill_booked
  append_sub_vault_booked remove_sub_vault_sound insert_order_ref_booked remove_order_ref_booked : ensures.

Definition owed (vo : option Vault) : Prop := optional sound vo.

Lemma ensures_owed vo e : owed vo → ensures (ok_or vo e) sound.
Proof. intros Ho a H%ok_or_Ok. by subst vo. Qed.
#[local] Hint Resolve ensures_owed : ensures.

Lemma fill_ask_owed args st v maker id cap cap_bps matched coll : sound v →
  ensures (fill_ask args st v maker id cap cap_bps matched coll) (λ r', owed (ms_vault r')).
Proof. intros Hv. unfold fill_ask. cbv zeta. ensure_walk. assumption. Qed.
#[local] Hint Resolve fill_ask_owed : ensures.

Definition step_owed {S} (Q : S → Prop) (st : ScanStep S) : Prop :=
  match st with Filled r => Q r | _ => True end.

Lemma match_maker_owed args st maker : owed (ms_vault st) →
  ensures (match_maker args st maker) (step_owed (λ r', owed (ms_vault r'))).
Proof.
  intros Hv. unfold match_maker. cbv zeta. destruct (ms_vault st) eqn:E; ensure_walk; simpl; done.
Qed.

Lemma match_loop_owed fuel args st current : owed (ms_vault st) →
  ensures (match_loop fuel args st current) (λ r', owed (ms_vault r')).
Proof.
  revert st current. induction fuel as [|fuel IH]; intros st current Hs; cbn [match_loop];
    (ensure_step; [|by apply ensures_Ok]); [apply ensures_Err|]. forget.
  apply ensures_bind. eapply ensures_mono; [by apply match_maker_owed|].
  intros [| |r1] Hs1; [forget; by apply IH|by apply ensures_Ok|forget; by apply IH].
Qed.

Lemma match_order_owed m args vo : owed vo → ensures (match_order m args vo) (λ '(_, vo', _), owed vo').
Proof.
  intros Hv. unfold match_order. apply ensures_bind. eapply ensures_mono; [by apply match_loop_owed|].
  intros st Hst. by apply ensures_Ok.
Qed.
#[local] Hint Resolve match_order_owed : ensures.

Lemma match_borrower_bid_owed m args vo : owed vo →
  ensures (match_borrower_bid m args vo) (λ '(_, vo', _), owed vo').
Proof. intros Hv. unfold match_borrower_bid. cbv zeta. ensure_walk; assumption. Qed.

Lemma refinance_fill_owed args st v maker id cap matched : sound v →
  ensures (refinance_fill args st v maker id cap matched) (λ r', owed (rs_vault r')).
Proof. intros Hv. unfold refinance_fill. cbv zeta. ensure_walk. assumption. Qed.
#[local] Hint Resolve refinance_fill_owed : ensures.

Lemma refinance_maker_owed args st maker : owed (rs_vault st) →
  ensures (refinance_maker args st maker) (step_owed (λ r', owed (rs_vault r'))).
Proof.
  intros Hv. unfold refinance_maker. cbv zeta. destruct (rs_vault st) eqn:E; ensure_walk; simpl; done.
Qed.

Lemma refinance_loop_owed fuel args st current : owed (rs_vault st) →
  ensures (refinance_loop fuel args st current) (λ r', owed (rs_vault r')).
Proof.
  revert st current. induction fuel as [|fuel IH]; intros st current Hs; cbn [refinance_loop];
    (ensure_step; [|by apply ensures_Ok]); [apply ensures_Err|]. forget.
  apply ensures_bind. eapply ensures_mono; [by apply refinance_maker_owed|].
  intros [| |r1] Hs1; [forget; by apply IH|by apply ensures_Ok|forget; by apply IH].
Qed.

Lemma fill_bid_owed args st current bid fill c cap : sound (bs_vault st) →
  ensures (fill_bid args st current bid fill c cap) (λ r', sound (bs_vault r')).
Proof. intros Hv. unfold fill_bid. cbv zeta. ensure_walk; assumption. Qed.
Lemma prune_bid_owed st current bid : sound (bs_vault st) →
  ensures (prune_bid st current bid) (λ r', sound (bs_vault r')).
Proof. intros Hv. unfold prune_bid. ensure_walk. assumption. Qed.
#[local] Hint Resolve fill_bid_owed prune_bid_owed : ensures.

Lemma match_bid_owed args st current bid : sound (bs_vault st) →
  ensures (match_bid args st current bid) (step_owed (λ r', sound (bs_vault r'))).
Proof. intros Hv. unfold match_bid. cbv zeta. ensure_walk; simpl; done. Qed.

Lemma bids_loop_owed fuel args st current : sound (bs_vault st) →
  ensures (bids_loop fuel args st current) (λ r', sound (bs_vault r')).
Proof.
  revert st current. induction fuel as [|fuel IH]; intros st current Hs; cbn [bids_loop];
    (ensure_step; [|by apply ensures_Ok]); [apply ensures_Err|]. do 2 forget.
  apply ensures_bind. eapply ensures_mono; [by apply match_bid_owed|].
  intros [| |r1] Hs1; [by apply IH|by apply ensures_Ok|by apply IH].
Qed.

(** ** The handlers of a market *)

Section handlers.
Context (invoke_signed : MarginfiIx → list AccountInfo → result (list AccountInfo)).
Context (invoke_token : TokenIx → list AccountInfo → result (list AccountInfo)).
Context (parse : list Z → option StakeState) (now : Z).
Implicit Types (w : World) (m : Market).

Definition keeps_owed (f : World → result World) : Prop :=
  ∀ w, owed (wd_vault w) → ensures (f w) (λ w', owed (wd_vault w')).

Lemma claim_seat_owed k payer : keeps_owed (process_claim_seat k payer).
Proof. intros w Hv. unfold process_claim_seat. ensure_walk. assumption. Qed.
Lemma deposit_owed ctx n h : keeps_owed (process_deposit invoke_signed invoke_token ctx n h).
Proof. intros w Hv. unfold process_deposit. cbv zeta. ensure_walk. assumption. Qed.
Lemma withdraw_owed ctx n h b : keeps_owed (process_withdraw invoke_signed invoke_token ctx n h b).
Proof. intros w Hv. unfold process_withdraw. cbv zeta. ensure_walk; assumption. Qed.

Lemma place_order_owed ctx fb pp : keeps_owed (process_place_order parse now invoke_signed ctx fb pp).
Proof.
  intros w Hv. unfold process_place_order. cbv zeta. do 7 forget. apply ensures_bind.
  eapply ensures_mono; [by apply match_borrower_bid_owed|]. intros [[m3 v3] r] Hv3. do 3 forget.
  by apply ensures_Ok.
Qed.

Lemma cancel_order_owed k payer q h : keeps_owed (process_cancel_order k payer q h).
Proof. intros w Hv. unfold process_cancel_order. ensure_walk. assumption. Qed.
Lemma update_order_owed k payer uo : keeps_owed (process_update_order now k payer uo).
Proof. intros w Hv. unfold process_update_order. ensure_walk. assumption. Qed.
Lemma sync_owed k o : keeps_owed (process_sync_market_position k o).
Proof. intros w Hv. unfold process_sync_market_position. ensure_walk. assumption. Qed.

(** The life cycle of a loan. *)
Lemma do_vault_settle_owed ctx n se r c id : keeps_owed
  (do_vault_settle invoke_signed invoke_token ctx now n se r c id).
Proof. intros w Hv. unfold do_vault_settle. cbv zeta. ensure_walk; assumption. Qed.

Lemma promotion_owed ctx q :
  keeps_owed (process_primary_promotion invoke_signed invoke_token ctx now q).
Proof.
  intros w Hv. unfold process_primary_promotion. cbv zeta. do 9 forget.
  apply ensures_bind. apply ensures_mono with (λ w', owed (wd_vault w')).
  - ensure_step; [|by apply ensures_Ok]. forget. by apply do_vault_settle_owed.
  - intros w' Hv'. do 3 forget. by apply ensures_Ok.
Qed.

Lemma close_out_vault_owed sid bank c : keeps_owed (λ w, close_out_vault w sid bank c now).
Proof. intros w Hv. unfold close_out_vault. ensure_walk. assumption. Qed.
Lemma sync_position_owed k o : keeps_owed (λ w, sync_position w k o).
Proof. intros w Hv. unfold sync_position. ensure_walk. assumption. Qed.
Lemma drop_open_loan_ref_owed k : keeps_owed (λ w, drop_open_loan_ref w k).
Proof. intros w Hv. unfold drop_open_loan_ref. ensure_walk. assumption. Qed.

Lemma repay_p2pool_owed ctx pr loan :
  keeps_owed (λ w, repay_p2pool invoke_signed invoke_token ctx now pr w loan).
Proof.
  intros w Hv. unfold repay_p2pool. cbv zeta. do 17 forget. apply ensures_bind.
  eapply ensures_mono; [by apply sync_position_owed|].
  intros w1 Hv1. ensure_step; [|by apply ensures_Ok]. forget.
  apply ensures_bind. eapply ensures_mono; [by apply drop_open_loan_ref_owed|].
  intros w2 Hw2. by apply ensures_Ok.
Qed.

Lemma repay_fixed_owed ctx pr loan :
  keeps_owed (λ w, repay_fixed invoke_signed invoke_token ctx now pr w loan).
Proof.
  intros w Hv. unfold repay_fixed. cbv zeta. do 8 forget.
  apply ensures_bind, ensures_mono with (λ w', owed (wd_vault w')).
  { ensure_step; [by apply close_out_vault_owed|by apply ensures_Ok]. }
  intros w1 Hw1. apply ensures_bind. eapply ensures_mono; [by apply sync_position_owed|].
  intros w2 Hw2. ensure_step; [|by apply ensures_Ok]. apply ensures_bind.
  eapply ensures_mono; [by apply drop_open_loan_ref_owed|]. intros w3 Hw3. by apply ensures_Ok.
Qed.

Lemma repay_owed ctx pr : keeps_owed (process_repay invoke_signed invoke_token ctx now pr).
Proof.
  intros w Hw. unfold process_repay. do 6 forget.
  ensure_step; [by apply repay_fixed_owed|by apply repay_p2pool_owed].
Qed.

Lemma keeper_close_out_owed ctx loan ty pm : keeps_owed (λ w, keeper_close_out ctx now w loan ty pm).
Proof.
  intros w Hv. unfold keeper_close_out. cbv zeta.
  apply ensures_bind, ensures_mono with (λ w', owed (wd_vault w')).
  - ensure_step; [|by apply ensures_Ok]. do 3 forget.
    ensure_step; [by apply close_out_vault_owed|by apply ensures_Ok].
  - intros w1 Hw1. apply ensures_Ok. by destruct (pm_full pm).
Qed.

Lemma settle_owed ctx data :
  keeps_owed (process_settle_matured_loan invoke_signed invoke_token ctx now data).
Proof.
  intros w Hv. unfold process_settle_matured_loan. cbv zeta. do 18 forget. by apply keeper_close_out_owed.
Qed.

Lemma liquidate_owed ctx data :
  keeps_owed (process_liquidate_loan invoke_signed invoke_token parse ctx now data).
Proof.
  intros w Hv. unfold process_liquidate_loan. cbv zeta. do 14 forget. by apply keeper_close_out_owed.
Qed.

Lemma deploy_crosses_sound bank cs v : sound v → ensures (deploy_crosses now v bank cs) sound.
Proof.
  revert v. induction cs as [|c cs IH]; intros v Hv; cbn [deploy_crosses]; [by apply ensures_Ok|].
  apply ensures_bind. eapply ensures_mono; [apply on_sub_vault_booked; [exact Hv|]|].
  - intros s. ensure_walk. assumption.
  - intros v' Hv'. by apply IH.
Qed.

Lemma convert_owed ctx rate buffer :
  keeps_owed (process_convert_p2pool_to_fixed invoke_signed parse ctx now rate buffer).
Proof.
  intros w Hv. unfold process_convert_p2pool_to_fixed. cbv zeta. do 15 forget.
  apply ensures_bind. eapply ensures_mono; [by apply refinance_loop_owed|].
  intros r Hr. do 7 forget. apply ensures_bind. eapply ensures_mono; [by apply ensures_owed|].
  intros v Hv'. apply ensures_bind. eapply ensures_mono; [by apply deploy_crosses_sound|].
  intros v' Hv''. by apply ensures_Ok.
Qed.

(** Claims. *)
Lemma claim_repayment_owed ctx sid :
  keeps_owed (process_claim_repayment_for_sub_vault invoke_signed invoke_token ctx sid).
Proof.
  intros w Hv. unfold process_claim_repayment_for_sub_vault. cbv zeta. ensure_walk; assumption.
Qed.

(** ** The handlers of the book *)

Definition book_owed (f : Market → Vault → result (Market * Vault)) : Prop :=
  ∀ m v, sound v → ensures (f m v) (λ '(_, v'), sound v').

Lemma take_resting_bids_owed ctx l x n m v : sound v →
  ensures (take_resting_bids parse now ctx l x n m v) (λ '(_, v', _), sound v').
Proof.
  intros Hv. unfold take_resting_bids, match_resting_bids. cbv zeta. forget.
  ensure_step; [by apply ensures_Ok|]. do 4 forget. apply ensures_bind.
  eapply ensures_mono; [by apply bids_loop_owed|]. intros r Hr. by apply ensures_Ok.
Qed.

Lemma record_order_ref_sound v mk id rate term seq : sound v →
  ensures (record_order_ref now v mk id rate term seq) sound.
Proof.
  intros Hv. unfold record_order_ref. apply ensures_bind.
  eapply ensures_mono; [by apply expand_vault_booked|]. intros v1 Hv1. apply ensures_fmap.
  eapply ensures_mono; [by apply insert_order_ref_booked|]. by intros [v2 i].
Qed.

Lemma place_for_sub_vault_owed ctx k c sid fl l :
  book_owed (process_place_order_for_sub_vault parse now ctx k c sid fl l).
Proof.
  intros m v Hv. unfold process_place_order_for_sub_vault. cbv zeta. do 6 forget. apply ensures_bind.
  eapply ensures_mono; [by apply take_resting_bids_owed|]. intros [[m3 v3] n] Hv3.
  apply ensures_bind. eapply ensures_mono; [by apply record_order_ref_sound|]. intros v4 Hv4.
  by apply ensures_Ok.
Qed.

Lemma update_for_sub_vault_owed ctx k c sid fl l :
  book_owed (process_update_order_for_sub_vault parse now ctx k c sid fl l).
Proof.
  intros m v Hv. unfold process_update_order_for_sub_vault. cbv zeta. do 10 forget.
  apply ensures_bind. eapply ensures_mono; [by apply remove_order_ref_booked|]. intros [v1 j] Hv1.
  apply ensures_bind. eapply ensures_mono; [by apply record_order_ref_sound|]. intros v2 Hv2.
  apply ensures_bind. eapply ensures_mono; [by apply take_resting_bids_owed|]. intros [[m3 v3] n] Hv3.
  by apply ensures_Ok.
Qed.

Lemma cancel_sub_vault_ask_owed gate k mk sid : book_owed (cancel_sub_vault_ask gate k mk sid).
Proof.
  intros m v Hv. unfold cancel_sub_vault_ask. do 7 forget. apply ensures_bind.
  eapply ensures_mono; [by apply remove_order_ref_booked|]. intros [v1 j] Hv1. forget.
  by apply ensures_Ok.
Qed.

Lemma crank_walk_owed ctx l floor budget n asks m v : sound v →
  ensures (crank_walk parse now ctx l floor budget n asks m v) (λ '(_, v', _), sound v').
Proof.
  revert budget n m v. induction asks as [|x asks IH]; intros budget n m v Hv;
    cbn [crank_walk]; [by apply ensures_Ok|]. ensure_step; [by apply ensures_Ok|]. apply ensures_bind.
  apply ensures_mono with (λ '(_, v', _), sound v').
  - unfold crank_ask. ensure_step; [by apply ensures_Ok|]. forget.
    ensure_step; [by apply ensures_Ok|]. forget. by apply take_resting_bids_owed.
  - intros [[m1 v1] k] Hv1. by apply IH.
Qed.

Lemma match_crank_owed ctx n l m v : sound v →
  ensures (process_match_crank parse now ctx n l m v) (λ '(_, v', _), sound v').
Proof. intros Hv. unfold process_match_crank. do 3 forget. by apply crank_walk_owed. Qed.

Lemma on_book_owed w f : owed (wd_vault w) → book_owed f →
  ensures (on_book w f) (λ w', owed (wd_vault w')).
Proof.
  intros Hv Hf. unfold on_book, the_vault. apply ensures_bind.
  eapply ensures_mono; [by apply ensures_owed|]. intros v Hv'. apply ensures_bind.
  eapply ensures_mono; [by apply Hf|]. intros [m' v'] Hv''. by apply ensures_Ok.
Qed.

Lemma process_market_ix_owed pdas k g (ix : MarketIx) :
  keeps_owed (process_market_ix invoke_signed invoke_token parse pdas now k g ix).
Proof.
  intros w Hw. destruct ix; simpl;
    try (unfold on_market; forget; by apply ensures_Ok); forget.
  - by apply claim_seat_owed.
  - by apply deposit_owed.
  - by apply withdraw_owed.
  - by apply place_order_owed.
  - by apply cancel_order_owed.
  - by apply update_order_owed.
  - forget. by apply sync_owed.
  - by apply promotion_owed.
  - by apply repay_owed.
  - by apply settle_owed.
  - by apply liquidate_owed.
  - forget. by apply ensures_Ok.
  - forget. by apply ensures_Ok.
  - by apply convert_owed.
  - apply on_book_owed; [done|]. apply place_for_sub_vault_owed.
  - apply on_book_owed; [done|]. apply update_for_sub_vault_owed.
  - apply on_book_owed; [done|]. apply cancel_sub_vault_ask_owed.
  - apply on_book_owed; [done|]. apply cancel_sub_vault_ask_owed.
  - apply on_book_owed; [done|]. intros m v Hv. apply ensures_bind.
    eapply ensures_mono; [by apply match_crank_owed|]. intros [[m' v'] n] Hmv.
    by apply ensures_Ok.
  - by apply claim_repayment_owed.
  - forget. by apply ensures_Ok.
Qed.
End handlers.

(** ** The handlers of a vault *)

Section vaults.
Context (invoke_signed : MarginfiIx → list AccountInfo → result (list AccountInfo)).
Context (invoke_token : TokenIx → list AccountInfo → result (list AccountInfo)).
Context (now : Z).
Implicit Types (g : GlobalConfig).

Lemma open_vault_sound v : sound v → ensures (open_vault v) sound.
Proof. intros Hv. unfold open_vault. by ensure_walk. Qed.
Hint Resolve open_vault_sound : ensures.
Lemma load_vault_admin_sound g payer v : sound v → ensures (load_vault_admin g payer v) sound.
Proof. intros Hv. unfold load_vault_admin. by ensure_walk. Qed.
Lemma load_remove_sound g payer v : sound v → ensures (load_remove_sub_vault g payer v) sound.
Proof. intros Hv. unfold load_remove_sub_vault. by ensure_walk. Qed.
Lemma load_mutation_sound g v : sound v → ensures (load_sub_vault_mutation g v) sound.
Proof. intros Hv. unfold load_sub_vault_mutation. by ensure_walk. Qed.
Lemma load_create_pool_sound g payer v : sound v → ensures (load_create_pool_sub_vault g payer v) sound.
Proof. intros Hv. unfold load_create_pool_sub_vault. by ensure_walk. Qed.
Hint Resolve load_vault_admin_sound load_remove_sound load_mutation_sound
  load_create_pool_sound : ensures.

(** Sub-vault first, seat second: the minted shares are pending in between. *)
Lemma vault_deposit_sound ctx n sid v u l : sound v →
  ensures (process_global_vault_deposit invoke_signed invoke_token ctx now n sid v u l)
    (λ '(v', _, _), sound v').
Proof.
  intros Hv. unfold process_global_vault_deposit. do 2 forget. apply ensures_bind.
  eapply ensures_mono; [by apply expand_vault_booked|]. intros v1 Hv1. forget.
  apply ensures_bind.
  eapply ensures_mono.
  { apply (on_sub_vault_with_booked [] v1 sid _ snd (λ x, 0 < x.2) Hv1). intros p. apply ensures_bind.
    eapply ensures_mono; [apply deposit_into_sub_vault_issued|]. intros [s k] Hsk. by apply ensures_Ok. }
  intros [v2 [s k]] (Hv2 & Hk & Hpos). simpl in Hv2, Hpos. apply ensures_bind.
  eapply ensures_mono; [by apply upsert_seat_booked|]. intros [v3 j] (Hv3 & x & Hx & [= Ho Hid]).
  apply ensures_bind. eapply ensures_mono.
  { apply (modify_seat_booked [] v3 j x _ k Hx); [by rewrite Hid|]. unfold credit_depositor_seat.
    apply ensures_bind. intros t [-> _]%ok_or_Ok%checked_add_Some. apply ensures_Ok.
    split_and!; [done|done|]. simpl. pose proof (booked_nonneg _ _ _ _ _ Hv3 Hx). lia. }
  intros v4 (Hv4 & x' & Hx' & Hg). do 2 forget. apply ensures_Ok.
  apply (booked_positive _ _ _ _ _ Hv4 Hg). unfold credit_depositor_seat in Hx'.
  apply bind_Ok in Hx' as (t & [-> _]%ok_or_Ok%checked_add_Some & [= <-]). simpl.
  pose proof (booked_nonneg _ _ _ _ _ Hv3 Hx). lia.
Qed.

Lemma clear_dust_booked ps N v id n : booked ps N v → ensures (clear_dust v id n) (booked ps N).
Proof.
  intros Hv. unfold clear_dust. ensure_step; [|by apply ensures_Ok]. forget.
  ensure_step; [|by apply ensures_Ok]. apply modify_sub_vault_booked; [done|]. intros p. by apply ensures_Ok.
Qed.

Lemma vault_withdraw_sound ctx n sid v u l : sound v →
  ensures (process_global_vault_withdraw invoke_signed invoke_token ctx now n sid v u l)
    (λ '(v', _, _), sound v').
Proof.
  intros Hv. unfold process_global_vault_withdraw. cbv zeta. do 6 forget. apply ensures_bind.
  eapply ensures_mono.
  { apply (on_sub_vault_with_booked [] v sid _ (λ _, - n) (λ _, True) Hv). intros p. do 4 forget.
    apply ensures_bind. eapply ensures_mono; [apply withdraw_from_sub_vault_issued|].
    intros [s k] Hsk. by apply ensures_Ok. }
  intros [v2 [t out]] (Hv2 & _ & _). forget. apply ensures_bind.
  eapply ensures_mono; [by apply clear_dust_booked|]. intros v3 Hv3. do 2 forget.
  apply ensures_bind. intros j Hj. apply ensures_bind. intros [] Hn%require_Ok%negb_true_iff%Z.eqb_neq.
  destruct (booked_seat _ _ _ _ _ _ Hv3 Hj Hn) as (x & Hx & Hk). pose proof Hk as [= Ho Hid].
  apply ensures_bind. eapply ensures_mono.
  { apply (modify_seat_booked [] v3 j x _ (- n) Hx).
    - rewrite Hid. eapply booked_more; [|exact Hv3]. by intros ? ?%elem_of_nil.
    - unfold debit_depositor_seat. apply ensures_bind. intros t' [-> Ht]%ok_or_Ok%checked_sub_Some.
      apply ensures_Ok. split_and!; [done|simpl; lia|simpl; lia]. }
  intros v4 (Hv4 & x' & Hx' & Hg). apply ensures_bind. intros y Hy. rewrite Hg in Hy. injection Hy as <-.
  assert (seat_key x' = (vc_payer ctx, sid)) as Hk'.
  { rewrite <- Hk. unfold debit_depositor_seat in Hx'.
    by apply bind_Ok in Hx' as (t' & _ & [= <-]). }
  apply ensures_bind, ensures_mono with sound.
  - destruct (Z.eqb_spec (ds_shares x') 0) as [H0|H0].
    + apply ensures_fmap. eapply ensures_mono; [apply (remove_seat_booked _ _ _ _ _ _ Hv4 Hg Hk' H0)|].
      by intros [v5 k].
    + apply ensures_Ok. by apply (booked_positive _ _ _ _ _ Hv4 Hg).
  - intros v5 Hv5. forget. by apply ensures_Ok.
Qed.

Lemma claim_curator_fee_sound ctx sid v l : sound v →
  ensures (process_claim_curator_fee invoke_signed invoke_token ctx sid v l) (λ '(v', _), sound v').
Proof. intros Hv. unfold process_claim_curator_fee. cbv zeta. ensure_walk; assumption. Qed.

(** A gate, then an update of one sub-vault. *)
Lemma sound_fixed v f : sound v →
  (∀ x, gv_sub_vaults_root_index (f x) = gv_sub_vaults_root_index x
    ∧ gv_claimed_seats_root_index (f x) = gv_claimed_seats_root_index x
    ∧ gv_market_orders_root_index (f x) = gv_market_orders_root_index x
    ∧ gv_sub_vault_free_list_head_index (f x) = gv_sub_vault_free_list_head_index x
    ∧ gv_node_free_list_head_index (f x) = gv_node_free_list_head_index x
    ∧ gv_num_bytes_allocated (f x) = gv_num_bytes_allocated x ∧ vault_counts (f x) = vault_counts x) →
  sound (v <| vt_fixed ::= f |>).
Proof.
  intros Hv Hf. destruct (Hf (vt_fixed v)) as (? & ? & ? & ? & ? & ? & ?). by apply booked_fixed.
Qed.

Lemma process_vault_ix_sound g ix v u l : sound v →
  ensures (process_vault_ix invoke_signed invoke_token now g ix v u l) sound.
Proof.
  intros Hv. destruct ix; simpl.
  - unfold process_create_pool_sub_vault. ensure_walk; assumption.
  - unfold process_create_private_sub_vault. ensure_walk; assumption.
  - unfold process_update_sub_vault. ensure_walk; assumption.
  - unfold process_sunset_sub_vault. ensure_walk; assumption.
  - unfold process_resume_sub_vault. ensure_walk; assumption.
  - unfold process_remove_sub_vault. ensure_walk; assumption.
  - forget. apply ensures_bind. eapply ensures_mono; [by apply vault_deposit_sound|].
    intros [[v1 u1] l1] Hv1. by apply ensures_Ok.
  - forget. apply ensures_bind. eapply ensures_mono; [by apply vault_withdraw_sound|].
    intros [[v1 u1] l1] Hv1. by apply ensures_Ok.
  - forget. apply ensures_bind. eapply ensures_mono; [by apply claim_curator_fee_sound|].
    intros [v1 l1] Hv1. by apply ensures_Ok.
  - unfold process_transfer_global_vault_admin. ensure_walk. by apply sound_fixed.
  - unfold process_accept_global_vault_admin. cbv zeta. ensure_walk. by apply booked_fixed.
  - unfold process_transfer_curator. ensure_walk; assumption.
  - unfold process_accept_curator. ensure_walk; assumption.
  - unfold process_set_vault_pause. ensure_walk. by apply sound_fixed.
Qed.
End vaults.

(** ** The chain *)

Definition vaults_sound (s : System) : Prop := map_Forall (λ _ v, sound v) (sy_vaults s).

Lemma step_vaults_kept env (s s' : System) : step env s s' → vaults_sound s → vaults_sound s'.
Proof.
  intros Hs Hp.
  destruct Hs as [k b u l now g i w w' _ _ Hi Ho Hr|key u l now g i v v' _ _ Ho Hr|g i g' _ _
    |g payer k d c par m _ _ Hr|key g payer mint a b c d e v _ _ Hr|]; try exact Hp.
  - unfold open_world in Ho. apply bind_Some in Ho as (m & _ & Ho).
    apply bind_Some in Ho as (vo & Evo & [= <-]). unfold vaults_sound, close_world. simpl.
    assert (owed (wd_vault w')) as Hw'.
    { refine (process_market_ix_owed _ _ _ _ _ _ _ _ _ _ _ Hr). simpl.
      destruct b; [|by injection Evo as <-]. apply bind_Some in Evo as (v & Ev & [= <-]).
      by apply (Hp _ _ Ev). }
    destruct (wd_vault w'); [by apply map_Forall_insert_2|done].
  - apply map_Forall_insert_2; [|done].
    apply (process_vault_ix_sound _ _ _ _ _ _ _ _ (Hp _ _ Ho) _ Hr).
  - apply map_Forall_insert_2; [|done].
    revert v Hr. change (ensures (process_create_vault g payer mint a b c d e) sound).
    unfold process_create_vault. do 2 forget. apply ensures_Ok, new_vault_sound.
Qed.

Lemma reachable_sound env (s : System) : reachable env s → vaults_sound s.
Proof. apply reachable_invariant; [apply map_Forall_empty|]. intros ? ?. apply step_vaults_kept. Qed.

(** ** What the books say of the blocks of the account *)

(** A sum over every block of the account. *)
Definition block_total (g : VaultBlock → Z) v : Z := map_fold (λ _ b n, g b + n) 0 (vt_dynamic v).

(** The shares of sub-vault [id] held by all seats, and the references to its orders. *)
Definition shares_held v id : Z :=
  block_total (λ b, match b with
    | VB_seat n => if ds_sub_vault_id (rb_value n) =? id then ds_shares (rb_value n) else 0
    | _ => 0 end) v.
Definition orders_referring v id : Z :=
  block_total (λ b, match b with
    | VB_order n => if or_sub_vault_id (rb_value n) =? id then 1 else 0
    | _ => 0 end) v.
Definition sub_vault_blocks v : Z := block_total (λ b, match b with VB_sub_vault _ => 1 | _ => 0 end) v.
Definition seat_blocks v : Z := block_total (λ b, match b with VB_seat _ => 1 | _ => 0 end) v.
Definition order_blocks v : Z := block_total (λ b, match b with VB_order _ => 1 | _ => 0 end) v.

(** A sum over the blocks is one over the listing of those that count. *)
Lemma fold_listing {A} (g : VaultBlock → Z) (f : Z * A → Z) E (d : Region VaultBlock) : NoDup E.*1 →
  (∀ e, e ∈ E → ∃ b, d !! e.1 = Some b ∧ g b = f e) →
  (∀ i b, d !! i = Some b → i ∉ E.*1 → g b = 0) →
  map_fold (λ _ b n, g b + n) 0 d = total f E.
Proof.
  revert d. induction E as [|[i x] E IH]; intros d Hn Hin Hout.
  - simpl. revert Hout. apply (map_fold_weak_ind (λ n d, (∀ i b, d !! i = Some b → i ∉ [] → g b = 0) → n = 0)).
    + done.
    + intros i b d' n Hi IH H. rewrite (H i b (lookup_insert_eq _ _ _) (not_elem_of_nil _)). apply IH.
      intros j c Hj Hc. apply (H j c); [|done]. rewrite lookup_insert_ne; [done|]. intros ->. by rewrite Hi in Hj.
  - apply NoDup_cons in Hn as [Hi Hn]. destruct (Hin (i, x) ltac:(left)) as (b & Hb & Hg).
    rewrite (map_fold_delete_L _ _ i b); [|intros; lia|done]. rewrite (IH (delete i d)); [simpl; lia|done|..].
    + intros e He. destruct (Hin e ltac:(by right)) as (c & Hc & Hgc). exists c. split; [|done].
      rewrite lookup_delete_ne; [done|]. intros E0. apply Hi. apply list_elem_of_fmap. by exists e.
    + intros j c [Hj Hc]%lookup_delete_Some Hne. apply (Hout j c Hc). by intros [?|?]%elem_of_cons.
Qed.

Section sums.
Context {v : Vault} {V : list (Z * SubVault)} {D : list (Z * SubVaultDepositorSeat)}.
Context {O : list (Z * SubVaultOrderRef)} {F G : list Z} (H : vault_store [] [] v V D O F G).

(** The three kinds of block, summed over their listings. *)
Lemma sub_vault_total (h : SubVault → Z) :
  block_total (λ b, match b with VB_sub_vault n => h (rb_value n) | _ => 0 end) v = total (λ e, h e.2) V.
Proof.
  pose proof (vi_sub_vaults _ _ _ _ _ _ (vs_inv _ _ _ _ _ _ _ _ H)) as Ht.
  apply fold_listing; [by apply (tree_inv_nodup _ _ _ Ht)|..].
  - intros [i x] Hx. destruct (tree_inv_block _ _ _ _ _ Ht Hx) as (_ & n & Hn & <-). by eexists.
  - intros i [?|n|?|?] Hb Hi; [done| |done|done]. destruct Hi.
    apply list_elem_of_fmap. eexists. split; [|exact (store_sub_vault H i n Hb)]. done.
Qed.

Lemma seat_total (h : SubVaultDepositorSeat → Z) :
  block_total (λ b, match b with VB_seat n => h (rb_value n) | _ => 0 end) v = total (λ e, h e.2) D.
Proof.
  pose proof (vi_seats _ _ _ _ _ _ (vs_inv _ _ _ _ _ _ _ _ H)) as Ht.
  apply fold_listing; [by apply (tree_inv_nodup _ _ _ Ht)|..].
  - intros [i x] Hx. destruct (tree_inv_block _ _ _ _ _ Ht Hx) as (_ & n & Hn & <-). by eexists.
  - intros i [?|?|n|?] Hb Hi; [done|done| |done]. destruct Hi.
    apply list_elem_of_fmap. eexists. split; [|exact (store_depositor H i n Hb)]. done.
Qed.

Lemma order_total (h : SubVaultOrderRef → Z) :
  block_total (λ b, match b with VB_order n => h (rb_value n) | _ => 0 end) v = total (λ e, h e.2) O.
Proof.
  pose proof (vi_orders _ _ _ _ _ _ (vs_inv _ _ _ _ _ _ _ _ H)) as Ht.
  apply fold_listing; [by apply (tree_inv_nodup _ _ _ Ht)|..].
  - intros [i x] Hx. destruct (tree_inv_block _ _ _ _ _ Ht Hx) as (_ & n & Hn & <-). by eexists.
  - intros i [?|?|?|n] Hb Hi; [done|done|done|]. destruct Hi.
    apply list_elem_of_fmap. eexists. split; [|exact (store_order_ref H i n Hb)]. done.
Qed.
End sums.

Lemma total_one {A} (E : list (Z * A)) : total (λ _, 1) E = Z.of_nat (length E).
Proof.
  induction E as [|e E IH]; [done|]. change (1 + total (λ _, 1) E = Z.of_nat (S (length E))). lia.
Qed.

(** The books, read off the account. *)
Lemma sound_counts v : sound v → gv_sub_vault_count (vt_fixed v) = sub_vault_blocks v
  ∧ gv_claimed_seat_count (vt_fixed v) = seat_blocks v ∧ gv_open_order_count (vt_fixed v) = order_blocks v.
Proof.
  intros (V & D & O & F & G & Hs & Hl). unfold sub_vault_blocks, seat_blocks, order_blocks.
  rewrite (sub_vault_total Hs (λ _, 1)), (seat_total Hs (λ _, 1)), (order_total Hs (λ _, 1)), !total_one.
  by destruct Hl.
Qed.

Lemma sound_sub_vault v i p : sound v → get_sub_vault v i = Ok p →
  lookup_sub_vault v (sv_sub_vault_id p) = Ok i
  ∧ sv_total_shares p = shares_held v (sv_sub_vault_id p)
  ∧ sv_open_orders_count p = orders_referring v (sv_sub_vault_id p).
Proof.
  intros (V & D & O & F & G & Hs & Hl) Hp. pose proof (get_sub_vault_store Hs i p Hp) as Hi. split_and!.
  - destruct (lookup_sub_vault_inv _ _ _ _ _ _ (sv_sub_vault_id p) (vs_inv _ _ _ _ _ _ _ _ Hs))
      as (j & -> & Hfound & Hnone). f_equal.
    destruct (Hfound ltac:(intros ->; by apply (Hnone i p))) as (q & Hq & Hid).
    by apply (lg_ids _ _ _ _ _ _ Hl j q i p).
  - pose proof (lg_shares _ _ _ _ _ _ Hl _ Hi) as E. simpl in E. rewrite E. unfold settled, shares_held.
    rewrite (seat_total Hs (λ d, if ds_sub_vault_id d =? _ then ds_shares d else 0)). apply Z.add_0_r.
  - pose proof (lg_orders _ _ _ _ _ _ Hl _ Hi) as E. simpl in E. rewrite E. unfold orders_referring.
    by rewrite (order_total Hs (λ o, if or_sub_vault_id o =? _ then 1 else 0)).
Qed.

Lemma sound_seat v i d : sound v → get_depositor_seat v i = Ok d →
  0 < ds_shares d ∧ lookup_depositor_seat v (ds_owner d) (ds_sub_vault_id d) = Ok i
  ∧ ∃ j p, get_sub_vault v j = Ok p ∧ sv_sub_vault_id p = ds_sub_vault_id d ∧ ds_shares d <= sv_total_shares p.
Proof.
  intros (V & D & O & F & G & Hs & Hl) Hd. pose proof (get_depositor_store Hs i d Hd) as Hi.
  split_and!; [by apply (lg_positive _ _ _ _ _ _ Hl _ Hi (not_elem_of_nil _))|..].
  - destruct (lookup_tree_inv (λ _, True) _ _ (depositor_seat_probe (ds_owner d) (ds_sub_vault_id d))
      (vi_seats _ _ _ _ _ _ (vs_inv _ _ _ _ _ _ _ _ Hs)) I) as (j & Hj & _).
    change (lookup_depositor_seat v (ds_owner d) (ds_sub_vault_id d) = Ok j) in Hj.
    destruct (lookup_depositor_store Hs _ _ _ Hj) as [Hfound Hnone]. rewrite Hj. f_equal.
    destruct (Hfound ltac:(intros ->; by apply (Hnone eq_refl i d))) as (x & Hx & Ho & Hid).
    apply (lg_seats _ _ _ _ _ _ Hl j x i d); [done|done|unfold seat_key; congruence].
  - destruct (lg_seat_listed _ _ _ _ _ _ Hl _ Hi) as ([j p] & Hj & Hid). exists j, p.
    split_and!; [by apply (get_sub_vault_inv _ _ _ _ _ _ _ _ (vs_inv _ _ _ _ _ _ _ _ Hs))|done|].
    pose proof (lg_shares _ _ _ _ _ _ Hl _ Hj) as Hsum. simpl in Hid, Hsum. rewrite Hid in Hsum.
    unfold settled in Hsum. apply list_elem_of_split in Hi as (D1 & D2 & ->).
    rewrite total_insert in Hsum. assert (0 <= total (held (ds_sub_vault_id d)) (D1 ++ D2)).
    { apply total_nonneg. intros e He. unfold held. apply in_without with (a := (i, d)) in He.
      pose proof (lg_nonneg _ _ _ _ _ _ Hl e He). case_match; lia. }
    unfold held at 2 in Hsum. simpl in Hsum. rewrite Z.eqb_refl in Hsum. lia.
Qed.

(** ** The property *)

(** A lender deposits a thousand atoms into its private sub-vault, with a marginfi that
    credits what it is given at par and a token program that moves it. *)
Definition lender_marginfi (ix : MarginfiIx) (accounts : list AccountInfo) : result (list AccountInfo) :=
  match ix with
  | DepositIx amount _ => Ok (<[1%nat := sample_marginfi_account 5 ((700 + amount) * SCALE) 0]> accounts)
  | _ => Ok accounts
  end.
Definition lender_token (ix : TokenIx) (accounts : list AccountInfo) : result (list AccountInfo) :=
  match ix with
  | TransferIx amount => Ok (<[1%nat := sample_token_account (1000 + amount)]> accounts)
  | _ => Ok accounts
  end.
Definition lender_env : Env :=
  mkEnv lender_marginfi lender_token (λ _, None) (λ market mint, (market + mint, 255))
    (mkPdas (λ market sequence, market + sequence) (λ bank, bank)).
Definition lender_context : VaultContext :=
  mkVaultContext 77 50 (mkMintInfo 11 6) 30 31 32 SPL_TOKEN_ID 33 21 5 34 35 36 MARGINFI_ID.
Definition lender_ledger : Ledger :=
  <[21 := sample_marginfi_account 5 (700 * SCALE) 0]> (<[5 := sample_bank 5 SCALE SCALE]>
  (<[31 := sample_token_account 1000]> (<[MARGINFI_ID := mkAccountInfo MARGINFI_ID 0 []]>
  (list_to_map ((λ k, (k, mkAccountInfo k 1 [])) <$> [30; 32; 33; 34; 35; 36; 77; 11; SPL_TOKEN_ID]))))).
Definition lender_user : UserAccount :=
  match expand_user_account (mkUserAccount (user_account_new_empty 77 255) ∅) with
  | Ok u => u
  | Err _ => mkUserAccount (user_account_new_empty 77 255) ∅
  end.
Definition lender_deposits (amount : Z) (v : Vault) : result Vault :=
  process_vault_ix (env_invoke_signed lender_env) (env_invoke_token lender_env) 1700000000
    (global_config_new_empty 9) (IxGlobalVaultDeposit lender_context amount 1) v lender_user lender_ledger.
Definition lent_vault : Vault :=
  match lender_deposits 1000 sample_vault_with_sub_vault with Ok v => v | Err _ => sample_new_vault end.
Definition lent_chain : System :=
  mkSystem (Some (global_config_new_empty 9)) ∅ {[50 := lent_vault]} ∅.

Lemma lent_chain_reachable : reachable lender_env lent_chain.
Proof.
  destruct (lender_deposits 1000 sample_vault_with_sub_vault) as [v|e] eqn:E; [|vm_compute in E; discriminate E].
  eapply rtc_r; [apply sample_reachable|].
  assert (lent_chain = sample_system <| sy_vaults := <[50 := v]> (sy_vaults sample_system) |>) as ->.
  { unfold lent_chain, lent_vault, sample_system. rewrite E. reflexivity. }
  eapply (step_vault_ix lender_env sample_system 50 lender_user lender_ledger 1700000000 _
    (IxGlobalVaultDeposit lender_context 1000 1));
    [reflexivity|split; reflexivity || discriminate|reflexivity|exact E].
Qed.

(** C3: the books of every vault that can come to be are balanced.  Whatever transactions
    ran since the program was deployed, in whatever order, with whatever accounts and
    results of the other programs: every sub-vault has issued exactly as many shares as
    the seats of its depositors hold, summed over the blocks of the account, and counts
    exactly the order references there are to it.  A seat is never empty, is found by its
    owner's key, and belongs to a sub-vault that exists and has issued at least the shares
    the seat holds, so a removed sub-vault leaves no depositor behind; the counts of the
    header are the numbers of blocks of each kind. *)
Theorem reachable_vault_shares_add_up (env : Env) (s : System) (vault : Pubkey) (v : Vault)
    (Hs : reachable env s) (Hv : sy_vaults s !! vault = Some v) :
  (∀ i p, get_sub_vault v i = Ok p →
     lookup_sub_vault v (sv_sub_vault_id p) = Ok i
     ∧ sv_total_shares p = shares_held v (sv_sub_vault_id p)
     ∧ sv_open_orders_count p = orders_referring v (sv_sub_vault_id p))
  ∧ (∀ i d, get_depositor_seat v i = Ok d →
     0 < ds_shares d ∧ lookup_depositor_seat v (ds_owner d) (ds_sub_vault_id d) = Ok i
     ∧ ∃ j p, get_sub_vault v j = Ok p ∧ sv_sub_vault_id p = ds_sub_vault_id d
         ∧ ds_shares d <= sv_total_shares p)
  ∧ gv_sub_vault_count (vt_fixed v) = sub_vault_blocks v
  ∧ gv_claimed_seat_count (vt_fixed v) = seat_blocks v
  ∧ gv_open_order_count (vt_fixed v) = order_blocks v.
Proof.
  pose proof (reachable_sound env s Hs _ _ Hv) as Hw.
  split; [|split]; [intros i p; by apply sound_sub_vault|intros i d; by apply sound_seat|by apply sound_counts].
Qed.

Lemma reachable_vault_shares_add_up_witness :
  reachable lender_env lent_chain
  ∧ (∃ p, get_sub_vault lent_vault 0 = Ok p ∧ sv_total_shares p = 1000 ∧ shares_held lent_vault 1 = 1000)
  ∧ gv_claimed_seat_count (vt_fixed lent_vault) = 1.
Proof.
  destruct (reachable_vault_shares_add_up lender_env lent_chain 50 lent_vault lent_chain_reachable eq_refl)
    as (Hp & _ & _ & Hseats & _).
  split; [exact lent_chain_reachable|]. split; [|rewrite Hseats; vm_compute; reflexivity].
  destruct (get_sub_vault lent_vault 0) as [p|e] eqn:E; [|vm_compute in E; discriminate E].
  exists p. split; [reflexivity|]. destruct (Hp 0 p E) as (_ & Hshares & _).
  vm_compute in E. injection E as <-. rewrite Hshares. split; vm_compute; reflexivity.
Defined.
