(* ===== verification/Encumbrance.v ===== *)
(** * The collateral behind every obligation

    A borrower's collateral backs its resting bids, its queued loans and its loan accounts.
    Each of them names a number of atoms and the share price of the day, and closing it
    releases that many shares from the encumbered bucket of the borrower's seat.  [cover]
    is what the bucket of one seat holds beyond the sum of these claims; [backed] follows it
    through every operation and engine of a market, and no one of them lowers it: what an
    operation takes out of the bucket it also takes off the claims, and splitting a claim
    never makes it larger, because shares are rounded down. *)
From stdpp Require Import base numbers list option gmap fin_maps.
From S2P Require Import Prelude FixedPoint Loan Marginfi Ltv.
From S2P Require Import Hypertree HypertreeFrame HypertreeValues SubVault Market VaultTrees UserAccount.
From S2P Require Import Matching Runtime LoanClose Repay Keeper Promotion Deposits Claims.
From S2P Require Import Convert Admin Orders.
Local Open Scope Z_scope.

(** ** Shares at a snapshot *)

(** The shares that [c] atoms lock at a share price. *)
Definition locked (c : Z) (snapshot : Fp48) : Z := c * SCALE * SCALE / raw snapshot.

(** Atoms that the program can convert: their shares fit their type. *)
Record releasable (c : Z) (snapshot : Fp48) : Prop := {
  rl_atoms : in_u U64 c;
  rl_price : 0 < raw snapshot < 2 ^ 128;
  rl_fits : locked c snapshot < 2 ^ 128 }.

(** An order without a share price (an ask) locks nothing. *)
Definition claim_ok (c : Z) (snapshot : Fp48) : Prop := raw snapshot = 0 ∨ releasable c snapshot.

Lemma locked_split a b snapshot : 0 <= raw snapshot →
  locked a snapshot + locked b snapshot <= locked (a + b) snapshot.
Proof.
  unfold locked. intros [Hs|<-]%Z.le_lteq; [|by rewrite !Zdiv_0_r].
  apply Z.div_le_lower_bound; [done|].
  pose proof (Z.mul_div_le (a * SCALE * SCALE) _ Hs). pose proof (Z.mul_div_le (b * SCALE * SCALE) _ Hs).
  lia.
Qed.

Lemma locked_nonneg c snapshot : 0 <= c → 0 <= raw snapshot → 0 <= locked c snapshot.
Proof.
  unfold locked. intros Hc [Hs|<-]%Z.le_lteq; [|by rewrite Zdiv_0_r].
  apply Z.div_pos; [|done]. rewrite SCALE_eq. nia.
Qed.

Lemma claim_price c snapshot : claim_ok c snapshot → 0 <= raw snapshot.
Proof. intros [->|[]]; lia. Qed.

Lemma claim_nonneg c snapshot : claim_ok c snapshot → 0 <= locked c snapshot.
Proof.
  intros [H|[Hc Hs _]]; [unfold locked; by rewrite H, Zdiv_0_r|].
  apply locked_nonneg; [apply Hc|lia].
Qed.

(** A part of a claim. *)
Lemma claim_part c c' snapshot : 0 <= c' <= c → claim_ok c snapshot →
  claim_ok c' snapshot ∧ locked c' snapshot <= locked c snapshot.
Proof.
  intros Hc [H|[Ha Hp Hf]].
  - split; [by left|]. unfold locked. by rewrite H, !Zdiv_0_r.
  - assert (locked c' snapshot <= locked c snapshot) as Hle.
    { unfold locked. apply Z.div_le_mono; [lia|]. rewrite SCALE_eq. nia. }
    split; [|done]. right. unfold in_u in *. split; [unfold in_u; lia|done|lia].
Qed.

Lemma from_atoms_raw c : in_u U64 c → raw (fp48_from_atoms c) = c * SCALE ∧ in_u U128 (c * SCALE).
Proof.
  intros Hc. unfold fp48_from_atoms. simpl. unfold as_u. rewrite shl48_eq by apply Hc.
  assert (in_u U128 (c * SCALE)) as H by (unfold in_u in *; rewrite SCALE_eq; norm_pow; lia).
  split; [by apply Z.mod_small|done].
Qed.

(** The conversion of the program, on the atoms it can convert. *)
Lemma shares_Ok c snapshot n : in_u U64 c → in_u U128 (raw snapshot) →
  atoms_to_shares_at_snapshot c snapshot = Ok n ↔ releasable c snapshot ∧ n = locked c snapshot.
Proof.
  intros Hc Hs. destruct (from_atoms_raw c Hc) as [Hr Hr'].
  unfold atoms_to_shares_at_snapshot, fp48_is_zero, fp48_checked_div.
  destruct (Z.eqb_spec (raw snapshot) 0) as [H0|H0].
  - split; [done|]. intros [[_ Hp _] _]. lia.
  - rewrite Hr, div_scale_spec by done. destruct (Z.eqb_spec (raw snapshot) 0); [done|].
    change (c * SCALE * SCALE / raw snapshot) with (locked c snapshot).
    unfold in_u in *. destruct (Z.ltb_spec (locked c snapshot) (2 ^ 128)); simpl.
    + split; [intros [= <-]; split; [split; [done|lia|done]|done]|by intros [_ ->]].
    + split; [done|]. intros [[_ _ Hf] _]. lia.
Qed.

(** What a successful conversion of a claim gives. *)
Lemma claim_shares c snapshot : claim_ok c snapshot →
  ensures (atoms_to_shares_at_snapshot c snapshot) (λ n, n = locked c snapshot).
Proof.
  intros [H|[Ha Hp Hf]] n Hn.
  - unfold atoms_to_shares_at_snapshot, fp48_is_zero in Hn. by rewrite H in Hn.
  - apply shares_Ok in Hn as [_ Hn]; [done|done|unfold in_u; lia].
Qed.

(** ** Sums over the blocks of a region *)

Section sums.
Context {B : Type}.
Implicit Types (f g : Z → B → Z) (d : gmap Z B).

Definition region_sum f d : Z := map_fold (λ i b s, f i b + s) 0 d.

Lemma region_sum_empty f : region_sum f ∅ = 0.
Proof. apply map_fold_empty. Qed.

Lemma region_sum_delete f d i b : d !! i = Some b →
  region_sum f d = f i b + region_sum f (delete i d).
Proof. intros Hi. unfold region_sum.
  apply (map_fold_delete_L (λ i b s, f i b + s)); [intros; lia|done].
Qed.

Lemma region_sum_insert f d i b : region_sum f (<[i := b]> d) = f i b + region_sum f (delete i d).
Proof.
  rewrite (region_sum_delete f (<[i := b]> d) i b) by apply lookup_insert_eq.
  by rewrite delete_insert_eq.
Qed.

Lemma region_sum_add f g d : region_sum (λ i b, f i b + g i b) d = region_sum f d + region_sum g d.
Proof.
  induction d as [|i b d Hi IH] using map_ind; [by rewrite !region_sum_empty|].
  rewrite !region_sum_insert, !delete_id, IH by done. lia.
Qed.

Lemma region_sum_zero f d : (∀ i b, d !! i = Some b → f i b = 0) → region_sum f d = 0.
Proof.
  induction d as [|i b d Hi IH] using map_ind; intros Hf; [apply region_sum_empty|].
  rewrite region_sum_insert, delete_id by done. rewrite (Hf i b) by apply lookup_insert_eq.
  rewrite IH; [done|]. intros j c Hj. apply (Hf j). rewrite lookup_insert_ne; [done|congruence].
Qed.

Lemma region_sum_ext f g d : (∀ i b, d !! i = Some b → f i b = g i b) →
  region_sum f d = region_sum g d.
Proof.
  intros H. enough (region_sum (λ i b, f i b + - g i b) d = 0) as E.
  { assert (region_sum f d = region_sum (λ i b, (f i b + - g i b) + g i b) d) as ->.
    - clear H E. induction d as [|i b d Hi IH] using map_ind; [by rewrite !region_sum_empty|].
      rewrite !region_sum_insert, !delete_id, IH by done. lia.
    - rewrite region_sum_add, E. lia. }
  apply region_sum_zero. intros i b Hb. rewrite (H i b Hb). lia.
Qed.

Lemma region_sum_only f d i b : d !! i = Some b → (∀ j c, d !! j = Some c → j ≠ i → f j c = 0) →
  region_sum f d = f i b.
Proof.
  intros Hi H. rewrite (region_sum_delete f d i b Hi), region_sum_zero; [lia|].
  intros j c [Hne Hj]%lookup_delete_Some. by apply H.
Qed.

Lemma region_sum_nonneg f d : (∀ i b, d !! i = Some b → 0 <= f i b) → 0 <= region_sum f d.
Proof.
  induction d as [|i b d Hi IH] using map_ind; intros Hf; [by rewrite region_sum_empty|].
  rewrite region_sum_insert, delete_id by done.
  pose proof (Hf i b (lookup_insert_eq _ _ _)). enough (0 <= region_sum f d) by lia.
  apply IH. intros j c Hj. apply (Hf j). rewrite lookup_insert_ne; [done|congruence].
Qed.
End sums.

(** ** What a block holds and claims *)

Implicit Types (d : Region MarketBlock) (m : Market) (i j c N : Z) (b : MarketBlock).

(** Every claim in the account can be converted. *)
Definition block_ok b : Prop :=
  match b with
  | MB_order n => claim_ok (ro_collateral_atoms (rb_value n)) (ro_share_price_snapshot (rb_value n))
  | MB_loan n => claim_ok (ml_collateral_atoms (rb_value n))
                   (ml_borrower_collateral_share_price_snapshot_fp48 (rb_value n))
  | _ => True
  end.

(** The order or the queued loan of a block. *)
Definition payload_of b : option (RestingOrder + MatchedLoan) :=
  match b with
  | MB_order n => Some (inl (rb_value n))
  | MB_loan n => Some (inr (rb_value n))
  | _ => None
  end.

(** An order or a loan that is known to be in some block. *)
Abbreviation Watch := (option (Z * (RestingOrder + MatchedLoan))).
Implicit Types (W : Watch).
Definition shows W d : Prop :=
  match W with Some (w, x) => ∃ b, d !! w = Some b ∧ payload_of b = Some x | None => True end.

Lemma shows_None d : shows None d.
Proof. exact I. Qed.

(** A watched block is not the one at [i]. *)
Definition looks_away W i : Prop := match W with Some (w, _) => w ≠ i | None => True end.

Lemma shows_elsewhere W d i b : looks_away W i → shows W d → shows W (<[i := b]> d).
Proof.
  destruct W as [[w x]|]; [|done]. simpl. intros Hw (b0 & Hb & Hx). exists b0.
  by rewrite lookup_insert_ne.
Qed.

Lemma free_away W d i n : d !! i = Some (MB_free n) → shows W d → looks_away W i.
Proof.
  destruct W as [[w x]|]; [|done]. intros Hi (b & Hb & Hx) ->. rewrite Hi in Hb.
  by injection Hb as <-.
Qed.

Lemma shows_insert W d i b b' : d !! i = Some b → payload_of b = None ∨ payload_of b' = payload_of b →
  shows W d → shows W (<[i := b']> d).
Proof.
  intros Hi Hb. destruct W as [[w x]|]; [|done]. intros (b0 & Hw & Hx).
  destruct (decide (w = i)) as [->|Hne].
  - rewrite Hi in Hw. injection Hw as <-. exists b'. rewrite lookup_insert_eq. split; [done|].
    destruct Hb; congruence.
  - exists b0. by rewrite lookup_insert_ne.
Qed.

Section seat.
Context (k : Z).

Definition order_claim (o : RestingOrder) : Z :=
  if ro_trader_seat_index o =? k then locked (ro_collateral_atoms o) (ro_share_price_snapshot o) else 0.
Definition node_claim (n : MatchedLoan) : Z :=
  if ml_borrower_seat_index n =? k
  then locked (ml_collateral_atoms n) (ml_borrower_collateral_share_price_snapshot_fp48 n) else 0.
Definition block_claim b : Z :=
  match b with
  | MB_order n => order_claim (rb_value n)
  | MB_loan n => node_claim (rb_value n)
  | _ => 0
  end.
Definition seat_shares i b : Z :=
  match b with
  | MB_seat n => if i =? k then cs_collateral_encumbered_shares (rb_value n) else 0
  | _ => 0
  end.
Definition held i b : Z := seat_shares i b - block_claim b.

(** What the seat has encumbered beyond the claims of the account. *)
Definition cover d : Z := region_sum held d.

Lemma block_claim_nonneg b : block_ok b → 0 <= block_claim b.
Proof.
  destruct b; simpl; try done; unfold order_claim, node_claim; intros H%claim_nonneg; by destruct (_ =? _).
Qed.

Lemma cover_same d i b b' : d !! i = Some b → held i b' = held i b → cover (<[i := b']> d) = cover d.
Proof. intros Hi Hb. unfold cover. by rewrite region_sum_insert, Hb, <- region_sum_delete. Qed.

(** ** The invariant *)

Record backs c N W d : Prop := {
  bk_cover : c <= cover d;
  bk_ok : blocks_ok block_ok d;
  bk_below : ∀ i, is_Some (d !! i) → i < N;
  bk_shows : shows W d }.

(** But for one block, which may hold anything. *)
Record backs_but i c N W d : Prop := {
  bb_cover : c <= cover (delete i d);
  bb_ok : blocks_ok block_ok d;
  bb_below : ∀ j, is_Some (d !! j) → j < N;
  bb_shows : shows W d }.

Definition backed c W m : Prop := backs c (mf_num_bytes_allocated (mk_fixed m)) W (mk_dynamic m).

Lemma insert_below d i b b' N : d !! i = Some b → (∀ j, is_Some (d !! j) → j < N) →
  ∀ j, is_Some (<[i := b']> d !! j) → j < N.
Proof.
  intros Hi Hd j. destruct (decide (j = i)) as [->|Hne].
  - intros _. apply Hd. by rewrite Hi.
  - rewrite lookup_insert_ne by done. apply Hd.
Qed.

(** One block is rewritten. *)
Lemma backs_set c c' N W W' d i b b' : backs c N W d → d !! i = Some b →
  c' <= c - held i b + held i b' → block_ok b' → shows W' (<[i := b']> d) →
  backs c' N W' (<[i := b']> d).
Proof.
  intros [Hc Ho Hb Hs] Hi Hc' Hb' Hs'. split; [|by apply blocks_ok_insert|by eapply insert_below|done].
  unfold cover in *. rewrite region_sum_insert. rewrite (region_sum_delete held d i b Hi) in Hc. lia.
Qed.

Lemma backs_weaken c c' N W d : backs c N W d → c' <= c → backs c' N W d.
Proof. intros [] Hc. split; try done. lia. Qed.
Lemma backs_forget c N W d : backs c N W d → backs c N None d.
Proof. by intros []. Qed.
Lemma backed_weaken c c' W m : backed c W m → c' <= c → backed c' W m.
Proof. apply backs_weaken. Qed.
Lemma backed_forget c W m : backed c W m → backed c None m.
Proof. apply backs_forget. Qed.

Lemma backs_without c N W d i b : backs c N W d → d !! i = Some b →
  backs_but i (c - held i b) N W d.
Proof.
  intros [Hc Ho Hb Hs] Hi. split; try done.
  unfold cover in *. rewrite (region_sum_delete held d i b Hi) in Hc. lia.
Qed.

Lemma backs_again c N W d i b : backs_but i c N W d → d !! i = Some b → backs (c + held i b) N W d.
Proof.
  intros [Hc Ho Hb Hs] Hi. split; try done.
  unfold cover in *. rewrite (region_sum_delete held d i b Hi). lia.
Qed.

(** *** Links and colours do not matter *)

Section payload.
Context {V : Type} `{BlockOf MarketBlock (RBNode V)} `{Payload V}.
Hypothesis same_held : ∀ i (n n' : RBNode V), rb_value n' = rb_value n →
  held i (to_block n') = held i (to_block n).
Hypothesis same_ok : ∀ n n' : RBNode V, rb_value n' = rb_value n →
  block_ok (to_block n) → block_ok (to_block n').
Hypothesis same_payload : ∀ n n' : RBNode V, rb_value n' = rb_value n →
  payload_of (to_block n') = payload_of (to_block n).

Lemma region_get_lookup d i (n : RBNode V) : region_get d i = Ok n → d !! i = Some (to_block n).
Proof. by intros ?%region_get_Ok. Qed.

Lemma backs_relink c N W d i (n n' : RBNode V) :
  region_get d i = Ok n → rb_value n' = rb_value n → backs c N W d → backs c N W (<[i := to_block n']> d).
Proof.
  intros Hn%region_get_lookup Hv Hd. eapply backs_set; [exact Hd|exact Hn| | |].
  - rewrite (same_held i n n' Hv). lia.
  - apply (same_ok n); [done|]. by apply (bk_ok _ _ _ _ Hd i).
  - eapply shows_insert; [exact Hn|right; by apply same_payload|by apply Hd].
Qed.

Lemma backs_but_relink a c N W d i (n n' : RBNode V) :
  region_get d i = Ok n → rb_value n' = rb_value n → backs_but a c N W d →
  backs_but a c N W (<[i := to_block n']> d).
Proof.
  intros Hn%region_get_lookup Hv [Hc Ho Hb Hs]. split.
  - destruct (decide (i = a)) as [->|Hne]; [by rewrite delete_insert_eq|].
    rewrite delete_insert_ne by done. rewrite (cover_same _ _ (to_block n)); [done| |by apply same_held].
    by rewrite lookup_delete_ne.
  - apply blocks_ok_insert; [done|]. apply (same_ok n); [done|]. by apply (Ho i).
  - by eapply insert_below.
  - eapply shows_insert; [exact Hn|right; by apply same_payload|done].
Qed.

(** Removal from a tree leaves the blocks as they are. *)
Lemma remove_backs c N W (t : Tree MarketBlock) i : backs c N W (t_data t) →
  ensures (remove_by_index (V:=V) t i) (λ t', backs c N W (t_data t')).
Proof. apply (remove_by_index_keeps (V:=V) (backs c N W)). intros d j n n'. apply backs_relink. Qed.

Lemma remove_backs_but a c N W (t : Tree MarketBlock) i : backs_but a c N W (t_data t) →
  ensures (remove_by_index (V:=V) t i) (λ t', backs_but a c N W (t_data t')).
Proof. apply (remove_by_index_keeps (V:=V) (backs_but a c N W)). intros d j n n'. apply backs_but_relink. Qed.

(** Insertion into a tree writes one block, whose claim the others have to bear. *)
Lemma insert_backs c N W (t : Tree MarketBlock) i (v : V) h : looks_away W i →
  h = held i (to_block (new_node Black v)) → h <= 0 → block_ok (to_block (new_node Black v)) → i < N →
  (∀ b, t_data t !! i = Some b → h <= held i b) → backs_but i c N W (t_data t) →
  ensures (insert t i v) (λ t', backs (c + h) N W (t_data t')).
Proof.
  intros Hw Hh Hneg Hok Hi Hb Ht.
  apply ensures_mono with (λ t', backs_but i c N W (t_data t')
    ∧ ∀ b, t_data t' !! i = Some b → h <= held i b).
  - apply (insert_keeps (λ d, backs_but i c N W d ∧ ∀ b, d !! i = Some b → h <= held i b)).
    + intros d j n n' Hn Hv [Hd Hd']. split; [by eapply backs_but_relink|]. intros b.
      destruct (decide (j = i)) as [->|Hne].
      * rewrite lookup_insert_eq. intros [= <-]. rewrite (same_held i n n' Hv). apply Hd'.
        by apply region_get_lookup.
      * rewrite lookup_insert_ne by done. apply Hd'.
    + done.
    + intros d n [[Hc Ho Hbe Hs] _] Hv. split.
      * split; [by rewrite delete_insert_eq| | |by apply shows_elsewhere].
        { apply blocks_ok_insert; [done|]. by apply (same_ok (new_node Black v)). }
        intros j. destruct (decide (j = i)) as [->|Hne]; [done|]. rewrite lookup_insert_ne by done. apply Hbe.
      * intros b. rewrite lookup_insert_eq. intros [= <-]. rewrite Hh.
        rewrite (same_held i (new_node Black v) n Hv). done.
  - intros t' [Ht' Hb']. destruct (t_data t' !! i) as [b|] eqn:E.
    + eapply backs_weaken; [by eapply backs_again|]. specialize (Hb' b eq_refl). lia.
    + destruct Ht' as [Hc Ho Hbe Hs]. split; try done. rewrite delete_id in Hc by done. lia.
Qed.
End payload.

Lemma seat_held i (n n' : RBNode ClaimedSeat) : rb_value n' = rb_value n →
  held i (to_block n') = held i (to_block n).
Proof. intros E. unfold held. simpl. by rewrite E. Qed.
Lemma seat_ok (n n' : RBNode ClaimedSeat) : rb_value n' = rb_value n →
  block_ok (to_block n) → block_ok (to_block n').
Proof. done. Qed.
Lemma seat_payload (n n' : RBNode ClaimedSeat) : rb_value n' = rb_value n →
  payload_of (to_block n') = payload_of (to_block n).
Proof. done. Qed.
Lemma order_held i (n n' : RBNode RestingOrder) : rb_value n' = rb_value n →
  held i (to_block n') = held i (to_block n).
Proof. intros E. unfold held. simpl. by rewrite E. Qed.
Lemma order_ok (n n' : RBNode RestingOrder) : rb_value n' = rb_value n →
  block_ok (to_block n) → block_ok (to_block n').
Proof. intros E. simpl. by rewrite E. Qed.
Lemma order_payload (n n' : RBNode RestingOrder) : rb_value n' = rb_value n →
  payload_of (to_block n') = payload_of (to_block n).
Proof. intros E. simpl. by rewrite E. Qed.
Lemma loan_held i (n n' : RBNode MatchedLoan) : rb_value n' = rb_value n →
  held i (to_block n') = held i (to_block n).
Proof. intros E. unfold held. simpl. by rewrite E. Qed.
Lemma loan_ok (n n' : RBNode MatchedLoan) : rb_value n' = rb_value n →
  block_ok (to_block n) → block_ok (to_block n').
Proof. intros E. simpl. by rewrite E. Qed.
Lemma loan_payload (n n' : RBNode MatchedLoan) : rb_value n' = rb_value n →
  payload_of (to_block n') = payload_of (to_block n).
Proof. intros E. simpl. by rewrite E. Qed.

(** ** Updates of seats *)

Definition enc (s : ClaimedSeat) : Z := cs_collateral_encumbered_shares s.
Definition at_seat i n : Z := if i =? k then n else 0.

(** An update that takes at most [n] shares out of the encumbered bucket. *)
Definition takes n (f : ClaimedSeat → result ClaimedSeat) : Prop :=
  ∀ s, ensures (f s) (λ s', enc s - n <= enc s').

Lemma modify_seat_backed c W m i f n : backed c W m → takes n f →
  ensures (modify_seat m i f) (backed (c - at_seat i n) W).
Proof.
  intros Hm Hf. unfold modify_seat, modify_value. apply ensures_bind, ensures_bind.
  intros s Hs%region_get_lookup. apply ensures_bind. intros v Hv. unfold region_set.
  destruct (mk_dynamic m !! i) as [b|] eqn:Hi; [|done]. simpl. do 2 apply ensures_Ok.
  injection Hs as ->. specialize (Hf _ _ Hv). unfold enc in Hf.
  eapply backs_set; [exact Hm|exact Hi| |done|].
  - unfold held, at_seat. simpl. destruct (i =? k); lia.
  - eapply shows_insert; [exact Hi|by left|apply Hm].
Qed.

(** One that takes nothing. *)
Lemma modify_seat_free c W m i f : backed c W m → takes 0 f → ensures (modify_seat m i f) (backed c W).
Proof.
  intros Hm Hf. eapply ensures_mono; [by eapply modify_seat_backed|]. intros m' Hm'.
  eapply backed_weaken; [exact Hm'|]. unfold at_seat. destruct (i =? k); lia.
Qed.

(** ** The operations of a market *)

Lemma get_order_backed c W m i : backed c W m →
  ensures (get_order m i) (λ o, backed c (Some (i, inl o)) m
    ∧ claim_ok (ro_collateral_atoms o) (ro_share_price_snapshot o)).
Proof.
  intros [Hc Ho Hb _] o. unfold get_order, read_value.
  destruct (region_get _ _) as [n|] eqn:E; [|done]. intros [= <-]. apply region_get_lookup in E.
  split; [|exact (Ho i _ E)]. split; try done. by exists (MB_order n).
Qed.

Lemma get_loan_backed c W m i : backed c W m →
  ensures (get_matched_loan m i) (λ n, backed c (Some (i, inr n)) m
    ∧ claim_ok (ml_collateral_atoms n) (ml_borrower_collateral_share_price_snapshot_fp48 n)).
Proof.
  intros [Hc Ho Hb _] o. unfold get_matched_loan, read_value.
  destruct (region_get _ _) as [n|] eqn:E; [|done]. intros [= <-]. apply region_get_lookup in E.
  split; [|exact (Ho i _ E)]. split; try done. by exists (MB_loan n).
Qed.

(** The watched block. *)
Lemma backed_block c m i x : backed c (Some (i, x)) m →
  ∃ b, mk_dynamic m !! i = Some b ∧ payload_of b = Some x.
Proof. by intros [_ _ _ Hs]. Qed.

Definition free_at m i : Prop := ∃ n, mk_dynamic m !! i = Some (MB_free n).

Lemma free_held d i n : d !! i = Some (MB_free n) → held i (MB_free n) = 0.
Proof. done. Qed.

(** The free list hands out a block that is free. *)
Lemma get_free_address_backed c W m : backed c W m →
  ensures (get_free_address m) (λ '(m', i), backed c W m' ∧ (i = NIL ∨ free_at m' i)).
Proof.
  intros Hm. unfold get_free_address, free_list_remove. apply ensures_bind.
  destruct (Z.eqb_spec (mf_free_list_head_index (mk_fixed m)) NIL) as [_|_].
  { do 2 apply ensures_Ok. split; [exact Hm|by left]. }
  apply ensures_bind. intros n Hn. unfold region_set.
  destruct (mk_dynamic m !! mf_free_list_head_index (mk_fixed m)) as [b|] eqn:Hi; [|done].
  assert (b = MB_free n) as ->.
  { unfold region_get in Hn. rewrite Hi in Hn. destruct b; try done. by injection Hn as ->. }
  simpl. do 2 apply ensures_Ok. split.
  - eapply backs_set; [exact Hm|exact Hi| |done|].
    + unfold held. simpl. lia.
    + eapply shows_insert; [exact Hi|by left|apply Hm].
  - right. eexists. simpl. by rewrite lookup_insert_eq.
Qed.

(** A free block may be written. *)
Lemma free_backs_but c W m i : backed c W m → free_at m i →
  backs_but i c (mf_num_bytes_allocated (mk_fixed m)) W (mk_dynamic m)
  ∧ i < mf_num_bytes_allocated (mk_fixed m) ∧ looks_away W i.
Proof.
  intros Hm (n & Hn). split_and!.
  - rewrite <- (Z.sub_0_r c). by apply (backs_without _ _ _ _ _ _ Hm Hn).
  - apply Hm. by rewrite Hn.
  - eapply free_away; [exact Hn|apply Hm].
Qed.

(** A block returns to the free list: its claim is gone. *)
Lemma release_address_but c W m i :
  backs_but i c (mf_num_bytes_allocated (mk_fixed m)) W (mk_dynamic m) →
  ensures (release_address m i) (backed c None).
Proof.
  intros [Hc Ho Hb _]. unfold release_address, free_list_add, region_set.
  destruct (mk_dynamic m !! i) as [b|] eqn:Hi; [|done]. simpl. apply ensures_Ok. split.
  - simpl. unfold cover in *. rewrite region_sum_insert. unfold held at 1. simpl. lia.
  - by apply blocks_ok_insert.
  - by eapply insert_below.
  - done.
Qed.

(** The account grows behind its allocated part. *)
Lemma expand_market_backed c W m : backed c W m → ensures (expand_market m) (backed c W).
Proof.
  intros [Hc Ho Hb Hs]. unfold expand_market, market_expand.
  set (N := mf_num_bytes_allocated (mk_fixed m)) in *.
  assert (mk_dynamic m !! N = None) as HN.
  { destruct (mk_dynamic m !! N) eqn:E; [|done]. enough (N < N) by lia. apply Hb. by rewrite E. }
  simpl. unfold free_list_add, region_set. rewrite lookup_insert_eq. simpl.
  apply ensures_bind. intros bytes Hbytes%ok_or_Ok. apply ensures_Ok.
  rewrite insert_insert_eq. unfold checked_add in Hbytes. destruct (_ <? _); [|done].
  injection Hbytes as <-. split; simpl.
  - unfold cover in *. rewrite region_sum_insert, delete_id by done. unfold held at 1. simpl. lia.
  - by apply blocks_ok_insert.
  - fold N. intros j. unfold MARKET_BLOCK_SIZE. destruct (decide (j = N)) as [->|Hne]; [lia|].
    rewrite lookup_insert_ne by done. intros Hj%Hb. lia.
  - destruct W as [[w x]|]; [|done]. destruct Hs as (b & Hw & Hx). exists b.
    rewrite lookup_insert_ne; [done|congruence].
Qed.

Hint Resolve expand_market_backed modify_seat_free : ensures.

Lemma expand_market_if_needed_backed c W m : backed c W m →
  ensures (expand_market_if_needed m) (backed c W).
Proof. intros Hm. unfold expand_market_if_needed. ensure_walk; assumption. Qed.

Lemma expand_market_to_free_blocks_backed c W m n : backed c W m →
  ensures (expand_market_to_free_blocks m n) (backed c W).
Proof.
  unfold expand_market_to_free_blocks. generalize (Z.to_nat n). intros fuel. revert m.
  induction fuel as [|fuel IH]; intros m Hm; cbn [expand_market_loop]; ensure_walk; assumption.
Qed.
Hint Resolve expand_market_if_needed_backed expand_market_to_free_blocks_backed : ensures.

(** *** The trees *)

Lemma claim_seat_backed c W m o kind id : backed c W m →
  ensures (claim_seat_with_sub_vault m o kind id) (backed c W).
Proof.
  intros Hm. unfold claim_seat_with_sub_vault. do 2 ensure_step. ensure_step; [ensure_step|].
  apply ensures_bind. eapply ensures_mono; [by eapply get_free_address_backed|].
  intros [m1 i] [Hm1 Hi]. apply ensures_bind. intros [] Hn%require_Ok. apply ensures_bind.
  destruct Hi as [->|Hi]; [done|]. destruct (free_backs_but _ _ _ _ Hm1 Hi) as (Hb & Hlt & Hw).
  eapply ensures_mono.
  { eapply (insert_backs seat_held seat_ok seat_payload c _ W _ _ _ 0); [exact Hw| |done|exact I|exact Hlt| |exact Hb].
    - unfold held. simpl. by destruct (i =? k).
    - destruct Hi as (n & Hi). simpl. rewrite Hi. by intros b [= <-]. }
  intros t Ht. rewrite Z.add_0_r in Ht. apply ensures_bind. intros count _. by apply ensures_Ok.
Qed.

(** An order goes where a claim at least as large may have been. *)
Lemma rest_order_but c m i o : backs_but i c (mf_num_bytes_allocated (mk_fixed m)) None (mk_dynamic m) →
  i < mf_num_bytes_allocated (mk_fixed m) →
  (∀ b, mk_dynamic m !! i = Some b → - order_claim o <= held i b) →
  claim_ok (ro_collateral_atoms o) (ro_share_price_snapshot o) →
  ensures (rest_order m i o) (backed (c - order_claim o) None).
Proof.
  intros Hm Hi Hb Ho.
  assert (0 <= order_claim o) as H0 by (exact (block_claim_nonneg (MB_order (new_node Black o)) Ho)).
  assert (∀ t : Tree MarketBlock, t_data t = mk_dynamic m →
    ensures (insert t i o) (λ t', backs (c + - order_claim o) (mf_num_bytes_allocated (mk_fixed m))
                                   None (t_data t'))) as Hins.
  { intros t Ht. apply (insert_backs order_held order_ok order_payload); try done; try lia;
      by rewrite Ht. }
  unfold rest_order. ensure_step; apply ensures_bind; (eapply ensures_mono; [by apply Hins|]);
    intros t Ht; by apply ensures_Ok.
Qed.

Lemma rest_order_backed c W m i o : backed c W m → free_at m i →
  claim_ok (ro_collateral_atoms o) (ro_share_price_snapshot o) →
  ensures (rest_order m i o) (backed (c - order_claim o) None).
Proof.
  intros Hm Hi Ho. destruct (free_backs_but _ _ _ _ (backed_forget _ _ _ Hm) Hi) as (Hb & Hlt & _). apply rest_order_but; try done.
  destruct Hi as (n & ->). intros b [= <-].
  pose proof (block_claim_nonneg (MB_order (new_node Black o)) Ho). unfold held. simpl in *. lia.
Qed.

Lemma mint_backed c W m n : backed c W m →
  claim_ok (ml_collateral_atoms n) (ml_borrower_collateral_share_price_snapshot_fp48 n) →
  ensures (mint_matched_loan m n) (λ '(m', _), backed (c - node_claim n) W m').
Proof.
  intros Hm Ho. unfold mint_matched_loan. apply ensures_bind.
  eapply ensures_mono; [by eapply get_free_address_backed|]. intros [m1 i] [Hm1 Hi].
  apply ensures_bind. intros [] Hn%require_Ok. apply ensures_bind.
  destruct Hi as [->|Hi]; [done|]. destruct (free_backs_but _ _ _ _ Hm1 Hi) as (Hb & Hlt & Hw).
  pose proof (block_claim_nonneg (MB_loan (new_node Black n)) Ho) as H0. simpl in H0.
  eapply ensures_mono.
  { eapply (insert_backs loan_held loan_ok loan_payload c _ W _ _ _ (- node_claim n));
      [exact Hw|done|lia|exact Ho|exact Hlt| |exact Hb].
    destruct Hi as (x & Hi). simpl. rewrite Hi. intros b [= <-]. unfold held. simpl. lia. }
  intros t Ht. apply ensures_bind. intros seq _. by apply ensures_Ok.
Qed.

(** What leaves the book takes its claim along. *)
Lemma remove_order_backed c m i o : backed c (Some (i, inl o)) m →
  ensures (remove_order_from_tree_and_free m i) (backed (c + order_claim o) None).
Proof.
  intros Hm. destruct (backed_block _ _ _ _ Hm) as (b & Hb & Hx).
  destruct b as [| |n|]; try done. injection Hx as <-.
  pose proof (backs_without _ _ _ _ _ _ Hm Hb) as Hbut. unfold held in Hbut. simpl in Hbut.
  replace (c - (0 - order_claim (rb_value n))) with (c + order_claim (rb_value n)) in Hbut by lia.
  unfold remove_order_from_tree_and_free. apply ensures_bind. intros o _.
  apply ensures_bind, ensures_mono with (λ m', backs_but i (c + order_claim (rb_value n))
    (mf_num_bytes_allocated (mk_fixed m')) (Some (i, inl (rb_value n))) (mk_dynamic m')).
  - ensure_step; apply ensures_bind;
      (eapply ensures_mono; [by apply (remove_backs_but order_held order_ok order_payload)|]);
      intros t Ht; by apply ensures_Ok.
  - intros m1 Hm1. by eapply release_address_but.
Qed.

Lemma remove_order_free c W m i : backed c W m →
  ensures (remove_order_from_tree_and_free m i) (backed c None).
Proof.
  intros Hm. unfold remove_order_from_tree_and_free. intros m' H.
  destruct (get_order m i) as [o|] eqn:E; [|done].
  destruct (get_order_backed _ _ _ _ Hm o E) as [Hm1 Ho].
  eapply backed_weaken; [eapply (remove_order_backed c m i o Hm1); unfold remove_order_from_tree_and_free;
    rewrite E; exact H|].
  pose proof (block_claim_nonneg (MB_order (new_node Black o)) Ho). simpl in *. lia.
Qed.

Lemma retire_node_backed c m i n : backed c (Some (i, inr n)) m →
  ensures (retire_node m i) (backed (c + node_claim n) None).
Proof.
  intros Hm. destruct (backed_block _ _ _ _ Hm) as (b & Hb & Hx).
  destruct b as [| | |x]; try done. injection Hx as <-.
  pose proof (backs_without _ _ _ _ _ _ Hm Hb) as Hbut. unfold held in Hbut. simpl in Hbut.
  replace (c - (0 - node_claim (rb_value x))) with (c + node_claim (rb_value x)) in Hbut by lia.
  unfold retire_node. apply ensures_bind.
  eapply ensures_mono; [apply (remove_backs_but loan_held loan_ok loan_payload); exact Hbut|].
  intros t Ht. eapply release_address_but. exact Ht.
Qed.

Lemma take_order_sequence_backed c W m : backed c W m →
  ensures (take_order_sequence m) (λ '(m', _), backed c W m').
Proof. intros Hm. unfold take_order_sequence. ensure_walk. exact Hm. Qed.

(** An order changes in place, its claim by as much as is added. *)
Lemma modify_order_backed c m i o f n : backed c (Some (i, inl o)) m →
  ensures (f o) (λ o', order_claim o' <= order_claim o - n
    ∧ claim_ok (ro_collateral_atoms o') (ro_share_price_snapshot o')) →
  ensures (modify_order m i f) (backed (c + n) None).
Proof.
  intros Hm Hf. destruct (backed_block _ _ _ _ Hm) as (b & Hb & Hx). destruct b as [| |x|]; try done.
  injection Hx as <-. unfold modify_order, modify_value. apply ensures_bind, ensures_bind.
  intros y Hy%region_get_lookup. rewrite Hb in Hy. injection Hy as ->. apply ensures_bind.
  eapply ensures_mono; [exact Hf|]. intros o' [Ho' Hok]. unfold region_set. rewrite Hb. simpl.
  do 2 apply ensures_Ok. eapply backs_set; [exact Hm|exact Hb| |exact Hok|exact I].
  unfold held. simpl. lia.
Qed.
Hint Resolve take_order_sequence_backed : ensures.

(** ** What the updates of a seat take *)

Lemma takes_bind n n' f g : takes n f → takes n' g → takes (n + n') (λ s, f s ≫= g).
Proof.
  intros Hf Hg s. apply ensures_bind. eapply ensures_mono; [by apply Hf|]. intros s1 H1.
  eapply ensures_mono; [by apply Hg|]. cbv beta in *. intros s2 H2. lia.
Qed.
Lemma takes_bind0 f g : takes 0 f → takes 0 g → takes 0 (λ s, f s ≫= g).
Proof. apply (takes_bind 0 0). Qed.

Ltac take := intros s; unfold enc; ensure_walk; simpl; lia.

Lemma bump_open_borrow_takes : takes 0 bump_open_borrow.
Proof. unfold bump_open_borrow. take. Qed.
Lemma bump_open_lend_takes : takes 0 bump_open_lend.
Proof. unfold bump_open_lend. take. Qed.
Lemma drop_open_lend_takes : takes 0 drop_open_lend.
Proof. unfold drop_open_lend. take. Qed.
Lemma drop_open_borrow_takes : takes 0 drop_open_borrow.
Proof. unfold drop_open_borrow. take. Qed.
Lemma add_open_borrows_takes n : takes 0 (add_open_borrows n).
Proof. unfold add_open_borrows. take. Qed.
Lemma swept_seat_takes a n : takes 0 (swept_seat a n).
Proof. unfold swept_seat. take. Qed.
Lemma add_debt_shares_takes n : takes 0 (add_debt_shares n).
Proof. unfold add_debt_shares. take. Qed.
Lemma seat_kept_takes : takes 0 Ok.
Proof. take. Qed.

Definition balance_takes (axis : BalanceAxis) (bucket : BalanceBucket) (sign : BalanceSign) n : Z :=
  match axis, bucket, sign with
  | Collateral, Encumbered, Minus => n
  | Collateral, Encumbered, Plus => - n
  | _, _, _ => 0
  end.

Lemma update_balance_takes axis bucket sign n :
  takes (balance_takes axis bucket sign n) (λ s, update_balance s axis bucket sign n).
Proof.
  intros s. unfold update_balance, enc. apply ensures_bind. intros v Hv. apply ensures_Ok.
  destruct axis, bucket, sign; simpl in *; try lia; apply ok_or_Ok in Hv.
  - unfold checked_add in Hv. destruct (_ <? _); [|done]. injection Hv as <-. lia.
  - apply checked_sub_Some in Hv as [-> _]. lia.
Qed.

Lemma encumber_seat_takes p n : takes (- n) (encumber_seat Bid p n).
Proof. apply (takes_bind 0 (- n)); [apply (update_balance_takes Collateral Withdrawable Minus)
  |apply (update_balance_takes Collateral Encumbered Plus)]. Qed.

Definition side_takes (side : Side) n : Z := match side with Bid => n | Ask => 0 end.
Lemma unencumber_seat_takes side p n : takes (side_takes side n) (unencumber_seat side p n).
Proof.
  destruct side; simpl.
  - pose proof (takes_bind n 0 _ _ (update_balance_takes Collateral Encumbered Minus n)
      (update_balance_takes Collateral Withdrawable Plus n)) as H. by rewrite Z.add_0_r in H.
  - apply takes_bind0; [apply (update_balance_takes Debt Encumbered Minus)|].
    apply takes_bind0; [apply (update_balance_takes Debt Withdrawable Plus)|]. take.
Qed.

Lemma release_collateral_seat_takes t r : takes t (release_collateral_seat t r).
Proof.
  intros s. unfold release_collateral_seat, enc. apply ensures_bind. intros [] _. apply ensures_bind.
  intros e He%ok_or_Ok%checked_sub_Some. apply ensures_bind. intros x _. apply ensures_Ok. simpl.
  destruct He as [-> _]. lia.
Qed.
Hint Resolve bump_open_borrow_takes bump_open_lend_takes drop_open_lend_takes
  drop_open_borrow_takes add_open_borrows_takes swept_seat_takes add_debt_shares_takes
  seat_kept_takes : ensures.

(** ** The engines *)

(** The release of a claim. *)
Lemma unencumber_atoms_backed c W m i side p n snap : backed c W m → claim_ok n snap →
  ensures (unencumber_atoms m i side p n snap) (backed (c - at_seat i (locked n snap)) W).
Proof.
  intros Hm Hn. unfold unencumber_atoms, unencumber_for_order. apply ensures_bind. intros x _.
  apply ensures_bind. eapply ensures_mono; [by apply claim_shares|]. intros y ->.
  eapply ensures_mono; [apply modify_seat_backed; [exact Hm|apply unencumber_seat_takes]|].
  intros m' Hm'. eapply backed_weaken; [exact Hm'|]. pose proof (claim_nonneg _ _ Hn).
  unfold at_seat. destruct side, (i =? k); simpl; lia.
Qed.

Lemma release_loan_collateral_backed c W m i t r : backed c W m →
  ensures (release_loan_collateral m i t r) (backed (c - at_seat i t) W).
Proof. intros Hm. apply modify_seat_backed; [exact Hm|apply release_collateral_seat_takes]. Qed.

(** *** [match_order] *)

Definition step_backed {S} (Q : S → Prop) (st : ScanStep S) : Prop :=
  match st with Filled s => Q s | _ => True end.

Lemma mul_div_u64_floor x y z q : 0 <= x → 0 <= y → 0 < z →
  mul_div_u64 x y z false = Ok q → q = x * y / z.
Proof.
  intros Hx Hy Hz. unfold mul_div_u64, mul_div. destruct (Z.eqb_spec z 0); [lia|].
  intros (r & (p & Hp%ok_or_Ok & Hr)%bind_Ok & Hq%ok_or_Ok)%bind_Ok. simpl in Hr.
  unfold checked_mul in Hp. destruct (_ <? _) eqn:Ef; [|done]. injection Hp as <-.
  apply Z.ltb_lt in Ef.
  apply try_from_Some in Hq as [-> _]. rewrite u256_to_u128_spec in Hr.
  - destruct (_ <? _) in Hr; [by injection Hr|done].
  - split; [apply Z.div_pos; nia|]. apply Z.div_lt_upper_bound; [done|]. simpl in *. nia.
Qed.

Section scan.
Variable args : MatchArgs.
Local Abbreviation taker := (ma_taker_seat_index args).
Local Abbreviation snap := (ma_taker_share_price_snapshot_fp48 args).
Hypothesis principal_pos : 0 < ma_principal_atoms args.
Hypothesis collateral_nonneg : 0 <= ma_collateral_atoms args.

(** What is left of the taker's collateral is still its own, in proportion to what is left
    of the principal. *)
Record scan_backed c (s : MatchState) : Prop := {
  sc_backed : backed (c + at_seat taker (locked (ms_remaining_collateral s) snap)) None (ms_market s);
  sc_claim : claim_ok (ms_remaining_collateral s) snap;
  sc_nonneg : 0 <= ms_remaining_collateral s;
  sc_principal : 0 <= ms_remaining_principal s;
  sc_ratio : ma_collateral_atoms args * ms_remaining_principal s
               <= ms_remaining_collateral s * ma_principal_atoms args }.

Lemma fill_ask_backed c s v maker id cap cap_bps matched coll : scan_backed c s →
  0 <= coll <= ms_remaining_collateral s → matched <= ms_remaining_principal s →
  ma_collateral_atoms args * (ms_remaining_principal s - matched)
    <= (ms_remaining_collateral s - coll) * ma_principal_atoms args →
  ensures (fill_ask args s v maker id cap cap_bps matched coll) (scan_backed c).
Proof.
  intros [Hm Hc Hn Hp Hr] Hcoll Hmatched Hratio. unfold fill_ask. cbv zeta. do 3 (apply ensures_bind; intros ? _).
  destruct (claim_part _ coll _ Hcoll Hc) as [Hc1 _].
  destruct (claim_part (ms_remaining_collateral s) (ms_remaining_collateral s - coll) snap
    ltac:(lia) Hc) as [Hc2 _].
  apply ensures_bind. eapply ensures_mono; [eapply mint_backed; [exact Hm|exact Hc1]|].
  intros [m1 i1] Hm1. unfold node_claim in Hm1. simpl in Hm1.
  apply ensures_bind. eapply ensures_mono; [by eapply modify_seat_free; auto with ensures|]. intros m2 Hm2.
  apply ensures_bind. eapply ensures_mono; [by eapply modify_seat_free; auto with ensures|]. intros m3 Hm3.
  apply ensures_bind. intros rem Hrem%ok_or_Ok%checked_sub_Some. apply ensures_bind. intros total _.
  apply ensures_Ok.
  assert (checked_sub (ms_remaining_collateral s) coll = Some (ms_remaining_collateral s - coll)) as E
    by (apply checked_sub_Some; lia).
  destruct Hrem as [-> _]. split; simpl; rewrite ?E; simpl; try done; try lia.
  eapply backed_weaken; [exact Hm3|].
  pose proof (locked_split coll (ms_remaining_collateral s - coll) snap (claim_price _ _ Hc)) as Hs.
  replace (coll + (ms_remaining_collateral s - coll)) with (ms_remaining_collateral s) in Hs by lia.
  unfold at_seat. destruct (taker =? k); lia.
Qed.

Lemma read_ask_capacity_idle v id : ensures (read_ask_capacity v id) (λ cap, 0 <= ac_idle cap).
Proof.
  unfold read_ask_capacity. ensure_walk; simpl; try lia. unfold sub_vault_idle, saturating_sub. lia.
Qed.

Lemma match_maker_backed c s maker : scan_backed c s →
  ensures (match_maker args s maker) (step_backed (scan_backed c)).
Proof.
  intros Hs. unfold match_maker. cbv zeta. ensure_step; [by apply ensures_Ok|].
  ensure_step; [apply ensures_bind; intros ? _; by apply ensures_Ok|].
  do 3 (ensure_step; [by apply ensures_Ok|]). apply ensures_bind; intros ? _.
  apply ensures_bind; intros seat _. apply ensures_bind; intros ? _.
  destruct (ms_vault s) as [v|]; [|by apply ensures_Ok].
  apply ensures_bind. eapply ensures_mono; [apply read_ask_capacity_idle|]. cbv beta. intros cap Hcap.
  ensure_step; [by apply ensures_Ok|]. ensure_step; [by apply ensures_Ok|].
  apply ensures_bind; intros ? _. ensure_step; [by apply ensures_Ok|].
  apply ensures_bind. intros x Hx. apply ensures_bind. intros coll Hcoll%ok_or_Ok.
  assert (coll = x) as ->.
  { unfold checked_add in Hcoll. destruct (_ <? _) in Hcoll; [|done]. injection Hcoll as <-. lia. }
  apply ensures_bind; intros ? _. ensure_step; [by apply ensures_Ok|]. apply ensures_fmap.
  pose proof Hs as [_ _ Hn Hp Hr].
  destruct (Z.eqb_spec (ms_remaining_principal s `min` ac_idle cap) (ms_remaining_principal s)) as [E|E].
  - injection Hx as <-. rewrite E. apply fill_ask_backed; [done|lia|lia|].
    rewrite !Z.sub_diag. lia.
  - set (matched := ms_remaining_principal s `min` ac_idle cap) in *.
    apply mul_div_u64_floor in Hx as ->; [|lia|done|done].
    set (q := matched * ma_collateral_atoms args / ma_principal_atoms args).
    assert (q * ma_principal_atoms args <= matched * ma_collateral_atoms args) as Hq
      by (unfold q; rewrite Z.mul_comm; by apply Z.mul_div_le).
    assert (0 <= q) by (apply Z.div_pos; [apply Z.mul_nonneg_nonneg; lia|done]).
    assert (q * ma_principal_atoms args <= ms_remaining_collateral s * ma_principal_atoms args) as Hle.
    { apply (Z.le_trans _ (matched * ma_collateral_atoms args)); [done|].
      apply (Z.le_trans _ (ma_collateral_atoms args * ms_remaining_principal s)); [|done].
      rewrite Z.mul_comm. apply Z.mul_le_mono_nonneg_l; [done|lia]. }
    apply fill_ask_backed; [done| |lia|lia]. split; [done|]. by apply Z.mul_le_mono_pos_r in Hle.
Qed.

Lemma match_loop_backed c fuel s current : scan_backed c s →
  ensures (match_loop fuel args s current) (scan_backed c).
Proof.
  revert s current. induction fuel as [|fuel IH]; intros s current Hs; cbn [match_loop];
    (ensure_step; [|by apply ensures_Ok]); [done|].
  apply ensures_bind; intros maker _. apply ensures_bind.
  eapply ensures_mono; [by eapply match_maker_backed|]. intros [| |s'] Hst.
  - apply ensures_bind; intros next _. by apply IH.
  - by apply ensures_Ok.
  - apply ensures_bind; intros next _. by apply IH.
Qed.
End scan.

(** *** [match_borrower_bid] *)

(** The market after the scan, where [r] says what is left. *)
Record left_backed c (snap : Fp48) i m (r : MatchResult) : Prop := {
  lb_backed : backed (c + at_seat i (locked (mr_remaining_collateral r) snap)) None m;
  lb_claim : claim_ok (mr_remaining_collateral r) snap }.

Lemma match_order_backed c m args vo : 0 < ma_principal_atoms args → 0 <= ma_collateral_atoms args →
  claim_ok (ma_collateral_atoms args) (ma_taker_share_price_snapshot_fp48 args) →
  backed (c + at_seat (ma_taker_seat_index args)
    (locked (ma_collateral_atoms args) (ma_taker_share_price_snapshot_fp48 args))) None m →
  ensures (match_order m args vo) (λ '(m', _, r),
    left_backed c (ma_taker_share_price_snapshot_fp48 args) (ma_taker_seat_index args) m' r).
Proof.
  intros Hp Hc Hclaim Hm. unfold match_order. apply ensures_bind. eapply ensures_mono.
  { apply (match_loop_backed args Hp Hc c). split; simpl; try done; lia. }
  intros s []. by apply ensures_Ok.
Qed.

Section place.
Context (args : PlaceOrderArgs).
Local Abbreviation taker := (pa_taker_seat_index args).
Local Abbreviation snap := (pa_share_price_snapshot_fp48 args).

Lemma p2pool_residual_backed c m r : left_backed c snap taker m r →
  ensures (p2pool_residual m args r) (λ '(m', _, _), backed c None m').
Proof.
  intros [Hm Hr]. unfold p2pool_residual. cbv zeta. do 2 (apply ensures_bind; intros ? _).
  apply ensures_bind. eapply ensures_mono; [by eapply modify_seat_free; auto with ensures|].
  intros m1 Hm1. apply ensures_bind. intros o _. apply ensures_bind.
  eapply ensures_mono; [eapply mint_backed; [exact Hm1|exact Hr]|]. intros [m2 i] Hm2.
  apply ensures_Ok. eapply backed_weaken; [exact Hm2|]. unfold node_claim, at_seat. simpl.
  destruct (taker =? k); lia.
Qed.

Lemma rest_residual_backed c m r q : left_backed c snap taker m r →
  ensures (rest_residual m args r q) (backed c None).
Proof.
  intros [Hm Hr]. unfold rest_residual. apply ensures_bind.
  eapply ensures_mono; [by eapply get_free_address_backed|]. intros [m1 i] [Hm1 Hi].
  apply ensures_bind. intros [] Hn%require_Ok. destruct Hi as [->|Hi]; [done|].
  eapply ensures_mono; [eapply rest_order_backed; [exact Hm1|exact Hi|exact Hr]|]. intros m2 Hm2.
  eapply backed_weaken; [exact Hm2|]. unfold order_claim, at_seat. simpl. destruct (taker =? k); lia.
Qed.

(** Placing a bid encumbers what it claims. *)
Lemma match_borrower_bid_backed c W m vo : in_u U64 (pa_collateral_atoms args) →
  in_u U128 (raw snap) → backed c W m →
  ensures (match_borrower_bid m args vo) (λ '(m', _, _), backed c None m').
Proof.
  intros Hc Hs Hm. unfold match_borrower_bid. cbv zeta. apply ensures_bind.
  intros [] Hp%require_Ok%Z.leb_le. do 3 (apply ensures_bind; intros ? _).
  apply ensures_bind. intros n Hn. apply shares_Ok in Hn as [Hr ->]; [|done|done].
  apply ensures_bind. eapply ensures_mono.
  { apply modify_seat_backed; [exact (backed_forget _ _ _ Hm)|apply encumber_seat_takes]. }
  intros m1 Hm1. apply ensures_bind. eapply ensures_mono; [by eapply take_order_sequence_backed|].
  intros [m2 q] Hm2. apply ensures_bind. eapply ensures_mono.
  { apply (match_order_backed c); simpl; [unfold MIN_PRINCIPAL_ATOMS in Hp; lia|apply Hc|by right|].
    eapply backed_weaken; [exact Hm2|]. unfold at_seat. destruct (taker =? k); lia. }
  intros [[m3 v3] r] Hm3. simpl in Hm3. set (r' := r <| mr_residual_action := _ |>).
  assert (left_backed c snap taker m3 r') as Hm4 by by destruct Hm3.
  ensure_step.
  - destruct (mr_residual_action r').
    + apply ensures_bind. destruct Hm4 as [Hm4 Hr'].
      eapply ensures_mono; [by eapply unencumber_atoms_backed|]. intros m4 Hm5. apply ensures_Ok.
      eapply backed_weaken; [exact Hm5|lia].
    + apply ensures_bind. eapply ensures_mono; [by eapply p2pool_residual_backed|].
      intros [[m4 i] sq] Hm5. by apply ensures_Ok.
    + apply ensures_bind. eapply ensures_mono; [by eapply rest_residual_backed|].
      intros m4 Hm5. by apply ensures_Ok.
  - apply ensures_Ok. destruct Hm4 as [Hm4 Hr']. eapply backed_weaken; [exact Hm4|].
    pose proof (claim_nonneg _ _ Hr'). unfold at_seat. destruct (taker =? k); lia.
Qed.
End place.

(** *** Cancel, update, asks *)

Lemma cancel_order_by_index_backed c W m seat i : backed c W m →
  ensures (cancel_order_by_index m seat i) (backed c None).
Proof.
  intros Hm. unfold cancel_order_by_index. apply ensures_bind.
  eapply ensures_mono; [by eapply get_order_backed|]. intros o [Hm1 Ho].
  do 2 (apply ensures_bind; intros ? _). cbv zeta. ensure_step; apply ensures_bind.
  - eapply ensures_mono; [by eapply modify_seat_free; auto with ensures|]. intros m2 Hm2.
    by eapply remove_order_free.
  - eapply ensures_mono; [by eapply unencumber_atoms_backed|]. intros m2 Hm2.
    eapply ensures_mono; [by eapply remove_order_backed|]. intros m3 Hm3.
    eapply backed_weaken; [exact Hm3|]. unfold order_claim, at_seat.
    destruct (ro_trader_seat_index o =? k); lia.
Qed.

Lemma update_user_bid_backed c W m seat i rate term valid buffer now : backed c W m →
  ensures (update_user_bid m seat i rate term valid buffer now) (λ '(m', _), backed c None m').
Proof.
  intros Hm. unfold update_user_bid. cbv zeta. apply ensures_bind.
  eapply ensures_mono; [by eapply get_order_backed|]. intros o [Hm1 Ho].
  do 4 (apply ensures_bind; intros ? _). apply ensures_bind.
  eapply ensures_mono; [apply (remove_backs order_held order_ok order_payload); exact Hm1|].
  intros t Ht. apply ensures_bind. eapply ensures_mono.
  { apply (take_order_sequence_backed c (Some (i, inl o)) (put_bids m t)). exact Ht. }
  intros [m2 q] Hm2. apply ensures_bind.
  destruct (backed_block _ _ _ _ Hm2) as (b & Hb & Hx). destruct b as [| |n|]; try done.
  injection Hx as Ex. pose proof (backs_without _ _ _ _ _ _ (backed_forget _ _ _ Hm2) Hb) as Hbut.
  assert (held i (MB_order n) = - order_claim o) as E by (unfold held; simpl; rewrite Ex; lia).
  eapply ensures_mono.
  { apply rest_order_but; [exact Hbut| | |exact Ho].
    - apply Hm2. by rewrite Hb.
    - rewrite Hb. intros b [= <-]. rewrite E. by unfold order_claim. }
  intros m3 Hm3. apply ensures_Ok. eapply backed_weaken; [exact Hm3|]. rewrite E.
  unfold order_claim. simpl. destruct (_ =? k); lia.
Qed.

Lemma ask_claim_ok n : claim_ok n fp48_ZERO.
Proof. by left. Qed.

Lemma rest_vault_ask_backed c W m args : backed c W m →
  ensures (rest_vault_ask m args) (λ '(m', _), backed c None m').
Proof.
  intros Hm. unfold rest_vault_ask. apply ensures_bind. intros ? _. apply ensures_bind.
  eapply ensures_mono; [by eapply modify_seat_free; auto with ensures|]. intros m1 Hm1.
  apply ensures_bind. eapply ensures_mono; [by eapply take_order_sequence_backed|].
  intros [m2 q] Hm2. apply ensures_bind. eapply ensures_mono; [by eapply get_free_address_backed|].
  intros [m3 i] [Hm3 Hi]. apply ensures_bind. intros [] Hn%require_Ok. destruct Hi as [->|Hi]; [done|].
  apply ensures_bind. eapply ensures_mono; [eapply rest_order_backed; [exact Hm3|exact Hi|by left]|].
  intros m4 Hm4. apply ensures_Ok. eapply backed_weaken; [exact Hm4|].
  unfold order_claim, locked. simpl. rewrite Zdiv_0_r. destruct (_ =? k); lia.
Qed.

(** *** [match_p2pool_residual_against_asks] *)

Section refinance.
Context (args : MatchP2PoolRefinanceArgs).
Local Abbreviation borrower := (ra_borrower_seat_index args).
Local Abbreviation snap := (ra_borrower_collateral_share_price_snapshot_fp48 args).
Hypothesis principal_pos : 0 < ra_principal_cap_atoms args.
Hypothesis collateral_nonneg : 0 <= ra_loan_collateral_atoms args.
Hypothesis collateral_claim : claim_ok (ra_loan_collateral_atoms args) snap.

(** The new loans carry their shares of the refinanced loan's collateral. *)
Record refinance_backed c (s : RefinanceState) : Prop := {
  rf_backed : backed (c - at_seat borrower (locked (rs_total_filled_collateral s) snap)) None
                (rs_market s);
  rf_nonneg : 0 <= rs_total_filled_collateral s;
  rf_remaining : 0 <= rs_remaining_principal s;
  rf_filled : 0 <= rs_total_filled_principal s;
  rf_total : rs_total_filled_principal s + rs_remaining_principal s = ra_principal_cap_atoms args;
  rf_ratio : rs_total_filled_collateral s * ra_principal_cap_atoms args
               <= ra_loan_collateral_atoms args * rs_total_filled_principal s }.

(** They never carry more than there is. *)
Lemma refinance_filled c s : refinance_backed c s →
  0 <= rs_total_filled_collateral s <= ra_loan_collateral_atoms args.
Proof.
  intros [_ Hn Hr Hf Ht Hra]. split; [done|].
  apply (Z.mul_le_mono_pos_r _ _ (ra_principal_cap_atoms args)); [done|].
  apply (Z.le_trans _ _ _ Hra). apply Z.mul_le_mono_nonneg_l; [done|lia].
Qed.

Lemma refinance_fill_backed c s v maker id cap matched : refinance_backed c s →
  0 <= matched <= rs_remaining_principal s →
  ensures (refinance_fill args s v maker id cap matched) (refinance_backed c).
Proof.
  intros [Hm Hn Hr Hf Ht Hra] Hmatched. unfold refinance_fill. cbv zeta.
  apply ensures_bind; intros ? _. apply ensures_bind. intros q Hq.
  apply mul_div_u64_floor in Hq; [|done|lia|done].
  assert (q * ra_principal_cap_atoms args <= ra_loan_collateral_atoms args * matched) as Hqle
    by (rewrite Hq, Z.mul_comm; by apply Z.mul_div_le).
  assert (0 <= q) by (rewrite Hq; apply Z.div_pos; [apply Z.mul_nonneg_nonneg; lia|done]).
  assert (q <= ra_loan_collateral_atoms args) as Hqc.
  { apply (Z.mul_le_mono_pos_r _ _ (ra_principal_cap_atoms args)); [done|].
    apply (Z.le_trans _ _ _ Hqle). apply Z.mul_le_mono_nonneg_l; [done|lia]. }
  destruct (claim_part _ q _ (conj H Hqc) collateral_claim) as [Hok _].
  apply ensures_bind; intros ? _.
  apply ensures_bind. eapply ensures_mono; [eapply mint_backed; [exact Hm|exact Hok]|].
  intros [m1 i1] Hm1. apply ensures_bind.
  eapply ensures_mono; [by eapply modify_seat_free; auto with ensures|]. intros m2 Hm2.
  apply ensures_bind. intros rem Hrem%ok_or_Ok%checked_sub_Some. destruct Hrem as [-> _].
  apply ensures_bind. intros tp Htp%ok_or_Ok. apply ensures_bind. intros tc Htc%ok_or_Ok.
  apply ensures_Ok. unfold checked_add in Htp, Htc. destruct (_ <? _) in Htp; [|done].
  destruct (_ <? _) in Htc; [|done]. injection Htp as <-. injection Htc as <-.
  split; simpl; [|lia..].
  eapply backed_weaken; [exact Hm2|]. unfold node_claim, at_seat in *. simpl.
  pose proof (locked_split (rs_total_filled_collateral s) q snap (claim_price _ _ Hok)).
  destruct (borrower =? k); lia.
Qed.

Lemma refinance_maker_backed c s maker : refinance_backed c s →
  ensures (refinance_maker args s maker) (step_backed (refinance_backed c)).
Proof.
  intros Hs. unfold refinance_maker. cbv zeta. ensure_step; [by apply ensures_Ok|].
  ensure_step; [apply ensures_bind; intros ? _; by apply ensures_Ok|].
  do 3 (ensure_step; [by apply ensures_Ok|]). apply ensures_bind; intros seat _.
  apply ensures_bind; intros ? _. destruct (rs_vault s) as [v|]; [|by apply ensures_Ok].
  apply ensures_bind. eapply ensures_mono; [apply read_ask_capacity_idle|]. cbv beta. intros cap Hcap.
  ensure_step; [by apply ensures_Ok|]. apply ensures_bind; intros ? _.
  ensure_step; [by apply ensures_Ok|]. do 2 (apply ensures_bind; intros ? _).
  ensure_step; [by apply ensures_Ok|]. apply ensures_fmap.
  apply refinance_fill_backed; [done|]. destruct Hs. lia.
Qed.

Lemma refinance_loop_backed c fuel s current : refinance_backed c s →
  ensures (refinance_loop fuel args s current) (refinance_backed c).
Proof.
  revert s current. induction fuel as [|fuel IH]; intros s current Hs; cbn [refinance_loop];
    (ensure_step; [|by apply ensures_Ok]); [done|].
  apply ensures_bind; intros maker _. apply ensures_bind.
  eapply ensures_mono; [by eapply refinance_maker_backed|]. intros [| |s'] Hst.
  - apply ensures_bind; intros next _. by apply IH.
  - by apply ensures_Ok.
  - apply ensures_bind; intros next _. by apply IH.
Qed.

Lemma match_p2pool_residual_backed c W m vo : backed c W m →
  ensures (match_p2pool_residual_against_asks m args vo) (refinance_backed c).
Proof.
  intros Hm. apply refinance_loop_backed. split; simpl; try lia.
  eapply backed_weaken; [exact (backed_forget _ _ _ Hm)|]. unfold at_seat, locked. simpl.
  rewrite !Z.mul_0_l, Zdiv_0_l. destruct (borrower =? k); lia.
Qed.
End refinance.

(** *** [match_resting_bids] *)

Lemma prune_bid_backed c s current bid : backed c (Some (current, inl bid)) (bs_market s) →
  claim_ok (ro_collateral_atoms bid) (ro_share_price_snapshot bid) →
  ensures (prune_bid s current bid) (λ s', backed c None (bs_market s')).
Proof.
  intros Hm Hb. unfold prune_bid. apply ensures_bind.
  eapply ensures_mono; [by eapply unencumber_atoms_backed|]. intros m1 Hm1. apply ensures_bind.
  eapply ensures_mono; [by eapply remove_order_backed|]. intros m2 Hm2. apply ensures_Ok.
  eapply backed_weaken; [exact Hm2|]. unfold order_claim, at_seat. destruct (_ =? k); lia.
Qed.

Lemma fill_bid_backed c args s current bid fill consumed cap :
  backed c (Some (current, inl bid)) (bs_market s) →
  claim_ok (ro_collateral_atoms bid) (ro_share_price_snapshot bid) →
  (raw (ro_share_price_snapshot bid) = 0 ∨ 0 <= consumed <= ro_collateral_atoms bid) →
  (fill = ro_principal_atoms bid → consumed = ro_collateral_atoms bid) →
  ensures (fill_bid args s current bid fill consumed cap) (λ s', backed c None (bs_market s')).
Proof.
  intros Hm Hb Hle Hfull. unfold fill_bid. cbv zeta. do 3 (apply ensures_bind; intros ? _).
  set (snap := ro_share_price_snapshot bid) in *.
  assert (claim_ok consumed snap) as Hc.
  { destruct Hle as [Hle|Hle]; [by left|]. by destruct (claim_part _ _ _ Hle Hb). }
  apply ensures_bind. eapply ensures_mono; [eapply mint_backed; [exact Hm|exact Hc]|].
  intros [m1 i1] Hm1. apply ensures_bind.
  eapply ensures_mono; [by eapply modify_seat_free; auto with ensures|]. intros m2 Hm2.
  apply ensures_bind. eapply ensures_mono; [by eapply modify_seat_free; auto with ensures|].
  intros m3 Hm3. unfold node_claim in Hm3. simpl in Hm3.
  apply ensures_bind, ensures_mono with (backed c None).
  - destruct (Z.eqb_spec fill (ro_principal_atoms bid)) as [E|E].
    + eapply ensures_mono; [by eapply remove_order_backed|]. intros m4 Hm4.
      eapply backed_weaken; [exact Hm4|]. rewrite (Hfull E). fold snap. unfold order_claim.
      fold snap. destruct (ro_trader_seat_index bid =? k); lia.
    + eapply ensures_mono.
      { eapply (modify_order_backed _ _ _ _ _ (at_seat (ro_trader_seat_index bid) (locked consumed snap)));
          [exact Hm3|]. unfold shrink_bid, order_reduce. apply ensures_bind, ensures_bind.
        intros p _. apply ensures_Ok. apply ensures_bind.
        intros rest Hrest%ok_or_Ok%checked_sub_Some. destruct Hrest as [-> Hrest]. simpl in Hrest.
        apply ensures_Ok. unfold order_claim, at_seat. simpl. fold snap.
        pose proof (locked_split consumed (ro_collateral_atoms bid - consumed) snap (claim_price _ _ Hb)) as Hs.
        replace (consumed + (ro_collateral_atoms bid - consumed)) with (ro_collateral_atoms bid) in Hs by lia.
        split; [destruct (_ =? k); lia|]. destruct Hle as [Hle|Hle]; [by left|].
        by destruct (claim_part (ro_collateral_atoms bid) (ro_collateral_atoms bid - consumed) snap
                       ltac:(lia) Hb). }
      intros m4 Hm4. eapply backed_weaken; [exact Hm4|]. unfold at_seat.
      destruct (ro_trader_seat_index bid =? k); lia.
  - intros m4 Hm4. apply ensures_bind. intros total _. by apply ensures_Ok.
Qed.

Lemma match_bid_backed c args s current bid : backed c (Some (current, inl bid)) (bs_market s) →
  claim_ok (ro_collateral_atoms bid) (ro_share_price_snapshot bid) →
  ensures (match_bid args s current bid) (step_backed (λ s', backed c None (bs_market s'))).
Proof.
  intros Hm Hb. unfold match_bid. cbv zeta.
  ensure_step; [apply ensures_fmap; by apply prune_bid_backed|].
  ensure_step; [by apply ensures_Ok|]. apply ensures_bind; intros ? _.
  do 3 (ensure_step; [by apply ensures_Ok|]).
  apply ensures_bind. eapply ensures_mono; [apply read_ask_capacity_idle|]. cbv beta. intros cap' Hcap.
  ensure_step; [by apply ensures_Ok|]. apply ensures_bind. intros consumed Hc.
  apply ensures_bind; intros ? _. ensure_step; [by apply ensures_Ok|]. apply ensures_fmap.
  destruct (Z.eqb_spec (ro_principal_atoms bid `min` ac_idle cap') (ro_principal_atoms bid)) as [E|E].
  { injection Hc as <-. apply fill_bid_backed; try done. destruct Hb as [Hb|Hb]; [by left|right].
    pose proof (rl_atoms _ _ Hb) as [Ha _]. lia. }
  destruct Hb as [Hb|Hb]; [by apply fill_bid_backed; [|left|left|]|].
  pose proof (rl_atoms _ _ Hb) as [Ha _]. assert (0 < ro_principal_atoms bid) by lia.
  apply mul_div_u64_floor in Hc as ->; [|done|lia|done].
  apply fill_bid_backed; [done|by right| |done]. right.
  split; [apply Z.div_pos; [apply Z.mul_nonneg_nonneg; lia|done]|].
  apply Z.div_le_upper_bound; [done|]. rewrite Z.mul_comm. apply Z.mul_le_mono_nonneg_r; lia.
Qed.

Lemma bids_loop_backed c fuel args s current : backed c None (bs_market s) →
  ensures (bids_loop fuel args s current) (λ s', backed c None (bs_market s')).
Proof.
  revert s current. induction fuel as [|fuel IH]; intros s current Hs; cbn [bids_loop];
    (ensure_step; [|by apply ensures_Ok]); [done|].
  apply ensures_bind. eapply ensures_mono; [by eapply get_order_backed|]. intros bid [Hm Hb].
  apply ensures_bind; intros next _. apply ensures_bind.
  eapply ensures_mono; [by eapply match_bid_backed|]. intros [| |s'] Hst; [by apply IH|by apply ensures_Ok|].
  by apply IH.
Qed.

Lemma match_resting_bids_backed c W m args v : backed c W m →
  ensures (match_resting_bids m args v) (λ s, backed c None (bs_market s)).
Proof. intros Hm. apply bids_loop_backed. exact (backed_forget _ _ _ Hm). Qed.

End seat.
