(* ===== verification/EncumbranceChain.v ===== *)
(** * Collateral stays behind its obligations, on the whole chain

    [Encumbrance] follows the encumbered bucket of one seat through the operations and the
    engines of a market.  Here the loan accounts of the market join the claims: promotion
    turns a queued loan into an account, repayment and the keepers release what an account
    claims, refinancing divides it.  No transaction lowers the cover of a seat, so in every
    reachable state the bucket holds the shares of all claims on it, as long as no seat
    hint imitates a seat ([honestly_reachable]). *)
From stdpp Require Import base numbers list option gmap relations.
From S2P Require Import Prelude FixedPoint Loan Marginfi Oracles Ltv.
From S2P Require Import Hypertree SubVault Market VaultTrees UserAccount.
From S2P Require Import Matching Runtime LoanClose Repay Keeper Promotion Deposits Claims.
From S2P Require Import Convert Admin Orders Program MarketSpec SystemSpec RiskSpec KeeperSpec LoanLife.
From S2P Require Import ExecuteSpec StoreChain VaultChain Encumbrance.
Local Open Scope Z_scope.

(** ** What marginfi hands out *)

(** marginfi pays out a withdrawal of an amount by at most that amount; the adapter alone
    lets one atom more pass ([check_atom_delta]). *)
Definition pays_at_most (invoke_signed : MarginfiIx → list AccountInfo → result (list AccountInfo))
    : Prop :=
  ∀ amount accounts accounts' destination destination' before after,
    in_u U64 amount → invoke_signed (WithdrawIx amount None) accounts = Ok accounts' →
    accounts !! 4%nat = Some destination → accounts' !! 4%nat = Some destination' →
    token_balance_of destination = Ok before → token_balance_of destination' = Ok after →
    after <= before + amount.

Section withdrawal.
Context (invoke_signed : MarginfiIx → list AccountInfo → result (list AccountInfo)).
Context (Hpays : pays_at_most invoke_signed).

(** A withdrawal of the shares of some atoms pays out no more than these. *)
Lemma adapter_withdraw_at_most accounts bank atoms shares : in_u U64 atoms →
  accounts !! 3%nat = Some bank → amount_to_asset_shares [bank] atoms = Ok shares →
  ensures (adapter_withdraw invoke_signed accounts shares) (λ '(withdrawn, _, _), withdrawn <= atoms).
Proof.
  intros Ha Hbank Hs. unfold adapter_withdraw. apply ensures_bind; intros ? _.
  apply ensures_bind; intros ? _. apply ensures_bind. intros bank' Hb%account_at_Ok.
  rewrite Hbank in Hb. injection Hb as <-. apply ensures_bind. intros dst Hdst%account_at_Ok.
  apply ensures_bind. intros view Hview. apply ensures_bind. intros asv Hasv.
  apply ensures_bind. intros q Hq. apply ensures_bind. intros expected Hexpected.
  pose proof (shares_worth_at_most _ _ _ _ _ _ _ Ha Hs Hview Hasv Hq Hexpected) as Hle.
  assert (in_u U64 expected) as Hwide.
  { unfold to_u64_or_overflow in Hexpected. apply mul_scale_range in Hq as [H0 _].
    destruct (Z.ltb_spec (umax U64) (from_scaled_floor q)) as [|Hmax]; [done|].
    injection Hexpected as <-. unfold from_scaled_floor in *. split; [by apply Z.shiftr_nonneg|].
    unfold umax in Hmax. lia. }
  apply ensures_bind. intros before Hbefore. apply ensures_bind; intros ? _. apply ensures_bind.
  intros accounts' Hcall. apply ensures_bind. intros dst' Hdst'%account_at_Ok. apply ensures_bind.
  intros after Hafter. cbv zeta. apply ensures_bind; intros ? _. apply ensures_bind; intros ? _.
  apply ensures_bind; intros ? _. apply ensures_Ok.
  pose proof (Hpays _ _ _ _ _ _ _ Hwide Hcall Hdst Hdst' Hbefore Hafter).
  unfold saturating_sub, in_u in *. lia.
Qed.

(** What the keeper receives of the collateral is at most what was seized. *)
Lemma seize_collateral_at_most invoke_token ctx l ty atoms : in_u U64 atoms →
  ensures (seize_collateral invoke_signed invoke_token ctx l ty atoms)
    (λ '(withdrawn, _), 0 <= withdrawn <= atoms).
Proof.
  intros Ha r Hr. pose proof (seize_collateral_nonneg _ _ _ _ _ _ r Hr) as H0. revert r Hr H0.
  unfold seize_collateral. intros r Hr. apply bind_Ok in Hr as (bank & Hbank & Hr).
  apply bind_Ok in Hr as (shares & Hs & Hr). apply bind_Ok in Hr as ([[w s'] l1] & Hw & Hr).
  apply bind_Ok in Hr as (l2 & _ & [= <-]). intros H0. split; [done|].
  unfold call_withdraw, on_accounts in Hw. apply bind_Ok in Hw as (accs & Haccs & Hw).
  apply bind_Ok in Hw as ([[w' s''] accs'] & Hw & [= <- _ _]).
  destruct (accounts_of_lookup _ _ _ 3 (kc_collateral_bank ctx) Haccs eq_refl) as (bank' & Hb & Hi).
  rewrite Hbank in Hb. injection Hb as <-. exact (adapter_withdraw_at_most _ _ _ _ Ha Hi Hs _ Hw).
Qed.
End withdrawal.

(** ** The claim of a loan account *)

(** Whom a loan account claims from, and at which price. *)
Definition claimant (l : LoanFixed) : Pubkey * Z * Fp48 :=
  (loan_market l, loan_borrower_seat_index l, borrower_collateral_share_price_snapshot_fp48 l).

Definition loan_ok (l : LoanFixed) : Prop :=
  claim_ok (loan_collateral_atoms l) (borrower_collateral_share_price_snapshot_fp48 l).

(** A step of a loan that leaves its claim alone. *)
Definition keeps_claim (l l' : LoanFixed) : Prop :=
  claimant l' = claimant l ∧ loan_collateral_atoms l' = loan_collateral_atoms l.

Lemma accrue_loan_claim l t : ensures (accrue_loan l t) (keeps_claim l).
Proof. unfold accrue_loan. cbv zeta. ensure_walk; done. Qed.
Lemma partial_resolution_claim l n : ensures (apply_partial_resolution l n) (λ '(l', _), keeps_claim l l').
Proof. unfold apply_partial_resolution. cbv zeta. ensure_walk; done. Qed.
Lemma move_protocol_fee_claim n l : ensures (move_protocol_fee n l) (keeps_claim l).
Proof. unfold move_protocol_fee. ensure_walk; done. Qed.
Lemma clawback_claim n l : ensures (clawback_curator_fee n l) (keeps_claim l).
Proof. unfold clawback_curator_fee. ensure_walk; done. Qed.
Lemma fixed_repaid_claim l n : ensures (fixed_repaid l n) (λ '(l', _), keeps_claim l l').
Proof.
  unfold fixed_repaid. apply ensures_bind. eapply ensures_mono; [apply partial_resolution_claim|].
  intros [l1 ?] H. apply ensures_Ok. by destruct (_ =? 0).
Qed.

(** What a keeper leaves of the collateral. *)
Definition keeper_left (full : bool) (withdrawn : Z) (l l' : LoanFixed) : Prop :=
  claimant l' = claimant l
  ∧ (full = false → loan_collateral_atoms l' = saturating_sub (loan_collateral_atoms l) withdrawn).

Lemma resolve_p2pool_left shares out l withdrawn full :
  keeper_left full withdrawn l
    (resolve_p2pool shares out (loan_collateral_atoms l) withdrawn full l).
Proof. by destruct full. Qed.

Lemma resolve_fixed_left actual fee gap l withdrawn full :
  ensures (resolve_fixed actual fee gap (loan_collateral_atoms l) withdrawn full l)
    (keeper_left full withdrawn l).
Proof.
  unfold resolve_fixed. apply ensures_bind. eapply ensures_mono; [apply partial_resolution_claim|].
  intros [l1 ?] [H1 _]. apply ensures_bind. eapply ensures_mono; [apply move_protocol_fee_claim|].
  intros l2 [H2 _]. apply ensures_bind. eapply ensures_mono; [apply clawback_claim|].
  intros l3 [H3 _]. cbv zeta. apply ensures_bind; intros ? _. apply ensures_Ok.
  split; [|by intros ->]. rewrite <- H1, <- H2, <- H3. by destruct full.
Qed.

(** ** The handlers *)

Section seat.
Context (k : Z) (mk : Pubkey).
Implicit Types (m : Market) (w : World) (v : Vault) (c i : Z) (l : LoanFixed).

Local Abbreviation backed := (backed k).
Local Abbreviation at_seat := (at_seat k).

Definition loan_claim l : Z :=
  if loan_market l =? mk
  then at_seat (loan_borrower_seat_index l)
         (locked (loan_collateral_atoms l) (borrower_collateral_share_price_snapshot_fp48 l))
  else 0.

Lemma loan_claim_nonneg l : loan_ok l → 0 <= loan_claim l.
Proof.
  intros H%claim_nonneg. unfold loan_claim, Encumbrance.at_seat.
  destruct (loan_market l =? mk), (loan_borrower_seat_index l =? k); lia.
Qed.

Lemma keeps_claim_eq l l' : keeps_claim l l' → loan_claim l' = loan_claim l ∧ (loan_ok l → loan_ok l').
Proof.
  intros [[= E1 E2 E3] E4]. unfold loan_claim, loan_ok. by rewrite E1, E2, E3, E4.
Qed.

Lemma keeps_claim_market l l' : keeps_claim l l' → loan_market l = mk → loan_market l' = mk.
Proof. intros [[= -> _ _] _]. done. Qed.

(** The seat covers the claims of the market and of the loan account of the transaction. *)
Record covered c w : Prop := {
  cv_market : backed (c + from_option loan_claim 0 (wd_loan w)) None (wd_market w);
  cv_loan : ∀ l, wd_loan w = Some l → loan_ok l ∧ loan_market l = mk }.

(** A handler that touches no loan account. *)
Definition keeps_backed (f : World → result World) : Prop :=
  ∀ w c, backed c None (wd_market w) →
    ensures (f w) (λ w', backed c None (wd_market w') ∧ wd_loan w' = wd_loan w).

(** A handler on the loan account of the market. *)
Definition keeps_covered (f : World → result World) : Prop :=
  ∀ w c, covered c w → is_Some (wd_loan w) → ensures (f w) (covered c).

Lemma covered_kept c w w' : covered c w →
  backed (c + from_option loan_claim 0 (wd_loan w)) None (wd_market w') → wd_loan w' = wd_loan w →
  covered c w'.
Proof. intros [Hm Hl] Hm' E. by split; rewrite E. Qed.

Local Hint Resolve expand_market_if_needed_backed expand_market_to_free_blocks_backed
  take_order_sequence_backed claim_seat_backed cancel_order_by_index_backed update_user_bid_backed
  rest_vault_ask_backed match_resting_bids_backed modify_seat_free bump_open_borrow_takes
  bump_open_lend_takes drop_open_lend_takes drop_open_borrow_takes add_open_borrows_takes
  swept_seat_takes add_debt_shares_takes seat_kept_takes : ensures.

Lemma deposit_to_seat_backed c W m i n b : backed c W m → ensures (deposit_to_seat m i n b) (backed c W).
Proof.
  intros Hm. apply modify_seat_free; [done|].
  destruct b; [apply (update_balance_takes Debt Withdrawable Plus)
              |apply (update_balance_takes Collateral Withdrawable Plus)].
Qed.
Lemma withdraw_from_seat_backed c W m i n b : backed c W m →
  ensures (withdraw_from_seat m i n b) (backed c W).
Proof.
  intros Hm. apply modify_seat_free; [done|].
  destruct b; [apply (update_balance_takes Debt Withdrawable Minus)
              |apply (update_balance_takes Collateral Withdrawable Minus)].
Qed.
Hint Resolve deposit_to_seat_backed withdraw_from_seat_backed : ensures.

Section handlers.
Context (invoke_signed : MarginfiIx → list AccountInfo → result (list AccountInfo)).
Context (invoke_token : TokenIx → list AccountInfo → result (list AccountInfo)).
Context (parse : list Z → option StakeState) (now : Z).

(** *** Seats and bids *)

Lemma claim_seat_covers key payer : keeps_backed (process_claim_seat key payer).
Proof. intros w c Hm. unfold process_claim_seat, claim_seat. by ensure_walk. Qed.
Lemma deposit_covers ctx n h : keeps_backed (process_deposit invoke_signed invoke_token ctx n h).
Proof. intros w c Hm. unfold process_deposit. cbv zeta. by ensure_walk. Qed.
Lemma withdraw_covers ctx n h b : keeps_backed (process_withdraw invoke_signed invoke_token ctx n h b).
Proof. intros w c Hm. unfold process_withdraw. cbv zeta. by ensure_walk. Qed.
Lemma cancel_order_covers key payer q h : keeps_backed (process_cancel_order key payer q h).
Proof. intros w c Hm. unfold process_cancel_order. by ensure_walk. Qed.
Lemma update_order_covers key payer p : keeps_backed (process_update_order now key payer p).
Proof. intros w c Hm. unfold process_update_order. by ensure_walk. Qed.
Lemma sync_covers key o : keeps_backed (process_sync_market_position key o).
Proof. intros w c Hm. unfold process_sync_market_position. by ensure_walk. Qed.

Lemma wrapped_price n : in_i 128 n → ensures (wrapped_i80f48_to_u128 n) (in_u U128).
Proof.
  intros [H0 H1]. unfold wrapped_i80f48_to_u128. ensure_walk. unfold in_u. simpl in *.
  norm_pow. lia.
Qed.

Lemma share_value_price led b : ensures (bank_asset_share_value led b) (λ p, in_u U128 (raw p)).
Proof.
  unfold bank_asset_share_value. apply ensures_bind; intros a _. apply ensures_bind. intros view Hview.
  assert (in_i 128 (asset_share_value view)) as Hv.
  { apply map_err_Ok in Hview. apply (borrow_bank_range (ai_data a)).
    unfold borrow_bank. by rewrite Hview. }
  apply ensures_bind. eapply ensures_mono; [by apply wrapped_price|]. intros n Hn. by apply ensures_Ok.
Qed.

Lemma place_order_args_collateral ctx p led : ensures (place_order_args parse now ctx p led)
  (λ f, ∀ i, pa_collateral_atoms (f i) = pp_collateral_atoms p
    ∧ in_u U128 (raw (pa_share_price_snapshot_fp48 (f i)))).
Proof.
  unfold place_order_args. apply ensures_bind. eapply ensures_mono; [apply share_value_price|].
  intros snap Hs. do 8 forget. apply ensures_Ok. by intros i.
Qed.

Lemma record_fallback_backed c m payer h i o n : backed c None m →
  ensures (record_fallback m payer h i o n) (backed c None).
Proof.
  intros Hm. unfold record_fallback. apply ensures_bind, ensures_mono with (backed c None).
  - ensure_step; [|by apply ensures_Ok]. forget. by apply deposit_to_seat_backed.
  - intros m1 Hm1. unfold modify_value. apply ensures_bind, ensures_bind.
    intros x Hx%region_get_lookup. apply ensures_bind. intros y [= <-]. unfold region_set. rewrite Hx.
    simpl. do 2 apply ensures_Ok. eapply backs_set; [exact Hm1|exact Hx| | |done].
    + unfold held. simpl. unfold node_claim. simpl. lia.
    + exact (bk_ok _ _ _ _ _ Hm1 i _ Hx).
Qed.

Lemma place_order_covers ctx fb p : in_u U64 (pp_collateral_atoms p) →
  keeps_backed (process_place_order parse now invoke_signed ctx fb p).
Proof.
  intros Hp w c Hm. unfold process_place_order. cbv zeta. apply ensures_bind.
  eapply ensures_mono; [by eapply expand_market_if_needed_backed|]. intros m1 Hm1. apply ensures_bind.
  eapply ensures_mono; [apply place_order_args_collateral|]. intros f Hf. do 3 forget.
  apply ensures_bind. eapply ensures_mono; [by eapply expand_market_to_free_blocks_backed|].
  intros m2 Hm2. apply ensures_bind. intros i _. destruct (Hf i) as [Hc Hs].
  apply ensures_bind. eapply ensures_mono.
  { eapply match_borrower_bid_backed; [by rewrite Hc|done|exact Hm2]. }
  intros [[m3 v3] r] Hm3. apply ensures_bind, ensures_mono with (λ '(m', _), backed c None m').
  { ensure_step; [|by apply ensures_Ok]. forget. apply ensures_bind.
    eapply ensures_mono; [by eapply record_fallback_backed|]. intros m4 Hm4. by apply ensures_Ok. }
  intros [m4 l4] Hm4. do 2 forget. by apply ensures_Ok.
Qed.

(** *** Promotion *)

Lemma find_queue_node_backed c m q : backed c None m →
  ensures (find_queue_node m q) (λ '(n, i), backed c (Some (i, inr n)) m
    ∧ claim_ok (ml_collateral_atoms n) (ml_borrower_collateral_share_price_snapshot_fp48 n)).
Proof.
  intros Hm. unfold find_queue_node. do 2 forget. apply ensures_bind.
  eapply ensures_mono; [by eapply get_loan_backed|]. intros n Hn. by apply ensures_Ok.
Qed.

Lemma do_vault_settle_market ctx p se r cf id w :
  ensures (do_vault_settle invoke_signed invoke_token ctx now p se r cf id w)
    (λ w', wd_market w' = wd_market w ∧ wd_loan w' = wd_loan w).
Proof. unfold do_vault_settle. cbv zeta. by ensure_walk. Qed.

Lemma promotion_covers ctx q w c : pc_market ctx = mk → covered c w → wd_loan w = None →
  ensures (process_primary_promotion invoke_signed invoke_token ctx now q w) (covered c).
Proof.
  intros Hk [Hm _] Hnone. rewrite Hnone in Hm. simpl in Hm. rewrite Z.add_0_r in Hm.
  unfold process_primary_promotion. cbv zeta. apply ensures_bind.
  eapply ensures_mono; [by eapply find_queue_node_backed|]. intros [n i] [Hm1 Hok].
  forget. apply ensures_bind; intros ty _. apply ensures_bind; intros net _. forget.
  apply ensures_bind; intros [[kind id] gv] _. do 3 forget.
  set (loan := promoted_loan _ _ _ _ _ _ _ _ _).
  apply ensures_bind, ensures_mono with (λ w', wd_market w' = wd_market w ∧ wd_loan w' = Some loan).
  { ensure_step; [|by apply ensures_Ok]. forget.
    eapply ensures_mono; [apply do_vault_settle_market|]. intros w1 [E1 E2]. by rewrite E1, E2. }
  intros w1 [E1 E2]. apply ensures_bind, ensures_mono with (backed c (Some (i, inr n))).
  { rewrite E1. ensure_step; [by apply deposit_to_seat_backed|by apply ensures_Ok]. }
  intros m2 Hm2. apply ensures_bind; intros fees _. apply ensures_bind.
  eapply ensures_mono; [eapply (retire_node_backed k c _ i n); exact Hm2|]. intros m3 Hm3.
  apply ensures_Ok. simpl. split; simpl; rewrite E2; simpl.
  - replace (loan_claim loan) with (node_claim k n); [done|].
    unfold loan_claim, node_claim, Encumbrance.at_seat. simpl. by rewrite Hk, Z.eqb_refl.
  - intros l [= <-]. split; [exact Hok|exact Hk].
Qed.

(** *** Repayment *)

Lemma credit_lender_backed c m i f n full : backed c None m →
  ensures (credit_lender m i f n full) (backed c None).
Proof.
  intros Hm. unfold credit_lender. apply ensures_bind, ensures_mono with (backed c None).
  - by ensure_walk.
  - intros m1 Hm1. forget. apply modify_seat_free; [done|]. apply takes_bind0.
    + apply add_debt_shares_takes.
    + destruct full; [apply drop_open_lend_takes|apply seat_kept_takes].
Qed.

(** The release at the close of a loan. *)
Lemma release_borrower_backed c m l : loan_ok l → loan_market l = mk →
  backed (c + loan_claim l) None m →
  ensures (release_borrower m (loan_borrower_seat_index l) (loan_collateral_atoms l)
             (borrower_collateral_share_price_snapshot_fp48 l)) (backed c None).
Proof.
  intros Hl Hk Hm. unfold release_borrower.
  apply ensures_bind, ensures_mono with (backed c None).
  - ensure_step.
    + apply ensures_bind. eapply ensures_mono; [by apply claim_shares|]. intros n ->.
      eapply ensures_mono; [by eapply release_loan_collateral_backed|]. intros m1 Hm1.
      eapply backed_weaken; [exact Hm1|]. unfold loan_claim. rewrite Hk, Z.eqb_refl. lia.
    + apply ensures_Ok. eapply backed_weaken; [exact Hm|]. pose proof (loan_claim_nonneg l Hl). lia.
  - intros m1 Hm1. by ensure_walk.
Qed.

Lemma sync_position_market w key o : ensures (sync_position w key o)
  (λ w', wd_market w' = wd_market w ∧ wd_loan w' = wd_loan w).
Proof. unfold sync_position. by ensure_walk. Qed.
Lemma drop_open_loan_ref_market w key : ensures (drop_open_loan_ref w key)
  (λ w', wd_market w' = wd_market w ∧ wd_loan w' = wd_loan w).
Proof. unfold drop_open_loan_ref. by ensure_walk. Qed.
Lemma close_out_vault_market w id bank x : ensures (close_out_vault w id bank x now)
  (λ w', wd_market w' = wd_market w ∧ wd_loan w' = wd_loan w).
Proof. unfold close_out_vault. by ensure_walk. Qed.

(** The loan of the transaction, after a step that kept its claim. *)
Lemma covered_step c w l l' m ledger : covered c w → wd_loan w = Some l → keeps_claim l l' →
  backed (c + loan_claim l) None m →
  covered c (w <| wd_market := m |> <| wd_loan := Some l' |> <| wd_ledger := ledger |>).
Proof.
  intros [_ Hl] E Hk Hm. destruct (Hl l E) as [Hok Hmk]. destruct (keeps_claim_eq _ _ Hk) as [Ec Hok'].
  split; simpl; [by rewrite Ec|]. intros l0 [= <-]. split; [by apply Hok'|].
  destruct Hk as [[= Em _ _] _]. congruence.
Qed.

Lemma repay_p2pool_covers ctx p w c l0 l : covered c w → wd_loan w = Some l0 → keeps_claim l0 l →
  ensures (repay_p2pool invoke_signed invoke_token ctx now p w l) (covered c).
Proof.
  intros Hw Hl0 Hk. pose proof Hw as [Hm Hl]. rewrite Hl0 in Hm. simpl in Hm.
  destruct (Hl l0 Hl0) as [Hok Hmk]. destruct (keeps_claim_eq _ _ Hk) as [Ec Hok'].
  unfold repay_p2pool. cbv zeta. do 16 forget. apply ensures_bind. intros [[post full] out] _.
  assert (keeps_claim l0 (p2pool_repaid now l (if full then 0 else post) out full)) as Hk'.
  { destruct Hk as [Hk1 Hk2]. split; [rewrite <- Hk1|rewrite <- Hk2]; by destruct full. }
  destruct (keeps_claim_eq _ _ Hk') as [Ec' Hok''].
  set (loan' := p2pool_repaid _ _ _ _ _) in *.
  apply ensures_bind. eapply ensures_mono; [apply sync_position_market|]. intros w1 [E1 E2].
  simpl in E1, E2. destruct full.
  - apply ensures_bind. eapply ensures_mono.
    { apply (release_borrower_backed c);
        [by apply Hok'|by apply (keeps_claim_market _ _ Hk)|rewrite E1, Ec; exact Hm]. }
    intros m1 Hm1. apply ensures_bind. eapply ensures_mono; [apply drop_open_loan_ref_market|].
    intros w2 [E3 E4]. apply ensures_Ok. split; simpl; [|done]. by rewrite E3, Z.add_0_r.
  - apply ensures_Ok. split; rewrite ?E1, E2; simpl; [by rewrite Ec'|].
    intros l1 [= <-]. split; [by apply Hok''|]. by apply (keeps_claim_market _ _ Hk').
Qed.

Lemma repay_fixed_covers ctx p w c l0 l : covered c w → wd_loan w = Some l0 → keeps_claim l0 l →
  ensures (repay_fixed invoke_signed invoke_token ctx now p w l) (covered c).
Proof.
  intros Hw Hl0 Hk. pose proof Hw as [Hm Hl]. rewrite Hl0 in Hm. simpl in Hm.
  destruct (Hl l0 Hl0) as [Hok Hmk]. destruct (keeps_claim_eq _ _ Hk) as [Ec Hok'].
  pose proof (keeps_claim_market _ _ Hk Hmk) as Hmk'.
  unfold repay_fixed. cbv zeta. forget. forget. forget. apply ensures_bind.
  eapply ensures_mono; [apply fixed_repaid_claim|]. intros [l' full] Hk1.
  destruct (keeps_claim_eq _ _ Hk1) as [Ec1 Hok1]. do 2 forget. apply ensures_bind.
  eapply ensures_mono; [by eapply credit_lender_backed|]. intros m1 Hm1.
  apply ensures_bind, ensures_mono with (backed (c + if full then 0 else loan_claim l') None).
  { destruct full.
    - rewrite Z.add_0_r. apply release_borrower_backed; [by apply Hok'|done|by rewrite Ec].
    - apply ensures_Ok. by rewrite Ec1, Ec. }
  intros m2 Hm2. apply ensures_bind, ensures_mono with (λ w', wd_market w' = m2 ∧ wd_loan w' = Some l').
  { destruct full; [|by apply ensures_Ok].
    eapply ensures_mono; [apply close_out_vault_market|]. intros w1 [E1 E2]. by rewrite E1, E2. }
  intros w1 [E1 E2]. apply ensures_bind. eapply ensures_mono; [apply sync_position_market|].
  intros w2 [E3 E4]. destruct full.
  - apply ensures_bind. eapply ensures_mono; [apply drop_open_loan_ref_market|]. intros w3 [E5 E6].
    apply ensures_Ok. split; simpl; [by rewrite E5, E3, E1|done].
  - apply ensures_Ok. split; rewrite E4, E2; simpl; [by rewrite E3, E1|].
    intros l1 [= <-]. split; [by apply Hok1, Hok'|]. by apply (keeps_claim_market _ _ Hk1).
Qed.

Lemma repay_covers ctx p : keeps_covered (process_repay invoke_signed invoke_token ctx now p).
Proof.
  intros w c Hw [l0 Hl0]. unfold process_repay, the_loan. rewrite Hl0. apply ensures_bind, ensures_Ok.
  forget. apply ensures_bind. eapply ensures_mono; [apply accrue_loan_claim|]. intros l Hk. do 3 forget.
  ensure_step; [by eapply repay_fixed_covers|by eapply repay_p2pool_covers].
Qed.

(** *** The keepers *)

(** The collateral divides into what is taken and what is left. *)
Lemma claim_divides x n snapshot : claim_ok n snapshot → 0 <= x →
  raw snapshot = 0 ∨ x <= n →
  claim_ok x snapshot ∧ claim_ok (saturating_sub n x) snapshot
  ∧ locked x snapshot + locked (saturating_sub n x) snapshot <= locked n snapshot.
Proof.
  intros Hn H0 Hx. destruct (Z.eqb_spec (raw snapshot) 0) as [E|E].
  - split; [by left|split; [by left|]]. unfold locked. by rewrite E, !Zdiv_0_r.
  - destruct Hx as [Hx|Hx]; [done|]. unfold saturating_sub. rewrite Z.max_r by lia.
    destruct (claim_part n x snapshot (conj H0 Hx) Hn) as [H1 _].
    destruct (claim_part n (n - x) snapshot ltac:(lia) Hn) as [H2 _].
    split; [done|split; [done|]].
    pose proof (locked_split x (n - x) snapshot (claim_price _ _ Hn)) as H.
    by replace (x + (n - x)) with n in H by lia.
Qed.

(** What a keeper may take of the collateral of a loan. *)
Definition takeable l x : Prop :=
  0 <= x ∧ (raw (borrower_collateral_share_price_snapshot_fp48 l) = 0 ∨ x <= loan_collateral_atoms l).

(** What the loan claims after a keeper's payment. *)
Definition claim_left (full : bool) l x : Z :=
  if full then 0 else loan_claim (l <| loan_collateral_atoms ::= λ n, saturating_sub n x |>).

Lemma claim_left_eq l x : loan_market l = mk → claim_left false l x =
  at_seat (loan_borrower_seat_index l) (locked (saturating_sub (loan_collateral_atoms l) x)
    (borrower_collateral_share_price_snapshot_fp48 l)).
Proof. intros Hk. unfold claim_left, loan_claim. simpl. by rewrite Hk, Z.eqb_refl. Qed.

Lemma loan_claim_eq l : loan_market l = mk → loan_claim l =
  at_seat (loan_borrower_seat_index l)
    (locked (loan_collateral_atoms l) (borrower_collateral_share_price_snapshot_fp48 l)).
Proof. intros Hk. unfold loan_claim. by rewrite Hk, Z.eqb_refl. Qed.

Lemma settle_borrower_seat_backed c m l x full : loan_ok l → loan_market l = mk → takeable l x →
  backed (c + loan_claim l) None m →
  ensures (settle_borrower_seat m l x full) (backed (c + claim_left full l x) None).
Proof.
  intros Hl Hk [H0 Hx] Hm. destruct (claim_divides x _ _ Hl H0 Hx) as (Hx1 & Hx2 & Hle).
  rewrite loan_claim_eq in Hm by done. pose proof (claim_nonneg _ _ Hx1) as Hn1.
  assert (backed (c + claim_left full l x + at_seat (loan_borrower_seat_index l)
    (locked x (borrower_collateral_share_price_snapshot_fp48 l))) None m) as Hm'.
  { eapply backed_weaken; [exact Hm|]. destruct full.
    - simpl. pose proof (claim_nonneg _ _ Hx2). unfold Encumbrance.at_seat. destruct (_ =? k); lia.
    - rewrite claim_left_eq by done. unfold Encumbrance.at_seat. destruct (_ =? k); lia. }
  unfold settle_borrower_seat. ensure_step.
  - apply ensures_bind. eapply ensures_mono; [by apply claim_shares|]. intros n ->.
    eapply ensures_mono.
    { eapply (modify_seat_backed k _ _ _ _ _
        (locked x (borrower_collateral_share_price_snapshot_fp48 l))); [exact Hm'|]. intros s.
      destruct full; unfold enc, drop_open_borrow; ensure_walk; simpl; unfold saturating_sub; lia. }
    intros m' Hm''. eapply backed_weaken; [exact Hm''|]. lia.
  - apply ensures_Ok. eapply backed_weaken; [exact Hm'|]. unfold Encumbrance.at_seat.
    destruct (_ =? k); lia.
Qed.

Lemma liquidate_borrower_seat_backed c m l x full : loan_ok l → loan_market l = mk → takeable l x →
  backed (c + loan_claim l) None m →
  ensures (liquidate_borrower_seat m l x full) (backed (c + claim_left full l x) None).
Proof.
  intros Hl Hk [H0 Hx] Hm. destruct (claim_divides x _ _ Hl H0 Hx) as (Hx1 & Hx2 & Hle).
  rewrite loan_claim_eq in Hm by done. unfold liquidate_borrower_seat. cbv zeta.
  apply ensures_bind; intros surplus _. eapply ensures_mono.
  { eapply (modify_seat_backed k _ _ _ _ _
      (locked (if full then loan_collateral_atoms l else x)
         (borrower_collateral_share_price_snapshot_fp48 l))); [exact Hm|]. intros s.
    apply ensures_bind. eapply ensures_mono; [apply claim_shares; by destruct full|]. intros n ->.
    set (n := locked _ _). apply ensures_bind.
    apply ensures_mono with (λ s', enc s - n <= enc s').
    - unfold enc. ensure_walk; simpl; unfold saturating_sub; lia.
    - intros s1 H1. destruct full; [|by apply ensures_Ok].
      eapply ensures_mono; [apply drop_open_borrow_takes|]. cbv beta. intros s2 H2. lia. }
  intros m' Hm'. eapply backed_weaken; [exact Hm'|]. destruct full; [unfold claim_left; lia|].
  rewrite claim_left_eq by done. unfold Encumbrance.at_seat. destruct (_ =? k); lia.
Qed.

(** A loan that a keeper left: its claim is what is left of the claim. *)
Lemma keeper_left_claim l l' x full : loan_ok l → loan_market l = mk → takeable l x →
  keeper_left full x l l' →
  loan_market l' = mk ∧ (full = false → loan_claim l' = claim_left false l x ∧ loan_ok l').
Proof.
  intros Hl Hk [H0 Hx] [[= E1 E2 E3] Hc]. split; [congruence|]. intros Hf. specialize (Hc Hf).
  destruct (claim_divides x _ _ Hl H0 Hx) as (_ & Hx2 & _).
  unfold claim_left, loan_claim, loan_ok. simpl. by rewrite E1, E2, E3, Hc.
Qed.

Lemma keeper_close_out_covers ctx w c l x ty pm l' :
  loan_ok l → loan_market l = mk → takeable l x → keeper_left (pm_full pm) x l l' →
  backed (c + claim_left (pm_full pm) l x) None (wd_market w) → wd_loan w = Some l' →
  ensures (keeper_close_out ctx now w l' ty pm) (covered c).
Proof.
  intros Hl Hk Hx Hleft Hm Hw. destruct (keeper_left_claim l l' x _ Hl Hk Hx Hleft) as [Hk' Hl'].
  unfold keeper_close_out. cbv zeta. apply ensures_bind.
  apply ensures_mono with (λ w', backed (c + claim_left (pm_full pm) l x) None (wd_market w')
    ∧ wd_loan w' = Some l').
  - ensure_step; [|by apply ensures_Ok]. do 2 forget. apply ensures_bind.
    eapply ensures_mono; [by eapply credit_lender_backed|]. intros m1 Hm1.
    ensure_step; [|by apply ensures_Ok].
    eapply ensures_mono; [apply close_out_vault_market|]. intros w1 [E1 E2]. by rewrite E1, E2.
  - intros w1 [Hm1 Hw1]. apply ensures_Ok. destruct (pm_full pm).
    + split; simpl; [|done]. rewrite Z.add_0_r. eapply backed_weaken; [exact Hm1|]. simpl. lia.
    + destruct (Hl' eq_refl) as [Ec Hok]. split; rewrite Hw1; simpl; [by rewrite Ec|].
      by intros l1 [= <-].
Qed.

Lemma open_and_accrue_claim w l : wd_loan w = Some l → ensures (open_and_accrue now w) (keeps_claim l).
Proof.
  intros Hl. unfold open_and_accrue, the_loan. rewrite Hl. simpl. forget. apply accrue_loan_claim.
Qed.

Lemma takeable_kept l x y : takeable l x → 0 <= y <= x → takeable l y.
Proof. intros [H0 [Hx|Hx]] Hy; (split; [lia|]); [by left|right; lia]. Qed.

(** Only a priced loan bounds what is taken from it. *)
Lemma takeable_priced l x : loan_ok l → 0 <= x →
  (in_u U64 (loan_collateral_atoms l) → x <= loan_collateral_atoms l) → takeable l x.
Proof. intros [Hl|[Hl _ _]] H0 Hx; (split; [done|]); [by left|right; auto]. Qed.

Lemma seize_takeable ctx led l ty n : pays_at_most invoke_signed → loan_ok l →
  (in_u U64 (loan_collateral_atoms l) → 0 <= n <= loan_collateral_atoms l) →
  ensures (seize_collateral invoke_signed invoke_token ctx led ty n) (λ '(x, _), takeable l x).
Proof.
  intros Hp Hl Hn r Hr. pose proof (seize_collateral_nonneg _ _ _ _ _ _ r Hr) as H0.
  destruct r as [x l']. apply takeable_priced; [done..|]. intros Hc. specialize (Hn Hc).
  assert (in_u U64 n) as Hn' by (unfold in_u in *; lia).
  pose proof (seize_collateral_at_most _ Hp _ _ _ _ _ Hn' _ Hr) as Hx. simpl in Hx. lia.
Qed.

Lemma settle_covers ctx data : pays_at_most invoke_signed →
  keeps_covered (process_settle_matured_loan invoke_signed invoke_token ctx now data).
Proof.
  intros Hp w c [Hm Hl] [l0 Hl0]. rewrite Hl0 in Hm. simpl in Hm. destruct (Hl l0 Hl0) as [Hok0 Hk0].
  unfold process_settle_matured_loan. cbv zeta. forget. apply ensures_bind.
  eapply ensures_mono; [by eapply open_and_accrue_claim|]. intros l Hkeep.
  destruct (keeps_claim_eq _ _ Hkeep) as [Ec Hok]. pose proof (Hok Hok0) as Hok1.
  pose proof (keeps_claim_market _ _ Hkeep Hk0) as Hk. rewrite <- Ec in Hm.
  do 2 forget. apply ensures_bind; intros out _. forget. apply ensures_bind.
  intros actual [Ha _]%size_keeper_repay_bounds. apply ensures_bind.
  apply ensures_mono with (λ n, in_u U64 (loan_collateral_atoms l) → 0 <= n <= loan_collateral_atoms l).
  { ensure_step; [apply ensures_Ok; unfold in_u; lia|]. intros n Hn [Hc _].
    apply mul_div_u64_floor in Hn as ->; [|lia..].
    split; [apply Z.div_pos; nia|apply Z.div_le_upper_bound; nia]. }
  intros seized Hs. do 4 forget. apply ensures_bind; intros [pm ledger] _. forget.
  apply ensures_bind, ensures_mono with (λ '(x, _), takeable l x).
  { ensure_step; [by apply seize_takeable|]. apply ensures_Ok, takeable_priced; [done..|].
    intros [H _]. lia. }
  intros [x ledger'] Hx. apply ensures_bind.
  eapply ensures_mono; [by apply (settle_borrower_seat_backed c)|]. intros m1 Hm1. forget.
  apply ensures_bind, ensures_mono with (keeper_left (pm_full pm) x l).
  { ensure_step; [apply resolve_fixed_left|apply ensures_Ok, resolve_p2pool_left]. }
  intros l' Hl'. by eapply keeper_close_out_covers.
Qed.

Lemma liquidate_covers ctx data : pays_at_most invoke_signed →
  keeps_covered (process_liquidate_loan invoke_signed invoke_token parse ctx now data).
Proof.
  intros Hp w c [Hm Hl] [l0 Hl0]. rewrite Hl0 in Hm. simpl in Hm. destruct (Hl l0 Hl0) as [Hok0 Hk0].
  unfold process_liquidate_loan. cbv zeta. forget. apply ensures_bind.
  eapply ensures_mono; [by eapply open_and_accrue_claim|]. intros l Hkeep.
  destruct (keeps_claim_eq _ _ Hkeep) as [Ec Hok]. pose proof (Hok Hok0) as Hok1.
  pose proof (keeps_claim_market _ _ Hkeep Hk0) as Hk. rewrite <- Ec in Hm.
  forget. apply ensures_bind; intros out _. do 2 forget. apply ensures_bind.
  apply ensures_mono with (λ s, liquidator_seizes_atoms s <= loan_collateral_atoms l
    ∧ (0 <= loan_collateral_atoms l → 0 <= liquidator_seizes_atoms s)).
  { unfold liquidation_split. do 4 forget. apply ensures_bind.
    eapply ensures_mono; [apply required_collateral_nonneg|]. intros v Hv. by apply split_takes. }
  intros split [Hs1 Hs2]. do 2 forget. apply ensures_bind; intros [pm ledger] _.
  apply ensures_bind. eapply ensures_mono.
  { apply seize_takeable; [done|exact Hok1|]. intros [Hc _]. split; [by apply Hs2|exact Hs1]. }
  intros [x ledger'] Hx. apply ensures_bind.
  eapply ensures_mono; [by apply (liquidate_borrower_seat_backed c)|]. intros m1 Hm1. forget.
  apply ensures_bind, ensures_mono with (keeper_left (pm_full pm) x l).
  { ensure_step; [apply resolve_fixed_left|apply ensures_Ok, resolve_p2pool_left]. }
  intros l' Hl'. by eapply keeper_close_out_covers.
Qed.

(** *** Refinancing *)

(** The new loans and the rest share the claim of the refinanced loan. *)
Lemma refinanced_split (args : MatchP2PoolRefinanceArgs) c s : 0 < ra_principal_cap_atoms args →
  0 <= ra_loan_collateral_atoms args →
  claim_ok (ra_loan_collateral_atoms args) (ra_borrower_collateral_share_price_snapshot_fp48 args) →
  let snap := ra_borrower_collateral_share_price_snapshot_fp48 args in
  let rest := ra_loan_collateral_atoms args - rs_total_filled_collateral s in
  refinance_backed k args (c + at_seat (ra_borrower_seat_index args)
    (locked (ra_loan_collateral_atoms args) snap)) s →
  claim_ok rest snap ∧ 0 <= rest
  ∧ backed (c + at_seat (ra_borrower_seat_index args) (locked rest snap)) None (rs_market s).
Proof.
  intros Hcap H0 Hok snap rest Hs. pose proof (refinance_filled _ _ Hcap H0 _ _ Hs) as [Hn Hle].
  destruct (claim_part (ra_loan_collateral_atoms args) rest snap ltac:(unfold rest; lia) Hok) as [Hrest _].
  split; [done|split; [unfold rest; lia|]]. destruct Hs as [Hm _ _ _ _ _].
  eapply backed_weaken; [exact Hm|]. fold snap.
  pose proof (locked_split (rs_total_filled_collateral s) rest snap (claim_price _ _ Hrest)) as H.
  replace (rs_total_filled_collateral s + rest) with (ra_loan_collateral_atoms args) in H
    by (unfold rest; lia).
  unfold Encumbrance.at_seat. destruct (_ =? k); lia.
Qed.

Lemma release_converted_backed c m l n :
  claim_ok (loan_collateral_atoms l - n) (borrower_collateral_share_price_snapshot_fp48 l) →
  0 <= loan_collateral_atoms l - n →
  backed (c + at_seat (loan_borrower_seat_index l) (locked (loan_collateral_atoms l - n)
    (borrower_collateral_share_price_snapshot_fp48 l))) None m →
  ensures (release_converted m l n) (backed c None).
Proof.
  intros Hok Hn Hm. unfold release_converted. apply ensures_bind.
  eapply ensures_mono; [eapply modify_seat_free; [exact Hm|apply drop_open_borrow_takes]|].
  intros m1 Hm1. cbv zeta. unfold saturating_sub. rewrite Z.max_r by done. ensure_step.
  - apply ensures_bind. eapply ensures_mono; [by apply claim_shares|]. intros x ->.
    eapply ensures_mono; [by eapply release_loan_collateral_backed|]. intros m2 Hm2.
    eapply backed_weaken; [exact Hm2|lia].
  - apply ensures_Ok. eapply backed_weaken; [exact Hm1|]. pose proof (claim_nonneg _ _ Hok).
    unfold Encumbrance.at_seat. destruct (_ =? k); lia.
Qed.

Lemma convert_covers ctx rate buffer :
  keeps_covered (process_convert_p2pool_to_fixed invoke_signed parse ctx now rate buffer).
Proof.
  intros w c [Hm Hl] [l Hl0]. rewrite Hl0 in Hm. simpl in Hm. destruct (Hl l Hl0) as [Hok Hk].
  rewrite loan_claim_eq in Hm by done.
  unfold process_convert_p2pool_to_fixed, the_loan. rewrite Hl0. cbv zeta. do 4 forget.
  apply ensures_bind, ensures_Ok. apply ensures_bind. intros [] Hc%require_Ok%Z.ltb_lt.
  do 4 forget. apply ensures_bind; intros [[this pre] live] _.
  apply ensures_bind. intros [] Hlive%require_Ok%Z.ltb_lt. forget.
  apply ensures_bind; intros n _. apply ensures_bind.
  eapply ensures_mono; [by eapply expand_market_to_free_blocks_backed|]. intros m1 Hm1.
  set (args := mkRefinanceArgs _ _ _ _ _ _ _ _ _ _ _ _ _ _). apply ensures_bind.
  eapply ensures_mono; [by apply (match_p2pool_residual_backed k args Hlive (Z.lt_le_incl _ _ Hc) Hok
    _ _ _ _ Hm1)|]. intros r Hr. destruct (refinanced_split args c r Hlive (Z.lt_le_incl _ _ Hc) Hok Hr) as (Hrest & Hn & Hm2).
  simpl in Hrest, Hn, Hm2. do 2 forget. apply ensures_bind; intros [post ledger] _. forget.
  apply ensures_bind; intros [[post_shares full] out] _. apply ensures_bind.
  eapply ensures_mono; [by eapply modify_seat_free; auto with ensures|]. intros m3 Hm3.
  apply ensures_bind, ensures_mono with (λ '(m', lo),
    backed (c + from_option loan_claim 0 lo) None m' ∧ ∀ l', lo = Some l' → loan_ok l' ∧ loan_market l' = mk).
  - destruct full.
    + apply ensures_bind. eapply ensures_mono; [by apply (release_converted_backed c)|].
      intros m4 Hm4. apply ensures_Ok. simpl. by rewrite Z.add_0_r.
    + apply ensures_bind. unfold residual_loan. apply ensures_bind.
      intros rest [-> _]%ok_or_Ok%checked_sub_Some. do 2 apply ensures_Ok. simpl.
      rewrite loan_claim_eq by done. simpl. split; [exact Hm3|]. by intros l' [= <-].
  - intros [m4 lo] [Hm4 Hlo]. do 2 forget. by apply ensures_Ok.
Qed.

(** *** Claims *)

Lemma claim_repayment_covers ctx id :
  keeps_backed (process_claim_repayment_for_sub_vault invoke_signed invoke_token ctx id).
Proof.
  intros w c Hm. unfold process_claim_repayment_for_sub_vault. cbv zeta. do 3 forget.
  ensure_step; [by apply ensures_Ok|]. forget. ensure_step; [by ensure_walk|]. by ensure_walk.
Qed.

Lemma protocol_fee_backed c ctx m led : backed c None m →
  ensures (process_protocol_fee_claim invoke_signed invoke_token ctx m led) (λ '(m', _), backed c None m').
Proof. intros Hm. unfold process_protocol_fee_claim. cbv zeta. ensure_walk; done. Qed.

(** *** The handlers of the book *)

Definition book_backed (f : Market → Vault → result (Market * Vault)) : Prop :=
  ∀ m v c, backed c None m → ensures (f m v) (λ '(m', _), backed c None m').

Lemma sub_vault_seat_backed c m key id : backed c None m →
  ensures (sub_vault_seat m key id) (λ '(m', _), backed c None m').
Proof. intros Hm. unfold sub_vault_seat, claim_seat. ensure_walk; done. Qed.
Lemma take_resting_bids_backed c ctx led x n m v : backed c None m →
  ensures (take_resting_bids parse now ctx led x n m v) (λ '(m', _, _), backed c None m').
Proof.
  intros Hm. unfold take_resting_bids. cbv zeta. do 2 ensure_step.
  ensure_step; [by apply ensures_Ok|]. by ensure_walk.
Qed.
Hint Resolve take_resting_bids_backed sub_vault_seat_backed : ensures.

Lemma place_for_sub_vault_backed ctx key cu id fl led :
  book_backed (process_place_order_for_sub_vault parse now ctx key cu id fl led).
Proof. intros m v c Hm. unfold process_place_order_for_sub_vault. cbv zeta. ensure_walk; done. Qed.
Lemma update_for_sub_vault_backed ctx key cu id fl led :
  book_backed (process_update_order_for_sub_vault parse now ctx key cu id fl led).
Proof. intros m v c Hm. unfold process_update_order_for_sub_vault. cbv zeta. ensure_walk; done. Qed.
Lemma cancel_sub_vault_ask_backed gate key mkey id : book_backed (cancel_sub_vault_ask gate key mkey id).
Proof. intros m v c Hm. unfold cancel_sub_vault_ask. by ensure_walk. Qed.

Lemma crank_walk_backed c ctx led floor budget total asks m v : backed c None m →
  ensures (crank_walk parse now ctx led floor budget total asks m v) (λ '(m', _, _), backed c None m').
Proof.
  revert budget total m v. induction asks as [|x asks IH]; intros budget total m v Hm;
    cbn [crank_walk]; [by apply ensures_Ok|]. ensure_step; [by apply ensures_Ok|]. ensure_step.
  apply ensures_mono with (λ '(m', _, _), backed c None m').
  - unfold crank_ask. ensure_walk; done.
  - intros [[m1 v1] n] Hm1. by apply IH.
Qed.

Lemma match_crank_backed c ctx n led m v : backed c None m →
  ensures (process_match_crank parse now ctx n led m v) (λ '(m', _, _), backed c None m').
Proof. intros Hm. unfold process_match_crank. do 6 ensure_step. by apply crank_walk_backed. Qed.

(** ** A transaction *)

(** How a transaction leaves the world: the seat covers its claims, and the loan account is
    as it was or belongs to the market. *)
Record closes c w w' : Prop := {
  cl_market : backed (c + from_option loan_claim 0 (wd_loan w')) None (wd_market w');
  cl_loan : ∀ l, wd_loan w' = Some l → loan_ok l ∧ (wd_loan w = Some l ∨ loan_market l = mk) }.

Definition opens c w : Prop :=
  backed (c + from_option loan_claim 0 (wd_loan w)) None (wd_market w)
  ∧ ∀ l, wd_loan w = Some l → loan_ok l.

Lemma keeps_backed_closes f w c : keeps_backed f → opens c w → ensures (f w) (closes c w).
Proof.
  intros Hf [Hm Hl]. eapply ensures_mono; [by apply Hf|]. intros w' [Hm' E].
  split; rewrite E; [done|]. intros l Hl'. split; [by apply Hl|by left].
Qed.

Lemma keeps_covered_closes f w c l : keeps_covered f → opens c w → wd_loan w = Some l →
  loan_market l = mk → ensures (f w) (closes c w).
Proof.
  intros Hf [Hm Hl] E Hk. eapply ensures_mono.
  { apply (Hf w c); [split; [done|]|by rewrite E]. intros l' E'. rewrite E in E'.
    injection E' as <-. split; [by apply Hl|done]. }
  intros w' [Hm' Hl']. split; [done|]. intros l' E'. destruct (Hl' l' E'). split; [done|by right].
Qed.

Lemma unchanged_closes w c : opens c w → closes c w w.
Proof. intros [Hm Hl]. split; [done|]. intros l E. split; [by apply Hl|by left]. Qed.

Lemma on_market_closes w f c : opens c w →
  (∀ m c', backed c' None m → ensures (f m) (backed c' None)) → ensures (on_market w f) (closes c w).
Proof.
  intros [Hm Hl] Hf. unfold on_market. apply ensures_bind. eapply ensures_mono; [by apply Hf|].
  intros m' Hm'. apply ensures_Ok. split; [done|]. intros l E. split; [by apply Hl|by left].
Qed.

Lemma on_book_closes w f c : opens c w → book_backed f → ensures (on_book w f) (closes c w).
Proof.
  intros [Hm Hl] Hf. unfold on_book. forget. apply ensures_bind.
  eapply ensures_mono; [by apply Hf|]. intros [m' v'] Hm'. apply ensures_Ok. split; [done|].
  intros l E. split; [by apply Hl|by left].
Qed.
End handlers.

(** The gates tie the loan account to the market. *)
Section gates.
Context (pdas : Pdas) (key : TxKeys) (g : GlobalConfig).

Definition loan_of_market w : Prop := ∃ l, wd_loan w = Some l ∧ loan_market l = tk_market key.

Lemma loan_gate_market l : ensures (loan_gate pdas key l) (λ _, loan_market l = tk_market key).
Proof. unfold loan_gate. do 3 (apply ensures_bind; intros ? _). by intros [] ?%require_Ok%Z.eqb_eq. Qed.

Lemma the_loan_is w : ensures (the_loan w) (λ l, wd_loan w = Some l).
Proof. unfold the_loan. destruct (wd_loan w); by intros ? [= <-]. Qed.

Lemma repay_gate_market w : ensures (repay_gate pdas key g w) (λ _, loan_of_market w).
Proof.
  unfold repay_gate. apply ensures_bind; intros ? _. apply ensures_bind.
  eapply ensures_mono; [apply the_loan_is|]. intros l El. apply ensures_bind.
  eapply ensures_mono; [apply loan_gate_market|]. intros [] Hk ? _. by exists l.
Qed.
Lemma keeper_gate_market w : ensures (keeper_gate pdas key g w) (λ _, loan_of_market w).
Proof.
  unfold keeper_gate. apply ensures_bind; intros ? _. apply ensures_bind.
  eapply ensures_mono; [apply the_loan_is|]. intros l El. apply ensures_bind.
  eapply ensures_mono; [apply loan_gate_market|]. intros [] Hk ? _. by exists l.
Qed.
Lemma convert_gate_market w : ensures (convert_gate pdas key g w) (λ _, loan_of_market w).
Proof.
  unfold convert_gate. apply ensures_bind; intros ? _. apply ensures_bind.
  eapply ensures_mono; [apply the_loan_is|]. intros l El. do 2 (apply ensures_bind; intros ? _).
  apply ensures_bind. intros [] Hk%require_Ok%Z.eqb_eq. intros ? _. by exists l.
Qed.

Lemma promotion_gate_market ctx q w :
  ensures (promotion_gate pdas key g ctx q w) (λ ctx', wd_loan w = None ∧ pc_market ctx' = tk_market key).
Proof.
  unfold promotion_gate. do 2 (apply ensures_bind; intros ? _). apply ensures_bind; intros [n i] _.
  apply ensures_bind; intros ? _. apply ensures_bind. intros [] Hl%require_Ok%bool_decide_eq_true.
  apply ensures_bind. intros b _. destruct b; [|by apply ensures_Ok].
  do 2 (apply ensures_bind; intros ? _). by apply ensures_Ok.
Qed.
End gates.

(** Whatever the instruction, the claims on the seat stay covered. *)
Lemma process_market_ix_covers invoke_signed invoke_token parse pdas now key g ix w c :
  pays_at_most invoke_signed → mk = tk_market key → decoded ix → opens c w →
  ensures (process_market_ix invoke_signed invoke_token parse pdas now key g ix w) (closes c w).
Proof.
  intros Hp Hk Hi Hw. destruct ix; simpl in Hi |- *;
    try (apply on_market_closes; [exact Hw|]; intros m c' Hm;
         unfold process_set_fee_config, process_transfer_market_admin, process_accept_market_admin,
           process_set_market_pause, open_market; cbv zeta; ensure_walk; assumption);
    try (forget;
         lazymatch goal with
         | |- ensures (process_claim_seat _ _ _) _ => apply keeps_backed_closes, Hw; apply claim_seat_covers
         | |- ensures (process_deposit _ _ _ _ _ _) _ => apply keeps_backed_closes, Hw; apply deposit_covers
         | |- ensures (process_withdraw _ _ _ _ _ _ _) _ =>
             apply keeps_backed_closes, Hw; apply withdraw_covers
         | |- ensures (process_place_order _ _ _ _ _ _ _) _ =>
             apply keeps_backed_closes, Hw; apply place_order_covers; apply Hi
         | |- ensures (process_cancel_order _ _ _ _ _) _ =>
             apply keeps_backed_closes, Hw; apply cancel_order_covers
         | |- ensures (process_update_order _ _ _ _ _) _ =>
             apply keeps_backed_closes, Hw; apply update_order_covers
         | |- ensures (process_claim_repayment_for_sub_vault _ _ _ _ _) _ =>
             apply keeps_backed_closes, Hw; apply claim_repayment_covers
         | |- ensures (on_book _ _) _ => apply on_book_closes; [exact Hw|]
         end).
  - do 2 forget. apply keeps_backed_closes, Hw. apply sync_covers.
  - apply ensures_bind. eapply ensures_mono; [apply promotion_gate_market|].
    intros ctx' [Hnone Hctx]. eapply ensures_mono.
    { apply promotion_covers; [congruence| |done]. destruct Hw as [Hm _]. split; [done|congruence]. }
    intros w' [Hm' Hl']. split; [done|]. intros l E. destruct (Hl' l E). split; [done|by right].
  - apply ensures_bind. eapply ensures_mono; [apply repay_gate_market|]. intros [] (l & El & Hl).
    eapply keeps_covered_closes; [apply repay_covers|done|done|congruence].
  - apply ensures_bind. eapply ensures_mono; [apply keeper_gate_market|]. intros [] (l & El & Hl).
    eapply keeps_covered_closes; [by apply settle_covers|done|done|congruence].
  - apply ensures_bind. eapply ensures_mono; [apply keeper_gate_market|]. intros [] (l & El & Hl).
    eapply keeps_covered_closes; [by apply liquidate_covers|done|done|congruence].
  - do 2 forget. by apply ensures_Ok, unchanged_closes.
  - do 2 forget. by apply ensures_Ok, unchanged_closes.
  - apply ensures_bind. eapply ensures_mono; [apply convert_gate_market|]. intros [] (l & El & Hl).
    eapply keeps_covered_closes; [apply convert_covers|done|done|congruence].
  - apply place_for_sub_vault_backed.
  - apply update_for_sub_vault_backed.
  - apply cancel_sub_vault_ask_backed.
  - apply cancel_sub_vault_ask_backed.
  - intros m v c' Hm. apply ensures_bind. eapply ensures_mono; [by apply match_crank_backed|].
    intros [[m' v'] n] Hmv. by apply ensures_Ok.
  - forget. destruct Hw as [Hm Hl]. apply ensures_bind.
    eapply ensures_mono; [by apply protocol_fee_backed|]. intros [m' l'] Hm'. apply ensures_Ok.
    split; [done|]. intros l E. split; [by apply Hl|by left].
Qed.
End seat.

(** ** The chain *)

Implicit Types (s : System) (m : Market) (market : Pubkey) (i : Z).

(** The claims on seat [i] of a market: by its bids and queued loans, and by the loan
    accounts. *)
Definition market_claims i m : Z := region_sum (λ _ b, block_claim i b) (mk_dynamic m).
Definition account_claims i market (loans : gmap Pubkey LoanFixed) : Z :=
  region_sum (λ _ l, loan_claim i market l) loans.

Record encumbered s : Prop := {
  en_markets : ∀ market m i, sy_markets s !! market = Some m →
    backed i (account_claims i market (sy_loans s)) None m;
  en_loans : ∀ a l, sy_loans s !! a = Some l → loan_ok l ∧ is_Some (sy_markets s !! loan_market l) }.

Definition update_loans a (lo : option LoanFixed) (loans : gmap Pubkey LoanFixed) :=
  match lo with Some l => <[a := l]> loans | None => delete a loans end.

Lemma account_claims_update i market loans a lo :
  account_claims i market (update_loans a lo loans)
  = account_claims i market (delete a loans) + from_option (loan_claim i market) 0 lo.
Proof.
  unfold account_claims. destruct lo as [l|]; simpl; [rewrite region_sum_insert|]; lia.
Qed.

Lemma update_loans_same a loans : update_loans a (loans !! a) loans = loans.
Proof.
  destruct (loans !! a) as [l|] eqn:E; simpl; [by apply insert_id|by apply delete_id].
Qed.

(** A transaction on a market. *)
Lemma close_world_encumbered s key w w' : encumbered s →
  sy_markets s !! tk_market key = Some (wd_market w) → wd_loan w = sy_loans s !! tk_loan key →
  (∀ i c, opens i (tk_market key) c w → closes i (tk_market key) c w w') →
  encumbered (close_world s key w').
Proof.
  intros [Hm Hl] Em El Hcl.
  assert (∀ i, closes i (tk_market key)
    (account_claims i (tk_market key) (delete (tk_loan key) (sy_loans s))) w w') as Hc.
  { intros i. apply Hcl. split.
    - rewrite El, <- account_claims_update, update_loans_same. by apply Hm.
    - intros l E. rewrite El in E. by apply (Hl _ _ E). }
  assert (sy_loans (close_world s key w') = update_loans (tk_loan key) (wd_loan w') (sy_loans s))
    as Eloans by (simpl; by destruct (wd_loan w')).
  split; rewrite Eloans.
  - intros market m i Hmk. rewrite account_claims_update. simpl in Hmk.
    destruct (decide (market = tk_market key)) as [->|Hne].
    + rewrite lookup_insert_eq in Hmk. injection Hmk as <-. apply Hc.
    + rewrite lookup_insert_ne in Hmk by done. eapply backed_weaken; [by apply Hm|].
      rewrite <- (update_loans_same (tk_loan key) (sy_loans s)) at 2. rewrite account_claims_update.
      apply Z.add_le_mono_l. rewrite <- El.
      assert (0 <= from_option (loan_claim i market) 0 (wd_loan w)) as H0.
      { destruct (wd_loan w) as [l|] eqn:E; simpl; [|done]. apply loan_claim_nonneg.
        by apply (Hl (tk_loan key)). }
      destruct (wd_loan w') as [l|] eqn:E; simpl; [|done].
      destruct (cl_loan _ _ _ _ _ (Hc i) l E) as [_ [Ew|Ew]]; [by rewrite Ew|].
      unfold loan_claim at 1. rewrite Ew. by destruct (Z.eqb_spec (tk_market key) market); [congruence|].
  - intros a l Ha. simpl. rewrite lookup_insert_is_Some'.
    destruct (wd_loan w') as [l'|] eqn:E; simpl in Ha.
    + destruct (decide (a = tk_loan key)) as [->|Hne].
      * rewrite lookup_insert_eq in Ha. injection Ha as <-.
        destruct (cl_loan _ _ _ _ _ (Hc 0) l' E) as [Hok [Ew|Ew]]; (split; [done|]); [|by left].
        right. rewrite El in Ew. by apply (Hl _ _ Ew).
      * rewrite lookup_insert_ne in Ha by done. destruct (Hl a l Ha). by auto.
    + apply lookup_delete_Some in Ha as [_ Ha]. destruct (Hl a l Ha). by auto.
Qed.

(** A new market has no claims against it. *)
Lemma account_claims_none i market loans : (∀ a l, loans !! a = Some l → loan_market l ≠ market) →
  account_claims i market loans = 0.
Proof.
  intros H. apply region_sum_zero. intros a l Ha. unfold loan_claim.
  by destruct (Z.eqb_spec (loan_market l) market) as [E|]; [destruct (H a l Ha)|].
Qed.

Lemma created_market_backed i addr g payer key d c p :
  ensures (process_create_market addr g payer key d c p) (backed i 0 None).
Proof.
  unfold process_create_market. do 6 (apply ensures_bind; intros ? _).
  apply (expand_market_backed i). split; simpl; [by unfold cover; rewrite region_sum_empty| |by intros j []|done].
  apply map_Forall_empty.
Qed.

Lemma step_encumbered env s s' : pays_at_most (env_invoke_signed env) → step env s s' →
  encumbered s → encumbered s'.
Proof.
  intros Hp Hs He. pose proof He as [Hm Hl].
  destruct Hs as [k b u led now g ix w w' _ _ Hi Ho Hr|key u led now g ix v v' _ _ Ho Hr|g ix g' _ _
    |g payer key d c p m' _ Hnew Hr|key g payer mint a b c d e v _ _ Hr|]; try done.
  - apply open_world_Some in Ho as (Em & El & _).
    apply (close_world_encumbered s k w w' He Em El). intros i c Hw.
    exact (process_market_ix_covers i (tk_market k) _ _ _ _ _ _ _ _ _ _ Hp eq_refl Hi Hw _ Hr).
  - split; simpl.
    + intros market m i Hmk. destruct (decide (market = ck_market key)) as [->|Hne].
      * rewrite lookup_insert_eq in Hmk. injection Hmk as <-. rewrite account_claims_none.
        -- by apply (created_market_backed i _ _ _ _ _ _ _ _ Hr).
        -- intros a l Ha E. destruct (Hl a l Ha) as [_ [x Hx]]. congruence.
      * rewrite lookup_insert_ne in Hmk by done. by apply Hm.
    + intros a l Ha. destruct (Hl a l Ha). rewrite lookup_insert_is_Some'. by auto.
Qed.

Lemma reachable_encumbered env s : pays_at_most (env_invoke_signed env) → reachable env s → encumbered s.
Proof.
  intros Hp. apply reachable_invariant.
  - split; simpl; [intros market m i Hmk|intros a l Ha]; by simplify_map_eq.
  - intros s1 s2. by apply step_encumbered.
Qed.

(** The cover of a seat, in its bucket and the claims. *)
Lemma cover_seat i m seat : get_seat m i = Ok seat →
  cover i (mk_dynamic m) = cs_collateral_encumbered_shares seat - market_claims i m.
Proof.
  unfold get_seat, read_value. intros H. apply bind_Ok in H as (n & Hn%region_get_lookup & [= <-]).
  unfold cover, market_claims.
  assert (region_sum (seat_shares i) (mk_dynamic m) = cs_collateral_encumbered_shares (rb_value n)) as <-.
  { rewrite (region_sum_only _ _ _ _ Hn); simpl; [by rewrite Z.eqb_refl|].
    intros j b _ Hne%Z.eqb_neq. destruct b; try done. simpl. by rewrite Hne. }
  enough (region_sum (λ j b, held i j b + block_claim i b) (mk_dynamic m)
          = region_sum (seat_shares i) (mk_dynamic m)) as E by (rewrite region_sum_add in E; lia).
  apply region_sum_ext. intros j b _. unfold held. lia.
Qed.

(** A claim that the bucket of a seat can release. *)
Definition can_release (seat : ClaimedSeat) (c : Z) (snapshot : Fp48) : Prop :=
  ∃ n, atoms_to_shares_at_snapshot c snapshot = Ok n ∧ n <= cs_collateral_encumbered_shares seat.

Lemma claim_can_release seat c snapshot : claim_ok c snapshot → raw snapshot ≠ 0 →
  locked c snapshot <= cs_collateral_encumbered_shares seat → can_release seat c snapshot.
Proof.
  intros [?|Hr] Hs Hle; [done|]. exists (locked c snapshot). split; [|done].
  pose proof Hr as [H1 H2 _]. apply shares_Ok; [done|unfold in_u; lia|done].
Qed.

(** One claim is part of all of them. *)
Lemma loan_claim_counted s i a l : encumbered s → sy_loans s !! a = Some l →
  loan_claim i (loan_market l) l <= account_claims i (loan_market l) (sy_loans s).
Proof.
  intros [_ Hl] Ha. unfold account_claims. rewrite (region_sum_delete _ _ _ _ Ha).
  enough (0 <= region_sum (λ _ l', loan_claim i (loan_market l) l') (delete a (sy_loans s))) by lia.
  apply region_sum_nonneg. intros b l' [_ Hb]%lookup_delete_Some.
  apply loan_claim_nonneg. by apply (Hl b).
Qed.

Lemma block_claim_counted i c m a b : backed i c None m → mk_dynamic m !! a = Some b →
  block_claim i b <= market_claims i m.
Proof.
  intros Hm Ha. unfold market_claims. rewrite (region_sum_delete _ _ _ _ Ha).
  enough (0 <= region_sum (λ _ b', block_claim i b') (delete a (mk_dynamic m))) by lia.
  apply region_sum_nonneg. intros j b' [_ Hj]%lookup_delete_Some. apply block_claim_nonneg.
  exact (bk_ok _ _ _ _ _ Hm j b' Hj).
Qed.

Lemma claims_nonneg s i market m : encumbered s → sy_markets s !! market = Some m →
  0 <= market_claims i m ∧ 0 <= account_claims i market (sy_loans s).
Proof.
  intros [Hm Hl] Hk. split; apply region_sum_nonneg.
  - intros j b Hb. apply block_claim_nonneg. exact (bk_ok _ _ _ _ _ (Hm market m i Hk) j b Hb).
  - intros a l Ha. apply loan_claim_nonneg. by apply (Hl a).
Qed.


(** A borrower deposits five million atoms of collateral and bids for a million atoms of
    debt against two million of them, with a marginfi that credits what it is given at par. *)
Definition borrower_marginfi (ix : MarginfiIx) (accounts : list AccountInfo) : result (list AccountInfo) :=
  match ix with
  | DepositIx amount _ => Ok (<[1%nat := sample_marginfi_account 6 ((700 + amount) * SCALE) 0]> accounts)
  | _ => Ok accounts
  end.
Definition borrower_env : Env :=
  mkEnv borrower_marginfi lender_token (λ _, None) (env_vault_address sample_env) (env_pdas sample_env).
Definition seat_context : SeatContext :=
  mkSeatContext 77 7 30 32 SPL_TOKEN_ID (mkMintInfo 12 6) false 3 23 6 34 35 MARGINFI_ID 36 5 6 [31] [31].
Definition bid_context : BookContext := mkBookContext 77 7 3 5 6 [31] [31].
Definition bid_fallback : FallbackAccounts :=
  mkFallbackAccounts 21 21 37 35 MARGINFI_ID 38 36 SPL_TOKEN_ID.
Definition bid_params : PlaceOrderParams := mkPlaceOrderParams None 1 0 500 2592000 1000000 2000000 0.
Definition borrower_ledger : Ledger :=
  list_to_map ([(3, mkAccountInfo 3 MARGINFI_ID (replicate 1064 0));
    (21, sample_marginfi_account 5 0 0); (23, sample_marginfi_account 6 (700 * SCALE) 0);
    (5, sample_oracle_bank); (6, sample_oracle_bank <| ai_key := 6 |>);
    (31, sample_pyth_account 1700000000); (32, sample_token_account 1000);
    (MARGINFI_ID, mkAccountInfo MARGINFI_ID 0 [])]
    ++ ((λ k, (k, mkAccountInfo k 1 [])) <$> [30; 12; 34; 35; 36; 37; 38; 77; SPL_TOKEN_ID])).
Definition borrower_user : UserAccount :=
  match expand_user_account seated_user with Ok u => u | Err _ => seated_user end.

(** One of its transactions, which brings neither a vault nor a loan account. *)
Definition borrower_runs (ix : MarketIx) (m : Market) : result Market :=
  w ← process_market_ix (env_invoke_signed borrower_env) (env_invoke_token borrower_env)
        (env_parse_stake_state borrower_env) (env_pdas borrower_env) 1700000030 (mkTxKeys 7 0 0)
        (global_config_new_empty 9) ix (mkWorld m None None borrower_user borrower_ledger);
  match wd_vault w, wd_loan w with None, None => Ok (wd_market w) | _, _ => Err Panic end.
Definition bid_run : result Market :=
  m ← created_market;
  m ← borrower_runs (IxClaimSeat 77) m;
  m ← borrower_runs (IxDeposit seat_context 5000000 None) m;
  borrower_runs (IxPlaceOrder bid_context bid_fallback bid_params) m.
Definition bid_market : Market := match bid_run with Ok m => m | Err _ => sample_empty_market end.
Definition one_market (m : Market) : System :=
  mkSystem (Some (global_config_new_empty 9)) {[7 := m]} ∅ ∅.

Lemma borrower_steps ix m m' : decoded ix → borrower_runs ix m = Ok m' →
  honest_ix ix m → honest_step borrower_env (one_market m) (one_market m').
Proof.
  intros Hi H Hhonest. apply bind_Ok in H as (w & Hw & H).
  destruct (wd_vault w) eqn:Ev; [done|]. destruct (wd_loan w) eqn:El; [done|]. injection H as <-.
  assert (one_market (wd_market w) = close_world (one_market m) (mkTxKeys 7 0 0) w) as ->.
  { unfold close_world, one_market. simpl. by rewrite Ev, El, insert_singleton_eq, delete_empty. }
  eapply (step_market_ix borrower_env _ (mkTxKeys 7 0 0) false borrower_user borrower_ledger 1700000030);
    [reflexivity|split; reflexivity || discriminate|exact Hi|reflexivity|exact Hw|exact Hhonest].
Qed.

Lemma bid_chain_reachable : honestly_reachable borrower_env (one_market bid_market).
Proof.
  destruct bid_run as [m|e] eqn:E; [|vm_compute in E; discriminate E].
  assert (bid_market = m) as -> by (unfold bid_market; by rewrite E). unfold bid_run in E.
  apply bind_Ok in E as (m1 & H1 & E). apply bind_Ok in E as (m2 & H2 & E).
  apply bind_Ok in E as (m3 & H3 & H4).
  eapply rtc_l.
  { apply (step_create_global_config _ _ 9 70 80 sample_program_data 60 60 []
      (global_config_new_empty 9)); [reflexivity|vm_compute; reflexivity]. }
  eapply rtc_l.
  { eapply (step_create_market _ _ (global_config_new_empty 9) 9 created_keys);
      [reflexivity|reflexivity|exact H1]. }
  eapply rtc_l; [by eapply (borrower_steps (IxClaimSeat 77))|].
  eapply rtc_l; [by eapply (borrower_steps (IxDeposit seat_context 5000000 None))|].
  apply rtc_once, (borrower_steps (IxPlaceOrder bid_context bid_fallback bid_params)); [|exact H4|by intros ? [=]].
  split; split; vm_compute; congruence.
Qed.

