(* ===== verification/HintSpec.v ===== *)
(** * What a seat hint may resolve to

    [get_seat_index_with_hint] reads the bytes a client's hint names as a seat.  Where the
    bytes are not the signer's seat the hint costs nothing; but nothing asks that a seat
    was ever written there, so the fields of another block may spell one:
    [order_can_imitate_seat]. *)
From stdpp Require Import base numbers list option gmap relations.
From S2P Require Import Prelude FixedPoint Loan Marginfi Hypertree Market UserAccount.
From S2P Require Import Runtime Program MarketSpec StoreSpec StoreChain EncumbranceChain.
Local Open Scope Z_scope.

(** ** Bytes *)

Lemma length_le_bytes n x : length (le_bytes n x) = n.
Proof. revert x. induction n as [|n IH]; intros x; simpl; by rewrite ?IH. Qed.

Lemma from_le_bytes_mod n x : from_le_bytes (le_bytes n x) = x mod 256 ^ Z.of_nat n.
Proof.
  revert x. induction n as [|n IH]; intros x; [by rewrite Z.mod_1_r|].
  cbn [le_bytes from_le_bytes foldr]. fold (from_le_bytes (le_bytes n (x / 256))). rewrite IH.
  rewrite Nat2Z.inj_succ, Z.pow_succ_r by lia. rewrite Z.rem_mul_r by lia. lia.
Qed.

Lemma from_le_bytes_app bs bs' :
  from_le_bytes (bs ++ bs') = from_le_bytes bs + 256 ^ Z.of_nat (length bs) * from_le_bytes bs'.
Proof.
  unfold from_le_bytes. induction bs as [|b bs IH]; [cbn [app foldr length]; lia|].
  cbn [app foldr length]. rewrite IH, Nat2Z.inj_succ, Z.pow_succ_r by lia. lia.
Qed.

Lemma length_market_block_bytes b : length (market_block_bytes b) = 160%nat.
Proof.
  destruct b; unfold market_block_bytes, free_node_bytes, rb_node_bytes, claimed_seat_bytes,
    resting_order_bytes, matched_loan_bytes, key_bytes;
    by rewrite ?length_app, ?length_rev, ?length_le_bytes, ?length_replicate.
Qed.

(** ** The hint of an order's block *)

(** The key that the amounts, the terms and the tags of an order spell. *)
Definition imitated_key (o : RestingOrder) : Pubkey :=
  key_from_bytes (le_bytes 8 (ro_principal_atoms o) ++ le_bytes 8 (ro_collateral_atoms o)
    ++ le_bytes 8 (ro_last_valid_unix_ts o) ++ le_bytes 4 (ro_term_seconds o)
    ++ le_bytes 2 (ro_rate_bps o) ++ le_bytes 1 (ro_side o) ++ le_bytes 1 (ro_order_type o)).

(** The sixteen bytes after them, read as the seat's debt shares. *)
Definition imitated_debt_shares (o : RestingOrder) : Z :=
  ro_flags o mod 256 + 2 ^ 16 * (raw (ro_share_price_snapshot o) mod 2 ^ 112).

Lemma seat_in_order (n : RBNode RestingOrder) next : let o := rb_value n in
  let s := claimed_seat_from_bytes (drop 16 (take 160 (drop 16
             (market_block_bytes (MB_order n) ++ next)))) in
  cs_owner s = imitated_key o ∧ cs_owner_kind s = 0 ∧ cs_sub_vault_id s = 0
  ∧ cs_debt_withdrawable_shares s = imitated_debt_shares o.
Proof.
  cbv zeta. destruct n as [lft rgt par col pt o]. cbn [rb_value].
  unfold claimed_seat_from_bytes.
  cbn [cs_owner cs_owner_kind cs_sub_vault_id cs_debt_withdrawable_shares].
  split_and!.
  - unfold imitated_key. f_equal.
  - transitivity (from_le_bytes [0]); [f_equal|done].
  - transitivity (from_le_bytes [0; 0]); [f_equal|done].
  - transitivity (from_le_bytes ((le_bytes 1 (ro_flags o) ++ [0])
      ++ le_bytes 14 (raw (ro_share_price_snapshot o)))); [f_equal|].
    rewrite !from_le_bytes_app, !from_le_bytes_mod. unfold imitated_debt_shares.
    rewrite length_app, length_le_bytes. change (256 ^ Z.of_nat 14) with (2 ^ 112).
    change (256 ^ Z.of_nat (1 + length [0%Z])) with (2 ^ 16). cbn [from_le_bytes foldr].
    change (256 ^ Z.of_nat 1) with 256. lia.
Qed.

(** ** The market *)

Section market.
Context (m : Market) (Hm : well_formed m).

(** A block is aligned: nothing is stored at an offset into one. *)
Lemma well_formed_aligned i b : mk_dynamic m !! i = Some b → (MARKET_BLOCK_SIZE | i).
Proof.
  destruct Hm as (S & A & B & L & F & H). intros Hi.
  pose proof (st_layout _ _ _ _ _ _ _ _ H) as Hl.
  apply (proj1 (Forall_forall _ _) (ly_aligned _ _ Hl) i).
  apply (elem_of_list_to_set (C:=gset Z)). rewrite <- (ly_dom _ _ Hl). by apply elem_of_dom.
Qed.

Lemma nothing_inside i b off : mk_dynamic m !! i = Some b → 0 < off < MARKET_BLOCK_SIZE →
  mk_dynamic m !! (i + off) = None.
Proof.
  intros Hi Ho. destruct (mk_dynamic m !! (i + off)) as [c|] eqn:E; [|done].
  apply well_formed_aligned in Hi as [x ->]. apply well_formed_aligned in E as [y E].
  unfold MARKET_BLOCK_SIZE in *. nia.
Qed.

(** The view of the bytes at an offset into a block. *)
Lemma view_inside i b b' off : mk_dynamic m !! i = Some b →
  mk_dynamic m !! (i + MARKET_BLOCK_SIZE) = Some b' → 0 < off < MARKET_BLOCK_SIZE →
  off mod SEAT_ALIGN = 0 →
  get_helper_seat m (i + off) = Ok (claimed_seat_from_bytes (drop 16 (take 160
    (drop (Z.to_nat off) (market_block_bytes b ++ market_block_bytes b'))))).
Proof.
  intros Hi Hi' Ho Ha. unfold get_helper_seat, region_bytes.
  rewrite (nothing_inside _ _ _ Hi Ho). pose proof (well_formed_aligned _ _ Hi) as [x ->].
  assert ((x * MARKET_BLOCK_SIZE + off) mod MARKET_BLOCK_SIZE = off) as ->
    by (rewrite Z.add_comm, Z_mod_plus_full; apply Z.mod_small; lia).
  assert ((x * MARKET_BLOCK_SIZE + off) mod SEAT_ALIGN = 0) as ->
    by (unfold MARKET_BLOCK_SIZE, SEAT_ALIGN in *;
        replace (x * 160) with (x * 20 * 8) by lia; by rewrite Z.add_comm, Z_mod_plus_full).
  replace (x * MARKET_BLOCK_SIZE + off - off) with (x * MARKET_BLOCK_SIZE) by lia.
  rewrite Hi, Hi', (proj2 (Z.eqb_neq off 0)) by lia. cbn [ok_or mbind result_bind require fmap].
  change (require (0 =? 0) Panic) with (Ok tt). cbn [mbind result_bind result_fmap].
  unfold slice. rewrite length_app, !length_market_block_bytes.
  rewrite (proj2 (Nat.leb_le _ _)) by (unfold MARKET_BLOCK_SIZE in *; lia). done.
Qed.

(** What reading a hint can fail with. *)
Lemma get_helper_seat_Err i e : get_helper_seat m i = Err e → e = Panic.
Proof.
  unfold get_helper_seat, region_bytes, slice, require, ok_or, mbind, result_bind, mret, fmap,
    result_fmap, result_ret. intros H. by repeat (case_match; simplify_eq).
Qed.
End market.

(** A hint that does not imitate a seat is only a shortcut. *)
Lemma honest_hint_irrelevant m signer hint : well_formed m → honest_hint m signer hint →
  get_seat_index_with_hint m signer hint = get_seat_index_with_hint m signer None
  ∨ get_seat_index_with_hint m signer hint = Err Panic.
Proof.
  intros (S & A & B & L & F & H) Hh. destruct hint as [i|]; [|by left].
  destruct (decide (i = NIL)) as [->|Hn]; [by left|].
  destruct (get_helper_seat m i) as [s|e] eqn:E.
  - left. destruct (seat_matches s signer) eqn:Es; [|by eapply stale_hint].
    destruct (Hh i s eq_refl Hn E Es) as (s' & (n & Hb%region_get_block & _)%bind_Ok).
    pose proof (store_seat H i n Hb (not_elem_of_nil _)) as Hi.
    apply (seat_hint_irrelevant m S A B L F signer i (st_inv _ _ _ _ _ _ _ _ H)
      (st_keys _ _ _ _ _ _ _ _ H)).
    right. apply list_elem_of_fmap. by exists (i, rb_value n).
  - right. apply get_helper_seat_Err in E as Ee. subst e. unfold get_seat_index_with_hint.
    rewrite (proj2 (Z.eqb_neq _ _) Hn). cbn [negb]. by rewrite E.
Qed.

(** Two blocks in a row, the first of them a bid: the market of [bid_market], after a
    second user has claimed a seat. *)
Definition crowded_market : Market :=
  match borrower_runs (IxClaimSeat 78) bid_market with Ok m => m | Err _ => sample_empty_market end.

Lemma crowded_chain_reachable : honestly_reachable borrower_env (one_market crowded_market).
Proof.
  destruct (borrower_runs (IxClaimSeat 78) bid_market) as [m|] eqn:E;
    [|vm_compute in E; discriminate E].
  assert (crowded_market = m) as -> by (unfold crowded_market; by rewrite E).
  eapply rtc_r; [exact bid_chain_reachable|]. by apply (borrower_steps (IxClaimSeat 78)).
Qed.

(** C19: a seat hint is trusted as far as its bytes go.  On a well-formed market, a hint
    that does not imitate a seat resolves as no hint does (or names bytes outside the
    account, or misaligned, and aborts the transaction).  But every resting order whose
    block has another one behind it does imitate a seat, sixteen bytes into the block: the
    principal, the collateral, the expiry, the term, the rate and the tags that its owner
    chose are read as the key of the seat's owner, reserved zeroes as the tags of a user's
    seat, and the share price stamped on the order as the debt shares the seat may
    withdraw.  Whoever signs with that key is handed an index at which no seat was ever
    claimed. *)
Theorem order_can_imitate_seat (m : Market) (Hm : well_formed m) :
  (∀ signer hint, honest_hint m signer hint →
     get_seat_index_with_hint m signer hint = get_seat_index_with_hint m signer None
     ∨ get_seat_index_with_hint m signer hint = Err Panic)
  ∧ ∀ i o next, get_order m i = Ok o → mk_dynamic m !! (i + MARKET_BLOCK_SIZE) = Some next →
     get_seat_index_with_hint m (imitated_key o) (Some (i + 16)) = Ok (i + 16)
     ∧ get_seat m (i + 16) = Err Panic
     ∧ ∃ fake, get_helper_seat m (i + 16) = Ok fake ∧ cs_owner fake = imitated_key o
         ∧ cs_debt_withdrawable_shares fake = imitated_debt_shares o.
Proof.
  split; [intros signer hint; by apply honest_hint_irrelevant|].
  intros i o next (n & Hn%region_get_block & [= <-])%bind_Ok Hnext.
  pose proof (view_inside m Hm i _ _ 16 Hn Hnext ltac:(done) eq_refl) as Hv.
  pose proof (seat_in_order n (market_block_bytes next)) as (Ho & Hk & Hid & Hd).
  pose proof (nothing_inside m Hm i _ 16 Hn ltac:(done)) as Hnone.
  split_and!; [|unfold get_seat, read_value, region_get; by rewrite Hnone|by eexists].
  assert (i + 16 ≠ NIL) as Hne.
  { apply (well_formed_aligned m Hm) in Hn as [x ->]. unfold MARKET_BLOCK_SIZE, NIL. lia. }
  unfold get_seat_index_with_hint. rewrite (proj2 (Z.eqb_neq _ _) Hne), Hv.
  cbn [negb mbind result_bind]. by rewrite (proj2 (seat_matches_true _ _)).
Qed.

(** The bid of a million atoms against two million, at 5% for thirty days: the key it
    spells, which owns nothing, is given index 176. *)
Lemma order_can_imitate_seat_witness :
  let key := 0x40420f000000000080841e00000000000000000000000000008d2700f4010000 in
  get_seat_index_with_hint crowded_market key None = Err NoSeatClaimed
  ∧ get_seat_index_with_hint crowded_market key (Some 176) = Ok 176
  ∧ match get_helper_seat crowded_market 176 with
    | Ok fake => cs_debt_withdrawable_shares fake = 65536 * SCALE
    | Err _ => False
    end.
Proof.
  assert (well_formed crowded_market) as Hm
    by exact (reachable_well_formed borrower_env _
        (honestly_reachable_reachable _ _ crowded_chain_reachable) 7 crowded_market eq_refl).
  destruct (order_can_imitate_seat crowded_market Hm) as [_ H].
  destruct (get_order crowded_market 160) as [o|] eqn:Eo; [|vm_compute in Eo; discriminate Eo].
  destruct (mk_dynamic crowded_market !! (160 + MARKET_BLOCK_SIZE)) as [b|] eqn:Eb;
    [|vm_compute in Eb; discriminate Eb].
  destruct (H 160 o b Eo Eb) as (H1 & _ & fake & H2 & _ & H3).
  vm_compute in Eo. injection Eo as <-. split; [vm_compute; reflexivity|]. split; [exact H1|].
  replace (get_helper_seat crowded_market 176) with (Ok (A:=ClaimedSeat) fake) by (symmetry; exact H2).
  rewrite H3. vm_compute. reflexivity.
Defined.
