(* ===== verification/UserStore.v ===== *)
(** * The store of a user account

    A user account keeps four trees of one shape - positions in vaults and in markets, open
    loans, resting bids - in one region of equal blocks with one free list.  [Kind] names
    them, so that each operation is treated once.  [user_store X u E F]: the account is
    exactly its listings [E] and its free blocks [F], besides the blocks [X] that are
    between two of them; each listing is a balanced search tree without two entries of one
    key, and the header counts its entries.  Every operation of the account keeps it. *)
From stdpp Require Import base numbers list option gmap.
From S2P Require Import Prelude FixedPoint Loan Hypertree HypertreeFrame.
From S2P Require Import HypertreeSpec HypertreeOrder HypertreeRemove Market UserAccount.
Local Open Scope Z_scope.

(** ** The four kinds of entry *)

Inductive Kind := KVault | KMarket | KLoan | KOrder.

#[export] Instance Kind_eq_dec : EqDecision Kind.
Proof. solve_decision. Defined.

Definition entry (k : Kind) : Type :=
  match k with
  | KVault => VaultPosition | KMarket => MarketPosition
  | KLoan => UserLoanRef | KOrder => UserOrderRef
  end.

#[export] Instance vault_position_order : PayloadOrder (λ _ : VaultPosition, True).
Proof.
  split; simpl; unfold vault_position_cmp.
  - intros a b _ _. solve_cmp.
  - intros a b c _ _ _. solve_cmp.
  - intros a b _ _. rewrite !andb_true_iff, !Z.eqb_eq. solve_cmp.
Qed.

#[export] Instance market_position_order : PayloadOrder (λ _ : MarketPosition, True).
Proof.
  split; simpl; unfold market_position_cmp.
  - intros a b _ _. solve_cmp.
  - intros a b c _ _ _. solve_cmp.
  - intros a b _ _. rewrite !Z.eqb_eq. solve_cmp.
Qed.

#[export] Instance user_loan_ref_order : PayloadOrder (λ _ : UserLoanRef, True).
Proof.
  split; simpl; unfold user_loan_ref_cmp.
  - intros a b _ _. solve_cmp.
  - intros a b c _ _ _. solve_cmp.
  - intros a b _ _. rewrite !Z.eqb_eq. solve_cmp.
Qed.

#[export] Instance user_order_ref_order : PayloadOrder (λ _ : UserOrderRef, True).
Proof.
  split; simpl; unfold user_order_ref_cmp.
  - intros a b _ _. solve_cmp.
  - intros a b c _ _ _. solve_cmp.
  - intros a b _ _. rewrite !andb_true_iff, !Z.eqb_eq. solve_cmp.
Qed.

#[local] Instance entry_payload k : Payload (entry k) :=
  match k with
  | KVault => payload_VaultPosition | KMarket => payload_MarketPosition
  | KLoan => payload_UserLoanRef | KOrder => payload_UserOrderRef
  end.
#[local] Instance entry_block k : BlockOf UserBlock (RBNode (entry k)) :=
  match k with
  | KVault => user_block_vault | KMarket => user_block_market
  | KLoan => user_block_loan | KOrder => user_block_order
  end.
#[local] Instance entry_order k : PayloadOrder (λ _ : entry k, True).
Proof. destruct k; apply _. Qed.

Definition root (k : Kind) (f : UserAccountFixed) : Z :=
  match k with
  | KVault => ua_vault_positions_root_index f | KMarket => ua_market_positions_root_index f
  | KLoan => ua_open_loans_root_index f | KOrder => ua_open_orders_root_index f
  end.
Definition set_root (k : Kind) (r : Z) (f : UserAccountFixed) : UserAccountFixed :=
  match k with
  | KVault => f <| ua_vault_positions_root_index := r |>
  | KMarket => f <| ua_market_positions_root_index := r |>
  | KLoan => f <| ua_open_loans_root_index := r |>
  | KOrder => f <| ua_open_orders_root_index := r |>
  end.
Definition count (k : Kind) (f : UserAccountFixed) : Z :=
  match k with
  | KVault => ua_vault_position_count f | KMarket => ua_market_position_count f
  | KLoan => ua_open_loan_count f | KOrder => ua_user_order_count f
  end.
Definition set_count (k : Kind) (n : Z) (f : UserAccountFixed) : UserAccountFixed :=
  match k with
  | KVault => f <| ua_vault_position_count := n |>
  | KMarket => f <| ua_market_position_count := n |>
  | KLoan => f <| ua_open_loan_count := n |>
  | KOrder => f <| ua_user_order_count := n |>
  end.
Definition count_width (k : Kind) : Z :=
  match k with KVault | KMarket => U16 | KLoan | KOrder => U32 end.

Definition shelf (k : Kind) (u : UserAccount) : Tree UserBlock :=
  mkTree (us_dynamic u) (root k (us_fixed u)) NIL.
Definition put_shelf (k : Kind) (u : UserAccount) (t : Tree UserBlock) : UserAccount :=
  mkUserAccount (set_root k (t_root t) (us_fixed u)) (t_data t).

(** The two operations the four kinds share: [probe] and [x] have one key. *)
Definition shelve (k : Kind) (u : UserAccount) (probe x : entry k) : result (UserAccount * Z) :=
  existing_idx ← lookup_index (V:=entry k) (shelf k u) probe;
  if negb (existing_idx =? NIL) then Ok (u, existing_idx) else
  '(u, index) ← get_free_user_address u;
  _ ← require (negb (index =? NIL)) AccountDataTooSmall;
  t ← insert (shelf k u) index x;
  let u := put_shelf k u t in
  n ← ok_or (checked_add (count_width k) (count k (us_fixed u)) 1) ArithmeticOverflow;
  mret (u <| us_fixed ::= set_count k n |>, index).

Definition unshelve (k : Kind) (u : UserAccount) (probe : entry k) : result (UserAccount * Z) :=
  idx ← lookup_index (V:=entry k) (shelf k u) probe;
  if idx =? NIL then Ok (u, NIL) else
  t ← remove_by_index (V:=entry k) (shelf k u) idx;
  let u := put_shelf k u t in
  n ← ok_or (checked_sub (count k (us_fixed u)) 1) ArithmeticOverflow;
  let u := u <| us_fixed ::= set_count k n |> in
  u ← release_user_address u idx;
  mret (u, idx).

Lemma upsert_market_position_shelves u market seat : upsert_market_position u market seat
  = shelve KMarket u (market_position_new_empty market seat) (market_position_new_empty market seat).
Proof. reflexivity. Qed.
Lemma upsert_vault_position_shelves u vault id : upsert_vault_position u vault id
  = shelve KVault u (vault_position_new_empty vault id) (vault_position_new_empty vault id).
Proof. reflexivity. Qed.
Lemma insert_open_loan_shelves u loan market role kind id p r s e :
  insert_open_loan u loan market role kind id p r s e
  = shelve KLoan u (user_loan_ref_probe loan)
      (mkUserLoanRef loan market p s e r (LoanRole_as_u8 role) (CounterpartyKind_as_u8 kind) id).
Proof. reflexivity. Qed.
Lemma insert_user_order_shelves u market q side r term p at_ :
  insert_user_order u market q side r term p at_
  = shelve KOrder u (user_order_ref_probe market q) (mkUserOrderRef market q p at_ term r side).
Proof. reflexivity. Qed.
Lemma remove_vault_position_unshelves u vault id :
  remove_vault_position u vault id = unshelve KVault u (vault_position_new_empty vault id).
Proof. reflexivity. Qed.
Lemma remove_open_loan_unshelves u loan :
  remove_open_loan u loan = unshelve KLoan u (user_loan_ref_probe loan).
Proof. reflexivity. Qed.
Lemma remove_user_order_unshelves u market q :
  remove_user_order u market q = unshelve KOrder u (user_order_ref_probe market q).
Proof. reflexivity. Qed.

(** ** The invariant *)

(** The listing of each kind. *)
Definition Listings : Type := ∀ k, list (Z * entry k).

Definition relist (k : Kind) : list (Z * entry k) → Listings → Listings :=
  match k return list (Z * entry k) → Listings → Listings with
  | KVault => λ l E k', match k' return list (Z * entry k') with KVault => l | k' => E k' end
  | KMarket => λ l E k', match k' return list (Z * entry k') with KMarket => l | k' => E k' end
  | KLoan => λ l E k', match k' return list (Z * entry k') with KLoan => l | k' => E k' end
  | KOrder => λ l E k', match k' return list (Z * entry k') with KOrder => l | k' => E k' end
  end.

(** The blocks of the account, and those outside one listing. *)
Definition blocks (E : Listings) (F : list Z) : list Z :=
  (E KVault).*1 ++ (E KMarket).*1 ++ (E KLoan).*1 ++ (E KOrder).*1 ++ F.
Definition others (k : Kind) (E : Listings) (F : list Z) : list Z :=
  match k with
  | KVault => (E KMarket).*1 ++ (E KLoan).*1 ++ (E KOrder).*1 ++ F
  | KMarket => (E KVault).*1 ++ (E KLoan).*1 ++ (E KOrder).*1 ++ F
  | KLoan => (E KVault).*1 ++ (E KMarket).*1 ++ (E KOrder).*1 ++ F
  | KOrder => (E KVault).*1 ++ (E KMarket).*1 ++ (E KLoan).*1 ++ F
  end.

Definition distinct_keys {k} (l : list (Z * entry k)) : Prop :=
  ∀ i x j y, (i, x) ∈ l → (j, y) ∈ l → payload_cmp x y = Eq → i = j.

Section store.
Implicit Types (u : UserAccount) (E : Listings) (F X : list Z) (i j : Z) (k : Kind).

Local Abbreviation bytes u := (ua_num_bytes_allocated (us_fixed u)).

Record user_store X u E F : Prop := {
  uw_shelves k : tree_inv (λ _, True) (shelf k u) (E k);
  uw_free : free_chain (us_dynamic u) (ua_free_list_head_index (us_fixed u)) F;
  uw_nodup : NoDup (X ++ blocks E F);
  uw_dom : dom (us_dynamic u) = list_to_set (C:=gset Z) (X ++ blocks E F);
  uw_range : Forall (λ j, (USER_ACCOUNT_BLOCK_SIZE | j) ∧ 0 <= j < bytes u) (X ++ blocks E F);
  uw_bytes : bytes u = USER_ACCOUNT_BLOCK_SIZE * Z.of_nat (length (X ++ blocks E F));
  uw_fits : bytes u < 2 ^ 32;
  uw_keys k : distinct_keys (E k);
  uw_count k : count k (us_fixed u) = Z.of_nat (length (E k)) }.

Definition user_sound u : Prop := ∃ E F, user_store [] u E F.

Lemma relist_same k l E : relist k l E k = l.
Proof. by destruct k. Qed.
Lemma relist_other k k' l E : k' ≠ k → relist k l E k' = E k'.
Proof. by destruct k, k'. Qed.

Lemma blocks_others k E F : blocks E F ≡ₚ (E k).*1 ++ others k E F.
Proof. unfold blocks, others. destruct k; solve_Permutation. Qed.
Lemma others_relist k l E F : others k (relist k l E) F = others k E F.
Proof. by destruct k. Qed.
Lemma blocks_relist k l E F : blocks (relist k l E) F ≡ₚ l.*1 ++ others k E F.
Proof. rewrite (blocks_others k), relist_same. by rewrite others_relist. Qed.
Lemma blocks_free E F i : blocks E (i :: F) ≡ₚ i :: blocks E F.
Proof. unfold blocks. solve_Permutation. Qed.

Lemma others_elem k k' E F j : k' ≠ k → j ∈ (E k').*1 → j ∈ others k E F.
Proof. intros Hk Hj. unfold others. destruct k, k'; try done; rewrite !elem_of_app; tauto. Qed.
Lemma others_free k E F j : j ∈ F → j ∈ others k E F.
Proof. intros Hj. unfold others. destruct k; rewrite !elem_of_app; tauto. Qed.

Lemma user_block_in X u E F j : user_store X u E F → j ∈ X ++ blocks E F ↔ is_Some (us_dynamic u !! j).
Proof. intros []. by rewrite <- elem_of_dom, uw_dom0, elem_of_list_to_set. Qed.

Lemma user_block_bounds X u E F j : user_store X u E F → j ∈ X ++ blocks E F → j ≠ NIL.
Proof.
  intros [] Hj. rewrite Forall_forall in uw_range0. destruct (uw_range0 _ Hj) as [_ ?].
  unfold NIL. norm_pow. lia.
Qed.

(** ** Replacing one listing *)

Definition filed k (t : Tree UserBlock) (n : Z) u : UserAccount :=
  mkUserAccount (set_count k n (set_root k (t_root t) (us_fixed u))) (t_data t).

Lemma filed_header k t n u : ua_free_list_head_index (us_fixed (filed k t n u))
    = ua_free_list_head_index (us_fixed u)
  ∧ ua_num_bytes_allocated (us_fixed (filed k t n u)) = ua_num_bytes_allocated (us_fixed u)
  ∧ root k (us_fixed (filed k t n u)) = t_root t ∧ count k (us_fixed (filed k t n u)) = n
  ∧ ∀ k', k' ≠ k → root k' (us_fixed (filed k t n u)) = root k' (us_fixed u)
      ∧ count k' (us_fixed (filed k t n u)) = count k' (us_fixed u).
Proof. destruct k; (split_and!; [done..|]); intros [] ?; done. Qed.

Lemma store_put X X' u E F k (l : list (Z * entry k)) (t : Tree UserBlock) : user_store X u E F →
  tree_inv (λ _, True) t l →
  (∀ j, j ∉ X ++ (E k).*1 → t_data t !! j = us_dynamic u !! j) →
  dom (t_data t) = dom (us_dynamic u) → X ++ (E k).*1 ≡ₚ X' ++ l.*1 → distinct_keys l →
  user_store X' (filed k t (Z.of_nat (length l)) u) (relist k l E) F.
Proof.
  intros H Ht Ho Hd Hp Hk.
  destruct (filed_header k t (Z.of_nat (length l)) u) as (K1 & K2 & K3 & K4 & K5).
  set (u' := filed _ _ _ _) in *.
  assert (X' ++ blocks (relist k l E) F ≡ₚ X ++ blocks E F) as Hb.
  { by rewrite blocks_relist, (blocks_others k E F), !app_assoc, Hp. }
  assert (∀ j, j ∈ others k E F → j ∉ X ++ (E k).*1) as Ha.
  { pose proof (uw_nodup _ _ _ _ H) as Hn. rewrite (blocks_others k), app_assoc in Hn.
    apply NoDup_app in Hn as (_ & Hn & _). intros j Hj Hj'. by apply (Hn j). }
  destruct H. split; rewrite ?K1, ?K2, ?Hb; try done.
  - intros k'. destruct (decide (k' = k)) as [->|Hne].
    + rewrite relist_same. unfold shelf. rewrite K3. by apply tree_inv_no_max in Ht.
    + rewrite relist_other by done. destruct (K5 k' Hne) as [Hr _].
      eapply tree_inv_outside'; [apply uw_shelves0|exact Hr|done|exact Ho|].
      intros j Hj. apply Ha. by apply (others_elem k k').
  - eapply free_chain_outside; [done|exact Ho|]. intros j Hj. by apply Ha, others_free.
  - simpl. by rewrite Hd, uw_dom0.
  - intros k'. destruct (decide (k' = k)) as [->|Hne]; [by rewrite relist_same|by rewrite relist_other].
  - intros k'. destruct (decide (k' = k)) as [->|Hne]; [by rewrite K4, relist_same|].
    rewrite relist_other by done. destruct (K5 k' Hne) as [_ ->]. apply uw_count0.
Qed.

(** ** Allocation *)

Lemma block_written u i b : ∀ j, j ∉ [i] → <[i := b]> (us_dynamic u) !! j = us_dynamic u !! j.
Proof. intros j Hj. apply lookup_insert_ne. intros ->. apply Hj. left. Qed.


Lemma get_free_user_store u E F u' i : user_store [] u E F → get_free_user_address u = Ok (u', i) →
  i ≠ NIL → ∃ F', user_store [i] u' E F'.
Proof.
  intros H (([d h] & n) & Hr & [= <- <-])%bind_Ok Hn. destruct F as [|a F].
  { pose proof (uw_free _ _ _ _ H) as Hh. simpl in Hh. rewrite Hh in Hr. by injection Hr as _ _ <-. }
  destruct (free_list_remove_chain _ _ _ _ (uw_free _ _ _ _ H)) as (x & Hr' & Hc & _).
  rewrite Hr in Hr'. injection Hr' as -> -> ->. exists F.
  assert ([] ++ blocks E (a :: F) ≡ₚ [a] ++ blocks E F) as Hp by apply blocks_free.
  pose proof (uw_nodup _ _ _ _ H) as Hnd. rewrite Hp in Hnd. apply NoDup_cons in Hnd as [Ha Hnd].
  assert (∀ j, j ∈ blocks E F → j ∉ [a]) as Ho by (by intros j Hj ->%list_elem_of_singleton).
  pose proof (block_written u a (UB_free (mkFreeListNode 0))) as Hw.
  assert (is_Some (us_dynamic u !! a)) as Hs by (apply (user_block_in _ _ _ _ _ H); rewrite Hp; left).
  destruct H. rewrite Hp in *. split; simpl; try done.
  - intros k. eapply tree_inv_outside'; [apply uw_shelves0|by destruct k|done|exact Hw|].
    intros j Hj. apply Ho. rewrite (blocks_others k), elem_of_app. by left.
  - eapply free_chain_outside; [exact Hc|exact Hw|]. intros j Hj. apply Ho. unfold blocks.
    rewrite !elem_of_app. tauto.
  - by rewrite dom_insert_lookup_L.
Qed.

Lemma release_user_store u E F u' i : user_store [i] u E F → release_user_address u i = Ok u' →
  user_store [] u' E (i :: F).
Proof.
  intros H ([d h] & Hr & [= <-])%bind_Ok. apply free_list_add_Ok in Hr as (-> & Hs & ->).
  assert ([] ++ blocks E (i :: F) ≡ₚ [i] ++ blocks E F) as Hp by apply blocks_free.
  pose proof (uw_nodup _ _ _ _ H) as [Hi _]%NoDup_cons.
  assert (∀ j, j ∈ blocks E F → j ∉ [i]) as Ho by (by intros j Hj ->%list_elem_of_singleton).
  pose proof (user_block_bounds _ _ _ _ i H ltac:(left)) as Hn.
  pose proof (block_written u i (UB_free (mkFreeListNode (ua_free_list_head_index (us_fixed u))))) as Hw.
  destruct H. rewrite <- Hp in *. split; simpl; try done.
  - intros k. eapply tree_inv_outside'; [apply uw_shelves0|by destruct k|done|exact Hw|].
    intros j Hj. apply Ho. rewrite (blocks_others k), elem_of_app. by left.
  - split_and!; [done|done|]. eexists. split; [apply lookup_insert_eq|].
    eapply free_chain_outside; [done|exact Hw|]. intros j Hj. apply Ho. unfold blocks.
    rewrite !elem_of_app. tauto.
  - by rewrite dom_insert_lookup_L.
Qed.

(** The account grows by one block behind the others. *)
Lemma expand_user_store u E F u' : user_store [] u E F → expand_user_account u = Ok u' →
  ∃ F', user_store [] u' E F'.
Proof.
  intros H He. unfold expand_user_account, user_account_expand in He.
  apply bind_Ok in He as ([d h] & He & Hr). apply free_list_add_Ok in He as (-> & _ & ->).
  apply bind_Ok in Hr as (b & [-> Hb]%ok_or_Ok%checked_add_Some & [= <-]). simpl in *.
  rewrite insert_insert_eq. set (n := bytes u) in *. exists (n :: F).
  pose proof (block_written u n (UB_free (mkFreeListNode (ua_free_list_head_index (us_fixed u))))) as Hw.
  assert (∀ j, j ∈ [] ++ blocks E F → 0 <= j < n) as Hlt.
  { intros j Hj. by apply (proj1 (Forall_forall _ _) (uw_range _ _ _ _ H) j Hj). }
  assert (∀ j, j ∈ blocks E F → j ∉ [n]) as Ho.
  { intros j Hj ->%list_elem_of_singleton. specialize (Hlt n Hj). lia. }
  assert ([] ++ blocks E (n :: F) ≡ₚ n :: [] ++ blocks E F) as Hp by apply blocks_free.
  destruct H. assert (0 <= n) by (unfold n, USER_ACCOUNT_BLOCK_SIZE, MARKET_BLOCK_SIZE in *; lia).
  split; simpl; rewrite ?Hp; try done.
  - intros k. eapply tree_inv_outside'; [apply uw_shelves0|by destruct k|done|exact Hw|].
    intros j Hj. apply Ho. rewrite (blocks_others k), elem_of_app. by left.
  - split_and!; [done|unfold NIL, USER_ACCOUNT_BLOCK_SIZE, MARKET_BLOCK_SIZE in *; zlia|].
    eexists. split; [apply lookup_insert_eq|].
    eapply free_chain_outside; [done|exact Hw|]. intros j Hj. apply Ho. unfold blocks.
    rewrite !elem_of_app. tauto.
  - apply NoDup_cons. split; [|done]. intros Hj. specialize (Hlt n Hj). lia.
  - rewrite dom_insert_L, uw_dom0. done.
  - unfold USER_ACCOUNT_BLOCK_SIZE, MARKET_BLOCK_SIZE in *. constructor.
    + split; [|lia]. unfold n. rewrite uw_bytes0. apply Z.divide_factor_l.
    + eapply Forall_impl; [exact uw_range0|]. intros j [? ?]. split; [done|]. unfold n. lia.
  - unfold n. rewrite uw_bytes0. simpl length. lia.
Qed.

(** ** The operations *)

Lemma relist_mid k (l1 l2 : list (Z * entry k)) i x :
  distinct_keys (l1 ++ l2) → (∀ e, e ∈ l1 ++ l2 → payload_cmp e.2 x ≠ Eq) →
  distinct_keys (l1 ++ (i, x) :: l2).
Proof.
  intros Hk Hx a v b w Ha Hb Hc.
  assert (∀ c z, (c, z) ∈ l1 ++ (i, x) :: l2 → (c, z) = (i, x) ∨ (c, z) ∈ l1 ++ l2) as Hin.
  { intros c z. rewrite !elem_of_app, elem_of_cons. tauto. }
  destruct (Hin _ _ Ha) as [[= -> ->]|Ha'], (Hin _ _ Hb) as [[= -> ->]|Hb']; [done|..].
  - destruct (Hx _ Hb'). simpl. by rewrite (po_antisym (P:=λ _, True) x w), Hc.
  - by destruct (Hx _ Ha').
  - by apply (Hk a v b w).
Qed.

Lemma lookup_user_store u E F k (probe : entry k) i : user_store [] u E F →
  lookup_index (V:=entry k) (shelf k u) probe = Ok i →
  (i ≠ NIL → ∃ x, (i, x) ∈ E k ∧ payload_cmp x probe = Eq)
  ∧ (i = NIL → ∀ e, e ∈ E k → payload_cmp e.2 probe ≠ Eq).
Proof.
  intros H Hi. destruct (lookup_tree_inv (λ _, True) _ _ probe (uw_shelves _ _ _ _ H k) I)
    as (j & Hj & Hs & Hc). rewrite Hi in Hj. injection Hj as <-.
  split; [done|]. intros -> [j x] Hx Hcmp. by apply (Hc j x Hx).
Qed.

(** Shelving an entry finds the one of its key, or adds it. *)
Lemma shelve_store u E F k (probe x : entry k) u' i : user_store [] u E F →
  (∀ y, payload_cmp y probe = payload_cmp y x) → shelve k u probe x = Ok (u', i) →
  (u' = u ∧ ∃ y, (i, y) ∈ E k ∧ payload_cmp y probe = Eq)
  ∨ ∃ l1 l2 F', E k = l1 ++ l2 ∧ user_store [] u' (relist k (l1 ++ (i, x) :: l2) E) F'.
Proof.
  intros H Hpx Hr. apply bind_Ok in Hr as (idx & Hidx & Hr).
  destruct (lookup_user_store _ _ _ _ _ _ H Hidx) as [Hfound Hnone].
  destruct (Z.eqb_spec idx NIL) as [->|Hn]; simpl in Hr.
  2:{ injection Hr as <- <-. left. split; [done|]. by apply Hfound. }
  right. apply bind_Ok in Hr as ([u1 a] & Hg & Hr).
  apply bind_Ok in Hr as ([] & Hn%require_Ok%negb_true_iff%Z.eqb_neq & Hr).
  destruct (get_free_user_store _ _ _ _ _ H Hg Hn) as (F' & H1). clear Hg.
  apply bind_Ok in Hr as (t & Ht & Hr). apply bind_Ok in Hr as (n & [-> _]%ok_or_Ok%checked_add_Some & [= <- <-]).
  assert (a ∉ (E k).*1) as Ha.
  { pose proof (uw_nodup _ _ _ _ H1) as [Hi _]%NoDup_cons. intros Hin. apply Hi.
    rewrite (blocks_others k), elem_of_app. by left. }
  assert (is_Some (us_dynamic u1 !! a)) as Hs by (apply (user_block_in _ _ _ _ _ H1); left).
  destruct (insert_tree_inv (λ _, True) _ _ a x (uw_shelves _ _ _ _ H1 k))
    as (t' & l1 & l2 & Ht' & El & Hinv & _ & _ & Hout & _); [done..|].
  rewrite Ht in Ht'. injection Ht' as <-. exists l1, l2, F'. split; [done|].
  match goal with |- user_store _ ?v _ _ =>
    assert (v = filed k t (Z.of_nat (length (l1 ++ (a, x) :: l2))) u1) as -> end.
  { unfold filed, put_shelf. simpl. f_equal. f_equal.
    assert (count k (set_root k (t_root t) (us_fixed u1)) = count k (us_fixed u1)) as -> by (by destruct k).
    rewrite (uw_count _ _ _ _ H1 k), El, !length_app. simpl. lia. }
  eapply store_put; [exact H1|exact Hinv| |by rewrite (insert_dom _ _ _ _ Ht)| |].
  - intros j Hj. apply Hout. by rewrite El in Hj |- *.
  - rewrite El. apply (insert_listing l1 l2 []).
  - apply relist_mid; [rewrite <- El; apply (uw_keys _ _ _ _ H1)|].
    intros e He. rewrite <- Hpx. apply Hnone; [done|]. by rewrite El.
Qed.

Lemma unshelve_store u E F k (probe : entry k) u' i : user_store [] u E F →
  unshelve k u probe = Ok (u', i) →
  (u' = u ∧ i = NIL ∧ ∀ e, e ∈ E k → payload_cmp e.2 probe ≠ Eq)
  ∨ ∃ l1 x l2 F', E k = l1 ++ (i, x) :: l2 ∧ payload_cmp x probe = Eq
      ∧ user_store [] u' (relist k (l1 ++ l2) E) F'.
Proof.
  intros H Hr. apply bind_Ok in Hr as (idx & Hidx & Hr).
  destruct (lookup_user_store _ _ _ _ _ _ H Hidx) as [Hfound Hnone].
  destruct (Z.eqb_spec idx NIL) as [->|Hn].
  { injection Hr as <- <-. left. split_and!; [done|done|]. by apply Hnone. }
  right. destruct (Hfound Hn) as (x & (l1 & l2 & El)%list_elem_of_split & Hx).
  apply bind_Ok in Hr as (t & Ht & Hr). apply bind_Ok in Hr as (n & [-> _]%ok_or_Ok%checked_sub_Some & Hr).
  apply bind_Ok in Hr as (u1 & Hrel & [= <- <-]). pose proof (uw_shelves _ _ _ _ H k) as Htree.
  rewrite El in Htree. destruct (remove_tree_inv _ _ _ _ _ _ Htree) as (t' & Ht' & Hinv & Hout & _).
  rewrite Ht in Ht'. injection Ht' as <-. exists l1, x, l2, (idx :: F). split_and!; [done|done|].
  eapply release_user_store; [|exact Hrel].
  match goal with |- user_store _ ?v _ _ =>
    assert (v = filed k t (Z.of_nat (length (l1 ++ l2))) u) as -> end.
  { unfold filed, put_shelf. simpl. f_equal. f_equal.
    assert (count k (set_root k (t_root t) (us_fixed u)) = count k (us_fixed u)) as -> by (by destruct k).
    rewrite (uw_count _ _ _ _ H k), El, !length_app. simpl. lia. }
  eapply store_put; [exact H|exact Hinv| |by apply (remove_dom _ _ _ Ht)| |].
  - intros j Hj. apply Hout. by rewrite El in Hj.
  - rewrite El. apply remove_listing.
  - intros a v b w Ha Hb. apply (uw_keys _ _ _ _ H k); rewrite El, elem_of_app, elem_of_cons.
    + apply elem_of_app in Ha. tauto.
    + apply elem_of_app in Hb. tauto.
Qed.

(** A block of one kind is an entry of its listing. *)
Lemma user_store_entry u E F k i (n : RBNode (entry k)) : user_store [] u E F →
  region_get (us_dynamic u) i = Ok n → (i, rb_value n) ∈ E k.
Proof.
  intros H Hn%region_get_Ok. assert (i ∈ [] ++ blocks E F) as Hi.
  { apply (user_block_in _ _ _ _ _ H). by eexists. }
  simpl in Hi. rewrite (blocks_others k), elem_of_app in Hi. destruct Hi as [Hi|Hi].
  - apply list_elem_of_fmap in Hi as ([j x] & -> & Hx).
    destruct (tree_inv_block _ _ _ _ _ (uw_shelves _ _ _ _ H k) Hx) as (_ & n' & Hn' & <-).
    assert (region_get (us_dynamic u) j = Ok n') as Hr by (by apply region_get_Ok).
    apply region_get_Ok in Hn. simpl in Hn. rewrite Hn in Hr. by injection Hr as ->.
  - exfalso.
    assert (∀ k', k' ≠ k → i ∉ (E k').*1) as Ho.
    { intros k' Hk Hj. destruct (tree_ids_node _ _ _ _ (uw_shelves _ _ _ _ H k') Hj) as (n' & Hn' & _).
      simpl in Hn'. rewrite Hn in Hn'. by destruct k, k'. }
    assert (i ∉ F) as HF.
    { intros Hj. destruct (free_chain_block _ _ _ _ (uw_free _ _ _ _ H) Hj) as (n' & Hn' & _).
      rewrite Hn in Hn'. by destruct k. }
    unfold others in Hi. destruct k; rewrite !elem_of_app in Hi;
      destruct Hi as [Hi|[Hi|[Hi|Hi]]]; try done; (eapply Ho; [|exact Hi]; done).
Qed.

(** An update in place that keeps the key. *)
Lemma modify_user_store u E F k i (f : entry k → result (entry k)) d : user_store [] u E F →
  modify_value (us_dynamic u) i f = Ok d →
  (∀ x, ensures (f x) (λ x', ∀ y, payload_cmp x' y = payload_cmp x y)) →
  ∃ x x', (i, x) ∈ E k ∧ f x = Ok x'
    ∧ user_store [] (u <| us_dynamic := d |>) (relist k (set_entry i x' (E k)) E) F.
Proof.
  intros H Hd Hf. destruct (modify_value_Ok _ _ _ _ Hd) as (n & x' & Hn & Hx & _).
  pose proof (user_store_entry _ _ _ _ _ _ H Hn) as Hi. exists (rb_value n), x'. split_and!; [done|done|].
  pose proof (Hf _ _ Hx) as Hc.
  destruct (tree_inv_modify_value _ _ _ _ _ _ f (uw_shelves _ _ _ _ H k) Hi Hx I) as (d' & Hd' & Ht & _ & Ho).
  { intros y _. apply Hc. }
  simpl in Hd', Ht, Ho. rewrite Hd in Hd'. injection Hd' as <-.
  replace (u <| us_dynamic := d |>) with
    (filed k (mkTree d (root k (us_fixed u)) NIL) (Z.of_nat (length (set_entry i x' (E k)))) u).
  2:{ unfold filed, set_entry. rewrite length_fmap, <- (uw_count _ _ _ _ H k).
      destruct u as [[] ?]. by destruct k. }
  eapply store_put; [exact H|exact Ht| | |by rewrite set_entry_fst|].
  - intros j Hj. apply Ho. intros ->%list_elem_of_singleton. apply Hj. simpl.
    apply list_elem_of_fmap. by eexists (i, _).
  - apply (frame_dom _ _ _ (modify_value_frame (V:=entry k) (λ _, False) _ i f d Hd)).
  - assert (∀ v, payload_cmp v x' = payload_cmp v (rb_value n)) as Hc'.
    { intros v. by rewrite (po_antisym (P:=λ _, True) x' v), Hc, <- (po_antisym (P:=λ _, True) _ v). }
    intros a v b w Ha Hb. apply set_entry_elem_inv in Ha as [[-> ->]|[_ Ha]], Hb as [[-> ->]|[_ Hb]];
      rewrite ?Hc, ?Hc'; [done|..]; by apply (uw_keys _ _ _ _ H k).
Qed.

(** A new account. *)
Lemma new_user_store owner bump : user_store [] (mkUserAccount (user_account_new_empty owner bump) ∅) (λ _, []) [].
Proof.
  split; try done.
  - intros k. destruct k; by apply (check_tree_inv _ (λ _, true)).
  - constructor.
  - intros k a x b y Ha. by apply not_elem_of_nil in Ha.
  - by intros [].
Qed.
End store.
