(* ===== verification/UserChain.v ===== *)
(** * Every user account of the chain is well formed

    [UserStore] shows that the operations of a user account keep it; here the handlers do,
    and so the whole life of an account, from its creation through every instruction that
    is handed it.  Two facts about its lists fall out: no instruction ever enters an open
    loan, and the reference to a resting bid leaves only by an instruction that finds the
    bid on the book. *)
From stdpp Require Import base numbers list option gmap.
From S2P Require Import Prelude FixedPoint Loan Marginfi Oracles Ltv.
From S2P Require Import Hypertree HypertreeFrame HypertreeSpec HypertreeOrder SubVault Market VaultTrees.
From S2P Require Import Matching UserAccount Runtime LoanClose Repay Keeper Promotion Deposits Claims.
From S2P Require Import Convert Admin Orders Program Accounts MarketSpec ExecuteSpec StoreChain EncumbranceChain.
From S2P Require Import UserStore.
Local Open Scope Z_scope.

#[local] Existing Instances entry_payload entry_block entry_order.

(** An account whose list of resting bids has the keys in [T], and that lists no loan. *)
Definition refers (T : Pubkey → Z → Prop) (E : Listings) : Prop :=
  ∀ market q, T market q → ∃ i x, (i, x) ∈ E KOrder ∧ uo_market x = market ∧ UserAccount.uo_order_sequence x = q.
Definition user_books (T : Pubkey → Z → Prop) (u : UserAccount) : Prop :=
  ∃ E F, user_store [] u E F ∧ E KLoan = [] ∧ refers T E.

Section books.
Context {T : Pubkey → Z → Prop}.
Implicit Types (u : UserAccount) (k : Kind).

Lemma refers_other k (l : list (Z * entry k)) E : k ≠ KOrder → refers T E → refers T (relist k l E).
Proof. intros Hk H. by destruct k. Qed.

Lemma expand_user_books u : user_books T u → ensures (expand_user_account u) (user_books T).
Proof.
  intros (E & F & H & HL & HT) u' Hu'. destruct (expand_user_store _ _ _ _ H Hu') as (F' & H').
  by exists E, F'.
Qed.

(** Anything but a loan may be entered. *)
Lemma shelve_books u k (probe x : entry k) : k ≠ KLoan → (∀ y, payload_cmp y probe = payload_cmp y x) →
  user_books T u → ensures (shelve k u probe x) (λ '(u', _), user_books T u').
Proof.
  intros Hk Hp (E & F & H & HL & HT) [u' i] Hr.
  destruct (shelve_store _ _ _ _ _ _ _ _ H Hp Hr) as [[-> _]|(l1 & l2 & F' & El & H')]; [by exists E, F|].
  exists (relist k (l1 ++ (i, x) :: l2) E), F'. split; [done|]. split; [by destruct k|].
  intros market q (j & y & Hj & Hy)%HT. destruct (decide (k = KOrder)) as [->|Ho].
  - exists j, y. split; [|done]. rewrite El in Hj. simpl. rewrite elem_of_app, elem_of_cons.
    apply elem_of_app in Hj. tauto.
  - exists j, y. split; [|done]. by destruct k.
Qed.

Lemma upsert_market_position_books u market seat : user_books T u →
  ensures (upsert_market_position u market seat) (λ '(u', _), user_books T u').
Proof. rewrite upsert_market_position_shelves. by apply shelve_books. Qed.
Lemma upsert_vault_position_books u vault id : user_books T u →
  ensures (upsert_vault_position u vault id) (λ '(u', _), user_books T u').
Proof. rewrite upsert_vault_position_shelves. by apply shelve_books. Qed.
Lemma insert_user_order_books u market q side r term p at_ : user_books T u →
  ensures (insert_user_order u market q side r term p at_) (λ '(u', _), user_books T u').
Proof. rewrite insert_user_order_shelves. by apply shelve_books. Qed.

(** Removals: of a vault position, of a loan there is not, of another bid's reference. *)
Lemma unshelve_books u k (probe : entry k) : user_books T u →
  (∀ E l1 i x l2, refers T E → E k = l1 ++ (i, x) :: l2 → payload_cmp x probe = Eq →
     refers T (relist k (l1 ++ l2) E)) →
  ensures (unshelve k u probe) (λ '(u', _), user_books T u').
Proof.
  intros (E & F & H & HL & HT) Hk [u' i] Hr.
  destruct (unshelve_store _ _ _ _ _ _ _ H Hr) as [[-> _]|(l1 & x & l2 & F' & El & Hx & H')]; [by exists E, F|].
  exists (relist k (l1 ++ l2) E), F'. split; [done|]. split; [|by eapply Hk].
  destruct k; try done. simpl in El. rewrite HL in El. by apply app_cons_not_nil in El.
Qed.

Lemma remove_vault_position_books u vault id : user_books T u →
  ensures (remove_vault_position u vault id) (λ '(u', _), user_books T u').
Proof.
  intros Hu. rewrite remove_vault_position_unshelves. apply unshelve_books; [done|].
  intros E l1 i x l2 HT _ _. by apply refers_other.
Qed.
Lemma remove_open_loan_books u loan : user_books T u →
  ensures (remove_open_loan u loan) (λ '(u', _), user_books T u').
Proof.
  intros Hu. rewrite remove_open_loan_unshelves. apply unshelve_books; [done|].
  intros E l1 i x l2 HT _ _. by apply refers_other.
Qed.
Lemma remove_user_order_books u market q : user_books T u → ¬ T market q →
  ensures (remove_user_order u market q) (λ '(u', _), user_books T u').
Proof.
  intros Hu Hn. rewrite remove_user_order_unshelves. apply unshelve_books; [done|].
  intros E l1 i x l2 HT El Hx mk q' Ht. destruct (HT _ _ Ht) as (j & y & Hj & Hmk & Hq).
  exists j, y. split; [|done]. simpl in El, Hx |- *. rewrite El in Hj. rewrite elem_of_app.
  apply elem_of_app in Hj as [Hj|[[= -> ->]|Hj]%elem_of_cons]; [by left| |by right].
  exfalso. apply Hn. unfold user_order_ref_cmp in Hx. simpl in Hx.
  assert (mk = market ∧ q' = q) as [-> ->]; [|done]. subst mk q'. solve_cmp.
Qed.

(** Updates in place. *)
Lemma modify_books u k i (f : entry k → result (entry k)) d : user_books T u → k = KVault ∨ k = KMarket →
  modify_value (us_dynamic u) i f = Ok d →
  (∀ x, ensures (f x) (λ x', ∀ y, payload_cmp x' y = payload_cmp x y)) →
  user_books T (u <| us_dynamic := d |>).
Proof.
  intros (E & F & H & HL & HT) Hk Hd Hf.
  destruct (modify_user_store _ _ _ _ _ _ _ H Hd Hf) as (x & x' & Hx & _ & H').
  exists (relist k (set_entry i x' (E k)) E), F. split; [done|].
  split; [by destruct Hk as [-> | ->]|]. apply refers_other; [by destruct Hk as [-> | ->]|done].
Qed.

Lemma write_market_position_books u i seat : user_books T u →
  ensures (write_market_position_from_seat u i seat) (user_books T).
Proof.
  intros Hu u' (d & Hd & [= <-])%bind_Ok.
  apply (modify_books u KMarket i (λ p, Ok (sync_from_seat seat p)) d Hu); [by right|exact Hd|].
  intros x. by apply ensures_Ok.
Qed.

Lemma modify_vault_position_books u i f : user_books T u →
  (∀ x, ensures (f x) (λ x', vp_vault x' = vp_vault x ∧ vp_sub_vault_id x' = vp_sub_vault_id x)) →
  ensures (modify_vault_position u i f) (user_books T).
Proof.
  intros Hu Hf u' (d & Hd & [= <-])%bind_Ok.
  apply (modify_books u KVault i f d Hu); [by left|exact Hd|].
  intros x. eapply ensures_mono; [apply Hf|]. intros x' [K1 K2] y. simpl. unfold vault_position_cmp.
  by rewrite K1, K2.
Qed.

Lemma sync_signer_books m market u signer : user_books T u →
  ensures (sync_signer_market_position m market u signer) (user_books T).
Proof.
  intros Hu. unfold sync_signer_market_position. ensure_step. intros idx _.
  ensure_step; [by apply ensures_Ok|]. ensure_step. intros seat _. apply ensures_bind.
  eapply ensures_mono; [by apply upsert_market_position_books|]. intros [u' i] Hu'.
  by apply write_market_position_books.
Qed.
End books.

#[local] Hint Resolve expand_user_books upsert_market_position_books upsert_vault_position_books
  insert_user_order_books remove_vault_position_books remove_open_loan_books remove_user_order_books
  write_market_position_books sync_signer_books : ensures.

(** ** The handlers *)

Lemma ensures_fst {A B} (r : result (A * B)) (Q : A → Prop) :
  ensures r (λ '(a, _), Q a) → ensures (fst <$> r) Q.
Proof. intros Hr. apply ensures_fmap. eapply ensures_mono; [exact Hr|]. by intros [a b]. Qed.

(** An order of that sequence that is on the book. *)
Definition rests (m : Market) (q : Z) : Prop :=
  ∃ i o, get_order m i = Ok o ∧ ro_sequence_number o = q ∧ ro_side o = Side_as_u8 Bid.

Lemma find_own_bid_rests m payer hint q : ensures (find_own_bid m payer hint q) (λ _, rests m q).
Proof.
  unfold find_own_bid. apply ensures_bind. intros seat _. apply ensures_bind. intros i Hi.
  apply ensures_bind. intros o Ho. apply ensures_bind. intros [] Hside%require_Ok%Z.eqb_eq.
  apply ensures_Ok. exists i, o. split_and!; [done| |done].
  assert (∀ j, order_matches m seat q j = Ok true → ∀ o', get_order m j = Ok o' → ro_sequence_number o' = q) as Hm.
  { intros j Hj o' Ho'. unfold order_matches in Hj. rewrite Ho' in Hj. cbn [mbind result_bind] in Hj.
    injection Hj as [_ ?%Z.eqb_eq]%andb_true_iff. done. }
  assert (∀ l j, find_order m seat q l = Ok (Some j) → order_matches m seat q j = Ok true) as Hf.
  { intros l j. induction l as [|a l IH]; cbn [find_order]; [done|].
    intros ([] & Ha & Hl)%bind_Ok; [by injection Hl as <-|by apply IH]. }
  apply (Hm i); [|done]. unfold lookup_order_by_seq in Hi. apply bind_Ok in Hi as (asks & _ & Hi).
  apply bind_Ok in Hi as ([a|] & Ha & Hi); [injection Hi as <-; by apply (Hf asks)|].
  apply bind_Ok in Hi as (bids & _ & Hi). apply bind_Ok in Hi as (b & Hb & Hi%ok_or_Ok). subst b.
  by apply (Hf bids).
Qed.

Section handlers.
Context (invoke_signed : MarginfiIx → list AccountInfo → result (list AccountInfo)).
Context (invoke_token : TokenIx → list AccountInfo → result (list AccountInfo)).
Context (parse : list Z → option StakeState) (now : Z).
Context {T : Pubkey → Z → Prop}.
Implicit Types (w : World) (m : Market).

Definition keeps_books (f : World → result World) : Prop :=
  ∀ w, user_books T (wd_user w) → ensures (f w) (λ w', user_books T (wd_user w')).

Lemma claim_seat_books k payer : keeps_books (process_claim_seat k payer).
Proof. intros w Hu. unfold process_claim_seat. ensure_walk. assumption. Qed.
Lemma deposit_books ctx n h : keeps_books (process_deposit invoke_signed invoke_token ctx n h).
Proof. intros w Hu. unfold process_deposit. cbv zeta. ensure_walk. assumption. Qed.
Lemma withdraw_books ctx n h b : keeps_books (process_withdraw invoke_signed invoke_token ctx n h b).
Proof. intros w Hu. unfold process_withdraw. cbv zeta. ensure_walk; assumption. Qed.

Lemma track_rested_books u k p r : user_books T u → ensures (track_rested_bid now u k p r) (user_books T).
Proof.
  intros Hu. unfold track_rested_bid. apply ensures_bind, ensures_mono with (user_books T).
  - ensure_walk; assumption.
  - intros u1 Hu1. apply ensures_fst. by apply insert_user_order_books.
Qed.

Lemma place_order_books ctx fb pp : keeps_books (process_place_order parse now invoke_signed ctx fb pp).
Proof.
  intros w Hu. unfold process_place_order. cbv zeta. do 9 forget.
  apply ensures_bind, ensures_mono with (user_books T).
  - ensure_step; [by apply track_rested_books|by apply ensures_Ok].
  - intros u1 Hu1. ensure_walk. assumption.
Qed.

(** A bid's reference goes only when the bid is found on the book. *)
Lemma cancel_order_books k payer q h w : user_books T (wd_user w) → (T k q → ¬ rests (wd_market w) q) →
  ensures (process_cancel_order k payer q h w) (λ w', user_books T (wd_user w')).
Proof.
  intros Hu Hn. unfold process_cancel_order. apply ensures_bind.
  eapply ensures_mono; [apply find_own_bid_rests|]. intros [[? ?] ?] Hr.
  assert (¬ T k q) as HT by (intros Ht; by apply Hn). ensure_walk. assumption.
Qed.

Lemma update_order_books k payer uo w : user_books T (wd_user w) →
  (T k (uo_order_sequence uo) → ¬ rests (wd_market w) (uo_order_sequence uo)) →
  ensures (process_update_order now k payer uo w) (λ w', user_books T (wd_user w')).
Proof.
  intros Hu Hn. unfold process_update_order. forget. apply ensures_bind.
  eapply ensures_mono; [apply find_own_bid_rests|]. intros [[? ?] ?] Hr.
  assert (¬ T k (uo_order_sequence uo)) as HT by (intros Ht; by apply Hn). ensure_walk. assumption.
Qed.

Lemma sync_books k o : keeps_books (process_sync_market_position k o).
Proof. intros w Hu. unfold process_sync_market_position. ensure_walk. assumption. Qed.

(** The life cycle of a loan. *)
Lemma do_vault_settle_books ctx n se r c id : keeps_books
  (do_vault_settle invoke_signed invoke_token ctx now n se r c id).
Proof. intros w Hu. unfold do_vault_settle. cbv zeta. ensure_walk; assumption. Qed.

Lemma promotion_books ctx q :
  keeps_books (process_primary_promotion invoke_signed invoke_token ctx now q).
Proof.
  intros w Hu. unfold process_primary_promotion. cbv zeta. do 9 forget.
  apply ensures_bind. apply ensures_mono with (λ w', user_books T (wd_user w')).
  - ensure_step; [|by apply ensures_Ok]. forget. by apply do_vault_settle_books.
  - intros w' Hv'. do 3 forget. by apply ensures_Ok.
Qed.

Lemma close_out_vault_books sid bank c : keeps_books (λ w, close_out_vault w sid bank c now).
Proof. intros w Hu. unfold close_out_vault. ensure_walk. assumption. Qed.
Lemma sync_position_books k o : keeps_books (λ w, sync_position w k o).
Proof. intros w Hu. unfold sync_position. ensure_walk. assumption. Qed.
Lemma drop_open_loan_ref_books k : keeps_books (λ w, drop_open_loan_ref w k).
Proof. intros w Hu. unfold drop_open_loan_ref. ensure_walk. assumption. Qed.

Lemma repay_p2pool_books ctx pr loan :
  keeps_books (λ w, repay_p2pool invoke_signed invoke_token ctx now pr w loan).
Proof.
  intros w Hu. unfold repay_p2pool. cbv zeta. do 17 forget. apply ensures_bind.
  eapply ensures_mono; [by apply sync_position_books|].
  intros w1 Hu1. ensure_step; [|by apply ensures_Ok]. forget.
  apply ensures_bind. eapply ensures_mono; [by apply drop_open_loan_ref_books|].
  intros w2 Hw2. by apply ensures_Ok.
Qed.

Lemma repay_fixed_books ctx pr loan :
  keeps_books (λ w, repay_fixed invoke_signed invoke_token ctx now pr w loan).
Proof.
  intros w Hu. unfold repay_fixed. cbv zeta. do 8 forget.
  apply ensures_bind, ensures_mono with (λ w', user_books T (wd_user w')).
  { ensure_step; [by apply close_out_vault_books|by apply ensures_Ok]. }
  intros w1 Hw1. apply ensures_bind. eapply ensures_mono; [by apply sync_position_books|].
  intros w2 Hw2. ensure_step; [|by apply ensures_Ok]. apply ensures_bind.
  eapply ensures_mono; [by apply drop_open_loan_ref_books|]. intros w3 Hw3. by apply ensures_Ok.
Qed.

Lemma repay_books ctx pr : keeps_books (process_repay invoke_signed invoke_token ctx now pr).
Proof.
  intros w Hu. unfold process_repay. do 6 forget.
  ensure_step; [by apply repay_fixed_books|by apply repay_p2pool_books].
Qed.

Lemma keeper_close_out_books ctx loan ty pm : keeps_books (λ w, keeper_close_out ctx now w loan ty pm).
Proof.
  intros w Hu. unfold keeper_close_out. cbv zeta.
  apply ensures_bind, ensures_mono with (λ w', user_books T (wd_user w')).
  - ensure_step; [|by apply ensures_Ok]. do 3 forget.
    ensure_step; [by apply close_out_vault_books|by apply ensures_Ok].
  - intros w1 Hw1. apply ensures_Ok. by destruct (pm_full pm).
Qed.

Lemma settle_books ctx data :
  keeps_books (process_settle_matured_loan invoke_signed invoke_token ctx now data).
Proof.
  intros w Hu. unfold process_settle_matured_loan. cbv zeta. do 18 forget. by apply keeper_close_out_books.
Qed.

Lemma liquidate_books ctx data :
  keeps_books (process_liquidate_loan invoke_signed invoke_token parse ctx now data).
Proof.
  intros w Hu. unfold process_liquidate_loan. cbv zeta. do 14 forget. by apply keeper_close_out_books.
Qed.

Lemma convert_books ctx rate buffer :
  keeps_books (process_convert_p2pool_to_fixed invoke_signed parse ctx now rate buffer).
Proof.
  intros w Hu. unfold process_convert_p2pool_to_fixed. cbv zeta. ensure_walk; assumption.
Qed.

Lemma claim_repayment_books ctx sid :
  keeps_books (process_claim_repayment_for_sub_vault invoke_signed invoke_token ctx sid).
Proof.
  intros w Hu. unfold process_claim_repayment_for_sub_vault. cbv zeta. ensure_walk; assumption.
Qed.

Lemma on_book_books f : keeps_books (λ w, on_book w f).
Proof. intros w Hu. unfold on_book. ensure_walk. assumption. Qed.

(** Every instruction of a market. *)
Lemma process_market_ix_books pdas k g (ix : MarketIx) w : user_books T (wd_user w) →
  (∀ q, T (tk_market k) q → ¬ rests (wd_market w) q) →
  ensures (process_market_ix invoke_signed invoke_token parse pdas now k g ix w)
    (λ w', user_books T (wd_user w')).
Proof.
  intros Hu Hn. destruct ix; simpl;
    try (unfold on_market; forget; by apply ensures_Ok); forget; try (by apply on_book_books).
  - by apply claim_seat_books.
  - by apply deposit_books.
  - by apply withdraw_books.
  - by apply place_order_books.
  - apply cancel_order_books; auto.
  - apply update_order_books; auto.
  - forget. by apply sync_books.
  - by apply promotion_books.
  - by apply repay_books.
  - by apply settle_books.
  - by apply liquidate_books.
  - forget. by apply ensures_Ok.
  - forget. by apply ensures_Ok.
  - by apply convert_books.
  - by apply claim_repayment_books.
  - forget. by apply ensures_Ok.
Qed.

(** The two instructions of a vault that are handed one. *)
Lemma vault_deposit_books ctx n sid v u l : user_books T u →
  ensures (process_global_vault_deposit invoke_signed invoke_token ctx now n sid v u l)
    (λ '(_, u', _), user_books T u').
Proof.
  intros Hu. unfold process_global_vault_deposit. do 7 forget. apply ensures_bind.
  eapply ensures_mono; [exact (upsert_vault_position_books _ _ _ Hu)|]. intros [u1 i] Hu1. apply ensures_bind.
  eapply ensures_mono; [apply (modify_vault_position_books _ _ _ Hu1)|].
  - intros x. unfold credit_vault_position. by ensure_walk.
  - intros u2 Hu2. by apply ensures_Ok.
Qed.

Lemma vault_withdraw_books ctx n sid v u l : user_books T u →
  ensures (process_global_vault_withdraw invoke_signed invoke_token ctx now n sid v u l)
    (λ '(_, u', _), user_books T u').
Proof.
  intros Hu. unfold process_global_vault_withdraw. cbv zeta. do 16 forget.
  apply ensures_bind, ensures_mono with (user_books T); [|intros u1 Hu1; by apply ensures_Ok].
  ensure_step; [|by apply ensures_Ok]. apply ensures_bind.
  eapply ensures_mono; [apply (modify_vault_position_books _ _ _ Hu)|].
  - intros x. unfold debit_vault_position. by ensure_walk.
  - intros u1 Hu1. ensure_step; [|by apply ensures_Ok]. apply ensures_fst.
    by apply remove_vault_position_books.
Qed.
End handlers.

(** ** What the store says of the blocks of the account *)

Definition block_kind (b : UserBlock) : option Kind :=
  match b with
  | UB_free _ => None
  | UB_vault _ => Some KVault | UB_market _ => Some KMarket
  | UB_loan _ => Some KLoan | UB_order _ => Some KOrder
  end.
Definition blocks_of (k : Kind) (u : UserAccount) : Z :=
  Z.of_nat (size (filter (λ e : Z * UserBlock, block_kind e.2 = Some k) (us_dynamic u))).

Section reading.
Context {u : UserAccount} {E : Listings} {F : list Z} (H : user_store [] u E F).
Implicit Types (k : Kind) (i : Z).

Lemma to_block_kind k (n : RBNode (entry k)) : block_kind (to_block n) = Some k.
Proof. by destruct k. Qed.
Lemma block_kind_inv k b : block_kind b = Some k → ∃ n : RBNode (entry k), b = to_block n.
Proof. by destruct k, b; simpl; try done; eexists. Qed.

Lemma store_blocks k : blocks_of k u = Z.of_nat (length (E k)).
Proof.
  unfold blocks_of. f_equal.
  assert (dom (filter (λ e : Z * UserBlock, block_kind e.2 = Some k) (us_dynamic u))
    = list_to_set (C:=gset Z) (E k).*1) as Hd.
  { apply set_eq. intros i. rewrite elem_of_dom, elem_of_list_to_set. split.
    - intros (b & [Hb Hk]%map_lookup_filter_Some). simpl in Hk.
      destruct (block_kind_inv k b Hk) as (n & ->). apply list_elem_of_fmap. exists (i, rb_value n).
      split; [done|]. apply (user_store_entry _ _ _ _ _ _ H). by apply region_get_Ok.
    - intros Hi. destruct (tree_ids_node _ _ _ _ (uw_shelves _ _ _ _ H k) Hi) as (n & Hn & _).
      exists (to_block n). apply map_lookup_filter_Some. split; [done|]. apply to_block_kind. }
  rewrite <- size_dom, Hd, size_list_to_set, length_fmap; [done|].
  apply (tree_inv_nodup _ _ _ (uw_shelves _ _ _ _ H k)).
Qed.

(** What is read is found again under its key. *)
Lemma store_found k i (x probe : entry k) : read_value (us_dynamic u) i = Ok x →
  payload_cmp x probe = Eq → lookup_index (V:=entry k) (shelf k u) probe = Ok i.
Proof.
  intros (n & Hn & [= <-])%fmap_Ok Hc. pose proof (user_store_entry _ _ _ _ _ _ H Hn) as Hi.
  destruct (lookup_tree_inv (λ _, True) _ _ probe (uw_shelves _ _ _ _ H k) I) as (j & Hj & Hs & Hn').
  rewrite Hj. f_equal. destruct (Hs (Hn' _ _ Hi Hc)) as (y & Hy & Hcy).
  apply (uw_keys _ _ _ _ H k j y i (rb_value n)); [done|done|].
  pose proof (po_trans (P:=λ _ : entry k, True) y probe (rb_value n) I I I) as T1.
  pose proof (po_trans (P:=λ _ : entry k, True) (rb_value n) probe y I I I) as T2.
  pose proof (po_antisym (P:=λ _ : entry k, True) y (rb_value n) I I) as A1.
  pose proof (po_antisym (P:=λ _ : entry k, True) y probe I I) as A2.
  pose proof (po_antisym (P:=λ _ : entry k, True) (rb_value n) probe I I) as A3.
  rewrite Hcy in A2. rewrite Hc in A3. simpl in A2, A3. rewrite Hcy, A3 in T1. rewrite Hc, A2 in T2.
  destruct (payload_cmp y (rb_value n)); [done| |by destruct T1].
  simpl in A1. rewrite A1 in T2. by destruct T2.
Qed.

Lemma store_none k (probe : entry k) : E k = [] → lookup_index (V:=entry k) (shelf k u) probe = Ok NIL.
Proof.
  intros Hk. destruct (lookup_tree_inv (λ _, True) _ _ probe (uw_shelves _ _ _ _ H k) I) as (j & Hj & Hs & _).
  rewrite Hj. f_equal. destruct (decide (j = NIL)) as [|Hn]; [done|].
  destruct (Hs Hn) as (x & Hx & _). rewrite Hk in Hx. by apply not_elem_of_nil in Hx.
Qed.

Lemma store_bytes : ua_num_bytes_allocated (us_fixed u)
  = USER_ACCOUNT_BLOCK_SIZE * Z.of_nat (size (us_dynamic u)).
Proof.
  rewrite (uw_bytes _ _ _ _ H), <- size_dom, (uw_dom _ _ _ _ H), size_list_to_set; [done|].
  apply (uw_nodup _ _ _ _ H).
Qed.
End reading.

(** ** The life of an account *)

(** Opened by a loader, which creates it for its first transaction and sees to a free
    block, and handed to instructions that succeed. *)
Inductive user_life (h : Host) (env : Env) : UserAccount → Prop :=
  | life_opened signer a a' u :
      (∀ u0, tx_content a = UserData u0 → user_life h env u0) →
      ensure_user_account_for_signer h signer a = Ok a' → tx_content a' = UserData u →
      user_life h env u
  | life_market_ix now k g ix w w' :
      user_life h env (wd_user w) →
      process_market_ix (env_invoke_signed env) (env_invoke_token env) (env_parse_stake_state env)
        (env_pdas env) now k g ix w = Ok w' →
      user_life h env (wd_user w')
  | life_deposit now ctx n id v u l v' u' l' :
      user_life h env u →
      process_global_vault_deposit (env_invoke_signed env) (env_invoke_token env) ctx now n id v u l
        = Ok (v', u', l') →
      user_life h env u'
  | life_withdraw now ctx n id v u l v' u' l' :
      user_life h env u →
      process_global_vault_withdraw (env_invoke_signed env) (env_invoke_token env) ctx now n id v u l
        = Ok (v', u', l') →
      user_life h env u'.

Definition no_refs : Pubkey → Z → Prop := λ _ _, False.

Lemma opened_books h signer a a' u T : ensure_user_account_for_signer h signer a = Ok a' →
  tx_content a' = UserData u → (∀ u0, tx_content a = UserData u0 → user_books T u0) →
  (∀ market q, ¬ T market q) ∨ data_is_empty (tx_content a) = false → user_books T u.
Proof.
  unfold ensure_user_account_for_signer. destruct (user_account_pda h signer) as [pda bump].
  intros H Hu Ha HT. apply bind_Ok in H as ([] & _ & H). apply bind_Ok in H as (b & Hb & H).
  assert (∀ u0, tx_content b = UserData u0 → user_books T u0) as Hc.
  { destruct (data_is_empty (tx_content a)) eqn:Ed.
    - apply bind_Ok in Hb as (c0 & _ & [= <-]). simpl. intros u0 [= <-]. destruct HT as [HT|?]; [|done].
      exists (λ _, []), []. split; [apply new_user_store|]. split; [done|]. by intros mk q Hq%HT.
    - injection Hb as <-. exact Ha. }
  apply bind_Ok in H as (t & Ht & H). apply bind_Ok in H as ([] & _ & H).
  apply bind_Ok in H as (u1 & Hu1 & [= <-]). simpl in Hu. injection Hu as <-.
  assert (user_books T (yi_value t)) as Hy.
  { apply Hc. unfold YdeltaAccountInfo_new in Ht. apply bind_Ok in Ht as (? & _ & Ht).
    apply bind_Ok in Ht as (? & _ & Ht). apply bind_Ok in Ht as (c & Hx%ok_or_Ok & Ht).
    apply bind_Ok in Ht as ([] & _ & Ht). apply bind_Ok in Ht as ([] & _ & [= <-]).
    simpl in *. destruct (tx_content b); try done. by injection Hx as ->. }
  destruct (user_has_free_block _); [by injection Hu1 as <-|]. by apply (expand_user_books _ Hy).
Qed.

Lemma user_life_books h env u : user_life h env u → user_books no_refs u.
Proof.
  induction 1 as [signer a a' u _ IH Ho Hu|now k g ix w w' _ IH Hr|now ctx n id v u l v' u' l' _ IH Hr
    |now ctx n id v u l v' u' l' _ IH Hr].
  - eapply opened_books; [exact Ho|exact Hu|exact IH|]. left. intros ? ? [].
  - refine (process_market_ix_books _ _ _ _ _ _ _ _ w IH _ w' Hr). intros q [].
  - exact (vault_deposit_books _ _ _ _ _ _ _ _ _ IH _ Hr).
  - exact (vault_withdraw_books _ _ _ _ _ _ _ _ _ IH _ Hr).
Qed.

(** ** The properties *)

(** A borrower's account: opened, it claims a seat and deposits, and rests a bid. *)
Section sample.
Context (h : Host) (env : Env).

Definition user_host_account (c : Content) : TxAccount :=
  mkTxAccount (fst (user_account_pda h 77)) (match c with Bytes _ => 0 | _ => YDELTA_ID end)
    1 false true c.
Definition opens (c : Content) : result UserAccount :=
  a ← ensure_user_account_for_signer h 77 (user_host_account c);
  match tx_content a with UserData u => Ok u | _ => Err Panic end.
Definition handed (ix : MarketIx) (m : Market) (u : UserAccount) : result World :=
  process_market_ix (env_invoke_signed env) (env_invoke_token env) (env_parse_stake_state env)
    (env_pdas env) 1700000030 (mkTxKeys 7 0 0) (global_config_new_empty 9) ix
    (mkWorld m None None u borrower_ledger).
Definition life_run : result (Market * UserAccount) :=
  m ← created_market;
  u ← opens (Bytes []);
  w ← handed (IxClaimSeat 77) m u;
  u ← opens (UserData (wd_user w));
  w ← handed (IxDeposit seat_context 5000000 None) (wd_market w) u;
  u ← opens (UserData (wd_user w));
  w' ← handed (IxPlaceOrder bid_context bid_fallback bid_params) (wd_market w) u;
  mret (wd_market w, wd_user w').

Lemma opens_life c u : opens c = Ok u → (∀ u0, c = UserData u0 → user_life h env u0) → user_life h env u.
Proof.
  intros (a & Ha & Hu)%bind_Ok Hc. destruct (tx_content a) eqn:E; try done. injection Hu as <-.
  by eapply (life_opened _ _ 77 (user_host_account c) a).
Qed.

Lemma handed_life ix m u w : handed ix m u = Ok w → user_life h env u → user_life h env (wd_user w).
Proof. intros Hw Hu. by eapply life_market_ix; [|exact Hw]. Qed.

Lemma life_run_life m u : life_run = Ok (m, u) → user_life h env u.
Proof.
  intros (m0 & _ & E)%bind_Ok. apply bind_Ok in E as (u0 & H0 & E).
  apply bind_Ok in E as (w1 & H1 & E). apply bind_Ok in E as (u1 & H2 & E).
  apply bind_Ok in E as (w2 & H3 & E). apply bind_Ok in E as (u2 & H4 & E).
  apply bind_Ok in E as (w3 & H5 & [= <- <-]).
  eapply handed_life; [exact H5|]. eapply opens_life; [exact H4|]. intros x [= <-].
  eapply handed_life; [exact H3|]. eapply opens_life; [exact H2|]. intros x [= <-].
  eapply handed_life; [exact H1|]. by eapply opens_life; [exact H0|].
Qed.
End sample.

(** The market before the bid, and the account after it. *)
Definition before_bid : Market :=
  match life_run sample_host borrower_env with Ok (m, _) => m | Err _ => sample_empty_market end.
Definition after_bid : UserAccount :=
  match life_run sample_host borrower_env with Ok (_, u) => u | Err _ => seated_user end.

Lemma after_bid_life : user_life sample_host borrower_env after_bid.
Proof.
  destruct (life_run sample_host borrower_env) as [[m u]|e] eqn:E; [|vm_compute in E; discriminate E].
  assert (after_bid = u) as -> by (unfold after_bid; by rewrite E). exact (life_run_life _ _ m u E).
Qed.

(** C5: every user account that can come to be is well formed.  Whatever instructions an
    account was handed since it was created, with whatever markets, vaults and results of
    the other programs: it is exactly its four lists and its free blocks, in balanced trees
    and a free list, no block lost or in two places, as many bytes as its header says.  A
    position in a vault, one in a market and a reference to a bid are found under their
    keys, so no key is twice, and the counts of the header are the numbers of blocks of
    each kind.  And no loan is ever listed: nothing of the program enters one. *)
Theorem user_accounts_well_formed (h : Host) (env : Env) (u : UserAccount) (Hu : user_life h env u) :
  user_sound u
  ∧ (∀ i p, read_value (us_dynamic u) i = Ok p →
       lookup_vault_position u (vp_vault p) (vp_sub_vault_id p) = Ok i)
  ∧ (∀ i p seat, read_value (us_dynamic u) i = Ok p → lookup_market_position u (mp_market p) seat = Ok i)
  ∧ (∀ i o, read_value (us_dynamic u) i = Ok o →
       lookup_user_order u (uo_market o) (UserAccount.uo_order_sequence o) = Ok i)
  ∧ ua_vault_position_count (us_fixed u) = blocks_of KVault u
  ∧ ua_market_position_count (us_fixed u) = blocks_of KMarket u
  ∧ ua_user_order_count (us_fixed u) = blocks_of KOrder u
  ∧ ua_num_bytes_allocated (us_fixed u) = USER_ACCOUNT_BLOCK_SIZE * Z.of_nat (size (us_dynamic u))
  ∧ ua_open_loan_count (us_fixed u) = 0 ∧ ∀ loan, lookup_open_loan u loan = Ok NIL.
Proof.
  destruct (user_life_books _ _ _ Hu) as (E & F & H & HL & _). split_and!.
  - by exists E, F.
  - intros i p Hp. apply (store_found H KVault i p _ Hp). simpl. unfold vault_position_cmp. simpl.
    by rewrite !Z.compare_refl.
  - intros i p seat Hp. apply (store_found H KMarket i p _ Hp). simpl. unfold market_position_cmp. simpl.
    by rewrite Z.compare_refl.
  - intros i o Ho. apply (store_found H KOrder i o _ Ho). simpl. unfold user_order_ref_cmp. simpl.
    by rewrite !Z.compare_refl.
  - by rewrite (store_blocks H KVault), <- (uw_count _ _ _ _ H KVault).
  - by rewrite (store_blocks H KMarket), <- (uw_count _ _ _ _ H KMarket).
  - by rewrite (store_blocks H KOrder), <- (uw_count _ _ _ _ H KOrder).
  - apply (store_bytes H).
  - change (count KLoan (us_fixed u) = 0). by rewrite (uw_count _ _ _ _ H KLoan), HL.
  - intros loan. by apply (store_none H KLoan).
Qed.

Lemma user_accounts_well_formed_witness :
  user_sound after_bid ∧ lookup_user_order after_bid 7 0 = Ok 160
  ∧ ua_user_order_count (us_fixed after_bid) = 1 ∧ blocks_of KOrder after_bid = 1
  ∧ ua_num_bytes_allocated (us_fixed after_bid) = 320.
Proof.
  destruct (user_accounts_well_formed sample_host borrower_env after_bid after_bid_life)
    as (H & _ & _ & Ho & _ & _ & Hc & _). split_and!; [exact H|..].
  - destruct (read_value (V:=UserOrderRef) (us_dynamic after_bid) 160) as [o|e] eqn:E;
      [|vm_compute in E; discriminate E].
    specialize (Ho 160 o E). vm_compute in E. injection E as <-. exact Ho.
  - vm_compute. reflexivity.
  - rewrite <- Hc. vm_compute. reflexivity.
  - vm_compute. reflexivity.
Defined.


